(* ===== verification/_CoqProject ===== *)
-Q . S2P
Prelude.v
Wire.v
PyStr.v
Ancs.v
Backlog.v
Connectivity.v
Ams.v
SlidingWindow.v
CallerGuard.v
LeBudget.v
ObexSessions.v
ProfileSupervisor.v
ProfileLifecycle.v
Text.v
Recipients.v
Vcard.v
BMessage.v
Worker.v
Recovery.v
RecoveryScenario.v
RecoverySafety.v
RecoveryProtocol.v
PowerRestore.v
PowerProtocol.v
CallModel.v
Solicitation.v
Bearer.v
BearerSafety.v
BearerDial.v
BearerProgress.v
BearerReport.v
BearerSteps.v
BearerBudget.v
Proximity.v
ProximitySafety.v
ProximityLive.v
BluezHealth.v
BluezReads.v
AncsClient.v
AncsSafety.v
AncsLive.v
AncsProgress.v
PhoneStatus.v
CallControl.v
CallSafety.v
CallEvidence.v
CallReplies.v
CallKeypad.v
CallProgress.v
Json.v
Events.v
NamedGroups.v
Grouping.v
GroupMatching.v
GroupSafety.v
ThreadResponse.v
Threads.v
ThreadSafety.v
ConfirmedGroups.v
SendThread.v
SendSafety.v
SendOnce.v
