(* ===== verification/Prelude.v ===== *)
(** * BlueFerry: a verification development.

    BlueFerry is a per-user daemon that bridges an iPhone to a Linux desktop
    over Bluetooth: notifications over Apple's ANCS and media control over AMS
    on an LE link, messages and contacts over MAP and PBAP on the Classic link
    through obexd, calls over oFono.  The sources are Python files under
    src/src/blueferry/ (written src/blueferry/ below).  This library models
    the parts of the daemon that decide something from untrusted input or that
    coordinate asynchronous work, and proves what makes them correct.

    ** The program's parts and the files that model them

    Bytes and text of the phone:
    - [Wire], [PyStr], [Text]: what the parsers use of Python's [struct], UTF-8
      codec and [str]; no file of the program.
    - [Ancs]: src/blueferry/ancs/parsers.py, constants.py.  The assembler of
      fragmented responses, the parsers and the request builders.
    - [AncsClient] and the files on it: src/blueferry/ancs/client.py, the GATT
      client that asks the phone for notifications and acts on them; it runs on
      [Ancs] and [Backlog] ([AncsSafety] what it may ask and show, [AncsLive]
      and [AncsProgress] that its queue moves).
    - [Ams]: src/blueferry/ams/parsers.py, state.py, constants.py.  Parsers and
      the now-playing projection.
    - [Recipients], [Vcard], [BMessage]: src/blueferry/recipients.py, vcard.py,
      obex/map_send.py, obex/bmessage.py.  Contacts and messages.
    - [CallModel], [PhoneStatus]: src/blueferry/calls/model.py, phone_status.py.
      oFono's properties, dial strings, the phone's battery and network.

    Conversations, from the history to the reply:
    - [Events], [NamedGroups], [Grouping]: src/blueferry/events.py,
      named_groups.py, grouping.py.  Addresses, the saved rosters of groups, and
      the correlation of MAP messages with the ANCS notifications that name
      their group ([GroupMatching] the index of message bodies, [GroupSafety]
      the evidence for a reply).
    - [Threads], [ThreadSafety], [ThreadResponse]: src/blueferry/threads.py, the
      projection to conversations, where a reply goes, and the answer that
      fits the wire ([Json] is the standard library's serializer).
    - [ConfirmedGroups], [SendThread]: src/blueferry/confirmed_groups.py, the
      rosters a user approved, and send and send_to_thread of
      backend_operations.py, from the request over its turn in the queue and
      the refresh to the transfer ([SendSafety] where it goes, [SendOnce] its
      one answer).

    Queues, budgets and guards:
    - [Backlog]: src/blueferry/ancs/sequencer.py.
    - [SlidingWindow], [LeBudget], [CallerGuard]: the deques of time stamps, and
      src/blueferry/le_recovery_budget.py, dbus_security.py.
    - [Worker]: src/blueferry/obex/worker.py.

    Connections and their recovery:
    - [Connectivity], [ObexSessions], [ProfileSupervisor], [ProfileLifecycle]:
      src/blueferry/connectivity.py, obex/sessions.py, profile_supervisor.py,
      where the main loop, a worker thread and obexd's signals interleave.
    - [Bearer] and the files on it: src/blueferry/bearer_supervisor.py, which
      dials the Classic and LE bearers ([BearerSafety] its invariant,
      [BearerDial] the nesting of dials, [BearerProgress] exclusion and
      progress, [BearerReport] non-interference of the bond report,
      [BearerSteps] a frame rule for the whole supervisor, [BearerBudget] the
      rate of LE dials).  It spends [LeBudget].
    - [BluezReads], [BluezHealth]: src/blueferry/bluez_reads.py, bluez_health.py,
      the cache of BlueZ's properties and the watch on its replies.
    - [Proximity], [ProximitySafety], [ProximityLive]:
      src/blueferry/proximity_lock.py, which locks the desktop when the phone
      leaves.
    - [CallControl] and the files on it: src/blueferry/calls/controller.py, with
      the errors of calls/ofono.py: discovery and bring-up of the phone's
      hands-free modem, the calls, their control ([CallSafety] the events,
      [CallEvidence] the grounds of each call, [CallReplies] and [CallKeypad]
      the requests of clients, [CallProgress] the bring-up).
    - [Solicitation]: src/blueferry/solicitation_supervisor.py and the
      advertisement objects of bluez_setup.py.
    - [Recovery], [RecoveryScenario], [RecoverySafety], [RecoveryProtocol]: class
      BluetoothRecovery of src/blueferry/bluetooth_recovery.py; a daemon may end
      and another one, for the same phone or not, start on its state.
    - [PowerRestore], [PowerProtocol]: class BluezRecoveryAdapter of the same
      file, the power transaction of the adapter, each section under its lock
      and each D-Bus call a step of its own.

    ** How state and operations correspond to the code

    A method keeps its name.  A class's attributes are the fields of a Record;
    a method is a function in the monad [M] of this file, whose state survives
    an exception as Python attributes do.  Where callbacks, threads and D-Bus
    replies interleave, an [event] is what the main loop or the worker
    dispatches, [step] is its treatment, and [run] a sequence of events; the
    answers of BlueZ, obexd, oFono and the phone are arguments, so the theorems
    hold for all of them.  D-Bus calls that have not been answered, timers and
    queued callbacks are fields.  Callbacks to the owner and requests sent are
    entries of a [log].  Clock readings are integers in microseconds; one
    callback reads one time.

    ** What the theorems show

    - Round trips and refinement of formats: [Ancs] (fragmentation does not
      matter, what is accepted parses, requests and app names decode to what
      was asked), [BMessage] (what is sent parses back, addressed to exactly
      the recipients), [CallModel], [Recipients], [Vcard].
    - Bounds on untrusted input and on answers: [Vcard], [BMessage], [Ams],
      [CallModel], [ThreadResponse].
    - Rates and budgets over every window of time: [CallerGuard], [LeBudget],
      [BearerBudget], [RecoverySafety].
    - What may be asked of the phone, shown and done: [AncsSafety] (content
      only of admitted apps in the running session, an action only for the offer
      clicked, one write at a time).
    - Grounds of drastic or visible acts: [RecoverySafety], [ProximitySafety],
      [BluezHealth], the calls of [CallEvidence], and the freshness of
      [BluezReads].
    - Whom a reply reaches: [GroupSafety] (only a group whose members and
      recipients the history gives), [ThreadSafety] (only the recipients a conversation shows),
      [SendSafety] (only where the conversations said when it was accepted and
      again at its turn, and a group only as its user approved it);
      [GroupMatching] (an index answers as a scan of the history would, and
      finds what iOS cut).
    - What a consumer of events sees: [CallSafety] (the events replicate the
      calls); what a client is told: [CallReplies], [CallKeypad] (each accepted
      request is answered once, tones in order), [SendOnce] (so is each
      message, except a reply whose refresh raises, which is lost).
    - Invariants and protocol: [Backlog], [Connectivity], [ProfileLifecycle],
      [Worker], [RecoveryProtocol], [PowerProtocol], [Solicitation],
      [BearerProgress].
    - Progress and termination: [ProfileLifecycle], [RecoveryProtocol],
      [BearerProgress], [BearerDial], [AncsProgress], [CallProgress],
      [ProximityLive], and the
      re-arming theorems of [LeBudget] and [CallerGuard].
    - Non-interference: [BearerReport], and the photo budget of [Vcard].

    ** Bounds and fuel

    [Bearer._request_connect] has fuel for the nesting of a dial within the
    failure of a dial; [BearerDial.dial_terminates] shows that two levels
    suffice.  [AncsClient.pump] has the length of its queue as fuel, of which
    each round takes one request; [AncsLive.pump_G] proves that it never runs
    out.  [ThreadResponse.fill] has one round more than there are messages, of
    which each round but the last keeps one.  The loops of the parsers recurse on the text or carry a fuel the
    length of the text covers, with the theorem that it is enough.

    ** What is not modelled

    The user interfaces, the plugins, file and SQLite storage with its
    encryption, and the D-Bus glue are I/O around libraries.  The AMS GATT
    client, the daemon's wiring, the transfers of MAP and PBAP, notification
    policies, audio routing, tethering and pairing drive collaborators outside
    the repository and are left out.
    Rounding of floats, the interpreter's case tables (an interface,
    [Text.CaseMapping]), Unicode normalization and SHA-256 ([NamedGroups.Digests]),
    contacts and the reading of ISO times ([Grouping.Resolver],
    [Threads.Directory]) and re-entrant callbacks of
    the owner are outside the models. *)
From coqutil Require Export Datatypes.RecordSettersUsingExistingGetters.
From stdpp Require Export base gmap strings list fin_maps pretty.
From Stdlib Require Export ZArith Lia.
From Stdlib Require Strings.Byte.

#[global] Open Scope Z_scope.

(** ** Python values *)

(** A Python [int] is a [Z]; a [bytes] or [bytearray] object is a list of
    bytes; a [str] whose content matters is the list of its code points; a
    [str] used only as an identifier or a message is a [string]. *)
Abbreviation byte := Byte.byte.
Abbreviation bytes := (list Byte.byte).
Abbreviation ustr := (list Z).

#[global] Instance byte_eq_dec : EqDecision byte := Byte.byte_eq_dec.

(** The numeric value of a byte, and the byte of a number. *)
Definition b2z (b : byte) : Z := Z.of_N (Byte.to_N b).
Definition z2b (z : Z) : byte := default Byte.x00 (Byte.of_N (Z.to_N (z mod 256))).

Lemma b2z_range b : 0 <= b2z b < 256.
Proof. unfold b2z. pose proof (Byte.to_N_bounded b). lia. Qed.

Lemma z2b_b2z b : z2b (b2z b) = b.
Proof.
  unfold z2b. rewrite Z.mod_small by apply b2z_range.
  unfold b2z. by rewrite N2Z.id, Byte.of_to_N.
Qed.

Lemma b2z_z2b z : b2z (z2b z) = z mod 256.
Proof.
  unfold z2b, b2z. pose proof (Z.mod_pos_bound z 256 eq_refl) as Hz.
  destruct (Byte.of_N (Z.to_N (z mod 256))) as [b|] eqn:E; simpl.
  - apply Byte.to_of_N in E. rewrite E. lia.
  - apply Byte.of_N_None_iff in E. lia.
Qed.

Lemma b2z_z2b_small z : 0 <= z < 256 → b2z (z2b z) = z.
Proof. intros. rewrite b2z_z2b. by apply Z.mod_small. Qed.

Lemma b2z_inj a b : b2z a = b2z b → a = b.
Proof. intros E. rewrite <- (z2b_b2z a), <- (z2b_b2z b). by rewrite E. Qed.

(** [len(l)] as a Python integer, and the slice [l[a:b]] for non-negative
    bounds (Python clips both ends to the length). *)
Definition zlen {A} (l : list A) : Z := Z.of_nat (length l).
Definition slice {A} (a b : Z) (l : list A) : list A :=
  take (Z.to_nat (b - a)) (drop (Z.to_nat a) l).
Definition slice_from {A} (a : Z) (l : list A) : list A := drop (Z.to_nat a) l.

Lemma zlen_nil {A} : zlen (@nil A) = 0.
Proof. done. Qed.
Lemma zlen_cons {A} (x : A) l : zlen (x :: l) = 1 + zlen l.
Proof. unfold zlen. simpl. lia. Qed.
Lemma zlen_app {A} (l1 l2 : list A) : zlen (l1 ++ l2) = zlen l1 + zlen l2.
Proof. unfold zlen. rewrite length_app. lia. Qed.
Lemma zlen_nonneg {A} (l : list A) : 0 <= zlen l.
Proof. unfold zlen. lia. Qed.
Lemma zlen_take {A} n (l : list A) : zlen (take n l) = Z.min (Z.of_nat n) (zlen l).
Proof. unfold zlen. rewrite length_take. lia. Qed.
Lemma zlen_drop {A} n (l : list A) : zlen (drop n l) = Z.max 0 (zlen l - Z.of_nat n).
Proof. unfold zlen. rewrite length_drop. lia. Qed.
Lemma zlen_slice {A} a b (l : list A) : 0 <= a <= b →
  zlen (slice a b l) = Z.max 0 (Z.min b (zlen l) - a).
Proof. intros. unfold slice. rewrite zlen_take, zlen_drop. pose proof (zlen_nonneg l). lia. Qed.
Lemma zlen_0_nil {A} (l : list A) : zlen l = 0 → l = [].
Proof. destruct l; [done|]. rewrite zlen_cons. pose proof (zlen_nonneg l). lia. Qed.

Lemma slice_from_app {A} (l1 l2 : list A) : slice_from (zlen l1) (l1 ++ l2) = l2.
Proof. unfold slice_from, zlen. by rewrite Nat2Z.id, drop_app_length. Qed.
Lemma slice_app_l {A} (l1 l2 : list A) : slice 0 (zlen l1) (l1 ++ l2) = l1.
Proof. unfold slice, zlen. by rewrite Z.sub_0_r, Nat2Z.id, drop_0, take_app_length. Qed.

Lemma slice_app_prefix {A} a b (p q : list A) :
  0 <= a → b <= zlen p → slice a b (p ++ q) = slice a b p.
Proof.
  unfold slice, zlen. intros. rewrite drop_app, take_app.
  rewrite length_drop.
  replace (Z.to_nat (b - a) - (length p - Z.to_nat a))%nat with 0%nat by lia.
  by rewrite take_0, app_nil_r.
Qed.
Lemma slice_shift {A} a b (p q : list A) :
  zlen p <= a → slice a b (p ++ q) = slice (a - zlen p) (b - zlen p) q.
Proof.
  unfold slice, zlen. intros. rewrite drop_app_ge by lia.
  f_equal; [lia|]. f_equal. lia.
Qed.
Lemma slice_from_shift {A} a (p q : list A) :
  zlen p <= a → slice_from a (p ++ q) = slice_from (a - zlen p) q.
Proof. unfold slice_from, zlen. intros. rewrite drop_app_ge by lia. f_equal. lia. Qed.
Lemma slice_of_slice_from {A} c a b (l : list A) :
  0 <= c → 0 <= a → slice a b (slice_from c l) = slice (c + a) (c + b) l.
Proof.
  unfold slice, slice_from. intros. rewrite drop_drop. f_equal; [lia|]. f_equal. lia.
Qed.
Lemma slice_from_slice_from {A} c a (l : list A) :
  0 <= c → 0 <= a → slice_from a (slice_from c l) = slice_from (c + a) l.
Proof. unfold slice_from. intros. rewrite drop_drop. f_equal. lia. Qed.
Lemma zlen_slice_from {A} a (l : list A) : 0 <= a →
  zlen (slice_from a l) = Z.max 0 (zlen l - a).
Proof. intros. unfold slice_from. rewrite zlen_drop. lia. Qed.
Lemma slice_split {A} a b (l : list A) : 0 <= a <= b →
  slice_from a l = slice a b l ++ slice_from b l.
Proof.
  intros. unfold slice, slice_from.
  replace (Z.to_nat b) with (Z.to_nat a + Z.to_nat (b - a))%nat by lia.
  by rewrite <- drop_drop, take_drop.
Qed.

(** Normalises list lengths to [zlen] of variables and calls [lia]. *)
Ltac zlen_norm :=
  repeat first
    [ rewrite !zlen_nil in * | rewrite !zlen_cons in * | rewrite !zlen_app in *
    | rewrite !zlen_take in * | rewrite !zlen_drop in * ];
  repeat match goal with
    | |- context [zlen ?l] => lazymatch goal with
        | H : 0 <= zlen l |- _ => fail | _ => pose proof (zlen_nonneg l) end
    | H : context [zlen ?l] |- _ => lazymatch goal with
        | H : 0 <= zlen l |- _ => fail | _ => pose proof (zlen_nonneg l) end
    end.
Ltac zlen_lia := zlen_norm; lia.

(** ** Exceptions and effects *)

(** The exceptions the modelled code raises, with their message. *)
Inductive exn : Type :=
  | ValueError (msg : string)
  | IndexError (msg : string)
  | KeyError
  | StructError
  | UnicodeEncodeError
  | RuntimeError (msg : string)
  | InvalidArgumentsError (msg : string)
  | NotReadyError (msg : string)
  | OSError
  | FileNotFoundError
  | DBusException (name : string)
  | AuthorizationError (msg : string)
  | RateLimitError (msg : string)
  | NotFoundError (msg : string)
  | ConfirmationRequiredError (msg : string)
  | CallsDisabledError
  | CallsUnavailableError (msg : string)
  | OperationFailedError (operation name : string)
  | SendOutcomeUnknownError.

#[global] Instance exn_eq_dec : EqDecision exn.
Proof. solve_decision. Defined.

Inductive result (A : Type) : Type :=
  | Ok (a : A)
  | Raise (e : exn).
Arguments Ok {A} _.
Arguments Raise {A} _.

#[global] Instance result_eq_dec `{EqDecision A} : EqDecision (result A).
Proof. solve_decision. Defined.

#[global] Instance result_ret : MRet result := @Ok.
#[global] Instance result_bind : MBind result := λ A B f m,
  match m with Ok a => f a | Raise e => Raise e end.
#[global] Instance result_fmap : FMap result := λ A B f m,
  match m with Ok a => Ok (f a) | Raise e => Raise e end.

Definition is_ok {A} (r : result A) : bool := if r is Ok _ then true else false.

Lemma result_bind_ok {A B} (m : result A) (f : A → result B) b :
  m ≫= f = Ok b ↔ ∃ a, m = Ok a ∧ f a = Ok b.
Proof. destruct m; cbn; split; intros; naive_solver. Qed.

(** Methods that change their object: the state survives an exception, as the
    attributes of a Python object do. *)
Definition M (S A : Type) : Type := S → result A * S.

#[global] Instance M_ret S : MRet (M S) := λ A a s, (Ok a, s).
#[global] Instance M_bind S : MBind (M S) := λ A B f m s,
  match m s with
  | (Ok a, s') => f a s'
  | (Raise e, s') => (Raise e, s')
  end.

Lemma M_bind_eq {S A B} (m : M S A) (f : A → M S B) s :
  (m ≫= f) s = match m s with (Ok a, s') => f a s' | (Raise e, s') => (Raise e, s') end.
Proof. done. Qed.

Definition raise {S A} (e : exn) : M S A := λ s, (Raise e, s).
Definition get {S} : M S S := λ s, (Ok s, s).
Definition put {S} (s : S) : M S () := λ _, (Ok (), s).
Definition modify {S} (f : S → S) : M S () := λ s, (Ok (), f s).
Definition gets {S A} (f : S → A) : M S A := λ s, (Ok (f s), s).
Definition lift {S A} (r : result A) : M S A := λ s, (r, s).
Definition when {S} (b : bool) (m : M S ()) : M S () := if b then m else mret ().

(** Runs a list of steps, one after the other, ignoring their results. *)
Fixpoint run_all {S A} (ms : list (M S A)) (s : S) : S :=
  match ms with [] => s | m :: ms' => run_all ms' (m s).2 end.

Lemma run_all_app {S A} (xs ys : list (M S A)) s :
  run_all (xs ++ ys) s = run_all ys (run_all xs s).
Proof. revert s. induction xs; simpl; auto. Qed.

(** An invariant each step keeps holds after any sequence of steps. *)
Lemma run_all_invariant {S A} (I : S → Prop) (ms : list (M S A)) s :
  (∀ m t, m ∈ ms → I t → I (m t).2) → I s → I (run_all ms s).
Proof.
  revert s. induction ms as [|m ms IH]; simpl; intros s Hstep Hs; [done|].
  apply IH; [|apply Hstep; [left|done]].
  intros m' t Hin. apply Hstep. by right.
Qed.

(** A method whose every run relates the old and the new state by [R], a
    preorder: [keeps] composes along the code. *)
Definition keeps {S A} (R : relation S) (m : M S A) : Prop := ∀ s, R s (m s).2.

Section keeps.
Context {S : Type} (R : relation S) `{!PreOrder R}.

Lemma keeps_bind {A B} (m : M S A) (f : A → M S B) :
  keeps R m → (∀ a, keeps R (f a)) → keeps R (m ≫= f).
Proof.
  intros Hm Hf s. unfold mbind, M_bind. specialize (Hm s).
  destruct (m s) as [[a|e] s']; [|done]. cbn in Hm. etrans; [exact Hm|apply Hf].
Qed.
Lemma keeps_pure {A} (m : M S A) : (∀ s, (m s).2 = s) → keeps R m.
Proof. intros Hm s. by rewrite Hm. Qed.
Lemma keeps_modify f : (∀ s, R s (f s)) → keeps R (modify f).
Proof. intros Hf s. apply Hf. Qed.
Lemma keeps_when b m : keeps R m → keeps R (when b m).
Proof. destruct b; [done|]. intros _ s. reflexivity. Qed.
Lemma keeps_run_all {A} (ms : list (M S A)) s : Forall (keeps R) ms → R s (run_all ms s).
Proof.
  intros Hms. revert s. induction Hms as [|m ms Hm _ IH]; intros s; cbn; [done|].
  etrans; [apply Hm|apply IH].
Qed.
End keeps.

(** Proves [keeps R m] along the structure of [m], leaving what the leaves
    owe; the database holds the lemmas for the methods a method calls. *)
Create HintDb keeps discriminated.
#[export] Hint Constants Opaque : keeps.
Ltac keeps :=
  repeat lazymatch goal with
    | |- keeps _ _ =>
        first
          [ solve [auto 1 with keeps nocore]
          | lazymatch goal with
            | |- keeps _ (mbind _ _) => apply keeps_bind; [apply _| |intros ?]
            | |- keeps _ (modify _) => apply keeps_modify; intros ?
            | |- keeps _ (when _ _) => apply keeps_when; [apply _|]
            | |- keeps _ (match ?x with _ => _ end) => destruct x
            | |- keeps _ _ => apply keeps_pure; [apply _|]; intros ?; reflexivity
            end ]
    end.

(** [m] keeps the invariant [I] wherever it stops, also when it raises. *)
Definition holding {S} (I : S → Prop) : relation S := λ w w', I w → I w'.
#[export] Instance holding_preorder {S} (I : S → Prop) : PreOrder (holding I).
Proof. split; unfold holding; [by intros ?|intros ? ? ?; auto]. Qed.

Abbreviation stable I := (keeps (holding I)).

Lemma stable_get_bind {S A} (I : S → Prop) (f : S → M S A) :
  (∀ w, I w → I (f w w).2) → stable I (w ← get; f w).
Proof. intros Hf w Hw. unfold mbind, M_bind, get. by apply Hf. Qed.

(** Total correctness: [m] returns from [s], and [Q] holds of its result. *)
Definition wp {S A} (m : M S A) (Q : A → S → Prop) (s : S) : Prop :=
  match m s with (Ok a, s') => Q a s' | (Raise _, _) => False end.

Lemma wp_bind {S A B} (m : M S A) (f : A → M S B) Q s : wp m (λ a, wp (f a) Q) s → wp (m ≫= f) Q s.
Proof. unfold wp, mbind, M_bind. by destruct (m s) as [[a|e] s']. Qed.
Lemma wp_mono {S A} (m : M S A) (Q Q' : A → S → Prop) s : wp m Q s → (∀ a s', Q a s' → Q' a s') → wp m Q' s.
Proof. unfold wp. destruct (m s) as [[a|e] s']; auto. Qed.
Lemma wp_get {S A} (f : S → M S A) Q s : wp (f s) Q s → wp (get ≫= f) Q s.
Proof. done. Qed.
Lemma wp_modify {S A} g (f : () → M S A) Q s : wp (f ()) Q (g s) → wp (modify g ≫= f) Q s.
Proof. done. Qed.
Lemma wp_ret {S A} (a : A) (Q : A → S → Prop) s : Q a s → wp (mret a) Q s.
Proof. done. Qed.
Lemma wp_modify_last {S} g (Q : () → S → Prop) s : Q () (g s) → wp (modify g) Q s.
Proof. done. Qed.
Lemma wp_result {S A} (m : M S A) Q s : wp m Q s → ∃ a, m s = (Ok a, (m s).2) ∧ Q a (m s).2.
Proof. unfold wp. destruct (m s) as [[a|e] s']; [|done]. eauto. Qed.

Lemma wp_snd {S A} (m : M S A) (I : S → Prop) s : wp m (λ _, I) s → I (m s).2.
Proof. unfold wp. by destruct (m s) as [[a|e] s']. Qed.
(** After a part that returns, only the final state of the rest matters. *)
Lemma wp_then {S A B} (I : S → Prop) (m : M S A) (f : A → M S B) s : wp m (λ a s', I (f a s').2) s → I ((m ≫= f) s).2.
Proof. unfold wp, mbind, M_bind. by destruct (m s) as [[a|e] s']. Qed.
Lemma wp_both {S A} (m : M S A) (Q Q' : A → S → Prop) s : wp m Q s → wp m Q' s → wp m (λ a s', Q a s' ∧ Q' a s') s.
Proof. unfold wp. by destruct (m s) as [[a|e] s']. Qed.
Lemma wp_keeps {S A} (R : relation S) (m : M S A) Q s : keeps R m → wp m Q s → wp m (λ a s', Q a s' ∧ R s s') s.
Proof. intros Hk. specialize (Hk s). unfold wp. destruct (m s) as [[a|e] s']; cbn in Hk; auto. Qed.

(** A method that returns from every state, related to the old one by [R]. *)
Definition tame {S A} (R : relation S) (m : M S A) : Prop := ∀ s, wp m (λ _ s', R s s') s.

Section tame.
Context {S : Type} (R : relation S) `{!PreOrder R}.

Lemma tame_bind {A B} (m : M S A) (f : A → M S B) : tame R m → (∀ a, tame R (f a)) → tame R (m ≫= f).
Proof.
  intros Hm Hf s. apply wp_bind. eapply wp_mono; [apply Hm|]. intros a s' H1.
  eapply wp_mono; [apply Hf|]. intros b s'' H2. etrans; [exact H1|exact H2].
Qed.
Lemma tame_ret {A} (a : A) : tame R (mret a).
Proof. intros s. change (R s s). reflexivity. Qed.
Lemma tame_get : tame R get.
Proof. intros s. change (R s s). reflexivity. Qed.
Lemma tame_modify f : (∀ s, R s (f s)) → tame R (modify f).
Proof. intros Hf s. apply Hf. Qed.
Lemma tame_when b m : tame R m → tame R (when b m).
Proof. destruct b; [done|]. intros _. apply tame_ret. Qed.
Lemma tame_keeps {A} (m : M S A) : tame R m → keeps R m.
Proof. intros Hm s. specialize (Hm s). unfold wp in Hm. by destruct (m s) as [[a|e] s']. Qed.
End tame.

(** Proves [tame R m] along the structure of [m]. *)
Create HintDb tame discriminated.
#[export] Hint Constants Opaque : tame.
Ltac tame :=
  repeat lazymatch goal with
    | |- tame _ _ =>
        first
          [ solve [auto 1 with tame nocore]
          | lazymatch goal with
            | |- tame _ (mbind _ _) => apply tame_bind; [apply _| |intros ?]
            | |- tame _ get => apply tame_get; apply _
            | |- tame _ (mret _) => apply tame_ret; apply _
            | |- tame _ (modify _) => apply tame_modify; intros ?
            | |- tame _ (when _ _) => apply tame_when; [apply _|]
            | |- tame _ (match ?x with _ => _ end) => destruct x
            end ]
    end.

(** ** Record updates *)

(** [r <| f := v |>] is [r] with field [f] set, [r <| f ::= g |>] with [f]
    transformed; projections of an updated record compute by [cbn]. *)
Arguments RecordSettersUsingExistingGetters.const {_} _ _ /.
Arguments RecordSettersUsingExistingGetters.set {_ _} _ {_} _ _ /.

(** ** Identifiers and messages *)

(** [needle in s]. *)
Fixpoint contains (needle s : string) : bool :=
  String.prefix needle s || match s with EmptyString => false | String _ s' => contains needle s' end.

(** [s.casefold()] of an ASCII string. *)
Definition lower_ascii (a : Ascii.ascii) : Ascii.ascii :=
  let n := Ascii.N_of_ascii a in
  if ((65 <=? n) && (n <=? 90))%N then Ascii.ascii_of_N (n + 32) else a.
Fixpoint casefold (s : string) : string :=
  match s with EmptyString => EmptyString | String a s' => String (lower_ascii a) (casefold s') end.

Definition is_some {A} (o : option A) : bool := if o is Some _ then true else false.

(** ** Time *)

(** Clock readings are whole microseconds: [sec n] is [n] seconds. *)
Abbreviation time := Z (only parsing).
Definition sec (n : Z) : Z := n * 1000000.
Definition msec (n : Z) : Z := n * 1000.

(** ** Automation shared by the files *)
Ltac split_ifs :=
  repeat match goal with
    | |- context [if ?b then _ else _] => destruct b eqn:?
    | H : context [if ?b then _ else _] |- _ => destruct b eqn:?
    end.

(** Decides the integer comparisons of the goal that [lia] can settle. *)
Ltac zbool :=
  repeat match goal with
    | |- context [?a <? ?b] =>
        first [ rewrite (proj2 (Z.ltb_lt a b)) by lia | rewrite (proj2 (Z.ltb_ge a b)) by lia ]
    | |- context [?a <=? ?b] =>
        first [ rewrite (proj2 (Z.leb_le a b)) by lia | rewrite (proj2 (Z.leb_gt a b)) by lia ]
    | |- context [?a =? ?b] =>
        first [ rewrite (proj2 (Z.eqb_eq a b)) by lia | rewrite (proj2 (Z.eqb_neq a b)) by lia ]
    end; cbn [negb andb orb].

(** Unfolds the state monad in the goal. *)
Ltac monad_simpl :=
  unfold mbind, M_bind, mret, M_ret, get, put, gets, modify, raise, lift, when;
  cbn beta iota zeta delta [fst snd].
