(* ===== verification/Wire.v ===== *)
(** * Wire: the parts of Python's [struct] and of its UTF-8 codec that the
    Apple-service parsers rely on, with their round trips.

    [pack_*] and [unpack_*] are the little-endian [struct] formats the source
    uses ([B], [H], [I]); [utf8_encode] is [str.encode("utf-8")] and
    [utf8_decode] is [bytes.decode("utf-8", errors="replace")] (CPython: one
    U+FFFD per maximal ill-formed subpart).  Nothing here models a file of the
    program; the components are built on it. *)
From S2P Require Import Prelude.

(** ** Little-endian integers *)

Fixpoint le_val (bs : bytes) : Z :=
  match bs with [] => 0 | b :: bs' => b2z b + 256 * le_val bs' end.

Fixpoint le_bytes (n : nat) (z : Z) : bytes :=
  match n with O => [] | S n' => z2b z :: le_bytes n' (z / 256) end.

(** [struct.pack("<H", z)] and friends raise [struct.error] out of range. *)
Definition pack_le (n : nat) (z : Z) : result bytes :=
  if (0 <=? z) && (z <? 256 ^ Z.of_nat n) then Ok (le_bytes n z) else Raise StructError.
Definition pack_u16 := pack_le 2.
Definition pack_u32 := pack_le 4.

(** [bytes([z])] and [bytearray.append(z)] raise [ValueError] out of range. *)
Definition byte_of (z : Z) : result bytes :=
  if (0 <=? z) && (z <? 256) then Ok [z2b z]
  else Raise (ValueError "byte must be in range(0, 256)").

Lemma le_val_range bs : 0 <= le_val bs < 256 ^ zlen bs.
Proof.
  induction bs as [|b bs IH]; [done|].
  rewrite zlen_cons, Z.pow_add_r by (pose proof (zlen_nonneg bs); lia).
  simpl le_val. pose proof (b2z_range b). lia.
Qed.

Lemma length_le_bytes n z : length (le_bytes n z) = n.
Proof. revert z. induction n; simpl; auto. Qed.

Lemma zlen_le_bytes n z : zlen (le_bytes n z) = Z.of_nat n.
Proof. unfold zlen. by rewrite length_le_bytes. Qed.

Lemma le_val_bytes n z : 0 <= z < 256 ^ Z.of_nat n → le_val (le_bytes n z) = z.
Proof.
  revert z. induction n as [|n IH]; intros z Hz.
  - change (256 ^ Z.of_nat 0) with 1 in Hz. simpl. lia.
  - rewrite Nat2Z.inj_succ, Z.pow_succ_r in Hz by lia.
    cbn [le_bytes le_val]. rewrite IH, b2z_z2b.
    + pose proof (Z_div_mod_eq_full z 256). lia.
    + split; [apply Z.div_pos; lia | apply Z.div_lt_upper_bound; lia].
Qed.

Lemma le_bytes_val bs : le_bytes (length bs) (le_val bs) = bs.
Proof.
  induction bs as [|b bs IH]; [done|]. cbn [length le_val le_bytes].
  pose proof (b2z_range b).
  replace ((b2z b + 256 * le_val bs) / 256) with (le_val bs)
    by (Z.to_euclidean_division_equations; lia).
  rewrite IH. f_equal. apply b2z_inj. rewrite b2z_z2b.
  Z.to_euclidean_division_equations; lia.
Qed.

Lemma pack_le_ok n z bs : pack_le n z = Ok bs →
  bs = le_bytes n z ∧ 0 <= z < 256 ^ Z.of_nat n.
Proof. unfold pack_le. intros. split_ifs; simplify_eq. split; [done | lia]. Qed.

Lemma pack_le_in_range n z : 0 <= z < 256 ^ Z.of_nat n → pack_le n z = Ok (le_bytes n z).
Proof. intros. unfold pack_le. by rewrite (proj2 (andb_true_iff _ _)) by lia. Qed.

Lemma le_val_app bs1 bs2 : le_val (bs1 ++ bs2) = le_val bs1 + 256 ^ zlen bs1 * le_val bs2.
Proof.
  induction bs1 as [|b bs1 IH]; cbn [app le_val].
  - change (256 ^ zlen []) with 1. lia.
  - rewrite zlen_cons, Z.pow_add_r by (pose proof (zlen_nonneg bs1); lia).
    rewrite IH. change (256 ^ 1) with 256. ring.
Qed.

(** ** UTF-8 *)

Definition REPLACEMENT : Z := 0xFFFD.

(** A code point [str.encode("utf-8")] accepts: not a surrogate. *)
Definition is_scalar (c : Z) : bool :=
  (0 <=? c) && (c <? 0x110000) && negb ((0xD800 <=? c) && (c <? 0xE000)).

Definition utf8_char (c : Z) : bytes :=
  if c <? 0x80 then [z2b c]
  else if c <? 0x800 then [z2b (0xC0 + c / 64); z2b (0x80 + c mod 64)]
  else if c <? 0x10000 then
    [z2b (0xE0 + c / 4096); z2b (0x80 + c / 64 mod 64); z2b (0x80 + c mod 64)]
  else
    [z2b (0xF0 + c / 262144); z2b (0x80 + c / 4096 mod 64);
     z2b (0x80 + c / 64 mod 64); z2b (0x80 + c mod 64)].

Fixpoint utf8_encode (s : ustr) : result bytes :=
  match s with
  | [] => Ok []
  | c :: s' =>
      if is_scalar c then rest ← utf8_encode s'; mret (utf8_char c ++ rest)
      else Raise UnicodeEncodeError
  end.

Definition is_cont (b : byte) : bool := (0x80 <=? b2z b) && (b2z b <? 0xC0).

(** The second byte of a three- or four-byte sequence: overlong forms,
    surrogates and values above U+10FFFF are excluded here. *)
Definition cont3_ok (b0 b1 : byte) : bool :=
  is_cont b1 && negb ((b2z b0 =? 0xE0) && (b2z b1 <? 0xA0))
  && negb ((b2z b0 =? 0xED) && (0xA0 <=? b2z b1)).
Definition cont4_ok (b0 b1 : byte) : bool :=
  is_cont b1 && negb ((b2z b0 =? 0xF0) && (b2z b1 <? 0x90))
  && negb ((b2z b0 =? 0xF4) && (0x90 <=? b2z b1)).

Definition low6 (b : byte) : Z := b2z b - 0x80.

Fixpoint utf8_decode (bs : bytes) : ustr :=
  match bs with
  | [] => []
  | b0 :: r0 =>
      if b2z b0 <? 0x80 then b2z b0 :: utf8_decode r0
      else if b2z b0 <? 0xC2 then REPLACEMENT :: utf8_decode r0
      else if b2z b0 <? 0xE0 then
        match r0 with
        | [] => [REPLACEMENT]
        | b1 :: r1 =>
            if is_cont b1 then (b2z b0 - 0xC0) * 64 + low6 b1 :: utf8_decode r1
            else REPLACEMENT :: utf8_decode r0
        end
      else if b2z b0 <? 0xF0 then
        match r0 with
        | [] => [REPLACEMENT]
        | b1 :: r1 =>
            if cont3_ok b0 b1 then
              match r1 with
              | [] => [REPLACEMENT]
              | b2 :: r2 =>
                  if is_cont b2 then
                    (b2z b0 - 0xE0) * 4096 + low6 b1 * 64 + low6 b2 :: utf8_decode r2
                  else REPLACEMENT :: utf8_decode r1
              end
            else REPLACEMENT :: utf8_decode r0
        end
      else if b2z b0 <? 0xF5 then
        match r0 with
        | [] => [REPLACEMENT]
        | b1 :: r1 =>
            if cont4_ok b0 b1 then
              match r1 with
              | [] => [REPLACEMENT]
              | b2 :: r2 =>
                  if is_cont b2 then
                    match r2 with
                    | [] => [REPLACEMENT]
                    | b3 :: r3 =>
                        if is_cont b3 then
                          (b2z b0 - 0xF0) * 262144 + low6 b1 * 4096 + low6 b2 * 64 + low6 b3
                            :: utf8_decode r3
                        else REPLACEMENT :: utf8_decode r2
                    end
                  else REPLACEMENT :: utf8_decode r1
              end
            else REPLACEMENT :: utf8_decode r0
        end
      else REPLACEMENT :: utf8_decode r0
  end.

Example utf8_decode_truncated : utf8_decode [z2b 0xE2; z2b 0x82] = [REPLACEMENT].
Proof. reflexivity. Qed.
Example utf8_decode_surrogate :
  utf8_decode [z2b 0xED; z2b 0xA0; z2b 0x80] = [REPLACEMENT; REPLACEMENT; REPLACEMENT].
Proof. reflexivity. Qed.

Ltac Zdivmod_facts :=
  repeat match goal with
  | |- context [?a / ?b] => lazymatch goal with
      | H : a = b * (a / b) + a mod b |- _ => fail
      | _ => pose proof (Z_div_mod_eq_full a b); pose proof (Z.mod_pos_bound a b eq_refl) end
  | |- context [?a mod ?b] => lazymatch goal with
      | H : a = b * (a / b) + a mod b |- _ => fail
      | _ => pose proof (Z_div_mod_eq_full a b); pose proof (Z.mod_pos_bound a b eq_refl) end
  end.

Ltac bool_lia :=
  rewrite ?(proj2 (Z.ltb_lt _ _)) by lia; rewrite ?(proj2 (Z.ltb_ge _ _)) by lia.

Lemma utf8_decode_char c rest : is_scalar c = true →
  utf8_decode (utf8_char c ++ rest) = c :: utf8_decode rest.
Proof.
  unfold is_scalar, utf8_char. intros Hc.
  repeat (rewrite andb_true_iff in Hc || rewrite negb_true_iff in Hc).
  destruct (c <? 0x80) eqn:E1; [|destruct (c <? 0x800) eqn:E2; [|destruct (c <? 0x10000) eqn:E3]];
    cbn [app utf8_decode]; unfold cont3_ok, cont4_ok, is_cont, low6;
    rewrite !b2z_z2b_small by (Zdivmod_facts; lia).
  all: Zdivmod_facts.
  all: repeat match goal with
    | |- context [if ?b then _ else _] =>
        first [ replace b with true by (symmetry; lia) | replace b with false by (symmetry; lia) ]
    end; f_equal; lia.
Qed.

Lemma utf8_encode_cons c s bs : utf8_encode (c :: s) = Ok bs →
  ∃ r, is_scalar c = true ∧ utf8_encode s = Ok r ∧ bs = utf8_char c ++ r.
Proof.
  change (utf8_encode (c :: s)) with
    (if is_scalar c then rest ← utf8_encode s; mret (utf8_char c ++ rest)
     else Raise UnicodeEncodeError).
  destruct (is_scalar c); [|done]. intros (r & Hr & E)%result_bind_ok.
  exists r. split_and!; [done..|]. by injection E as <-.
Qed.

(** Decoding what [encode] produced gives the string back. *)
Lemma utf8_roundtrip s bs : utf8_encode s = Ok bs → utf8_decode bs = s.
Proof.
  revert bs. induction s as [|c s IH]; intros bs H; [by injection H as <-|].
  apply utf8_encode_cons in H as (r & Hc & Hr & ->).
  by rewrite utf8_decode_char, (IH r).
Qed.

Lemma utf8_encode_ok s : Forall (λ c, is_scalar c = true) s → is_ok (utf8_encode s) = true.
Proof.
  induction 1 as [|c s Hc _ IH]; cbn; [done|]. rewrite Hc.
  by destruct (utf8_encode s).
Qed.

(** No encoded string of non-NUL characters contains a NUL byte. *)
Lemma utf8_char_nonzero c : is_scalar c = true → c ≠ 0 → Forall (λ b, b ≠ Byte.x00) (utf8_char c).
Proof.
  unfold is_scalar, utf8_char. intros Hc Hn.
  assert (Hz : ∀ z, 0 < z < 256 → z2b z ≠ Byte.x00).
  { intros z Hz E. apply (f_equal b2z) in E. rewrite b2z_z2b_small in E by lia.
    change (b2z Byte.x00) with 0 in E. lia. }
  repeat (rewrite andb_true_iff in Hc || rewrite negb_true_iff in Hc).
  destruct (c <? 0x80) eqn:E1; [|destruct (c <? 0x800) eqn:E2; [|destruct (c <? 0x10000) eqn:E3]];
    repeat constructor; apply Hz; Zdivmod_facts; lia.
Qed.

Lemma utf8_encode_nonzero s bs : utf8_encode s = Ok bs → 0 ∉ s → Byte.x00 ∉ bs.
Proof.
  revert bs. induction s as [|c s IH]; intros bs H Hs.
  { injection H as <-. apply not_elem_of_nil. }
  apply utf8_encode_cons in H as (r & Hc & Hr & ->).
  rewrite elem_of_app. intros [Hin|Hin].
  - pose proof (utf8_char_nonzero c Hc ltac:(set_solver)) as Hf.
    rewrite Forall_forall in Hf. by apply (Hf _ Hin).
  - apply (IH r); [done | set_solver | done].
Qed.

(** A character cut inside its encoding decodes to one replacement character. *)
Lemma utf8_decode_partial_char c k : is_scalar c = true →
  (0 < k < length (utf8_char c))%nat →
  utf8_decode (take k (utf8_char c)) = [REPLACEMENT].
Proof.
  unfold is_scalar, utf8_char. intros Hc Hk.
  repeat (rewrite andb_true_iff in Hc || rewrite negb_true_iff in Hc).
  destruct (c <? 0x80) eqn:E1; [|destruct (c <? 0x800) eqn:E2; [|destruct (c <? 0x10000) eqn:E3]];
    cbn [length] in Hk; destruct k as [|[|[|[|]]]]; try lia;
    cbn [take utf8_decode]; unfold cont3_ok, cont4_ok, is_cont, low6;
    rewrite !b2z_z2b_small by (Zdivmod_facts; lia).
  all: Zdivmod_facts.
  all: repeat match goal with
    | |- context [if ?b then _ else _] =>
        first [ replace b with true by (symmetry; lia) | replace b with false by (symmetry; lia) ]
    end; done.
Qed.

(** A byte prefix of an encoded string decodes to a prefix of the string,
    followed by a replacement character when a character was cut. *)
Lemma utf8_decode_take s bs n : utf8_encode s = Ok bs →
  ∃ p, p `prefix_of` s ∧
    (utf8_decode (take n bs) = p ∨ utf8_decode (take n bs) = p ++ [REPLACEMENT]).
Proof.
  revert bs n. induction s as [|c s IH]; intros bs n H.
  { injection H as <-. exists []. rewrite take_nil. auto. }
  apply utf8_encode_cons in H as (r & Hc & Hr & ->).
  destruct (decide (length (utf8_char c) ≤ n)%nat) as [Hn|Hn].
  - rewrite take_app_ge by done. rewrite utf8_decode_char by done.
    destruct (IH r (n - length (utf8_char c))%nat Hr) as (p & Hp & Ht).
    exists (c :: p). split; [by apply prefix_cons|].
    destruct Ht as [->| ->]; [by left|by right].
  - rewrite take_app_le by lia. exists []. split; [apply prefix_nil|].
    destruct n as [|n]; [left; by rewrite take_0|right].
    apply utf8_decode_partial_char; [done|lia].
Qed.
