(* ===== verification/PyStr.v ===== *)
(** * PyStr: the [str] methods the program uses, on lists of code points.

    [str.split()] and [str.join], [re.sub] of a one-or-more character class,
    and the character classes behind them ([str.isspace] is the complete
    Unicode table of CPython).  The lemmas are the facts the text-cleaning
    routines of the components need. *)
From S2P Require Import Prelude.

(** [str.isspace] on one character (bidirectional class WS, B or S, or
    category Zs): the set [str.split()] and the regular expression [\s] use. *)
Definition is_space (c : Z) : bool :=
  ((9 <=? c) && (c <=? 13)) || ((28 <=? c) && (c <=? 32)) || (c =? 0x85) || (c =? 0xA0)
  || (c =? 0x1680) || ((0x2000 <=? c) && (c <=? 0x200A)) || (c =? 0x2028) || (c =? 0x2029)
  || (c =? 0x202F) || (c =? 0x205F) || (c =? 0x3000).

(** A [str] literal of ASCII characters. *)
Definition lit (s : string) : ustr :=
  (λ a, Z.of_N (Ascii.N_of_ascii a)) <$> String.list_ascii_of_string s.

(** [re.sub(r"[class]+", repl, s)] for a one-character replacement. *)
Fixpoint sub_runs_aux (cls : Z → bool) (repl : Z) (in_run : bool) (s : ustr) : ustr :=
  match s with
  | [] => []
  | c :: s' =>
      if cls c then
        if in_run then sub_runs_aux cls repl true s' else repl :: sub_runs_aux cls repl true s'
      else c :: sub_runs_aux cls repl false s'
  end.
Definition sub_runs (cls : Z → bool) (repl : Z) (s : ustr) : ustr := sub_runs_aux cls repl false s.

(** [s.split()]: the maximal runs of non-space characters. *)
Fixpoint split_ws_aux (cur : ustr) (s : ustr) : list ustr :=
  match s with
  | [] => match cur with [] => [] | _ => [reverse cur] end
  | c :: s' =>
      if is_space c then
        match cur with [] => split_ws_aux [] s' | _ => reverse cur :: split_ws_aux [] s' end
      else split_ws_aux (c :: cur) s'
  end.
Definition split_ws (s : ustr) : list ustr := split_ws_aux [] s.

(** [sep.join(parts)]. *)
Fixpoint join (sep : ustr) (parts : list ustr) : ustr :=
  match parts with
  | [] => []
  | [p] => p
  | p :: ps => p ++ sep ++ join sep ps
  end.

Definition SPACE : Z := 32.

(** A non-empty run of non-space characters. *)
Definition is_word (w : ustr) : Prop := w ≠ [] ∧ Forall (λ c, is_space c = false) w.

Lemma split_ws_aux_words cur s :
  Forall (λ c, is_space c = false) cur → Forall is_word (split_ws_aux cur s).
Proof.
  revert cur. induction s as [|c s IH]; cbn [split_ws_aux]; intros cur Hcur.
  - destruct cur; constructor; [|done]. split; [|by apply Forall_reverse].
    intros E%(f_equal length). rewrite length_reverse in E. done.
  - destruct (is_space c) eqn:E; [|apply IH; by constructor].
    destruct cur; [by apply IH|]. constructor; [|by apply IH].
    split; [|by apply Forall_reverse].
    intros E'%(f_equal length). rewrite length_reverse in E'. done.
Qed.

Lemma split_ws_words s : Forall is_word (split_ws s).
Proof. by apply split_ws_aux_words. Qed.

Lemma split_ws_aux_chars cur s w c :
  w ∈ split_ws_aux cur s → c ∈ w → c ∈ cur ∨ c ∈ s.
Proof.
  revert cur. induction s as [|x s IH]; cbn [split_ws_aux]; intros cur Hw Hc.
  - destruct cur; [by apply elem_of_nil in Hw|].
    apply list_elem_of_singleton in Hw as ->. left. by rewrite elem_of_reverse in Hc.
  - rewrite elem_of_cons. destruct (is_space x).
    + destruct cur as [|y cur].
      * destruct (IH _ Hw Hc) as [H|H]; [by apply elem_of_nil in H|tauto].
      * apply elem_of_cons in Hw as [->|Hw]; [left; by rewrite elem_of_reverse in Hc|].
        destruct (IH _ Hw Hc) as [H|H]; [by apply elem_of_nil in H|tauto].
    + destruct (IH _ Hw Hc) as [H|H]; [apply elem_of_cons in H; tauto|tauto].
Qed.

Lemma split_ws_chars s w c : w ∈ split_ws s → c ∈ w → c ∈ s.
Proof. intros Hw Hc. destruct (split_ws_aux_chars _ _ _ _ Hw Hc) as [H|H]; [set_solver|done]. Qed.

Lemma sub_runs_aux_class cls repl b s :
  cls repl = false → Forall (λ c, cls c = false) (sub_runs_aux cls repl b s).
Proof.
  intros Hr. revert b. induction s as [|c s IH]; simpl; intros b; [done|].
  destruct (cls c) eqn:E; [|by constructor]. destruct b; [done|by constructor].
Qed.

Lemma join_chars sep ps c : c ∈ join sep ps → c ∈ sep ∨ ∃ p, p ∈ ps ∧ c ∈ p.
Proof.
  induction ps as [|p ps IH]; simpl; [set_solver|].
  destruct ps as [|q ps]; [set_solver|].
  rewrite !elem_of_app. intros [H|[H|H]]; [set_solver|by left|].
  destruct (IH H) as [?|(r & Hr & ?)]; [by left|]. right. exists r. set_solver.
Qed.

(** Text in the form [" ".join(s.split())] produces: words separated by one
    plain space. *)
Inductive normalized : ustr → Prop :=
  | normalized_nil : normalized []
  | normalized_word w : is_word w → normalized w
  | normalized_cons w s : is_word w → s ≠ [] → normalized s → normalized (w ++ SPACE :: s).

Lemma join_normalized ws : Forall is_word ws → normalized (join [SPACE] ws).
Proof.
  induction 1 as [|w ws Hw Hws IH]; [constructor|]. cbn [join].
  destruct ws as [|w' ws]; [by constructor|]. cbn [app]. apply normalized_cons; [done| |done].
  apply Forall_cons in Hws as [[Hne _] _].
  cbn [join]. destruct ws; destruct w'; done.
Qed.

Lemma split_ws_word_app w s : Forall (λ c, is_space c = false) w → ∀ cur,
  split_ws_aux cur (w ++ s) = split_ws_aux (reverse w ++ cur) s.
Proof.
  induction 1 as [|c w Hc Hw IH]; intros cur; [done|]. cbn [app split_ws_aux].
  rewrite Hc, IH. by rewrite reverse_cons, <- (assoc_L (++)).
Qed.

Lemma split_ws_aux_end cur s : cur ≠ [] →
  split_ws_aux cur (SPACE :: s) = reverse cur :: split_ws_aux [] s.
Proof. intros Hc. cbn. by destruct cur. Qed.

(** Splitting normalized text and joining it again gives it back. *)
Lemma normalized_split_join s : normalized s → join [SPACE] (split_ws s) = s.
Proof.
  unfold split_ws. induction 1 as [|w [Hne Hw]|w s [Hne Hw] Hs _ IH]; [done| |].
  - rewrite <- (app_nil_r w) at 1. rewrite split_ws_word_app by done. rewrite app_nil_r.
    cbn. destruct (reverse w) eqn:E.
    + apply (f_equal length) in E. rewrite length_reverse in E. by destruct w.
    + rewrite <- E. cbn. by rewrite reverse_involutive.
  - rewrite split_ws_word_app, app_nil_r by done. rewrite split_ws_aux_end.
    + rewrite reverse_involutive. cbn [join].
      destruct (split_ws_aux [] s) as [|p ps] eqn:E; [cbn in IH; congruence|].
      by rewrite IH.
    + intros E%(f_equal length). rewrite length_reverse in E. by destruct w.
Qed.

Lemma normalized_chars s c : normalized s → c ∈ s → c = SPACE ∨ is_space c = false.
Proof.
  induction 1 as [|w [_ Hw]|w s [_ Hw] _ _ IH]; [set_solver| |].
  - rewrite Forall_forall in Hw. right. by apply Hw.
  - rewrite elem_of_app, elem_of_cons. rewrite Forall_forall in Hw.
    intros [H|[->|H]]; [right; by apply Hw|by left|by apply IH].
Qed.
