(* ===== verification/Ancs.v ===== *)
(** * Ancs: the ANCS wire format (src/blueferry/ancs/parsers.py, constants.py).

    The inbound parsers, the Data Source assembler that splices a fragmented
    response, and the Control Point builders, translated function by function.
    Bytes are [Byte.byte]s, [struct] and UTF-8 come from [Wire]. *)
From S2P Require Import Prelude Wire PyStr.

(** ** Constants (ancs/constants.py) *)

Definition USHORT_MAX : Z := 2 ^ 16 - 1.
Definition UINT_MAX : Z := 2 ^ 32 - 1.
Definition ANCS_TITLE_MAX_BYTES : Z := 128.
Definition ANCS_SUBTITLE_MAX_BYTES : Z := 128.
Definition ANCS_MESSAGE_MAX_BYTES : Z := 1024.

Module EventID.
Definition NotificationAdded : Z := 0.
Definition NotificationModified : Z := 1.
Definition NotificationRemoved : Z := 2.
End EventID.

Module EventFlag.
Definition Silent : Z := Z.shiftl 1 0.
Definition Important : Z := Z.shiftl 1 1.
Definition PreExisting : Z := Z.shiftl 1 2.
Definition PositiveAction : Z := Z.shiftl 1 3.
Definition NegativeAction : Z := Z.shiftl 1 4.
End EventFlag.

Module CommandID.
Definition GetNotificationAttributes : Z := 0.
Definition GetAppAttributes : Z := 1.
Definition PerformNotificationAction : Z := 2.
End CommandID.

Module ActionID.
Definition Positive : Z := 0.
Definition Negative : Z := 1.
End ActionID.

Module AttributeID.
Definition AppIdentifier : Z := 0.
Definition Title : Z := 1.
Definition Subtitle : Z := 2.
Definition Message : Z := 3.
Definition PositiveActionLabel : Z := 6.
Definition NegativeActionLabel : Z := 7.
Definition DisplayName : Z := 0.
End AttributeID.

(** ** Module constants (ancs/parsers.py) *)

Definition MAX_DATA_SOURCE_RESPONSE : Z := 64 * 1024.
Definition MAX_ACTION_LABEL_CHARS : Z := 64.
Definition ACTION_LABEL_ATTRIBUTE_IDS : list Z :=
  [AttributeID.PositiveActionLabel; AttributeID.NegativeActionLabel].

(** ** Inbound parsers *)

Definition parse_attr_string (data : bytes) : result (ustr * bytes) :=
  if zlen data <? 3 then Raise (ValueError "short attribute header") else
  let size := le_val (slice 1 3 data) in
  let body := slice 3 (3 + size) data in
  if zlen body <? size then Raise (ValueError "truncated attribute body") else
  Ok (utf8_decode body, slice_from (3 + size) data).

Record Notification := mkNotification {
  n_id : Z;
  n_type : Z;
  n_flags : Z;
  n_category : Z;
  n_category_count : Z;
}.

Definition Notification_parse (data : bytes) : result Notification :=
  if zlen data <? 8 then
    Raise (ValueError ("NS packet too short (" +:+ pretty (zlen data) +:+ " bytes)"))
  else
    let u8 (i : Z) := le_val (slice i (i + 1) data) in
    Ok {| n_type := u8 0; n_flags := u8 1; n_category := u8 2; n_category_count := u8 3;
          n_id := le_val (slice 4 8 data) |}.

Definition is_preexisting (n : Notification) : bool :=
  negb (Z.land (n_flags n) EventFlag.PreExisting =? 0).
Definition has_positive_action (n : Notification) : bool :=
  negb (Z.land (n_flags n) EventFlag.PositiveAction =? 0).
Definition has_negative_action (n : Notification) : bool :=
  negb (Z.land (n_flags n) EventFlag.NegativeAction =? 0).

Definition action_label_ids (n : Notification) : list Z :=
  (if has_positive_action n then [AttributeID.PositiveActionLabel] else [])
  ++ (if has_negative_action n then [AttributeID.NegativeActionLabel] else []).

(** [_LABEL_CONTROL_RE]: [\x00-\x1f\x7f-\x9f\u2028\u2029]. *)
Definition is_label_control (c : Z) : bool :=
  ((0 <=? c) && (c <=? 0x1F)) || ((0x7F <=? c) && (c <=? 0x9F))
  || (c =? 0x2028) || (c =? 0x2029).

Definition _clean_action_label (label : ustr) : ustr :=
  let cleaned := join [SPACE] (split_ws (sub_runs is_label_control SPACE label)) in
  slice 0 MAX_ACTION_LABEL_CHARS cleaned.

Record NotificationAttributes := mkNotificationAttributes {
  na_id : Z;
  na_app_id : ustr;
  na_title : ustr;
  na_subtitle : ustr;
  na_message : ustr;
  na_positive_action_label : ustr;
  na_negative_action_label : ustr;
}.

(** The [for expected in action_label_ids] loop: the labels read so far and
    the unread rest of the message. *)
Fixpoint parse_labels (ids : list Z) (labels : gmap Z ustr) (msg : bytes)
    : result (gmap Z ustr * bytes) :=
  match ids with
  | [] => Ok (labels, msg)
  | expected :: ids' =>
      if negb (bool_decide (expected ∈ ACTION_LABEL_ATTRIBUTE_IDS))
         || bool_decide (is_Some (labels !! expected))
      then Raise (ValueError "unsupported action label request")
      else if (match msg with [] => true | b :: _ => negb (b2z b =? expected) end)
      then Raise (ValueError "unexpected notification attributes")
      else
        '(label, msg') ← parse_attr_string msg;
        parse_labels ids' (<[expected := _clean_action_label label]> labels) msg'
  end.

Definition NotificationAttributes_parse (body : bytes) (ids : list Z)
    : result NotificationAttributes :=
  if zlen body <? 4 then Raise (ValueError "attrs response too short") else
  let uid := le_val (slice 0 4 body) in
  let msg := slice_from 4 body in
  '(app_id, msg) ← parse_attr_string msg;
  '(title, msg) ← parse_attr_string msg;
  '(subtitle, msg) ← parse_attr_string msg;
  '(message, msg) ← parse_attr_string msg;
  '(labels, msg) ← parse_labels ids ∅ msg;
  match msg with
  | _ :: _ => Raise (ValueError "unexpected notification attributes")
  | [] =>
      Ok {| na_id := uid; na_app_id := app_id; na_title := title; na_subtitle := subtitle;
            na_message := message;
            na_positive_action_label := default [] (labels !! AttributeID.PositiveActionLabel);
            na_negative_action_label := default [] (labels !! AttributeID.NegativeActionLabel) |}
  end.

Record AppAttributes := mkAppAttributes { aa_app_id : ustr; aa_app_name : ustr }.

(** [data.find(0, start)]: the first NUL at or after [start], as an option. *)
Fixpoint find_nul (bs : bytes) : option Z :=
  match bs with
  | [] => None
  | b :: bs' => if b2z b =? 0 then Some 0 else (λ i, i + 1) <$> find_nul bs'
  end.
Definition find_nul_from (start : Z) (bs : bytes) : option Z :=
  (λ i, i + start) <$> find_nul (slice_from start bs).

Definition AppAttributes_parse (body : bytes) : result AppAttributes :=
  match find_nul body with
  | None => Raise (ValueError "AppAttributes: missing NUL after app_id")
  | Some nul =>
      let app_id := utf8_decode (slice 0 nul body) in
      let rest := slice_from (nul + 1) body in
      match rest with
      | [] => Ok {| aa_app_id := app_id; aa_app_name := lit "<not installed>" |}
      | _ =>
          if zlen rest <? 3 then Raise (ValueError "AppAttributes: short attribute header") else
          let size := le_val (slice 1 3 rest) in
          let body_bytes := slice 3 (3 + size) rest in
          if negb (zlen body_bytes =? size)
          then Raise (ValueError "AppAttributes: truncated display name")
          else Ok {| aa_app_id := app_id; aa_app_name := utf8_decode body_bytes |}
      end
  end.

Record DataSourceEvent := mkDataSourceEvent { ds_type : Z; ds_body : bytes }.

Definition DataSourceEvent_parse (data : bytes) : result DataSourceEvent :=
  match data with
  | [] => Raise (ValueError "DS packet empty")
  | b :: rest => Ok {| ds_type := b2z b; ds_body := rest |}
  end.

(** ** The Data Source assembler *)

Record DataSourceAssembler := mkAssembler {
  as_command : Z;
  as_attribute_ids : list Z;
  as_notification_id : option Z;
  as_app_id : option ustr;
  as_buffer : bytes;
}.

Definition DataSourceAssembler_init (command : Z) (attribute_ids : list Z)
    (notification_id : option Z) (app_id : option ustr) : DataSourceAssembler :=
  {| as_command := command; as_attribute_ids := attribute_ids;
     as_notification_id := notification_id; as_app_id := app_id; as_buffer := [] |}.

(** The [for expected_id in self.attribute_ids] loop of [_complete_length]. *)
Fixpoint attributes_end (ids : list Z) (data : bytes) (cursor : Z) : result (option Z) :=
  match ids with
  | [] => Ok (Some cursor)
  | expected_id :: ids' =>
      if zlen data <? cursor + 3 then Ok None else
      let attr_id := le_val (slice cursor (cursor + 1) data) in
      let size := le_val (slice (cursor + 1) (cursor + 3) data) in
      if negb (attr_id =? expected_id) then
        Raise (ValueError ("ANCS attribute " +:+ pretty attr_id
          +:+ " does not match expected attribute " +:+ pretty expected_id))
      else
        if zlen data <? cursor + 3 + size then Ok None
        else attributes_end ids' data (cursor + 3 + size)
  end.

Definition _complete_length (a : DataSourceAssembler) : result (option Z) :=
  let data := as_buffer a in
  match data with
  | [] => Ok None
  | b0 :: _ =>
      if negb (b2z b0 =? as_command a) then
        Raise (ValueError ("ANCS response command " +:+ pretty (b2z b0)
          +:+ " does not match request " +:+ pretty (as_command a)))
      else if as_command a =? CommandID.GetNotificationAttributes then
        if zlen data <? 5 then Ok None else
        let uid := le_val (slice 1 5 data) in
        if (match as_notification_id a with Some i => negb (uid =? i) | None => false end)
        then Raise (ValueError "ANCS response notification id mismatch")
        else attributes_end (as_attribute_ids a) data 5
      else if as_command a =? CommandID.GetAppAttributes then
        match find_nul_from 1 data with
        | None => Ok None
        | Some nul =>
            let received_app := utf8_decode (slice 1 nul data) in
            if (match as_app_id a with
                | Some i => negb (bool_decide (received_app = i)) | None => false end)
            then Raise (ValueError "ANCS response app id mismatch")
            else attributes_end (as_attribute_ids a) data (nul + 1)
        end
      else Raise (ValueError ("unsupported ANCS response command " +:+ pretty (as_command a)))
  end.

Definition extend (fragment : bytes) (a : DataSourceAssembler) : DataSourceAssembler :=
  {| as_command := as_command a; as_attribute_ids := as_attribute_ids a;
     as_notification_id := as_notification_id a; as_app_id := as_app_id a;
     as_buffer := as_buffer a ++ fragment |}.

Definition feed (fragment : bytes) : M DataSourceAssembler (option bytes) :=
  modify (extend fragment);;
  a ← get;
  if MAX_DATA_SOURCE_RESPONSE <? zlen (as_buffer a)
  then raise (ValueError "ANCS Data Source response exceeds safety limit")
  else
    e ← lift (_complete_length a);
    match e with
    | None => mret None
    | Some e =>
        if negb (zlen (as_buffer a) =? e)
        then raise (ValueError "unexpected trailing bytes in ANCS response")
        else mret (Some (as_buffer a))
    end.

(** The results of feeding the fragments one after the other. *)
Fixpoint feed_all (fragments : list bytes) (a : DataSourceAssembler)
    : list (result (option bytes)) :=
  match fragments with
  | [] => []
  | f :: fs => let '(r, a') := feed f a in r :: feed_all fs a'
  end.

(** ** Outbound builders *)

Definition clamp_u16 (z : Z) : Z := Z.max 0 (Z.min z USHORT_MAX).

Fixpoint append_labels (ids : list Z) (seen : gset Z) (out : bytes) : result bytes :=
  match ids with
  | [] => Ok out
  | i :: ids' =>
      if negb (bool_decide (i ∈ ACTION_LABEL_ATTRIBUTE_IDS)) || bool_decide (i ∈ seen)
      then Raise (ValueError "unsupported action label request")
      else
        b ← byte_of i;
        append_labels ids' ({[i]} ∪ seen) (out ++ b)
  end.

Definition build_get_notification_attributes (notification_id title_max subtitle_max
    message_max : Z) (ids : list Z) : result bytes :=
  uid ← pack_u32 notification_id;
  t ← pack_u16 (clamp_u16 title_max);
  s ← pack_u16 (clamp_u16 subtitle_max);
  m ← pack_u16 (clamp_u16 message_max);
  append_labels ids ∅
    ([z2b CommandID.GetNotificationAttributes] ++ uid ++ [z2b AttributeID.AppIdentifier]
     ++ [z2b AttributeID.Title] ++ t ++ [z2b AttributeID.Subtitle] ++ s
     ++ [z2b AttributeID.Message] ++ m).

Definition build_perform_notification_action (notification_id action_id : Z) : result bytes :=
  if negb ((0 <=? notification_id) && (notification_id <=? UINT_MAX))
  then Raise (ValueError "notification id out of range")
  else if negb (bool_decide (action_id ∈ [ActionID.Positive; ActionID.Negative]))
  then Raise (ValueError "unknown ANCS action id")
  else
    uid ← pack_u32 notification_id;
    a ← byte_of action_id;
    mret ([z2b CommandID.PerformNotificationAction] ++ uid ++ a).

Definition build_get_notification_app_identifier (notification_id : Z) : result bytes :=
  uid ← pack_u32 notification_id;
  mret ([z2b CommandID.GetNotificationAttributes] ++ uid ++ [z2b AttributeID.AppIdentifier]).

Definition parse_notification_app_identifier (body : bytes) : result (Z * ustr) :=
  if zlen body <? 7 then Raise (ValueError "app identifier response is too short") else
  let notification_id := le_val (slice 0 4 body) in
  '(app_id, remainder) ← parse_attr_string (slice_from 4 body);
  match remainder with
  | _ :: _ => Raise (ValueError "app identifier response has trailing attributes")
  | [] => Ok (notification_id, app_id)
  end.

Definition build_get_app_attributes (app_id : ustr) : result bytes :=
  enc ← utf8_encode app_id;
  mret ([z2b CommandID.GetAppAttributes] ++ enc ++ [z2b 0] ++ [z2b AttributeID.DisplayName]).

(** * Theorems *)

(** ** The phone's side of the wire: one encoded attribute, and a list of them *)

Definition encode_attr (i : Z) (payload : bytes) : bytes :=
  z2b i :: le_bytes 2 (zlen payload) ++ payload.

Fixpoint encode_attrs (ids : list Z) (payloads : list bytes) : bytes :=
  match ids, payloads with
  | i :: ids', p :: ps => encode_attr i p ++ encode_attrs ids' ps
  | _, _ => []
  end.

(** A payload fits the 16-bit length field. *)
Definition fits (p : bytes) : Prop := zlen p < 65536.

Lemma zlen_encode_attr i p : zlen (encode_attr i p) = 3 + zlen p.
Proof. unfold encode_attr. rewrite zlen_cons, zlen_app, zlen_le_bytes. lia. Qed.

Lemma encode_attr_size i p rest : fits p →
  le_val (slice 1 3 (encode_attr i p ++ rest)) = zlen p.
Proof.
  unfold fits. intros Hf. unfold encode_attr. cbn [app]. unfold slice. cbn.
  pose proof (zlen_nonneg p).
  apply (le_val_bytes 2 (zlen p)). change (256 ^ Z.of_nat 2) with 65536. lia.
Qed.

Lemma parse_attr_string_encode i p rest : fits p →
  parse_attr_string (encode_attr i p ++ rest) = Ok (utf8_decode p, rest).
Proof.
  intros Hf. unfold parse_attr_string. rewrite encode_attr_size by done.
  rewrite zlen_app, zlen_encode_attr. pose proof (zlen_nonneg p). pose proof (zlen_nonneg rest).
  assert (Hbody : slice 3 (3 + zlen p) (encode_attr i p ++ rest) = p).
  { change (encode_attr i p) with ((z2b i :: le_bytes 2 (zlen p)) ++ p).
    rewrite <- (assoc_L (++)), slice_shift;
      change (zlen (z2b i :: le_bytes 2 (zlen p))) with 3; [|lia].
    replace (3 + zlen p - 3) with (zlen p) by lia. apply slice_app_l. }
  rewrite Hbody. zbool. by rewrite <- (zlen_encode_attr i), slice_from_app.
Qed.

(** A successful [parse_attr_string] consumed one encoded attribute. *)
Lemma parse_attr_string_ok data s rest :
  parse_attr_string data = Ok (s, rest) →
  ∃ b p, fits p ∧ data = encode_attr (b2z b) p ++ rest ∧ s = utf8_decode p.
Proof.
  unfold parse_attr_string. intros H. split_ifs; simplify_eq.
  destruct data as [|b [|l0 [|l1 data]]]; try done.
  set (size := le_val (slice 1 3 (b :: l0 :: l1 :: data))) in *.
  assert (Hsz : size = le_val [l0; l1]) by done.
  assert (Hr : 0 <= size < 65536).
  { rewrite Hsz. pose proof (le_val_range [l0; l1]).
    change (256 ^ zlen [l0; l1]) with 65536 in *. lia. }
  exists b, (slice 3 (3 + size) (b :: l0 :: l1 :: data)).
  assert (Hlen : zlen (slice 3 (3 + size) (b :: l0 :: l1 :: data)) = size).
  { rewrite zlen_slice in * by lia. lia. }
  split_and!; [unfold fits; lia| |done].
  unfold encode_attr. rewrite z2b_b2z, Hlen.
  assert (Hl : le_bytes 2 size = [l0; l1]).
  { rewrite Hsz. apply (le_bytes_val [l0; l1]). }
  rewrite Hl. cbn [app]. do 3 f_equal.
  unfold slice, slice_from.
  change (Z.to_nat 3) with 3%nat. cbn [drop].
  replace (Z.to_nat (3 + size)) with (3 + Z.to_nat size)%nat by lia.
  replace (Z.to_nat (3 + size - 3)) with (Z.to_nat size) by lia.
  cbn [drop Nat.add]. by rewrite take_drop.
Qed.

(** ** The assembler: a complete response, and its prefixes *)

(** The loop ends at the end of one encoded attribute per requested id. *)
Lemma attributes_end_ok ids data c e :
  attributes_end ids data c = Ok (Some e) → 0 <= c <= zlen data →
  ∃ ps, length ps = length ids ∧ Forall fits ps ∧
    e = c + zlen (encode_attrs ids ps) ∧ e <= zlen data ∧
    slice_from c data = encode_attrs ids ps ++ slice_from e data ∧
    Forall (λ i, 0 <= i < 256) ids.
Proof.
  revert c. induction ids as [|i ids IH]; cbn [attributes_end]; intros c H Hc.
  { simplify_eq. exists []. cbn [encode_attrs]. rewrite (@zlen_nil byte). split_and!; try done; lia. }
  destruct (zlen data <? c + 3) eqn:E1; [done|].
  destruct (negb (le_val (slice c (c + 1) data) =? i)) eqn:E2; [done|].
  set (size := le_val (slice (c + 1) (c + 3) data)) in *.
  destruct (zlen data <? c + 3 + size) eqn:E3; [done|].
  assert (Hsz : 0 <= size < 65536).
  { pose proof (le_val_range (slice (c + 1) (c + 3) data)) as Hr.
    rewrite zlen_slice in Hr by lia.
    replace (Z.max 0 (Z.min (c + 3) (zlen data) - (c + 1))) with 2 in Hr by lia. done. }
  destruct (IH _ H ltac:(lia)) as (ps & Hlen & Hf & He & Hle & Hs & Hids).
  assert (Hi : 0 <= i < 256).
  { pose proof (le_val_range (slice c (c + 1) data)) as Hr. rewrite zlen_slice in Hr by lia.
    replace (Z.max 0 (Z.min (c + 1) (zlen data) - c)) with 1 in Hr by lia. lia. }
  assert (Hp : parse_attr_string (slice_from c data) =
               Ok (utf8_decode (slice 3 (3 + size) (slice_from c data)),
                   slice_from (c + 3 + size) data)).
  { unfold parse_attr_string. cbv zeta. rewrite (slice_of_slice_from c 1 3) by lia. fold size.
    assert (Hz : zlen (slice_from c data) = zlen data - c) by (rewrite zlen_slice_from; lia).
    rewrite Hz. rewrite (zlen_slice 3 (3 + size)) by lia. rewrite Hz. zbool.
    by rewrite slice_from_slice_from, Z.add_assoc by lia. }
  apply parse_attr_string_ok in Hp as (b & p & Hfp & Hdata & _).
  assert (Hb : b2z b = i).
  { assert (E : slice c (c + 1) data = [b]).
    { replace c with (c + 0) at 1 by lia. rewrite <- slice_of_slice_from by lia.
      rewrite Hdata. unfold encode_attr, slice. cbn. by rewrite z2b_b2z. }
    rewrite E in E2. cbn [le_val] in E2. lia. }
  rewrite Hb in Hdata.
  exists (p :: ps). cbn [encode_attrs length]. rewrite <- (assoc_L (++)), zlen_app.
  assert (Hzp : zlen p = size).
  { pose proof (f_equal zlen Hdata) as Hz.
    rewrite zlen_app, zlen_encode_attr, !zlen_slice_from in Hz by lia. lia. }
  rewrite zlen_encode_attr. split_and!; [lia | by constructor | lia | done | | by constructor].
  rewrite Hdata. by rewrite Hs.
Qed.

Lemma find_nul_range bs n : find_nul bs = Some n → 0 <= n < zlen bs.
Proof.
  revert n. induction bs as [|b bs IH]; cbn; intros n H; [done|]. rewrite zlen_cons.
  destruct (b2z b =? 0); [simplify_eq; pose proof (zlen_nonneg bs); lia|].
  destruct (find_nul bs) as [m|]; cbn in H; simplify_eq. specialize (IH m eq_refl). lia.
Qed.

Lemma find_nul_prefix p q n : find_nul p = Some n → find_nul (p ++ q) = Some n.
Proof.
  revert n. induction p as [|b p IH]; cbn; intros n H; [done|].
  destruct (b2z b =? 0); [done|].
  destruct (find_nul p) as [m|]; cbn in H; simplify_eq. by rewrite (IH m).
Qed.

Lemma find_nul_from_range start bs n :
  0 <= start → find_nul_from start bs = Some n → start <= n < zlen bs.
Proof.
  unfold find_nul_from. intros Hs (m & Hm & E)%fmap_Some. simplify_eq.
  apply find_nul_range in Hm. rewrite zlen_slice_from in Hm by lia. lia.
Qed.

Lemma find_nul_from_prefix start p q n :
  0 <= start <= zlen p → find_nul_from start p = Some n → find_nul_from start (p ++ q) = Some n.
Proof.
  unfold find_nul_from, slice_from, zlen. intros Hs (m & Hm & ->)%fmap_Some.
  rewrite drop_app_le by lia. by rewrite (find_nul_prefix _ _ m).
Qed.

Lemma attributes_end_ge ids data c e :
  attributes_end ids data c = Ok (Some e) → 0 <= c → c <= e.
Proof.
  revert c. induction ids as [|i ids IH]; cbn [attributes_end]; intros c H Hc; [by simplify_eq|].
  split_ifs; try done. apply IH in H; [|pose proof (le_val_range (slice (c + 1) (c + 3) data)); lia].
  pose proof (le_val_range (slice (c + 1) (c + 3) data)); lia.
Qed.

Lemma attributes_end_prefix ids p q c e :
  attributes_end ids (p ++ q) c = Ok (Some e) → 0 <= c <= zlen p → zlen p < e →
  attributes_end ids p c = Ok None.
Proof.
  revert c. induction ids as [|i ids IH]; cbn [attributes_end]; intros c H Hc He.
  { simplify_eq. lia. }
  destruct (zlen p <? c + 3) eqn:E; [done|].
  rewrite zlen_app in H. pose proof (zlen_nonneg q).
  replace (zlen p + zlen q <? c + 3) with false in H by lia.
  rewrite !slice_app_prefix in H by lia.
  destruct (negb _); [done|].
  pose proof (le_val_range (slice (c + 1) (c + 3) p)).
  set (c' := c + 3 + le_val (slice (c + 1) (c + 3) p)) in *.
  destruct (zlen p <? c') eqn:E2; [done|].
  destruct (zlen p + zlen q <? c') eqn:E3; [done|].
  apply IH; [done | lia | done].
Qed.

Definition with_buffer (buf : bytes) (a : DataSourceAssembler) : DataSourceAssembler :=
  mkAssembler (as_command a) (as_attribute_ids a) (as_notification_id a) (as_app_id a) buf.

(** A proper prefix of a complete response is incomplete, never an error. *)
Lemma complete_length_prefix a p q :
  _complete_length (with_buffer (p ++ q) a) = Ok (Some (zlen (p ++ q))) → q ≠ [] →
  _complete_length (with_buffer p a) = Ok None.
Proof.
  unfold _complete_length, with_buffer; cbn [as_buffer as_command as_notification_id
    as_attribute_ids as_app_id]. intros H Hq.
  destruct p as [|b0 p]; [done|]. cbn [app] in H. cbv beta iota zeta in H |- *.
  set (p1 := b0 :: p) in *. change (b0 :: p ++ q) with (p1 ++ q) in H.
  assert (Hlt : zlen p1 < zlen (p1 ++ q)).
  { rewrite zlen_app. destruct q; [done|]. rewrite zlen_cons. pose proof (zlen_nonneg q). lia. }
  assert (Hp1 : 1 <= zlen p1) by (unfold p1; rewrite zlen_cons; pose proof (zlen_nonneg p); lia).
  destruct (negb (b2z b0 =? as_command a)); [done|].
  destruct (as_command a =? CommandID.GetNotificationAttributes).
  - destruct (zlen p1 <? 5) eqn:E5; [done|].
    replace (zlen (p1 ++ q) <? 5) with false in H by lia.
    rewrite slice_app_prefix in H by lia.
    destruct (match as_notification_id a with Some i => _ | None => _ end); [done|].
    eapply attributes_end_prefix; [done | lia | done].
  - destruct (as_command a =? CommandID.GetAppAttributes); [|done].
    destruct (find_nul_from 1 p1) as [nul|] eqn:En; [|done].
    pose proof (find_nul_from_range 1 p1 nul ltac:(lia) En).
    rewrite (find_nul_from_prefix 1 p1 q nul) in H by (done || lia).
    rewrite slice_app_prefix in H by lia.
    destruct (match as_app_id a with Some i => _ | None => _ end); [done|].
    eapply attributes_end_prefix; [done | lia | done].
Qed.

(** One [feed] on a buffer, without the monad. *)
Lemma feed_eq f a :
  feed f a =
    let a' := extend f a in
    (if MAX_DATA_SOURCE_RESPONSE <? zlen (as_buffer a')
     then Raise (ValueError "ANCS Data Source response exceeds safety limit")
     else match _complete_length a' with
          | Raise e => Raise e
          | Ok None => Ok None
          | Ok (Some e) =>
              if negb (zlen (as_buffer a') =? e)
              then Raise (ValueError "unexpected trailing bytes in ANCS response")
              else Ok (Some (as_buffer a'))
          end, a').
Proof.
  unfold feed, modify, get, lift, raise, mret, M_ret, mbind, M_bind.
  cbv beta iota zeta. destruct (MAX_DATA_SOURCE_RESPONSE <? _); [done|].
  destruct (_complete_length (extend f a)) as [[e|]|]; [|done..].
  by destruct (negb _).
Qed.

Lemma feed_complete f a pkt a' :
  feed f a = (Ok (Some pkt), a') →
  pkt = as_buffer a ++ f ∧ zlen pkt <= MAX_DATA_SOURCE_RESPONSE ∧
  _complete_length (with_buffer pkt a) = Ok (Some (zlen pkt)).
Proof.
  rewrite feed_eq. cbn zeta. intros H.
  change (extend f a) with (with_buffer (as_buffer a ++ f) a) in H.
  cbn [as_buffer with_buffer] in H.
  destruct (MAX_DATA_SOURCE_RESPONSE <? _) eqn:E1; [done|].
  destruct (_complete_length _) as [[e|]|] eqn:E2; [|done..].
  destruct (negb _) eqn:E3; [done|]. simplify_eq. split_and!; [done | lia|].
  rewrite E2. do 2 f_equal. lia.
Qed.

(** C1: reassembly does not depend on how the phone fragments a response.
    If a response is accepted in one piece, then for every split of it into
    fragments, each [feed] before the last returns [None] (no error, even when
    a fragment boundary falls inside a header) and the last returns the whole
    response. *)
Theorem feed_fragmentation_independent a resp fs last a' :
  as_buffer a = [] →
  feed resp a = (Ok (Some resp), a') →
  concat fs ++ last = resp →
  last ≠ [] →
  feed_all (fs ++ [last]) a = replicate (length fs) (Ok None) ++ [Ok (Some resp)].
Proof.
  intros Hbuf (_ & Hmax & Hok)%feed_complete Hcat Hlast.
  assert (Hgen : ∀ b, b ++ concat fs ++ last = resp → feed_all (fs ++ [last]) (with_buffer b a)
    = replicate (length fs) (Ok None) ++ [Ok (Some resp)]).
  2: { specialize (Hgen [] Hcat). rewrite <- Hbuf in Hgen. by destruct a. }
  clear Hcat. induction fs as [|f fs IH]; intros b Hb; cbn [app feed_all].
  - rewrite feed_eq. cbn [feed_all length replicate app]. cbn zeta.
    change (extend last (with_buffer b a)) with (with_buffer (b ++ last) a).
    cbn [concat app] in Hb. rewrite Hb, Hok. cbn [as_buffer with_buffer].
    zbool. done.
  - rewrite feed_eq. cbn zeta. cbn [concat] in Hb. rewrite <- (assoc_L (++)) in Hb.
    change (extend f (with_buffer b a)) with (with_buffer (b ++ f) a).
    rewrite <- Hb, (assoc_L (++) b f) in Hok.
    cbn [as_buffer with_buffer].
    rewrite (complete_length_prefix a (b ++ f) (concat fs ++ last)).
    + pose proof (f_equal zlen Hb) as Hz. rewrite !zlen_app in *.
      pose proof (zlen_nonneg (concat fs)). pose proof (zlen_nonneg last).
      zbool. cbn [length replicate app]. f_equal. apply IH.
      by rewrite <- (assoc_L (++)).
    + done.
    + intros E%app_eq_nil. naive_solver.
Qed.

Lemma feed_fragmentation_independent_witness :
  let a := DataSourceAssembler_init 1 [0] None None in
  let resp := [z2b 1; z2b 65; z2b 0; z2b 0; z2b 1; z2b 0; z2b 66] in
  feed_all [[z2b 1]; [z2b 65; z2b 0; z2b 0]; [z2b 1]; [z2b 0; z2b 66]] a
    = [Ok None; Ok None; Ok None; Ok (Some resp)].
Proof.
  intros a resp.
  exact (feed_fragmentation_independent a resp [[z2b 1]; [z2b 65; z2b 0; z2b 0]; [z2b 1]]
    [z2b 0; z2b 66] (with_buffer resp a) eq_refl ltac:(vm_compute; reflexivity) eq_refl
    ltac:(discriminate)).
Defined.

(** ** Parsing well-formed responses *)

Definition label_ids_ok (ids : list Z) : Prop :=
  NoDup ids ∧ ∀ i, i ∈ ids → i ∈ ACTION_LABEL_ATTRIBUTE_IDS.

Definition clean_payload (p : bytes) : ustr := _clean_action_label (utf8_decode p).

Lemma action_label_cases i : i ∈ ACTION_LABEL_ATTRIBUTE_IDS → i = 6 ∨ i = 7.
Proof.
  unfold ACTION_LABEL_ATTRIBUTE_IDS, AttributeID.PositiveActionLabel,
    AttributeID.NegativeActionLabel. rewrite !elem_of_cons, elem_of_nil. tauto.
Qed.

Lemma action_label_byte i : i ∈ ACTION_LABEL_ATTRIBUTE_IDS → 0 <= i < 256.
Proof. intros [->| ->]%action_label_cases; lia. Qed.

Lemma parse_labels_encode ids ps m rest :
  NoDup ids → (∀ i, i ∈ ids → i ∈ ACTION_LABEL_ATTRIBUTE_IDS ∧ m !! i = None) →
  length ps = length ids → Forall fits ps →
  parse_labels ids m (encode_attrs ids ps ++ rest)
    = Ok (list_to_map (zip ids (clean_payload <$> ps)) ∪ m, rest).
Proof.
  intros Hnd. revert ps m. induction Hnd as [|i ids Hi Hnd IH]; intros [|p ps] m Hids Hlen Hf;
    try done.
  { cbn. by rewrite (left_id_L ∅ (∪)). }
  apply Forall_cons in Hf as [Hp Hf]. cbn [parse_labels encode_attrs].
  destruct (Hids i ltac:(set_solver)) as [Hin Hm].
  rewrite bool_decide_eq_true_2 by done.
  rewrite bool_decide_eq_false_2 by (rewrite Hm; by intros [? ?]).
  rewrite <- (assoc_L (++)). unfold encode_attr at 1. cbn [app negb orb].
  rewrite b2z_z2b_small by (by apply action_label_byte). rewrite Z.eqb_refl. cbn [negb].
  rewrite parse_attr_string_encode by done. cbn [mbind result_bind].
  rewrite IH; [|intros j Hj|cbn in Hlen; lia|done].
  - cbn [zip fmap list_fmap list_to_map zip_with]. f_equal. f_equal.
    rewrite <- insert_union_r; [by rewrite insert_union_l|].
    apply not_elem_of_list_to_map_1. intros Hin'. apply Hi.
    apply list_elem_of_fmap in Hin' as ([j v] & -> & Hz).
    by apply elem_of_zip_l in Hz.
  - split; [apply Hids; set_solver|]. rewrite lookup_insert_ne; [apply Hids; set_solver|].
    intros ->. done.
Qed.

Lemma encode_attrs_app ids1 ids2 ps1 ps2 : length ids1 = length ps1 →
  encode_attrs (ids1 ++ ids2) (ps1 ++ ps2) = encode_attrs ids1 ps1 ++ encode_attrs ids2 ps2.
Proof.
  revert ps1. induction ids1 as [|i ids1 IH]; intros [|p ps1] Hlen; try done.
  cbn. cbn in Hlen. rewrite IH by lia. by rewrite (assoc_L (++)).
Qed.

(** The four content attributes every notification request starts with. *)
Definition content_ids : list Z :=
  [AttributeID.AppIdentifier; AttributeID.Title; AttributeID.Subtitle; AttributeID.Message].

Lemma NotificationAttributes_parse_encode uid app title sub msg ids ps :
  0 <= uid < 2 ^ 32 → fits app → fits title → fits sub → fits msg →
  label_ids_ok ids → length ps = length ids → Forall fits ps →
  NotificationAttributes_parse
    (le_bytes 4 uid ++ encode_attrs (content_ids ++ ids) ([app; title; sub; msg] ++ ps)) ids =
  let labels : gmap Z ustr := list_to_map (zip ids (clean_payload <$> ps)) in
  Ok {| na_id := uid; na_app_id := utf8_decode app; na_title := utf8_decode title;
        na_subtitle := utf8_decode sub; na_message := utf8_decode msg;
        na_positive_action_label := default [] (labels !! AttributeID.PositiveActionLabel);
        na_negative_action_label := default [] (labels !! AttributeID.NegativeActionLabel) |}.
Proof.
  intros Huid Ha Ht Hs Hm [Hnd Hids] Hlen Hf. unfold NotificationAttributes_parse.
  rewrite encode_attrs_app by done.
  set (body := encode_attrs content_ids [app; title; sub; msg] ++ encode_attrs ids ps).
  rewrite zlen_app, zlen_le_bytes. pose proof (zlen_nonneg body). zbool. cbv zeta.
  change 4 with (zlen (le_bytes 4 uid)) at 1 2. rewrite slice_app_l, slice_from_app.
  rewrite le_val_bytes by done.
  subst body. unfold content_ids. cbn [encode_attrs]. rewrite app_nil_r, <- !(assoc_L (++)).
  rewrite parse_attr_string_encode by done. cbn [mbind result_bind].
  rewrite parse_attr_string_encode by done. cbn [mbind result_bind].
  rewrite parse_attr_string_encode by done. cbn [mbind result_bind].
  rewrite parse_attr_string_encode by done. cbn [mbind result_bind].
  rewrite <- (app_nil_r (encode_attrs ids ps)).
  rewrite parse_labels_encode 
    by (done || (intros i Hi; split; [by apply Hids|done])).
  cbn [mbind result_bind]. by rewrite (right_id_L ∅ (∪)).
Qed.

(** What is shown for the action label [id] when [ps] are the payloads of the
    requested [labels]: the cleaned text of its own payload, and nothing for a
    label that was not requested. *)
Definition label_shown (labels : list Z) (ps : list bytes) (id : Z) (shown : ustr) : Prop :=
  (∀ j p, labels !! j = Some id → ps !! j = Some p → shown = _clean_action_label (utf8_decode p)) ∧
  (id ∉ labels → shown = []).

Lemma label_shown_map labels ps id : NoDup labels → length ps = length labels →
  label_shown labels ps id (default [] ((list_to_map (zip labels (clean_payload <$> ps)) : gmap Z ustr) !! id)).
Proof.
  intros Hnd Hlen. assert (Hfst : (zip labels (clean_payload <$> ps)).*1 = labels)
    by (apply fst_zip; rewrite length_fmap; lia).
  split.
  - intros j p Hj Hp. erewrite elem_of_list_to_map_1 with (x := clean_payload p); [done|by rewrite Hfst|].
    apply list_elem_of_lookup. exists j. apply lookup_zip_with_Some. exists id, (clean_payload p).
    split_and!; [done..|]. by rewrite list_lookup_fmap, Hp.
  - intros Hid. rewrite not_elem_of_list_to_map_1; [done|]. by rewrite Hfst.
Qed.

(** C2: what the assembler accepts, the parser accepts. When the assembler of
    a notification request (the four content attributes, then distinct action
    labels) returns a complete packet, the packet parses as a
    GetNotificationAttributes event and [NotificationAttributes.parse] with
    the same labels succeeds, for the notification that was asked for and
    with every attribute the phone encoded: the four texts, one payload for
    each requested label, and for each of the two actions the cleaned text of
    its own payload, or nothing when its label was not requested. *)
Theorem assembled_notification_parses labels nid f a pkt a' :
  label_ids_ok labels →
  as_command a = CommandID.GetNotificationAttributes →
  as_attribute_ids a = content_ids ++ labels →
  as_notification_id a = Some nid →
  feed f a = (Ok (Some pkt), a') →
  ∃ body na app title sub msg ps,
    DataSourceEvent_parse pkt = Ok (mkDataSourceEvent CommandID.GetNotificationAttributes body) ∧
    body = le_bytes 4 nid ++ encode_attrs (content_ids ++ labels) ([app; title; sub; msg] ++ ps) ∧
    length ps = length labels ∧
    NotificationAttributes_parse body labels = Ok na ∧
    na_id na = nid ∧ na_app_id na = utf8_decode app ∧ na_title na = utf8_decode title ∧
    na_subtitle na = utf8_decode sub ∧ na_message na = utf8_decode msg ∧
    label_shown labels ps AttributeID.PositiveActionLabel (na_positive_action_label na) ∧
    label_shown labels ps AttributeID.NegativeActionLabel (na_negative_action_label na).
Proof.
  intros Hl Hc Hids Hn (_ & _ & H)%feed_complete. destruct (Hl) as [Hnd _].
  unfold _complete_length in H. cbn [with_buffer as_buffer as_command as_notification_id
    as_attribute_ids as_app_id] in H. rewrite Hc, Hn, Hids in H.
  destruct pkt as [|b0 body]; [done|].
  destruct (b2z b0 =? CommandID.GetNotificationAttributes) eqn:Eb; [|done].
  cbn [negb] in H. rewrite Z.eqb_refl in H.
  destruct (zlen (b0 :: body) <? 5) eqn:E5; [done|]. cbv zeta in H.
  destruct (le_val (slice 1 5 (b0 :: body)) =? nid) eqn:Euid; [|done]. cbn [negb] in H.
  apply attributes_end_ok in H as (ps & Hlen & Hf & He & _ & Hs & _); [|lia].
  assert (Hnil : slice_from (zlen (b0 :: body)) (b0 :: body) = []).
  { apply zlen_0_nil. rewrite zlen_slice_from by apply zlen_nonneg. lia. }
  rewrite Hnil, app_nil_r in Hs.
  destruct ps as [|app [|title [|sub [|msg ps]]]]; try done.
  assert (Hb : body = le_bytes 4 nid ++ encode_attrs (content_ids ++ labels)
                ([app; title; sub; msg] ++ ps)).
  { change ([app; title; sub; msg] ++ ps) with (app :: title :: sub :: msg :: ps).
    rewrite <- Hs. rewrite zlen_cons in E5.
    destruct body as [|x0 [|x1 [|x2 [|x3 body]]]]; try (cbn in E5; done).
    apply Z.eqb_eq in Euid. rewrite <- Euid.
    change (slice 1 5 (b0 :: x0 :: x1 :: x2 :: x3 :: body)) with [x0; x1; x2; x3].
    pose proof (le_bytes_val [x0; x1; x2; x3]) as E. cbn [length] in E. by rewrite E. }
  repeat match goal with H : Forall fits (_ :: _) |- _ => apply Forall_cons in H as [? H] end.
  assert (Hn' : length ps = length labels) by (rewrite length_app in Hlen; cbn in Hlen; lia).
  eexists body, _, app, title, sub, msg, ps. split_and!.
  - cbn. by apply Z.eqb_eq in Eb as ->.
  - done.
  - done.
  - rewrite Hb at 1. rewrite NotificationAttributes_parse_encode; try done.
    + apply Z.eqb_eq in Euid as <-. pose proof (le_val_range (slice 1 5 (b0 :: body))) as Hr.
      rewrite zlen_slice in Hr by lia.
      replace (Z.max 0 (Z.min 5 (zlen (b0 :: body)) - 1)) with 4 in Hr by lia. done.
  - done.
  - done.
  - done.
  - done.
  - done.
  - by apply label_shown_map.
  - by apply label_shown_map.
Qed.

(** With both labels requested, the negative one first. *)
Lemma assembled_notification_parses_witness :
  let a := DataSourceAssembler_init 0 (content_ids ++ [7; 6]) (Some 258) None in
  let pkt := [z2b 0] ++ le_bytes 4 258 ++ encode_attrs (content_ids ++ [7; 6])
               [[z2b 97]; []; [z2b 98]; [z2b 99]; [z2b 78]; [z2b 79; z2b 10; z2b 75]] in
  ∃ body na app title sub msg ps,
    DataSourceEvent_parse pkt = Ok (mkDataSourceEvent 0 body) ∧
    body = le_bytes 4 258 ++ encode_attrs (content_ids ++ [7; 6]) ([app; title; sub; msg] ++ ps) ∧
    length ps = 2%nat ∧
    NotificationAttributes_parse body [7; 6] = Ok na ∧
    na_id na = 258 ∧ na_app_id na = utf8_decode app ∧ na_title na = utf8_decode title ∧
    na_subtitle na = utf8_decode sub ∧ na_message na = utf8_decode msg ∧
    label_shown [7; 6] ps 6 (na_positive_action_label na) ∧ label_shown [7; 6] ps 7 (na_negative_action_label na).
Proof.
  intros a pkt.
  apply (assembled_notification_parses [7; 6] 258 pkt a pkt (with_buffer pkt a)); try reflexivity.
  split; [by apply (bool_decide_unpack _)|].
  intros i [->|[->|[]%elem_of_nil]%elem_of_cons]%elem_of_cons; vm_compute; [right|]; left.
Defined.

(** ** The label text shown on a desktop notification *)

Lemma is_word_no_controls c : is_label_control c = true → c ≠ SPACE.
Proof. intros H ->. done. Qed.

(** Every action label the parser keeps is safe single-line text: at most
    64 characters, no C0/C1 control, line or paragraph separator, and no
    white space but single plain spaces between words (it is a prefix of text
    that [split()] and [join] leave unchanged). *)
Theorem clean_action_label_safe label :
  let out := _clean_action_label label in
  zlen out <= MAX_ACTION_LABEL_CHARS ∧
  (∀ c, c ∈ out → is_label_control c = false ∧ (c = SPACE ∨ is_space c = false)) ∧
  ∃ rest, join [SPACE] (split_ws (out ++ rest)) = out ++ rest.
Proof.
  cbv zeta. unfold _clean_action_label. cbv zeta.
  set (sub := sub_runs is_label_control SPACE label).
  set (full := join [SPACE] (split_ws sub)).
  assert (Hn : normalized full) by apply join_normalized, split_ws_words.
  assert (Hpre : ∀ c, c ∈ slice 0 MAX_ACTION_LABEL_CHARS full → c ∈ full).
  { intros c. unfold slice. rewrite drop_0. apply elem_of_take_1 || apply elem_of_take_2
      || (intros Hc; apply elem_of_take in Hc as (i & Hi & _); by eapply list_elem_of_lookup_2). }
  split_and!.
  - unfold slice. rewrite drop_0, zlen_take. unfold MAX_ACTION_LABEL_CHARS. lia.
  - intros c Hc%Hpre. split; [|by eapply normalized_chars].
    apply join_chars in Hc as [Hc|(w & Hw & Hc)].
    + by apply list_elem_of_singleton in Hc as ->.
    + pose proof (split_ws_chars _ _ _ Hw Hc) as Hin.
      assert (Hf : Forall (λ c, is_label_control c = false) sub)
        by by apply sub_runs_aux_class.
      rewrite Forall_forall in Hf. by apply Hf.
  - exists (drop 64 full). unfold slice, MAX_ACTION_LABEL_CHARS. rewrite drop_0.
    change (Z.to_nat (64 - 0)) with 64%nat. rewrite take_drop.
    by apply normalized_split_join.
Qed.

(** ** Requests, as the phone reads them *)

(** Attributes 1, 2 and 3 carry a 16-bit maximum length in a request. *)
Fixpoint read_request_attrs (fuel : nat) (bs : bytes) : option (list (Z * option Z)) :=
  match fuel with
  | O => None
  | S fuel =>
      match bs with
      | [] => Some []
      | b :: rest =>
          if (1 <=? b2z b) && (b2z b <=? 3) then
            match rest with
            | l0 :: l1 :: rest' =>
                ((b2z b, Some (le_val [l0; l1])) ::.) <$> read_request_attrs fuel rest'
            | _ => None
            end
          else ((b2z b, None) ::.) <$> read_request_attrs fuel rest
      end
  end.

Definition read_request (bs : bytes) : option (Z * Z * list (Z * option Z)) :=
  match bs with
  | c :: u0 :: u1 :: u2 :: u3 :: rest =>
      attrs ← read_request_attrs (S (length rest)) rest;
      Some (b2z c, le_val [u0; u1; u2; u3], attrs)
  | _ => None
  end.

Lemma clamp_u16_range z : 0 <= clamp_u16 z <= USHORT_MAX.
Proof. unfold clamp_u16, USHORT_MAX. lia. Qed.

Lemma append_labels_ok ids seen out :
  NoDup ids → (∀ i, i ∈ ids → i ∈ ACTION_LABEL_ATTRIBUTE_IDS ∧ i ∉ seen) →
  append_labels ids seen out = Ok (out ++ (z2b <$> ids)).
Proof.
  intros Hnd. revert seen out. induction Hnd as [|i ids Hi Hnd IH]; intros seen out H.
  { cbn. by rewrite app_nil_r. }
  destruct (H i ltac:(set_solver)) as [Hin Hs]. cbn [append_labels].
  rewrite bool_decide_eq_true_2, bool_decide_eq_false_2 by done. cbn [negb orb].
  unfold byte_of. pose proof (action_label_byte i Hin). zbool. cbn [mbind result_bind].
  rewrite IH by set_solver. by rewrite <- (assoc_L (++)).
Qed.

Lemma append_labels_raises ids seen out :
  ¬ (NoDup ids ∧ ∀ i, i ∈ ids → i ∈ ACTION_LABEL_ATTRIBUTE_IDS ∧ i ∉ seen) →
  append_labels ids seen out = Raise (ValueError "unsupported action label request").
Proof.
  revert seen out. induction ids as [|i ids IH]; intros seen out H.
  { destruct H. split; [constructor|]. set_solver. }
  cbn [append_labels]. case_bool_decide as Hin; [|done]. case_bool_decide as Hs; [done|].
  cbn [negb orb]. unfold byte_of. pose proof (action_label_byte i Hin). zbool.
  cbn [mbind result_bind]. apply IH. intros [Hnd Hids]. apply H. split.
  - constructor; [|done]. intros Hi. destruct (Hids i Hi). set_solver.
  - intros j [->|Hj]%elem_of_cons; [done|]. destruct (Hids j Hj). set_solver.
Qed.

Lemma read_request_max n i l0 l1 rest : 1 <= i <= 3 →
  read_request_attrs (S n) (z2b i :: l0 :: l1 :: rest)
    = ((i, Some (le_val [l0; l1])) ::.) <$> read_request_attrs n rest.
Proof. intros. cbn [read_request_attrs]. rewrite b2z_z2b_small by lia. by zbool. Qed.

Lemma read_request_plain n i rest : 0 <= i < 256 → ¬ 1 <= i <= 3 →
  read_request_attrs (S n) (z2b i :: rest) = ((i, None) ::.) <$> read_request_attrs n rest.
Proof.
  intros. cbn [read_request_attrs]. rewrite b2z_z2b_small by lia.
  by replace ((1 <=? i) && (i <=? 3)) with false by lia.
Qed.

Lemma read_request_labels ids n : (length ids < n)%nat →
  (∀ i, i ∈ ids → i ∈ ACTION_LABEL_ATTRIBUTE_IDS) →
  read_request_attrs n (z2b <$> ids) = Some ((λ i, (i, None)) <$> ids).
Proof.
  revert n. induction ids as [|i ids IH]; intros [|n] Hn H; cbn in Hn; try lia; [done|].
  cbn [fmap list_fmap].
  pose proof (H i ltac:(set_solver)) as Hin.
  pose proof (action_label_cases i Hin) as Hi. change (list_fmap Z byte z2b ids) with (z2b <$> ids).
  by rewrite read_request_plain, IH by (lia || set_solver).
Qed.

(** C3: the notification request is well formed for every argument.  For a
    32-bit notification id and distinct label attributes the builder produces
    a request the phone reads back as: command 0, that id, the four content
    attributes with the maxima clamped to 16 bits, then the labels in order,
    i.e. exactly the attribute list the assembler is given.  Any other label
    list is rejected with [ValueError], and any other id with [struct.error]. *)
Theorem build_request_roundtrip nid t s m ids :
  (0 <= nid < 2 ^ 32 → label_ids_ok ids →
   ∃ req attrs, build_get_notification_attributes nid t s m ids = Ok req ∧
     read_request req = Some (CommandID.GetNotificationAttributes, nid, attrs) ∧
     attrs = [(AttributeID.AppIdentifier, None); (AttributeID.Title, Some (clamp_u16 t));
              (AttributeID.Subtitle, Some (clamp_u16 s)); (AttributeID.Message, Some (clamp_u16 m))]
             ++ ((λ i, (i, None)) <$> ids) ∧
     attrs.*1 = content_ids ++ ids) ∧
  (0 <= nid < 2 ^ 32 → ¬ label_ids_ok ids →
   build_get_notification_attributes nid t s m ids
     = Raise (ValueError "unsupported action label request")) ∧
  (¬ 0 <= nid < 2 ^ 32 →
   build_get_notification_attributes nid t s m ids = Raise StructError).
Proof.
  unfold build_get_notification_attributes, pack_u32, pack_u16.
  assert (Hc : ∀ z, pack_le 2 (clamp_u16 z) = Ok (le_bytes 2 (clamp_u16 z))).
  { intros z. apply pack_le_in_range. pose proof (clamp_u16_range z). unfold USHORT_MAX in *.
    change (256 ^ Z.of_nat 2) with 65536. lia. }
  assert (Hl : ∀ z, le_val (le_bytes 2 (clamp_u16 z)) = clamp_u16 z).
  { intros z. apply le_val_bytes. pose proof (clamp_u16_range z). unfold USHORT_MAX in *.
    change (256 ^ Z.of_nat 2) with 65536. lia. }
  rewrite !Hc. split_and!.
  - intros Hn [Hnd Hids].
    rewrite (pack_le_in_range 4) by done. cbn [mbind result_bind].
    rewrite append_labels_ok by (done || set_solver).
    do 2 eexists. split_and!; [done| |done|].
    + pose proof (Hl t) as Ht. pose proof (Hl s) as Hs. pose proof (Hl m) as Hm.
      pose proof (le_val_bytes 4 nid Hn) as Hu.
      cbn [app le_bytes read_request] in *. cbn [mbind option_bind].
      rewrite Hu. cbn [length app].
      unfold AttributeID.AppIdentifier, AttributeID.Title, AttributeID.Subtitle,
        AttributeID.Message.
      rewrite read_request_plain, !read_request_max, read_request_labels, Ht, Hs, Hm
        by (rewrite ?length_fmap; done || lia). done.
    + cbn. f_equal. f_equal. f_equal. f_equal. rewrite <- list_fmap_compose.
      by rewrite list_fmap_id.
  - intros Hn Hids. rewrite (pack_le_in_range 4) by done. cbn [mbind result_bind].
    apply append_labels_raises. intros [Hnd H]. apply Hids. split; [done|].
    intros i Hi. by apply H.
  - intros Hn. unfold pack_le at 1. change (256 ^ Z.of_nat 4) with (2 ^ 32).
    by replace ((0 <=? nid) && (nid <? 2 ^ 32)) with false by lia.
Qed.

Lemma build_request_roundtrip_witness :
  label_ids_ok [7; 6] ∧
  ∃ req attrs, build_get_notification_attributes 513 128 (-3) 70000 [7; 6] = Ok req ∧
     read_request req = Some (CommandID.GetNotificationAttributes, 513, attrs) ∧
     attrs = [(AttributeID.AppIdentifier, None); (AttributeID.Title, Some (clamp_u16 128));
              (AttributeID.Subtitle, Some (clamp_u16 (-3)));
              (AttributeID.Message, Some (clamp_u16 70000))]
             ++ ((λ i, (i, None)) <$> [7; 6]) ∧
     attrs.*1 = content_ids ++ [7; 6].
Proof.
  assert (Hl : label_ids_ok [7; 6]).
  { split; [apply (bool_decide_unpack _); by vm_compute|].
    intros i [->| ->%list_elem_of_singleton]%elem_of_cons;
      apply (bool_decide_unpack _); by vm_compute. }
  split; [exact Hl|].
  destruct (build_request_roundtrip 513 128 (-3) 70000 [7; 6]) as [H _].
  apply H; [lia | exact Hl].
Defined.

(** ** The app-name exchange *)

Lemma find_nul_app p rest : Byte.x00 ∉ p →
  find_nul (p ++ Byte.x00 :: rest) = Some (zlen p).
Proof.
  induction p as [|b p IH]; cbn; intros H; [done|].
  destruct (b2z b =? 0) eqn:E.
  - apply Z.eqb_eq in E. change 0 with (b2z Byte.x00) in E. apply b2z_inj in E. set_solver.
  - rewrite IH by set_solver. cbn. by rewrite zlen_cons, Z.add_comm.
Qed.

(** The phone's answer to an app-name request, as the assembler and the parser
    see it. *)
Section app_answer.
Context (app_id name : ustr) (app_bytes name_bytes : bytes).
Context (Ha : utf8_encode app_id = Ok app_bytes) (Hnul : 0 ∉ app_id).
Context (Hname : utf8_encode name = Ok name_bytes) (Hf : fits name_bytes).

Let attr := encode_attr AttributeID.DisplayName name_bytes.
Let body := app_bytes ++ z2b 0 :: attr.
Let pkt := z2b CommandID.GetAppAttributes :: body.

Lemma app_answer_find_nul rest : find_nul (app_bytes ++ z2b 0 :: rest) = Some (zlen app_bytes).
Proof using Ha Hnul. apply find_nul_app. by eapply utf8_encode_nonzero. Qed.

Lemma app_answer_rest rest :
  slice_from (zlen app_bytes + 1) (app_bytes ++ z2b 0 :: rest) = rest.
Proof.
  rewrite slice_from_shift by lia.
  by replace (zlen app_bytes + 1 - zlen app_bytes) with 1 by lia.
Qed.

Lemma app_answer_attr_size : le_val (slice 1 3 attr) = zlen name_bytes.
Proof using Hf.
  pose proof (encode_attr_size AttributeID.DisplayName name_bytes [] Hf) as H.
  by rewrite app_nil_r in H.
Qed.

Lemma app_answer_payload : slice 3 (3 + zlen name_bytes) attr = name_bytes.
Proof.
  unfold attr. change (encode_attr ?i name_bytes)
    with ((z2b i :: le_bytes 2 (zlen name_bytes)) ++ name_bytes).
  rewrite slice_shift by done. change (zlen (_ :: le_bytes 2 _)) with 3.
  replace (3 + zlen name_bytes - 3) with (zlen name_bytes) by lia.
  rewrite <- (app_nil_r name_bytes) at 2. apply slice_app_l.
Qed.

Lemma app_answer_zlen : zlen pkt = zlen app_bytes + zlen name_bytes + 5.
Proof. unfold pkt, body, attr. rewrite zlen_cons, zlen_app, zlen_cons, zlen_encode_attr. lia. Qed.

Lemma app_answer_attr : slice_from (zlen app_bytes + 2) pkt = attr.
Proof.
  unfold pkt, body. pose proof (zlen_nonneg app_bytes).
  change (z2b ?c :: app_bytes ++ z2b 0 :: attr) with ([z2b c] ++ app_bytes ++ z2b 0 :: attr).
  rewrite slice_from_shift by (change (zlen [z2b _]) with 1; lia).
  change (zlen [z2b _]) with 1.
  replace (zlen app_bytes + 2 - 1) with (zlen app_bytes + 1) by lia. apply app_answer_rest.
Qed.

Lemma app_answer_received : slice 1 (zlen app_bytes + 1) pkt = app_bytes.
Proof.
  unfold pkt, body. change (z2b ?c :: ?l) with ([z2b c] ++ l) at 1.
  rewrite slice_shift by done. change (zlen [z2b CommandID.GetAppAttributes]) with 1.
  replace (zlen app_bytes + 1 - 1) with (zlen app_bytes) by lia. apply slice_app_l.
Qed.

Lemma app_answer_complete_length :
  _complete_length (with_buffer pkt (DataSourceAssembler_init CommandID.GetAppAttributes
    [AttributeID.DisplayName] None (Some app_id))) = Ok (Some (zlen pkt)).
Proof using Ha Hnul Hf.
  unfold _complete_length. cbn [as_buffer as_command as_attribute_ids as_app_id with_buffer
    DataSourceAssembler_init]. unfold pkt at 1.
  rewrite b2z_z2b_small by (vm_compute; split; congruence).
  cbn [negb Z.eqb Pos.eqb CommandID.GetAppAttributes CommandID.GetNotificationAttributes].
  assert (Hn : find_nul_from 1 pkt = Some (zlen app_bytes + 1)).
  { unfold find_nul_from, pkt, body. change (slice_from 1 (?x :: ?l)) with l.
    by rewrite app_answer_find_nul. }
  rewrite Hn, app_answer_received, (utf8_roundtrip _ _ Ha). cbv zeta.
  rewrite bool_decide_eq_true_2 by done. cbn [negb attributes_end].
  pose proof (zlen_nonneg app_bytes). pose proof (zlen_nonneg name_bytes).
  replace (zlen app_bytes + 1 + 1) with (zlen app_bytes + 2) by lia.
  set (c := zlen app_bytes + 2). pose proof app_answer_attr as Hattr. fold c in Hattr.
  assert (H01 : slice c (c + 1) pkt = [z2b 0]).
  { rewrite <- (Z.add_0_r c) at 1. by rewrite <- slice_of_slice_from, Hattr by lia. }
  assert (H13 : le_val (slice (c + 1) (c + 3) pkt) = zlen name_bytes).
  { rewrite <- slice_of_slice_from, Hattr by lia. apply app_answer_attr_size. }
  rewrite H01, H13, app_answer_zlen. change (le_val [z2b 0]) with 0. unfold c.
  cbn [Z.eqb AttributeID.DisplayName negb]. zbool. do 2 f_equal. lia.
Qed.

Lemma app_answer_parses : AppAttributes_parse body = Ok (mkAppAttributes app_id name).
Proof using Ha Hnul Hname Hf.
  unfold AppAttributes_parse, body. pose proof (zlen_nonneg name_bytes).
  rewrite app_answer_find_nul, app_answer_rest, slice_app_l, (utf8_roundtrip _ _ Ha).
  cbv zeta. rewrite app_answer_attr_size, app_answer_payload, (utf8_roundtrip _ _ Hname).
  assert (Hz : zlen attr = 3 + zlen name_bytes) by apply zlen_encode_attr.
  rewrite Hz, Z.eqb_refl. zbool. done.
Qed.

Lemma app_not_installed_parses :
  AppAttributes_parse (app_bytes ++ [z2b 0])
    = Ok (mkAppAttributes app_id (lit "<not installed>")).
Proof using Ha Hnul.
  unfold AppAttributes_parse.
  by rewrite app_answer_find_nul, app_answer_rest, slice_app_l, (utf8_roundtrip _ _ Ha).
Qed.
End app_answer.

(** The app-name exchange round-trips.  For a bundle id that encodes to
    UTF-8 and has no NUL, the request is built; and when the phone answers it
    with that id, a NUL and the encoded display name (within the 64 KiB
    limit), the assembler for the id returns the whole answer, and
    [AppAttributes.parse] gives back the id and the name.  An answer that
    ends after the NUL reads as an app that is not installed. *)
Theorem app_attributes_roundtrip app_id app_bytes name name_bytes :
  utf8_encode app_id = Ok app_bytes → 0 ∉ app_id →
  utf8_encode name = Ok name_bytes → fits name_bytes →
  zlen app_bytes + zlen name_bytes + 5 <= MAX_DATA_SOURCE_RESPONSE →
  let body := app_bytes ++ z2b 0 :: encode_attr AttributeID.DisplayName name_bytes in
  let pkt := z2b CommandID.GetAppAttributes :: body in
  build_get_app_attributes app_id
    = Ok ([z2b CommandID.GetAppAttributes] ++ app_bytes ++ [z2b 0; z2b AttributeID.DisplayName]) ∧
  (feed pkt (DataSourceAssembler_init CommandID.GetAppAttributes [AttributeID.DisplayName]
     None (Some app_id))).1 = Ok (Some pkt) ∧
  DataSourceEvent_parse pkt = Ok (mkDataSourceEvent CommandID.GetAppAttributes body) ∧
  AppAttributes_parse body = Ok (mkAppAttributes app_id name) ∧
  AppAttributes_parse (app_bytes ++ [z2b 0])
    = Ok (mkAppAttributes app_id (lit "<not installed>")).
Proof.
  intros Ha Hnul Hname Hf Hmax body pkt. split_and!.
  - unfold build_get_app_attributes. by rewrite Ha.
  - rewrite feed_eq. cbn zeta.
    change (extend pkt (DataSourceAssembler_init ?c ?i ?n ?a))
      with (with_buffer pkt (DataSourceAssembler_init c i n a)).
    unfold pkt, body. rewrite (app_answer_complete_length _ _ _ Ha Hnul Hf).
    cbn [fst as_buffer with_buffer]. rewrite app_answer_zlen. by zbool.
  - done.
  - by apply app_answer_parses.
  - by apply app_not_installed_parses.
Qed.

Lemma app_attributes_roundtrip_witness :
  let body := [z2b 99; z2b 46; z2b 97] ++ z2b 0 :: encode_attr 0 [z2b 0xC3; z2b 0xA9] in
  AppAttributes_parse body = Ok (mkAppAttributes [99; 46; 97] [0xE9]).
Proof.
  intros body.
  apply (app_attributes_roundtrip [99; 46; 97] [z2b 99; z2b 46; z2b 97] [0xE9]
    [z2b 0xC3; z2b 0xA9]); try (vm_compute; reflexivity).
  - apply (bool_decide_unpack _). by vm_compute.
  - by vm_compute.
Defined.
