(* ===== verification/Backlog.v ===== *)
(** * Backlog: the bounded request backlog (src/blueferry/ancs/sequencer.py).

    [RequestBacklog] keeps the queue of requests and the set of reserved keys.
    A key stays reserved from [enqueue] until [finish], so a request in
    flight blocks a duplicate.  The section at the end follows the protocol of
    its user (src/blueferry/ancs/client.py): a key is finished or pushed back
    only while its request is popped. *)
From S2P Require Import Prelude.

Record RequestBacklog (T : Type) := mkBacklog {
  rb_maximum : Z;
  rb_queue : list (string * T);
  rb_reserved : gset string;
}.
Arguments mkBacklog {T} _ _ _.
Arguments rb_maximum {T} _.
Arguments rb_queue {T} _.
Arguments rb_reserved {T} _.

Section operations.
Context {T : Type}.
Implicit Types b : RequestBacklog T.

Definition RequestBacklog_init (maximum : Z) : result (RequestBacklog T) :=
  if maximum <? 1 then Raise (ValueError "request backlog maximum must be positive")
  else Ok (mkBacklog maximum [] ∅).

Definition zsize (s : gset string) : Z := Z.of_nat (size s).

Definition enqueue (key : string) (request : T) (front : bool) : M (RequestBacklog T) bool :=
  b ← get;
  if bool_decide (key ∈ rb_reserved b) then mret false
  else if rb_maximum b <=? zsize (rb_reserved b) then mret false
  else
    put (mkBacklog (rb_maximum b)
      (if front then (key, request) :: rb_queue b else rb_queue b ++ [(key, request)])
      ({[key]} ∪ rb_reserved b));;
    mret true.

(** The [for key, request in self._queue] loop of [remove_if]. *)
Fixpoint remove_loop (predicate : T → bool) (q : list (string * T)) (reserved : gset string)
    : list (string * T) * list T * gset string :=
  match q with
  | [] => ([], [], reserved)
  | (key, request) :: q' =>
      if predicate request then
        let '(kept, removed, reserved') := remove_loop predicate q' (reserved ∖ {[key]}) in
        (kept, request :: removed, reserved')
      else
        let '(kept, removed, reserved') := remove_loop predicate q' reserved in
        ((key, request) :: kept, removed, reserved')
  end.

Definition remove_if (predicate : T → bool) : M (RequestBacklog T) (list T) :=
  b ← get;
  let '(kept, removed, reserved) := remove_loop predicate (rb_queue b) (rb_reserved b) in
  put (mkBacklog (rb_maximum b) kept reserved);;
  mret removed.

Definition count_if (predicate : T → bool) (b : RequestBacklog T) : Z :=
  zlen (List.filter (λ kr, predicate kr.2) (rb_queue b)).

Definition popleft : M (RequestBacklog T) T :=
  b ← get;
  match rb_queue b with
  | [] => raise (IndexError "pop from an empty deque")
  | (_, request) :: q =>
      put (mkBacklog (rb_maximum b) q (rb_reserved b));; mret request
  end.

Definition push_front (key : string) (request : T) : M (RequestBacklog T) () :=
  b ← get;
  if negb (bool_decide (key ∈ rb_reserved b))
  then raise (ValueError "only a reserved request can be pushed back")
  else put (mkBacklog (rb_maximum b) ((key, request) :: rb_queue b) (rb_reserved b)).

Definition finish (key : string) : M (RequestBacklog T) () :=
  modify (λ b, mkBacklog (rb_maximum b) (rb_queue b) (rb_reserved b ∖ {[key]})).

Definition clear : M (RequestBacklog T) () :=
  modify (λ b, mkBacklog (rb_maximum b) [] ∅).

Definition backlog_bool (b : RequestBacklog T) : bool :=
  match rb_queue b with [] => false | _ => true end.
Definition backlog_len (b : RequestBacklog T) : Z := zlen (rb_queue b).

(** ** Invariant *)

Definition keys b : list string := (rb_queue b).*1.

(** The keys whose request is popped but not finished. *)
Definition in_flight b : gset string := rb_reserved b ∖ list_to_set (keys b).

Record wf b : Prop := {
  wf_positive : 1 <= rb_maximum b;
  wf_bound : zsize (rb_reserved b) <= rb_maximum b;
  wf_nodup : NoDup (keys b);
  wf_reserved : ∀ k, k ∈ keys b → k ∈ rb_reserved b;
}.

(** One use of the backlog by its client. [finish] and [push_front] concern
    a request that was popped. *)
Inductive step : RequestBacklog T → RequestBacklog T → Prop :=
  | step_enqueue b k r front : step b (enqueue k r front b).2
  | step_remove_if b p : step b (remove_if p b).2
  | step_popleft b : step b (popleft b).2
  | step_push_front b k r : k ∈ in_flight b → step b (push_front k r b).2
  | step_finish b k : k ∈ in_flight b → step b (finish k b).2
  | step_clear b : step b (clear b).2.

Inductive reachable (maximum : Z) : RequestBacklog T → Prop :=
  | reachable_init b : RequestBacklog_init maximum = Ok b → reachable maximum b
  | reachable_step b b' : reachable maximum b → step b b' → reachable maximum b'.

(** What [remove_loop] computes. *)
Lemma remove_loop_spec p q res :
  remove_loop p q res =
    (List.filter (λ kr, negb (p kr.2)) q,
     (List.filter (λ kr, p kr.2) q).*2,
     res ∖ list_to_set (List.filter (λ kr, p kr.2) q).*1).
Proof.
  revert res. induction q as [|[k r] q IH]; intros res; cbn.
  - by rewrite difference_empty_L.
  - destruct (p r); cbn; rewrite IH; cbn; [|done]. by rewrite difference_difference_l_L.
Qed.

Lemma filter_keys_subseteq f (q : list (string * T)) k :
  k ∈ (List.filter f q).*1 → k ∈ q.*1.
Proof.
  induction q as [|[k' r] q IH]; cbn; [done|].
  destruct (f (k', r)); cbn; rewrite ?elem_of_cons; naive_solver.
Qed.

Lemma NoDup_filter_keys f (q : list (string * T)) : NoDup q.*1 → NoDup (List.filter f q).*1.
Proof.
  induction q as [|[k r] q IH]; cbn; [done|]. rewrite NoDup_cons. intros [Hk Hq].
  destruct (f (k, r)); cbn; [|by apply IH]. rewrite NoDup_cons. split; [|by apply IH].
  intros H%filter_keys_subseteq. done.
Qed.

(** A kept key is not the key of a removed request. *)
Lemma filter_keys_disjoint f (q : list (string * T)) k :
  NoDup q.*1 → k ∈ (List.filter (λ kr, negb (f kr)) q).*1 → k ∉ (List.filter f q).*1.
Proof.
  induction q as [|[k' r] q IH]; cbn; [set_solver|]. rewrite NoDup_cons. intros [Hk Hq].
  destruct (f (k', r)); cbn; rewrite ?elem_of_cons.
  - intros H [->|H']; [by apply filter_keys_subseteq in H|by apply IH].
  - intros [->|H]; [|by apply IH]. intros H'%filter_keys_subseteq. done.
Qed.

Lemma zsize_mono (s1 s2 : gset string) : s1 ⊆ s2 → zsize s1 <= zsize s2.
Proof. intros H%subseteq_size. unfold zsize. lia. Qed.

Lemma step_wf b b' : wf b → step b b' → wf b'.
Proof.
  intros [Hp Hb Hn Hr] Hs. destruct Hs as [b k r front|b p|b|b k r Hk|b k Hk|b];
    unfold enqueue, remove_if, popleft, push_front, finish, clear; monad_simpl.
  - case_bool_decide as Hin; [by constructor|].
    destruct (rb_maximum b <=? zsize (rb_reserved b)) eqn:E; [by constructor|].
    constructor; cbn; [done| | |].
    + unfold zsize in *. rewrite size_union by set_solver. rewrite size_singleton. lia.
    + unfold keys. destruct front; cbn.
      * constructor; [|done]. intros H%Hr. done.
      * rewrite fmap_app. apply NoDup_app. split_and!; [done| |apply NoDup_singleton].
        intros x Hx%Hr ->%list_elem_of_singleton. done.
    + unfold keys. intros x. destruct front; cbn; rewrite ?fmap_app, ?elem_of_app; set_solver.
  - rewrite remove_loop_spec. cbn. constructor; cbn; [done| | |].
    + etrans; [|exact Hb]. apply zsize_mono. set_solver.
    + by apply NoDup_filter_keys.
    + intros x Hx. apply elem_of_difference. split.
      * by apply Hr, (filter_keys_subseteq (λ kr, negb (p kr.2))).
      * rewrite elem_of_list_to_set. by apply (filter_keys_disjoint (λ kr, p kr.2)).
  - destruct b as [m [|[k r] q] res]; cbn; [by constructor|].
    cbn in Hn. apply NoDup_cons in Hn as [_ Hn]. constructor; cbn; [done..|].
    intros x Hx. apply Hr. cbn. by right.
  - apply elem_of_difference in Hk as [Hk Hq]. rewrite elem_of_list_to_set in Hq.
    rewrite bool_decide_eq_true_2 by done. constructor; cbn; [done..| |].
    + constructor; done.
    + unfold keys. cbn. set_solver.
  - apply elem_of_difference in Hk as [Hk Hq]. rewrite elem_of_list_to_set in Hq.
    constructor; cbn; [done| |done|set_solver].
    etrans; [|exact Hb]. apply zsize_mono. set_solver.
  - constructor; cbn; [done| |constructor|set_solver].
    unfold zsize. rewrite size_empty. lia.
Qed.
End operations.

Arguments step {T} _ _.
Arguments reachable {T} _ _.
Arguments wf {T} _.

(** The backlog never holds two requests for one key and never exceeds its
    bound.  In every state its client can reach, the queued keys are distinct
    and reserved, at most [maximum] keys are reserved (queued or in flight),
    and so the queue is at most [maximum] long; a duplicate of a queued or
    in-flight key, and any key when the backlog is full, is refused with the
    state unchanged. *)
Theorem backlog_invariant {T} maximum (b : RequestBacklog T) :
  reachable maximum b →
  rb_maximum b = maximum ∧ NoDup (keys b) ∧ (∀ k, k ∈ keys b → k ∈ rb_reserved b) ∧
  zsize (rb_reserved b) <= maximum ∧ backlog_len b <= maximum ∧
  (∀ k r front, k ∈ rb_reserved b ∨ zsize (rb_reserved b) = maximum →
     enqueue k r front b = (Ok false, b)).
Proof.
  intros Hr. assert (Hwf : wf b ∧ rb_maximum b = maximum) .
  { induction Hr as [b Hi|b b' Hr [IH Hm] Hs].
    - unfold RequestBacklog_init in Hi. destruct (maximum <? 1) eqn:E; [done|]. simplify_eq.
      split; [|done]. constructor; cbn; [lia| |constructor|set_solver].
      unfold zsize. rewrite size_empty. lia.
    - split; [by eapply step_wf|]. rewrite <- Hm.
      destruct Hs as [? k ? ?|? p|[? [|[]] ?]|? k ?|?|?];
        unfold enqueue, remove_if, popleft, push_front, finish, clear; monad_simpl;
        cbn; try done.
      + case_bool_decide; [done|]. by destruct (_ <=? _).
      + by rewrite remove_loop_spec.
      + by case_bool_decide. }
  destruct Hwf as [[Hp Hb Hn Hres] Hm]. rewrite Hm in Hb.
  split_and!; [done..| |].
  - etrans; [|exact Hb]. unfold backlog_len, zlen, zsize.
    assert (H : size (list_to_set (C:=gset string) (keys b)) = length (rb_queue b)).
    { rewrite size_list_to_set by done. unfold keys. by rewrite length_fmap. }
    rewrite <- H. apply inj_le, subseteq_size. intros k. rewrite elem_of_list_to_set. apply Hres.
  - intros k r front Hor. unfold enqueue. monad_simpl. case_bool_decide; [done|].
    destruct Hor as [?|Hz]; [done|]. rewrite Hm, Hz. zbool. done.
Qed.

Lemma backlog_invariant_witness :
  ∃ b : RequestBacklog nat, reachable 2 b ∧ keys b = ["b"] ∧
    enqueue "a" 7%nat false b = (Ok false, b).
Proof.
  pose (b0 := @mkBacklog nat 2 [] ∅).
  pose (b1 := (enqueue "a" 1%nat false b0).2). pose (b2 := (enqueue "b" 2%nat false b1).2).
  pose (b3 := (popleft b2).2).
  assert (Hr : reachable 2 b3).
  { apply reachable_step with b2; [|constructor].
    apply reachable_step with b1; [|constructor].
    apply reachable_step with b0; [by constructor|constructor]. }
  exists b3. split_and!; [done|by vm_compute|].
  apply (backlog_invariant 2 b3 Hr). left.
  apply (bool_decide_unpack _). by vm_compute.
Defined.

(** The queue discipline.  An accepted request joins the back (or, with
    [front], the head) and [popleft] returns requests in queue order and
    leaves their keys reserved; a popped request can be pushed back and is
    then the next one popped; and after [finish] its key is accepted again. *)
Theorem backlog_discipline {T} (b : RequestBacklog T) k (r : T) front :
  wf b → k ∉ rb_reserved b → zsize (rb_reserved b) < rb_maximum b →
  let b1 := (enqueue k r front b).2 in
  (enqueue k r front b).1 = Ok true ∧
  rb_queue b1 = (if front then (k, r) :: rb_queue b else rb_queue b ++ [(k, r)]) ∧
  (∀ k0 r0 q, rb_queue b1 = (k0, r0) :: q →
     let b2 := (popleft b1).2 in
     (popleft b1).1 = Ok r0 ∧ rb_queue b2 = q ∧ k0 ∈ in_flight b2 ∧
     (popleft (push_front k0 r0 b2).2).1 = Ok r0 ∧
     enqueue k0 r0 front b2 = (Ok false, b2) ∧
     (enqueue k0 r0 front (finish k0 b2).2).1 = Ok true).
Proof.
  intros Hwf Hk Hlt b1.
  assert (Hwf1 : wf b1) by (apply (step_wf b); [done|constructor]).
  assert (E : enqueue k r front b = (Ok true, mkBacklog (rb_maximum b)
    (if front then (k, r) :: rb_queue b else rb_queue b ++ [(k, r)]) ({[k]} ∪ rb_reserved b))).
  { unfold enqueue. monad_simpl. rewrite bool_decide_eq_false_2 by done. by zbool. }
  unfold b1 in *. rewrite E in *. cbn [fst snd] in *. split_and!; [done..|].
  clear E. intros k0 r0 q Hq. cbn [rb_queue] in Hq.
  destruct Hwf1 as [Hp Hb Hn Hres]. unfold keys in *. cbn [rb_queue rb_reserved rb_maximum] in *.
  unfold popleft. monad_simpl. rewrite Hq in *. cbn in Hn |- *. apply NoDup_cons in Hn as [Hn0 Hn].
  assert (Hk0 : k0 ∈ {[k]} ∪ rb_reserved b) by (apply Hres; set_solver).
  split_and!; [done|done| | | |].
  - unfold in_flight, keys. cbn. set_solver.
  - unfold push_front. monad_simpl. by rewrite bool_decide_eq_true_2 by done.
  - unfold enqueue. monad_simpl. by rewrite bool_decide_eq_true_2 by done.
  - unfold enqueue. monad_simpl. rewrite bool_decide_eq_false_2 by set_solver.
    assert (Hlt' : zsize (({[k]} ∪ rb_reserved b) ∖ {[k0]}) < rb_maximum b).
    { unfold zsize in *. rewrite size_difference by set_solver.
      rewrite size_singleton, size_union by set_solver. rewrite size_singleton. lia. }
    cbn [rb_maximum rb_reserved]. by zbool.
Qed.

Lemma backlog_discipline_witness :
  let b := @mkBacklog nat 3 [("x", 1%nat)] {["x"]} in
  (enqueue "y" 2%nat false b).1 = Ok true.
Proof.
  intros b. apply (backlog_discipline b "y" 2%nat false).
  - constructor; [by vm_compute|by vm_compute|apply NoDup_singleton|].
    intros k ->%list_elem_of_singleton. set_solver.
  - apply (bool_decide_unpack _). by vm_compute.
  - by vm_compute.
Defined.
