(* ===== verification/Connectivity.v ===== *)
(** * Connectivity: the MAP/PBAP connectivity state machine and retry policy
    (src/blueferry/connectivity.py). *)
From S2P Require Import Prelude.

Inductive ConnectivityState :=
  | INITIALIZING | CONNECTING | READY | DEGRADED | RECONNECTING
  | AUTHORIZATION_REQUIRED | MAP_CONNECTION_REFUSED | STOPPING.

#[global] Instance ConnectivityState_eq_dec : EqDecision ConnectivityState.
Proof. solve_decision. Defined.

Definition state_value (s : ConnectivityState) : string :=
  match s with
  | INITIALIZING => "initializing"
  | CONNECTING => "connecting"
  | READY => "ready"
  | DEGRADED => "degraded"
  | RECONNECTING => "reconnecting"
  | AUTHORIZATION_REQUIRED => "authorization-required"
  | MAP_CONNECTION_REFUSED => "map-connection-refused"
  | STOPPING => "stopping"
  end.

Definition _PUBLIC_DETAILS (s : ConnectivityState) : string :=
  match s with
  | INITIALIZING => "Backend initialization is in progress"
  | CONNECTING => "Opening Bluetooth message profiles"
  | READY => "Bluetooth message profiles are available"
  | DEGRADED => "Bluetooth message profiles are unavailable"
  | RECONNECTING => "Reopening Bluetooth message profiles"
  | AUTHORIZATION_REQUIRED => "iPhone authorization is required"
  | MAP_CONNECTION_REFUSED => "The iPhone refused the message connection"
  | STOPPING => "Backend shutdown is in progress"
  end.

(** [state] is the state's value; error texts are ASCII, where [casefold] is
    lower-casing. *)
Definition is_map_connection_refused (detail state : string) : bool :=
  bool_decide (state = state_value MAP_CONNECTION_REFUSED)
  || (contains "createsession(map)" (casefold detail)
      && contains "connection refused" (casefold detail)
      && contains "111" (casefold detail)).

Record RetryPolicy := mkPolicy {
  initial_seconds : Z;
  maximum_seconds : Z;
  multiplier : Z;
}.
Definition RetryPolicy_default : RetryPolicy := mkPolicy 5 300 2.

Definition delay (p : RetryPolicy) (failure_count : Z) : Z :=
  let exponent := Z.max 0 (failure_count - 1) in
  Z.min (maximum_seconds p) (initial_seconds p * multiplier p ^ exponent).

Record Connectivity := mkConnectivity {
  policy : RetryPolicy;
  state : ConnectivityState;
  detail : string;
  failure_count : Z;
  retry_delay_seconds : option Z;
}.

Definition Connectivity_init (p : RetryPolicy) : Connectivity :=
  mkConnectivity p INITIALIZING "backend startup" 0 None.

Definition connecting (d : string) : M Connectivity () :=
  modify (λ c,
    if (0 <? failure_count c) && bool_decide (state c = MAP_CONNECTION_REFUSED)
    then mkConnectivity (policy c) (state c) (detail c) (failure_count c) None
    else mkConnectivity (policy c) (if failure_count c =? 0 then CONNECTING else RECONNECTING)
           d (failure_count c) None).

Definition ready : M Connectivity () :=
  modify (λ c, mkConnectivity (policy c) READY "MAP/PBAP sessions are available" 0 None).

Definition failed (error : string) (authorization_required map_connection_refused : bool)
    (retry_delay : option Z) : M Connectivity Z :=
  c ← get;
  let count := failure_count c + 1 in
  let secs := match retry_delay with
              | Some s => Z.max 1 s
              | None => delay (policy c) count
              end in
  put (mkConnectivity (policy c)
    (if map_connection_refused then MAP_CONNECTION_REFUSED
     else if authorization_required then AUTHORIZATION_REQUIRED else DEGRADED)
    (if bool_decide (error = "") then "Bluetooth profiles unavailable" else error)
    count (Some secs));;
  mret secs.

Definition lost (reason : string) : M Connectivity () :=
  modify (λ c, mkConnectivity (policy c) RECONNECTING reason (failure_count c) None).

Definition stopping : M Connectivity () :=
  modify (λ c, mkConnectivity (policy c) STOPPING "backend stopping" (failure_count c) None).

(** [self.retry_delay_seconds or 0] is 0 for [None] and for 0. *)
Record Snapshot := mkSnapshot {
  connectivity_state : string;
  connectivity_detail : string;
  retry_attempt : Z;
  snapshot_retry_delay : Z;
}.
Definition snapshot (c : Connectivity) : Snapshot :=
  mkSnapshot (state_value (state c)) (_PUBLIC_DETAILS (state c)) (failure_count c)
    (default 0 (retry_delay_seconds c)).

(** * Theorems *)

Inductive event :=
  | Connecting (d : string)
  | Ready
  | Failed (error : string) (auth refused : bool) (retry_delay : option Z)
  | Lost (reason : string)
  | Stopping.

Definition handle (e : event) : M Connectivity () :=
  match e with
  | Connecting d => connecting d
  | Ready => ready
  | Failed err a r s => failed err a r s;; mret ()
  | Lost reason => lost reason
  | Stopping => stopping
  end.

Definition run (es : list event) (c : Connectivity) : Connectivity := run_all (handle <$> es) c.

(** The number of [Failed] events since the last [Ready]. *)
Fixpoint failures_since_ready (es : list event) (acc : Z) : Z :=
  match es with
  | [] => acc
  | Ready :: es' => failures_since_ready es' 0
  | Failed _ _ _ _ :: es' => failures_since_ready es' (acc + 1)
  | _ :: es' => failures_since_ready es' acc
  end.

Record policy_ok (p : RetryPolicy) : Prop := {
  initial_pos : 1 <= initial_seconds p;
  initial_le_max : initial_seconds p <= maximum_seconds p;
  multiplier_pos : 1 <= multiplier p;
}.

(** The retry delay is a capped exponential: every delay lies between the
    initial and the maximum delay, the first failure waits exactly the initial
    delay, more failures never wait less, and once the uncapped delay reaches
    the maximum every later delay is the maximum. *)
Theorem delay_bounds p n m : policy_ok p → n <= m →
  initial_seconds p <= delay p n <= maximum_seconds p ∧
  delay p 1 = initial_seconds p ∧
  delay p n <= delay p m ∧
  (delay p n = maximum_seconds p → delay p m = maximum_seconds p) ∧
  (1 <= n → delay p n < maximum_seconds p →
     delay p (n + 1) = Z.min (maximum_seconds p) (delay p n * multiplier p)).
Proof.
  intros [Hi Him Hm] Hnm. unfold delay.
  assert (Hpow : ∀ e, 0 <= e → 1 <= multiplier p ^ e).
  { intros e He. pose proof (Z.pow_pos_nonneg (multiplier p) e ltac:(lia) He). lia. }
  pose proof (Hpow (Z.max 0 (n - 1)) ltac:(lia)).
  assert (Hmono : multiplier p ^ Z.max 0 (n - 1) <= multiplier p ^ Z.max 0 (m - 1))
    by (apply Z.pow_le_mono_r; lia).
  assert (Hmul : initial_seconds p * multiplier p ^ Z.max 0 (n - 1)
                 <= initial_seconds p * multiplier p ^ Z.max 0 (m - 1))
    by (apply Z.mul_le_mono_nonneg_l; lia).
  split_and!; [nia | lia | | lia | lia | ].
  - cbn [Z.max Z.sub Z.compare Z.add Z.opp Z.pos_sub Pos.pred_double]. rewrite Z.pow_0_r. lia.
  - intros Hn Hlt. replace (Z.max 0 (n + 1 - 1)) with (Z.succ (Z.max 0 (n - 1))) by lia.
    rewrite Z.pow_succ_r by lia.
    rewrite (Z.min_r (maximum_seconds p) (initial_seconds p * multiplier p ^ Z.max 0 (n - 1)))
      by lia. f_equal. ring.
Qed.

Lemma delay_bounds_witness :
  policy_ok RetryPolicy_default ∧ delay RetryPolicy_default 6 <= delay RetryPolicy_default 9 ∧
  delay RetryPolicy_default 6 = 160 ∧ delay RetryPolicy_default 7 = 300.
Proof.
  assert (H : policy_ok RetryPolicy_default) by (by constructor).
  split; [exact H|]. split; [|by vm_compute].
  apply (delay_bounds RetryPolicy_default 6 9 H). lia.
Defined.

Definition inv_ok (c : Connectivity) : Prop :=
  0 <= failure_count c ∧
  (state c = READY → failure_count c = 0) ∧
  (is_Some (retry_delay_seconds c) →
     state c ∈ [DEGRADED; AUTHORIZATION_REQUIRED; MAP_CONNECTION_REFUSED] ∧ 1 <= failure_count c ∧
     ∀ s, retry_delay_seconds c = Some s → 1 <= s) ∧
  (state c ∈ [DEGRADED; AUTHORIZATION_REQUIRED] → is_Some (retry_delay_seconds c)).

Lemma run_policy es c : policy (run es c) = policy c.
Proof.
  unfold run. revert c. induction es as [|e es IH]; intros c; cbn; [done|]. rewrite IH.
  destruct e; cbn; [|done..]. by destruct (_ && _).
Qed.

Lemma handle_inv e c : policy_ok (policy c) → inv_ok c → inv_ok (handle e c).2.
Proof.
  intros Hp (Hf & Hr & Hd & Hs). pose proof (delay_bounds (policy c) (failure_count c + 1)
    (failure_count c + 1) Hp ltac:(lia)) as (Hb & _). pose proof (initial_pos _ Hp).
  destruct e as [d| |err a r s|reason|]; cbn.
  - destruct (0 <? failure_count c) eqn:E; cbn.
    + case_bool_decide; cbn; unfold inv_ok; cbn.
      * rewrite H0. split_and!; [done|done|by intros [? ?]|set_solver].
      * split_and!; [done| |by intros [? ?]|]; destruct (_ =? 0); set_solver.
    + unfold inv_ok; cbn. split_and!; [done| |by intros [? ?]|]; destruct (_ =? 0); set_solver.
  - unfold inv_ok; cbn. split_and!; [done|done|by intros [? ?]|set_solver].
  - unfold failed. monad_simpl. unfold inv_ok; cbn. split_and!; [lia|by destruct r, a| |].
    2: { intros _. eauto. }
    intros _. split_and!; [destruct r, a; set_solver|lia|]. intros x [= <-].
    destruct s; lia.
  - unfold inv_ok; cbn. split_and!; [done|done|by intros [? ?]|set_solver].
  - unfold inv_ok; cbn. split_and!; [done|done|by intros [? ?]|set_solver].
Qed.

Lemma run_inv es c : policy_ok (policy c) → inv_ok c → inv_ok (run es c).
Proof.
  unfold run. revert c. induction es as [|e es IH]; intros c Hp Hi; cbn; [done|].
  apply IH; [|by apply handle_inv].
  pose proof (run_policy [e] c) as E. cbn in E. by rewrite E.
Qed.

Lemma run_failures es c : failure_count (run es c) = failures_since_ready es (failure_count c).
Proof.
  unfold run. revert c. induction es as [|e es IH]; intros c; cbn; [done|].
  rewrite IH. destruct e as [d| |err a r s|reason|]; cbn; try done.
  by destruct (_ && _).
Qed.

(** The state machine's invariant after any sequence of events.  The
    failure count is the number of failures since the last success; a pending
    retry exists exactly in the failure states (it is at least one second, and
    only a refusal may be shown without one, while a poll is in flight); READY
    means no failures; and the public snapshot never carries the internal
    error text: its detail is the fixed text of its state. *)
Theorem connectivity_invariant p es :
  policy_ok p →
  let c := run es (Connectivity_init p) in
  failure_count c = failures_since_ready es 0 ∧ inv_ok c ∧
  connectivity_state (snapshot c) = state_value (state c) ∧
  connectivity_detail (snapshot c) = _PUBLIC_DETAILS (state c) ∧
  retry_attempt (snapshot c) = failures_since_ready es 0 ∧
  (snapshot_retry_delay (snapshot c) = 0 ↔ retry_delay_seconds c = None).
Proof.
  intros Hp c.
  assert (Hi : inv_ok c).
  { apply run_inv; [done|]. unfold inv_ok; cbn.
    split_and!; [lia|done|by intros [? ?]|set_solver]. }
  assert (Hf : failure_count c = failures_since_ready es 0) by apply run_failures.
  split_and!; [done..|].
  destruct Hi as (_ & _ & Hd & _). cbn. destruct (retry_delay_seconds c) as [s|] eqn:E; cbn; [|done].
  destruct (Hd ltac:(eauto)) as (_ & _ & Hs). specialize (Hs s eq_refl). split; [lia|done].
Qed.

Lemma connectivity_invariant_witness :
  let c := run [Connecting "x"; Failed "boom" false true None; Connecting "y";
                Failed "" true false (Some 0)] (Connectivity_init RetryPolicy_default) in
  failure_count c = 2 ∧ state c = AUTHORIZATION_REQUIRED ∧ retry_delay_seconds c = Some 1.
Proof.
  intros c. split; [|by vm_compute].
  refine (proj1 (connectivity_invariant RetryPolicy_default
    [Connecting "x"; Failed "boom" false true None; Connecting "y"; Failed "" true false (Some 0)]
    _)). by constructor.
Defined.

(** Which failure the user sees.  A refused MAP connection takes
    precedence over a missing authorization, which takes precedence over the
    generic state; a refusal stays visible while a later attempt is being
    made, until that attempt succeeds or fails differently, or the link is
    lost; other failures show RECONNECTING during the attempt, and a first
    attempt shows CONNECTING. *)
Theorem failure_visibility c err auth refused s d :
  inv_ok c →
  let f := (failed err auth refused s c).2 in
  state f = (if refused then MAP_CONNECTION_REFUSED
             else if auth then AUTHORIZATION_REQUIRED else DEGRADED) ∧
  state (connecting d f).2 = (if refused then MAP_CONNECTION_REFUSED else RECONNECTING) ∧
  retry_delay_seconds (connecting d f).2 = None ∧
  state (ready f).2 = READY ∧
  state (connecting d (ready f).2).2 = CONNECTING ∧
  state (lost err (connecting d f).2).2 = RECONNECTING ∧
  (failed err auth refused s c).1 = Ok (default 0 (retry_delay_seconds f)).
Proof.
  intros (Hf & _) f.
  assert (Hc : failure_count f = failure_count c + 1) by done.
  assert (Hs : state f = (if refused then MAP_CONNECTION_REFUSED
             else if auth then AUTHORIZATION_REQUIRED else DEGRADED)) by done.
  unfold connecting. monad_simpl. rewrite Hc, Hs. zbool.
  destruct refused; cbn; [done|]. by destruct auth.
Qed.

Lemma failure_visibility_witness :
  let f := (failed "refused" true true None (Connectivity_init RetryPolicy_default)).2 in
  state (connecting "again" f).2 = MAP_CONNECTION_REFUSED.
Proof.
  intros f. apply (failure_visibility (Connectivity_init RetryPolicy_default) "refused" true true
    None "again").
  unfold inv_ok; cbn. split_and!; [lia|done|by intros [? ?]|].
  intros H. apply (bool_decide_pack _) in H. vm_compute in H. destruct H.
Defined.
