(* ===== verification/Ams.v ===== *)
(** * Ams: the Apple Media Service parsers and the now-playing projection
    (src/blueferry/ams/parsers.py, state.py, constants.py).

    Remote text is a list of code points.  Python's [int(str)] and
    [float(str)] are arguments of the definitions that use them ([py_int],
    [py_float], with [None] for the [ValueError] they raise): the theorems hold
    whatever text they accept.  Finite floats are canonical rationals, so
    rounding is not modelled; an infinity or NaN is [NonFinite]. *)
From Stdlib Require Import Qcanon.
From stdpp Require Import numbers sorting.
From S2P Require Import Prelude Wire PyStr.

(** ** Constants *)

Definition MAX_AMS_VALUE_BYTES : Z := 8 * 1024.
Definition MAX_REMOTE_PROPERTY_CHARS : Z := 512.

Module EntityID.
Definition Player : Z := 0.
Definition Queue : Z := 1.
Definition Track : Z := 2.
End EntityID.

Module PlayerAttributeID.
Definition Name : Z := 0.
Definition PlaybackInfo : Z := 1.
Definition Volume : Z := 2.
End PlayerAttributeID.

Module QueueAttributeID.
Definition Index : Z := 0.
Definition Count : Z := 1.
Definition ShuffleMode : Z := 2.
Definition RepeatMode : Z := 3.
End QueueAttributeID.

Module TrackAttributeID.
Definition Artist : Z := 0.
Definition Album : Z := 1.
Definition Title : Z := 2.
Definition Duration : Z := 3.
End TrackAttributeID.

Definition EntityUpdateFlag_Truncated : Z := Z.shiftl 1 0.

Inductive PlaybackState := Paused | Playing | Rewinding | FastForwarding.
#[global] Instance PlaybackState_eq_dec : EqDecision PlaybackState.
Proof. solve_decision. Defined.

(** [PlaybackState(number)]; [None] is the [ValueError]. *)
Definition PlaybackState_of (z : Z) : option PlaybackState :=
  if z =? 0 then Some Paused else if z =? 1 then Some Playing
  else if z =? 2 then Some Rewinding else if z =? 3 then Some FastForwarding else None.

(** [_REMOTE_COMMAND_VALUES]: Play (0) to BookmarkTrack (13). *)
Definition _REMOTE_COMMAND_VALUES : list Z := seqZ 0 14.

(** [ENTITY_ATTRIBUTES]. *)
Definition ENTITY_ATTRIBUTES (entity : Z) : option (list Z) :=
  if entity =? EntityID.Player then Some (seqZ 0 3)
  else if entity =? EntityID.Queue then Some (seqZ 0 4)
  else if entity =? EntityID.Track then Some (seqZ 0 4) else None.

(** ** Parsers and builders *)

Record EntityUpdate := mkEntityUpdate {
  eu_entity : Z;
  eu_attribute : Z;
  eu_truncated : bool;
  eu_value : ustr;
}.

(** [value.rstrip("\ufffd")]. *)
Fixpoint lstrip_char (c : Z) (s : ustr) : ustr :=
  match s with [] => [] | x :: s' => if x =? c then lstrip_char c s' else s end.
Definition rstrip_char (c : Z) (s : ustr) : ustr := reverse (lstrip_char c (reverse s)).

Definition EntityUpdate_parse (raw : bytes) : result EntityUpdate :=
  if zlen raw <? 3 then
    Raise (ValueError ("AMS entity update too short (" +:+ pretty (zlen raw) +:+ " bytes)"))
  else if MAX_AMS_VALUE_BYTES <? zlen raw - 3 then
    Raise (ValueError "AMS entity update value is too large")
  else
    let entity := le_val (slice 0 1 raw) in
    let attribute := le_val (slice 1 2 raw) in
    let flags := le_val (slice 2 3 raw) in
    let truncated := negb (Z.land flags EntityUpdateFlag_Truncated =? 0) in
    let value := utf8_decode (slice_from 3 raw) in
    let value := if truncated then rstrip_char REPLACEMENT value else value in
    Ok (mkEntityUpdate entity attribute truncated value).

Definition decode_attribute_value (raw : bytes) : result ustr :=
  if MAX_AMS_VALUE_BYTES <? zlen raw
  then Raise (ValueError "AMS entity attribute value is too large")
  else Ok (utf8_decode raw).

Definition parse_supported_commands (raw : bytes) : result (gset Z) :=
  if 256 <? zlen raw then Raise (ValueError "AMS supported-command list is too long")
  else Ok (list_to_set
    (List.filter (λ v, bool_decide (v ∈ _REMOTE_COMMAND_VALUES)) (b2z <$> raw))).

Definition build_remote_command (value : Z) : result bytes :=
  if bool_decide (value ∈ _REMOTE_COMMAND_VALUES) then byte_of value
  else Raise (ValueError ("unknown AMS remote command " +:+ pretty value)).

Definition _checked_entity (entity : Z) : result (Z * list Z) :=
  match ENTITY_ATTRIBUTES entity with
  | Some allowed => Ok (entity, allowed)
  | None => Raise (ValueError ("unknown AMS entity " +:+ pretty entity))
  end.

Definition unknown_attribute (attribute entity : Z) : exn :=
  ValueError ("unknown AMS attribute " +:+ pretty attribute +:+ " for " +:+
    (if entity =? EntityID.Player then "Player"
     else if entity =? EntityID.Queue then "Queue" else "Track")).

(** The check loop over the attributes; the bytes are built when it ends. *)
Fixpoint check_attributes (selected : Z) (allowed attributes : list Z) : result () :=
  match attributes with
  | [] => Ok ()
  | a :: rest =>
      if bool_decide (a ∈ allowed) then check_attributes selected allowed rest
      else Raise (unknown_attribute a selected)
  end.

Definition build_entity_update_registration (entity : Z) (attributes : list Z) : result bytes :=
  '(selected, allowed) ← _checked_entity entity;
  match attributes with
  | [] => Raise (ValueError "an AMS registration needs at least one attribute")
  | _ =>
      _ ← check_attributes selected allowed attributes;
      Ok (z2b selected :: (z2b <$> attributes))
  end.

Definition build_entity_attribute_request (entity attribute : Z) : result bytes :=
  '(selected, allowed) ← _checked_entity entity;
  if bool_decide (attribute ∈ allowed) then Ok [z2b selected; z2b attribute]
  else Raise (unknown_attribute attribute selected).

(** [_BIDI_CONTROLS] and the category Cc. *)
Definition is_bidi_control (c : Z) : bool :=
  ((0x202A <=? c) && (c <? 0x202F)) || ((0x2066 <=? c) && (c <? 0x206A))
  || (c =? 0x200E) || (c =? 0x200F).
Definition is_Cc (c : Z) : bool :=
  ((0 <=? c) && (c <=? 0x1F)) || ((0x7F <=? c) && (c <=? 0x9F)).

(** [s.strip()]. *)
Fixpoint lstrip (s : ustr) : ustr :=
  match s with [] => [] | x :: s' => if is_space x then lstrip s' else s end.
Definition strip (s : ustr) : ustr := reverse (lstrip (reverse (lstrip s))).

Definition clean_text (value : ustr) : ustr :=
  let kept := List.filter (λ c, negb (is_bidi_control c) && negb (is_Cc c)) value in
  slice 0 MAX_REMOTE_PROPERTY_CHARS (strip kept).

Inductive pyfloat := Finite (q : Qc) | NonFinite.

Definition in_range (lo x hi : Qc) : bool := bool_decide (lo ≤ x)%Qc && bool_decide (x ≤ hi)%Qc.
Definition qc (z : Z) : Qc := Qc_of_Z z.
Definition TEN_YEARS : Qc := qc (10 * 365 * 86400).

(** [text.split(",")]. *)
Fixpoint split_comma_aux (cur : ustr) (s : ustr) : list ustr :=
  match s with
  | [] => [reverse cur]
  | c :: s' => if c =? 44 then reverse cur :: split_comma_aux [] s' else split_comma_aux (c :: cur) s'
  end.
Definition split_comma (s : ustr) : list ustr := split_comma_aux [] s.

Record PlaybackInfo := mkPlaybackInfo {
  pi_state : option PlaybackState;
  pi_rate : option Qc;
  pi_elapsed : option Qc;
}.

Section numbers.
Context (py_int : ustr → option Z) (py_float : ustr → option pyfloat).

Definition _finite (text : ustr) : result Qc :=
  match py_float (strip text) with
  | None => Raise (ValueError "could not convert string to float")
  | Some NonFinite => Raise (ValueError "AMS numeric value is not finite")
  | Some (Finite q) => Ok q
  end.

Definition int_of (text : ustr) : result Z :=
  match py_int (strip text) with
  | None => Raise (ValueError "invalid literal for int()")
  | Some z => Ok z
  end.

Definition blank (text : ustr) : bool := bool_decide (strip text = []).

Definition parse_playback_info (value : ustr) : result PlaybackInfo :=
  let text := strip value in
  if bool_decide (text = []) then Ok (mkPlaybackInfo None None None) else
  match split_comma text with
  | [state_text; rate_text; elapsed_text] =>
      let state := match py_int (strip state_text) with
                   | Some n => PlaybackState_of n | None => None end in
      rate ← (if blank rate_text then Ok None else Some <$> _finite rate_text);
      elapsed ← (if blank elapsed_text then Ok None else Some <$> _finite elapsed_text);
      if (match rate with Some r => negb (in_range (qc (-1000)) r (qc 1000)) | None => false end)
      then Raise (ValueError "AMS playback rate is out of range")
      else if (match elapsed with Some e => negb (in_range 0 e TEN_YEARS) | None => false end)
      then Raise (ValueError "AMS elapsed time is out of range")
      else Ok (mkPlaybackInfo state rate elapsed)
  | _ => Raise (ValueError "AMS playback info must have three fields")
  end.

Definition parse_volume (value : ustr) : result (option Qc) :=
  if blank value then Ok None else
  volume ← _finite value;
  if negb (in_range 0 volume (qc 1)) then Raise (ValueError "AMS volume is out of range")
  else Ok (Some volume).

Definition parse_duration (value : ustr) : result (option Qc) :=
  if blank value then Ok None else
  duration ← _finite value;
  if negb (in_range 0 duration TEN_YEARS) then Raise (ValueError "AMS duration is out of range")
  else Ok (Some duration).

Definition parse_count (value : ustr) : result (option Z) :=
  if blank value then Ok None else
  number ← int_of value;
  if negb ((0 <=? number) && (number <=? 10000000))
  then Raise (ValueError "AMS queue value is out of range")
  else Ok (Some number).

Definition parse_mode (value : ustr) : result (option Z) :=
  if blank value then Ok None else
  number ← int_of value;
  Ok (if bool_decide (number ∈ [0; 1; 2]) then Some number else None).
End numbers.

(** ** The now-playing projection (state.py) *)

(** A track attribute holds [None], a [str] or a [float]. *)
Inductive pyval := VNone | VStr (s : ustr) | VNum (q : Qc).
#[global] Instance pyval_eq_dec : EqDecision pyval.
Proof. solve_decision. Defined.

Record NowPlaying := mkNowPlaying {
  player_name : option ustr;
  playback_state : option PlaybackState;
  playback_rate : option Qc;
  elapsed : option Qc;
  elapsed_at : option Qc;
  volume : option Qc;
  queue_index : option Z;
  queue_count : option Z;
  shuffle : option Z;
  repeat : option Z;
  artist : pyval;
  album : pyval;
  title : pyval;
  duration : pyval;
  supported_commands : gset Z;
  supported_commands_known : bool;
  track_serial : Z;
  truncated_track : gset Z;
}.

Definition NowPlaying_init : NowPlaying :=
  mkNowPlaying None None None None None None None None None None VNone VNone VNone VNone ∅ false 0 ∅.

Definition clear_playback : M NowPlaying () :=
  modify (λ np, mkNowPlaying None None None None None None None None None None
    VNone VNone VNone VNone (supported_commands np) (supported_commands_known np)
    (track_serial np) ∅).

(** The two assignments of [reset] and [set_supported_commands]. *)
Definition with_commands (commands : gset Z) (known : bool) (np : NowPlaying) : NowPlaying :=
  mkNowPlaying (player_name np) (playback_state np) (playback_rate np) (elapsed np) (elapsed_at np)
    (volume np) (queue_index np) (queue_count np) (shuffle np) (repeat np)
    (artist np) (album np) (title np) (duration np) commands known
    (track_serial np) (truncated_track np).

Definition reset : M NowPlaying () :=
  clear_playback;; modify (with_commands ∅ false).

Definition set_supported_commands (commands : option (gset Z)) : M NowPlaying bool :=
  np ← get;
  let known := bool_decide (is_Some commands) in
  let commands := default ∅ commands in
  if bool_decide (commands = supported_commands np)
     && bool_decide (known = supported_commands_known np)
  then mret false
  else put (with_commands commands known np);; mret true.

Inductive track_name := TArtist | TAlbum | TTitle | TDuration.

Definition getattr (name : track_name) (np : NowPlaying) : pyval :=
  match name with
  | TArtist => artist np | TAlbum => album np | TTitle => title np | TDuration => duration np
  end.

Definition set_track_fields (name : track_name) (value : pyval) (serial : Z) (trunc : gset Z)
    (np : NowPlaying) : NowPlaying :=
  mkNowPlaying (player_name np) (playback_state np) (playback_rate np) (elapsed np) (elapsed_at np)
    (volume np) (queue_index np) (queue_count np) (shuffle np) (repeat np)
    (match name with TArtist => value | _ => artist np end)
    (match name with TAlbum => value | _ => album np end)
    (match name with TTitle => value | _ => title np end)
    (match name with TDuration => value | _ => duration np end)
    (supported_commands np) (supported_commands_known np) serial trunc.

(** [value.startswith(previous)]. *)
Definition startswith (value previous : ustr) : bool :=
  bool_decide (take (length previous) value = previous).

Definition _set_track (name : track_name) (update : EntityUpdate) (value : pyval) : M NowPlaying () :=
  np ← get;
  let previous := getattr name np in
  let completion :=
    bool_decide (eu_attribute update ∈ truncated_track np)
    && match previous, value with VStr p, VStr v => startswith v p | _, _ => false end in
  let serial := if negb (bool_decide (value = previous)) && negb completion
                then track_serial np + 1 else track_serial np in
  let trunc := if eu_truncated update then truncated_track np ∪ {[eu_attribute update]}
               else truncated_track np ∖ {[eu_attribute update]} in
  put (set_track_fields name value serial trunc np).

(** [clean_text(value) or None]. *)
Definition text_or_none (value : ustr) : option ustr :=
  match clean_text value with [] => None | s => Some s end.
Definition py_of_text (o : option ustr) : pyval := match o with Some s => VStr s | None => VNone end.
Definition py_of_num (o : option Qc) : pyval := match o with Some q => VNum q | None => VNone end.

Definition set_player (name : option ustr) (info : option (PlaybackInfo * Qc))
    (vol : option (option Qc)) (np : NowPlaying) : NowPlaying :=
  mkNowPlaying name
    (match info with Some (i, _) => pi_state i | None => playback_state np end)
    (match info with Some (i, _) => pi_rate i | None => playback_rate np end)
    (match info with Some (i, _) => pi_elapsed i | None => elapsed np end)
    (match info with
     | Some (i, now) => match pi_elapsed i with Some _ => Some now | None => None end
     | None => elapsed_at np end)
    (default (volume np) vol) (queue_index np) (queue_count np) (shuffle np) (repeat np)
    (artist np) (album np) (title np) (duration np) (supported_commands np)
    (supported_commands_known np) (track_serial np) (truncated_track np).

Definition set_queue (index count shuf rep : option Z) (np : NowPlaying) : NowPlaying :=
  mkNowPlaying (player_name np) (playback_state np) (playback_rate np) (elapsed np) (elapsed_at np)
    (volume np) index count shuf rep (artist np) (album np) (title np) (duration np)
    (supported_commands np) (supported_commands_known np) (track_serial np) (truncated_track np).

Section apply.
Context (py_int : ustr → option Z) (py_float : ustr → option pyfloat).

Definition _apply (update : EntityUpdate) (now : Qc) : M NowPlaying () :=
  np ← get;
  let value := eu_value update in
  let attribute := eu_attribute update in
  if eu_entity update =? EntityID.Player then
    if attribute =? PlayerAttributeID.Name then
      put (set_player (text_or_none value) None None np)
    else if attribute =? PlayerAttributeID.PlaybackInfo then
      info ← lift (parse_playback_info py_int py_float value);
      put (set_player (player_name np) (Some (info, now)) None np)
    else if attribute =? PlayerAttributeID.Volume then
      v ← lift (parse_volume py_float value);
      put (set_player (player_name np) None (Some v) np)
    else mret ()
  else if eu_entity update =? EntityID.Queue then
    if attribute =? QueueAttributeID.Index then
      n ← lift (parse_count py_int value);
      put (set_queue n (queue_count np) (shuffle np) (repeat np) np)
    else if attribute =? QueueAttributeID.Count then
      n ← lift (parse_count py_int value);
      put (set_queue (queue_index np) n (shuffle np) (repeat np) np)
    else if attribute =? QueueAttributeID.ShuffleMode then
      n ← lift (parse_mode py_int value);
      put (set_queue (queue_index np) (queue_count np) n (repeat np) np)
    else if attribute =? QueueAttributeID.RepeatMode then
      n ← lift (parse_mode py_int value);
      put (set_queue (queue_index np) (queue_count np) (shuffle np) n np)
    else mret ()
  else if eu_entity update =? EntityID.Track then
    if attribute =? TrackAttributeID.Artist then
      _set_track TArtist update (py_of_text (text_or_none value))
    else if attribute =? TrackAttributeID.Album then
      _set_track TAlbum update (py_of_text (text_or_none value))
    else if attribute =? TrackAttributeID.Title then
      _set_track TTitle update (py_of_text (text_or_none value))
    else if attribute =? TrackAttributeID.Duration then
      d ← lift (parse_duration py_float value);
      _set_track TDuration update (py_of_num d)
    else mret ()
  else mret ().

Definition _fingerprint (np : NowPlaying) :=
  (player_name np, playback_state np, playback_rate np, elapsed np, volume np,
   queue_index np, queue_count np, shuffle np, repeat np,
   artist np, album np, title np, duration np,
   supported_commands np, supported_commands_known np).

(** [except ValueError: return False]. *)
Definition apply (update : EntityUpdate) (now : Qc) : M NowPlaying bool :=
  λ np, match _apply update now np with
        | (Ok _, np') => (Ok (negb (bool_decide (_fingerprint np' = _fingerprint np))), np')
        | (Raise (ValueError _), np') => (Ok false, np')
        | (Raise e, np') => (Raise e, np')
        end.
End apply.

Definition playing (np : NowPlaying) : bool :=
  match playback_state np with
  | Some Playing | Some Rewinding | Some FastForwarding => true
  | _ => false
  end.

Definition qmax (a b : Qc) : Qc := if bool_decide (a ≤ b)%Qc then b else a.
Definition qmin (a b : Qc) : Qc := if bool_decide (a ≤ b)%Qc then a else b.

Definition position (np : NowPlaying) (now : Qc) : option Qc :=
  match elapsed np with
  | None => None
  | Some e =>
      let pos :=
        match playing np, elapsed_at np, playback_rate np with
        | true, Some at_, Some rate =>
            (* a rate of 0.0 is falsy and adds nothing either way *)
            (e + rate * qmax 0 (now - at_))%Qc
        | _, _, _ => e
        end in
      let pos :=
        match duration np with
        | VNum d => if bool_decide (0 < d)%Qc then qmin pos d else pos
        | _ => pos
        end in
      Some (qmax 0 pos)
  end.

Definition PLAYBACK_STATE_NAMES (s : PlaybackState) : string :=
  match s with
  | Paused => "paused" | Playing => "playing"
  | Rewinding => "rewinding" | FastForwarding => "fast-forwarding"
  end.
Definition MODE_NAMES (z : Z) : option string :=
  if z =? 0 then Some "off" else if z =? 1 then Some "one" else if z =? 2 then Some "all" else None.

(** [COMMAND_IDS]: the public name of a remote command. *)
Definition command_names : list string :=
  ["play"; "pause"; "toggle"; "next"; "previous"; "volume-up"; "volume-down"; "repeat"; "shuffle";
   "skip-forward"; "skip-backward"; "like"; "dislike"; "bookmark"].
Definition COMMAND_IDS (c : Z) : option string :=
  if c <? 0 then None else command_names !! Z.to_nat c.

Record Snapshot := mkSnapshot {
  s_player : option ustr * option string * option Qc * option Qc;
  s_queue : option Z * option Z * option string * option string;
  s_track : pyval * pyval * pyval * pyval * option Qc;
  s_commands : list string;
  s_commands_known : bool;
}.

Definition snapshot (np : NowPlaying) (now : Qc) : result Snapshot :=
  names ← mapM (λ c, match COMMAND_IDS c with Some n => Ok n | None => Raise KeyError end)
            (elements (supported_commands np));
  Ok (mkSnapshot
    (player_name np, PLAYBACK_STATE_NAMES <$> playback_state np, playback_rate np, volume np)
    (queue_index np, queue_count np, shuffle np ≫= MODE_NAMES, repeat np ≫= MODE_NAMES)
    (artist np, album np, title np, duration np, position np now)
    (merge_sort String.le names) (supported_commands_known np)).

(** * Theorems *)

(** ** Cleaned text *)

Definition text_ok (s : ustr) : Prop :=
  s ≠ [] ∧ zlen s <= MAX_REMOTE_PROPERTY_CHARS ∧
  ∀ c, c ∈ s → is_bidi_control c = false ∧ is_Cc c = false.

Lemma lstrip_suffix s : ∃ l, s = l ++ lstrip s ∧ Forall (λ c, is_space c = true) l.
Proof.
  induction s as [|c s IH]; cbn; [by exists []|]. destruct (is_space c) eqn:E; [|by exists []].
  destruct IH as (l & Hl & Hf). exists (c :: l). split; [cbn; by rewrite <- Hl|by constructor].
Qed.

Lemma strip_decompose s : ∃ l r, s = l ++ strip s ++ r ∧
  Forall (λ c, is_space c = true) l ∧ Forall (λ c, is_space c = true) r.
Proof.
  destruct (lstrip_suffix s) as (l & Hl & Hfl).
  destruct (lstrip_suffix (reverse (lstrip s))) as (r & Hr & Hfr).
  exists l, (reverse r). unfold strip. split_and!; [|done|by apply Forall_reverse].
  rewrite Hl at 1. f_equal. rewrite <- reverse_app, <- Hr. by rewrite reverse_involutive.
Qed.

Lemma clean_text_spec s :
  zlen (clean_text s) <= MAX_REMOTE_PROPERTY_CHARS ∧
  ∀ c, c ∈ clean_text s → is_bidi_control c = false ∧ is_Cc c = false.
Proof.
  unfold clean_text. cbv zeta. set (kept := List.filter _ s). split.
  - unfold slice. rewrite drop_0, zlen_take. unfold MAX_REMOTE_PROPERTY_CHARS. lia.
  - intros c Hc. unfold slice in Hc. rewrite drop_0 in Hc.
    apply elem_of_take in Hc as (i & Hi & _). apply list_elem_of_lookup_2 in Hi.
    destruct (strip_decompose kept) as (l & r & E & _).
    assert (Hin : c ∈ kept) by (rewrite E; set_solver).
    apply list_elem_of_In, List.filter_In in Hin as [_ Hin].
    by apply andb_true_iff in Hin as [?%negb_true_iff ?%negb_true_iff].
Qed.

Lemma text_or_none_ok s t : text_or_none s = Some t → text_ok t.
Proof.
  unfold text_or_none. pose proof (clean_text_spec s) as [H1 H2].
  destruct (clean_text s) as [|c r]; [done|]. intros [= <-]. by split_and!.
Qed.

(** ** Well-formed projections *)

Definition opt_ok {A} (P : A → Prop) (o : option A) : Prop := ∀ x, o = Some x → P x.
Definition str_ok (v : pyval) : Prop :=
  match v with VNone => True | VStr s => text_ok s | VNum _ => False end.
Definition num_ok (v : pyval) : Prop :=
  match v with VNone => True | VStr _ => False | VNum q => (0 <= q <= TEN_YEARS)%Qc end.

Record np_ok (np : NowPlaying) : Prop := {
  ok_name : opt_ok text_ok (player_name np);
  ok_rate : opt_ok (λ r, (qc (-1000) <= r <= qc 1000)%Qc) (playback_rate np);
  ok_elapsed : opt_ok (λ e, (0 <= e <= TEN_YEARS)%Qc) (elapsed np);
  ok_elapsed_at : is_Some (elapsed_at np) ↔ is_Some (elapsed np);
  ok_volume : opt_ok (λ v, (0 <= v <= qc 1)%Qc) (volume np);
  ok_index : opt_ok (λ n, 0 <= n <= 10000000) (queue_index np);
  ok_count : opt_ok (λ n, 0 <= n <= 10000000) (queue_count np);
  ok_shuffle : opt_ok (λ n, 0 <= n <= 2) (shuffle np);
  ok_repeat : opt_ok (λ n, 0 <= n <= 2) (repeat np);
  ok_artist : str_ok (artist np);
  ok_album : str_ok (album np);
  ok_title : str_ok (title np);
  ok_duration : num_ok (duration np);
  ok_commands : ∀ c, c ∈ supported_commands np → 0 <= c < 14;
}.

Lemma opt_ok_none {A} (P : A → Prop) : opt_ok P None.
Proof. done. Qed.
#[export] Hint Resolve opt_ok_none : ams.

Lemma np_ok_init : np_ok NowPlaying_init.
Proof. constructor; cbn; auto with ams; done. Qed.

Lemma in_range_true lo x hi : in_range lo x hi = true ↔ (lo <= x <= hi)%Qc.
Proof. unfold in_range. by rewrite andb_true_iff, !bool_decide_eq_true. Qed.

Section invariant.
Context (py_int : ustr → option Z) (py_float : ustr → option pyfloat).

Lemma parse_volume_ok v o : parse_volume py_float v = Ok o → opt_ok (λ v, (0 <= v <= qc 1)%Qc) o.
Proof.
  unfold parse_volume. destruct (blank v); [intros [= <-]; auto with ams|].
  destruct (_finite py_float v) as [q|e]; cbn; [|done].
  destruct (in_range 0 q (qc 1)) eqn:E; cbn; [|done]. intros [= <-] x [= <-].
  by apply in_range_true.
Qed.

Lemma parse_duration_ok v o :
  parse_duration py_float v = Ok o → num_ok (py_of_num o).
Proof.
  unfold parse_duration. destruct (blank v); [by intros [= <-]|].
  destruct (_finite py_float v) as [q|e]; cbn; [|done].
  destruct (in_range 0 q TEN_YEARS) eqn:E; cbn; [|done]. intros [= <-]. cbn.
  by apply in_range_true.
Qed.

Lemma parse_count_ok v o : parse_count py_int v = Ok o → opt_ok (λ n, 0 <= n <= 10000000) o.
Proof.
  unfold parse_count. destruct (blank v); [intros [= <-]; auto with ams|].
  destruct (int_of py_int v) as [n|e]; cbn; [|done].
  destruct (_ && _) eqn:E; cbn; [|done]. intros [= <-] x [= <-]. lia.
Qed.

Lemma parse_mode_ok v o : parse_mode py_int v = Ok o → opt_ok (λ n, 0 <= n <= 2) o.
Proof.
  unfold parse_mode. destruct (blank v); [intros [= <-]; auto with ams|].
  destruct (int_of py_int v) as [n|e]; cbn; [|done]. case_bool_decide as E; intros [= <-].
  - intros x [= <-]. rewrite !elem_of_cons, elem_of_nil in E. lia.
  - auto with ams.
Qed.

Lemma parse_playback_info_ok v i : parse_playback_info py_int py_float v = Ok i →
  opt_ok (λ r, (qc (-1000) <= r <= qc 1000)%Qc) (pi_rate i) ∧
  opt_ok (λ e, (0 <= e <= TEN_YEARS)%Qc) (pi_elapsed i).
Proof.
  unfold parse_playback_info. cbv zeta. case_bool_decide; [intros [= <-]; auto with ams|].
  destruct (split_comma (strip v)) as [|s [|r [|e [|]]]]; try done.
  intros (rate & _ & H')%result_bind_ok. apply result_bind_ok in H' as (el & _ & H').
  destruct (match rate with Some r => _ | None => _ end) eqn:E1; [done|].
  destruct (match el with Some r => _ | None => _ end) eqn:E2; [done|].
  injection H' as <-. cbn. split; intros x ->.
  - by apply in_range_true, negb_false_iff.
  - by apply in_range_true, negb_false_iff.
Qed.

Lemma set_track_ok name u v np np' r :
  (match name with TDuration => num_ok v | _ => str_ok v end) →
  np_ok np → _set_track name u v np = (r, np') → np_ok np'.
Proof.
  intros Hv [] [= <- <-]. constructor; cbn; try done; destruct name; done.
Qed.

Lemma py_of_text_ok s : str_ok (py_of_text (text_or_none s)).
Proof. destruct (text_or_none s) as [t|] eqn:E; [|done]. by apply text_or_none_ok in E. Qed.

Lemma apply_ok u now np np' r :
  np_ok np → _apply py_int py_float u now np = (r, np') → np_ok np'.
Proof.
  intros Hok. unfold _apply. monad_simpl.
  pose proof Hok as [].
  destruct (eu_entity u =? EntityID.Player).
  - destruct (_ =? PlayerAttributeID.Name).
    { intros [= <- <-]. constructor; cbn; try done. intros t. apply text_or_none_ok. }
    destruct (_ =? PlayerAttributeID.PlaybackInfo).
    { destruct (parse_playback_info _ _ _) as [i|e] eqn:E; intros [= <- <-]; [|done].
      apply parse_playback_info_ok in E as [E1 E2]. constructor; cbn; try done.
      destruct (pi_elapsed i); split; eauto; by intros [? ?]. }
    destruct (_ =? PlayerAttributeID.Volume); [|by intros [= <- <-]].
    destruct (parse_volume _ _) as [o|e] eqn:E; intros [= <- <-]; [|done].
    apply parse_volume_ok in E. by constructor.
  - destruct (eu_entity u =? EntityID.Queue).
    + destruct (_ =? QueueAttributeID.Index).
      { destruct (parse_count _ _) as [o|e] eqn:E; intros [= <- <-]; [|done].
        apply parse_count_ok in E. by constructor. }
      destruct (_ =? QueueAttributeID.Count).
      { destruct (parse_count _ _) as [o|e] eqn:E; intros [= <- <-]; [|done].
        apply parse_count_ok in E. by constructor. }
      destruct (_ =? QueueAttributeID.ShuffleMode).
      { destruct (parse_mode _ _) as [o|e] eqn:E; intros [= <- <-]; [|done].
        apply parse_mode_ok in E. by constructor. }
      destruct (_ =? QueueAttributeID.RepeatMode); [|by intros [= <- <-]].
      destruct (parse_mode _ _) as [o|e] eqn:E; intros [= <- <-]; [|done].
      apply parse_mode_ok in E. by constructor.
    + destruct (eu_entity u =? EntityID.Track); [|by intros [= <- <-]].
      destruct (_ =? TrackAttributeID.Artist); [by apply set_track_ok; [apply py_of_text_ok|]|].
      destruct (_ =? TrackAttributeID.Album); [by apply set_track_ok; [apply py_of_text_ok|]|].
      destruct (_ =? TrackAttributeID.Title); [by apply set_track_ok; [apply py_of_text_ok|]|].
      destruct (_ =? TrackAttributeID.Duration); [|by intros [= <- <-]].
      destruct (parse_duration _ _) as [o|e] eqn:E; [|by intros [= <- <-]].
      apply parse_duration_ok in E. by apply set_track_ok.
Qed.
End invariant.

(** ** Malformed values *)

(** A computation that fails only with [ValueError]. *)
Definition only_value_errors {A} (r : result A) : Prop := ∀ e, r = Raise e → ∃ msg, e = ValueError msg.

Lemma ove_ok {A} (a : A) : only_value_errors (Ok a).
Proof. done. Qed.
Lemma ove_raise {A} msg : only_value_errors (@Raise A (ValueError msg)).
Proof. intros e [= <-]. eauto. Qed.
Lemma ove_bind {A B} (m : result A) (f : A → result B) :
  only_value_errors m → (∀ a, only_value_errors (f a)) → only_value_errors (m ≫= f).
Proof. intros Hm Hf. destruct m as [a|e']; cbn; [apply Hf|]. intros e [= <-]. by apply Hm. Qed.
Lemma ove_if {A} (b : bool) (r1 r2 : result A) :
  only_value_errors r1 → only_value_errors r2 → only_value_errors (if b then r1 else r2).
Proof. by destruct b. Qed.
Lemma ove_fmap {A B} (f : A → B) (m : result A) :
  only_value_errors m → only_value_errors (f <$> m).
Proof. intros Hm. destruct m as [a|e']; cbn; [done|]. intros e [= <-]. by apply Hm. Qed.
#[export] Hint Resolve ove_ok ove_raise ove_bind ove_if ove_fmap : ams.

Section malformed.
Context (py_int : ustr → option Z) (py_float : ustr → option pyfloat).

Lemma finite_ove t : only_value_errors (_finite py_float t).
Proof. unfold _finite. destruct (py_float _) as [[|]|]; auto with ams. Qed.
Lemma int_of_ove t : only_value_errors (int_of py_int t).
Proof. unfold int_of. destruct (py_int _); auto with ams. Qed.
#[local] Hint Resolve finite_ove int_of_ove : ams.

Lemma parse_playback_info_ove v : only_value_errors (parse_playback_info py_int py_float v).
Proof.
  unfold parse_playback_info. cbv zeta. apply ove_if; [auto with ams|].
  destruct (split_comma _) as [|s [|r [|e [|]]]]; auto 8 with ams.
Qed.
Lemma parse_volume_ove v : only_value_errors (parse_volume py_float v).
Proof. unfold parse_volume. auto 8 with ams. Qed.
Lemma parse_duration_ove v : only_value_errors (parse_duration py_float v).
Proof. unfold parse_duration. auto 8 with ams. Qed.
Lemma parse_count_ove v : only_value_errors (parse_count py_int v).
Proof. unfold parse_count. auto 8 with ams. Qed.
Lemma parse_mode_ove v : only_value_errors (parse_mode py_int v).
Proof. unfold parse_mode. auto 8 with ams. Qed.

(** [_apply] parses before it assigns, and only parsing can fail. *)
Lemma apply_raises u now np e np' :
  _apply py_int py_float u now np = (Raise e, np') → np' = np ∧ ∃ msg, e = ValueError msg.
Proof.
  unfold _apply, _set_track. monad_simpl.
  repeat match goal with
    | |- context [if ?b then _ else _] => destruct b; try done
    end;
    match goal with
    | |- context [match ?p with Ok _ => _ | Raise _ => _ end] =>
        destruct p as [?|e'] eqn:E; [done|]; intros [= <- <-]; split; [done|]; revert E
    end;
    first [ apply parse_playback_info_ove | apply parse_volume_ove | apply parse_count_ove
          | apply parse_mode_ove | apply parse_duration_ove ].
Qed.
End malformed.

(** Malformed remote values change nothing.  For every update from the
    phone, [apply] returns (never raises); it returns [True] exactly when the
    visible state changed; and when the value of a known attribute does not
    parse, or the entity or attribute is unknown, the whole projection is
    left as it was. *)
Theorem apply_total py_int py_float u now np :
  ∃ changed np', apply py_int py_float u now np = (Ok changed, np') ∧
    (changed = true ↔ _fingerprint np' ≠ _fingerprint np) ∧
    ((∃ e, (_apply py_int py_float u now np).1 = Raise e) ∨ eu_entity u ∉ [0; 1; 2] ∨
       eu_attribute u ∉ [0; 1; 2; 3] → np' = np ∧ changed = false).
Proof.
  unfold apply. destruct (_apply py_int py_float u now np) as [[[]|e] np'] eqn:E.
  - eexists _, np'. split; [done|]. split.
    { by rewrite negb_true_iff, bool_decide_eq_false. }
    intros [[e He]|Hout]; [done|].
    assert (Hsame : np' = np).
    { revert E. unfold _apply. monad_simpl.
      unfold PlayerAttributeID.Name, PlayerAttributeID.PlaybackInfo, PlayerAttributeID.Volume,
        QueueAttributeID.Index, QueueAttributeID.Count, QueueAttributeID.ShuffleMode,
        QueueAttributeID.RepeatMode, TrackAttributeID.Artist, TrackAttributeID.Album,
        TrackAttributeID.Title, TrackAttributeID.Duration, EntityID.Player, EntityID.Queue,
        EntityID.Track.
      rewrite !elem_of_cons, !elem_of_nil in Hout.
      repeat match goal with
        | |- context [if ?a =? ?b then _ else _] =>
            destruct (Z.eqb_spec a b); [try (exfalso; lia)|]
        end; intros [=]; done. }
    subst. split; [done|]. by rewrite negb_false_iff, bool_decide_eq_true.
  - apply apply_raises in E as [-> [msg ->]]. exists false, np. split; [done|].
    split; [|done]. split; [done|]. by intros [].
Qed.

Lemma apply_total_witness :
  let u := mkEntityUpdate 0 2 false (lit "loud") in
  apply (λ _, None) (λ _, None) u 0%Qc NowPlaying_init = (Ok false, NowPlaying_init).
Proof.
  intros u. destruct (apply_total (λ _, None) (λ _, None) u 0%Qc NowPlaying_init)
    as (c & np' & E & _ & H).
  destruct H as [-> ->]; [|exact E]. left. eexists. vm_compute. reflexivity.
Defined.

(** ** The projection over its lifetime *)

(** What the client does to the projection: an update, the phone's command
    list (raw bytes, or unknown again), or one of the two resets. *)
Inductive op :=
  | OpApply (u : EntityUpdate) (now : Qc)
  | OpCommands (raw : option bytes)
  | OpReset
  | OpClear.

Section lifetime.
Context (py_int : ustr → option Z) (py_float : ustr → option pyfloat).

Definition run_op (o : op) : M NowPlaying () :=
  match o with
  | OpApply u now => apply py_int py_float u now;; mret ()
  | OpCommands None => set_supported_commands None;; mret ()
  | OpCommands (Some raw) =>
      commands ← lift (parse_supported_commands raw);
      set_supported_commands (Some commands);; mret ()
  | OpReset => reset
  | OpClear => clear_playback
  end.

Lemma parse_supported_commands_ok raw s :
  parse_supported_commands raw = Ok s → ∀ c, c ∈ s → 0 <= c < 14.
Proof.
  unfold parse_supported_commands. destruct (256 <? zlen raw); [done|]. intros [= <-] c.
  rewrite elem_of_list_to_set. intros [_ H]%list_elem_of_In%List.filter_In.
  apply bool_decide_eq_true, elem_of_seqZ in H. lia.
Qed.

Lemma set_commands_ok o np :
  np_ok np → (∀ c, c ∈ default ∅ o → 0 <= c < 14) → np_ok (set_supported_commands o np).2.
Proof.
  intros Hok Ho. pose proof Hok as []. unfold set_supported_commands. monad_simpl.
  destruct (_ && _); [done|]. by constructor.
Qed.

Lemma run_op_ok o np : np_ok np → np_ok (run_op o np).2.
Proof.
  intros Hok. destruct o as [u now|[raw|]| |]; cbn [run_op].
  - unfold apply. unfold mbind, M_bind.
    destruct (_apply py_int py_float u now np) as [[[]|e] np'] eqn:E.
    + by eapply apply_ok.
    + apply apply_raises in E as [-> [msg ->]]. done.
  - unfold mbind, M_bind, lift. destruct (parse_supported_commands raw) as [s|e] eqn:E; [|done].
    pose proof (set_commands_ok (Some s) np Hok (parse_supported_commands_ok raw s E)) as H.
    by destruct (set_supported_commands (Some s) np) as [[[]|] ?].
  - pose proof (set_commands_ok None np Hok ltac:(cbn; set_solver)) as H. unfold mbind, M_bind.
    by destruct (set_supported_commands None np) as [[[]|] ?].
  - pose proof Hok as []. constructor; cbn; auto with ams; done.
  - pose proof Hok as []. constructor; cbn; auto with ams; done.
Qed.

Lemma run_op_serial o np : track_serial np <= track_serial (run_op o np).2.
Proof.
  destruct o as [u now|[raw|]| |]; cbn [run_op]; [| | |done|done].
  - unfold apply, _apply, _set_track, mbind, M_bind, mret, M_ret, get, put, lift.
    repeat (cbn [fst snd track_serial set_player set_queue set_track_fields];
      match goal with
      | |- context [if ?b then _ else _] => destruct b
      | |- context [match ?p with Ok _ => _ | Raise _ => _ end] => destruct p as [?|[]]
      end); cbn [fst snd track_serial set_player set_queue set_track_fields]; lia.
  - unfold mbind, M_bind, lift. destruct (parse_supported_commands raw); [|done].
    unfold set_supported_commands. monad_simpl. by destruct (_ && _).
  - unfold mbind, M_bind, set_supported_commands. monad_simpl. by destruct (_ && _).
Qed.
End lifetime.

Lemma qmax_ge a b : (a <= qmax a b)%Qc.
Proof. unfold qmax. case_bool_decide; [done|]. apply Qcle_refl. Qed.

Lemma qmax_lub a b c : (a <= c)%Qc → (b <= c)%Qc → (qmax a b <= c)%Qc.
Proof. unfold qmax. by case_bool_decide. Qed.

Lemma qmin_r a b : (qmin a b <= b)%Qc.
Proof.
  unfold qmin. case_bool_decide as H; [done|apply Qcle_refl].
Qed.

Lemma position_bounds np now p : position np now = Some p →
  (0 <= p)%Qc ∧ ∀ d, duration np = VNum d → (0 < d)%Qc → (p <= d)%Qc.
Proof.
  unfold position. destruct (elapsed np) as [e|]; [|done]. cbv zeta. intros [= <-].
  split; [apply qmax_ge|]. intros d -> Hd. rewrite (bool_decide_eq_true_2 (0 < d)%Qc) by done.
  apply qmax_lub; [by apply Qclt_le_weak|apply qmin_r].
Qed.

Lemma snapshot_ok np now : (∀ c, c ∈ supported_commands np → 0 <= c < 14) →
  is_ok (snapshot np now) = true.
Proof.
  intros Hc. unfold snapshot.
  assert (H : ∀ l, (∀ c, c ∈ l → 0 <= c < 14) →
    ∃ names, mapM (λ c, match COMMAND_IDS c with Some n => Ok n | None => Raise KeyError end) l
      = Ok names).
  { induction l as [|c l IH]; intros Hl; [by exists []|].
    destruct IH as [names E]; [intros; apply Hl; by right|].
    assert (Hn : ∃ n, COMMAND_IDS c = Some n).
    { specialize (Hl c ltac:(left)). unfold COMMAND_IDS. zbool.
      apply lookup_lt_is_Some_2. cbn. lia. }
    destruct Hn as [n Hn]. cbn. rewrite Hn. cbn. rewrite E. by eexists. }
  destruct (H (elements (supported_commands np))) as [names E].
  { intros c. rewrite elem_of_elements. apply Hc. }
  by rewrite E.
Qed.

(** Whatever the phone sends, the now-playing projection stays well
    formed.  After any sequence of updates, command lists and resets, every
    text is non-empty, at most 512 characters and free of control and
    bidirectional-override characters; rate, elapsed time, volume, duration,
    queue numbers and modes are in their ranges; a position has its time
    stamp; the track serial never went down; the snapshot is total, and its
    extrapolated position is never negative and never past the duration. *)
Theorem projection_wellformed py_int py_float ops o now p :
  let np := run_all (run_op py_int py_float <$> ops) NowPlaying_init in
  np_ok np ∧
  track_serial np <= track_serial (run_op py_int py_float o np).2 ∧
  is_ok (snapshot np now) = true ∧
  (position np now = Some p →
     (0 <= p)%Qc ∧ ∀ d, duration np = VNum d → (0 < d)%Qc → (p <= d)%Qc).
Proof.
  intros np. assert (Hok : np_ok np).
  { apply (run_all_invariant np_ok); [|apply np_ok_init].
    intros m t (o' & -> & _)%list_elem_of_fmap Ht. by apply run_op_ok. }
  split_and!; [done|apply run_op_serial|apply snapshot_ok, Hok|apply position_bounds].
Qed.

(** ** Truncated values and track identity *)

Lemma lstrip_char_suffix c s : ∃ l, s = l ++ lstrip_char c s ∧ Forall (λ x, x = c) l.
Proof.
  induction s as [|x s IH]; cbn; [by exists []|]. destruct (Z.eqb_spec x c); [|by exists []].
  destruct IH as (l & Hl & Hf). exists (x :: l). split; [cbn; by rewrite <- Hl|by constructor].
Qed.

Lemma rstrip_char_prefix c s : rstrip_char c s `prefix_of` s.
Proof.
  unfold rstrip_char. destruct (lstrip_char_suffix c (reverse s)) as (l & Hl & _).
  exists (reverse l). rewrite <- reverse_app, <- Hl. by rewrite reverse_involutive.
Qed.

Lemma rstrip_char_snoc c s : rstrip_char c (s ++ [c]) = rstrip_char c s.
Proof. unfold rstrip_char. rewrite reverse_snoc. cbn. by rewrite Z.eqb_refl. Qed.

Lemma lstrip_app p q :
  lstrip (p ++ q) = match lstrip p with [] => lstrip q | l => l ++ q end.
Proof.
  induction p as [|c p IH]; cbn; [done|]. destruct (is_space c); [done|]. done.
Qed.

Definition rstrip (s : ustr) : ustr := reverse (lstrip (reverse s)).

Lemma rstrip_prefix s : rstrip s `prefix_of` s.
Proof.
  unfold rstrip. destruct (lstrip_suffix (reverse s)) as (l & Hl & _).
  exists (reverse l). rewrite <- reverse_app, <- Hl. by rewrite reverse_involutive.
Qed.

Lemma rstrip_app_prefix u q : rstrip u `prefix_of` rstrip (u ++ q).
Proof.
  unfold rstrip at 2. rewrite reverse_app, lstrip_app.
  destruct (lstrip (reverse q)) as [|c l] eqn:E; [done|].
  rewrite reverse_app, reverse_involutive. etrans; [apply rstrip_prefix|]. by eexists.
Qed.

Lemma strip_prefix p s : p `prefix_of` s → strip p `prefix_of` strip s.
Proof.
  intros [q ->]. change (strip ?x) with (rstrip (lstrip x)). rewrite lstrip_app.
  destruct (lstrip p) as [|c l]; [apply prefix_nil|]. apply rstrip_app_prefix.
Qed.

Lemma clean_text_prefix p s : p `prefix_of` s → clean_text p `prefix_of` clean_text s.
Proof.
  intros [q ->]. unfold clean_text. cbv zeta. rewrite List.filter_app. unfold slice.
  rewrite !drop_0.
  destruct (strip_prefix (List.filter (λ c, negb (is_bidi_control c) && negb (is_Cc c)) p)
    (List.filter (λ c, negb (is_bidi_control c) && negb (is_Cc c)) p ++
     List.filter (λ c, negb (is_bidi_control c) && negb (is_Cc c)) q)) as [r ->]; [by eexists|].
  rewrite take_app. by eexists.
Qed.

(** The text attributes of a track. *)
Definition text_attribute (name : track_name) : option Z :=
  match name with
  | TArtist => Some TrackAttributeID.Artist
  | TAlbum => Some TrackAttributeID.Album
  | TTitle => Some TrackAttributeID.Title
  | TDuration => None
  end.

Lemma apply_text py_int py_float name attr trunc value now np :
  text_attribute name = Some attr →
  _apply py_int py_float (mkEntityUpdate EntityID.Track attr trunc value) now np
    = _set_track name (mkEntityUpdate EntityID.Track attr trunc value)
        (py_of_text (text_or_none value)) np.
Proof. by destruct name; intros [= <-]. Qed.

Lemma apply_state py_int py_float u now np np' :
  _apply py_int py_float u now np = (Ok (), np') → (apply py_int py_float u now np).2 = np'.
Proof. unfold apply. by intros ->. Qed.

Lemma truncated_update_parses attr bs n s : 0 <= attr < 256 → utf8_encode s = Ok bs →
  zlen bs <= MAX_AMS_VALUE_BYTES →
  ∃ p, p `prefix_of` s ∧
    EntityUpdate_parse (z2b EntityID.Track :: z2b attr :: z2b EntityUpdateFlag_Truncated :: take n bs)
      = Ok (mkEntityUpdate EntityID.Track attr true p).
Proof.
  intros Hattr Henc Hmax. destruct (utf8_decode_take s bs n Henc) as (p & Hp & Ht).
  exists (rstrip_char REPLACEMENT p). split; [etrans; [apply rstrip_char_prefix|done]|].
  unfold EntityUpdate_parse. rewrite !zlen_cons, zlen_take. pose proof (zlen_nonneg bs).
  unfold MAX_AMS_VALUE_BYTES in *.
  rewrite (proj2 (Z.ltb_ge _ 3)) by lia. rewrite (proj2 (Z.ltb_ge (8 * 1024) _)) by lia.
  change (slice_from 3 (?a :: ?b :: ?c :: ?l)) with l.
  change (slice 1 2 (?a :: ?b :: ?l)) with [b]. cbn [le_val].
  rewrite b2z_z2b_small by done.
  change (slice 0 1 (?a :: ?l)) with [a]. change (slice 2 3 (?a :: ?b :: ?c :: ?l)) with [c].
  change (le_val [z2b EntityUpdateFlag_Truncated]) with 1.
  change (negb (Z.land 1 EntityUpdateFlag_Truncated =? 0)) with true. cbv iota zeta.
  do 2 f_equal; [lia|]. by destruct Ht as [->| ->]; [|rewrite rstrip_char_snoc].
Qed.

(** Completing a truncated value is not a track change.  Let the phone's
    value of a text attribute be sent truncated at any byte (also inside a
    character) and then fetched in full.  The truncated packet parses to a
    prefix of the text, and if anything of it was shown, the full value
    replaces it as the same track: the track serial keeps its value, the text
    shown is the cleaned full text, which extends what was shown, and the
    attribute is no longer marked truncated. *)
Theorem truncated_completion_same_track py_int py_float name attr s bs n now now' np :
  text_attribute name = Some attr →
  utf8_encode s = Ok bs → zlen bs <= MAX_AMS_VALUE_BYTES →
  ∃ u1, EntityUpdate_parse
      (z2b EntityID.Track :: z2b attr :: z2b EntityUpdateFlag_Truncated :: take n bs) = Ok u1 ∧
    decode_attribute_value bs = Ok s ∧
    let np1 := (apply py_int py_float u1 now np).2 in
    let np2 := (apply py_int py_float (mkEntityUpdate EntityID.Track attr false s) now' np1).2 in
    attr ∈ truncated_track np1 ∧ attr ∉ truncated_track np2 ∧
    ∀ shown, getattr name np1 = VStr shown →
      shown `prefix_of` clean_text s ∧ getattr name np2 = VStr (clean_text s) ∧
      track_serial np2 = track_serial np1.
Proof.
  intros Hname Henc Hmax.
  assert (Hattr : 0 <= attr < 256) by (destruct name; simplify_eq/=; by vm_compute).
  destruct (truncated_update_parses attr bs n s Hattr Henc Hmax) as (p & Hp & Hparse).
  eexists. split; [exact Hparse|]. split.
  { unfold decode_attribute_value. by rewrite (proj2 (Z.ltb_ge _ _)), (utf8_roundtrip _ _ Henc). }
  cbv zeta.
  rewrite !(apply_state _ _ _ _ _ _ (apply_text py_int py_float name attr _ _ _ _ Hname)).
  set (np1 := set_track_fields name _ _ _ np).
  assert (Hget : getattr name np1 = py_of_text (text_or_none p)) by (by destruct name).
  cbn [truncated_track set_track_fields eu_truncated eu_attribute]. split_and!; [set_solver..|].
  intros shown Hshown. rewrite Hget in Hshown. unfold text_or_none in Hshown.
  pose proof (clean_text_prefix p s Hp) as Hpre.
  assert (Hcp : clean_text p = shown ∧ shown ≠ [])
    by (destruct (clean_text p); [done|]; by injection Hshown as <-).
  destruct Hcp as [Hcp Hne]. rewrite Hcp in Hpre.
  assert (Hs : text_or_none s = Some (clean_text s)).
  { unfold text_or_none. destruct (clean_text s) eqn:E; [|done].
    by apply prefix_nil_inv in Hpre. }
  split_and!; [done|rewrite Hs; by destruct name|].
  cbn [track_serial set_track_fields]. rewrite Hget, Hs. unfold text_or_none. rewrite Hcp.
  destruct shown as [|x shown]; [done|]. cbn [py_of_text eu_attribute].
  assert (Hc : startswith (clean_text s) (x :: shown) = true).
  { unfold startswith. apply bool_decide_eq_true. destruct Hpre as [r ->].
    by rewrite take_app_length. }
  assert (Hin : bool_decide (attr ∈ truncated_track np1) = true)
    by (apply bool_decide_eq_true; cbn; set_solver).
  rewrite Hin, Hc. cbn [andb negb]. by rewrite andb_false_r.
Qed.

Lemma truncated_completion_same_track_witness :
  let np0 := NowPlaying_init in
  ∃ u1, EntityUpdate_parse
      (z2b EntityID.Track :: z2b TrackAttributeID.Title :: z2b EntityUpdateFlag_Truncated
        :: take 2 (map z2b [83; 195; 169])) = Ok u1 ∧
    decode_attribute_value (map z2b [83; 195; 169]) = Ok [83; 233] ∧
    let np1 := (apply (λ _, None) (λ _, None) u1 0%Qc np0).2 in
    let np2 := (apply (λ _, None) (λ _, None)
      (mkEntityUpdate EntityID.Track TrackAttributeID.Title false [83; 233]) 0%Qc np1).2 in
    TrackAttributeID.Title ∈ truncated_track np1 ∧ TrackAttributeID.Title ∉ truncated_track np2 ∧
    ∀ shown, getattr TTitle np1 = VStr shown →
      shown `prefix_of` clean_text [83; 233] ∧ getattr TTitle np2 = VStr (clean_text [83; 233]) ∧
      track_serial np2 = track_serial np1.
Proof.
  apply (truncated_completion_same_track (λ _, None) (λ _, None) TTitle TrackAttributeID.Title
    [83; 233] (map z2b [83; 195; 169]) 2%nat 0%Qc 0%Qc NowPlaying_init); by vm_compute.
Defined.

Lemma projection_wellformed_witness :
  let run := run_op (λ _, Some 1) (λ _, Some (Finite (qc 5))) in
  let ops := [OpApply (mkEntityUpdate EntityID.Player PlayerAttributeID.PlaybackInfo false
    (lit "1,1,5")) (qc 1)] in
  let np := run_all (run <$> ops) NowPlaying_init in
  ∃ p, position np (qc 3) = Some p ∧ (0 <= p)%Qc.
Proof.
  intros run ops np. destruct (position np (qc 3)) as [p|] eqn:E.
  - exists p. split; [done|]. exact (proj1 (proj2 (proj2 (proj2
      (projection_wellformed (λ _, Some 1) (λ _, Some (Finite (qc 5))) ops OpReset (qc 3) p))) E)).
  - assert (H : match position np (qc 3) with Some _ => true | None => false end = true)
      by (vm_compute; reflexivity).
    by rewrite E in H.
Defined.
