(* ===== verification/SlidingWindow.v ===== *)
(** * SlidingWindow: deques of time stamps that count events in a window.

    The caller guard, the recovery budgets and the reconnect limits of the
    program all keep a deque of times, drop the entries that left the window
    from its front, refuse when too many are left, and append the current time
    when they accept.  Here is the deque's pruning loop and what it means for
    the whole history of accepted times: if each accepted event found fewer
    than [n] entries, no window of that length holds more than [n]
    ([rate_ok]). *)
From Stdlib Require Export Sorted.
From S2P Require Import Prelude.

(** [while attempts and attempts[0] <= cutoff: attempts.popleft()]. *)
Fixpoint expire (cutoff : Z) (l : list Z) : list Z :=
  match l with
  | [] => []
  | t :: l' => if t <=? cutoff then expire cutoff l' else l
  end.

Lemma expire_idemp c l : expire c (expire c l) = expire c l.
Proof.
  induction l as [|t l IH]; cbn; [done|]. destruct (t <=? c) eqn:E; [done|]. cbn. by rewrite E.
Qed.

Lemma expire_all_old c l : Forall (λ t, t <= c) l → expire c l = [].
Proof. induction 1 as [|t l Ht _ IH]; cbn; [done|]. by zbool. Qed.

(** ** Sliding windows *)

(** The elements of [l] in the window of length [secs] that ends at [t]. *)
Definition in_window (secs t : Z) (l : list Z) : list Z :=
  List.filter (λ y, (t - secs <? y) && (y <=? t)) l.

(** No window of length [secs] holds more than [n] elements of [l]. *)
Definition rate_ok (secs n : Z) (l : list Z) : Prop := ∀ t, zlen (in_window secs t l) <= n.

Definition bounded_by (x : Z) (l : list Z) : Prop := Forall (λ y, y <= x) l.

Lemma in_window_app secs t l1 l2 :
  in_window secs t (l1 ++ l2) = in_window secs t l1 ++ in_window secs t l2.
Proof. apply List.filter_app. Qed.

Lemma in_window_none secs t l : Forall (λ y, y <= t - secs) l → in_window secs t l = [].
Proof.
  induction 1 as [|y l Hy _ IH]; cbn; [done|]. unfold in_window in IH. rewrite IH.
  by replace (t - secs <? y) with false by lia.
Qed.

Lemma in_window_le_length secs t l : zlen (in_window secs t l) <= zlen l.
Proof.
  induction l as [|y l IH]; cbn; [done|]. unfold in_window in IH.
  destruct (_ && _); rewrite ?zlen_cons; lia.
Qed.

(** A later window end only loses elements when all elements precede it. *)
Lemma in_window_mono secs t x l : bounded_by x l → x <= t →
  zlen (in_window secs t l) <= zlen (in_window secs x l).
Proof.
  intros Hb Hxt. induction Hb as [|y l Hy _ IH]; cbn; [done|]. unfold in_window in IH.
  destruct (t - secs <? y) eqn:E1; destruct (y <=? t) eqn:E2; cbn;
    destruct (x - secs <? y) eqn:E3; destruct (y <=? x) eqn:E4; cbn; rewrite ?zlen_cons; lia.
Qed.

Lemma rate_ok_snoc secs n l x :
  bounded_by x l → 0 < secs → rate_ok secs n l → zlen (in_window secs x l) < n →
  rate_ok secs n (l ++ [x]).
Proof.
  intros Hb Hs Hok Hlt t. rewrite in_window_app, zlen_app. cbn.
  destruct (t - secs <? x) eqn:E1; destruct (x <=? t) eqn:E2; cbn [andb];
    try (specialize (Hok t); rewrite zlen_nil; lia).
  rewrite zlen_cons, zlen_nil. pose proof (in_window_mono secs t x l Hb ltac:(lia)). lia.
Qed.

(** A deque [l] represents the history [h] of a rule up to the horizon [now]:
    it is a suffix of it, and what was dropped has left every window that can
    still matter. *)
Definition represents (secs now : Z) (h l : list Z) : Prop :=
  ∃ dropped, h = dropped ++ l ∧ Forall (λ y, y <= now - secs) dropped.

Lemma represents_later secs now now' h l :
  now <= now' → represents secs now h l → represents secs now' h l.
Proof.
  intros Hle (d & -> & Hd). exists d. split; [done|].
  eapply Forall_impl; [exact Hd|]. cbn. lia.
Qed.

Lemma expire_represents secs now h l :
  represents secs now h l → represents secs now h (expire (now - secs) l).
Proof.
  intros (d & -> & Hd). revert d Hd. induction l as [|y l IH]; intros d Hd; cbn.
  - exists d. done.
  - destruct (y <=? now - secs) eqn:E; [|by exists d].
    destruct (IH (d ++ [y])) as (d' & Hd' & Hf).
    + apply Forall_app. split; [done|]. repeat constructor. lia.
    + exists d'. split; [|done]. by rewrite <- Hd', <- (assoc_L (++)).
Qed.

Lemma represents_window secs now h l :
  represents secs now h l → zlen (in_window secs now h) <= zlen l.
Proof.
  intros (d & -> & Hd). rewrite in_window_app, (in_window_none secs now d) by done.
  apply in_window_le_length.
Qed.

Lemma represents_snoc secs now h l :
  represents secs now h l → represents secs now (h ++ [now]) (l ++ [now]).
Proof. intros (d & -> & Hd). exists d. by rewrite (assoc_L (++)). Qed.


(** ** Runs under a clock that never goes back *)

(** An invariant indexed by the latest clock reading that every step keeps
    holds after a whole run, at any time from its end. *)
Lemma clocked_run {St Op} (op_time : Op → Z) (step : St → Op → St) (I : St → Z → Prop) s ops now :
  (∀ s t o, t <= op_time o → I s t → I (step s o) (op_time o)) →
  (∀ s t t', t <= t' → I s t → I s t') → (∀ t, I s t) →
  StronglySorted Z.le (op_time <$> ops) → Forall (λ o, op_time o <= now) ops →
  I (foldl step s ops) now.
Proof.
  intros Hstep Hlater Hinit Hs Hnow.
  assert (H : ∀ ops s t, StronglySorted Z.le (t :: (op_time <$> ops)) →
    Forall (λ o, op_time o <= now) ops → t <= now → I s t → I (foldl step s ops) now).
  { clear ops s Hinit Hs Hnow.
    induction ops as [|o ops IH]; intros s t Hs Hnow Ht Hi; [by eapply Hlater|].
    apply StronglySorted_inv in Hs as [Hs Hf]. apply Forall_cons in Hf as [Hto _].
    apply Forall_cons in Hnow as [Ho Hnow].
    cbn. eapply IH; [exact Hs|done|done|]. by eapply Hstep. }
  destruct ops as [|o ops]; [apply Hinit|].
  apply (H (o :: ops) s (op_time o)); [|done|by apply Forall_cons in Hnow as [? _]|apply Hinit].
  cbn in Hs |- *. constructor; [done|]. apply StronglySorted_inv in Hs as [_ Hf].
  by constructor.
Qed.

Lemma in_window_suffix secs t p q :
  Forall (λ y, y <= t - secs) p → zlen (in_window secs t (p ++ q)) <= zlen q.
Proof.
  intros Hp. rewrite in_window_app, (in_window_none secs t p Hp). apply in_window_le_length.
Qed.
