(* ===== verification/CallerGuard.v ===== *)
(** * CallerGuard: caller validation and rate limits of the session-bus API
    (src/blueferry/dbus_security.py).

    The clock reading of a call is an argument; the bus daemon's credentials
    (a mapping that may hold an integer ["UnixUserID"]) come from a parameter,
    as [credential_provider] does in the code.  Window lengths are in the
    microseconds of [Prelude.sec]. *)
From Stdlib Require Import Sorted.
From S2P Require Import Prelude SlidingWindow.

Record RateRule := mkRule { rr_attempts : Z; rr_seconds : Z }.

#[global] Instance RateRule_eq_dec : EqDecision RateRule.
Proof. solve_decision. Defined.

Definition rule (attempts seconds : Z) : RateRule := mkRule attempts (sec seconds).

Definition rules_table : list (string * list RateRule) :=
  [("status", [rule 600 60]);
   ("read", [rule 240 60]);
   ("contact-photo", [rule 120 60; rule 1200 3600]);
   ("send", [rule 30 60; rule 200 3600]);
   ("contact-sync", [rule 6 600; rule 20 3600]);
   ("call-history-sync", [rule 12 600; rule 60 3600]);
   ("settings", [rule 30 60]);
   ("notification-click", [rule 30 60; rule 300 3600]);
   ("conversation-delete", [rule 60 60; rule 500 3600]);
   ("destructive", [rule 6 600]);
   ("unlock", [rule 6 600]);
   ("media-read", [rule 600 60]);
   ("media-command", [rule 60 60; rule 1200 3600]);
   ("calls-dial", [rule 6 60; rule 60 3600]);
   ("calls-answer", [rule 10 60; rule 120 3600]);
   ("calls-control", [rule 60 60; rule 600 3600]);
   ("calls-hangup", [rule 60 60; rule 600 3600]);
   ("tether", [rule 10 60; rule 60 3600]);
   ("audio-route", [rule 20 60; rule 120 3600]);
   ("notifications-read", [rule 240 60]);
   ("notifications-pin", [rule 30 60; rule 300 3600]);
   ("feature", [rule 20 60; rule 120 3600]);
   ("reconnect", [rule 6 60; rule 60 3600])].
Definition _RULES : gmap string (list RateRule) := list_to_map rules_table.

Definition global_rules_table : list (string * list RateRule) :=
  [("contact-photo", [rule 600 60; rule 6000 3600])].
Definition _GLOBAL_RULES : gmap string (list RateRule) := list_to_map global_rules_table.

Definition global_rules (action : string) (rules : list RateRule) : list RateRule :=
  default rules (_GLOBAL_RULES !! action).

(** What the bus daemon says about a connection: its ["UnixUserID"], when
    present and an integer. *)
Definition Credentials : Type := option Z.

Record CallerGuard := mkGuard {
  expected_uid : Z;
  credentials : gmap string Credentials;
  attempts : gmap (string * string * Z) (list Z);
}.
Definition CallerGuard_init (uid : Z) : CallerGuard := mkGuard uid ∅ ∅.

Definition set_attempts (key : string * string * Z) (l : list Z) (g : CallerGuard) : CallerGuard :=
  mkGuard (expected_uid g) (credentials g) (<[key := l]> (attempts g)).
Definition attempts_at (key : string * string * Z) (g : CallerGuard) : list Z :=
  default [] (attempts g !! key).

Definition check_rule (scope action : string) (now : Z) (r : RateRule) : M CallerGuard () :=
  let key := (scope, action, rr_seconds r) in
  g ← get;
  let l := expire (now - rr_seconds r) (attempts_at key g) in
  put (set_attempts key l g);;
  if rr_attempts r <=? zlen l then raise (RateLimitError "please wait a moment, then try again")
  else mret ().

Definition record_rule (scope action : string) (now : Z) (r : RateRule) : M CallerGuard () :=
  let key := (scope, action, rr_seconds r) in
  modify (λ g, set_attempts key (attempts_at key g ++ [now]) g).

Fixpoint for_each {S A} (f : A → M S ()) (l : list A) : M S () :=
  match l with
  | [] => mret ()
  | x :: l' => f x;; for_each f l'
  end.

Definition ANY : string := "*".

Definition _check_rates (sender action : string) (now : Z) : M CallerGuard () :=
  match _RULES !! action with
  | None => raise (RuntimeError ("unknown D-Bus authorization action: " +:+ action))
  | Some rules =>
      for_each (check_rule sender action now) rules;;
      for_each (check_rule ANY action now) (global_rules action rules);;
      for_each (record_rule sender action now) rules;;
      for_each (record_rule ANY action now) (global_rules action rules)
  end.

(** [s.startswith(":")]: a unique bus name. *)
Definition starts_with_colon (s : string) : bool := String.prefix ":" s.

Section provider.
Context (credential_provider : string → result Credentials).

Definition authorize (sender : option string) (action : string) (now : Z) : M CallerGuard () :=
  let identity := default "" sender in
  if negb (starts_with_colon identity)
  then raise (AuthorizationError "D-Bus caller identity is unavailable")
  else
    g ← get;
    creds ←
      match credentials g !! identity with
      | Some c => mret c
      | None =>
          match credential_provider identity with
          | Raise _ =>
              raise (AuthorizationError "D-Bus caller credentials could not be verified")
          | Ok c =>
              put (mkGuard (expected_uid g) (<[identity := c]> (credentials g)) (attempts g));;
              mret c
          end
      end;
    match creds with
    | None => raise (AuthorizationError "D-Bus caller has no verified Unix UID")
    | Some uid =>
        if negb (uid =? expected_uid g)
        then raise (AuthorizationError "D-Bus caller is not authorized")
        else _check_rates identity action now
    end.
End provider.

Definition forget (sender : string) : M CallerGuard () :=
  modify (λ g, mkGuard (expected_uid g) (delete sender (credentials g))
    (filter (λ kv : (string * string * Z) * list Z, kv.1.1.1 ≠ sender) (attempts g))).

Definition _name_owner_changed (name old_owner new_owner : string) : M CallerGuard () :=
  if starts_with_colon name && negb (bool_decide (old_owner = "")) && bool_decide (new_owner = "")
  then forget name else mret ().

Definition close : M CallerGuard () :=
  modify (λ g, mkGuard (expected_uid g) ∅ ∅).

(** * Theorems *)

(** ** The rule tables *)

Definition rules_ok (rules : list RateRule) : Prop :=
  NoDup (rr_seconds <$> rules) ∧ Forall (λ r, 0 < rr_attempts r ∧ 0 < rr_seconds r) rules.

#[local] Instance rules_ok_dec rules : Decision (rules_ok rules).
Proof. unfold rules_ok. apply _. Defined.

(** The rules of a scope: a caller, or [ANY] for the daemon-wide windows. *)
Definition scope_rules (scope action : string) : list RateRule :=
  match _RULES !! action with
  | None => []
  | Some rules => if bool_decide (scope = ANY) then global_rules action rules else rules
  end.

Lemma table_ok (table : list (string * list RateRule)) action rules :
  Forall (λ ar, rules_ok ar.2) table →
  (list_to_map table : gmap string (list RateRule)) !! action = Some rules → rules_ok rules.
Proof.
  intros Hf H%elem_of_list_to_map_2. rewrite Forall_forall in Hf. exact (Hf _ H).
Qed.

Lemma scope_rules_ok scope action : rules_ok (scope_rules scope action).
Proof.
  assert (Hnil : rules_ok []) by (split; constructor).
  unfold scope_rules, global_rules. destruct (_RULES !! action) as [rules|] eqn:E; [|done].
  assert (Hr : rules_ok rules).
  { eapply (table_ok rules_table); [|exact E]. apply (bool_decide_unpack _). by vm_compute. }
  case_bool_decide; [|done]. destruct (_GLOBAL_RULES !! action) as [grules|] eqn:E'; [|done].
  eapply (table_ok global_rules_table); [|exact E'].
  apply (bool_decide_unpack _). by vm_compute.
Qed.

(** ** One call *)

Lemma attempts_at_set k k' l g :
  attempts_at k (set_attempts k' l g) = if decide (k = k') then l else attempts_at k g.
Proof.
  unfold attempts_at, set_attempts. cbn. case_decide as E; [subst|].
  - by rewrite lookup_insert_eq.
  - by rewrite lookup_insert_ne.
Qed.

(** The deques of [g'] are those of [g], some of them expired at [now]. *)
Definition expired_at (now : Z) (g g' : CallerGuard) : Prop :=
  ∀ k, attempts_at k g' = attempts_at k g ∨ attempts_at k g' = expire (now - k.2) (attempts_at k g).

#[local] Instance expired_at_refl now : Reflexive (expired_at now).
Proof. by left. Qed.
#[local] Instance expired_at_trans now : Transitive (expired_at now).
Proof.
  intros g1 g2 g3 H1 H2 k. destruct (H1 k) as [E1|E1], (H2 k) as [E2|E2]; rewrite E2, E1; auto.
  right. by rewrite expire_idemp.
Qed.

Lemma expired_at_represents now g g' k h :
  expired_at now g g' → represents k.2 now h (attempts_at k g) →
  represents k.2 now h (attempts_at k g').
Proof. intros H Hr. destruct (H k) as [->| ->]; [done|]. by apply expire_represents. Qed.

Lemma for_each_cons {S A} (f : A → M S ()) x l s :
  for_each f (x :: l) s =
    match f x s with (Ok _, s') => for_each f l s' | (Raise e, s') => (Raise e, s') end.
Proof. cbn. unfold mbind, M_bind. by destruct (f x s) as [[[]|e] s']. Qed.

Lemma for_each_app {S A} (f : A → M S ()) l1 l2 s :
  for_each f (l1 ++ l2) s =
    match for_each f l1 s with (Ok _, s') => for_each f l2 s' | (Raise e, s') => (Raise e, s') end.
Proof.
  revert s. induction l1 as [|x l1 IH]; intros s; [done|].
  cbn [app]. rewrite !for_each_cons. destruct (f x s) as [[[]|e] s']; [apply IH|done].
Qed.

Lemma check_rule_spec scope action now r g :
  let k := (scope, action, rr_seconds r) in
  let l := expire (now - rr_seconds r) (attempts_at k g) in
  check_rule scope action now r g =
    (if rr_attempts r <=? zlen l then Raise (RateLimitError "please wait a moment, then try again")
     else Ok (), set_attempts k l g).
Proof. unfold check_rule. monad_simpl. by destruct (_ <=? _). Qed.

Lemma check_rules_spec scope action now rules g :
  let '(res, g') := for_each (check_rule scope action now) rules g in
  expired_at now g g' ∧
  (res = Ok () →
     Forall (λ r, zlen (expire (now - rr_seconds r) (attempts_at (scope, action, rr_seconds r) g))
                  < rr_attempts r) rules) ∧
  (∀ e, res = Raise e → ∃ msg, e = RateLimitError msg).
Proof.
  revert g. induction rules as [|r rules IH]; intros g; [split_and!; [reflexivity|constructor|done]|].
  rewrite for_each_cons, check_rule_spec. cbv zeta.
  set (k := (scope, action, rr_seconds r)).
  set (l := expire (now - rr_seconds r) (attempts_at k g)).
  assert (Hexp : expired_at now g (set_attempts k l g)).
  { intros k'. rewrite attempts_at_set. case_decide as E; [subst; by right|by left]. }
  destruct (rr_attempts r <=? zlen l) eqn:E.
  { split_and!; [done|done|]. intros e [= <-]. eauto. }
  specialize (IH (set_attempts k l g)).
  destruct (for_each _ _ _) as [res g']. destruct IH as (He & Hok & Herr).
  split_and!; [by etrans|intros Hres|done]. constructor; [subst l k; lia|].
  specialize (Hok Hres). eapply Forall_impl; [exact Hok|]. cbn. intros r'.
  destruct (Hexp (scope, action, rr_seconds r')) as [->| ->]; [done|].
  cbn. by rewrite expire_idemp.
Qed.

Lemma record_rules_spec scope action now rules g :
  NoDup (rr_seconds <$> rules) →
  let '(res, g') := for_each (record_rule scope action now) rules g in
  res = Ok () ∧ credentials g' = credentials g ∧ expected_uid g' = expected_uid g ∧
  ∀ k, attempts_at k g' =
    if decide (k.1 = (scope, action) ∧ k.2 ∈ rr_seconds <$> rules)
    then attempts_at k g ++ [now] else attempts_at k g.
Proof.
  revert g. induction rules as [|r rules IH]; intros g Hnd.
  { split_and!; [done..|]. intros k. rewrite decide_False; [done|]. cbn. set_solver. }
  cbn in Hnd. apply NoDup_cons in Hnd as [Hr Hnd].
  rewrite for_each_cons. unfold record_rule at 1. monad_simpl.
  set (k0 := (scope, action, rr_seconds r)).
  specialize (IH (set_attempts k0 (attempts_at k0 g ++ [now]) g) Hnd).
  destruct (for_each _ _ _) as [res g']. destruct IH as (Hres & Hc & Hu & IH).
  split_and!; [done..|]. intros k. rewrite IH, attempts_at_set.
  destruct k as [[sc ac] s]. cbn [fst snd fmap list_fmap]. unfold k0.
  destruct (decide ((sc, ac, s) = (scope, action, rr_seconds r))) as [E|E].
  - injection E as -> -> ->. rewrite decide_False, decide_True by set_solver. done.
  - destruct (decide ((sc, ac) = (scope, action) ∧ s ∈ rr_seconds <$> rules)) as [[Hk Hs]|Hn].
    + rewrite decide_True; [done|]. split; [done|]. by right.
    + rewrite decide_False; [done|]. intros [Hk [->|Hs]%elem_of_cons]; [|by apply Hn].
      injection Hk as -> ->. done.
Qed.

Lemma expired_at_quota now g g1 scope action rules :
  expired_at now g g1 →
  Forall (λ r, zlen (expire (now - rr_seconds r) (attempts_at (scope, action, rr_seconds r) g1))
               < rr_attempts r) rules →
  Forall (λ r, zlen (expire (now - rr_seconds r) (attempts_at (scope, action, rr_seconds r) g))
               < rr_attempts r) rules.
Proof.
  intros He Hf. eapply Forall_impl; [exact Hf|]. cbn. intros r.
  destruct (He (scope, action, rr_seconds r)) as [->| ->]; [done|]. cbn. by rewrite expire_idemp.
Qed.

(** The scopes one call is counted against. *)
Definition counted (sender action : string) (k : string * string * Z) : Prop :=
  (k.1.1 = sender ∨ k.1.1 = ANY) ∧ k.1.2 = action ∧ k.2 ∈ rr_seconds <$> scope_rules k.1.1 action.

#[local] Instance counted_dec sender action k : Decision (counted sender action k).
Proof. unfold counted. apply _. Defined.

(** All rules have room, then everything is recorded; or nothing is. *)
Definition quota_free (sender action : string) (now : Z) (g : CallerGuard) : Prop :=
  ∀ scope, scope = sender ∨ scope = ANY →
    Forall (λ r, zlen (expire (now - rr_seconds r) (attempts_at (scope, action, rr_seconds r) g))
                 < rr_attempts r) (scope_rules scope action).

Lemma scope_rules_sender sender action rules :
  _RULES !! action = Some rules → sender ≠ ANY → scope_rules sender action = rules.
Proof. intros E Hs. unfold scope_rules. rewrite E. by rewrite bool_decide_eq_false_2. Qed.
Lemma scope_rules_any action rules :
  _RULES !! action = Some rules → scope_rules ANY action = global_rules action rules.
Proof. intros E. unfold scope_rules. rewrite E. by rewrite bool_decide_eq_true_2. Qed.

Lemma check_rates_spec sender action now g : sender ≠ ANY →
  let '(res, g') := _check_rates sender action now g in
  (res = Ok () → quota_free sender action now g ∧ is_Some (_RULES !! action) ∧
     ∃ g1, expired_at now g g1 ∧ ∀ k, attempts_at k g' =
       if decide (counted sender action k) then attempts_at k g1 ++ [now] else attempts_at k g1) ∧
  (∀ e, res = Raise e → expired_at now g g' ∧
     (is_Some (_RULES !! action) → ∃ msg, e = RateLimitError msg)).
Proof.
  intros Hs. unfold _check_rates. destruct (_RULES !! action) as [rules|] eqn:E.
  2: { split; [done|]. intros e [= <-]. split; [reflexivity|by intros [? ?]]. }
  pose proof (scope_rules_sender _ _ _ E Hs) as Esnd. pose proof (scope_rules_any _ _ E) as Eany.
  pose proof (scope_rules_ok sender action) as [Hnd1 _].
  pose proof (scope_rules_ok ANY action) as [Hnd2 _]. rewrite Esnd in Hnd1. rewrite Eany in Hnd2.
  unfold mbind, M_bind.
  pose proof (check_rules_spec sender action now rules g) as H1.
  destruct (for_each (check_rule sender action now) rules g) as [[[]|e1] g1];
    destruct H1 as (He1 & Hq1 & Hr1).
  2: { split; [done|]. intros e [= <-]. split; [done|]. intros _. by apply Hr1. }
  pose proof (check_rules_spec ANY action now (global_rules action rules) g1) as H2.
  destruct (for_each (check_rule ANY action now) _ g1) as [[[]|e2] g2];
    destruct H2 as (He2 & Hq2 & Hr2).
  2: { split; [done|]. intros e [= <-]. split; [by etrans|]. intros _. by apply Hr2. }
  pose proof (record_rules_spec sender action now rules g2 Hnd1) as H3.
  destruct (for_each (record_rule sender action now) rules g2) as [res3 g3].
  destruct H3 as (-> & _ & _ & H3).
  pose proof (record_rules_spec ANY action now (global_rules action rules) g3 Hnd2) as H4.
  destruct (for_each (record_rule ANY action now) _ g3) as [res4 g4].
  destruct H4 as (-> & _ & _ & H4).
  split; [|done]. intros _. split_and!; [|eauto|].
  - intros scope [->| ->]; [rewrite Esnd; by apply Hq1|].
    rewrite Eany. eapply expired_at_quota; [exact He1|by apply Hq2].
  - exists g2. split; [by etrans|]. intros [[sc ac] s]. rewrite H4, H3.
    cbn [fst snd]. destruct (decide (sc = ANY)) as [->|Hsc].
    + rewrite (decide_False (P := (ANY, ac) = (sender, action) ∧ _))
        by (intros [[= E' _] _]; by apply Hs).
      apply decide_ext. unfold counted; cbn. rewrite Eany.
      split; [intros [[= ->] ?]; auto|intros (_ & -> & ?); auto].
    + rewrite (decide_False (P := (sc, ac) = (ANY, action) ∧ _))
        by (intros [[= E' _] _]; by apply Hsc).
      apply decide_ext. unfold counted; cbn. split.
      * intros [[= -> ->] ?]. rewrite Esnd. auto.
      * intros ([->|?] & -> & Hin); [|done]. by rewrite Esnd in Hin.
Qed.

(** ** Runs of the guard *)

Inductive call :=
  | Authorize (sender : option string) (action : string)
  | OwnerChanged (name old_owner new_owner : string).

(** An accepted call: when, by whom, for which action. *)
Definition entry : Type := Z * string * string.

Section runs.
Context (credential_provider : string → result Credentials).

Definition serve_one (now : Z) (c : call) (g : CallerGuard) : list entry * CallerGuard :=
  match c with
  | Authorize sender action =>
      let '(res, g') := authorize credential_provider sender action now g in
      (match res with Ok _ => [(now, default "" sender, action)] | Raise _ => [] end, g')
  | OwnerChanged name old new => ([], (_name_owner_changed name old new g).2)
  end.

(** The calls that were accepted, in order. *)
Fixpoint serve (cs : list (Z * call)) (g : CallerGuard) : list entry :=
  match cs with
  | [] => []
  | (now, c) :: cs' => let '(log, g') := serve_one now c g in log ++ serve cs' g'
  end.

(** The accepted times of an action that count against a scope. *)
Definition accepted (scope action : string) (log : list entry) : list Z :=
  (λ e : entry, e.1.1) <$>
    List.filter (λ e : entry, bool_decide (e.2 = action)
                 && (bool_decide (scope = ANY) || bool_decide (e.1.2 = scope))) log.

Lemma accepted_app scope action l1 l2 :
  accepted scope action (l1 ++ l2) = accepted scope action l1 ++ accepted scope action l2.
Proof. unfold accepted. by rewrite List.filter_app, fmap_app. Qed.

Lemma accepted_counted scope action now sender action' :
  accepted scope action [(now, sender, action')] =
    if decide ((scope = sender ∨ scope = ANY) ∧ action = action') then [now] else [].
Proof.
  unfold accepted. cbn.
  destruct (decide (action' = action)) as [->|Ha].
  - rewrite (bool_decide_eq_true_2 (action = action)) by done. cbn.
    destruct (decide (scope = ANY)) as [->|Hs].
    + rewrite bool_decide_eq_true_2 by done. rewrite decide_True by auto. done.
    + rewrite (bool_decide_eq_false_2 (scope = ANY)) by done. cbn.
      destruct (decide (sender = scope)) as [->|Hn].
      * rewrite bool_decide_eq_true_2 by done. rewrite decide_True by auto. done.
      * rewrite bool_decide_eq_false_2 by done. rewrite decide_False; [done|].
        intros [[E|E] _]; congruence.
  - rewrite (bool_decide_eq_false_2 (action' = action)) by done. cbn.
    rewrite decide_False; [done|]. intros [_ E]. congruence.
Qed.

Lemma colon_not_any s : starts_with_colon s = true → s ≠ ANY.
Proof. intros H ->. vm_compute in H. discriminate. Qed.

(** The whole of [authorize]: either an authorization error that changes no
    deque, or the rate check of the caller under its verified uid. *)
Lemma authorize_spec sender action now g :
  let '(res, g') := authorize credential_provider sender action now g in
  (∃ msg, res = Raise (AuthorizationError msg) ∧ attempts g' = attempts g) ∨
  (∃ id g0, sender = Some id ∧ starts_with_colon id = true ∧
     (credentials g !! id = Some (Some (expected_uid g)) ∨
      credentials g !! id = None ∧ credential_provider id = Ok (Some (expected_uid g))) ∧
     attempts g0 = attempts g ∧ (res, g') = _check_rates id action now g0).
Proof.
  unfold authorize. cbv zeta.
  destruct (starts_with_colon (default "" sender)) eqn:Ec; cbn [negb]; monad_simpl; [|left; eauto].
  destruct sender as [id|]; [|done]. change (default "" (Some id)) with id in *.
  destruct (credentials g !! id) as [[uid|]|] eqn:Eg; cbn; [| |].
  - destruct (uid =? expected_uid g) eqn:Eu; cbn; [|left; eauto]. apply Z.eqb_eq in Eu as ->.
    destruct (_check_rates id action now g) as [res g'] eqn:E. right. exists id, g.
    split_and!; auto.
  - left; eauto.
  - destruct (credential_provider id) as [[uid|]|] eqn:Ep; cbn; [| left; eauto..].
    destruct (uid =? expected_uid g) eqn:Eu; cbn; [|left; eauto]. apply Z.eqb_eq in Eu as ->.
    destruct (_check_rates id action now _) as [res g'] eqn:E. right. eexists id, _.
    split_and!; [done..|auto| |symmetry; exact E]. done.
Qed.

(** The invariant of a run: every deque of a live scope represents the
    accepted calls of its rule, and the rule's limit holds for them. *)
Definition run_inv (live : string → Prop) (now : Z) (log : list entry) (g : CallerGuard) : Prop :=
  Forall (λ e : entry, e.1.1 <= now) log ∧
  ∀ scope action r, live scope → r ∈ scope_rules scope action →
    represents (rr_seconds r) now (accepted scope action log)
      (attempts_at (scope, action, rr_seconds r) g) ∧
    rate_ok (rr_seconds r) (rr_attempts r) (accepted scope action log).

Lemma accepted_bounded now log scope action :
  Forall (λ e : entry, e.1.1 <= now) log → bounded_by now (accepted scope action log).
Proof.
  induction 1 as [|[[t s] a] log Ht _ IH]; [constructor|].
  change ((t, s, a) :: log) with ([(t, s, a)] ++ log). rewrite accepted_app, accepted_counted.
  destruct (decide _); [|done]. by constructor.
Qed.

Lemma run_inv_later live now now' log g :
  now <= now' → run_inv live now log g → run_inv live now' log g.
Proof.
  intros Hle [Hb Hi]. split.
  - eapply Forall_impl; [exact Hb|]. cbn. lia.
  - intros scope action r Hl Hr. destruct (Hi scope action r Hl Hr).
    split; [by eapply represents_later|done].
Qed.

Lemma run_inv_same live now log g g' :
  expired_at now g g' → run_inv live now log g → run_inv live now log g'.
Proof.
  intros He [Hb Hi]. split; [done|]. intros scope action r Hl Hr.
  destruct (Hi scope action r Hl Hr) as [H1 H2]. split; [|done].
  by apply (expired_at_represents now g g' (scope, action, rr_seconds r)).
Qed.

Lemma run_inv_accept live now log g g' sender action :
  sender ≠ ANY → run_inv live now log g → _check_rates sender action now g = (Ok (), g') →
  run_inv live now (log ++ [(now, sender, action)]) g'.
Proof.
  intros Hs [Hb Hi] E. pose proof (check_rates_spec sender action now g Hs) as Hspec.
  rewrite E in Hspec. destruct Hspec as [Hok _].
  destruct (Hok eq_refl) as (Hq & _ & g1 & He & Hg'). split.
  { apply Forall_app. split; [done|]. by repeat constructor. }
  intros scope a r Hl Hr. rewrite accepted_app, accepted_counted, Hg'.
  destruct (Hi scope a r Hl Hr) as [Hrep Hrate].
  pose proof (expired_at_represents now g g1 (scope, a, rr_seconds r) _ He Hrep) as Hrep1.
  cbn [snd] in Hrep1.
  destruct (decide ((scope = sender ∨ scope = ANY) ∧ a = action)) as [[Hsc ->]|Hn].
  - rewrite decide_True.
    2: { split_and!; [done..|]. cbn. by apply list_elem_of_fmap_2. }
    split; [by apply represents_snoc|]. apply rate_ok_snoc; [|..|done|].
    + by apply accepted_bounded.
    + destruct (scope_rules_ok scope action) as [_ Hf]. rewrite Forall_forall in Hf.
      by apply Hf.
    + specialize (Hq scope Hsc). rewrite Forall_forall in Hq. specialize (Hq r Hr).
      pose proof (represents_window _ _ _ _ (expire_represents _ _ _ _ Hrep)). lia.
  - rewrite app_nil_r, decide_False; [done|]. intros (H1 & H2 & _). apply Hn. done.
Qed.

Lemma run_inv_forget live now log g name :
  ¬ live name → run_inv live now log g → run_inv live now log (forget name g).2.
Proof.
  intros Hn [Hb Hi]. split; [done|]. intros scope action r Hl Hr.
  destruct (Hi scope action r Hl Hr) as [Hrep Hrate]. split; [|done].
  unfold forget. monad_simpl. unfold attempts_at in *. cbn [attempts].
  assert (E : (filter (λ kv : (string * string * Z) * list Z, kv.1.1.1 ≠ name) (attempts g)
              : gmap (string * string * Z) (list Z)) !! (scope, action, rr_seconds r)
              = attempts g !! (scope, action, rr_seconds r)).
  { rewrite map_lookup_filter. destruct (attempts g !! _) as [l|] eqn:El; [|done]. cbn.
    rewrite option_guard_True; [done|]. cbn. intros ->. done. }
  by rewrite E.
Qed.

(** Scopes whose quota is never forgotten during the calls. *)
Definition unforgotten (cs : list (Z * call)) (scope : string) : Prop :=
  scope = ANY ∨ ∀ t name old new, (t, OwnerChanged name old new) ∈ cs → name ≠ scope.

Lemma run_inv_step live now c log g log' g' :
  (∀ name old new, c = OwnerChanged name old new →
     starts_with_colon name = true → ¬ live name) →
  run_inv live now log g → serve_one now c g = (log', g') → run_inv live now (log ++ log') g'.
Proof.
  intros Hlive Hi. destruct c as [sender action|name old new]; cbn [serve_one].
  - pose proof (authorize_spec sender action now g) as Hspec.
    destruct (authorize _ sender action now g) as [res g1].
    destruct Hspec as [(msg & -> & Eg)|(id & g0 & -> & Hc & _ & Eg & E)]; intros [= <- <-].
    + rewrite app_nil_r. eapply run_inv_same; [|exact Hi]. left. unfold attempts_at. by rewrite Eg.
    + assert (Hi0 : run_inv live now log g0).
      { eapply run_inv_same; [|exact Hi]. left. unfold attempts_at. by rewrite Eg. }
      pose proof (colon_not_any id Hc) as Hany. destruct res as [[]|e]; cbn [default].
      * eapply run_inv_accept; [done|exact Hi0|done].
      * rewrite app_nil_r. pose proof (check_rates_spec id action now g0 Hany) as Hspec.
        rewrite <- E in Hspec. destruct Hspec as [_ Hr].
        destruct (Hr e eq_refl) as [Hexp _]. by eapply run_inv_same.
  - intros [= <- <-]. rewrite app_nil_r. unfold _name_owner_changed.
    destruct (starts_with_colon name) eqn:Ec; cbn [andb]; [|done].
    destruct (_ && _); [|done]. apply run_inv_forget; [|done]. by eapply Hlive.
Qed.

Lemma serve_inv live cs : ∀ now log g,
  (∀ t name old new, (t, OwnerChanged name old new) ∈ cs →
     starts_with_colon name = true → ¬ live name) →
  StronglySorted Z.le (now :: cs.*1) → run_inv live now log g →
  ∃ now' g', run_inv live now' (log ++ serve cs g) g'.
Proof.
  induction cs as [|[t c] cs IH]; intros now log g Hl Hs Hi; cbn [serve].
  { rewrite app_nil_r. eauto. }
  destruct (serve_one t c g) as [log' g'] eqn:E. cbn in Hs.
  apply StronglySorted_inv in Hs as [Hs Hf]. apply Forall_cons in Hf as [Ht _].
  rewrite (assoc_L (++)). apply (IH t).
  - intros t' name old new Hin. apply (Hl t' name old new). by right.
  - done.
  - eapply run_inv_step; [|by eapply run_inv_later|exact E].
    intros name old new ->. apply (Hl t name old new). by left.
Qed.
End runs.

(** C4: rate limiting.  For any credential provider and any sequence of calls
    with non-decreasing clock readings, served from a fresh guard, every rule
    is kept in every sliding window: at no time [t] were more than [attempts]
    calls of an action accepted in [(t - seconds, t]], neither daemon-wide nor
    for one caller whose connection did not close in between (a closed
    connection's quota is forgotten, the daemon-wide one never is). *)
Theorem rate_limits_hold cp uid cs scope action r t :
  StronglySorted Z.le cs.*1 →
  unforgotten cs scope → r ∈ scope_rules scope action →
  zlen (in_window (rr_seconds r) t (accepted scope action (serve cp cs (CallerGuard_init uid))))
    <= rr_attempts r.
Proof.
  intros Hs Hu Hr. destruct cs as [|[t0 c0] cs0] eqn:Ecs.
  { cbn. destruct (scope_rules_ok scope action) as [_ Hf]. rewrite Forall_forall in Hf.
    specialize (Hf r Hr). rewrite zlen_nil. lia. }
  rewrite <- Ecs in *.
  destruct (serve_inv cp (unforgotten cs) cs t0 [] (CallerGuard_init uid)) as (now' & g' & _ & Hi).
  - intros t' name old new Hin Hc [->|Hnf]; [by vm_compute in Hc|]. by eapply Hnf.
  - constructor; [done|]. subst cs. cbn in Hs |- *. apply StronglySorted_inv in Hs as [Hs Hf].
    by constructor.
  - split; [constructor|]. intros sc a r' _ Hr'. split.
    + exists []. split; [|constructor]. unfold attempts_at. cbn. by rewrite lookup_empty.
    + intros t'. cbn. destruct (scope_rules_ok sc a) as [_ Hf]. rewrite Forall_forall in Hf.
      specialize (Hf r' Hr'). rewrite zlen_nil. lia.
  - by apply (Hi scope action r Hu Hr).
Qed.

Definition owner_provider (s : string) : result Credentials := Ok (Some 1000).

Lemma rate_limits_hold_witness :
  let cs := [(sec 1, Authorize (Some ":1.7") "destructive");
             (sec 2, OwnerChanged ":1.9" ":1.9" "");
             (sec 3, Authorize (Some ":1.7") "destructive")] in
  zlen (in_window (sec 600) (sec 3) (accepted ":1.7" "destructive"
    (serve owner_provider cs (CallerGuard_init 1000)))) <= 6.
Proof.
  intros cs. apply (rate_limits_hold owner_provider 1000 cs ":1.7" "destructive" (rule 6 600)).
  - repeat constructor; vm_compute; discriminate.
  - right. intros t name old new. unfold cs. rewrite !elem_of_cons, elem_of_nil.
    intros [E|[E|[E|[]]]]; [discriminate|injection E as _ -> _ _; discriminate|discriminate].
  - apply (bool_decide_unpack _). by vm_compute.
Defined.

(** C5: authorization.  A call is accepted only for a unique bus name whose
    verified uid is the owner's; every refusal is an [AuthorizationError]
    (which touches no quota), or, for a known action, a [RateLimitError], and
    then no call is recorded: the deques are those of before, at most with
    their expired entries dropped.  An action's quota never depends on, and is
    never used by, calls for another action. *)
Theorem authorize_decides cp sender action now g :
  let '(res, g') := authorize cp sender action now g in
  (res = Ok () →
     ∃ id, sender = Some id ∧ starts_with_colon id = true ∧ is_Some (_RULES !! action) ∧
       (credentials g !! id = Some (Some (expected_uid g)) ∨
        credentials g !! id = None ∧ cp id = Ok (Some (expected_uid g))) ∧
       quota_free id action now g) ∧
  (∀ msg, res = Raise (AuthorizationError msg) → attempts g' = attempts g) ∧
  (∀ e, res = Raise e → expired_at now g g' ∧
     (is_Some (_RULES !! action) →
      (∃ msg, e = AuthorizationError msg) ∨ (∃ msg, e = RateLimitError msg))) ∧
  (∀ scope action' s, action' ≠ action →
     attempts_at (scope, action', s) g' = attempts_at (scope, action', s) g ∨
     attempts_at (scope, action', s) g' = expire (now - s) (attempts_at (scope, action', s) g)).
Proof.
  pose proof (authorize_spec cp sender action now g) as H.
  destruct (authorize cp sender action now g) as [res g'].
  destruct H as [(msg & -> & Eg)|(id & g0 & -> & Hc & Hcred & Eg & E)].
  - assert (Hsame : ∀ k, attempts_at k g' = attempts_at k g)
      by (intros k; unfold attempts_at; by rewrite Eg).
    split_and!; [done|done| |by left].
    intros e [= <-]. split; [by left|eauto].
  - pose proof (check_rates_spec id action now g0 (colon_not_any id Hc)) as Hspec.
    rewrite <- E in Hspec. destruct Hspec as [Hok Herr].
    assert (Hsame : ∀ k, attempts_at k g0 = attempts_at k g)
      by (intros k; unfold attempts_at; by rewrite Eg).
    split_and!.
    + intros Hres. destruct (Hok Hres) as (Hq & Hk & _). exists id. split_and!; try done.
      intros scope Hsc. specialize (Hq scope Hsc). eapply Forall_impl; [exact Hq|].
      cbn. intros r. by rewrite Hsame.
    + intros msg Hres. destruct (_RULES !! action) as [rules|] eqn:Er.
      * destruct (Herr _ Hres) as [_ Hm]. destruct (Hm ltac:(eauto)) as [m Hm']. discriminate.
      * unfold _check_rates in E. rewrite Er in E. unfold raise in E. congruence.
    + intros e Hres. destruct (Herr e Hres) as [He Hm]. split; [|by auto].
      intros k. rewrite <- !Hsame. apply He.
    + intros scope action' s Hne. rewrite <- !Hsame. destruct res as [[]|e].
      * destruct (Hok eq_refl) as (_ & _ & g1 & He & Hg'). rewrite Hg', decide_False.
        { apply (He (scope, action', s)). }
        intros (_ & Ha & _). cbn in Ha. congruence.
      * destruct (Herr e eq_refl) as [He _]. apply (He (scope, action', s)).
Qed.

Lemma check_rules_complete scope action now rules g :
  Forall (λ r, zlen (expire (now - rr_seconds r) (attempts_at (scope, action, rr_seconds r) g))
               < rr_attempts r) rules →
  (for_each (check_rule scope action now) rules g).1 = Ok ().
Proof.
  revert g. induction rules as [|r rules IH]; intros g Hf; [done|].
  apply Forall_cons in Hf as [Hr Hf]. rewrite for_each_cons, check_rule_spec. cbv zeta. zbool.
  apply IH. eapply Forall_impl; [exact Hf|]. cbn. intros r' H'.
  rewrite attempts_at_set. case_decide as E; [|done]. injection E as E. rewrite E, expire_idemp.
  by rewrite <- E.
Qed.

Lemma check_rates_complete id action now g :
  id ≠ ANY → is_Some (_RULES !! action) → quota_free id action now g →
  (_check_rates id action now g).1 = Ok ().
Proof.
  intros Hany [rules Er] Hq. unfold _check_rates. rewrite Er.
  pose proof (scope_rules_ok id action) as [Hnd1 _].
  pose proof (scope_rules_ok ANY action) as [Hnd2 _].
  pose proof (Hq id (or_introl eq_refl)) as Hq1. pose proof (Hq ANY (or_intror eq_refl)) as Hq2.
  rewrite (scope_rules_sender _ _ _ Er Hany) in *. rewrite (scope_rules_any _ _ Er) in *.
  unfold mbind, M_bind.
  pose proof (check_rules_spec id action now rules g) as H1.
  pose proof (check_rules_complete _ _ _ _ _ Hq1) as C1.
  destruct (for_each (check_rule id action now) rules g) as [res1 g1].
  cbn in C1. subst res1. destruct H1 as (He1 & _).
  assert (Hq2' : Forall (λ r, zlen (expire (now - rr_seconds r)
      (attempts_at (ANY, action, rr_seconds r) g1)) < rr_attempts r) (global_rules action rules)).
  { eapply Forall_impl; [exact Hq2|]. cbn. intros r Hr.
    destruct (He1 (ANY, action, rr_seconds r)) as [->| ->]; [done|]. cbn. by rewrite expire_idemp. }
  pose proof (check_rules_complete _ _ _ _ _ Hq2') as C2.
  destruct (for_each (check_rule ANY action now) _ g1) as [res2 g2]. cbn in C2. subst res2.
  pose proof (record_rules_spec id action now rules g2 Hnd1) as H3.
  destruct (for_each (record_rule id action now) rules g2) as [res3 g3].
  destruct H3 as (-> & _).
  pose proof (record_rules_spec ANY action now (global_rules action rules) g3 Hnd2) as H4.
  destruct (for_each (record_rule ANY action now) _ g3) as [res4 g4]. by destruct H4 as (-> & _).
Qed.

(** The limits are windows, not lockouts.  A verified caller is served as
    soon as its windows have moved past what they hold: if for every rule of
    the action fewer than [attempts] recorded calls are still inside the
    window, of the caller and daemon-wide, the call is accepted; in particular
    whenever every recorded call of the action has left its window. *)
Theorem quiet_caller_accepted cp id action now g :
  starts_with_colon id = true → is_Some (_RULES !! action) →
  credentials g !! id = Some (Some (expected_uid g)) →
  (quota_free id action now g → (authorize cp (Some id) action now g).1 = Ok ()) ∧
  ((∀ k, k.1.2 = action → Forall (λ t, t <= now - k.2) (attempts_at k g)) →
   (authorize cp (Some id) action now g).1 = Ok ()).
Proof.
  intros Hc Hk Hcred.
  assert (Hfree : quota_free id action now g → (authorize cp (Some id) action now g).1 = Ok ()).
  { intros Hq. rewrite <- (check_rates_complete id action now g) by auto using colon_not_any.
    unfold authorize. cbv zeta. change (default "" (Some id)) with id. rewrite Hc. cbn [negb].
    monad_simpl. rewrite Hcred. cbn. by rewrite Z.eqb_refl. }
  split; [done|]. intros Hold. apply Hfree. intros scope _.
  destruct (scope_rules_ok scope action) as [_ Hpos]. eapply Forall_impl; [exact Hpos|].
  cbn. intros r [Hr _]. rewrite expire_all_old by (by apply (Hold (scope, action, rr_seconds r))).
  by rewrite zlen_nil.
Qed.

Lemma quiet_caller_accepted_witness :
  let k := (":1.5", "unlock", sec 600) in
  let g := mkGuard 1000 {[":1.5" := Some 1000]} {[k := [1; 2; 3; 4; 5; 6]]} in
  (authorize owner_provider (Some ":1.5") "unlock" (sec 601) g).1 = Ok ().
Proof.
  intros k g. apply (quiet_caller_accepted owner_provider ":1.5" "unlock" (sec 601) g).
  - by vm_compute.
  - eexists. vm_compute. reflexivity.
  - by vm_compute.
  - intros k' _. unfold attempts_at, g. cbn [attempts].
    destruct (decide (k = k')) as [<-|Hne].
    + rewrite lookup_singleton_eq. repeat constructor; vm_compute; discriminate.
    + by rewrite lookup_singleton_ne.
Defined.
