(* ===== verification/LeBudget.v ===== *)
(** * LeBudget: the rolling budget of host-initiated LE recovery operations
    (src/blueferry/le_recovery_budget.py).

    Every recovery path (reconnects, profile resets, the last-resort reset)
    asks [take] before it touches the LE link; [observe_health] gives the
    budget back after a sustained healthy period.  A method's clock reading is
    its argument. *)
From S2P Require Import Prelude SlidingWindow.

Definition WINDOW_SECONDS : Z := sec 600.
Definition MAX_ATTEMPTS : Z := 4.
Definition HEALTHY_SECONDS : Z := sec 180.

Record LeRecoveryBudget := mkBudget {
  _attempts : list time;
  _next : time;
  _healthy_since : option time;
  _last_health_check : option time;
}.
Definition LeRecoveryBudget_init : LeRecoveryBudget := mkBudget [] 0 None None.

(** The wait after the [n]-th attempt of a window. *)
Definition spacing (n : Z) : Z := Z.min (sec 30 * 2 ^ (n - 1)) (sec 300).

Definition take (now : time) : M LeRecoveryBudget bool :=
  b ← get;
  let l := expire (now - WINDOW_SECONDS) (_attempts b) in
  if (now <? _next b) || (MAX_ATTEMPTS <=? zlen l) then
    put (mkBudget l (_next b) (_healthy_since b) (_last_health_check b));;
    mret false
  else
    let l := l ++ [now] in
    put (mkBudget l (now + spacing (zlen l)) None (_last_health_check b));;
    mret true.

(** [proof is None or not 0 <= now - proof <= 90], negated. *)
Definition fresh (now : time) (proof : option time) : bool :=
  match proof with
  | None => false
  | Some p => (0 <=? now - p) && (now - p <=? sec 90)
  end.

(** [last is None or now - last > 90]: the health observation was interrupted. *)
Definition observation_gap (now : time) (last : option time) : bool :=
  match last with None => true | Some t => sec 90 <? now - t end.

Definition observe_health (now : time) (healthy : bool) (proof : option time) :
    M LeRecoveryBudget () :=
  b ← get;
  let since := if observation_gap now (_last_health_check b) then None else _healthy_since b in
  if negb healthy || negb (fresh now proof) then
    put (mkBudget (_attempts b) (_next b) None (Some now))
  else
    let since := default now since in
    if HEALTHY_SECONDS <=? now - since
    then put (mkBudget [] 0 (Some since) (Some now))
    else put (mkBudget (_attempts b) (_next b) (Some since) (Some now)).

(** ** Runs *)

Inductive op := Take (now : time) | Observe (now : time) (healthy : bool) (proof : option time).
Definition op_time (o : op) : time := match o with Take t => t | Observe t _ _ => t end.

(** A run of the budget with its history: the granted attempts since the last
    reset, those before it, and the time the last reset happened. *)
Record history := mkHistory {
  budget : LeRecoveryBudget;
  earlier : list time;
  current : list time;
  reset_at : option time;
}.
Definition history_init : history := mkHistory LeRecoveryBudget_init [] [] None.

Definition resets (now : time) (healthy : bool) (proof : option time) (b : LeRecoveryBudget) : bool :=
  healthy && fresh now proof && negb (observation_gap now (_last_health_check b))
  && match _healthy_since b with None => false | Some s => HEALTHY_SECONDS <=? now - s end.

Definition run_op (h : history) (o : op) : history :=
  match o with
  | Take now =>
      let '(r, b) := take now (budget h) in
      mkHistory b (earlier h)
        (if bool_decide (r = Ok true) then current h ++ [now] else current h) (reset_at h)
  | Observe now healthy proof =>
      let b := (observe_health now healthy proof (budget h)).2 in
      if resets now healthy proof (budget h)
      then mkHistory b (earlier h ++ current h) [] (Some now)
      else mkHistory b (earlier h) (current h) (reset_at h)
  end.
Definition run (ops : list op) : history := foldl run_op history_init ops.
Definition granted (h : history) : list time := earlier h ++ current h.

(** Clock readings never go back. *)
Definition clocked (ops : list op) : Prop := StronglySorted Z.le (op_time <$> ops).

(** Consecutive elements are at least [d] apart. *)
Fixpoint spaced (d : Z) (l : list time) : Prop :=
  match l with
  | t :: ((t' :: _) as l') => t + d <= t' ∧ spaced d l'
  | _ => True
  end.

(** ** The limits *)

Lemma spacing_min n : 1 <= n → sec 30 <= spacing n.
Proof.
  intros. unfold spacing, sec.
  assert (0 < 2 ^ (n - 1)) by (apply Z.pow_pos_nonneg; lia). lia.
Qed.

Lemma spacing_mono m n : 1 <= m <= n → spacing m <= spacing n.
Proof.
  intros. unfold spacing. apply Z.min_le_compat_r, Z.mul_le_mono_nonneg_l; [done|].
  apply Z.pow_le_mono_r; lia.
Qed.

Lemma spaced_snoc d l x : spaced d l → (∀ l' y, l = l' ++ [y] → y + d <= x) → spaced d (l ++ [x]).
Proof.
  induction l as [|a [|b l] IH]; cbn [app]; intros Hs Hl; [done| |].
  - split; [by apply (Hl [])|done].
  - destruct Hs as [Hab Hs]. split; [done|]. apply IH; [done|].
    intros l' y E. apply (Hl (a :: l')). by rewrite E.
Qed.

(** What the deque's [_next] says about the last three grants. *)
Definition waits (l : list time) (nx : time) : Prop :=
  (∀ p c, l = p ++ [c] → c + sec 30 <= nx) ∧
  (∀ p b c, l = p ++ [b; c] → b + sec 90 <= nx) ∧
  (∀ p a b c, l = p ++ [a; b; c] → a + sec 180 <= nx).

Record inv (h : history) (t : time) : Prop := {
  inv_repr : represents WINDOW_SECONDS t (current h) (_attempts (budget h));
  inv_bound : bounded_by t (granted h);
  inv_waits : waits (current h) (_next (budget h));
  inv_rate : rate_ok WINDOW_SECONDS MAX_ATTEMPTS (current h);
  inv_burst : rate_ok (sec 180) 3 (granted h);
  inv_spaced : spaced (sec 30) (granted h);
  inv_reset : match reset_at h with
    | None => earlier h = []
    | Some r => r <= t ∧ Forall (λ x, x + sec 180 <= r) (earlier h) ∧ Forall (λ x, r <= x) (current h)
    end;
  inv_since : ∀ s, _healthy_since (budget h) = Some s → s <= t ∧ bounded_by s (granted h);
}.

Lemma suffix_long {A} (P : A → Prop) (d l p q : list A) x :
  d ++ l = p ++ x :: q → Forall P d → ¬ P x → zlen (x :: q) <= zlen l.
Proof.
  intros E Hd Hx. destruct (decide (length p < length d)%nat) as [Hlt|Hge].
  - exfalso. apply Hx. rewrite Forall_lookup in Hd. apply (Hd (length p)).
    rewrite <- (lookup_app_l d l) by done. rewrite E. by rewrite list_lookup_middle.
  - apply (f_equal length) in E. rewrite !length_app in E. unfold zlen. cbn in *. lia.
Qed.

(** After a grant at [now], [_next] again bounds the last three grants. *)
Lemma waits_grant now l c nx :
  represents WINDOW_SECONDS now c l → waits c nx → nx <= now → bounded_by now c →
  waits (c ++ [now]) (now + spacing (zlen (l ++ [now]))).
Proof.
  intros (d & -> & Hd) (H1 & H2 & H3) Hnx Hb. pose proof (zlen_nonneg l) as Hl.
  assert (Hold : ∀ p x q, d ++ l = p ++ x :: q → now - WINDOW_SECONDS < x →
    zlen (x :: q) <= zlen l).
  { intros p x q E Hx. eapply suffix_long; [exact E|exact Hd|]. cbn. lia. }
  rewrite zlen_app, zlen_cons, zlen_nil.
  assert (Hs : ∀ n, 1 <= n <= zlen l + 1 → spacing n <= spacing (zlen l + (1 + 0)))
    by (intros; apply spacing_mono; lia).
  assert (H1' := Hs 1 ltac:(lia)). split_and!.
  - intros p x E. apply app_inj_tail in E as [_ <-]. by vm_compute (spacing 1) in H1'; unfold sec; lia.
  - intros p b x E. change [b; x] with ([b] ++ [x]) in E. rewrite (assoc_L (++)) in E.
    apply app_inj_tail in E as [E <-].
    pose proof (H1 _ _ E). unfold WINDOW_SECONDS, sec in *.
    destruct (Z.le_gt_cases b (now - 600 * 1000000)); [change (spacing 1) with 30000000 in H1'; lia|].
    pose proof (Hold p b [] E ltac:(lia)) as Hlen. rewrite zlen_cons, zlen_nil in Hlen.
    assert (H2' := Hs 2 ltac:(lia)). change (spacing 2) with 60000000 in H2'. lia.
  - intros p a b x E. change [a; b; x] with ([a; b] ++ [x]) in E. rewrite (assoc_L (++)) in E.
    apply app_inj_tail in E as [E <-].
    pose proof (H2 _ _ _ E). unfold WINDOW_SECONDS, sec in *.
    destruct (Z.le_gt_cases a (now - 600 * 1000000)); [change (spacing 1) with 30000000 in H1'; lia|].
    pose proof (Hold p a [b] E ltac:(lia)) as Hlen. rewrite !zlen_cons, zlen_nil in Hlen.
    assert (H3' := Hs 3 ltac:(lia)). change (spacing 3) with 120000000 in H3'. lia.
Qed.

Lemma spaced_before d p a q : 0 <= d → spaced d (p ++ a :: q) → Forall (λ x, x <= a) p.
Proof.
  intros Hd. induction p as [|x p IH]; cbn [app]; intros Hs; [done|].
  destruct p as [|y p].
  - cbn in Hs. repeat constructor. lia.
  - destruct Hs as [Hxy Hs]. specialize (IH Hs). constructor; [|done].
    apply Forall_cons in IH as [? _]. lia.
Qed.

Lemma spaced_app_r d p q : spaced d (p ++ q) → spaced d q.
Proof.
  induction p as [|x p IH]; [done|]. cbn [app].
  destruct (p ++ q) eqn:E; [by destruct p, q|]. intros [_ Hs]. by apply IH.
Qed.

(** A grant finds at most two others in its last three minutes. *)
Lemma waits_burst now c nx :
  waits c nx → nx <= now → spaced (sec 30) c → zlen (in_window (sec 180) now c) < 3.
Proof.
  intros (_ & _ & H3) Hnx Hs.
  destruct c as [|c1 l1 _] using rev_ind; [by vm_compute|].
  destruct l1 as [|c2 l2 _] using rev_ind.
  { eapply Z.le_lt_trans; [apply in_window_le_length|done]. }
  destruct l2 as [|c3 l3 _] using rev_ind.
  { eapply Z.le_lt_trans; [apply in_window_le_length|done]. }
  rewrite <- !(assoc_L (++)) in *. cbn [app] in *. specialize (H3 _ _ _ _ eq_refl).
  apply spaced_before in Hs; [|done].
  change (l3 ++ c3 :: [c2; c1]) with (l3 ++ [c3] ++ [c2; c1]). rewrite (assoc_L (++)).
  eapply Z.le_lt_trans; [apply in_window_suffix|done].
  apply Forall_app. split; [|repeat constructor; lia].
  eapply Forall_impl; [exact Hs|]. cbn. lia.
Qed.

Lemma inv_later h t t' : t <= t' → inv h t → inv h t'.
Proof.
  intros Hle []. split; try done.
  - by eapply represents_later.
  - eapply Forall_impl; [done|]. cbn. lia.
  - destruct (reset_at h); [|done]. naive_solver lia.
  - intros s Hs. destruct (inv_since0 s Hs). split; [lia|done].
Qed.

Lemma take_granted now b :
  let l := expire (now - WINDOW_SECONDS) (_attempts b) in
  ((take now b).1 = Ok true ∧ _next b <= now ∧ zlen l < MAX_ATTEMPTS ∧
    (take now b).2 = mkBudget (l ++ [now]) (now + spacing (zlen (l ++ [now]))) None
      (_last_health_check b))
  ∨ ((take now b).1 = Ok false ∧ (now < _next b ∨ MAX_ATTEMPTS <= zlen l) ∧
    (take now b).2 = mkBudget l (_next b) (_healthy_since b) (_last_health_check b)).
Proof.
  intros l. unfold take. monad_simpl. fold l.
  destruct (now <? _next b) eqn:E1; cbn [orb]; [right; naive_solver lia|].
  destruct (MAX_ATTEMPTS <=? zlen l) eqn:E2; [right|left]; naive_solver lia.
Qed.

Lemma inv_take h t now : t <= now → inv h t → inv (run_op h (Take now)) now.
Proof.
  intros Hle Hi%(inv_later _ _ _ Hle). destruct Hi as [Hr Hb Hw H4 H3 Hs Hres Hsince].
  pose proof (expire_represents _ _ _ _ Hr) as Hr'.
  cbn [run_op]. destruct (take now (budget h)) as [r b] eqn:E.
  destruct (take_granted now (budget h)) as [(E1 & Hnx & Hlen & E2)|(E1 & Hno & E2)];
    rewrite E in E1, E2; cbn [fst snd] in E1, E2; subst.
  - rewrite bool_decide_eq_true_2 by done. unfold granted in *.
    assert (Hbc : bounded_by now (current h)) by by apply Forall_app in Hb as [_ ?].
    assert (Hsc : spaced (sec 30) (current h)) by by eapply spaced_app_r.
    assert (Hearly : Forall (λ x, x + sec 180 <= now) (earlier h)).
    { destruct (reset_at h) as [r|]; [|by rewrite Hres].
      destruct Hres as (? & He & _). eapply Forall_impl; [exact He|]. cbn. lia. }
    split; cbn; unfold granted; cbn; rewrite ?(assoc_L (++)).
    + by apply represents_snoc.
    + apply Forall_app. split; [done|]. repeat constructor. lia.
    + by eapply waits_grant.
    + apply rate_ok_snoc; [done|done|done|].
      eapply Z.le_lt_trans; [by apply represents_window|done].
    + apply rate_ok_snoc; [done|done|done|]. rewrite in_window_app, in_window_none.
      * by eapply waits_burst.
      * eapply Forall_impl; [exact Hearly|]. cbn. lia.
    + apply spaced_snoc; [done|].
      intros l' y El. destruct (current h) as [|z zs _] using rev_ind.
      * rewrite app_nil_r in El. rewrite El in Hearly.
        apply Forall_app in Hearly as [_ Hy]. apply Forall_cons in Hy as [Hy _].
        unfold sec in *. lia.
      * rewrite (assoc_L (++)) in El. apply app_inj_tail in El as [_ ->].
        destruct Hw as (H1 & _). specialize (H1 _ _ eq_refl). lia.
    + destruct (reset_at h) as [r|]; [|done]. destruct Hres as (? & He & Hc).
      split_and!; [done|done|]. apply Forall_app. split; [done|]. by repeat constructor.
    + done.
  - rewrite bool_decide_eq_false_2 by done. split; try done.
Qed.

Lemma not_yet now : (HEALTHY_SECONDS <=? now - now) = false.
Proof. by rewrite Z.sub_diag. Qed.

Lemma inv_observe h t now healthy proof :
  t <= now → inv h t → inv (run_op h (Observe now healthy proof)) now.
Proof.
  intros Hle Hi%(inv_later _ _ _ Hle). destruct Hi as [Hr Hb Hw H4 H3 Hs Hres Hsince].
  cbn [run_op]. unfold resets, observe_health. monad_simpl.
  destruct healthy; cbn [negb andb orb]; [|by split; try done].
  destruct (fresh now proof) eqn:Ef; cbn [negb andb orb]; [|by split; try done].
  destruct (observation_gap now (_last_health_check (budget h))) eqn:Eg; cbn [negb andb].
  { cbn [default]. rewrite not_yet.
    split; try done. cbn. intros s [= <-]. by split. }
  destruct (_healthy_since (budget h)) as [s|] eqn:Es; cbn [default].
  2:{ rewrite not_yet.
      split; try done. cbn. intros s [= <-]. by split. }
  destruct (Hsince s eq_refl) as [Hsn Hsb]. unfold id.
  destruct (HEALTHY_SECONDS <=? now - s) eqn:Eh.
  - unfold HEALTHY_SECONDS in Eh. unfold granted in *. split; cbn; unfold granted; cbn;
      rewrite ?app_nil_r; try done.
    + exists []. by split.
    + split_and!; intros; exfalso; by eapply app_cons_not_nil.
    + split_and!; [done| |done]. eapply Forall_impl; [exact Hsb|]. cbn. lia.
  - split; try done.
Qed.

Lemma inv_init t : inv history_init t.
Proof.
  split; cbn; try done.
  - exists []. by split.
  - constructor.
  - split_and!; intros; exfalso; by eapply app_cons_not_nil.
Qed.

Lemma budget_run_inv ops now : clocked ops → Forall (λ o, op_time o <= now) ops → inv (run ops) now.
Proof.
  intros Hc Hn.
  apply (clocked_run op_time); [|intros; by eapply inv_later|apply inv_init|exact Hc|exact Hn].
  intros h t [t' |t' healthy proof] Hle; [by apply inv_take|by apply inv_observe].
Qed.

Lemma clocked_end ops : clocked ops → ∃ now, Forall (λ o, op_time o <= now) ops.
Proof.
  intros _. induction ops as [|o ops [now IH]]; [by exists 0|]. exists (Z.max now (op_time o)).
  constructor; [lia|]. eapply Forall_impl; [exact IH|]. cbn. lia.
Qed.

(** The radio is not hammered.  Under a clock that never goes back,
    whatever sequence of recovery attempts and health observations the daemon
    makes: two granted attempts are at least 30 s apart, no three minutes hold
    more than three, and since the last reset of the budget no ten minutes
    hold more than four.  A reset happens only after at least three minutes
    without a granted attempt. *)
Theorem budget_limits ops : clocked ops →
  let h := run ops in
  spaced (sec 30) (granted h) ∧
  rate_ok (sec 180) 3 (granted h) ∧
  rate_ok WINDOW_SECONDS MAX_ATTEMPTS (current h) ∧
  ∀ r t, reset_at h = Some r → (t ∈ earlier h → t + sec 180 <= r) ∧ (t ∈ current h → r <= t).
Proof.
  intros Hc h. destruct (clocked_end ops Hc) as [now Hn].
  destruct (budget_run_inv ops now Hc Hn). split_and!; [done..|].
  intros r t Hr. fold h in inv_reset0. rewrite Hr in inv_reset0.
  destruct inv_reset0 as (_ & He & Hcur). rewrite Forall_forall in He, Hcur. naive_solver.
Qed.

Lemma budget_limits_witness :
  let ops := [Take (sec 10); Take (sec 20); Take (sec 50);
    Observe (sec 60) true (Some (sec 60)); Observe (sec 150) true (Some (sec 100));
    Observe (sec 240) true (Some (sec 240)); Take (sec 250)] in
  granted (run ops) = [sec 10; sec 50; sec 250] ∧ reset_at (run ops) = Some (sec 240) ∧
  spaced (sec 30) (granted (run ops)).
Proof.
  intros ops. split_and!; [by vm_compute..|]. apply (budget_limits ops).
  unfold clocked. cbn. repeat constructor; done.
Defined.

(** ** The budget comes back *)

Definition observations (obs : list (time * time)) : list (M LeRecoveryBudget ()) :=
  (λ o, observe_health o.1 true (Some o.2)) <$> obs.

(** Healthy observations with fresh proofs, none more than 90 s after the
    last. *)
Fixpoint steady (last : time) (obs : list (time * time)) : Prop :=
  match obs with
  | [] => True
  | (now, proof) :: obs' =>
      last <= now <= last + sec 90 ∧ proof <= now <= proof + sec 90 ∧ steady now obs'
  end.

Lemma observe_steady b s t now proof :
  _last_health_check b = Some t → _healthy_since b = Some s →
  t <= now <= t + sec 90 → proof <= now <= proof + sec 90 →
  (observe_health now true (Some proof) b).2 =
    if HEALTHY_SECONDS <=? now - s then mkBudget [] 0 (Some s) (Some now)
    else mkBudget (_attempts b) (_next b) (Some s) (Some now).
Proof.
  intros Hl Hs Ht Hp. unfold observe_health. monad_simpl. rewrite Hl, Hs.
  unfold observation_gap, fresh. zbool. cbv iota.
  change (default now (Some s)) with s. by destruct (HEALTHY_SECONDS <=? now - s).
Qed.

Definition idle (b : LeRecoveryBudget) : Prop := _attempts b = [] ∧ _next b = 0.

Lemma observe_idle b now healthy proof : idle b → idle (observe_health now healthy proof b).2.
Proof.
  intros [Ha Hn]. unfold observe_health. monad_simpl.
  destruct (negb healthy || _); [done|]. cbv zeta.
  by destruct (HEALTHY_SECONDS <=? _).
Qed.

(** The time of the last observation. *)
Fixpoint ends (last : time) (obs : list (time * time)) : time :=
  match obs with [] => last | (now, _) :: obs' => ends now obs' end.

Lemma steady_rearms s t obs b :
  _last_health_check b = Some t → _healthy_since b = Some s → steady t obs →
  s + HEALTHY_SECONDS <= ends t obs → (s + HEALTHY_SECONDS <= t → idle b) →
  idle (run_all (observations obs) b).
Proof.
  revert t b. induction obs as [|[now proof] obs IH]; cbn [ends]; intros t b Hl Hs Hst Hend Hi;
    [by apply Hi|].
  destruct Hst as (Hn & Hp & Hst). cbn [observations fmap list_fmap run_all fst snd].
  pose proof (observe_steady b s t now proof Hl Hs Hn Hp) as E.
  apply (IH now); [by rewrite E; destruct (_ <=? _)|by rewrite E; destruct (_ <=? _)|done|done|].
  intros Hle. rewrite E. by zbool.
Qed.

Lemma take_idle now b : idle b → 0 <= now → (take now b).1 = Ok true.
Proof.
  intros [Ha Hn] Hnow. destruct (take_granted now b) as [(-> & _)|(_ & Hno & _)]; [done|].
  exfalso. rewrite Ha, Hn in Hno. cbn in Hno. destruct Hno as [Hno|Hno]; [lia|by vm_compute in Hno].
Qed.

(** Sustained health gives the budget back.  Whatever the daemon did
    before, observations that report health with a proof at most 90 s old, at
    most 90 s apart and together over three minutes, clear the budget, and the
    next recovery attempt is granted at once. *)
Theorem health_rearms ops t0 p0 obs now :
  clocked ops → Forall (λ o, op_time o <= t0) ops →
  p0 <= t0 <= p0 + sec 90 → steady t0 obs → t0 + HEALTHY_SECONDS <= ends t0 obs → 0 <= now →
  let b := run_all (observations ((t0, p0) :: obs)) (budget (run ops)) in
  _attempts b = [] ∧ _next b = 0 ∧ (take now b).1 = Ok true.
Proof.
  intros Hc Ht0 Hp Hst Hend Hnow b.
  assert (Hidle : idle b); [|split_and!; [apply Hidle..|by apply take_idle]].
  destruct (budget_run_inv ops t0 Hc Ht0) as [_ _ _ _ _ _ _ Hsince]. unfold b. clear b.
  cbn [observations fmap list_fmap run_all fst snd]. fold (observations obs).
  set (b := budget (run ops)) in *.
  assert (H : ∃ s, s <= t0 ∧ (observe_health t0 true (Some p0) b).2 =
    if HEALTHY_SECONDS <=? t0 - s then mkBudget [] 0 (Some s) (Some t0)
    else mkBudget (_attempts b) (_next b) (Some s) (Some t0)).
  { unfold observe_health, fresh. monad_simpl. zbool. cbv iota.
    destruct (observation_gap t0 (_last_health_check b)); [|destruct (_healthy_since b) as [s|] eqn:E].
    - exists t0. split; [lia|]. cbn [default]. by rewrite not_yet.
    - exists s. split; [by apply Hsince|]. change (default t0 (Some s)) with s.
      by destruct (HEALTHY_SECONDS <=? t0 - s).
    - exists t0. split; [lia|]. cbn [default]. by rewrite not_yet. }
  destruct H as (s & Hs & E).
  apply (steady_rearms s t0); [by rewrite E; destruct (_ <=? _)|by rewrite E; destruct (_ <=? _)|done|lia|].
  intros Hle. rewrite E. by zbool.
Qed.

Lemma health_rearms_witness :
  let b := run_all (observations [(sec 200, sec 150); (sec 290, sec 290); (sec 380, sec 300)])
    (budget (run [Take (sec 10); Take (sec 40); Take (sec 100)])) in
  _attempts b = [] ∧ _next b = 0 ∧ (take (sec 381) b).1 = Ok true.
Proof.
  refine (health_rearms [Take (sec 10); Take (sec 40); Take (sec 100)] (sec 200) (sec 150)
    [(sec 290, sec 290); (sec 380, sec 300)] (sec 381) _ _ _ _ _ _).
  - unfold clocked. cbn. repeat constructor; done.
  - repeat constructor; done.
  - done.
  - cbn. done.
  - done.
  - done.
Defined.
