(* ===== verification/ObexSessions.v ===== *)
(** * ObexSessions: the MAP and PBAP sessions shared by the OBEX worker thread
    and the main loop (src/blueferry/obex/sessions.py).

    The worker opens and closes the sessions; obexd's removal signals arrive on
    the main loop, possibly while a session is being opened and before its path
    is published.  Each definition here is one atomic step of a method: the
    code between two acquisitions of [_publish_lock], or between two D-Bus
    calls.  What obexd answers to [CreateSession] is an argument. *)
From S2P Require Import Prelude.

Definition path : Type := string.

(** An error of a session operation: its text, and whether it is the
    [SessionError] the supervisor looks at. *)
Record Error := mkError { is_session_error : bool; message : string }.

Inductive target := MAP | PBAP.
#[global] Instance target_eq_dec : EqDecision target.
Proof. solve_decision. Defined.
Definition target_name (t : target) : string := match t with MAP => "MAP" | PBAP => "PBAP" end.

Record SessionManager := mkSessions {
  map : option path;
  pbap : option path;
  _closing : bool;
  _monitoring : bool;
  _removed_while_opening : option (gset path);
  _obexd_exited_while_opening : bool;
}.
Definition SessionManager_init : SessionManager := mkSessions None None false false None false.

Definition getattr (t : target) (s : SessionManager) : option path :=
  match t with MAP => map s | PBAP => pbap s end.
Definition setattr (t : target) (p : option path) (s : SessionManager) : SessionManager :=
  match t with MAP => s <| map := p |> | PBAP => s <| pbap := p |> end.

(** ** Opening a session *)

(** obexd's answer to one [CreateSession] call: a session path, a D-Bus error
    with its name and message, or another exception's text. *)
Inductive reply := Created (p : path) | DBusError (name msg : string) | OtherError (msg : string).

Definition forbidden (msg : string) : bool := contains "Forbidden" msg || contains "0x43" msg.

Definition session_error (t : target) (name msg : string) : Error :=
  mkError true ("CreateSession(" +:+ target_name t +:+ ") failed: " +:+ name +:+ ": " +:+ msg).

(** [again] answers the call the code makes after a Forbidden error. *)
Definition _create_session (t : target) (first again : reply) : path + Error :=
  match first with
  | Created p => inl p
  | OtherError msg => inr (mkError false msg)
  | DBusError name msg =>
      if forbidden msg then
        match again with
        | Created p => inl p
        | OtherError msg => inr (mkError false msg)
        | DBusError name msg => inr (session_error t name msg)
        end
      else inr (session_error t name msg)
  end.

(** ** Signals from obexd, on the main loop *)

(** What [_notify_lost] is called with, if it is called. *)
Definition notification : Type := option string.

Definition _on_interfaces_removed (p : path) : M SessionManager notification :=
  modify (λ s : SessionManager, s <| _removed_while_opening ::= fmap (λ r, {[p]} ∪ r) |>);;
  s ← get;
  let lost := (if bool_decide (map s = Some p) then ["MAP"] else [])
              ++ (if bool_decide (pbap s = Some p) then ["PBAP"] else []) in
  put (s <| map := if bool_decide (map s = Some p) then None else map s |>
         <| pbap := if bool_decide (pbap s = Some p) then None else pbap s |>);;
  match lost with
  | [] => mret None
  | _ => if _closing s then mret None
         else mret (Some (String.concat "/" lost +:+ " session disappeared"))
  end.

Definition _on_name_owner_changed (old_owner new_owner : string) : M SessionManager notification :=
  if bool_decide (old_owner = "") || negb (bool_decide (new_owner = "")) then mret None
  else
    modify (λ s : SessionManager, s <| _obexd_exited_while_opening ::=
      λ b, b || is_some (_removed_while_opening s) |>);;
    s ← get;
    put (s <| map := None |> <| pbap := None |>);;
    if (is_some (map s) || is_some (pbap s)) && negb (_closing s)
    then mret (Some "obexd exited") else mret None.

Definition _publish (t : target) (p : path) : M SessionManager bool :=
  s ← get;
  if _obexd_exited_while_opening s || bool_decide (p ∈ default ∅ (_removed_while_opening s))
  then mret false
  else put (setattr t (Some p) s);; mret true.

Definition report_error (text : string) : M SessionManager notification :=
  if contains "UnknownObject" text || contains "ServiceUnknown" text
     || contains "NameHasNoOwner" text || contains "NoReply" text
  then modify (λ s : SessionManager, s <| map := None |> <| pbap := None |>);;
       mret (Some (String.substring 0 160 text))
  else mret None.

(** ** [open_all] and [close_all], step by step *)

Definition start_monitoring : M SessionManager () := modify (λ s : SessionManager, s <| _monitoring := true |>).

(** Where the worker is inside [open_all]: about to start, about to call
    [CreateSession] for a target (or to skip it), holding a new path that is
    not yet published, or past the loop; with the failures so far. *)
Inductive open_phase :=
  | OpenBegin
  | OpenCreate (t : target) (failures : list Error)
  | OpenPublish (t : target) (p : path) (failures : list Error)
  | OpenEnd (failures : list Error).

Definition next_target (t : target) (failures : list Error) : open_phase :=
  match t with MAP => OpenCreate PBAP failures | PBAP => OpenEnd failures end.

(** One step of [open_all]: the next phase, or its outcome ([None]: it
    returned; [Some e]: it raised). *)
Definition open_all_step (ph : open_phase) (first again : reply) :
    M SessionManager (open_phase + option Error) :=
  match ph with
  | OpenBegin =>
      start_monitoring;;
      s ← get;
      if is_some (map s) && is_some (pbap s) then mret (inr None)
      else
        put (s <| _removed_while_opening := Some ∅ |> <| _obexd_exited_while_opening := false |>);;
        mret (inl (OpenCreate MAP []))
  | OpenCreate t failures =>
      s ← get;
      if is_some (getattr t s) then mret (inl (next_target t failures))
      else
        match _create_session t first again with
        | inr e => mret (inl (next_target t (failures ++ [e])))
        | inl p => mret (inl (OpenPublish t p failures))
        end
  | OpenPublish t p failures =>
      published ← _publish t p;
      if (published : bool) then mret (inl (next_target t failures))
      else mret (inl (next_target t
        (failures ++ [mkError true (target_name t +:+ " session disappeared while opening")])))
  | OpenEnd failures =>
      modify (λ s : SessionManager, s <| _removed_while_opening := None |> <| _obexd_exited_while_opening := false |>);;
      mret (inr (head failures))
  end.

(** [close_all] in two steps, between which it may call into obexd. *)
Definition close_all_begin : M SessionManager () := modify (λ s : SessionManager, s <| _closing := true |>).
Definition close_all_end : M SessionManager () :=
  modify (λ s : SessionManager, s <| map := None |> <| pbap := None |> <| _closing := false |>).

Definition map_path (s : SessionManager) : path + Error :=
  match map s with Some p => inl p | None => inr (mkError true "MAP session not open") end.
Definition pbap_path (s : SessionManager) : path + Error :=
  match pbap s with Some p => inl p | None => inr (mkError true "PBAP session not open") end.
