(* ===== verification/ProfileSupervisor.v ===== *)
(** * ProfileSupervisor: retry timing and open/close serialization of the MAP
    and PBAP sessions (src/blueferry/profile_supervisor.py), together with the
    OBEX worker's queue and the sessions it works on.

    [World] is the state the supervisor's methods read and change: its own
    attributes, the connectivity state machine, the sessions, the jobs it
    submitted to the worker (queued, running, or completed with the completion
    callback still to run on the main loop), its GLib timers, and a log of the
    callbacks it made.  [step] is one atomic step of the program or of its
    environment; the worker thread's steps interleave freely with the main
    loop's.  The callbacks do not call back into the supervisor. *)
From S2P Require Import Prelude ObexSessions.
From S2P Require Connectivity.

Definition INITIAL_MAP_CONNECT_POLL_SECONDS : Z := 5.
Definition MAP_RECONNECT_POLL_SECONDS : Z := 15.

(** What is submitted to the worker, with the generation its completion
    callbacks captured. *)
Inductive job := JOpen (generation : Z) | JClose (generation : Z) (remove_remote : bool).

(** What a timer runs: [_retry], or the [retry_close] closure. *)
Inductive timer := TRetry | TClose (generation : Z) (remove_remote : bool).

(** The callbacks the supervisor makes. *)
Inductive effect :=
  | OnReady | OnPartialReady | OnLost (reason : string) | OnStatus
  | OnAttemptPending | OnFirstAttemptComplete.

(** Where the worker thread is inside a job. *)
Inductive phase := Opening (p : open_phase) | CloseBegin | CloseEnd.

(** A signal obexd sent that the main loop has not seen yet. *)
Inductive signal := Removed (p : path) | OwnerGone.

Record World := mkWorld {
  connectivity : Connectivity.Connectivity;
  _retry_id : option Z;
  _opening : bool;
  _closing : bool;
  _ready : bool;
  _consumers_active : bool;
  _ever_ready : bool;
  _stopping : bool;
  _paused : bool;
  _generation : Z;
  _first_attempt_completed : bool;
  (* collaborators *)
  sessions : SessionManager;
  queue : list job;
  running : option (job * phase);
  completed : list (job * option Error);
  timers : list (Z * (Z * timer));
  next_timer : Z;
  refusal : option string;  (* the worker refuses submissions, with this text *)
  attempt_ready : bool;     (* what [_attempt_ready()] answers *)
  live : gset path;         (* the session objects obexd has *)
  signals : list signal;
  log : list effect;
}.

Definition World_init (policy : Connectivity.RetryPolicy) : World :=
  mkWorld (Connectivity.Connectivity_init policy) None false false false false false false false 0
    false SessionManager_init [] None [] [] 0 None true ∅ [] [].

(** ** Calls on the collaborators *)

Definition emit (e : effect) : M World () := modify (λ w : World, w <| log ::= λ l, l ++ [e] |>).

Definition on_connectivity {A} (m : M Connectivity.Connectivity A) : M World A :=
  λ w, let '(r, c) := m (connectivity w) in (r, w <| connectivity := c |>).

Definition on_sessions {A} (m : M SessionManager A) : M World A :=
  λ w, let '(r, s) := m (sessions w) in (r, w <| sessions := s |>).

(** [worker.submit]; the answer is the [RuntimeError]'s text, if it raised. *)
Definition submit (j : job) : M World (option string) :=
  w ← get;
  match refusal w with
  | Some text => mret (Some text)
  | None => modify (λ w : World, w <| queue ::= λ q, q ++ [j] |>);; mret None
  end.

Definition _schedule (delay : Z) (t : timer) : M World Z :=
  w ← get;
  modify (λ w : World, w <| timers ::= λ l, l ++ [(next_timer w, (delay, t))] |> <| next_timer ::= Z.add 1 |>);;
  mret (next_timer w).

Definition _cancel (id : Z) : M World () :=
  modify (λ w : World, w <| timers ::= List.filter (λ t, negb (t.1 =? id)) |>).

(** [if self._retry_id is not None: cancel; self._retry_id = None]. *)
Definition cancel_retry : M World () :=
  w ← get;
  match _retry_id w with
  | None => mret ()
  | Some id => _cancel id;; modify (λ w : World, w <| _retry_id := None |>)
  end.

(** ** The supervisor's methods *)

Definition _poll_seconds (w : World) : Z :=
  if _ever_ready w then MAP_RECONNECT_POLL_SECONDS else INITIAL_MAP_CONNECT_POLL_SECONDS.

Definition _schedule_retry (delay : Z) : M World () :=
  w ← get;
  if _stopping w || is_some (_retry_id w) then mret ()
  else
    id ← _schedule delay TRetry;
    modify (λ w : World, w <| _retry_id := Some id |>).

Definition _mark_ready : M World () :=
  cancel_retry;;
  on_connectivity Connectivity.ready;;
  emit OnStatus;;
  modify (λ w : World, w <| _ever_ready := true |>);;
  w ← get;
  if _ready w then mret ()
  else
    modify (λ w : World, w <| _ready := true |> <| _consumers_active := true |>);;
    emit OnReady.

Definition _complete_first_attempt (force : bool) : M World () :=
  w ← get;
  if _first_attempt_completed w then mret ()
  else if negb force && negb (attempt_ready w) then mret ()
  else
    modify (λ w : World, w <| _first_attempt_completed := true |>);;
    emit OnFirstAttemptComplete.

Definition _begin_attempt_cycle : M World () :=
  w ← get;
  if negb (_first_attempt_completed w) && _opening w then mret ()
  else
    modify (λ w : World, w <| _first_attempt_completed := false |>);;
    emit OnAttemptPending.

Definition both_open (w : World) : bool :=
  is_some (map (sessions w)) && is_some (pbap (sessions w)).
Definition some_open (w : World) : bool :=
  is_some (map (sessions w)) || is_some (pbap (sessions w)).

Definition open : M World () :=
  w ← get;
  if _stopping w || _paused w || _opening w || _closing w then mret ()
  else if both_open w then _mark_ready
  else
    modify (λ w : World, w <| _opening := true |>);;
    on_connectivity (Connectivity.connecting "opening MAP/PBAP sessions");;
    emit OnStatus;;
    refused ← submit (JOpen (_generation w));
    match (refused : option string) with
    | None => mret ()
    | Some error =>
        modify (λ w : World, w <| _opening := false |>);;
        delay ← on_connectivity (Connectivity.failed error false false (Some (_poll_seconds w)));
        emit OnStatus;;
        _schedule_retry delay
    end.

Definition _submit_close (generation : Z) (remove_remote : bool) : M World () :=
  w ← get;
  if _stopping w || negb (generation =? _generation w) then mret ()
  else
    refused ← submit (JClose generation remove_remote);
    match (refused : option string) with
    | None => mret ()
    | Some _ =>
        id ← _schedule (_poll_seconds w) (TClose generation remove_remote);
        modify (λ w : World, w <| _retry_id := Some id |>)
    end.

(** [if self._consumers_active: self._consumers_active = False; self._on_lost(reason)]. *)
Definition drop_consumers (reason : string) : M World () :=
  w ← get;
  if _consumers_active w
  then modify (λ w : World, w <| _consumers_active := false |>);; emit (OnLost reason)
  else mret ().

Definition reconnect (reason : string) (remove_remote_sessions : bool) : M World () :=
  w ← get;
  if _stopping w || _paused w then mret ()
  else if _closing w then mret ()
  else
    _begin_attempt_cycle;;
    modify (λ w : World, w <| _generation ::= Z.add 1 |>);;
    generation ← gets _generation;
    on_connectivity (Connectivity.lost reason);;
    emit OnStatus;;
    modify (λ w : World, w <| _ready := false |>);;
    drop_consumers reason;;
    modify (λ w : World, w <| _opening := false |> <| _closing := true |>);;
    cancel_retry;;
    _submit_close generation remove_remote_sessions.

Definition session_lost (reason : string) : M World () := reconnect reason false.

Definition start : M World () :=
  w ← get;
  if _stopping w then mret ()
  else
    _begin_attempt_cycle;;
    on_sessions start_monitoring;;
    open.

Definition pause : M World () :=
  modify (λ w : World, w <| _paused := true |> <| _generation ::= Z.add 1 |>
                         <| _opening := false |> <| _closing := false |>);;
  cancel_retry;;
  modify (λ w : World, w <| _ready := false |>);;
  drop_consumers "Bluetooth adapter recovery";;
  on_connectivity (Connectivity.lost "Bluetooth adapter recovery");;
  emit OnStatus.

Definition resume : M World () :=
  modify (λ w : World, w <| _paused := false |>);;
  reconnect "Bluetooth adapter recovery completed" false.

Definition stop : M World () :=
  modify (λ w : World, w <| _stopping := true |> <| _generation ::= Z.add 1 |>
    <| _ready := false |> <| _consumers_active := false |>
    <| _opening := false |> <| _closing := false |>);;
  on_connectivity Connectivity.stopping;;
  cancel_retry.

Definition _opened (generation : Z) : M World () :=
  w ← get;
  if _stopping w || negb (generation =? _generation w) || _closing w then mret ()
  else
    modify (λ w : World, w <| _opening := false |>);;
    _complete_first_attempt true;;
    _mark_ready.

Section partial.
(** Whether an [on_partial_ready] callback was given. *)
Context (has_partial : bool).

Definition _open_failed (generation : Z) (error : Error) : M World () :=
  w ← get;
  if _stopping w || negb (generation =? _generation w) then mret ()
  else
    modify (λ w : World, w <| _opening := false |>);;
    _complete_first_attempt false;;
    when (has_partial && some_open w)
      (modify (λ w : World, w <| _consumers_active := true |>);; emit OnPartialReady);;
    delay ← on_connectivity (Connectivity.failed (message error)
      (is_session_error error && forbidden (message error))
      (Connectivity.is_map_connection_refused (message error) "")
      (Some (_poll_seconds w)));
    emit OnStatus;;
    _schedule_retry delay.

Definition _closed (generation : Z) : M World () :=
  w ← get;
  if _stopping w || negb (generation =? _generation w) then mret ()
  else
    modify (λ w : World, w <| _closing := false |>);;
    _schedule_retry (_poll_seconds w).

Definition _close_failed (generation : Z) (error : Error) : M World () := _closed generation.

Definition _retry : M World () :=
  modify (λ w : World, w <| _retry_id := None |>);;
  w ← get;
  if _stopping w then mret () else open.

Definition retry_close (generation : Z) (remove_remote : bool) : M World () :=
  modify (λ w : World, w <| _retry_id := None |>);;
  _submit_close generation remove_remote.

(** ** The program's and the environment's steps *)

(** The completion callback of a job: [on_success] or [on_error]. *)
Definition deliver (j : job) (outcome : option Error) : M World () :=
  match j, outcome with
  | JOpen g, None => _opened g
  | JOpen g, Some e => _open_failed g e
  | JClose g _, None => _closed g
  | JClose g _, Some e => _close_failed g e
  end.

Definition fire (t : timer) : M World () :=
  match t with TRetry => _retry | TClose g rr => retry_close g rr end.

Definition notify_lost (n : notification) : M World () :=
  match n with None => mret () | Some reason => session_lost reason end.

Definition receive (s : signal) : M World () :=
  n ← on_sessions (match s with
    | Removed p => _on_interfaces_removed p
    | OwnerGone => _on_name_owner_changed ":1.1" ""
    end);
  notify_lost n.

Definition first_phase (j : job) : phase :=
  match j with JOpen _ => Opening OpenBegin | JClose _ _ => CloseBegin end.

(** One step of the worker thread; [first] and [again] are obexd's answers,
    [failure] an exception out of [close_all]. *)
Definition worker_step (first again : reply) (failure : option Error) : M World () :=
  w ← get;
  match running w with
  | None =>
      match queue w with
      | [] => mret ()
      | j :: q => modify (λ w : World, w <| running := Some (j, first_phase j) |> <| queue := q |>)
      end
  | Some (j, Opening ph) =>
      r ← on_sessions (open_all_step ph first again);
      match (r : open_phase + option Error) with
      | inl ph' =>
          modify (λ w : World, w <| running := Some (j, Opening ph') |>
            <| live ::= λ l, if ph' is OpenPublish _ p _ then {[p]} ∪ l else l |>)
      | inr outcome =>
          modify (λ w : World, w <| running := None |> <| completed ::= λ l, l ++ [(j, outcome)] |>)
      end
  | Some (j, CloseBegin) =>
      on_sessions close_all_begin;;
      modify (λ w : World, w <| running := Some (j, CloseEnd) |>)
  | Some (j, CloseEnd) =>
      on_sessions close_all_end;;
      modify (λ w : World, w <| running := None |> <| completed ::= λ l, l ++ [(j, failure)] |>)
  end.

Definition worker_idle (w : World) : bool :=
  bool_decide (queue w = []) && bool_decide (running w = None ∧ completed w = []).

Inductive event :=
  | EStart
  | EReconnect (reason : string) (remove_remote : bool)
  | EPauseForRecovery
  | EResume
  | EStop
  | ETimer (id : Z)
  | EDeliver
  | EWorker (first again : reply) (failure : option Error)
  | ESignal
  | EReportError (text : string)
  | EObexdRemoves (p : path)
  | EObexdExits
  | EWorkerRefuses (text : option string)
  | EAttemptReady (b : bool).

Definition step (e : event) : M World () :=
  match e with
  | EStart => start
  | EReconnect reason rr => reconnect reason rr
  | EPauseForRecovery =>
      (* recovery reserves the worker first, which needs it idle *)
      w ← get;
      if worker_idle w then pause;; on_sessions (close_all_begin;; close_all_end) else mret ()
  | EResume => resume
  | EStop => stop
  | ETimer id =>
      w ← get;
      match List.find (λ t, t.1 =? id) (timers w) with
      | None => mret ()
      | Some (_, (_, t)) => _cancel id;; fire t
      end
  | EDeliver =>
      w ← get;
      match completed w with
      | [] => mret ()
      | (j, outcome) :: l => modify (λ w : World, w <| completed := l |>);; deliver j outcome
      end
  | EWorker first again failure => worker_step first again failure
  | ESignal =>
      w ← get;
      match signals w with
      | [] => mret ()
      | s :: l => modify (λ w : World, w <| signals := l |>);; receive s
      end
  | EReportError text => n ← on_sessions (report_error text); notify_lost n
  | EObexdRemoves p =>
      modify (λ w : World, w <| live ::= λ l, l ∖ {[p]} |> <| signals ::= λ l, l ++ [Removed p] |>)
  | EObexdExits =>
      modify (λ w : World, w <| live := ∅ |> <| signals ::= λ l, l ++ [OwnerGone] |>)
  | EWorkerRefuses text => modify (λ w : World, w <| refusal := text |>)
  | EAttemptReady b => modify (λ w : World, w <| attempt_ready := b |>)
  end.

Definition run (es : list event) (w : World) : World := run_all (step <$> es) w.
End partial.
