(* ===== verification/ProfileLifecycle.v ===== *)
(** * ProfileLifecycle: what the profile supervisor guarantees.

    Every reachable [World] is in one of six modes (stopped, paused, closing,
    opening, ready, waiting), each of which says where the worker is, which
    timer is pending and what the sessions are; and the worker thread, the
    main loop and obexd agree on which sessions exist ([threads_ok]).  The
    theorems are read off these two invariants and the callback log. *)
From S2P Require Import Prelude ObexSessions ProfileSupervisor.
From S2P Require Connectivity.

(** ** The lifecycle, as modes *)

(** A pending retry: no timer, or the one timer [_retry_id] names. *)
Definition retry_timer (w : World) : Prop :=
  match _retry_id w with
  | None => timers w = []
  | Some id => ∃ d, timers w = [(id, (d, TRetry))]
  end.
Definition no_timer (w : World) : Prop := _retry_id w = None ∧ timers w = [].

Definition idle_worker (w : World) : Prop := queue w = [] ∧ running w = None ∧ completed w = [].

(** How far the worker is with the current open job, and what that says about
    the sessions. *)
Definition phase_ok (ph : open_phase) (s : SessionManager) : Prop :=
  match ph with
  | OpenBegin => True
  | OpenCreate MAP fs => fs = []
  | OpenPublish MAP _ fs => fs = [] ∧ map s = None
  | OpenCreate PBAP fs => fs = [] ↔ is_Some (map s)
  | OpenPublish PBAP _ fs => (fs = [] ↔ is_Some (map s)) ∧ pbap s = None
  | OpenEnd fs => fs = [] ↔ is_Some (map s) ∧ is_Some (pbap s)
  end.

Inductive opening_at (w : World) : Prop :=
  | Opening_queued : queue w = [JOpen (_generation w)] → running w = None → completed w = [] →
      opening_at w
  | Opening_running ph : queue w = [] → running w = Some (JOpen (_generation w), Opening ph) →
      completed w = [] → phase_ok ph (sessions w) → opening_at w
  | Opening_done o : queue w = [] → running w = None → completed w = [(JOpen (_generation w), o)] →
      (o = None ↔ both_open w = true) → opening_at w.

(** The cleanup job of the current generation is behind the jobs of older
    generations, or still has to be submitted by a timer. *)
Definition stale (g : Z) (j : job) : Prop := match j with JOpen g' => g' < g | JClose _ _ => False end.
Definition pipeline (w : World) : list job :=
  (completed w).*1 ++ match running w with Some (j, _) => [j] | None => [] end ++ queue w.
Definition closing_at (w : World) : Prop :=
  ∃ old rr, Forall (stale (_generation w)) old ∧
    ((pipeline w = old ++ [JClose (_generation w) rr] ∧ no_timer w ∧
      (queue w = [] → running w = None → map (sessions w) = None ∧ pbap (sessions w) = None)) ∨
     (pipeline w = old ∧ ∃ id d, _retry_id w = Some id ∧
        timers w = [(id, (d, TClose (_generation w) rr))])).

Record flags (w : World) (stopping paused opening closing ready : bool) : Prop := mkFlags {
  f_stopping : _stopping w = stopping;
  f_paused : stopping = false → _paused w = paused;
  f_opening : _opening w = opening;
  f_closing : _closing w = closing;
  f_ready : _ready w = ready;
}.

(** ** The sessions, the worker thread and obexd *)

(** obexd has the session, or told the main loop that it is gone. *)
Definition known (w : World) (p : path) : Prop :=
  p ∈ live w ∨ Removed p ∈ signals w ∨ OwnerGone ∈ signals w.

Record threads_ok (w : World) : Prop := mkThreads {
  t_closing : ObexSessions._closing (sessions w) = true → ∃ j, running w = Some (j, CloseEnd);
  t_phase : match running w with
    | Some (JOpen _, Opening _) | Some (JClose _ _, CloseBegin) | Some (JClose _ _, CloseEnd)
    | None => True
    | _ => False
    end;
  t_published : ∀ t p, getattr t (sessions w) = Some p → known w p;
  t_created : ∀ j t p fs, running w = Some (j, Opening (OpenPublish t p fs)) →
    known w p ∨ _obexd_exited_while_opening (sessions w) = true ∨
    p ∈ default ∅ (_removed_while_opening (sessions w));
  t_recording : ∀ j ph, running w = Some (j, Opening ph) → ph ≠ OpenBegin →
    is_Some (_removed_while_opening (sessions w));
}.

Inductive mode (started gated : bool) (w : World) : Prop :=
  | Stopped : flags w true false false false false → no_timer w → mode started gated w
  | Paused : flags w false true false false false → no_timer w → idle_worker w → mode started gated w
  | Closing : flags w false false false true false → closing_at w → mode started gated w
  | OpeningSessions : flags w false false true false false → retry_timer w → opening_at w → mode started gated w
  | Ready : flags w false false false false true → no_timer w → idle_worker w →
      both_open w = true → _consumers_active w = true →
      (gated = true → _first_attempt_completed w = true) → mode started gated w
  | Waiting : flags w false false false false false → retry_timer w → idle_worker w →
      both_open w = false → (started = true → is_Some (_retry_id w)) → mode started gated w.

(** Computes a method on a world given field by field. *)
Ltac world w :=
  unfold retry_timer, both_open, some_open in *;
  destruct w as [connectivity0 _retry_id0 _opening0 _closing0 _ready0 _consumers_active0 _ever_ready0
    _stopping0 _paused0 _generation0 _first_attempt_completed0 sessions0 queue0 running0
    completed0 timers0 next_timer0 refusal0 attempt_ready0 live0 signals0 log0];
  cbn in *; repeat match goal with
    | H : flags _ _ _ _ _ _ |- _ => destruct H; cbn in *
    | H : no_timer _ |- _ => destruct H; cbn in *
    | H : idle_worker _ |- _ => destruct H as (? & ? & ?); cbn in *
    end;
  repeat match goal with H : false = false → _ |- _ => specialize (H eq_refl) end; subst.

Ltac methods := cbv beta iota zeta delta
  [both_open some_open open reconnect session_lost start pause resume stop _opened _open_failed _closed _close_failed
   _retry retry_close _submit_close _mark_ready _complete_first_attempt _begin_attempt_cycle
   _schedule_retry _schedule _cancel cancel_retry submit drop_consumers emit on_connectivity
   on_sessions start_monitoring Connectivity.connecting Connectivity.ready Connectivity.failed
   Connectivity.lost Connectivity.stopping notify_lost deliver fire
   mbind M_bind mret M_ret get put gets modify raise when].

Ltac by_flags := constructor; cbn; first [done | by intros].

Lemma retry_timer_cases w : retry_timer w → no_timer w ∨
  ∃ id d, _retry_id w = Some id ∧ timers w = [(id, (d, TRetry))].
Proof. unfold retry_timer, no_timer. destruct (_retry_id w); naive_solver. Qed.

(** Reads off a mode from a computed world. *)
Ltac by_mode := unfold retry_timer, no_timer, idle_worker, both_open in *; cbn; eauto 10.

Section modes.
Context (b gd : bool).

Lemma open_waiting w :
  flags w false false false false false → retry_timer w → idle_worker w → both_open w = false →
  mode b gd (open w).2.
Proof.
  intros Hf Ht Hi Hb. world w. methods. cbn. rewrite Hb. cbn.
  destruct refusal0 as [text|]; cbn.
  - destruct _retry_id0; cbn; apply Waiting; try by_flags; by_mode. by rewrite Ht; eauto.
  - apply OpeningSessions; [by_flags|done|]. by apply Opening_queued.
Qed.

Lemma cancelled id d (k : timer) : List.filter (λ t : Z * (Z * timer), negb (t.1 =? id)) [(id, (d, k))] = [].
Proof. cbn. by rewrite Z.eqb_refl. Qed.

Lemma reconnect_mode w ready opening reason rr :
  flags w false false opening false ready → retry_timer w →
  Forall (stale (1 + _generation w)) (pipeline w) →
  mode b gd (reconnect reason rr w).2.
Proof.
  intros Hf Ht Hp. world w. methods. cbn.
  destruct (negb _first_attempt_completed0 && opening); cbn;
  destruct _consumers_active0; cbn; destruct _retry_id0 as [id|]; cbn; rewrite ?Z.eqb_refl; cbn;
  destruct refusal0; cbn; (apply Closing; [by_flags|]);
  unfold closing_at, pipeline, no_timer; cbn; eexists _, rr; (split; [exact Hp|]);
  lazymatch type of Ht with ex _ => destruct Ht as [d Ht] | _ => idtac end;
  subst; rewrite ?cancelled; cbn.
  all: try (right; split; [done|]; by eauto).
  all: left; split_and!; try done; try (by rewrite <- !(assoc_L (++)));
    by intros [_ ?]%app_nil.
Qed.

Lemma opened_mode w o :
  flags w false false true false false → retry_timer w → idle_worker w →
  (o = None ↔ both_open w = true) → ∀ has_partial,
  mode b gd (deliver has_partial (JOpen (_generation w)) o w).2.
Proof.
  intros Hf Ht Hi Ho hp. world w. destruct o as [e|]; methods; cbn; rewrite Z.eqb_refl; cbn.
  - assert (Hb : both_open (mkWorld connectivity0 None false false false false false false false 0
      false sessions0 [] None [] [] 0 None true live0 signals0 []) = false).
    { apply not_true_iff_false. intros Hb. by apply Ho in Hb. }
    unfold both_open in Hb. cbn in Hb.
    destruct _first_attempt_completed0; cbn; [|destruct attempt_ready0; cbn];
    destruct (hp && _); cbn; destruct _retry_id0; cbn; apply Waiting; try by_flags; by_mode;
      rewrite Ht; by eauto.
  - pose proof (proj1 Ho eq_refl) as Hb.
    destruct _first_attempt_completed0; cbn; destruct _retry_id0 as [id|]; cbn; apply Ready;
      try by_flags; by_mode; destruct Ht as [d ->]; by rewrite cancelled.
Qed.

Lemma start_mode b' w :
  mode b' gd w → (_ready w = true → gd = false) → mode b gd (start w).2.
Proof.
  intros Hmode Hstart. destruct Hmode as [Hf Ht|Hf Ht Hi|Hf Hc|Hf Ht Ho|Hf Ht Hi Hb Ha Hg|Hf Ht Hi Hb Hs].
  - world w. methods. cbn. by apply Stopped; [by_flags|].
  - world w. methods. cbn. destruct (negb _first_attempt_completed0 && false); cbn;
      by apply Paused; [by_flags|..].
  - world w. methods. cbn. destruct (negb _first_attempt_completed0 && false); cbn;
      by apply Closing; [by_flags|..].
  - world w. methods. cbn. destruct (negb _first_attempt_completed0 && true); cbn;
      (apply OpeningSessions; [by_flags|done|]; destruct Ho; cbn in *;
        [by apply Opening_queued|eapply Opening_running; eauto|eapply Opening_done; eauto]).
  - specialize (Hstart (f_ready _ _ _ _ _ _ Hf)). subst gd. clear Hg.
    world w. methods. cbn. destruct (negb _first_attempt_completed0 && false); cbn;
      unfold both_open in Hb; cbn in Hb; rewrite Hb; cbn;
      (apply Ready; [by_flags|by split|by split_and!|done|done|done]).
  - assert (E : ∃ w', start w = open w' ∧ flags w' false false false false false ∧ retry_timer w' ∧
      idle_worker w' ∧ both_open w' = false).
    { unfold start, on_sessions, _begin_attempt_cycle. monad_simpl.
      rewrite (f_stopping _ _ _ _ _ _ Hf), (f_opening _ _ _ _ _ _ Hf), andb_false_r.
      eexists. split; [reflexivity|]. world w. by split_and!; [by_flags|..]. }
    destruct E as (w' & -> & ? & ? & ? & ?). by apply open_waiting.
Qed.

Lemma closing_sessions w s :
  closing_at w → (map (sessions w) = None → map s = None) →
  (pbap (sessions w) = None → pbap s = None) → closing_at (w <| sessions := s |>).
Proof.
  intros (old & rr & Hst & [(E & Ht & Hn)|(E & Ht)]) Hm Hp; exists old, rr; split; try done.
  - left. split_and!; [done..|]. intros. cbn. destruct (Hn H H0). by split; [apply Hm|apply Hp].
  - right. done.
Qed.

(** A loss notification, after the sessions changed so that at least one of
    them is gone.  When the manager keeps quiet, the cleanup job is running. *)
Lemma phase_ok_ext ph s s' : map s = map s' → pbap s = pbap s' → phase_ok ph s' → phase_ok ph s.
Proof. intros E1 E2. destruct ph as [|[]|[]|]; cbn; by rewrite ?E1, ?E2. Qed.

Lemma both_open_ext w s :
  map s = map (sessions w) → pbap s = pbap (sessions w) → both_open (w <| sessions := s |>) = both_open w.
Proof. intros E1 E2. unfold both_open. cbn. by rewrite E1, E2. Qed.

(** The mode only looks at which sessions are open. *)
Lemma sessions_mode w s :
  map s = map (sessions w) → pbap s = pbap (sessions w) → mode b gd w → mode b gd (w <| sessions := s |>).
Proof.
  intros E1 E2 Hmode. pose proof (both_open_ext w s E1 E2) as Hbo.
  destruct Hmode as [Hf Ht|Hf Ht Hi|Hf Hc|Hf Ht Ho|Hf Ht Hi Hb Ha Hg|Hf Ht Hi Hb Hs].
  - by apply Stopped; [world w; by_flags|world w].
  - by apply Paused; [world w; by_flags|world w..].
  - apply Closing; [by world w; by_flags|]. apply closing_sessions; [done|congruence..].
  - apply OpeningSessions; [by world w; by_flags|by world w|].
    destruct Ho as [? ? ?|ph ? ? ? Hph|o ? ? ? Hob];
      [by apply Opening_queued|eapply (Opening_running _ ph)|eapply (Opening_done _ o)]; try done.
    + by eapply phase_ok_ext.
    + by rewrite Hbo.
  - apply Ready; [by world w; by_flags|by world w|by world w|by rewrite Hbo|by world w|done].
  - apply Waiting; [by world w; by_flags|by world w|by world w|by rewrite Hbo|done].
Qed.

Lemma lost_mode w s n :
  mode b gd w →
  (map (sessions w) = None → map s = None) → (pbap (sessions w) = None → pbap s = None) →
  (n = None → (map s = map (sessions w) ∧ pbap s = pbap (sessions w)) ∨
     ∃ j, running w = Some (j, CloseEnd)) →
  mode b gd (notify_lost n (w <| sessions := s |>)).2.
Proof.
  intros Hmode Hm Hp Hn. destruct n as [reason|].
  - clear Hn. cbn [notify_lost]. unfold session_lost. destruct Hmode as [Hf Ht|Hf Ht Hi|Hf Hc|Hf Ht Ho|Hf Ht Hi Hb Ha Hg|Hf Ht Hi Hb Hs].
    + world w. methods. cbn. by apply Stopped; [by_flags|].
    + world w. methods. cbn. by apply Paused; [by_flags|..].
    + apply (closing_sessions _ s) in Hc; [|done|done].
      world w. methods. cbn. by apply Closing; [by_flags|..].
    + apply (reconnect_mode _ false true); [by world w; by_flags|by world w|].
      destruct Ho as [E1 E2 E3|ph E1 E2 E3 _|o E1 E2 E3 _]; unfold pipeline; cbn; rewrite E1, E2, E3; cbn;
        repeat constructor; cbn; lia.
    + apply (reconnect_mode _ true false); [by world w; by_flags|by world w|].
      destruct Hi as (E1 & E2 & E3). unfold pipeline; cbn; rewrite E1, E2, E3. constructor.
    + apply (reconnect_mode _ false false); [by world w; by_flags|by world w|].
      destruct Hi as (E1 & E2 & E3). unfold pipeline; cbn; rewrite E1, E2, E3. constructor.
  - destruct (Hn eq_refl) as [[E1 E2]|[j Hj]]; clear Hn; [by apply sessions_mode|].
    destruct Hmode as [Hf Ht|Hf Ht Hi|Hf Hc|Hf Ht Ho|Hf Ht Hi Hb Ha Hg|Hf Ht Hi Hb Hs].
    + by apply Stopped; [world w; by_flags|world w].
    + by destruct Hi as (_ & Hr & _); rewrite Hr in Hj.
    + apply Closing; [by world w; by_flags|]. by apply closing_sessions.
    + exfalso. destruct Ho; congruence.
    + by destruct Hi as (_ & Hr & _); rewrite Hr in Hj.
    + by destruct Hi as (_ & Hr & _); rewrite Hr in Hj.
Qed.

Lemma reconnect_any w reason rr : mode b gd w → mode b gd (reconnect reason rr w).2.
Proof.
  intros Hmode. destruct Hmode as [Hf Ht|Hf Ht Hi|Hf Hc|Hf Ht Ho|Hf Ht Hi Hb Ha Hg|Hf Ht Hi Hb Hs].
  - world w. methods. cbn. by apply Stopped; [by_flags|].
  - world w. methods. cbn. by apply Paused; [by_flags|..].
  - world w. methods. cbn. by apply Closing; [by_flags|..].
  - apply (reconnect_mode _ false true); [by world w; by_flags|by world w|].
    destruct Ho as [E1 E2 E3|ph E1 E2 E3 _|o E1 E2 E3 _]; unfold pipeline; cbn; rewrite E1, E2, E3; cbn;
      repeat constructor; cbn; lia.
  - apply (reconnect_mode _ true false); [by world w; by_flags|by world w|].
    destruct Hi as (E1 & E2 & E3). unfold pipeline; cbn; rewrite E1, E2, E3. constructor.
  - apply (reconnect_mode _ false false); [by world w; by_flags|by world w|].
    destruct Hi as (E1 & E2 & E3). unfold pipeline; cbn; rewrite E1, E2, E3. constructor.
Qed.

Lemma resume_mode w : mode b gd w → mode b gd (resume w).2.
Proof.
  intros Hmode. unfold resume. monad_simpl.
  destruct Hmode as [Hf Ht|Hf Ht Hi|Hf Hc|Hf Ht Ho|Hf Ht Hi Hb Ha Hg|Hf Ht Hi Hb Hs].
  - apply reconnect_any. by apply Stopped; [world w; by_flags|world w].
  - apply (reconnect_mode _ false false); [by world w; by_flags|by world w|].
    destruct Hi as (E1 & E2 & E3). unfold pipeline; cbn; rewrite E1, E2, E3. constructor.
  - apply reconnect_any. by apply Closing; [world w; by_flags|world w].
  - apply reconnect_any. apply OpeningSessions; [by world w; by_flags|by world w|].
    destruct Ho; [by apply Opening_queued|by eapply Opening_running|by eapply Opening_done].
  - apply reconnect_any. by apply Ready; [world w; by_flags|world w..].
  - apply reconnect_any. by apply Waiting; [world w; by_flags|world w..].
Qed.

(** Whatever timer is pending, cancelling it leaves none. *)
Definition some_timer (w : World) : Prop :=
  match _retry_id w with
  | None => timers w = []
  | Some id => ∃ d k, timers w = [(id, (d, k))]
  end.

Lemma mode_timer w : mode b gd w → some_timer w.
Proof.
  unfold some_timer.
  intros [Hf Ht|Hf Ht Hi|Hf (old & rr & _ & [(_ & Ht & _)|(_ & id & d & E & Ht)])|Hf Ht Ho|Hf Ht Hi Hb Ha Hg|Hf Ht Hi Hb Hs];
    try (by destruct Ht as [-> ->]); try (rewrite E; by eauto);
    unfold retry_timer in Ht; destruct (_retry_id w); naive_solver.
Qed.

Lemma stop_mode w : mode b gd w → mode b gd (stop w).2.
Proof.
  intros Ht%mode_timer. unfold some_timer in Ht. world w. methods. cbn.
  destruct _retry_id0 as [id|]; cbn; apply Stopped; try by_flags; split; cbn; try done.
  destruct Ht as (d & k & ->). by rewrite cancelled.
Qed.

Lemma pause_mode w s : mode b gd w → idle_worker w → mode b gd ((pause w).2 <| sessions := s |>).
Proof.
  intros Hmode Hi. pose proof (mode_timer w Hmode) as Ht. unfold some_timer in Ht.
  assert (Hs : _stopping w = true ∨ _stopping w = false) by (destruct (_stopping w); auto).
  clear Hmode. world w. methods. cbn.
  destruct _retry_id0 as [id|]; cbn; destruct _consumers_active0; cbn;
  (destruct Hs as [-> | ->]; [apply Stopped|apply Paused]); try by_flags; try split_and!; cbn; try done;
    destruct Ht as (d & k & ->); by rewrite cancelled.
Qed.

Lemma find_sole (id id' : Z) (x : Z * timer) r :
  List.find (λ t : Z * (Z * timer), t.1 =? id) [(id', x)] = Some r → id' = id ∧ r = (id', x).
Proof. cbn. destruct (Z.eqb_spec id' id); [|done]. by intros [= <-]. Qed.

Lemma fire_mode w id r :
  mode b gd w → List.find (λ t, t.1 =? id) (timers w) = Some r →
  mode b gd ((_cancel id;; fire r.2.2) w).2.
Proof.
  intros Hmode Hfind.
  assert (Hnone : no_timer w → False) by (intros [_ E]; by rewrite E in Hfind).
  assert (Hretry : retry_timer w → ∃ d, _retry_id w = Some id ∧ timers w = [(id, (d, TRetry))] ∧
    r = (id, (d, TRetry))).
  { intros [Ht|(id' & d & E & Ht)]%retry_timer_cases; [by destruct Hnone|].
    rewrite Ht in Hfind. apply find_sole in Hfind as [-> ->]. by exists d. }
  destruct Hmode as [Hf Ht|Hf Ht Hi|Hf (old & rr & Hst & Hc)|Hf Ht Ho|Hf Ht Hi Hb Ha Hg|Hf Ht Hi Hb Hs];
    try (by destruct Hnone).
  - destruct Hc as [(_ & Ht & _)|(Hp & id' & d & E & Ht)]; [by destruct Hnone|].
    rewrite Ht in Hfind. apply find_sole in Hfind as [-> ->]. clear Hnone Hretry.
    unfold pipeline in Hp. world w. methods. cbn. rewrite !Z.eqb_refl. cbn.
    destruct refusal0; cbn; (apply Closing; [by_flags|]); eexists _, rr; (split; [exact Hst|]);
      unfold pipeline; cbn.
    + right. split; [done|]. by eauto.
    + left. split_and!; [by rewrite <- !(assoc_L (++))|done|by intros [_ ?]%app_nil].
  - destruct (Hretry Ht) as (d & E & Et & ->). clear Hretry Hnone Hfind.
    cbn [fire snd]. unfold _retry, open, _cancel. monad_simpl. cbn.
    rewrite (f_stopping _ _ _ _ _ _ Hf), (f_opening _ _ _ _ _ _ Hf), (f_closing _ _ _ _ _ _ Hf).
    rewrite orb_true_r. cbn. apply OpeningSessions; [by world w; by_flags| |].
    + unfold retry_timer. cbn. rewrite Et. apply cancelled.
    + destruct Ho; [by apply Opening_queued|by eapply Opening_running|by eapply Opening_done].
  - destruct (Hretry Ht) as (d & E & Et & ->). clear Hretry Hnone Hfind.
    cbn [fire snd]. unfold _retry, _cancel. monad_simpl. cbn.
    rewrite (f_stopping _ _ _ _ _ _ Hf). apply open_waiting.
    + by world w; by_flags.
    + unfold retry_timer. cbn. rewrite Et. apply cancelled.
    + by world w.
    + done.
Qed.

Lemma pipeline_completed w j o l :
  completed w = (j, o) :: l → pipeline w = j :: pipeline (w <| completed := l |>).
Proof. intros E. unfold pipeline. by rewrite E. Qed.

Lemma stale_app_inv gen j p old rr :
  Forall (stale gen) old → j :: p = old ++ [JClose gen rr] →
  (∃ old', old = j :: old' ∧ p = old' ++ [JClose gen rr]) ∨ old = [] ∧ j = JClose gen rr ∧ p = [].
Proof. destruct old as [|j' old]; cbn; intros _ [= -> ->]; [right|left]; by eauto. Qed.

Lemma deliver_stale hp w j o : stale (_generation w) j → (deliver hp j o w).2 = w.
Proof.
  destruct j as [g|g rr]; [|done]. cbn. intros Hlt.
  assert (E : (g =? _generation w) = false) by lia.
  destruct o; cbn; unfold _open_failed, _opened; monad_simpl; rewrite E; cbn;
    destruct (_stopping w); done.
Qed.

Lemma pipeline_nil w : pipeline w = [] → idle_worker w.
Proof.
  unfold pipeline, idle_worker. intros [E1 [E2 E3]%app_nil]%app_nil.
  apply fmap_nil_inv in E1. by destruct (running w) as [[? ?]|].
Qed.

Lemma closed_mode hp w rr o :
  flags w false false false true false → no_timer w → idle_worker w →
  map (sessions w) = None → mode b gd (deliver hp (JClose (_generation w) rr) o w).2.
Proof.
  intros Hf Ht Hi Hm. world w.
  destruct o; methods; cbn; rewrite Z.eqb_refl; cbn;
    (apply Waiting; [by_flags|by eexists|done|unfold both_open; cbn; by rewrite Hm|by eexists]).
Qed.

Lemma deliver_mode hp w j o l :
  mode b gd w → completed w = (j, o) :: l → mode b gd (deliver hp j o (w <| completed := l |>)).2.
Proof.
  intros Hmode Hc. pose proof (pipeline_completed _ _ _ _ Hc) as Hp.
  destruct Hmode as [Hf Ht|Hf Ht Hi|Hf (old & rr & Hst & Hcl)|Hf Ht Ho|Hf Ht Hi Hb Ha Hg|Hf Ht Hi Hb Hs];
    try (destruct Hi as (_ & _ & Hi); congruence).
  - assert (E : deliver hp j o (w <| completed := l |>) = (Ok (), w <| completed := l |>)).
    { destruct j, o; cbn; unfold _close_failed, _closed, _opened, _open_failed; monad_simpl;
        cbn; by rewrite (f_stopping _ _ _ _ _ _ Hf). }
    rewrite E. by apply Stopped; [world w; by_flags|world w].
  - destruct Hcl as [(E & Ht & Hn)|(E & Ht)].
    + rewrite E in Hp. symmetry in Hp.
      destruct (stale_app_inv _ _ _ _ _ Hst Hp) as [(old' & -> & Hp')|(-> & -> & Hp')].
      * apply Forall_cons in Hst as [Hj Hst]. rewrite deliver_stale by done.
        apply Closing; [by world w; by_flags|]. exists old', rr. split; [done|].
        left. by split_and!.
      * apply pipeline_nil in Hp' as (Hq & Hr & Hl). cbn in Hq, Hr, Hl. subst l.
        change (_generation w) with (_generation (w <| completed := [] |>)).
        apply closed_mode; [by world w; by_flags|by world w| |by apply Hn].
        by split_and!.
    + subst old. rewrite Hp in Hst. apply Forall_cons in Hst as [Hj Hst].
      rewrite deliver_stale by done. apply Closing; [by world w; by_flags|].
      exists (pipeline (w <| completed := l |>)), rr. split; [done|]. by right.
  - destruct Ho as [E1 E2 E3|ph E1 E2 E3 _|o' E1 E2 E3 Hob]; [congruence..|].
    rewrite Hc in E3. injection E3 as -> -> ->.
    change (_generation w) with (_generation (w <| completed := [] |>)).
    apply opened_mode; [by world w; by_flags|by world w|by split_and!|done].
Qed.

Lemma open_step_phase ph s first again : phase_ok ph s →
  ∃ r, (open_all_step ph first again s).1 = Ok r ∧
    match r with
    | inl ph' => phase_ok ph' (open_all_step ph first again s).2
    | inr o => o = None ↔ is_some (map (open_all_step ph first again s).2)
                          && is_some (pbap (open_all_step ph first again s).2) = true
    end.
Proof.
  intros Hph. destruct ph as [|t fs|t p fs|fs]; unfold open_all_step, start_monitoring; monad_simpl; cbn.
  - destruct (map s) as [m|] eqn:E1; cbn; [destruct (pbap s) as [p|] eqn:E2; cbn|]; eexists;
      (split; [reflexivity|]); cbn; rewrite ?E1, ?E2; done.
  - destruct t; cbn in *.
    + subst fs. destruct (map s) as [m|] eqn:E1; cbn; [|destruct (_create_session MAP first again)];
        cbn; eexists; (split; [reflexivity|]); cbn; rewrite ?E1; naive_solver.
    + destruct (pbap s) as [m|] eqn:E1; cbn; [|destruct (_create_session PBAP first again)];
        cbn; eexists; (split; [reflexivity|]); cbn; rewrite ?E1; try done.
      * naive_solver.
      * split; [by intros [_ ?]%app_nil|]. by intros [_ [? ?]].
  - unfold _publish. monad_simpl.
    destruct (_obexd_exited_while_opening s || _) eqn:Ex; cbn; destruct t; cbn in *;
      eexists; (split; [reflexivity|]); cbn.
    + destruct Hph as [-> Hm]. rewrite Hm. split; [done|]. by intros [].
    + destruct Hph as [Hfs Hp]. rewrite Hp. split; [by intros [_ ?]%app_nil|]. by intros [_ [? ?]].
    + destruct Hph as [-> Hm]. naive_solver.
    + destruct Hph as [Hfs Hp]. rewrite Hfs. naive_solver.
  - eexists. split; [reflexivity|]. cbn. cbn in Hph.
    destruct fs, (map s), (pbap s); cbn; split; try done; naive_solver.
Qed.

Lemma worker_pipeline w first again failure :
  pipeline (worker_step first again failure w).2 = pipeline w.
Proof.
  unfold worker_step. monad_simpl. destruct (running w) as [[j ph]|] eqn:Er.
  - destruct ph as [ph| |]; unfold on_sessions.
    + destruct (open_all_step ph first again (sessions w)) as [[[ph'|o]|e] s]; cbn;
        unfold pipeline; cbn; rewrite ?Er; try done.
      by rewrite fmap_app, <- (assoc_L (++)).
    + cbn. unfold pipeline. cbn. by rewrite Er.
    + cbn. unfold pipeline. cbn. rewrite Er. by rewrite fmap_app, <- (assoc_L (++)).
  - destruct (queue w) as [|j q] eqn:Eq; unfold pipeline; cbn; by rewrite Er, Eq.
Qed.

Lemma worker_frame w first again failure b1 b2 b3 b4 b5 :
  let w' := (worker_step first again failure w).2 in
  (flags w b1 b2 b3 b4 b5 → flags w' b1 b2 b3 b4 b5) ∧
  _retry_id w' = _retry_id w ∧ timers w' = timers w ∧ _generation w' = _generation w.
Proof.
  unfold worker_step. monad_simpl. destruct (running w) as [[j ph]|].
  - destruct ph as [ph| |]; unfold on_sessions.
    + destruct (open_all_step ph first again (sessions w)) as [[[ph'|o]|e] s]; cbn;
        (split_and!; [|done..]); intros []; by_flags.
    + cbn. (split_and!; [|done..]); intros []; by_flags.
    + cbn. (split_and!; [|done..]); intros []; by_flags.
  - destruct (queue w) as [|j q]; cbn; [done|]. (split_and!; [|done..]); intros []; by_flags.
Qed.

Lemma worker_idle_step w first again failure :
  idle_worker w → (worker_step first again failure w).2 = w.
Proof. intros (E1 & E2 & _). unfold worker_step. monad_simpl. by rewrite E2, E1. Qed.

(** When the worker runs out of jobs, its last step ended the last job. *)
Lemma worker_runs_out w first again failure j old rr :
  threads_ok w → running w = Some j →
  pipeline w = old ++ [JClose (_generation w) rr] →
  let w' := (worker_step first again failure w).2 in
  queue w' = [] → running w' = None → map (sessions w') = None ∧ pbap (sessions w') = None.
Proof.
  intros Hth Hr Hp w'. pose proof (t_phase _ Hth) as Hph. subst w'. unfold pipeline in Hp.
  unfold worker_step. monad_simpl. rewrite Hr in *. destruct j as [j ph]. destruct ph as [ph| |].
  - unfold on_sessions.
    destruct (open_all_step ph first again (sessions w)) as [[[ph'|o]|e] s]; cbn; try done.
    intros Hq _. rewrite Hq in Hp. cbn in Hp. apply app_inj_tail in Hp as [_ ->]. done.
    intros _ E. congruence.
  - done.
  - done.
Qed.

Lemma worker_mode w first again failure :
  mode b gd w → threads_ok w → mode b gd (worker_step first again failure w).2.
Proof.
  intros Hmode Hth.
  destruct Hmode as [Hf Ht|Hf Ht Hi|Hf (old & rr & Hst & Hcl)|Hf Ht Ho|Hf Ht Hi Hb Ha Hg|Hf Ht Hi Hb Hs].
  - destruct (worker_frame w first again failure true false false false false) as (H1 & H2 & H3 & _).
    apply Stopped; [by apply H1|]. unfold no_timer. by rewrite H2, H3.
  - rewrite worker_idle_step by done. by apply Paused.
  - destruct (worker_frame w first again failure false false false true false) as (H1 & H2 & H3 & H4).
    apply Closing; [by apply H1|]. exists old, rr. rewrite H4, worker_pipeline. split; [done|].
    destruct Hcl as [(E & Ht & Hn)|(E & Ht)]; [left|right].
    + split_and!; [done|unfold no_timer; by rewrite H2, H3|].
      destruct (running w) as [j|] eqn:Er; [by eapply worker_runs_out|].
      destruct (queue w) as [|j q] eqn:Eq.
      * unfold worker_step. monad_simpl. rewrite Er, Eq. cbn. intros _ _. by apply Hn.
      * unfold worker_step. monad_simpl. rewrite Er, Eq. cbn. done.
    + split; [done|]. by rewrite H2, H3.
  - destruct (worker_frame w first again failure false false true false false) as (H1 & H2 & H3 & H4).
    apply OpeningSessions; [by apply H1|unfold retry_timer; by rewrite H2, H3|].
    clear H1 H2 H3. unfold worker_step in *. monad_simpl.
    destruct Ho as [E1 E2 E3|ph E1 E2 E3 Hph|o E1 E2 E3 Hob]; unfold mbind, M_bind, get in *; cbn in *;
      rewrite E2 in *.
    + rewrite E1. cbn. by eapply (Opening_running _ OpenBegin).
    + destruct (open_step_phase ph (sessions w) first again Hph) as (r & Er & Hr).
      unfold on_sessions. destruct (open_all_step ph first again (sessions w)) as [r' s].
      cbn in Er, Hr. subst r'. destruct r as [ph'|o]; cbn.
      * by eapply (Opening_running _ ph').
      * eapply (Opening_done _ o); cbn; [done|done|by rewrite E3|done].
    + rewrite E1. cbn. by eapply (Opening_done _ o).
  - rewrite worker_idle_step by done. by apply Ready.
  - rewrite worker_idle_step by done. by apply Waiting.
Qed.

(** What a loss handler does to the sessions: it only closes, and when it
    keeps quiet either nothing changed or a cleanup is in progress. *)
Definition only_closes (m : M SessionManager notification) : Prop := ∀ s, ∃ n s',
  m s = (Ok n, s') ∧
  (map s = None → map s' = None) ∧ (pbap s = None → pbap s' = None) ∧
  (n = None → (map s' = map s ∧ pbap s' = pbap s) ∨ ObexSessions._closing s = true).

Lemma removed_closes p : only_closes (_on_interfaces_removed p).
Proof.
  intros s. unfold _on_interfaces_removed. monad_simpl. cbn.
  destruct (bool_decide (map s = Some p)) eqn:E1, (bool_decide (pbap s = Some p)) eqn:E2; cbn;
    destruct (ObexSessions._closing s); cbn; eexists _, _; split_and!; try done; eauto.
Qed.

Lemma owner_closes old new : only_closes (_on_name_owner_changed old new).
Proof.
  intros s. unfold _on_name_owner_changed. monad_simpl.
  destruct (bool_decide (old = "") || negb (bool_decide (new = ""))); cbn;
    [eexists _, _; split_and!; try done; eauto|].
  destruct (map s) eqn:E1, (pbap s) eqn:E2, (ObexSessions._closing s); cbn;
    eexists _, _; split_and!; try done; eauto.
Qed.

Lemma report_closes text : only_closes (report_error text).
Proof.
  intros s. unfold report_error. monad_simpl. destruct (_ || _); cbn;
    eexists _, _; split_and!; try done; eauto.
Qed.

Lemma handler_mode w (m : M SessionManager notification) :
  mode b gd w → (ObexSessions._closing (sessions w) = true → ∃ j, running w = Some (j, CloseEnd)) →
  only_closes m → mode b gd ((n ← on_sessions m; notify_lost n) w).2.
Proof.
  intros Hmode Hth Hm. unfold on_sessions. monad_simpl.
  destruct (Hm (sessions w)) as (n & s' & E & H1 & H2 & H3). rewrite E. cbn.
  apply lost_mode; [done..|]. intros Hn. destruct (H3 Hn) as [?|Hc]; [by left|].
  right. by apply Hth.
Qed.

Lemma mode_ext w w' :
  _retry_id w' = _retry_id w → _opening w' = _opening w → _closing w' = _closing w →
  _ready w' = _ready w → _consumers_active w' = _consumers_active w → _stopping w' = _stopping w →
  _paused w' = _paused w → _generation w' = _generation w → sessions w' = sessions w →
  queue w' = queue w → running w' = running w → completed w' = completed w → timers w' = timers w →
  _first_attempt_completed w' = _first_attempt_completed w →
  mode b gd w → mode b gd w'.
Proof.
  destruct w, w'; cbn. intros -> -> -> -> -> -> -> -> -> -> -> -> -> -> Hmode.
  destruct Hmode as [Hf Ht|Hf Ht Hi|Hf Hc|Hf Ht Ho|Hf Ht Hi Hb Ha Hg|Hf Ht Hi Hb Hs]; destruct Hf; cbn in *.
  - by apply Stopped.
  - by apply Paused.
  - by apply Closing.
  - apply OpeningSessions; [done..|].
    destruct Ho; [by apply Opening_queued|by eapply Opening_running|by eapply Opening_done].
  - by apply Ready.
  - by apply Waiting.
Qed.

Lemma worker_idle_spec w : worker_idle w = true ↔ idle_worker w.
Proof.
  unfold worker_idle, idle_worker. rewrite andb_true_iff, !bool_decide_eq_true. tauto.
Qed.

Lemma step_mode hp e w :
  mode b gd w → threads_ok w → (e = EStart → _ready w = true → gd = false) →
  mode b gd (step hp e w).2.
Proof.
  intros Hmode Hth Hstart. destruct e; cbn [step].
  - apply (start_mode b); [done|]. by apply Hstart.
  - by apply reconnect_any.
  - unfold mbind, M_bind, get. destruct (worker_idle w) eqn:Ei; [|done].
    apply worker_idle_spec in Ei.
    assert (E : (pause w).1 = Ok ()).
    { unfold pause, cancel_retry, drop_consumers. monad_simpl. cbn.
      destruct (_retry_id w); cbn; by destruct (_consumers_active w). }
    destruct (pause w) as [r w'] eqn:Ep. cbn in E. subst r.
    replace w' with ((pause w).2) by by rewrite Ep.
    unfold on_sessions, close_all_begin, close_all_end. monad_simpl. cbn.
    by apply pause_mode.
  - by apply resume_mode.
  - by apply stop_mode.
  - unfold mbind at 1, M_bind at 1, get.
    destruct (find (λ t, t.1 =? id) (timers w)) as [[id' [d k]]|] eqn:Ef; [|done].
    apply (fire_mode w id (id', (d, k))); done.
  - unfold mbind, M_bind, get. destruct (completed w) as [|[j o] l] eqn:Ec; [done|].
    by apply deliver_mode.
  - by apply worker_mode.
  - unfold mbind at 1, M_bind at 1, get. destruct (signals w) as [|s l]; [done|].
    unfold mbind, M_bind, modify. unfold receive.
    apply handler_mode; [by apply (mode_ext w)|apply (t_closing _ Hth)|].
    destruct s; [apply removed_closes|apply owner_closes].
  - apply handler_mode; [done|apply (t_closing _ Hth)|apply report_closes].
  - by apply (mode_ext w).
  - by apply (mode_ext w).
  - by apply (mode_ext w).
  - by apply (mode_ext w).
Qed.

End modes.

(** *** The supervisor's methods leave the sessions and the worker alone *)

Definition view (w : World) := ((sessions w) <| _monitoring := false |>, running w, live w, signals w).

Definition same_view (w w' : World) : Prop := view w = view w'.
#[global] Instance same_view_preorder : PreOrder same_view.
Proof. unfold same_view. split; [done|]. intros ? ? ?. congruence. Qed.

Abbreviation frames := (keeps same_view).

Lemma connectivity_frames {A} (m : M Connectivity.Connectivity A) : frames (on_connectivity m).
Proof. intros w. unfold on_connectivity. by destruct (m (connectivity w)). Qed.
#[local] Hint Resolve connectivity_frames : keeps.

Ltac frame := keeps; try done.

Lemma cancel_retry_frames : frames cancel_retry.
Proof. unfold cancel_retry, _cancel. frame. Qed.
#[local] Hint Resolve cancel_retry_frames : keeps.
Lemma schedule_frames d t : frames (_schedule d t).
Proof. by intros w. Qed.
#[local] Hint Resolve schedule_frames : keeps.
Lemma schedule_retry_frames d : frames (_schedule_retry d).
Proof. unfold _schedule_retry. frame. Qed.
#[local] Hint Resolve schedule_retry_frames : keeps.
Lemma mark_ready_frames : frames _mark_ready.
Proof. unfold _mark_ready, emit. frame. Qed.
#[local] Hint Resolve mark_ready_frames : keeps.
Lemma begin_cycle_frames : frames _begin_attempt_cycle.
Proof. unfold _begin_attempt_cycle, emit. frame. Qed.
#[local] Hint Resolve begin_cycle_frames : keeps.
Lemma submit_frames j : frames (submit j).
Proof. intros w. unfold submit. monad_simpl. by destruct (refusal w). Qed.
#[local] Hint Resolve submit_frames : keeps.
Lemma open_frames : frames open.
Proof. unfold open, emit. frame. Qed.
#[local] Hint Resolve open_frames : keeps.
Lemma submit_close_frames g rr : frames (_submit_close g rr).
Proof. unfold _submit_close. frame. Qed.
#[local] Hint Resolve submit_close_frames : keeps.
Lemma drop_frames reason : frames (drop_consumers reason).
Proof. unfold drop_consumers, emit. frame. Qed.
#[local] Hint Resolve drop_frames : keeps.
Lemma reconnect_frames reason rr : frames (reconnect reason rr).
Proof. unfold reconnect, emit. frame. Qed.
#[local] Hint Resolve reconnect_frames : keeps.
Lemma start_frames : frames start.
Proof.
  unfold start, emit. frame.
Qed.
#[local] Hint Resolve start_frames : keeps.
Lemma pause_frames : frames pause.
Proof. unfold pause, emit. frame. Qed.
Lemma resume_frames : frames resume.
Proof. unfold resume. frame. Qed.
Lemma stop_frames : frames stop.
Proof. unfold stop. frame. Qed.
Lemma complete_frames b : frames (_complete_first_attempt b).
Proof. unfold _complete_first_attempt, emit. frame. Qed.
#[local] Hint Resolve pause_frames resume_frames stop_frames complete_frames : keeps.
Lemma deliver_frames hp j o : frames (deliver hp j o).
Proof.
  destruct j, o; cbn; unfold _close_failed, _closed, _opened, _open_failed, emit; frame.
Qed.
Lemma fire_frames t : frames (fire t).
Proof. destruct t; cbn; unfold _retry, retry_close; frame. Qed.
Lemma notify_frames n : frames (notify_lost n).
Proof. destruct n; cbn; unfold session_lost; frame. Qed.
#[local] Hint Resolve deliver_frames fire_frames notify_frames : keeps.

Lemma threads_same w w' : same_view w w' → threads_ok w → threads_ok w'.
Proof.
  unfold same_view, view. destruct w, w'. cbn. intros [= Em Ep Ec Er Ex -> -> ->] [? ? Hpub ? ?].
  split; cbn in *; rewrite <- ?Ec, <- ?Er, <- ?Ex; try done.
  intros [] p; cbn; rewrite <- ?Em, <- ?Ep; [apply (Hpub MAP)|apply (Hpub PBAP)].
Qed.

Lemma known_more w w' p :
  (p ∈ live w → known w' p) → (∀ s, s ∈ signals w → s ∈ signals w') → known w p → known w' p.
Proof. intros Hl Hs [?|[?|?]]; [auto|right; left; auto|right; right; auto]. Qed.

Lemma threads_intro w j ph s' l :
  running w = Some (j, Opening ph) → threads_ok w →
  (ObexSessions._closing s' = ObexSessions._closing (sessions w)) →
  (∀ t p, getattr t s' = Some p → getattr t (sessions w) = Some p ∨ known w p) →
  live w ⊆ l →
  (∀ ph', ph' ≠ OpenBegin → is_Some (_removed_while_opening s') →
     (∀ t p fs, ph' = OpenPublish t p fs → p ∈ l) →
     threads_ok (w <| sessions := s' |> <| running := Some (j, Opening ph') |> <| live := l |>)) ∧
  (∀ o, threads_ok (w <| sessions := s' |> <| running := None |> <| completed := o |> <| live := l |>)).
Proof.
  intros Er [Hcl Hph Hpub Hcr Hrec] Hc Hp Hl. rewrite Er in *.
  assert (Hnc : ObexSessions._closing s' = false).
  { rewrite Hc. destruct (ObexSessions._closing (sessions w)); [|done].
    destruct (Hcl eq_refl) as [? [=]]. }
  assert (Hk : ∀ t p w', live w' = l → signals w' = signals w → getattr t s' = Some p → known w' p).
  { intros t p w' El Es Ht. apply (known_more w); [intros; left; rewrite El; by apply Hl|by rewrite Es|].
    destruct (Hp t p Ht); [by eapply Hpub|done]. }
  split.
  - intros ph' Hne Hr Hpu. split; cbn; [by rewrite Hnc|by destruct j| | |].
    + intros t p Ht. by eapply Hk.
    + intros j' t p fs [= -> ->]. left. left. by eapply Hpu.
    + by intros ? ? [= -> ->].
  - intros o. split; cbn; [by rewrite Hnc|done| |done|done]. intros t p Ht. by eapply Hk.
Qed.

Lemma worker_threads w first again failure :
  threads_ok w → threads_ok (worker_step first again failure w).2.
Proof.
  intros Hth. unfold worker_step. monad_simpl. destruct (running w) as [[j ph]|] eqn:Er.
  - destruct ph as [ph| |].
    + pose proof (λ s' l, threads_intro w j ph s' l Er Hth) as Hi.
      pose proof (t_recording _ Hth j ph Er) as Hrec. pose proof (t_created _ Hth j) as Hcr.
      rewrite Er in Hcr.
      unfold on_sessions. destruct ph as [|t fs|t p fs|fs]; unfold open_all_step, start_monitoring;
        monad_simpl; cbn.
      * destruct (is_some (map (sessions w)) && is_some (pbap (sessions w))); cbn.
        -- destruct (Hi ((sessions w) <| _monitoring := true |>) (live w)) as [_ Hd];
             [done|intros []; by left|done|apply Hd].
        -- destruct (Hi ((sessions w) <| _monitoring := true |> <| _removed_while_opening := Some ∅ |>
             <| _obexd_exited_while_opening := false |>) (live w)) as [Hi' _];
             [done|intros []; by left|done|]. by apply Hi'; [|eexists|].
      * destruct (is_some (getattr t (sessions w))); cbn;
          [|destruct (_create_session t first again) as [p|e]; cbn].
        -- destruct (Hi (sessions w) (live w)) as [Hi' _]; [done|by left|done|].
           destruct t; apply Hi'; try done; by apply Hrec.
        -- destruct (Hi (sessions w) ({[p]} ∪ live w)) as [Hi' _]; [done|by left|set_solver|].
           apply Hi'; [done|by apply Hrec|]. intros ? ? ? [= -> -> ->]. set_solver.
        -- destruct (Hi (sessions w) (live w)) as [Hi' _]; [done|by left|done|].
           destruct t; apply Hi'; try done; by apply Hrec.
      * unfold _publish. monad_simpl. cbn.
        destruct (_obexd_exited_while_opening (sessions w)) eqn:Ex; cbn;
          [|case_bool_decide as Hin; cbn].
        -- destruct (Hi (sessions w) (live w)) as [Hi' _]; [done|by left|done|].
           destruct t; apply Hi'; try done; by apply Hrec.
        -- destruct (Hi (sessions w) (live w)) as [Hi' _]; [done|by left|done|].
           destruct t; apply Hi'; try done; by apply Hrec.
        -- destruct (Hi (setattr t (Some p) (sessions w)) (live w)) as [Hi' _];
             [by destruct t| |done|].
           { intros t' p' Ht'. destruct (decide (t' = t)) as [->|Hne].
             - right. assert (p' = p) as -> by (destruct t; by injection Ht' as <-).
               destruct (Hcr t p fs eq_refl) as [?|[?|?]]; [done..|congruence|done].
             - left. by destruct t, t'. }
           destruct t; apply Hi'; try done; by apply Hrec.
      * destruct (Hi ((sessions w) <| _removed_while_opening := None |>
          <| _obexd_exited_while_opening := false |>) (live w)) as [_ Hd];
          [done|intros []; by left|done|apply Hd].
    + destruct Hth as [Hcl Hph Hpub Hcr Hrec]. rewrite Er in *. cbn.
      split; cbn; [by eexists|by destruct j| |done|done]. intros [] p; apply Hpub || apply (Hpub MAP) || apply (Hpub PBAP).
    + destruct Hth as [Hcl Hph Hpub Hcr Hrec]. rewrite Er in *. cbn.
      split; cbn; try done. by intros [] p.
  - destruct Hth as [Hcl Hph Hpub Hcr Hrec]. rewrite Er in *.
    assert (Hnc : ObexSessions._closing (sessions w) = false).
    { destruct (ObexSessions._closing (sessions w)); [|done]. destruct (Hcl eq_refl) as [? [=]]. }
    destruct (queue w) as [|j q]; cbn; split; cbn; rewrite ?Hnc, ?Er; try done.
    all: try (by destruct j). all: intros ? ? ? ?; destruct j; cbn in *; try done; congruence.
Qed.

(** What a loss handler does to the thread invariant, [w] being the world
    with the signal already taken off the queue: the sessions it leaves open
    were open, and it only adds to what the worker will check. *)
Lemma handler_threads w w0 (m : M SessionManager notification) s' n :
  m (sessions w) = (Ok n, s') →
  threads_ok w0 → sessions w0 = sessions w → running w0 = running w → live w0 = live w →
  ObexSessions._closing s' = ObexSessions._closing (sessions w) →
  (is_Some (_removed_while_opening (sessions w)) → is_Some (_removed_while_opening s')) →
  (∀ t p, getattr t s' = Some p → getattr t (sessions w) = Some p ∧ (known w0 p → known w p)) →
  (∀ p, is_Some (_removed_while_opening (sessions w)) →
     known w0 p ∨ _obexd_exited_while_opening (sessions w) = true ∨
       p ∈ default ∅ (_removed_while_opening (sessions w)) →
     known w p ∨ _obexd_exited_while_opening s' = true ∨ p ∈ default ∅ (_removed_while_opening s')) →
  threads_ok ((n ← on_sessions m; notify_lost n) w).2.
Proof.
  intros Em [Hcl Hph Hpub Hcr Hrec] Es Er El Hc Hr Hp Hx. rewrite Es, Er in *.
  unfold on_sessions. monad_simpl. rewrite Em. cbn.
  eapply threads_same; [apply notify_frames|]. split; cbn; [by rewrite Hc|done| | |].
  - intros t p Ht. destruct (Hp t p Ht) as [Ht' Hk]. apply Hk. by eapply Hpub.
  - intros j t p fs Ej. apply Hx; [by eapply Hrec|by eapply Hcr].
  - intros j ph Ej Hne. apply Hr. by eapply Hrec.
Qed.

Lemma removed_spec p s : ∃ n,
  _on_interfaces_removed p s = (Ok n, s
    <| _removed_while_opening ::= fmap (λ r, {[p]} ∪ r) |>
    <| map := if bool_decide (map s = Some p) then None else map s |>
    <| pbap := if bool_decide (pbap s = Some p) then None else pbap s |>).
Proof.
  unfold _on_interfaces_removed. monad_simpl. cbn.
  destruct (bool_decide (map s = Some p)), (bool_decide (pbap s = Some p)); cbn;
    destruct (ObexSessions._closing s); by eexists.
Qed.

Lemma owner_gone_spec s : ∃ n,
  _on_name_owner_changed ":1.1" "" s = (Ok n, s
    <| _obexd_exited_while_opening := _obexd_exited_while_opening s
         || is_some (_removed_while_opening s) |>
    <| map := None |> <| pbap := None |>).
Proof.
  unfold _on_name_owner_changed.
  rewrite bool_decide_eq_false_2, (bool_decide_eq_true_2 ("" = "")) by done. monad_simpl. cbn.
  destruct ((is_some (map s) || is_some (pbap s)) && negb (ObexSessions._closing s)); by eexists.
Qed.

Lemma known_tail w s l p : signals w = s :: l → s ≠ Removed p → s ≠ OwnerGone →
  known w p → known (w <| signals := l |>) p.
Proof. intros Es H1 H2. unfold known. rewrite Es. cbn. set_solver. Qed.

Lemma receive_threads w s l :
  signals w = s :: l → threads_ok w → threads_ok (receive s (w <| signals := l |>)).2.
Proof.
  intros Es Hth. unfold receive. destruct s as [p|].
  - destruct (removed_spec p (sessions w)) as (n & E).
    eapply (handler_threads (w <| signals := l |>) w); [exact E|done..| | | |]; cbn.
    + done.
    + intros [r ->]. by eexists.
    + clear E. intros [] q; cbn; case_bool_decide as Hq; intros Hq'; try discriminate Hq';
        (split; [exact Hq'|]); apply (known_tail w (Removed p)); congruence.
    + intros q [r Hr]. rewrite Hr. cbn. destruct (decide (q = p)) as [->|Hne]; [set_solver|].
      intros [Hk|[?|?]]; [left|by right; left|right; right; set_solver].
      eapply known_tail; [exact Es|congruence|done|done].
  - destruct (owner_gone_spec (sessions w)) as (n & E).
    eapply (handler_threads (w <| signals := l |>) w); [exact E|done..| | | |]; cbn.
    + done.
    + done.
    + by intros [] q.
    + intros q [r Hr]. rewrite Hr. cbn. rewrite orb_true_r. naive_solver.
Qed.

Lemma report_threads w text : threads_ok w →
  threads_ok ((n ← on_sessions (report_error text); notify_lost n) w).2.
Proof.
  intros Hth. unfold report_error.
  destruct (_ || _); eapply (handler_threads w w); try done; cbn; try done; by intros [].
Qed.

Lemma step_threads hp e w : threads_ok w → threads_ok (step hp e w).2.
Proof.
  intros Hth. destruct e; cbn [step].
  - eapply threads_same; [apply start_frames|done].
  - eapply threads_same; [apply reconnect_frames|done].
  - unfold mbind at 1, M_bind at 1, get. destruct (worker_idle w) eqn:Ei; [|done].
    apply worker_idle_spec in Ei as (_ & Hr & _).
    pose proof (pause_frames w) as Hv. pose proof (threads_same _ _ Hv Hth) as Hth'.
    assert (Hr' : running (pause w).2 = None).
    { unfold same_view, view in Hv. congruence. }
    unfold mbind, M_bind. destruct (pause w) as [[[]|e] w']; cbn in Hth', Hr' |- *; [|done].
    split; cbn; rewrite ?Hr'; try done. by intros [].
  - eapply threads_same; [apply resume_frames|done].
  - eapply threads_same; [apply stop_frames|done].
  - unfold mbind at 1, M_bind at 1, get.
    destruct (find (λ t, t.1 =? id) (timers w)) as [[id' [d k]]|] eqn:Ef; [|done].
    eapply threads_same; [|exact Hth]. assert (frames (_cancel id;; fire k)) as H; [|apply H].
    unfold _cancel. frame.
  - unfold mbind, M_bind, get. destruct (completed w) as [|[j o] l] eqn:Ec; [done|].
    eapply threads_same; [|exact Hth]. cbn. etrans; [|apply deliver_frames]. done.
  - by apply worker_threads.
  - unfold mbind at 1, M_bind at 1, get. destruct (signals w) as [|s l] eqn:Es; [done|].
    unfold mbind, M_bind, modify. by apply receive_threads.
  - by apply report_threads.
  - assert (Hk : ∀ q, known w q →
      known (w <| live ::= λ l, l ∖ {[p]} |> <| signals ::= λ l, l ++ [Removed p] |>) q).
    { unfold known. cbn. intros q. destruct (decide (q = p)) as [->|]; set_solver. }
    destruct Hth as [Hcl Hph Hpub Hcr Hrec]. split; cbn; try done.
    + intros t q Hq. by eapply Hk, Hpub.
    + intros j t q fs Hq. destruct (Hcr _ _ _ _ Hq) as [?|?]; [left; by apply Hk|by right].
  - assert (Hk : ∀ q, known (w <| live := ∅ |> <| signals ::= λ l, l ++ [OwnerGone] |>) q).
    { unfold known. cbn. set_solver. }
    destruct Hth as [Hcl Hph Hpub Hcr Hrec]. split; cbn; try done.
    intros j t q fs Hq. left. apply Hk.
  - by eapply threads_same; [|exact Hth].
  - by eapply threads_same; [|exact Hth].
Qed.

(** *** The callbacks *)

(** The gate of outbound LE: closed by [on_attempt_pending], opened by
    [on_first_attempt_complete]. *)
Definition gate (b : bool) (e : effect) : bool :=
  match e with OnAttemptPending => false | OnFirstAttemptComplete => true | _ => b end.
Definition gate_open (l : list effect) : bool := foldl gate false l.

Definition consumer (b : bool) (e : effect) : bool :=
  match e with OnReady | OnPartialReady => true | OnLost _ => false | _ => b end.
Definition consumers_on (l : list effect) : bool := foldl consumer false l.

(** Consumers are told of a loss only when they run, and the first attempt of
    a cycle is reported at most once. *)
Definition log_ok (l : list effect) : Prop := ∀ p e q, l = p ++ e :: q →
  match e with
  | OnLost _ => consumers_on p = true
  | OnFirstAttemptComplete => gate_open p = false
  | _ => True
  end.

Record logged (w : World) : Prop := mkLogged {
  l_gate : _first_attempt_completed w = gate_open (log w);
  l_consumers : _consumers_active w = consumers_on (log w);
  l_ok : log_ok (log w);
}.

Lemma log_ok_snoc l e : log_ok l →
  match e with
  | OnLost _ => consumers_on l = true
  | OnFirstAttemptComplete => gate_open l = false
  | _ => True
  end → log_ok (l ++ [e]).
Proof.
  intros Hl He p e' q E. destruct q as [|e'' q _] using rev_ind.
  - apply app_inj_tail in E as [-> ->]. done.
  - change (p ++ e' :: q ++ [e'']) with (p ++ (e' :: q) ++ [e'']) in E.
    rewrite (assoc_L (++)) in E. apply app_inj_tail in E as [-> _]. by eapply Hl.
Qed.

Lemma gate_open_snoc l e : gate_open (l ++ [e]) = gate (gate_open l) e.
Proof. unfold gate_open. by rewrite foldl_app. Qed.
Lemma consumers_on_snoc l e : consumers_on (l ++ [e]) = consumer (consumers_on l) e.
Proof. unfold consumers_on. by rewrite foldl_app. Qed.

(** Until [stop], which drops the consumers without a callback. *)
Definition keeps_log (w w' : World) : Prop :=
  _stopping w' = false → _stopping w = false ∧ (logged w → logged w').
#[global] Instance keeps_log_preorder : PreOrder keeps_log.
Proof. unfold keeps_log. split; red; naive_solver. Qed.

Ltac keep_log := keeps; try (intros ?; split; [done|]; intros []; split; cbn; done).

Lemma connectivity_log {A} (m : M Connectivity.Connectivity A) : keeps keeps_log (on_connectivity m).
Proof. intros w. unfold on_connectivity. destruct (m (connectivity w)). split; [done|]. by intros []. Qed.
Lemma sessions_log {A} (m : M SessionManager A) : keeps keeps_log (on_sessions m).
Proof. intros w. unfold on_sessions. destruct (m (sessions w)). split; [done|]. by intros []. Qed.

(** A change of the flags with the callback that goes with it. *)
Lemma emit_log f e :
  (∀ w, _stopping (f w) = _stopping w ∧ log (f w) = log w) →
  (∀ w, logged w →
     _first_attempt_completed (f w) = gate (_first_attempt_completed w) e ∧
     _consumers_active (f w) = consumer (_consumers_active w) e) →
  ∀ w, match e with
       | OnLost _ => _consumers_active w = true
       | OnFirstAttemptComplete => _first_attempt_completed w = false
       | _ => True
       end → keeps_log w ((modify f;; emit e) w).2.
Proof.
  intros Hf Hg w He Hs. unfold mbind, M_bind, emit, modify in *. cbn in Hs |- *. destruct (Hf w) as [E1 E2]. rewrite E1 in Hs.
  split; [done|]. intros Hw. destruct (Hg w Hw) as [E3 E4]. destruct Hw as [H1 H2 H3].
  split; cbn; rewrite E2.
  - by rewrite gate_open_snoc, E3, H1.
  - by rewrite consumers_on_snoc, E4, H2.
  - apply log_ok_snoc; [done|]. destruct e; congruence.
Qed.

Lemma status_log : keeps keeps_log (emit OnStatus).
Proof. intros w. by apply (emit_log id). Qed.
Lemma schedule_log d t : keeps keeps_log (_schedule d t).
Proof. intros w. split; [done|]. by intros []. Qed.
Lemma submit_log j : keeps keeps_log (submit j).
Proof. intros w. unfold submit. monad_simpl. by destruct (refusal w); (split; [done|]); intros []. Qed.
#[local] Hint Resolve connectivity_log sessions_log status_log schedule_log submit_log : keeps.
Lemma cancel_retry_log : keeps keeps_log cancel_retry.
Proof. unfold cancel_retry, _cancel. keep_log. Qed.
#[local] Hint Resolve cancel_retry_log : keeps.
Lemma schedule_retry_log d : keeps keeps_log (_schedule_retry d).
Proof. unfold _schedule_retry. keep_log. Qed.
Lemma submit_close_log g rr : keeps keeps_log (_submit_close g rr).
Proof. unfold _submit_close. keep_log. Qed.

Lemma begin_cycle_log : keeps keeps_log _begin_attempt_cycle.
Proof.
  intros w. unfold _begin_attempt_cycle. unfold mbind at 1, M_bind at 1, get.
  destruct (negb (_first_attempt_completed w) && _opening w); [reflexivity|]. by apply emit_log.
Qed.
Lemma complete_log b : keeps keeps_log (_complete_first_attempt b).
Proof.
  intros w. unfold _complete_first_attempt. unfold mbind at 1, M_bind at 1, get.
  destruct (_first_attempt_completed w) eqn:Ef; [reflexivity|].
  destruct (negb b && _); [reflexivity|]. by apply emit_log.
Qed.
Lemma drop_log reason : keeps keeps_log (drop_consumers reason).
Proof.
  intros w. unfold drop_consumers. unfold mbind at 1, M_bind at 1, get.
  destruct (_consumers_active w) eqn:Ea; [|reflexivity]. by apply emit_log.
Qed.
Lemma partial_log : keeps keeps_log
  (modify (λ w : World, w <| _consumers_active := true |>);; emit OnPartialReady).
Proof. intros w. by apply emit_log. Qed.
Lemma ready_log : keeps keeps_log (modify (λ w : World,
  w <| _ready := true |> <| _consumers_active := true |>);; emit OnReady).
Proof. intros w. by apply emit_log. Qed.
#[local] Hint Resolve schedule_retry_log submit_close_log begin_cycle_log complete_log drop_log
  partial_log ready_log : keeps.

Lemma mark_ready_log : keeps keeps_log _mark_ready.
Proof. unfold _mark_ready. keep_log. Qed.
#[local] Hint Resolve mark_ready_log : keeps.
Lemma open_log : keeps keeps_log open.
Proof. unfold open. keep_log. Qed.
Lemma reconnect_log reason rr : keeps keeps_log (reconnect reason rr).
Proof. unfold reconnect. keep_log. Qed.
#[local] Hint Resolve open_log reconnect_log : keeps.
Lemma deliver_log hp j o : keeps keeps_log (deliver hp j o).
Proof. destruct j, o; cbn; unfold _close_failed, _closed, _opened, _open_failed; keep_log. Qed.
Lemma fire_log t : keeps keeps_log (fire t).
Proof. destruct t; cbn; unfold _retry, retry_close; keep_log. Qed.
Lemma notify_log n : keeps keeps_log (notify_lost n).
Proof. destruct n; cbn; unfold session_lost; keep_log. Qed.
#[local] Hint Resolve deliver_log fire_log notify_log : keeps.

Lemma worker_log first again failure : keeps keeps_log (worker_step first again failure).
Proof. unfold worker_step. keep_log. Qed.

#[local] Hint Resolve worker_log : keeps.

Lemma start_log : keeps keeps_log start.
Proof. unfold start. keep_log. Qed.
Lemma pause_log : keeps keeps_log pause.
Proof. unfold pause. keep_log. Qed.
Lemma resume_log : keeps keeps_log resume.
Proof. unfold resume. keep_log. Qed.
Lemma stop_log : keeps keeps_log stop.
Proof. unfold stop. keeps. by intros ?. Qed.
Lemma receive_log s : keeps keeps_log (receive s).
Proof. unfold receive. keep_log. Qed.
Lemma cancel_log id : keeps keeps_log (_cancel id).
Proof. unfold _cancel. keep_log. Qed.
#[local] Hint Resolve start_log pause_log resume_log stop_log receive_log cancel_log : keeps.

Lemma step_log hp e : keeps keeps_log (step hp e).
Proof. destruct e; cbn [step]; keep_log. Qed.

(** ** Reachable worlds *)

Definition starts (e : event) : bool := if e is EStart then true else false.

Lemma init_mode policy gd : mode false gd (World_init policy).
Proof. by apply Waiting; [by_flags|..]. Qed.

Lemma init_threads policy : threads_ok (World_init policy).
Proof. split; cbn; try done. by intros []. Qed.

Lemma run_threads hp es w : threads_ok w → threads_ok (run hp es w).
Proof.
  unfold run. revert w. induction es as [|e es IH]; intros w Hw; cbn; [done|].
  by apply IH, step_threads.
Qed.

Lemma run_mode b hp es w :
  threads_ok w → mode b false w → mode b false (run hp es w).
Proof.
  unfold run. revert w. induction es as [|e es IH]; intros w Hw Hm; cbn; [done|].
  apply IH; [by apply step_threads|by apply step_mode].
Qed.

(** Without a further [start], readiness keeps meaning an open gate. *)
Lemma run_gated b gd hp es w :
  existsb starts es = false → threads_ok w → mode b gd w → mode b gd (run hp es w).
Proof.
  unfold run. revert w. induction es as [|e es IH]; intros w Hes Hw Hm; cbn; [done|].
  cbn in Hes. apply orb_false_iff in Hes as [He Hes].
  apply IH; [done|by apply step_threads|]. apply step_mode; [done..|]. by intros ->.
Qed.

Lemma mode_gate b gd gd' w : mode b gd w → _ready w = false → mode b gd' w.
Proof.
  intros [Hf Ht|Hf Ht Hi|Hf Hc|Hf Ht Ho|Hf Ht Hi Hb Ha Hg|Hf Ht Hi Hb Hs] Hr;
    [by apply Stopped|by apply Paused|by apply Closing|by apply OpeningSessions| |by apply Waiting].
  rewrite (f_ready _ _ _ _ _ _ Hf) in Hr. done.
Qed.

Lemma run_app hp es1 es2 w : run hp (es1 ++ es2) w = run hp es2 (run hp es1 w).
Proof. unfold run. by rewrite fmap_app, run_all_app. Qed.

Lemma run_logged hp es w : logged w → _stopping (run hp es w) = false → logged (run hp es w).
Proof.
  intros Hw Hs. assert (H : keeps_log w (run hp es w)); [|by apply H].
  unfold run. apply (keeps_run_all keeps_log). apply Forall_forall. intros m (e & -> & _)%list_elem_of_fmap.
  apply step_log.
Qed.

(** A job of the current generation. *)
Definition current (w : World) (j : job) : Prop :=
  match j with JOpen g | JClose g _ => g = _generation w end.

(** C6: the profile connection never gets stuck.  After [start], whatever
    order the worker's completions, timers, obexd's signals, losses, refusals
    of a full worker, pauses and resumes come in: unless the daemon is
    stopping or the supervisor is paused, either both sessions are open and
    ready, or a job of the current generation is with the worker, or exactly
    one timer is pending, the one the supervisor knows.  It is never both
    opening and closing. *)
Theorem profiles_never_stall hp policy es1 es2 :
  let w := run hp (es1 ++ EStart :: es2) (World_init policy) in
  _opening w && _closing w = false ∧
  (_stopping w = false → _paused w = false →
   (_ready w = true ∧ both_open w = true) ∨
   (∃ j, j ∈ pipeline w ∧ current w j) ∨
   (∃ id t, _retry_id w = Some id ∧ timers w = [(id, t)])).
Proof.
  cbv zeta. rewrite run_app. change (run hp (EStart :: es2) ?w) with (run hp es2 (start w).2).
  set (w0 := run hp es1 (World_init policy)).
  assert (Ht0 : threads_ok w0) by (apply run_threads, init_threads).
  assert (Hm0 : mode false false w0) by (apply run_mode; [apply init_threads|apply init_mode]).
  assert (Hm : mode true false (run hp es2 (start w0).2)).
  { apply run_mode; [by eapply threads_same; [apply start_frames|]|by eapply start_mode]. }
  destruct Hm as [Hf Ht|Hf Ht Hi|Hf (old & rr & _ & Hc)|Hf Ht Ho|Hf Ht Hi Hb Ha Hg|Hf Ht Hi Hb Hs];
    destruct Hf as [Hst Hpa Hop Hcl Hre]; rewrite Hst, Hop, Hcl; (split; [done|]);
    intros Hs' Hp; try congruence; try (rewrite Hpa in Hp by done; congruence).
  - destruct Hc as [(E & _)|(E & id & d & E1 & E2)].
    + right. left. rewrite E. eexists. split; [apply elem_of_app; right; by left|done].
    + right. right. by eauto.
  - right. left. exists (JOpen (_generation (run hp es2 (start w0).2))). split; [|done].
    destruct Ho as [E1 E2 E3|ph E1 E2 E3 _|o E1 E2 E3 _]; unfold pipeline; rewrite E1, E2, E3; cbn; by left.
  - by left.
  - right. right. destruct (Hs eq_refl) as [id E]. unfold retry_timer in Ht. rewrite E in Ht.
    destruct Ht as [d Ht]. by eauto.
Qed.

(** C7: no dead session is trusted.  The worker opens sessions while obexd's
    removal signals race with it on the main loop; still, whenever the
    supervisor is ready, both sessions are open, and each is a session obexd
    has, or whose removal (or obexd's exit) the main loop has not seen yet. *)
Theorem ready_sessions_live hp policy es t :
  let w := run hp es (World_init policy) in
  _ready w = true →
  ∃ p, getattr t (sessions w) = Some p ∧ known w p.
Proof.
  intros w Hr.
  assert (Hth : threads_ok w) by (apply run_threads, init_threads).
  assert (Hm : mode false false w) by (apply run_mode; [apply init_threads|apply init_mode]).
  destruct Hm as [Hf|Hf|Hf|Hf|Hf Ht Hi Hb Ha Hg|Hf]; try (rewrite (f_ready _ _ _ _ _ _ Hf) in Hr; done).
  unfold both_open in Hb. apply andb_true_iff in Hb as [Hm Hp].
  assert (E : ∃ p, getattr t (sessions w) = Some p).
  { destruct t; cbn; [destruct (map (sessions w))|destruct (pbap (sessions w))]; by eauto. }
  destruct E as [p E]. exists p. split; [done|]. by eapply t_published.
Qed.

(** The callbacks are paired.  Until [stop], consumers are told of a loss
    only while they run, and run exactly when the last word was a readiness
    callback; the first attempt of a cycle is reported at most once per
    announced cycle; and if [start] is called once, before the sessions are
    ready, a ready supervisor has always reported its first attempt, so that
    outbound LE is not left held. *)
Theorem callbacks_paired hp policy es1 es2 :
  existsb starts es2 = false → _ready (run hp es1 (World_init policy)) = false →
  let w := run hp (es1 ++ EStart :: es2) (World_init policy) in
  _stopping w = false →
  log_ok (log w) ∧
  _consumers_active w = consumers_on (log w) ∧
  (_ready w = true → consumers_on (log w) = true ∧ gate_open (log w) = true).
Proof.
  intros Hes Hr1 w Hst.
  assert (Hl : logged w) by (apply run_logged; [by split; cbn; [..|intros [] ? ?]|done]).
  split_and!; [apply Hl|apply Hl|]. intros Hr.
  assert (Hm : mode true true w).
  { unfold w. rewrite run_app.
    change (run hp (EStart :: es2) ?w) with (run hp es2 (start w).2).
    assert (Ht0 : threads_ok (run hp es1 (World_init policy))) by apply run_threads, init_threads.
    apply run_gated; [done|by eapply threads_same; [apply start_frames|]|].
    eapply (start_mode true true false); [|congruence]. apply (mode_gate false false); [|done].
    apply run_mode; [apply init_threads|apply init_mode]. }
  destruct Hm as [Hf|Hf|Hf|Hf|Hf Ht Hi Hb Ha Hg|Hf];
    try (rewrite (f_ready _ _ _ _ _ _ Hf) in Hr; done).
  split; [by rewrite <- (l_consumers _ Hl)|by rewrite <- (l_gate _ Hl), Hg].
Qed.

(** A run in which both sessions open. *)
Definition opening_run : list event :=
  let nothing := OtherError "" in
  EStart :: ((λ r, EWorker r nothing None) <$>
    [nothing; nothing; Created "/client/session0"; nothing;
     DBusError "org.bluez.obex.Error.Failed" "Forbidden"; nothing; nothing]) ++
  [EDeliver; ETimer 0] ++
  ((λ r, EWorker r nothing None) <$>
    [nothing; nothing; nothing; Created "/client/session1"; nothing; nothing]) ++ [EDeliver].

Lemma profiles_never_stall_witness :
  let w := run true ([] ++ EStart :: [EWorker (OtherError "") (OtherError "") None])
    (World_init Connectivity.RetryPolicy_default) in
  (_ready w = true ∧ both_open w = true) ∨ (∃ j, j ∈ pipeline w ∧ current w j) ∨
  (∃ id t, _retry_id w = Some id ∧ timers w = [(id, t)]).
Proof.
  refine (proj2 (profiles_never_stall true Connectivity.RetryPolicy_default []
    [EWorker (OtherError "") (OtherError "") None]) _ _); by vm_compute.
Defined.

Lemma ready_sessions_live_witness :
  let w := run true opening_run (World_init Connectivity.RetryPolicy_default) in
  ∃ p, getattr PBAP (sessions w) = Some p ∧ known w p.
Proof.
  apply (ready_sessions_live true Connectivity.RetryPolicy_default opening_run PBAP). by vm_compute.
Defined.

Lemma callbacks_paired_witness :
  let w := run true ([] ++ opening_run) (World_init Connectivity.RetryPolicy_default) in
  log_ok (log w) ∧ _consumers_active w = consumers_on (log w) ∧
  (_ready w = true → consumers_on (log w) = true ∧ gate_open (log w) = true).
Proof.
  refine (callbacks_paired true Connectivity.RetryPolicy_default [] (tail opening_run) _ _ _);
    by vm_compute.
Defined.
