(* ===== verification/Text.v ===== *)
(** * Text: line splitting, stripping and case mapping of [str].

    [str.splitlines], [str.strip] and its variants with a character set,
    [str.partition], [str.split] with a one-character separator, and the
    Unicode case mappings.  The case tables of the interpreter are an interface
    ([CaseMapping]): the two mappings work character by character, agree with
    ASCII on ASCII, and no character outside ASCII folds to a text that starts
    with a letter of "end:". *)
From S2P Require Import Prelude PyStr.

(** ** Case mapping *)

Definition is_ascii (c : Z) : bool := (0 <=? c) && (c <? 128).
Definition upper_ascii (c : Z) : Z := if (97 <=? c) && (c <=? 122) then c - 32 else c.
Definition lower_ascii (c : Z) : Z := if (65 <=? c) && (c <=? 90) then c + 32 else c.

(** The full case mappings of one character.  [fold1_foreign] is a fact of the
    Unicode tables: what a character outside ASCII folds to is not empty, and
    if it starts in ASCII it starts with one of ten letters (the long and sharp
    s, the Kelvin sign, the ligatures of f and s, and the precomposed letters
    that fold to a base letter and a combining mark: i with a dot, j with a
    caron, h, t, w, y and a of U+1E96 to U+1E9A). *)
Class CaseMapping := {
  upper1 : Z → ustr;
  fold1 : Z → ustr;
  upper1_ascii : ∀ c, is_ascii c = true → upper1 c = [upper_ascii c];
  fold1_ascii : ∀ c, is_ascii c = true → fold1 c = [lower_ascii c];
  fold1_foreign : ∀ c, is_ascii c = false →
    match fold1 c with
    | [] => False
    | x :: l => is_ascii x = true → x ∈ lit "skfijhtwya"
    end;
}.

(** The mapping that leaves everything outside ASCII alone. *)
#[global] Instance ascii_case_mapping : CaseMapping.
Proof.
  refine {| upper1 := λ c, [upper_ascii c]; fold1 := λ c, [lower_ascii c] |}; [done..|].
  intros c Hc Hx. exfalso. unfold is_ascii, lower_ascii in *.
  destruct ((65 <=? c) && (c <=? 90)) eqn:E; lia.
Defined.

Section case.
Context `{CaseMapping}.
Definition upper (s : ustr) : ustr := concat (upper1 <$> s).
Definition str_casefold (s : ustr) : ustr := concat (fold1 <$> s).

Lemma upper_app s t : upper (s ++ t) = upper s ++ upper t.
Proof. unfold upper. by rewrite fmap_app, concat_app. Qed.
Lemma str_casefold_app s t : str_casefold (s ++ t) = str_casefold s ++ str_casefold t.
Proof. unfold str_casefold. by rewrite fmap_app, concat_app. Qed.

Definition ascii (s : ustr) : Prop := Forall (λ c, is_ascii c = true) s.

Lemma upper_ascii_text s : ascii s → upper s = upper_ascii <$> s.
Proof.
  unfold upper. induction 1 as [|c s Hc _ IH]; cbn; [done|].
  rewrite upper1_ascii by done. cbn. by f_equal.
Qed.
Lemma casefold_ascii_text s : ascii s → str_casefold s = lower_ascii <$> s.
Proof.
  unfold str_casefold. induction 1 as [|c s Hc _ IH]; cbn; [done|].
  rewrite fold1_ascii by done. cbn. by f_equal.
Qed.
End case.

(** ** Prefixes and separators *)

(** [s.startswith(p)]. *)
Definition startswith (p s : ustr) : bool := bool_decide (take (length p) s = p).

Lemma startswith_app p s : startswith p (p ++ s) = true.
Proof. apply bool_decide_eq_true. by rewrite take_app_length. Qed.
Lemma startswith_spec p s : startswith p s = true ↔ ∃ t, s = p ++ t.
Proof.
  unfold startswith. rewrite bool_decide_eq_true. split.
  - intros E. exists (drop (length p) s). rewrite <- E at 1. by rewrite take_drop.
  - intros [t ->]. by rewrite take_app_length.
Qed.

(** [s.partition(sep)] for a one-character separator: the text before it and,
    when it occurs, the text after it. *)
Fixpoint partition (sep : Z) (s : ustr) : ustr * option ustr :=
  match s with
  | [] => ([], None)
  | c :: s' =>
      if c =? sep then ([], Some s')
      else let '(a, b) := partition sep s' in (c :: a, b)
  end.

(** [s.split(sep)] for a one-character separator. *)
Fixpoint split_on_aux (sep : Z) (cur : ustr) (s : ustr) : list ustr :=
  match s with
  | [] => [reverse cur]
  | c :: s' => if c =? sep then reverse cur :: split_on_aux sep [] s'
               else split_on_aux sep (c :: cur) s'
  end.
Definition split_on (sep : Z) (s : ustr) : list ustr := split_on_aux sep [] s.

(** ** Stripping *)

(** [s.lstrip(chars)], [s.rstrip(chars)] and [s.strip(chars)], for a character
    class; [is_space] is the default class. *)
Fixpoint lstrip_by (cls : Z → bool) (s : ustr) : ustr :=
  match s with [] => [] | c :: s' => if cls c then lstrip_by cls s' else s end.
Definition rstrip_by (cls : Z → bool) (s : ustr) : ustr := reverse (lstrip_by cls (reverse s)).
Definition strip_by (cls : Z → bool) (s : ustr) : ustr := rstrip_by cls (lstrip_by cls s).
Abbreviation strip := (strip_by is_space).

Lemma lstrip_by_id cls c s : cls c = false → lstrip_by cls (c :: s) = c :: s.
Proof. cbn. by intros ->. Qed.
Lemma rstrip_by_id cls s c : cls c = false → rstrip_by cls (s ++ [c]) = s ++ [c].
Proof.
  intros Hc. unfold rstrip_by. rewrite reverse_snoc, lstrip_by_id by done.
  by rewrite reverse_cons, reverse_involutive.
Qed.
Lemma lstrip_by_all cls p s : Forall (λ c, cls c = true) p → lstrip_by cls (p ++ s) = lstrip_by cls s.
Proof. induction 1 as [|c p Hc _ IH]; cbn; [done|]. by rewrite Hc. Qed.
Lemma rstrip_by_all cls s p : Forall (λ c, cls c = true) p → rstrip_by cls (s ++ p) = rstrip_by cls s.
Proof.
  intros Hp. unfold rstrip_by. rewrite reverse_app, lstrip_by_all; [done|]. by apply Forall_reverse.
Qed.
Lemma lstrip_by_sub cls s : ∃ p, s = p ++ lstrip_by cls s ∧ Forall (λ c, cls c = true) p.
Proof.
  induction s as [|c s IH]; cbn; [by exists []|]. destruct (cls c) eqn:E; [|by exists []].
  destruct IH as (p & Hp & Hf). exists (c :: p). split; [cbn; by f_equal|by constructor].
Qed.
Lemma rstrip_by_sub cls s : ∃ p, s = rstrip_by cls s ++ p ∧ Forall (λ c, cls c = true) p.
Proof.
  unfold rstrip_by. destruct (lstrip_by_sub cls (reverse s)) as (p & Hp & Hf).
  exists (reverse p). rewrite <- reverse_app, <- Hp, reverse_involutive. split; [done|].
  by apply Forall_reverse.
Qed.
(** Stripping keeps what holds of every character. *)
Lemma Forall_strip_by cls (P : Z → Prop) s : Forall P s → Forall P (strip_by cls s).
Proof.
  intros Hs. unfold strip_by.
  destruct (lstrip_by_sub cls s) as (p & E & _), (rstrip_by_sub cls (lstrip_by cls s)) as (q & E' & _).
  rewrite E in Hs. apply Forall_app in Hs as [_ Hs]. rewrite E' in Hs. by apply Forall_app in Hs as [? _].
Qed.
(** A text without the class at either end is its own [strip]. *)
Lemma strip_by_id cls s :
  (∀ c, head s = Some c → cls c = false) → (∀ c, last s = Some c → cls c = false) →
  strip_by cls s = s.
Proof.
  intros Hh Hl. unfold strip_by. destruct s as [|c s]; [done|].
  rewrite lstrip_by_id by (by apply Hh). destruct (c :: s) as [|x l _] using rev_ind; [done|].
  apply rstrip_by_id. apply Hl. by rewrite last_snoc.
Qed.

(** ** Lines *)

(** The boundaries of [str.splitlines]. *)
Definition is_linebreak (c : Z) : bool :=
  ((10 <=? c) && (c <=? 13)) || ((28 <=? c) && (c <=? 30)) || (c =? 0x85)
  || (c =? 0x2028) || (c =? 0x2029).

(** The lines of a text with their line break, "\r\n" being one break; an
    unterminated last line has none. *)
Fixpoint lines_aux (cur : ustr) (s : ustr) : list (ustr * ustr) :=
  match s with
  | [] => match cur with [] => [] | _ => [(reverse cur, [])] end
  | c :: s' =>
      if is_linebreak c then
        match s' with
        | 10 :: s'' => if c =? 13 then (reverse cur, [13; 10]) :: lines_aux [] s''
                       else (reverse cur, [c]) :: lines_aux [] s'
        | _ => (reverse cur, [c]) :: lines_aux [] s'
        end
      else lines_aux (c :: cur) s'
  end.
Definition splitlines (s : ustr) : list ustr := (lines_aux [] s).*1.
Definition splitlines_keep (s : ustr) : list ustr := (λ l, l.1 ++ l.2) <$> lines_aux [] s.

Definition LF : Z := 10.
Definition CR : Z := 13.
Definition one_line (s : ustr) : Prop := Forall (λ c, is_linebreak c = false) s.

Lemma lines_aux_line cur l s :
  one_line l → lines_aux cur (l ++ s) = lines_aux (reverse l ++ cur) s.
Proof.
  intros Hl. revert cur. induction Hl as [|c l Hc _ IH]; intros cur; [done|].
  cbn [app lines_aux]. rewrite Hc, IH. by rewrite reverse_cons, <- (assoc_L (++)).
Qed.

Lemma length_ind {A} (P : list A → Prop) :
  (∀ l, (∀ l' : list A, (length l' < length l)%nat → P l') → P l) → ∀ l, P l.
Proof.
  intros H l. remember (length l) as n eqn:E. revert l E.
  induction n as [n IH] using lt_wf_ind. intros l ->. apply H. intros l' Hl. by apply (IH (length l')).
Qed.
(** Only the last line can lack a line break, and then it is not empty. *)
Lemma lines_aux_shape s : ∀ cur, ∃ init rest,
  lines_aux cur s = init ++ rest ∧ Forall (λ l : ustr * ustr, l.2 ≠ []) init ∧
  (rest = [] ∨ ∃ t, t ≠ [] ∧ rest = [(t, [])]).
Proof.
  induction s as [[|c s] IH] using length_ind; intros cur; cbn [lines_aux].
  { destruct cur as [|c cur]; [by exists [], []; eauto|]. exists [], [(reverse (c :: cur), [])].
    split_and!; [done..|]. right. eexists. split; [|done]. rewrite reverse_cons. by destruct (reverse cur). }
  assert (Hline : ∀ t b s', (length s' < length (c :: s))%nat → b ≠ [] → ∃ init rest,
    (t, b) :: lines_aux [] s' = init ++ rest ∧ Forall (λ l : ustr * ustr, l.2 ≠ []) init ∧
    (rest = [] ∨ ∃ t, t ≠ [] ∧ rest = [(t, [])])).
  { intros t b s' Hs Hb. destruct (IH s' Hs []) as (init & rest & -> & Hi & Hr).
    exists ((t, b) :: init), rest. split_and!; [done| |done]. by constructor. }
  destruct (is_linebreak c); [|apply IH; cbn; lia].
  destruct s as [|d s]; [by apply Hline; cbn; try lia|].
  destruct (decide (d = 10)) as [->|Hd].
  - destruct (c =? 13); apply Hline; cbn; try done; lia.
  - assert (match d with 10 => if c =? 13 then (reverse cur, [13; 10]) :: lines_aux [] s
        else (reverse cur, [c]) :: lines_aux [] (d :: s)
      | _ => (reverse cur, [c]) :: lines_aux [] (d :: s) end = (reverse cur, [c]) :: lines_aux [] (d :: s)) as ->.
    { repeat case_match; congruence. }
    apply Hline; [cbn; lia|done].
Qed.

(** What follows a "\n" is split on its own. *)
Lemma lines_aux_LF cur s : lines_aux cur (LF :: s) = (reverse cur, [LF]) :: lines_aux [] s.
Proof. destruct s as [|d s]; [done|]. unfold LF. cbn. by repeat case_match. Qed.

Lemma lines_aux_break p s : ∀ cur, lines_aux cur (p ++ LF :: s) = lines_aux cur (p ++ [LF]) ++ lines_aux [] s.
Proof.
  induction p as [[|c p] IH] using length_ind; intros cur; [cbn [app]; by rewrite !lines_aux_LF|].
  destruct (is_linebreak c) eqn:Hc; [|cbn [app lines_aux]; rewrite Hc; apply IH; cbn; lia].
  assert (Hcons : ∀ d r, lines_aux cur (c :: d :: r) =
    if (c =? 13) && (d =? 10) then (reverse cur, [13; 10]) :: lines_aux [] r
    else (reverse cur, [c]) :: lines_aux [] (d :: r)).
  { intros d r. cbn [lines_aux]. rewrite Hc.
    destruct (Z.eqb_spec d 10) as [->|Hd]; [by destruct (c =? 13)|].
    rewrite andb_false_r. repeat case_match; congruence. }
  destruct p as [|d p]; cbn [app]; rewrite !Hcons.
  - change (LF =? 10) with true. rewrite andb_true_r. destruct (c =? 13); [done|].
    cbn [app]. f_equal. by rewrite !lines_aux_LF.
  - destruct (_ && _); cbn [app]; f_equal; [apply (IH p)|apply (IH (d :: p))]; cbn; lia.
Qed.
