(* ===== verification/Recipients.v ===== *)
(** * Recipients: validation of message recipients
    (src/blueferry/recipients.py).

    A recipient ends up in a vCard property of the outgoing message, so what
    [validate_recipient] returns must not be able to end its line or start
    another property. *)
From S2P Require Import Prelude PyStr Text.

Definition is_digit (c : Z) : bool := (48 <=? c) && (c <=? 57).
Definition is_letter (c : Z) : bool :=
  ((65 <=? c) && (c <=? 90)) || ((97 <=? c) && (c <=? 122)).
Definition is_alnum (c : Z) : bool := is_digit c || is_letter c.
Definition mem (c : Z) (s : ustr) : bool := existsb (Z.eqb c) s.

Definition PLUS : Z := 43.
Definition AT : Z := 64.
Definition DOT : Z := 46.
Definition HYPHEN : Z := 45.

(** [_PHONE_RE.fullmatch]: an optional plus sign, a digit, and 2 to 29 digits
    or separators. *)
Definition phone_char (c : Z) : bool := is_digit c || mem c (lit " ()-.").
Definition phone_tail (s : ustr) : bool :=
  match s with
  | c :: s' => is_digit c && (2 <=? zlen s') && (zlen s' <=? 29) && forallb phone_char s'
  | [] => false
  end.
Definition _PHONE_RE (s : ustr) : bool :=
  match s with c :: s' => if c =? PLUS then phone_tail s' else phone_tail s | [] => false end.

(** [_EMAIL_LOCAL_RE.fullmatch]. *)
Definition local_char (c : Z) : bool := is_alnum c || mem c (lit "!#$%&'*+/=?^_`{|}~.-").
Definition _EMAIL_LOCAL_RE (s : ustr) : bool := negb (zlen s =? 0) && forallb local_char s.

(** [_EMAIL_DOMAIN_LABEL_RE.fullmatch]: 1 to 63 letters, digits and hyphens,
    with no hyphen at either end. *)
Definition label_char (c : Z) : bool := is_alnum c || (c =? HYPHEN).
Definition _EMAIL_DOMAIN_LABEL_RE (s : ustr) : bool :=
  match head s, last s with
  | Some a, Some z => is_alnum a && is_alnum z && (zlen s <=? 63) && forallb label_char s
  | _, _ => false
  end.

(** [s.count(c)]. *)
Definition count (c : Z) (s : ustr) : Z := zlen (List.filter (Z.eqb c) s).

(** ["xy" in s] for the two-character text of one repeated character. *)
Fixpoint has_double (c : Z) (s : ustr) : bool :=
  match s with
  | a :: (b :: _) as s' => ((a =? c) && (b =? c)) || has_double c s'
  | _ => false
  end.

Definition is_nil {A} (l : list A) : bool := match l with [] => true | _ => false end.

(** With exactly one "@", [rsplit("@", 1)] is [partition]. *)
Definition _normalize_email (candidate : ustr) : option ustr :=
  if (254 <? zlen candidate) || negb (count AT candidate =? 1) then None
  else
    let '(local, rest) := partition AT candidate in
    let domain := default [] rest in
    if is_nil local || (64 <? zlen local) || is_nil domain || (253 <? zlen domain) then None
    else if bool_decide (head local = Some DOT) || bool_decide (last local = Some DOT)
            || has_double DOT local || negb (_EMAIL_LOCAL_RE local) then None
    else if existsb (λ label, negb (_EMAIL_DOMAIN_LABEL_RE label)) (split_on DOT domain) then None
    else Some (local ++ [AT] ++ (lower_ascii <$> domain)).

Definition validate_recipient (recipient : ustr) : result ustr :=
  let candidate := strip recipient in
  if _PHONE_RE candidate then
    let digits := List.filter is_digit candidate in
    if negb ((3 <=? zlen digits) && (zlen digits <=? 20))
    then Raise (ValueError "implausible phone-number length")
    else Ok ((if bool_decide (head candidate = Some PLUS) then [PLUS] else []) ++ digits)
  else
    match _normalize_email candidate with
    | Some email => Ok email
    | None => Raise (ValueError "not a valid phone number or email address")
    end.

(** [group_confirmation_token]: the warning id and the sorted distinct
    recipients, one per line.  [leb] is Python's order on [str]. *)
Fixpoint insert_sorted (leb : ustr → ustr → bool) (x : ustr) (l : list ustr) : list ustr :=
  match l with
  | [] => [x]
  | y :: l' => if leb x y then x :: l else y :: insert_sorted leb x l'
  end.
Fixpoint str_leb (a b : ustr) : bool :=
  match a, b with
  | [], _ => true
  | _, [] => false
  | x :: a', y :: b' => (x <? y) || ((x =? y) && str_leb a' b')
  end.
Definition sorted_set (l : list ustr) : list ustr :=
  foldr (insert_sorted str_leb) [] (remove_dups l).
Definition group_confirmation_token (recipients : list ustr) (roster_warning_id : ustr) : ustr :=
  join [LF] (roster_warning_id :: sorted_set (List.filter (λ r, negb (is_nil r)) recipients)).

(** ** What a validated recipient looks like *)

(** The characters of phone numbers and email addresses: printable ASCII
    without the characters that structure a vCard line. *)
Definition safe_char (c : Z) : Prop := 33 <= c <= 126 ∧ c ∉ lit ":;,\".

Lemma mem_spec c s : mem c s = true ↔ c ∈ s.
Proof.
  unfold mem. rewrite existsb_exists. split.
  - intros (x & Hx & E). apply Z.eqb_eq in E as ->. by apply list_elem_of_In.
  - intros Hc. exists c. split; [by apply list_elem_of_In|apply Z.eqb_refl].
Qed.

Lemma forallb_Forall {A} (f : A → bool) l : forallb f l = true ↔ Forall (λ x, f x = true) l.
Proof. rewrite forallb_forall, Forall_forall. by setoid_rewrite list_elem_of_In. Qed.

Lemma digit_safe c : is_digit c = true → safe_char c ∧ is_space c = false.
Proof.
  unfold is_digit, safe_char, is_space. intros Hc. split; [split; [lia|]|lia].
  intros Hin. cbn in Hin. rewrite !elem_of_cons, elem_of_nil in Hin. lia.
Qed.

Lemma alnum_safe c : is_alnum c = true → safe_char c ∧ is_space c = false.
Proof.
  unfold is_alnum, is_digit, is_letter, safe_char, is_space. intros Hc. split; [split; [lia|]|lia].
  intros Hin. cbn in Hin. rewrite !elem_of_cons, elem_of_nil in Hin. lia.
Qed.

Lemma local_safe c : local_char c = true → safe_char c ∧ is_space c = false ∧ c ≠ AT.
Proof.
  unfold local_char. intros [Hc|Hc]%orb_true_iff.
  - destruct (alnum_safe c Hc). split_and!; [done..|].
    unfold is_alnum, is_digit, is_letter, AT in *. lia.
  - apply mem_spec in Hc. revert c Hc. apply Forall_forall. unfold safe_char.
    apply (bool_decide_unpack _). by vm_compute.
Qed.

Lemma lower_label c : label_char c = true → label_char (lower_ascii c) = true.
Proof.
  unfold label_char, is_alnum, is_digit, is_letter, HYPHEN, lower_ascii.
  intros Hc. destruct ((65 <=? c) && (c <=? 90)) eqn:E; lia.
Qed.
Lemma lower_alnum c : is_alnum c = true → is_alnum (lower_ascii c) = true.
Proof.
  unfold is_alnum, is_digit, is_letter, lower_ascii. intros Hc.
  destruct ((65 <=? c) && (c <=? 90)) eqn:E; lia.
Qed.
Lemma lower_idemp c : lower_ascii (lower_ascii c) = lower_ascii c.
Proof.
  unfold lower_ascii. destruct ((65 <=? c) && (c <=? 90)) eqn:E; [|by rewrite E].
  destruct ((65 <=? c + 32) && (c + 32 <=? 90)) eqn:E'; lia.
Qed.
Lemma label_safe c : label_char c = true → safe_char c ∧ is_space c = false ∧ c ≠ AT ∧ c ≠ DOT.
Proof.
  unfold label_char, HYPHEN, DOT. intros [Hc|Hc]%orb_true_iff.
  - destruct (alnum_safe c Hc). split_and!; [done..| |];
      unfold is_alnum, is_digit, is_letter, AT in *; lia.
  - apply Z.eqb_eq in Hc as ->. unfold safe_char. split_and!; [lia..| |done|done|done].
    apply (bool_decide_unpack _). by vm_compute.
Qed.

Lemma zlen_fmap {A B} (f : A → B) l : zlen (f <$> l) = zlen l.
Proof. unfold zlen. by rewrite length_fmap. Qed.

Lemma head_map {A B} (f : A → B) l : head (f <$> l) = f <$> head l.
Proof. by destruct l. Qed.

Lemma label_lower s : _EMAIL_DOMAIN_LABEL_RE s = true → _EMAIL_DOMAIN_LABEL_RE (lower_ascii <$> s) = true.
Proof.
  unfold _EMAIL_DOMAIN_LABEL_RE. rewrite head_map, fmap_last, zlen_fmap.
  destruct (head s) as [a|]; [|done]. destruct (last s) as [z|]; [|done]. cbn.
  rewrite !andb_true_iff, !forallb_Forall. intros [[[Ha Hz] ->] Hf].
  split_and!; [by apply lower_alnum..|done|]. apply Forall_fmap.
  eapply Forall_impl; [exact Hf|]. intros c. apply lower_label.
Qed.

Lemma label_chars s : _EMAIL_DOMAIN_LABEL_RE s = true →
  Forall (λ c, label_char c = true) s ∧ s ≠ [].
Proof.
  unfold _EMAIL_DOMAIN_LABEL_RE. destruct s as [|a s]; [done|]. cbn [head].
  destruct (last (a :: s)); [|done]. rewrite !andb_true_iff, forallb_Forall. naive_solver.
Qed.

(** Splitting at dots, and joining again. *)
Lemma split_on_aux_nil sep cur s : split_on_aux sep cur s ≠ [].
Proof. revert cur. induction s as [|c s IH]; intros cur; cbn; [done|]. destruct (c =? sep); [done|apply IH]. Qed.

Lemma split_on_aux_join sep cur s : join [sep] (split_on_aux sep cur s) = reverse cur ++ s.
Proof.
  revert cur. induction s as [|c s IH]; intros cur; cbn; [by rewrite app_nil_r|].
  destruct (Z.eqb_spec c sep) as [->|].
  - cbn. destruct (split_on_aux sep [] s) eqn:E; [by apply split_on_aux_nil in E|].
    rewrite <- E, IH. done.
  - rewrite IH, reverse_cons. by rewrite <- (assoc_L (++)).
Qed.

Lemma split_on_join sep s : join [sep] (split_on sep s) = s.
Proof. apply (split_on_aux_join sep []). Qed.

Lemma split_on_aux_fmap (f : Z → Z) sep (cur s : list Z) :
  (∀ c, c ∈ s → f c = sep ↔ c = sep) →
  split_on_aux sep (f <$> cur : list Z) (f <$> s : list Z) =
  fmap (M:=list) f <$> (split_on_aux sep cur s : list (list Z)).
Proof.
  revert cur. induction s as [|c s IH]; intros cur Hf; cbn [fmap list_fmap split_on_aux].
  - by rewrite fmap_reverse.
  - assert (Hs : ∀ c, c ∈ s → f c = sep ↔ c = sep) by (intros; apply Hf; by right).
    destruct (Z.eqb_spec c sep) as [->|Hne].
    + rewrite (proj2 (Z.eqb_eq _ _)) by (apply Hf; [left|done]). cbn [fmap list_fmap].
      rewrite fmap_reverse. f_equal. by apply (IH []).
    + rewrite (proj2 (Z.eqb_neq _ _)); [by apply (IH (c :: cur))|]. rewrite Hf; [done|left].
Qed.

Lemma lower_dot c : lower_ascii c = DOT ↔ c = DOT.
Proof. unfold lower_ascii, DOT. destruct ((65 <=? c) && (c <=? 90)) eqn:E; lia. Qed.

Lemma partition_spec sep s a b : partition sep s = (a, b) →
  s = a ++ match b with Some t => sep :: t | None => [] end ∧ sep ∉ a.
Proof.
  revert a b. induction s as [|c s IH]; cbn; intros a b E; [injection E as <- <-; set_solver|].
  destruct (Z.eqb_spec c sep) as [->|Hne]; [injection E as <- <-; set_solver|].
  destruct (partition sep s) as [a' b']. injection E as <- <-.
  destruct (IH a' b' eq_refl) as [-> Hin]. set_solver.
Qed.
Lemma partition_app sep a t : sep ∉ a → partition sep (a ++ sep :: t) = (a, Some t).
Proof.
  induction a as [|c a IH]; cbn; intros Hin; [by rewrite Z.eqb_refl|].
  rewrite (proj2 (Z.eqb_neq _ _)) by set_solver. by rewrite IH by set_solver.
Qed.

Lemma count_notin c s : c ∉ s → count c s = 0.
Proof.
  unfold count. induction s as [|x s IH]; cbn; intros Hin; [done|].
  rewrite (proj2 (Z.eqb_neq _ _)) by set_solver. apply IH. set_solver.
Qed.

(** An accepted address is a local part and a lower-case domain. *)
Record email_ok (s local domain : ustr) : Prop := {
  e_shape : s = local ++ [AT] ++ domain;
  e_len : zlen s <= 254;
  e_local_len : 1 <= zlen local <= 64;
  e_domain_len : 1 <= zlen domain <= 253;
  e_dots : head local ≠ Some DOT ∧ last local ≠ Some DOT ∧ has_double DOT local = false;
  e_local : Forall (λ c, local_char c = true) local;
  e_labels : Forall (λ l, _EMAIL_DOMAIN_LABEL_RE l = true) (split_on DOT domain);
}.

Lemma email_domain_chars s local domain : email_ok s local domain →
  Forall (λ c, c ≠ AT ∧ safe_char c ∧ is_space c = false) domain.
Proof.
  intros []. apply Forall_forall. intros c Hc.
  rewrite <- (split_on_join DOT domain) in Hc.
  apply join_chars in Hc as [Hc|(l & Hl & Hc)].
  - apply list_elem_of_singleton in Hc as ->. unfold safe_char. split_and!; try done.
    apply (bool_decide_unpack _). by vm_compute.
  - rewrite Forall_forall in e_labels0. destruct (label_chars l (e_labels0 l Hl)) as [Hf _].
    rewrite Forall_forall in Hf. destruct (label_safe c (Hf c Hc)) as (? & ? & ? & ?). by split_and!.
Qed.


Lemma count_app c s t : count c (s ++ t) = count c s + count c t.
Proof. unfold count, zlen. rewrite List.filter_app, length_app. lia. Qed.

Lemma is_nil_false {A} (l : list A) : is_nil l = false ↔ 1 <= zlen l.
Proof. destruct l; unfold zlen; cbn; split; try done; lia. Qed.

Lemma normalize_email_ok s local domain : email_ok s local domain →
  _normalize_email s = Some (local ++ [AT] ++ (lower_ascii <$> domain)).
Proof.
  intros H. pose proof (email_domain_chars _ _ _ H) as Hd. destruct H as [-> ?????].
  assert (Hl : AT ∉ local).
  { intros Hin. rewrite Forall_forall in e_local0. by destruct (local_safe AT (e_local0 AT Hin)) as (_ & _ & []). }
  assert (Hd' : AT ∉ domain) by (intros Hin; rewrite Forall_forall in Hd; by destruct (Hd AT Hin) as ([] & _)).
  unfold _normalize_email. rewrite (proj2 (Z.ltb_ge _ _)) by done.
  rewrite !count_app, (count_notin AT local), (count_notin AT domain) by done.
  change (count AT [AT]) with 1. cbn [negb orb app Z.add Z.eqb Pos.eqb].
  rewrite partition_app by done. change (default [] (Some domain)) with domain.
  rewrite (proj2 (is_nil_false local)), (proj2 (is_nil_false domain)) by lia. zbool.
  destruct e_dots0 as (Hh & Hla & ->). rewrite !(bool_decide_eq_false_2 _) by done.
  unfold _EMAIL_LOCAL_RE. zbool. rewrite (proj2 (forallb_Forall _ local)) by done. cbn [negb].
  destruct (existsb _ _) eqn:E; [|done]. apply existsb_exists in E as (l & Hin & Hneg).
  rewrite Forall_forall in e_labels0. rewrite e_labels0 in Hneg; [done|by apply list_elem_of_In].
Qed.

Lemma normalize_email_some c e : _normalize_email c = Some e →
  ∃ local domain, email_ok c local domain ∧ e = local ++ [AT] ++ (lower_ascii <$> domain).
Proof.
  unfold _normalize_email. destruct (_ || _) eqn:E1; [done|].
  destruct (partition AT c) as [local rest] eqn:Ep.
  destruct (is_nil local || _ || _ || _) eqn:E2; [done|].
  destruct (bool_decide _ || _ || _ || _) eqn:E3; [done|].
  destruct (existsb _ _) eqn:E4; [done|]. intros [= <-].
  apply partition_spec in Ep as [-> _]. rewrite !orb_false_iff in *.
  destruct E1 as [E1 _], E2 as [[[El El'] Ed] Ed'], E3 as [[[Eh Ela] Edd] Elo].
  apply is_nil_false in El, Ed. destruct rest as [domain|]; [|done].
  change (default [] (Some domain)) with domain in *.
  apply bool_decide_eq_false in Eh, Ela. apply negb_false_iff in Elo.
  unfold _EMAIL_LOCAL_RE in Elo. apply andb_true_iff in Elo as [_ Elo].
  exists local, domain. split; [|done]. split; [done|lia|lia|lia|by split_and!|by apply forallb_Forall|].
  apply Forall_forall. intros l Hl. destruct (_EMAIL_DOMAIN_LABEL_RE l) eqn:E; [done|].
  rewrite <- not_true_iff_false in E4. destruct E4. apply existsb_exists. exists l.
  split; [by apply list_elem_of_In|by rewrite E].
Qed.

(** Lower-casing the domain gives an address again. *)
Lemma email_ok_lower s local domain : email_ok s local domain →
  email_ok (local ++ [AT] ++ (lower_ascii <$> domain)) local (lower_ascii <$> domain).
Proof.
  intros [-> ?????]. split; rewrite ?zlen_app, ?zlen_fmap in *; try done.
  unfold split_on in *.
  pose proof (split_on_aux_fmap lower_ascii DOT [] domain) as E.
  change (lower_ascii <$> []) with (@nil Z) in E. rewrite E by (intros; apply lower_dot).
  apply Forall_fmap. eapply Forall_impl; [done|]. intros l. apply label_lower.
Qed.

(** The ends of an address are not white space. *)
Lemma email_strip s local domain : email_ok s local domain → strip s = s.
Proof.
  intros H. pose proof (email_domain_chars _ _ _ H) as Hd. destruct H as [-> ?????].
  apply strip_by_id; intros c.
  - destruct local as [|x l]; [by unfold zlen in *; cbn in *; lia|]. intros [= ->].
    apply Forall_cons in e_local0 as [Hc _]. by apply local_safe.
  - destruct domain as [|x l _] using rev_ind; [by unfold zlen in *; cbn in *; lia|].
    rewrite !(assoc_L (++)), last_snoc. intros [= ->]. apply Forall_app in Hd as [_ Hd].
    by apply Forall_cons in Hd as [(_ & _ & ?) _].
Qed.

Lemma email_not_phone s local domain : email_ok s local domain → _PHONE_RE s = false.
Proof.
  intros [-> _ _ _ _ _ _].
  assert (Ht : ∀ s : ustr, AT ∈ s → phone_tail s = false).
  { intros [|c s] Hin; [done|]. unfold phone_tail.
    destruct (is_digit c) eqn:E; [|done]. destruct (forallb phone_char s) eqn:F; [|by rewrite andb_false_r].
    exfalso. apply forallb_Forall in F. rewrite Forall_forall in F.
    apply elem_of_cons in Hin as [<-|Hin]; [done|]. by specialize (F AT Hin). }
  destruct (local ++ _) as [|c s] eqn:E; [done|]. unfold _PHONE_RE.
  assert (Hin : AT ∈ c :: s) by (rewrite <- E; set_solver).
  destruct (c =? PLUS) eqn:Ec; [|by apply Ht]. apply Ht.
  apply elem_of_cons in Hin as [<-|Hin]; done.
Qed.

Lemma email_safe s local domain : email_ok s local domain → Forall safe_char s ∧ s ≠ [].
Proof.
  intros H. pose proof (email_domain_chars _ _ _ H) as Hd. destruct H as [-> ?????].
  split; [|by destruct local]. rewrite !Forall_app. split_and!.
  - eapply Forall_impl; [done|]. intros c Hc. by apply local_safe.
  - repeat constructor; try done. apply (bool_decide_unpack _). by vm_compute.
  - eapply Forall_impl; [done|]. cbn. naive_solver.
Qed.

(** ** Phone numbers *)

Definition dialled (plus : bool) (digits : ustr) : ustr := (if plus then [PLUS] else []) ++ digits.

Lemma filter_digits s : Forall (λ c, is_digit c = true) (List.filter is_digit s).
Proof. apply Forall_forall. intros c Hc. apply list_elem_of_In, filter_In in Hc. apply Hc. Qed.
Lemma filter_all s : Forall (λ c, is_digit c = true) s → List.filter is_digit s = s.
Proof. induction 1 as [|c s Hc _ IH]; cbn; [done|]. by rewrite Hc, IH. Qed.

Lemma dialled_valid plus digits :
  Forall (λ c, is_digit c = true) digits → 3 <= zlen digits <= 20 →
  validate_recipient (dialled plus digits) = Ok (dialled plus digits).
Proof.
  intros Hd Hn. unfold validate_recipient.
  assert (Hsp : Forall (λ c, is_space c = false) (dialled plus digits)).
  { unfold dialled. apply Forall_app. split; [by destruct plus; repeat constructor|].
    eapply Forall_impl; [done|]. intros c Hc. by apply digit_safe. }
  rewrite strip_by_id by (intros c Hc; rewrite Forall_forall in Hsp; apply Hsp;
    first [by apply last_Some_elem_of|by apply head_Some_elem_of]).
  destruct digits as [|d ds]; [by unfold zlen in Hn; cbn in Hn; lia|]. apply Forall_cons in Hd as [Hd Hds].
  assert (Hp : phone_tail (d :: ds) = true).
  { unfold phone_tail. rewrite Hd. change (zlen (d :: ds)) with (zlen ([d] ++ ds)) in Hn.
    rewrite zlen_app in Hn. change (zlen [d]) with 1 in Hn. zbool. apply forallb_Forall.
    eapply Forall_impl; [done|]. intros c Hc. unfold phone_char. by rewrite Hc. }
  assert (Hne : (d =? PLUS) = false) by (unfold is_digit, PLUS in *; lia).
  assert (Hf : List.filter is_digit (dialled plus (d :: ds)) = d :: ds).
  { destruct plus; cbn; rewrite Hd, filter_all by done; done. }
  rewrite Hf. assert (_PHONE_RE (dialled plus (d :: ds)) = true) as ->.
  { destruct plus; cbn [dialled app _PHONE_RE]; [done|by rewrite Hne]. }
  zbool. f_equal. destruct plus; cbn; [done|]. rewrite bool_decide_eq_false_2; [done|].
  intros [= ->]. done.
Qed.

Lemma dialled_safe plus digits : Forall (λ c, is_digit c = true) digits → 3 <= zlen digits →
  Forall safe_char (dialled plus digits) ∧ dialled plus digits ≠ [].
Proof.
  intros Hd Hn. split; [|by destruct plus, digits; unfold zlen in Hn; cbn in Hn; try lia]. apply Forall_app. split.
  - destruct plus; repeat constructor; try done. apply (bool_decide_unpack _). by vm_compute.
  - eapply Forall_impl; [done|]. intros c Hc. by apply digit_safe.
Qed.

(** An accepted recipient is a dialled number or an address. *)
Lemma validate_recipient_cases r r' : validate_recipient r = Ok r' →
  (∃ plus digits, r' = dialled plus digits ∧
    Forall (λ c, is_digit c = true) digits ∧ 3 <= zlen digits <= 20) ∨
  (∃ local domain, email_ok r' local domain ∧ lower_ascii <$> domain = domain).
Proof.
  unfold validate_recipient. destruct (_PHONE_RE _).
  - destruct (negb _) eqn:E; [done|]. intros [= <-]. left.
    exists (bool_decide (head (strip r) = Some PLUS)), (List.filter is_digit (strip r)).
    split; [done|]. split; [apply filter_digits|lia].
  - destruct (_normalize_email _) as [e|] eqn:E; [|done]. intros [= <-]. right.
    apply normalize_email_some in E as (local & domain & Hok & ->).
    exists local, (lower_ascii <$> domain). split; [by apply (email_ok_lower (strip r))|].
    rewrite <- list_fmap_compose. apply list_fmap_ext. intros. apply lower_idemp.
Qed.

(** What [validate_recipient] accepts is canonical and safe to put in a
    vCard: the normalized recipient is not empty, is accepted again and
    unchanged, and consists of printable ASCII characters other than white
    space, colon, semicolon, comma and backslash, so it cannot end its line or
    start another property. *)
Theorem validate_recipient_canonical r r' : validate_recipient r = Ok r' →
  validate_recipient r' = Ok r' ∧ Forall safe_char r' ∧ r' ≠ [].
Proof.
  intros [(plus & digits & -> & Hd & Hn)|(local & domain & Hok & Hl)]%validate_recipient_cases.
  - split; [by apply dialled_valid|]. apply dialled_safe; [done|lia].
  - split; [|by apply (email_safe _ local domain)]. unfold validate_recipient.
    rewrite (email_strip _ _ _ Hok), (email_not_phone _ _ _ Hok), (normalize_email_ok _ _ _ Hok), Hl.
    by rewrite <- (e_shape _ _ _ Hok).
Qed.

Lemma validate_recipient_canonical_witness :
  validate_recipient (lit " +1 (555) 010-9999 ") = Ok (lit "+15550109999") ∧
  validate_recipient (lit "Ann.Lee@Mail.Example.ORG") = Ok (lit "Ann.Lee@mail.example.org") ∧
  validate_recipient (lit "Ann.Lee@mail.example.org") = Ok (lit "Ann.Lee@mail.example.org").
Proof.
  split; [by vm_compute|]. split; [by vm_compute|].
  refine (proj1 (validate_recipient_canonical (lit "Ann.Lee@Mail.Example.ORG") _ _)). by vm_compute.
Defined.
