(* ===== verification/Vcard.v ===== *)
(** * Vcard: extraction of vCard bodies from untrusted text
    (src/blueferry/vcard.py).

    [_line_pieces] cuts a text, or the chunks of a bounded reader, into pieces
    of lines; [_Card] unfolds the pieces of one card into properties under a
    budget; [_iter_cards] runs the card delimiters.  A generator is the list of
    what it yields. *)
From S2P Require Import Prelude PyStr Text.

Definition MAX_VCARD_CHARS : Z := 1024 * 1024.
Definition _MAX_HEAD_CHARS : Z := 1024.
Definition _WHOLE_LINE_START : Z := 256.

Definition is_blank (c : Z) : bool := (c =? 32) || (c =? 9).
Definition QUOTE : Z := 34.
Definition COLON : Z := 58.
Definition SEMICOLON : Z := 59.
Definition COMMA : Z := 44.
Definition EQUALS : Z := 61.

Definition member (x : ustr) (l : list ustr) : bool := bool_decide (x ∈ l).
(** [a & b] as a condition, for frozensets. *)
Definition meets (a b : list ustr) : bool := existsb (λ x, member x b) a.

Definition _SKIPPED_PROPERTIES : list ustr := [lit "PHOTO"; lit "LOGO"; lit "SOUND"; lit "KEY"].
Definition _BASE64_PARAMETERS : list ustr := [lit "ENCODING=B"; lit "ENCODING=BASE64"; lit "BASE64"].
Definition _QUOTED_PRINTABLE_PARAMETERS : list ustr :=
  [lit "ENCODING=QUOTED-PRINTABLE"; lit "QUOTED-PRINTABLE"].

(** [_BASE64_LINE.fullmatch]. *)
Definition base64_char (c : Z) : bool :=
  ((65 <=? c) && (c <=? 90)) || ((97 <=? c) && (c <=? 122)) || ((48 <=? c) && (c <=? 57))
  || (c =? 43) || (c =? 47) || (c =? EQUALS).
Definition _BASE64_LINE (s : ustr) : bool :=
  let core := strip_by is_blank s in
  negb (zlen core =? 0) && forallb base64_char core.

(** The characters [_PHOTO_WHITESPACE] deletes. *)
Definition photo_whitespace (c : Z) : bool := (c =? 32) || ((9 <=? c) && (c <=? 13)).

Definition nonempty (s : ustr) : bool := negb (zlen s =? 0).
Definition ends_with (c : Z) (s : ustr) : bool := bool_decide (last s = Some c).
Definition starts_blank (s : ustr) : bool := match head s with Some c => is_blank c | None => false end.

(** ** Pieces of lines *)

(** [(text, continued, complete)]. *)
Definition piece : Type := ustr * bool * bool.

Record Pieces := mkPieces {
  pending : option piece;
  continued : bool;
  after_carriage_return : bool;
  carry : ustr;
  yielded : list piece;
}.
Definition Pieces_init : Pieces := mkPieces None false false [] [].

Definition add_line (st : Pieces) (l : ustr * ustr) : Pieces :=
  let terminated := nonempty l.2 in
  st <| yielded ::= λ out, out ++ match pending st with Some p => [p] | None => [] end |>
     <| pending := Some (l.1, continued st, terminated) |>
     <| continued := negb terminated |>.

(** The body of the loop over the chunks. *)
Definition add_chunk (st : Pieces) (chunk0 : ustr) : Pieces :=
  let chunk1 := if after_carriage_return st && bool_decide (head chunk0 = Some LF)
                then tail chunk0 else chunk0 in
  let st1 := st <| after_carriage_return := ends_with CR chunk1 |> in
  let st2 := st1 <| carry := [] |> in
  let st3 := foldl add_line st2 (lines_aux [] (carry st1 ++ chunk1)) in
  match pending st3 with
  | Some (text, false, false) =>
      if zlen text <? _WHOLE_LINE_START
      then st3 <| carry := text |> <| pending := None |> <| continued := false |>
      else st3
  | _ => st3
  end.

Definition _line_pieces (chunks : list ustr) : list piece :=
  let st := foldl add_chunk Pieces_init chunks in
  yielded st ++
  if nonempty (carry st) then [(carry st, false, true)]
  else match pending st with Some (text, cont, _) => [(text, cont, true)] | None => [] end.

(** ** One card *)

Fixpoint _split_unquoted_aux (separator : Z) (quoted : bool) (cur h : ustr) : list ustr :=
  match h with
  | [] => [reverse cur]
  | c :: h' =>
      if c =? QUOTE then _split_unquoted_aux separator (negb quoted) (c :: cur) h'
      else if (c =? separator) && negb quoted
      then reverse cur :: _split_unquoted_aux separator quoted [] h'
      else _split_unquoted_aux separator quoted (c :: cur) h'
  end.
Definition _split_unquoted (h : ustr) (separator : Z) : list ustr :=
  _split_unquoted_aux separator false [] h.

(** The attributes [_reset_property] sets. *)
Record Property := mkProperty {
  present : bool;
  decided : bool;
  skipped : bool;
  retaining : bool;
  measuring_photo : bool;
  p_head : ustr;
  quoted : bool;
  encoding : list ustr;
  base64_open : bool;
  soft_break : bool;
  parts : list ustr;
  property_size : Z;
}.
Definition _reset_property (is_present : bool) : Property :=
  mkProperty is_present false false false false [] false [] false false [] 1.

Record _Card := mkCard {
  limit : Z;
  photo_limit : Z;
  photo : option ustr;
  photo_seen : bool;
  photo_oversized : bool;
  photo_value_chars : Z;
  photo_padding_chars : Z;
  photo_prefix : option ustr;
  lines : list ustr;
  c_size : Z;
  overflowed : bool;
  version21 : bool;
  prop : Property;
}.
Definition _Card_init (lim photo_lim : Z) : _Card :=
  mkCard lim photo_lim None false false 0 0 (Some []) [] 0 false false (_reset_property false).

Definition set_prop (f : Property → Property) (k : _Card) : _Card := k <| prop ::= f |>.

Section card.
Context `{CaseMapping}.

Definition photo_size (k : _Card) : Z := (photo_value_chars k - photo_padding_chars k) * 3 `div` 4.

Definition count_payload (compact : ustr) (k : _Card) : _Card :=
  k <| photo_value_chars ::= λ n, n + zlen compact |>
    <| photo_padding_chars ::= λ n, n + zlen (List.filter (Z.eqb EQUALS) compact) |>.

Definition _measure_photo (text : ustr) (k : _Card) : _Card :=
  let compact := List.filter (λ c, negb (photo_whitespace c)) text in
  match photo_prefix k with
  | None => count_payload compact k
  | Some p =>
      let room := Z.to_nat (_MAX_HEAD_CHARS - zlen p) in
      let prefix := p ++ take room compact in
      let rest := drop room compact in
      if (zlen prefix <? 5) && startswith prefix (lit "data:")
      then k <| photo_prefix := Some prefix |>
      else if startswith (lit "data:") prefix then
        let '(_header, payload) := partition COMMA prefix in
        if negb (is_some payload) && (zlen prefix <? _MAX_HEAD_CHARS)
        then k <| photo_prefix := Some prefix |>
        else count_payload (match payload with Some t => t | None => prefix end ++ rest)
               (k <| photo_prefix := None |>)
      else count_payload (prefix ++ rest) (k <| photo_prefix := None |>)
  end.

Definition _check_budget (k : _Card) : _Card :=
  if limit k <? c_size k + property_size (prop k)
  then k <| overflowed := true |> <| lines := [] |> <| prop ::= λ p, p <| parts := [] |> |>
  else k.

Definition _decide (h : ustr) (k : _Card) : _Card :=
  let fields := _split_unquoted h SEMICOLON in
  let name := default [] (head fields) in
  let enc := (λ q, upper (strip q)) <$> tail fields in
  let selected := upper (default [] (last (split_on 46 (strip name)))) in
  let k1 := k <| prop ::= λ p, p <| decided := true |> <| p_head := [] |> <| encoding := enc |>
                                <| base64_open := meets enc _BASE64_PARAMETERS |> |> in
  if member selected _SKIPPED_PROPERTIES then
    if bool_decide (selected = lit "PHOTO") && (0 <? photo_limit k) && negb (photo_seen k)
    then k1 <| photo_seen := true |>
            <| prop ::= λ p, p <| skipped := true |> <| retaining := true |> <| measuring_photo := true |> |>
    else k1 <| prop ::= λ p, p <| skipped := true |> <| parts := [] |> |>
  else k1.

(** The scan of a property head: the quote state after it and, when a colon
    outside quotes was found, the text before and after it. *)
Fixpoint scan_head (q : bool) (s : ustr) : bool * option (ustr * ustr) :=
  match s with
  | [] => (q, None)
  | c :: s' =>
      if c =? QUOTE
      then let '(q', r) := scan_head (negb q) s' in
           (q', (λ r : ustr * ustr, (c :: r.1, r.2)) <$> r)
      else if (c =? COLON) && negb q then (q, Some ([], s'))
      else let '(q', r) := scan_head q s' in
           (q', (λ r : ustr * ustr, (c :: r.1, r.2)) <$> r)
  end.

Definition _read_head (text : ustr) (k : _Card) : _Card :=
  let room := Z.to_nat (_MAX_HEAD_CHARS - zlen (p_head (prop k))) in
  let scanned := take room text in
  let '(q, found) := scan_head (quoted (prop k)) scanned in
  let k1 := k <| prop ::= λ p, p <| quoted := q |> |> in
  match found with
  | Some (before, _) =>
      let k2 := _decide (p_head (prop k) ++ before) k1 in
      if measuring_photo (prop k2) then _measure_photo (drop (S (length before)) text) k2 else k2
  | None =>
      let k2 := k1 <| prop ::= λ p, p <| p_head ::= λ h, h ++ scanned |> |> in
      if (_MAX_HEAD_CHARS <=? zlen (p_head (prop k2))) || (_MAX_HEAD_CHARS <? property_size (prop k2))
      then k2 <| prop ::= λ p, p <| decided := true |> |>
      else k2
  end.

(** The three steps of [_add] for a property that is kept: the text is appended,
    the head or the photo value is read, the budgets are enforced. *)
Definition append_part (text : ustr) (k : _Card) : _Card :=
  if nonempty text
  then k <| prop ::= λ p, p <| parts ::= λ l, l ++ [text] |>
                            <| property_size ::= λ n, n + zlen text |> |>
  else k.
Definition inspect (text : ustr) (k : _Card) : _Card :=
  if negb (decided (prop k)) then _read_head text k
  else if measuring_photo (prop k) then _measure_photo text k
  else k.
Definition enforce (k : _Card) : _Card :=
  if retaining (prop k) then
    if photo_limit k <? property_size (prop k)
    then k <| photo_oversized := true |>
           <| prop ::= λ p, p <| retaining := false |> <| parts := [] |> |>
    else k
  else if decided (prop k) && negb (skipped (prop k)) then _check_budget k
  else k.

Definition _add (text : ustr) (k : _Card) : _Card :=
  if skipped (prop k) && negb (retaining (prop k)) then
    if measuring_photo (prop k) then _measure_photo text k else k
  else enforce (inspect text (append_part text k)).

Definition drop_equals (l : ustr) : ustr := if ends_with EQUALS l then removelast l else l.

(** The while loop of [_drop_soft_break] pops from the end of [parts]; it is
    given the parts in reverse, last first. *)
Fixpoint drop_soft_rev (rparts : list ustr) (size : Z) : list ustr * Z :=
  match rparts with
  | [] => ([], size)
  | l :: rest =>
      let s := rstrip_by is_space l in
      if nonempty s then (drop_equals s :: rest, size - (zlen l - zlen (drop_equals s)))
      else drop_soft_rev rest (size - zlen l)
  end.
Definition _drop_soft_break (p : Property) : Property :=
  let '(rparts, size) := drop_soft_rev (reverse (parts p)) (property_size p) in
  p <| parts := reverse rparts |> <| property_size := size |>.

Definition _note_line_end (text : ustr) (p : Property) : Property :=
  let stripped := rstrip_by is_space text in
  if nonempty stripped then p <| soft_break := ends_with EQUALS stripped |> else p.

Definition close_photo (k : _Card) : _Card :=
  if retaining (prop k) && negb (overflowed k)
  then k <| photo := Some (concat (parts (prop k))) |>
         <| prop ::= λ p, p <| retaining := false |> <| parts := [] |> |>
  else k.

Definition close_kept (k : _Card) : _Card :=
  if negb (present (prop k)) || overflowed k || skipped (prop k) then k
  else
    let k1 := _check_budget (k <| prop ::= λ p, p <| decided := true |> |>) in
    if overflowed k1 then k1
    else
      let line := concat (parts (prop k1)) in
      let k2 := k1 <| lines ::= λ l, l ++ [line] |>
                   <| c_size ::= λ n, n + property_size (prop k1) |> in
      let '(name, value) := partition COLON line in
      let k3 := if bool_decide (upper (strip name) = lit "VERSION")
                then k2 <| version21 := bool_decide (strip (default [] value) = lit "2.1") |>
                else k2 in
      k3 <| prop ::= λ p, p <| parts := [] |> |>.

Definition _close_property (k : _Card) : _Card := close_kept (close_photo k).

Definition grow (p : Property) : Property := p <| property_size ::= λ n, n + 1 |>.

Definition start_line (text : ustr) (k : _Card) : _Card :=
  if overflowed k then k
  else
    let p := prop k in
    let start := take (Z.to_nat _WHOLE_LINE_START) text in
    let k1 :=
      if soft_break p && meets (encoding p) _QUOTED_PRINTABLE_PARAMETERS
      then _add text (k <| prop ::= λ p, grow (_drop_soft_break p) |>)
      else if present p && starts_blank text
      then _add (if version21 k then text else tail text) (k <| prop ::= grow |>)
      else if version21 k && base64_open p && (negb (nonempty (strip start)) || _BASE64_LINE start)
      then _add text (k <| prop ::= λ p, grow (p <| base64_open := nonempty (strip start) |>) |>)
      else _add text ((_close_property k) <| prop := _reset_property true |>) in
    k1 <| prop ::= λ p, _note_line_end text (p <| soft_break := false |>) |>.

Definition add_piece (text : ustr) (k : _Card) : _Card :=
  if overflowed k then k else (_add text k) <| prop ::= _note_line_end text |>.

(** [finish] with the card after it. *)
Definition finish (k : _Card) : option ustr * _Card :=
  let k1 := _close_property k in
  (if overflowed k1 then None else Some (join [LF] (lines k1)), k1).

(** ** The card delimiters *)

(** A yielded card: the body, the photo, and the size reported to
    [on_oversized_photo] when the photo was too large. *)
Definition card_out : Type := ustr * option ustr * option Z.

Inductive line_kind := LBegin | LEnd | LText.
Definition marker_kind (k : option _Card) (line : ustr) (complete : bool) : line_kind :=
  let marker := if complete then str_casefold (strip line) else [] in
  let folded := match k with
                | Some k => starts_blank line && present (prop k)
                | None => false
                end in
  if folded then LText
  else if bool_decide (marker = lit "begin:vcard") then LBegin
  else if bool_decide (marker = lit "end:vcard") then LEnd
  else LText.

(** The loop of [_iter_cards]: [left] is how many cards may still be yielded
    before it returns. *)
Fixpoint cards_loop (lim photo_lim left : Z) (k : option _Card) (ps : list piece) : list card_out :=
  match ps with
  | [] => []
  | (line, true, _) :: ps' => cards_loop lim photo_lim left (add_piece line <$> k) ps'
  | (line, false, complete) :: ps' =>
      match marker_kind k line complete with
      | LBegin => cards_loop lim photo_lim left (Some (_Card_init lim photo_lim)) ps'
      | LEnd =>
          match finish <$> k with
          | Some (Some body, k') =>
              (body, photo k', if photo_oversized k' then Some (photo_size k') else None) ::
              (if left - 1 <=? 0 then [] else cards_loop lim photo_lim (left - 1) None ps')
          | _ => cards_loop lim photo_lim left None ps'
          end
      | LText => cards_loop lim photo_lim left (start_line line <$> k) ps'
      end
  end.

Definition _iter_cards (chunks : list ustr) (maximum max_card_chars max_photo_chars : Z) : list card_out :=
  cards_loop (Z.max 0 max_card_chars) (Z.max 0 max_photo_chars) (Z.max 0 maximum) None (_line_pieces chunks).

Definition iter_vcard_bodies (chunks : list ustr) (maximum max_card_chars : Z) : list ustr :=
  (λ o : card_out, o.1.1) <$> _iter_cards chunks maximum max_card_chars 0.
Definition iter_vcard_cards (chunks : list ustr) (maximum max_card_chars max_photo_chars : Z)
    : list card_out :=
  _iter_cards chunks maximum max_card_chars (Z.max 1 max_photo_chars).
End card.

(** ** Pieces of one text *)

Lemma nonempty_spec s : nonempty s = true ↔ s ≠ [].
Proof. by destruct s. Qed.

Definition flush (st : Pieces) : list piece :=
  yielded st ++ match pending st with Some p => [p] | None => [] end.

Lemma foldl_add_line init st :
  Forall (λ l : ustr * ustr, l.2 ≠ []) init → continued st = false →
  flush (foldl add_line st init) = flush st ++ ((λ l : ustr * ustr, (l.1, false, true)) <$> init) ∧
  continued (foldl add_line st init) = false ∧
  (init ≠ [] → ∃ t, pending (foldl add_line st init) = Some (t, false, true)).
Proof.
  intros Hi. revert st. induction Hi as [|[t b] init Hb _ IH]; intros st Hc; cbn [foldl fmap list_fmap].
  { by rewrite app_nil_r. }
  cbn in Hb. apply nonempty_spec in Hb.
  destruct (IH (add_line st (t, b))) as (E & Ec & Ep); [by cbn; rewrite Hb|].
  rewrite E, Ec. split_and!; [|done|].
  - unfold flush, add_line. cbn. rewrite Hb, Hc, <- (assoc_L (++)). done.
  - intros _. destruct init as [|l init]; [|by apply Ep]. cbn. rewrite Hb, Hc. by eexists.
Qed.

Lemma carry_foldl ls st : carry (foldl add_line st ls) = carry st.
Proof. revert st. induction ls as [|l ls IH]; intros st; [done|]. cbn [foldl]. by rewrite IH. Qed.

(** A text in one piece is cut into its lines. *)
Lemma line_pieces_text s :
  _line_pieces [s] = (λ l, (l, false, true)) <$> splitlines s.
Proof.
  unfold _line_pieces, splitlines. cbn [foldl]. unfold add_chunk. cbn [Pieces_init after_carriage_return].
  rewrite andb_false_l. cbn -[lines_aux foldl zlen].
  destruct (lines_aux_shape s []) as (init & rest & -> & Hi & Hr).
  set (st0 := mkPieces None false _ [] []). rewrite foldl_app, !fmap_app.
  destruct (foldl_add_line init st0 Hi eq_refl) as (E & Ec & Ep).
  pose proof (carry_foldl init st0) as Hcarry. set (st1 := foldl add_line st0 init) in *.
  change (flush st0) with (@nil piece) in E. unfold flush in E. cbn [app carry st0] in E, Hcarry.
  rewrite <- list_fmap_compose. unfold compose. cbn [fst].
  destruct Hr as [->|(t & Ht & ->)]; cbn [foldl fmap list_fmap].
  - rewrite app_nil_r. destruct init as [|l init].
    + done.
    + destruct Ep as [t Ep]; [done|]. rewrite Ep in E |- *. cbn [carry]. rewrite Hcarry, Ep. exact E.
  - cbn -[zlen]. rewrite Ec. rewrite <- E. destruct (zlen t <? _WHOLE_LINE_START) eqn:El;
      cbn -[zlen]; rewrite ?El; change (nonempty []) with false; cbn -[zlen].
    + rewrite (proj2 (nonempty_spec t)) by done. done.
    + rewrite Hcarry, Ec. done.
Qed.

(** ** What a card retains *)

Section budget.
Context `{CaseMapping}.

Definition cost (l : list ustr) : Z := zlen (concat l).

(** The characters a card keeps ([encoding], the upper-case copy of the head's
    parameters, is not counted again). *)
Definition retained (k : _Card) : Z :=
  cost (lines k) + cost (parts (prop k)) + zlen (p_head (prop k))
  + zlen (default [] (photo k)) + zlen (default [] (photo_prefix k)).

Context (lim plim : Z).

(** Between two calls, except for the sizes of the open property. *)
Record loose_inv (k : _Card) : Prop := {
  i_const : limit k = lim ∧ photo_limit k = plim;
  i_limit : 0 <= photo_limit k;
  i_lines : cost (lines k) + zlen (lines k) <= c_size k <= limit k;
  i_parts : cost (parts (prop k)) + 1 <= property_size (prop k);
  i_head : zlen (p_head (prop k)) <= _MAX_HEAD_CHARS;
  i_prefix : zlen (default [] (photo_prefix k)) <= _MAX_HEAD_CHARS;
  i_skipped : skipped (prop k) = true → decided (prop k) = true;
  i_retaining : retaining (prop k) = true → skipped (prop k) = true ∧ photo k = None ∧ photo_seen k = true;
  i_dropped : skipped (prop k) = true → retaining (prop k) = false → parts (prop k) = [];
  i_photo : zlen (default [] (photo k)) <= photo_limit k;
  i_seen : photo_seen k = false → photo k = None;
}.

(** The sizes of the open property. *)
Record sizes_inv (k : _Card) : Prop := {
  s_undecided : decided (prop k) = false → property_size (prop k) <= _MAX_HEAD_CHARS;
  s_kept : decided (prop k) = true → skipped (prop k) = false →
    c_size k + property_size (prop k) <= limit k ∨ parts (prop k) = [];
  s_photo : retaining (prop k) = true → property_size (prop k) <= photo_limit k;
}.

Definition card_inv (k : _Card) : Prop := loose_inv k ∧ sizes_inv k.

Lemma cost_app a b : cost (a ++ b) = cost a + cost b.
Proof. unfold cost. by rewrite concat_app, zlen_app. Qed.
Lemma cost_one s : cost [s] = zlen s.
Proof. unfold cost. cbn. by rewrite app_nil_r. Qed.
Lemma cost_nonneg l : 0 <= cost l.
Proof. apply zlen_nonneg. Qed.

Lemma measure_spec text k : ∃ n m q,
  _measure_photo text k =
    k <| photo_value_chars := n |> <| photo_padding_chars := m |> <| photo_prefix := q |> ∧
  (zlen (default [] (photo_prefix k)) <= _MAX_HEAD_CHARS → zlen (default [] q) <= _MAX_HEAD_CHARS).
Proof.
  unfold _measure_photo, count_payload. destruct k as [? ? ? ? ? ? ? [p|] ? ? ? ? ?]; cbn -[zlen Z.sub].
  2: { do 3 eexists. split; [reflexivity|]. done. }
  set (compact := List.filter _ text). set (prefix := p ++ _).
  assert (zlen p <= _MAX_HEAD_CHARS → zlen prefix <= _MAX_HEAD_CHARS).
  { unfold prefix, _MAX_HEAD_CHARS. intros. rewrite zlen_app, zlen_take. lia. }
  assert (0 <= _MAX_HEAD_CHARS) by done.
  destruct (_ && _); [|destruct (startswith _ _);
    [destruct (partition COMMA prefix) as [? payload]; destruct (_ && _)|]];
    do 3 eexists; (split; [reflexivity|done]).
Qed.

Lemma loose_measure text k : loose_inv k → loose_inv (_measure_photo text k).
Proof. intros []. destruct (measure_spec text k) as (n & m & q & -> & Hq). split; cbn; auto. Qed.

Lemma measure_prop text k : prop (_measure_photo text k) = prop k ∧
  limit (_measure_photo text k) = limit k ∧ c_size (_measure_photo text k) = c_size k ∧
  photo_limit (_measure_photo text k) = photo_limit k.
Proof. destruct (measure_spec text k) as (n & m & q & -> & _). done. Qed.

Lemma loose_check k : loose_inv k → loose_inv (_check_budget k).
Proof.
  intros []. unfold _check_budget. destruct (_ <? _) eqn:E; [|done].
  assert (cost (lines k) >= 0) by (pose proof (cost_nonneg (lines k)); lia).
  pose proof (cost_nonneg (parts (prop k))). pose proof (zlen_nonneg (lines k)).
  split; cbn; auto; change (cost []) with 0; change (zlen []) with 0; lia.
Qed.

Lemma check_sizes k : decided (prop k) = true → skipped (prop k) = false → retaining (prop k) = false →
  sizes_inv (_check_budget k).
Proof.
  intros Hd Hs Hr. unfold _check_budget. destruct (_ <? _) eqn:E; split; cbn; rewrite ?Hd, ?Hr; try done.
  - intros. by right.
  - intros. left. lia.
Qed.

Lemma loose_decide h k : loose_inv k → loose_inv (_decide h k).
Proof.
  intros []. unfold _decide. pose proof (cost_nonneg (parts (prop k))).
  destruct (member _ _); [destruct (bool_decide _ && _ && _) eqn:E|];
    split; cbn; auto; try done; try (intros Hr; destruct (i_retaining0 Hr) as (_ & ? & ?); by auto);
    change (cost []) with 0; try lia.
  intros _. rewrite !andb_true_iff in E. destruct E as [_ E]. split_and!; [done| |done].
  apply i_seen0. by destruct (photo_seen k).
Qed.

Lemma loose_read_head text k : loose_inv k → decided (prop k) = false →
  loose_inv (_read_head text k) ∧
  (decided (prop (_read_head text k)) = false → property_size (prop (_read_head text k)) <= _MAX_HEAD_CHARS).
Proof.
  intros Hk Hd. pose proof (i_head _ Hk) as Hh. unfold _read_head.
  set (room := Z.to_nat _). destruct (scan_head _ _) as [q found].
  assert (Hq : loose_inv (k <| prop ::= λ p, p <| quoted := q |> |>)) by (destruct Hk; by split).
  destruct found as [[before after]|].
  - set (k2 := _decide _ _).
    assert (Hk2 : loose_inv k2) by (by apply loose_decide).
    assert (Hdec : decided (prop k2) = true).
    { unfold k2, _decide. by repeat case_match. }
    destruct (measuring_photo _); [|by rewrite Hdec].
    destruct (measure_prop (drop (S (length before)) text) k2) as (-> & _). rewrite Hdec.
    split; [by apply loose_measure|done].
  - cbn. assert (Hl : zlen (p_head (prop k) ++ take room text) <= _MAX_HEAD_CHARS).
    { unfold room. rewrite zlen_app, zlen_take. lia. }
    destruct (_ || _) eqn:E; cbn; (split; [by destruct Hk; split; cbn; auto|]); [done|].
    intros _. lia.
Qed.

Lemma loose_grow_parts text k : loose_inv k →
  skipped (prop k) && negb (retaining (prop k)) = false →
  loose_inv (k <| prop ::= λ p, p <| parts ::= λ l, l ++ [text] |> <| property_size ::= λ n, n + zlen text |> |>).
Proof.
  intros [] Hs. split; cbn; auto; [rewrite cost_app, cost_one; lia|].
  intros Hsk Hr. by rewrite Hsk, Hr in Hs.
Qed.

Lemma add_inv text k : loose_inv k → card_inv (_add text k).
Proof.
  intros Hk. unfold _add. destruct (skipped _ && _) eqn:Es.
  - apply andb_true_iff in Es as [Hs Hr]. apply negb_true_iff in Hr.
    set (k' := if measuring_photo _ then _ else _).
    assert (Hp : prop k' = prop k) by (unfold k'; case_match; [apply measure_prop|done]).
    split; [unfold k'; case_match; [by apply loose_measure|done]|].
    split; rewrite Hp; [by rewrite (i_skipped _ Hk Hs)|congruence..].
  - set (k1 := append_part text k).
    assert (Hk1 : loose_inv k1) by (unfold k1, append_part; case_match; [by apply loose_grow_parts|done]).
    set (k2 := inspect text k1). unfold enforce.
    assert (Hk2 : loose_inv k2 ∧ (decided (prop k2) = false → property_size (prop k2) <= _MAX_HEAD_CHARS)).
    { unfold k2, inspect. destruct (decided (prop k1)) eqn:Ed; cbn [negb].
      - destruct (measuring_photo _); [|by rewrite Ed].
        destruct (measure_prop text k1) as (-> & _). rewrite Ed. split; [by apply loose_measure|done].
      - by apply loose_read_head. }
    clearbody k2. destruct Hk2 as [Hk2 Hu]. destruct (retaining (prop k2)) eqn:Er.
    + destruct (i_retaining _ Hk2 Er) as (Hs & Hph & Hseen). pose proof (i_skipped _ Hk2 Hs) as Hd.
      destruct (_ <? _) eqn:E.
      * pose proof (cost_nonneg (parts (prop k2))). destruct Hk2.
        split; split; cbn; auto; rewrite ?Hd, ?Hs; try done. change (cost []) with 0. lia.
      * split; [done|]. split; rewrite ?Hd, ?Hs; try done. lia.
    + destruct (decided (prop k2)) eqn:Ed; cbn [andb].
      * destruct (skipped (prop k2)) eqn:Es2; cbn [negb].
        -- split; [done|]. split; rewrite ?Ed, ?Es2, ?Er; done.
        -- split; [by apply loose_check|by apply check_sizes].
      * split; [done|]. split; rewrite ?Ed, ?Er; done.
Qed.

Lemma loose_close k : card_inv k → loose_inv (_close_property k).
Proof.
  intros [Hk Hz]. unfold _close_property, close_kept.
  assert (Hcp : card_inv (close_photo k)).
  { unfold close_photo. destruct (retaining _ && _) eqn:E; [|done]. apply andb_true_iff in E as [Er Eo].
    pose proof (cost_nonneg (parts (prop k))). pose proof (s_photo _ Hz Er).
    destruct (i_retaining _ Hk Er) as (Hs & Hph & Hseen). destruct Hk, Hz.
    assert (zlen (concat (parts (prop k))) = cost (parts (prop k))) by done.
    split; split; cbn; auto; try done; change (cost []) with 0; try lia; congruence. }
  set (k0 := close_photo k) in *. clearbody k0. destruct (_ || _ || _) eqn:E; [apply Hcp|].
  rewrite !orb_false_iff in E. destruct E as [[_ Eo] Es]. clear Hk Hz. destruct Hcp as [Hk Hz].
  set (kd := k0 <| prop ::= _ |>). assert (Hr : retaining (prop k0) = false).
  { destruct (retaining (prop k0)) eqn:Er; [|done]. by destruct (i_retaining _ Hk Er) as (? & _); congruence. }
  assert (Hkd : loose_inv kd) by (destruct Hk; by split; cbn; auto).
  pose proof (loose_check _ Hkd) as Hc.
  destruct (overflowed (_check_budget kd)) eqn:Eov; [done|].
  assert (Heq : _check_budget kd = kd ∧ c_size kd + property_size (prop kd) <= limit kd).
  { revert Eov. unfold _check_budget. destruct (_ <? _) eqn:El; [done|]. split; [done|lia]. }
  destruct Heq as [-> Hfit]. clear Hc Eov.
  set (line := concat _). destruct (partition _ _) as [name value].
  assert (Hl : loose_inv (kd <| lines ::= λ l, l ++ [line] |> <| c_size ::= λ n, n + property_size (prop kd) |>
    <| prop ::= λ p, p <| parts := [] |> |>)).
  { pose proof (i_parts _ Hkd). pose proof (cost_nonneg (parts (prop kd))).
    assert (zlen line = cost (parts (prop kd))) by done. destruct Hkd.
    split; cbn; auto; [|change (cost []) with 0; cbn in *; lia].
    rewrite cost_app, cost_one, zlen_app, zlen_cons, zlen_nil. cbn in *. lia. }
  destruct (bool_decide _); [|exact Hl]. destruct Hl. by split.
Qed.

Lemma drop_soft_cost rparts n : cost rparts + 1 <= n →
  cost (drop_soft_rev rparts n).1 + 1 <= (drop_soft_rev rparts n).2.
Proof.
  revert n. induction rparts as [|l rest IH]; intros n Hn; cbn [drop_soft_rev]; [done|].
  change (l :: rest) with ([l] ++ rest) in Hn. rewrite cost_app, cost_one in Hn.
  destruct (nonempty _); cbn; [|apply IH; lia].
  change (drop_equals (rstrip_by is_space l) :: rest) with ([drop_equals (rstrip_by is_space l)] ++ rest).
  rewrite cost_app, cost_one. lia.
Qed.

Lemma cost_reverse l : cost (reverse l) = cost l.
Proof.
  induction l as [|x l IH]; [done|]. rewrite reverse_cons, cost_app, IH, cost_one.
  change (x :: l) with ([x] ++ l). rewrite cost_app, cost_one. lia.
Qed.

(** Prepares a continuation line: only the sizes of the open property change. *)
Lemma loose_grow (f : Property → Property) k : loose_inv k →
  (f = id ∨ f = _drop_soft_break ∨ ∃ b, f = λ p, p <| base64_open := b |>) →
  loose_inv (k <| prop ::= λ p, grow (f p) |>).
Proof.
  intros Hk Hf. assert (Hp : ∀ p, p = prop k →
    cost (parts (f p)) + 1 <= property_size (f p) ∧ p_head (f p) = p_head p ∧ skipped (f p) = skipped p ∧
    decided (f p) = decided p ∧ retaining (f p) = retaining p ∧ (parts p = [] → parts (f p) = [])).
  { intros p ->. destruct Hk. destruct Hf as [->|[->|[b ->]]]; [by cbn| |by cbn].
    unfold _drop_soft_break. pose proof (drop_soft_cost (reverse (parts (prop k))) (property_size (prop k))) as Hc.
    rewrite cost_reverse in Hc. destruct (drop_soft_rev (reverse (parts _)) _) as [rparts n] eqn:E. cbn in *.
    rewrite cost_reverse. split_and!; try done; [by apply Hc|]. intros Hn.
    rewrite Hn in E. cbn in E. by injection E as <- <-. }
  destruct (Hp _ eq_refl) as (H1 & H2 & H3 & H4 & H5 & H6). destruct Hk.
  split; cbn; rewrite ?H2, ?H3, ?H4, ?H5; auto. lia.
Qed.

Lemma note_inv text k (f : Property → Property) : card_inv k →
  (f = _note_line_end text ∨ f = λ p, _note_line_end text (p <| soft_break := false |>)) →
  card_inv (k <| prop ::= f |>).
Proof.
  intros [[] []] [-> | ->]; unfold _note_line_end; destruct (nonempty _); split; split; cbn; auto.
Qed.

Lemma start_line_inv text k : card_inv k → card_inv (start_line text k).
Proof.
  intros Hk. unfold start_line. destruct (overflowed k); [done|]. apply (note_inv text); [|by right].
  destruct (_ && _); [|destruct (_ && _); [|destruct (_ && _)]]; apply add_inv.
  - apply loose_grow; [apply Hk|]. auto.
  - apply (loose_grow id); [apply Hk|]. auto.
  - apply (loose_grow (λ p, p <| base64_open := _ |>)); [apply Hk|]. eauto.
  - apply loose_close in Hk. destruct Hk. by split; cbn; auto.
Qed.

Lemma add_piece_inv text k : card_inv k → card_inv (add_piece text k).
Proof.
  intros Hk. unfold add_piece. destruct (overflowed k); [done|]. apply (note_inv text); [|by left].
  apply add_inv, Hk.
Qed.

Lemma init_inv : 0 <= lim → 0 <= plim → card_inv (_Card_init lim plim).
Proof. intros. split; split; cbn; try done. Qed.

Lemma retained_bound k : card_inv k → retained k <= lim + plim + 3 * _MAX_HEAD_CHARS.
Proof.
  intros [Hk Hz]. unfold retained. pose proof (cost_nonneg (lines k)). pose proof (cost_nonneg (parts (prop k))).
  pose proof (zlen_nonneg (lines k)). destruct (i_const _ Hk) as [<- <-].
  assert (cost (lines k) + cost (parts (prop k)) + zlen (default [] (photo k))
    <= limit k + photo_limit k + _MAX_HEAD_CHARS); [|destruct Hk; lia].
  assert (0 < _MAX_HEAD_CHARS) by done.
  destruct (decided (prop k)) eqn:Ed; [destruct (skipped (prop k)) eqn:Es; [destruct (retaining (prop k)) eqn:Er|]|].
  - pose proof (s_photo _ Hz Er). destruct (i_retaining _ Hk Er) as (_ & -> & _). destruct Hk.
    change (zlen (default [] None)) with 0. lia.
  - rewrite (i_dropped _ Hk Es Er). destruct Hk. change (cost []) with 0. lia.
  - destruct (s_kept _ Hz Ed Es) as [?| ->]; destruct Hk; change (cost []) with 0; lia.
  - pose proof (s_undecided _ Hz Ed). destruct Hk. lia.
Qed.

Lemma zlen_join ls : zlen (join [LF] ls) <= cost ls + zlen ls.
Proof.
  induction ls as [|l ls IH]; [done|]. rewrite (zlen_cons l ls).
  assert (cost (l :: ls) = zlen l + cost ls) as -> by (change (l :: ls) with ([l] ++ ls); by rewrite cost_app, cost_one).
  pose proof (cost_nonneg ls). pose proof (zlen_nonneg ls).
  destruct ls as [|l' ls]; [change (join [LF] [l]) with l; lia|].
  change (join [LF] (l :: l' :: ls)) with (l ++ [LF] ++ join [LF] (l' :: ls)).
  rewrite !zlen_app. change (zlen [LF]) with 1. lia.
Qed.

Lemma finish_bound k body k' : card_inv k → finish k = (Some body, k') →
  zlen body <= lim ∧ zlen (default [] (photo k')) <= plim.
Proof.
  intros Hk. unfold finish. apply loose_close in Hk. destruct (overflowed _); [done|].
  intros [= <- <-]. pose proof (zlen_join (lines (_close_property k))).
  destruct (i_const _ Hk) as [<- <-]. destruct Hk. split; [lia|done].
Qed.

(** The texts a card is given: the start of a line, or a further piece. *)
Definition card_after (ops : list (bool * ustr)) : _Card :=
  foldl (λ k (op : bool * ustr), if op.1 then start_line op.2 k else add_piece op.2 k)
        (_Card_init lim plim) ops.

Lemma card_after_inv ops : 0 <= lim → 0 <= plim → card_inv (card_after ops).
Proof.
  intros Hl Hp. unfold card_after. induction ops as [|[b t] ops IH] using rev_ind; [by apply init_inv|].
  rewrite foldl_app. cbn. destruct b; [by apply start_line_inv|by apply add_piece_inv].
Qed.

Lemma cards_loop_bound left k ps : 0 <= lim → 0 <= plim → 0 <= left → (∀ c, k = Some c → card_inv c) →
  zlen (cards_loop lim plim left k ps) <= Z.max 1 left ∧
  Forall (λ o : card_out, zlen o.1.1 <= lim ∧ zlen (default [] o.1.2) <= plim) (cards_loop lim plim left k ps).
Proof.
  intros Hl Hp. revert left k. induction ps as [|[[line cont] complete] ps IH]; intros left k Hn Hk; cbn [cards_loop].
  { split; [change (zlen []) with 0; lia|constructor]. }
  destruct cont.
  { apply IH; [done|]. intros c. destruct k as [k|]; [|done]. intros [= <-]. by apply add_piece_inv, Hk. }
  destruct (marker_kind k line complete).
  - apply IH; [done|]. intros c [= <-]. by apply init_inv.
  - destruct k as [k|]; cbn [fmap option_fmap option_map]; [|by apply IH].
    destruct (finish k) as [[body|] k'] eqn:Ef; [|by apply IH].
    destruct (finish_bound k body k' (Hk _ eq_refl) Ef) as [Hb Hph].
    destruct (left - 1 <=? 0) eqn:El.
    + split; [change (zlen _) with 1; lia|]. by repeat constructor.
    + destruct (IH (left - 1) None) as [H1 H2]; [lia|done|]. rewrite zlen_cons.
      split; [lia|]. by constructor.
  - apply IH; [done|]. intros c. destruct k as [k|]; [|done]. intros [= <-]. by apply start_line_inv, Hk.
Qed.
End budget.

(** The memory of one card is bounded whatever text it is given, in lines
    or in pieces of lines and with however large skipped values: the properties
    kept, the open property, its head, the retained photo and the scanned start
    of a photo value together have at most [limit + photo_limit + 3 * 1024]
    characters at every moment. *)
Theorem card_memory_bounded `{CaseMapping} lim plim ops : 0 <= lim → 0 <= plim →
  retained (card_after lim plim ops) <= lim + plim + 3 * _MAX_HEAD_CHARS.
Proof. intros Hl Hp. by apply retained_bound, card_after_inv. Qed.

Lemma card_memory_bounded_witness :
  retained (card_after 40 4 [(true, lit "FN:Ann"); (true, lit "PHOTO;ENCODING=b:AAAAAAAA"); (true, lit "TEL:1")])
  <= 40 + 4 + 3 * _MAX_HEAD_CHARS.
Proof. by apply card_memory_bounded. Defined.

(** Whatever the text, [iter_vcard_cards] yields at most [maximum] cards
    (one, when [maximum] is 0), each with a body within the card budget and a
    photo within the photo budget. *)
Theorem iter_cards_bounded `{CaseMapping} chunks maximum max_card_chars max_photo_chars :
  let out := iter_vcard_cards chunks maximum max_card_chars max_photo_chars in
  zlen out <= Z.max 1 maximum ∧
  Forall (λ o : card_out, zlen o.1.1 <= Z.max 0 max_card_chars ∧
                          zlen (default [] o.1.2) <= Z.max 1 max_photo_chars) out.
Proof.
  cbn zeta. unfold iter_vcard_cards, _iter_cards.
  rewrite (Z.max_r 0 (Z.max 1 max_photo_chars)) by lia.
  destruct (cards_loop_bound (Z.max 0 max_card_chars) (Z.max 1 max_photo_chars) (Z.max 0 maximum) None
    (_line_pieces chunks)) as [H1 H2]; [lia..|done|]. split; [lia|done].
Qed.

(** ** The photo budget does not change the bodies *)

Section erase.
Context `{CaseMapping}.

(** A card without what depends on the photo budget. *)
Definition erase_prop (p : Property) : Property :=
  p <| retaining := false |> <| measuring_photo := false |>
    <| parts := if skipped p then [] else parts p |>
    <| property_size := if skipped p then 0 else property_size p |>.
Definition erase (k : _Card) : _Card :=
  mkCard (limit k) 0 None false false 0 0 None (lines k) (c_size k) (overflowed k) (version21 k)
    (erase_prop (prop k)).

(** Only a skipped property is retained or measured. *)
Definition prop_wf (p : Property) : Prop :=
  if skipped p then decided p = true else retaining p = false ∧ measuring_photo p = false.
Definition photo_wf (k : _Card) : Prop := prop_wf (prop k).

Lemma wf_kept k : photo_wf k → skipped (prop k) = false →
  retaining (prop k) = false ∧ measuring_photo (prop k) = false.
Proof. unfold photo_wf, prop_wf. intros Hk Hs. by rewrite Hs in Hk. Qed.
Lemma wf_skipped k : photo_wf k → skipped (prop k) = true → decided (prop k) = true.
Proof. unfold photo_wf, prop_wf. intros Hk Hs. by rewrite Hs in Hk. Qed.

Lemma erase_measure text k : erase (_measure_photo text k) = erase k.
Proof. by destruct (measure_spec text k) as (n & m & q & -> & _). Qed.

Lemma erase_idemp k : erase (erase k) = erase k.
Proof. unfold erase, erase_prop. cbn. by destruct (skipped (prop k)). Qed.

Lemma erase_check k : skipped (prop k) = false → erase (_check_budget k) = _check_budget (erase k).
Proof.
  intros Hs. unfold _check_budget, erase, erase_prop. cbn. rewrite Hs.
  destruct (_ <? _); cbn; by rewrite ?Hs.
Qed.

Lemma erase_decide h k : skipped (prop k) = false → photo_wf k →
  erase (_decide h k) = erase (_decide h (erase k)).
Proof.
  intros Hs Hwf. destruct (wf_kept _ Hwf Hs) as [Hr Hm]. unfold _decide, erase, erase_prop. cbn. rewrite Hs, Hr, Hm.
  destruct (member _ _); [|cbn; by rewrite ?Hs].
  rewrite (andb_false_r (bool_decide _)). cbn. destruct (bool_decide _ && _ && _); reflexivity.
Qed.

Lemma erase_read_head text k : skipped (prop k) = false → photo_wf k →
  erase (_read_head text k) = erase (_read_head text (erase k)).
Proof.
  intros Hs Hwf. unfold _read_head. cbn [erase prop]. unfold erase_prop at 1 2. cbn.
  destruct (scan_head _ _) as [q [[before after]|]].
  - assert (Hif : ∀ (b : bool) t (k : _Card), erase (if b then _measure_photo t k else k) = erase k)
      by (intros [] ??; [apply erase_measure|done]).
    rewrite !Hif. rewrite erase_decide; [|done|exact Hwf].
    unfold erase at 1 3. done.
  - rewrite Hs. destruct (_ || _); unfold erase, erase_prop; cbn; by rewrite ?Hs.
Qed.

Lemma wf_measure text k : photo_wf k → photo_wf (_measure_photo text k).
Proof. unfold photo_wf. by destruct (measure_prop text k) as (-> & _). Qed.
Lemma wf_check k : photo_wf k → photo_wf (_check_budget k).
Proof. unfold _check_budget. by destruct (_ <? _). Qed.
Lemma wf_decide h k : photo_wf k → photo_wf (_decide h k).
Proof.
  unfold photo_wf, prop_wf, _decide. intros Hk. destruct (member _ _); [destruct (_ && _ && _)|]; cbn; [done..|].
  by destruct (skipped (prop k)).
Qed.
Lemma wf_read_head text k : photo_wf k → photo_wf (_read_head text k).
Proof.
  intros Hk. unfold _read_head. destruct (scan_head _ _) as [q [[before after]|]].
  - destruct (measuring_photo _); [apply wf_measure|]; by apply wf_decide.
  - destruct (_ || _); unfold photo_wf, prop_wf in *; cbn; [|done]. by destruct (skipped (prop k)).
Qed.


Lemma wf_append text k : photo_wf k → photo_wf (append_part text k).
Proof. unfold append_part. by case_match. Qed.
Lemma wf_inspect text k : photo_wf k → photo_wf (inspect text k).
Proof.
  intros Hk. unfold inspect. case_match; [by apply wf_read_head|]. case_match; [by apply wf_measure|done].
Qed.
Lemma wf_add text k : photo_wf k → photo_wf (_add text k).
Proof.
  intros Hk. unfold _add. destruct (skipped _ && _); [case_match; [by apply wf_measure|done]|].
  apply (wf_append text), (wf_inspect text) in Hk. set (k2 := inspect _ _) in *. clearbody k2.
  unfold enforce. case_match; [case_match; [|done]|case_match; [by apply wf_check|done]].
  unfold photo_wf, prop_wf in *. cbn. destruct (skipped (prop k2)); [done|]. by destruct Hk.
Qed.

Lemma erase_append text k : skipped (prop k) = false →
  erase (append_part text k) = append_part text (erase k).
Proof. intros Hs. unfold append_part. case_match; [|done]. unfold erase, erase_prop. cbn. by rewrite Hs. Qed.
Lemma erase_inspect text k : photo_wf k → skipped (prop k) = false →
  erase (inspect text k) = erase (inspect text (erase k)).
Proof.
  intros Hk Hs. destruct (wf_kept _ Hk Hs) as [_ Hm]. unfold inspect. cbn. rewrite Hm.
  destruct (decided (prop k)); cbn [negb]; [by rewrite erase_idemp|by apply erase_read_head].
Qed.
Lemma enforce_skipped k : skipped (prop k) = true → erase (enforce k) = erase k.
Proof.
  intros Hs. unfold enforce. rewrite Hs, andb_false_r. case_match; [case_match|]; [|done..].
  unfold erase, erase_prop. cbn. by rewrite Hs.
Qed.
Lemma erase_enforce k : photo_wf k → erase (enforce k) = erase (enforce (erase k)).
Proof.
  intros Hk. destruct (skipped (prop k)) eqn:Hs; [by rewrite !enforce_skipped, erase_idemp|].
  destruct (wf_kept _ Hk Hs) as [Hr _]. unfold enforce.
  change (retaining (prop (erase k))) with false. change (decided (prop (erase k))) with (decided (prop k)).
  change (skipped (prop (erase k))) with (skipped (prop k)). rewrite Hr, Hs, andb_true_r.
  destruct (decided _); [|by rewrite erase_idemp]. rewrite <- erase_check by done. by rewrite erase_idemp.
Qed.

Lemma inspect_erase_wf text k : photo_wf (erase k) → photo_wf (inspect text (append_part text (erase k))).
Proof. intros Hk. by apply wf_inspect, wf_append. Qed.
Lemma wf_erase k : photo_wf k → photo_wf (erase k).
Proof. unfold photo_wf, prop_wf. cbn. by destruct (skipped (prop k)). Qed.

Lemma erase_add text k : photo_wf k → erase (_add text k) = erase (_add text (erase k)).
Proof.
  intros Hk. destruct (skipped (prop k)) eqn:Hs.
  - pose proof (wf_skipped _ Hk Hs) as Hd.
    assert (erase (_add text (erase k)) = erase k) as ->.
    { unfold _add. cbn. rewrite Hs. apply erase_idemp. }
    unfold _add. rewrite Hs. cbn [andb]. destruct (retaining (prop k)) eqn:Hr; cbn [negb].
    2: { case_match; [apply erase_measure|done]. }
    assert (Hk1 : erase (append_part text k) = erase k ∧ decided (prop (append_part text k)) = true ∧
                  skipped (prop (append_part text k)) = true).
    { unfold append_part. case_match; [|done]. cbn. split_and!; [|done..].
      unfold erase, erase_prop. cbn. by rewrite Hs. }
    destruct Hk1 as (He & Hd1 & Hs1). rewrite enforce_skipped; unfold inspect; rewrite Hd1; cbn [negb].
    + case_match; [by rewrite erase_measure|done].
    + case_match; [by destruct (measure_prop text (append_part text k)) as (-> & _)|done].
  - unfold _add. cbn [erase prop erase_prop skipped]. rewrite Hs. cbn -[erase].
    rewrite (erase_enforce (inspect text (append_part text k))) by (by apply wf_inspect, wf_append).
    rewrite erase_inspect by (first [by apply wf_append|unfold append_part; by case_match]).
    rewrite erase_append by done. rewrite Hs. cbn [andb]. symmetry. apply erase_enforce. by apply inspect_erase_wf, wf_erase.
Qed.

(** An update of the open property that does not look at the photo fields. *)
Definition photo_blind (f : Property → Property) : Prop :=
  ∀ p, erase_prop (f p) = erase_prop (f (erase_prop p)) ∧ (prop_wf p → prop_wf (f p)).

Lemma erase_update f k : photo_blind f →
  erase (k <| prop ::= f |>) = erase ((erase k) <| prop ::= f |>).
Proof. intros Hf. unfold erase. cbn. by rewrite (proj1 (Hf (prop k))). Qed.
Lemma wf_update f k : photo_blind f → photo_wf k → photo_wf (k <| prop ::= f |>).
Proof. intros Hf. apply Hf. Qed.

Lemma note_blind text : photo_blind (_note_line_end text).
Proof. intros p. unfold _note_line_end, erase_prop, prop_wf. destruct (nonempty _); cbn; by destruct (skipped p). Qed.
Lemma note_reset_blind text : photo_blind (λ p, _note_line_end text (p <| soft_break := false |>)).
Proof. intros p. unfold _note_line_end, erase_prop, prop_wf. destruct (nonempty _); cbn; by destruct (skipped p). Qed.
Lemma grow_blind : photo_blind grow.
Proof. intros p. unfold grow, erase_prop, prop_wf. cbn. by destruct (skipped p). Qed.
Lemma grow_base64_blind b : photo_blind (λ p, grow (p <| base64_open := b |>)).
Proof. intros p. unfold grow, erase_prop, prop_wf. cbn. by destruct (skipped p). Qed.
Lemma grow_soft_blind : photo_blind (λ p, grow (_drop_soft_break p)).
Proof.
  intros p. unfold grow, _drop_soft_break, erase_prop, prop_wf. cbn.
  destruct (skipped p) eqn:Hs; cbn; repeat destruct (drop_soft_rev _ _); cbn; by rewrite ?Hs.
Qed.

Lemma erase_close_photo k : photo_wf k → erase (close_photo k) = erase k.
Proof.
  intros Hk. unfold close_photo. destruct (retaining _ && _) eqn:E; [|done].
  apply andb_true_iff in E as [Hr _]. destruct (skipped (prop k)) eqn:Hs.
  - unfold erase, erase_prop. cbn. by rewrite Hs.
  - destruct (wf_kept _ Hk Hs) as [Hr' _]. congruence.
Qed.
Lemma wf_close_photo k : photo_wf k → photo_wf (close_photo k).
Proof.
  unfold close_photo, photo_wf, prop_wf. intros Hk.
  destruct (retaining (prop k) && _); [|done]. cbn. destruct (skipped (prop k)); [done|by destruct Hk].
Qed.

Lemma erase_close_kept k : photo_wf k → erase (close_kept k) = erase (close_kept (erase k)).
Proof.
  intros Hk. unfold close_kept. change (present (prop (erase k))) with (present (prop k)).
  change (overflowed (erase k)) with (overflowed k). change (skipped (prop (erase k))) with (skipped (prop k)).
  destruct (_ || _ || _) eqn:E; [by rewrite erase_idemp|]. apply orb_false_iff in E as [_ Hs].
  destruct (wf_kept _ Hk Hs) as [Hr Hm]. unfold _check_budget. cbn. rewrite Hs.
  destruct (_ <? _); cbn; [unfold erase, erase_prop; cbn; by rewrite ?Hs|].
  destruct (overflowed k); cbn; [unfold erase, erase_prop; cbn; by rewrite ?Hs|].
  destruct (partition _ _) as [name value].
  destruct (bool_decide _); unfold erase, erase_prop; cbn; by rewrite ?Hs.
Qed.

Lemma erase_close k : photo_wf k → erase (_close_property k) = erase (_close_property (erase k)).
Proof.
  intros Hk. unfold _close_property. rewrite erase_close_kept by (by apply wf_close_photo).
  rewrite erase_close_photo by done. done.
Qed.

Lemma erase_add_update text f k : photo_blind f → photo_wf k →
  erase (_add text (k <| prop ::= f |>)) = erase (_add text ((erase k) <| prop ::= f |>)).
Proof.
  intros Hf Hk. rewrite erase_add by (by apply wf_update).
  rewrite (erase_add text ((erase k) <| prop ::= f |>)) by (by apply wf_update, wf_erase).
  by rewrite (erase_update f k).
Qed.

Lemma erase_start_line text k : photo_wf k → erase (start_line text k) = erase (start_line text (erase k)).
Proof.
  intros Hk. unfold start_line. change (overflowed (erase k)) with (overflowed k).
  destruct (overflowed k); [by rewrite erase_idemp|].
  pose proof (note_reset_blind text) as Hn. rewrite erase_update by done. symmetry. rewrite erase_update by done.
  symmetry. do 2 f_equal.
  change (soft_break (prop (erase k))) with (soft_break (prop k)).
  change (encoding (prop (erase k))) with (encoding (prop k)).
  change (present (prop (erase k))) with (present (prop k)).
  change (version21 (erase k)) with (version21 k).
  change (base64_open (prop (erase k))) with (base64_open (prop k)).
  destruct (_ && _); [by apply (erase_add_update _ _ _ grow_soft_blind)|].
  destruct (_ && _); [by apply (erase_add_update _ _ _ grow_blind)|].
  destruct (_ && _); [by apply (erase_add_update _ _ _ (grow_base64_blind _))|].
  rewrite erase_add by done. symmetry. rewrite erase_add by done. symmetry. do 2 f_equal.
  pose proof (erase_close k Hk) as E. unfold erase in *. cbn. by injection E as -> -> -> -> -> _.
Qed.

Lemma erase_add_piece text k : photo_wf k → erase (add_piece text k) = erase (add_piece text (erase k)).
Proof.
  intros Hk. unfold add_piece. change (overflowed (erase k)) with (overflowed k).
  destruct (overflowed k); [by rewrite erase_idemp|].
  pose proof (note_blind text) as Hn. rewrite erase_update by done. symmetry. rewrite erase_update by done.
  symmetry. do 2 f_equal. by apply erase_add.
Qed.

Lemma wf_start_line text k : photo_wf k → photo_wf (start_line text k).
Proof.
  intros Hk. unfold start_line. destruct (overflowed k); [done|]. apply wf_update; [apply note_reset_blind|].
  destruct (_ && _); [|destruct (_ && _); [|destruct (_ && _)]]; apply wf_add;
    [by apply (wf_update _ _ grow_soft_blind)|by apply (wf_update _ _ grow_blind)
    |by apply (wf_update _ _ (grow_base64_blind _))|done].
Qed.
Lemma wf_add_piece text k : photo_wf k → photo_wf (add_piece text k).
Proof.
  intros Hk. unfold add_piece. destruct (overflowed k); [done|]. apply wf_update; [apply note_blind|].
  by apply wf_add.
Qed.

Lemma erase_finish k : photo_wf k → (finish k).1 = (finish (erase k)).1.
Proof.
  intros Hk. unfold finish. cbn [fst]. pose proof (erase_close k Hk) as E.
  unfold erase in E. by injection E as _ -> _ -> _ _.
Qed.

(** Cards that differ only in what depends on the photo budget. *)
Definition same_bodies (k1 k2 : option _Card) : Prop :=
  match k1, k2 with
  | Some c1, Some c2 => erase c1 = erase c2 ∧ photo_wf c1 ∧ photo_wf c2
  | None, None => True
  | _, _ => False
  end.

Lemma same_bodies_map (f : _Card → _Card) k1 k2 :
  (∀ c, photo_wf c → erase (f c) = erase (f (erase c)) ∧ photo_wf (f c)) →
  same_bodies k1 k2 → same_bodies (f <$> k1) (f <$> k2).
Proof.
  intros Hf. destruct k1 as [c1|], k2 as [c2|]; [|done..]. intros (E & H1 & H2). cbn.
  destruct (Hf c1 H1) as [-> ?], (Hf c2 H2) as [-> ?]. by rewrite E.
Qed.

Lemma cards_loop_bodies lim ph1 ph2 ps : ∀ left k1 k2, same_bodies k1 k2 →
  (λ o : card_out, o.1.1) <$> cards_loop lim ph1 left k1 ps = (λ o : card_out, o.1.1) <$> cards_loop lim ph2 left k2 ps.
Proof.
  induction ps as [|[[line cont] complete] ps IH]; intros left k1 k2 Hk; [done|]. cbn [cards_loop].
  destruct cont.
  { apply IH, same_bodies_map; [|done]. split; [by apply erase_add_piece|by apply wf_add_piece]. }
  assert (marker_kind k1 line complete = marker_kind k2 line complete) as ->.
  { unfold marker_kind. destruct k1 as [c1|], k2 as [c2|]; [|done..]. destruct Hk as (E & _).
    by injection E as _ _ _ _ _ -> _ _ _ _ _ _ _ _. }
  destruct (marker_kind k2 line complete).
  - by apply IH.
  - destruct k1 as [c1|], k2 as [c2|]; [|done..|by apply IH]. destruct Hk as (E & H1 & H2).
    pose proof (erase_finish c1 H1) as F1. rewrite E, <- (erase_finish c2 H2) in F1. cbn [fmap option_fmap option_map].
    destruct (finish c1) as [[b1|] c1'], (finish c2) as [[b2|] c2']; [|done..|by apply IH].
    injection F1 as ->. cbn [fmap list_fmap fst]. f_equal. destruct (_ <=? 0); [done|by apply IH].
  - apply IH, same_bodies_map; [|done]. split; [by apply erase_start_line|by apply wf_start_line].
Qed.
End erase.

(** Keeping contact photos does not change contact parsing: with any photo
    budget [iter_vcard_cards] yields exactly the bodies [iter_vcard_bodies]
    yields, in the same order, also for truncated, oversized and malformed
    cards. *)
Theorem photo_budget_same_bodies `{CaseMapping} chunks maximum max_card_chars max_photo_chars :
  (λ o : card_out, o.1.1) <$> iter_vcard_cards chunks maximum max_card_chars max_photo_chars =
  iter_vcard_bodies chunks maximum max_card_chars.
Proof. unfold iter_vcard_cards, iter_vcard_bodies, _iter_cards. by apply cards_loop_bodies. Qed.

(** ** Cards are isolated *)

Section isolation.
Context `{CaseMapping}.

Lemma cards_loop_take lim plim ps : ∀ left n k, 0 <= left → zlen ps < n →
  cards_loop lim plim left k ps = take (Z.to_nat (Z.max 1 left)) (cards_loop lim plim n k ps).
Proof.
  induction ps as [|[[line cont] complete] ps IH]; intros left n k Hl Hn; cbn [cards_loop]; [by rewrite take_nil|].
  rewrite zlen_cons in Hn. pose proof (zlen_nonneg ps).
  destruct cont; [apply IH; lia|]. destruct (marker_kind k line complete); [apply IH; lia| |apply IH; lia].
  destruct (finish <$> k) as [[[body|] k']|]; [|apply IH; lia..].
  rewrite (proj2 (Z.leb_gt (n - 1) 0)) by lia. destruct (Z.leb_spec (left - 1) 0).
  - by replace (Z.to_nat (Z.max 1 left)) with 1%nat by lia.
  - replace (Z.to_nat (Z.max 1 left)) with (S (Z.to_nat (Z.max 1 (left - 1)))) by lia.
    cbn [take]. f_equal. apply IH; lia.
Qed.

Lemma cards_loop_any lim plim n m k ps : zlen ps < n → zlen ps < m →
  cards_loop lim plim n k ps = cards_loop lim plim m k ps.
Proof.
  revert n m k. induction ps as [|[[line cont] complete] ps IH]; intros n m k Hn Hm; cbn [cards_loop]; [done|].
  rewrite zlen_cons in *. pose proof (zlen_nonneg ps).
  destruct cont; [apply IH; lia|]. destruct (marker_kind k line complete); [apply IH; lia| |apply IH; lia].
  destruct (finish <$> k) as [[[body|] k']|]; [|apply IH; lia..].
  rewrite !(proj2 (Z.leb_gt _ 0)) by lia. f_equal. apply IH; lia.
Qed.

(** A line that is a BEGIN:VCARD marker wherever it stands. *)
Definition begin_line (b : ustr) : Prop :=
  one_line b ∧ b ≠ [] ∧ starts_blank b = false ∧ str_casefold (strip b) = lit "begin:vcard".

Lemma begin_kind b k : begin_line b → marker_kind k b true = LBegin.
Proof. intros (_ & _ & Hb & Hm). unfold marker_kind. rewrite Hm, Hb. by destruct k. Qed.

Lemma cards_loop_split lim plim b (post pre : list piece) m : begin_line b → zlen post + 1 < m →
  ∀ n k, zlen pre + zlen post + 1 < n →
  cards_loop lim plim n k (pre ++ (b, false, true) :: post) =
  cards_loop lim plim n k pre ++ cards_loop lim plim m None ((b, false, true) :: post).
Proof.
  intros Hb Hm. pose proof (zlen_nonneg post).
  assert (Hr : cards_loop lim plim m None ((b, false, true) :: post) = cards_loop lim plim m (Some (_Card_init lim plim)) post)
    by (cbn [cards_loop]; by rewrite begin_kind). rewrite Hr. clear Hr.
  induction pre as [|[[line cont] complete] pre IH]; intros n k Hn.
  { cbn [app cards_loop]. rewrite begin_kind by done. change (zlen []) with 0 in Hn. apply cards_loop_any; lia. }
  rewrite zlen_cons in Hn. cbn [app cards_loop]. pose proof (zlen_nonneg pre).
  destruct cont; [apply IH; lia|]. destruct (marker_kind k line complete); [apply IH; lia| |apply IH; lia].
  destruct (finish <$> k) as [[[body|] k']|]; [|apply IH; lia..].
  rewrite (proj2 (Z.leb_gt _ 0)) by lia. cbn [app]. f_equal. apply IH. lia.
Qed.

(** All the cards of a text. *)
Definition every_card (max_card_chars max_photo_chars : Z) (s : ustr) : list card_out :=
  iter_vcard_cards [s] (zlen (splitlines s) + 1) max_card_chars max_photo_chars.

Lemma splitlines_break p s : splitlines (p ++ LF :: s) = splitlines (p ++ [LF]) ++ splitlines s.
Proof. unfold splitlines. by rewrite lines_aux_break, fmap_app. Qed.

Lemma splitlines_begin b s : one_line b → splitlines (b ++ LF :: s) = b :: splitlines s.
Proof.
  intros Hb. unfold splitlines. rewrite lines_aux_line, app_nil_r by done.
  rewrite lines_aux_LF. cbn. by rewrite reverse_involutive.
Qed.
End isolation.

(** C8: cards are isolated: a line "BEGIN:VCARD" that is not indented starts a
    card whatever stands before it (an unterminated card, a property in the
    middle of its value, an oversized card), so the cards of a text are those
    of the part before it followed by those of the part from it on, up to the
    maximum. *)
Theorem cards_isolated `{CaseMapping} pre b post maximum max_card_chars max_photo_chars :
  begin_line b → 
  iter_vcard_cards [pre ++ [LF] ++ b ++ [LF] ++ post] maximum max_card_chars max_photo_chars =
  take (Z.to_nat (Z.max 1 maximum))
    (every_card max_card_chars max_photo_chars (pre ++ [LF]) ++
     every_card max_card_chars max_photo_chars (b ++ [LF] ++ post)).
Proof.
  intros Hb. unfold every_card, iter_vcard_cards, _iter_cards. rewrite !line_pieces_text. cbn [app].
  rewrite (splitlines_break pre (b ++ LF :: post)), !(splitlines_begin b) by apply Hb. rewrite fmap_app. cbn [fmap list_fmap].
  set (A := splitlines _). set (B := splitlines post). set (f := λ l : ustr, (l, false, true)).
  assert (Hz : ∀ l : list ustr, zlen (f <$> l) = zlen l) by (intros; unfold zlen; by rewrite length_fmap).
  pose proof (zlen_nonneg A). pose proof (zlen_nonneg B).
  change (list_fmap ustr piece f B) with (f <$> B).
  rewrite (cards_loop_take _ _ _ _ (zlen A + zlen B + 3)) by (rewrite ?zlen_app, ?zlen_cons, ?Hz; lia).
  replace (Z.max 1 (Z.max 0 maximum)) with (Z.max 1 maximum) by lia. f_equal.
  unfold f at 2. rewrite (cards_loop_split _ _ _ _ _ (zlen B + 2)) by (rewrite ?Hz; done || lia).
  f_equal; apply cards_loop_any; rewrite ?zlen_cons, ?Hz; lia.
Qed.

Lemma cards_isolated_witness :
  iter_vcard_cards [lit "BEGIN:VCARD" ++ [LF] ++ lit "PHOTO;ENCODING=b:AAA" ++ [LF] ++ lit "BEGIN:vCard" ++ [LF]
                    ++ lit "FN:Ann" ++ [LF] ++ lit "END:VCARD"] 5 100 100 = [(lit "FN:Ann", None, None)].
Proof.
  change (lit "BEGIN:VCARD" ++ [LF] ++ lit "PHOTO;ENCODING=b:AAA" ++ [LF] ++ lit "BEGIN:vCard" ++ [LF]
          ++ lit "FN:Ann" ++ [LF] ++ lit "END:VCARD")
    with ((lit "BEGIN:VCARD" ++ [LF] ++ lit "PHOTO;ENCODING=b:AAA") ++ [LF] ++ lit "BEGIN:vCard" ++ [LF]
          ++ (lit "FN:Ann" ++ [LF] ++ lit "END:VCARD")).
  rewrite cards_isolated; [by vm_compute|]. split_and!; [by repeat constructor|done|done|by vm_compute].
Defined.
