(* ===== verification/BMessage.v ===== *)
(** * BMessage: building and parsing MAP bMessages
    (src/blueferry/obex/map_send.py, src/blueferry/obex/bmessage.py). *)
From S2P Require Import Prelude PyStr Wire Text Recipients Vcard.

Definition MAX_OUTGOING_BODY_BYTES : Z := 256 * 1024.
Definition MAX_CONTACT_NAME_CHARS : Z := 512.
Definition MAX_CONTACT_ADDRESS_CHARS : Z := 320.
Definition MAX_REMOTE_PROPERTY_CHARS : Z := 512.

Definition CRLF : ustr := [CR; LF].

Section bmessage.
Context `{CaseMapping}.

(** ** Building (map_send.py) *)

(** [line.upper().startswith(("BEGIN:", "END:"))]. *)
Definition structural (line : ustr) : bool :=
  startswith (lit "BEGIN:") (upper line) || startswith (lit "END:") (upper line).

Definition stuff_line (line : ustr) : ustr := if structural line then SPACE :: line else line.
Definition _byte_stuff (body : ustr) : ustr := join [LF] (stuff_line <$> splitlines body).

Definition _recipient_vcard (recipient : ustr) : result (list ustr) :=
  recipient ← validate_recipient recipient;
  let recipient_property := if mem AT recipient then lit "EMAIL" else lit "TEL" in
  mret [lit "BEGIN:VCARD"; lit "VERSION:2.1"; lit "N:;;;;";
        recipient_property ++ [COLON] ++ recipient; lit "END:VCARD"].

(** [str(n)] for a length. *)
Definition decimal (n : Z) : ustr := lit (pretty n).

Fixpoint recipient_lines (recipients : list ustr) : result (list ustr) :=
  match recipients with
  | [] => mret []
  | r :: rs => ls ← _recipient_vcard r; rest ← recipient_lines rs; mret (ls ++ rest)
  end.

Definition header_lines : list ustr :=
  [lit "BEGIN:BMSG"; lit "VERSION:1.0"; lit "STATUS:UNREAD"; lit "TYPE:SMS_GSM";
   lit "FOLDER:telecom/msg/outbox";
   lit "BEGIN:VCARD"; lit "VERSION:2.1"; lit "N:;;;;"; lit "TEL:"; lit "END:VCARD";
   lit "BEGIN:BENV"].

Definition _build_bmessage (recipients : list ustr) (body : ustr) : result ustr :=
  encoded ← utf8_encode body;
  if MAX_OUTGOING_BODY_BYTES <? zlen encoded
  then Raise (ValueError "message body exceeds 262144 UTF-8 bytes")
  else
    rlines ← recipient_lines recipients;
    let stuffed := _byte_stuff body in
    encoded_stuffed ← utf8_encode stuffed;
    let lines := header_lines ++ rlines ++
      [lit "BEGIN:BBODY"; lit "CHARSET:UTF-8"; lit "LENGTH:" ++ decimal (zlen encoded_stuffed);
       lit "BEGIN:MSG"; stuffed; lit "END:MSG"; lit "END:BBODY"; lit "END:BENV"; lit "END:BMSG"] in
    mret (join CRLF lines ++ CRLF).

Definition build_bmessage (recipient body : ustr) : result ustr :=
  r ← validate_recipient recipient; _build_bmessage [r] body.

Fixpoint validate_all (recipients : list ustr) : result (list ustr) :=
  match recipients with
  | [] => mret []
  | r :: rs => n ← validate_recipient r; ns ← validate_all rs; mret (n :: ns)
  end.

Definition build_group_bmessage (recipients : list ustr) (body : ustr) : result ustr :=
  normalized ← validate_all recipients;
  if negb ((2 <=? zlen normalized) && (zlen normalized <=? 20))
  then Raise (ValueError "a group message requires 2 to 20 recipients")
  else if negb (zlen (remove_dups normalized) =? zlen normalized)
  then Raise (ValueError "group recipients must be unique")
  else _build_bmessage normalized body.

(** ** Parsing (bmessage.py) *)

Record ParsedBMessage := mkParsed {
  sender_address : option ustr;
  sender_name : option ustr;
  body : option ustr;
  status : option ustr;
  type : option ustr;
  folder : option ustr;
}.

Fixpoint region_loop (offset : nat) (ls : list ustr) : option nat :=
  match ls with
  | [] => None
  | line :: ls' =>
      if bool_decide (str_casefold (strip line) = lit "begin:benv") then Some offset
      else region_loop (offset + length line)%nat ls'
  end.
Definition _originator_region (blob : ustr) : ustr :=
  match region_loop 0 (splitlines_keep blob) with
  | Some offset => take offset blob
  | None => blob
  end.

(** A raw line without the "\r" of its break, its indentation, and its marker
    text. *)
Definition line_of (raw_line : ustr) : ustr := if ends_with CR raw_line then removelast raw_line else raw_line.
Definition indent_of (line : ustr) : ustr := take (length line - length (lstrip_by is_blank line)) line.
Definition marker_of (line : ustr) : ustr := str_casefold (rstrip_by is_blank (lstrip_by is_blank line)).

(** The loop of [_message_body] over the lines [blob] is cut into at "\n";
    [cursor] is where the first of them starts.  A match is
    [(begin_start, body_start, body_end)]. *)
Definition span : Type := Z * Z * Z.
Fixpoint message_scan (cursor : Z) (segments : list ustr) (candidates : gmap ustr (Z * Z))
    (matches : list span) : list span :=
  match segments with
  | [] => matches
  | raw_line :: rest =>
      let terminated := negb (is_nil rest) in
      if is_nil rest && is_nil raw_line then matches
      else
        let line_start := cursor in
        let cursor' := cursor + zlen raw_line + 1 in
        let line := line_of raw_line in
        let indent := indent_of line in
        let marker := marker_of line in
        if bool_decide (marker = lit "begin:msg") && terminated then
          let candidates' := match candidates !! indent with
                             | Some _ => candidates
                             | None => <[indent := (line_start, cursor')]> candidates
                             end in
          message_scan cursor' rest candidates' matches
        else
          match (if bool_decide (marker = lit "end:msg") then candidates !! indent else None) with
          | Some (begin_start, body_start) =>
              message_scan cursor' rest (delete indent candidates)
                (matches ++ [(begin_start, body_start, line_start)])
          | None => message_scan cursor' rest candidates matches
          end
  end.

(** [min(matches, key=...)]: the first match with the least start. *)
Fixpoint earliest (matches : list span) : option span :=
  match matches with
  | [] => None
  | m :: ms => match earliest ms with
               | Some m' => Some (if m'.1.1 <? m.1.1 then m' else m)
               | None => Some m
               end
  end.

Definition _message_body (blob : ustr) : option ustr :=
  match earliest (message_scan 0 (split_on LF blob) ∅ []) with
  | Some (_, body_start, body_end) => Some (slice body_start body_end blob)
  | None => None
  end.

(** [re.search("^NAME:(\S+)")] with MULTILINE and IGNORECASE, for an ASCII
    name: the pattern letter "S" also matches U+017F, which has the same upper
    case. *)
Definition ignorecase_match (p c : Z) : bool :=
  (lower_ascii p =? lower_ascii c) || ((upper_ascii p =? 83) && (c =? 0x17F)).
Fixpoint match_prefix (p s : ustr) : option ustr :=
  match p, s with
  | [], _ => Some s
  | x :: p', c :: s' => if ignorecase_match x c then match_prefix p' s' else None
  | _ :: _, [] => None
  end.
Fixpoint take_while (f : Z → bool) (s : ustr) : ustr :=
  match s with c :: s' => if f c then c :: take_while f s' else [] | [] => [] end.
Fixpoint header_search (name : ustr) (segments : list ustr) : option ustr :=
  match segments with
  | [] => None
  | line :: rest =>
      match match_prefix name line with
      | Some s =>
          match take_while (λ c, negb (is_space c)) s with
          | [] => header_search name rest
          | v => Some v
          end
      | None => header_search name rest
      end
  end.
Definition _first (name blob : ustr) : option ustr :=
  take (Z.to_nat MAX_REMOTE_PROPERTY_CHARS) <$> header_search name (split_on LF blob).

(** [sender_name or None]. *)
Definition or_none (s : ustr) : option ustr := if nonempty s then Some s else None.

Record Sender := mkSender {
  phone_address : option ustr;
  sender_email : option ustr;
  found_name : option ustr;
}.
Definition note_address (old : option ustr) (candidate : ustr) : option ustr :=
  if nonempty candidate && (zlen candidate <=? MAX_CONTACT_ADDRESS_CHARS) && negb (is_some old)
  then Some candidate else old.

(** The body of the loop over the lines of the originator's vCard. *)
Definition sender_line (st : Sender) (line0 : ustr) : Sender :=
  let line := strip line0 in
  if negb (nonempty line) then st
  else
    let up := upper line in
    let '(before, after) := partition COLON line in
    let prop_value := default [] after in
    let prop := upper (default [] (head (split_on SEMICOLON before))) in
    if bool_decide (prop = lit "FN") then
      st <| found_name := or_none (strip prop_value) |>
    else if bool_decide (prop = lit "N") && negb (is_some (found_name st)) then
      let parts := split_on SEMICOLON prop_value in
      let chosen := slice 1 2 parts ++ slice 0 1 parts in
      st <| found_name := or_none (join [SPACE] (List.filter nonempty (strip <$> chosen))) |>
    else if startswith (lit "TEL") up then
      st <| phone_address := note_address (phone_address st) (strip prop_value) |>
    else if startswith (lit "EMAIL") up then
      st <| sender_email := note_address (sender_email st) (strip prop_value) |>
    else st.

Definition parse_sender (blob : ustr) : Sender :=
  match head (iter_vcard_bodies [_originator_region blob] 1 MAX_VCARD_CHARS) with
  | Some vc => foldl sender_line (mkSender None None None) (splitlines vc)
  | None => mkSender None None None
  end.

(** ["\r\n "] as a character set. *)
Definition body_margin (c : Z) : bool := (c =? CR) || (c =? LF) || (c =? SPACE).

Definition unstuff_line (line : ustr) : ustr :=
  match line with
  | c :: line' => if (c =? SPACE) && structural line' then line' else line
  | [] => line
  end.
Definition parse_body (raw_body : ustr) : ustr :=
  let stripped := strip_by body_margin raw_body in
  if nonempty stripped then join [LF] (unstuff_line <$> splitlines stripped) else stripped.

Definition parse (blob : ustr) : ParsedBMessage :=
  let s := parse_sender blob in
  {| sender_address := match phone_address s with Some a => Some a | None => sender_email s end;
     sender_name := take (Z.to_nat MAX_CONTACT_NAME_CHARS) <$> found_name s;
     body := parse_body <$> _message_body blob;
     status := _first (lit "STATUS:") blob;
     type := _first (lit "TYPE:") blob;
     folder := _first (lit "FOLDER:") blob |}.

(** ** Text lemmas *)

Lemma splitlines_one_line s : Forall one_line (splitlines s).
Proof.
  unfold splitlines. assert (H0 : ∀ s cur, one_line cur → Forall one_line (lines_aux cur s).*1); [|apply H0; constructor].
  clear s. intros s. induction s as [[|c s] IH] using length_ind; intros cur Hc; cbn [lines_aux].
  { destruct cur; constructor; [|constructor]. by apply Forall_reverse. }
  destruct (is_linebreak c) eqn:Hl; [|apply IH; [cbn; lia|by constructor]].
  assert (Hr : one_line (reverse cur)) by (by apply Forall_reverse).
  assert (Hn : ∀ t b s', (length s' < length (c :: s))%nat → one_line t → Forall one_line ((t, b) :: lines_aux [] s').*1).
  { intros t b s' Hs Ht. cbn. constructor; [done|]. apply IH; [done|constructor]. }
  repeat case_match; apply Hn; cbn; try done; lia.
Qed.

Lemma splitlines_line l s : one_line l → splitlines (l ++ LF :: s) = l :: splitlines s.
Proof.
  intros Hl. unfold splitlines. rewrite lines_aux_line, app_nil_r, lines_aux_LF by done.
  cbn. by rewrite reverse_involutive.
Qed.

Lemma splitlines_last l : one_line l → l ≠ [] → splitlines l = [l].
Proof.
  intros Hl Hn. unfold splitlines. rewrite <- (app_nil_r l) at 1. rewrite lines_aux_line, app_nil_r by done.
  cbn [lines_aux]. assert (Hr : reverse (reverse l) = l) by apply reverse_involutive.
  destruct (reverse l) as [|z l0]; [by subst l|]. change ([reverse (z :: l0)] = [l]). by rewrite Hr.
Qed.

Lemma splitlines_join ls : Forall one_line ls → (∀ l, last ls = Some l → l ≠ []) →
  splitlines (join [LF] ls) = ls.
Proof.
  induction 1 as [|l ls Hl Hls IH]; intros Hn; [done|].
  destruct ls as [|l' ls]; [apply splitlines_last; [done|by apply Hn]|].
  change (join [LF] (l :: l' :: ls)) with (l ++ LF :: join [LF] (l' :: ls)).
  rewrite splitlines_line by done. f_equal. apply IH. intros x Hx. by apply Hn.
Qed.

(** A text whose case folding starts with letters only ASCII letters fold to
    starts with those letters, in either case. *)
Lemma casefold_prefix p : Forall (λ c, is_ascii c = true ∧ c ∉ lit "skfijhtwya") p → ∀ s r,
  str_casefold s = p ++ r → ∃ s1 s2, s = s1 ++ s2 ∧ lower_ascii <$> s1 = p ∧ ascii s1 ∧ str_casefold s2 = r.
Proof.
  induction 1 as [|c p [Hc Hletter] _ IH]; intros s r E; [exists [], s; split_and!; [done|done|constructor|done]|].
  destruct s as [|x s]; [done|].
  change (str_casefold (x :: s)) with (fold1 x ++ str_casefold s) in E.
  destruct (is_ascii x) eqn:Hx.
  - rewrite fold1_ascii in E by done. injection E as E1 E2.
    destruct (IH s r E2) as (s1 & s2 & -> & <- & Ha & Hr). exists (x :: s1), s2.
    split_and!; [done|cbn; by f_equal|by constructor|done].
  - pose proof (fold1_foreign x Hx) as Hf. destruct (fold1 x) as [|y l]; [done|].
    injection E as -> _. exfalso. auto.
Qed.

Lemma upper_lower_ascii c : upper_ascii (lower_ascii c) = upper_ascii c.
Proof.
  unfold upper_ascii, lower_ascii. destruct ((65 <=? c) && (c <=? 90)) eqn:E; [|done].
  rewrite (proj2 (andb_true_iff _ _)) by lia. destruct ((97 <=? c) && (c <=? 122)) eqn:E'; lia.
Qed.

(** Folding to a text that starts with "end:" makes a line structural. *)
Lemma folded_end_structural s r : str_casefold s = lit "end:" ++ r → structural s = true.
Proof.
  intros E. destruct (casefold_prefix (lit "end:")) with (2 := E) as (s1 & s2 & -> & Hl & Ha & _).
  { apply (bool_decide_unpack _). by vm_compute. }
  unfold structural. apply orb_true_iff. right. apply startswith_spec. exists (upper s2).
  rewrite upper_app, upper_ascii_text by done. f_equal.
  transitivity (upper_ascii <$> (lower_ascii <$> s1)); [|by rewrite Hl].
  rewrite <- list_fmap_compose. apply list_fmap_ext. intros i c _. cbn. by rewrite upper_lower_ascii.
Qed.

Lemma structural_app s t : structural s = true → structural (s ++ t) = true.
Proof.
  unfold structural. rewrite upper_app, !orb_true_iff, !startswith_spec.
  intros [[u ->]|[u ->]]; [left|right]; exists (u ++ upper t); by rewrite <- (assoc_L (++)).
Qed.
End bmessage.

Example parse_built :
  (parse <$> build_bmessage (lit "ann@x.org") (lit "END:MSG" ++ [LF] ++ lit " hi"))
  = Ok {| sender_address := None; sender_name := None;
          body := Some (lit "END:MSG" ++ [LF] ++ lit " hi");
          status := Some (lit "UNREAD"); type := Some (lit "SMS_GSM");
          folder := Some (lit "telecom/msg/outbox") |}.
Proof. by vm_compute. Qed.

(** ** The body of a built message *)

Section roundtrip.
Context `{CaseMapping}.

Lemma split_on_app sep a s : ∀ cur, split_on_aux sep cur (a ++ sep :: s) =
  split_on_aux sep cur a ++ split_on sep s.
Proof.
  induction a as [|c a IH]; intros cur; cbn; [by rewrite Z.eqb_refl|].
  destruct (c =? sep); [cbn; f_equal; apply IH|apply IH].
Qed.
Lemma split_on_plain sep a : sep ∉ a → ∀ cur, split_on_aux sep cur a = [reverse cur ++ a].
Proof.
  induction a as [|c a IH]; intros Hin cur; cbn; [by rewrite app_nil_r|].
  rewrite (proj2 (Z.eqb_neq _ _)) by set_solver. rewrite IH by set_solver.
  by rewrite reverse_cons, <- (assoc_L (++)).
Qed.

Lemma one_line_LF l : one_line l → LF ∉ l ∧ CR ∉ l.
Proof. intros Hl. unfold one_line in Hl. rewrite Forall_forall in Hl. split; intros Hin; by apply Hl in Hin. Qed.

(** A line of the message, as [message_scan] sees it. *)
Lemma line_of_CR l : line_of (l ++ [CR]) = l.
Proof.
  unfold line_of, ends_with. rewrite last_snoc, bool_decide_eq_true_2 by done. apply removelast_last.
Qed.
Lemma line_of_plain l : one_line l → line_of l = l.
Proof.
  intros Hl. unfold line_of, ends_with. rewrite bool_decide_eq_false_2; [done|].
  intros Hlast. apply one_line_LF in Hl as [_ Hl]. apply Hl. by apply last_Some_elem_of.
Qed.

(** A line that cannot close a block without indentation. *)
Definition inert (raw : ustr) : Prop :=
  indent_of (line_of raw) = [] → marker_of (line_of raw) ≠ lit "end:msg".

Lemma indent_nil l : indent_of l = [] → lstrip_by is_blank l = l.
Proof.
  unfold indent_of. destruct (lstrip_by_sub is_blank l) as (p & Hp & _).
  set (c := lstrip_by is_blank l) in *. clearbody c. subst l. rewrite length_app.
  replace (length p + length c - length c)%nat with (length p) by lia. rewrite take_app_length. by intros ->.
Qed.

Lemma stuffed_inert l raw : line_of raw = stuff_line l → inert raw.
Proof.
  intros Hraw Hi Hm. rewrite Hraw in *. unfold marker_of in Hm. rewrite indent_nil in Hm by done.
  destruct (rstrip_by_sub is_blank (stuff_line l)) as (q & Hq & _).
  apply (folded_end_structural _ (lit "msg")) in Hm. apply (structural_app _ q) in Hm. rewrite <- Hq in Hm.
  unfold stuff_line in *. destruct (structural l) eqn:Hs; [|congruence].
  by apply indent_nil in Hi; apply (f_equal length) in Hi; cbn in Hi;
    destruct (lstrip_by_sub is_blank l) as (p & Hp & _);
    apply (f_equal length) in Hp; rewrite length_app in Hp; lia.
Qed.

(** What the rest of a scan adds starts after the cursor. *)
Definition later (s0 : Z) (candidates : gmap ustr (Z * Z)) : Prop :=
  ∀ i p, candidates !! i = Some p → s0 < p.1.

Lemma scan_later s0 segs : ∀ cursor cands matches, s0 < cursor → later s0 cands →
  ∃ new, message_scan cursor segs cands matches = matches ++ new ∧ Forall (λ m : span, s0 < m.1.1) new.
Proof.
  induction segs as [|raw rest IH]; intros cursor cands matches Hc Hl; cbn [message_scan].
  { exists []. by rewrite app_nil_r. }
  pose proof (zlen_nonneg raw). destruct (_ && _); [exists []; by rewrite app_nil_r|].
  destruct (_ && _).
  - apply IH; [lia|]. destruct (cands !! _) eqn:E; [done|].
    intros i p [(<- & <-)|(_ & Hp)]%lookup_insert_Some; [done|by eapply Hl].
  - destruct (bool_decide _); [|apply IH; [lia|done]].
    destruct (cands !! indent_of (line_of raw)) as [[bs be]|] eqn:E; [|apply IH; [lia|done]].
    destruct (IH (cursor + zlen raw + 1) (delete (indent_of (line_of raw)) cands)
      (matches ++ [(bs, be, cursor)])) as (new & -> & Hnew).
    { lia. } { intros i p [_ Hp]%lookup_delete_Some. by eapply Hl. }
    exists ((bs, be, cursor) :: new). rewrite <- (assoc_L (++)). split; [done|].
    constructor; [by apply (Hl _ _ E)|done].
Qed.

(** While a block without indentation is open, inert lines keep it open. *)
Definition open_at (s0 b0 : Z) (cands : gmap ustr (Z * Z)) : Prop :=
  cands !! [] = Some (s0, b0) ∧ later s0 (delete [] cands).

Lemma scan_open s0 b0 segs rest : rest ≠ [] → Forall inert segs → ∀ cursor cands matches,
  s0 < cursor → open_at s0 b0 cands →
  ∃ cands' new,
    message_scan cursor (segs ++ rest) cands matches =
    message_scan (cursor + foldr (λ l n, zlen l + 1 + n) 0 segs) rest cands' (matches ++ new) ∧
    open_at s0 b0 cands' ∧ Forall (λ m : span, s0 < m.1.1) new.
Proof.
  intros Hrest. induction 1 as [|raw segs Hraw _ IH]; intros cursor cands matches Hc Ho.
  { exists cands, []. rewrite app_nil_r. cbn. by rewrite Z.add_0_r. }
  cbn [app message_scan foldr]. destruct (segs ++ rest) as [|x l] eqn:Er; [by destruct segs|].
  rewrite <- Er in *. clear Er x l. pose proof (zlen_nonneg raw).
  replace (cursor + (zlen raw + 1 + foldr (λ l n, zlen l + 1 + n) 0 segs))
    with (cursor + zlen raw + 1 + foldr (λ l n, zlen l + 1 + n) 0 segs) by lia.
  assert (Hn : is_nil (segs ++ rest) = false) by (by destruct segs, rest). rewrite Hn. cbn [andb negb].
  destruct Ho as [Ho Hl]. rewrite andb_true_r. destruct (bool_decide _).
  - apply IH; [lia|]. destruct (cands !! indent_of _) eqn:E; [done|].
    assert (Hi : indent_of (line_of raw) ≠ []) by congruence. split; [by rewrite lookup_insert_ne|].
    intros i p Hp. rewrite lookup_delete_Some, lookup_insert_Some in Hp.
    destruct Hp as [Hne [(<- & <-)|(_ & Hp)]]; [done|]. apply (Hl i). by rewrite lookup_delete_ne.
  - case_bool_decide as Hm; [|apply IH; [lia|done]].
    assert (Hi : indent_of (line_of raw) ≠ []) by (intros Hi; by apply Hraw in Hi).
    destruct (cands !! indent_of (line_of raw)) as [[bs be]|] eqn:E; [|apply IH; [lia|done]].
    destruct (IH (cursor + zlen raw + 1) (delete (indent_of (line_of raw)) cands)
      (matches ++ [(bs, be, cursor)])) as (cands' & new & -> & Ho' & Hnew).
    { lia. }
    { split; [by rewrite lookup_delete_ne|]. intros i p Hp. rewrite !lookup_delete_Some in Hp.
      apply (Hl i). rewrite lookup_delete_Some. naive_solver. }
    exists cands', ((bs, be, cursor) :: new). rewrite <- (assoc_L (++)). split_and!; [done..|].
    constructor; [|done]. apply (Hl (indent_of (line_of raw)) (bs, be)). by rewrite lookup_delete_ne.
Qed.

Lemma earliest_least m l1 l2 : Forall (λ m' : span, m.1.1 < m'.1.1) l1 → Forall (λ m' : span, m.1.1 < m'.1.1) l2 →
  earliest (l1 ++ m :: l2) = Some m.
Proof.
  intros H1 H2. assert (E2 : ∀ l, Forall (λ m' : span, m.1.1 < m'.1.1) l → ∀ m', earliest l = Some m' → m.1.1 < m'.1.1).
  { induction 1 as [|x l Hx _ IH]; intros m' E; [done|]. cbn in E. destruct (earliest l); [|by injection E as <-].
    injection E as <-. destruct (_ <? _); [by apply IH|done]. }
  induction H1 as [|x l Hx _ IH]; cbn.
  - destruct (earliest l2) as [m'|] eqn:E; [|done]. specialize (E2 _ H2 _ E).
    by rewrite (proj2 (Z.ltb_ge _ _)) by lia.
  - rewrite IH. by rewrite (proj2 (Z.ltb_lt _ _)) by lia.
Qed.

(** A line that opens no block: before the message. *)
Definition opens (raw : ustr) : Prop := marker_of (line_of raw) = lit "begin:msg".

Lemma scan_before segs rest : rest ≠ [] → Forall (λ l, ¬ opens l) segs → ∀ cursor,
  message_scan cursor (segs ++ rest) ∅ [] =
  message_scan (cursor + foldr (λ l n, zlen l + 1 + n) 0 segs) rest ∅ [].
Proof.
  intros Hrest. induction 1 as [|raw segs Hraw _ IH]; intros cursor.
  { cbn. by rewrite Z.add_0_r. }
  cbn [app message_scan foldr].
  assert (Hn : is_nil (segs ++ rest) = false) by (by destruct segs, rest). rewrite Hn. cbn [andb].
  rewrite (bool_decide_eq_false_2 (marker_of _ = lit "begin:msg")) by done. cbn [andb].
  rewrite lookup_empty. replace (if bool_decide _ then None else None) with (@None (Z * Z)) by (by case_match).
  rewrite IH. f_equal. lia.
Qed.
End roundtrip.

Section body.
Context `{CaseMapping}.

(** The text of CRLF-terminated lines, and its segments. *)
Definition crlf_text (ls : list ustr) : ustr := concat ((λ l, l ++ CRLF) <$> ls).
Abbreviation seg_sum := (foldr (λ (l : ustr) n, zlen l + 1 + n) 0).

Lemma crlf_text_join ls : ls ≠ [] → join CRLF ls ++ CRLF = crlf_text ls.
Proof.
  unfold crlf_text. induction ls as [|l ls IH]; [done|]. intros _.
  destruct ls as [|l' ls]; [cbn; by rewrite app_nil_r|].
  change (join CRLF (l :: l' :: ls)) with (l ++ CRLF ++ join CRLF (l' :: ls)).
  rewrite <- !(assoc_L (++)), IH by done. change (fmap ?f (l :: ?r)) with (f l :: fmap f r).
  cbn [concat]. by rewrite <- (assoc_L (++)).
Qed.
Lemma crlf_text_app a b : crlf_text (a ++ b) = crlf_text a ++ crlf_text b.
Proof. unfold crlf_text. by rewrite fmap_app, concat_app. Qed.
Lemma crlf_text_cons l ls : crlf_text (l :: ls) = l ++ CRLF ++ crlf_text ls.
Proof. unfold crlf_text. cbn. by rewrite <- (assoc_L (++)). Qed.

Lemma split_crlf l s : split_on LF (l ++ CRLF ++ s) = split_on LF (l ++ [CR]) ++ split_on LF s.
Proof.
  change (l ++ CRLF ++ s) with (l ++ [CR] ++ LF :: s). rewrite (assoc_L (++)). apply split_on_app.
Qed.
Lemma split_line l : LF ∉ l → split_on LF (l ++ [CR]) = [l ++ [CR]].
Proof. intros Hl. unfold split_on. rewrite split_on_plain; [done|]. rewrite elem_of_app. intros [?|?]; set_solver. Qed.
Lemma split_text pre s : Forall one_line pre →
  split_on LF (crlf_text pre ++ s) = ((λ l, l ++ [CR]) <$> pre) ++ split_on LF s.
Proof.
  induction 1 as [|l pre Hl _ IH]; [done|]. rewrite crlf_text_cons, <- !(assoc_L (++)).
  rewrite split_crlf, split_line by (by apply one_line_LF). by rewrite IH.
Qed.

Lemma seg_sum_split a : ∀ cur, seg_sum (split_on_aux LF cur a) = zlen cur + zlen a + 1.
Proof.
  induction a as [|c a IH]; intros cur; cbn [split_on_aux foldr].
  - unfold zlen. rewrite length_reverse. cbn. lia.
  - rewrite zlen_cons. destruct (c =? LF); cbn [foldr]; rewrite IH; [|rewrite zlen_cons; lia].
    unfold zlen at 1. rewrite length_reverse. change (zlen []) with 0. unfold zlen. lia.
Qed.
Lemma seg_sum_text pre : seg_sum ((λ l, l ++ [CR]) <$> pre) = zlen (crlf_text pre).
Proof.
  induction pre as [|l pre IH]; [done|]. rewrite crlf_text_cons, !zlen_app. cbn [fmap list_fmap foldr].
  change (zlen CRLF) with 2. change (list_fmap ustr ustr ?f pre) with (f <$> pre). rewrite IH, zlen_app.
  change (zlen [CR]) with 1. lia.
Qed.

Lemma stuff_one_line l : one_line l → one_line (stuff_line l).
Proof. intros Hl. unfold stuff_line. destruct (structural l); [by constructor|done]. Qed.

Lemma stuffed_segments ls : Forall one_line ls →
  Forall inert (split_on LF (join [LF] (stuff_line <$> ls) ++ [CR])).
Proof.
  induction 1 as [|l ls Hl Hls IH].
  { cbn. constructor; [|constructor]. by apply (stuffed_inert []). }
  pose proof (stuff_one_line l Hl) as Hs. destruct ls as [|l' ls].
  - change (join [LF] (stuff_line <$> [l])) with (stuff_line l).
    rewrite split_line by (by apply one_line_LF). constructor; [|constructor].
    apply (stuffed_inert l), line_of_CR.
  - change (join [LF] (stuff_line <$> l :: l' :: ls)) with (stuff_line l ++ LF :: join [LF] (stuff_line <$> l' :: ls)).
    rewrite <- (assoc_L (++)). change ((LF :: ?x) ++ [CR]) with (LF :: (x ++ [CR])).
    unfold split_on. rewrite split_on_app. apply Forall_app. split; [|exact IH].
    rewrite split_on_plain by (by apply one_line_LF). constructor; [|constructor].
    apply (stuffed_inert l). by apply line_of_plain.
Qed.

Lemma message_body_built pre ls Q :
  Forall one_line pre → Forall (λ l, marker_of l ≠ lit "begin:msg") pre → Forall one_line ls →
  _message_body (crlf_text pre ++ lit "BEGIN:MSG" ++ CRLF ++ join [LF] (stuff_line <$> ls) ++ CRLF ++
                 lit "END:MSG" ++ CRLF ++ Q) = Some (join [LF] (stuff_line <$> ls) ++ CRLF).
Proof.
  intros Hpre Hop Hls. unfold _message_body. set (stuffed := join [LF] _).
  set (s0 := zlen (crlf_text pre)). set (b0 := s0 + 11). set (e0 := b0 + zlen stuffed + 2).
  assert (Hmark : ∀ s t, ascii s → lower_ascii <$> s = t → rstrip_by is_blank s = s → lstrip_by is_blank s = s →
                  marker_of s = t).
  { intros s t Ha <- Hr Hl. unfold marker_of. by rewrite Hl, Hr, casefold_ascii_text. }
  assert (Hbegin : marker_of (lit "BEGIN:MSG") = lit "begin:msg").
  { apply Hmark; try done. apply (bool_decide_unpack _). by vm_compute. }
  assert (Hend : marker_of (lit "END:MSG") = lit "end:msg").
  { apply Hmark; try done. apply (bool_decide_unpack _). by vm_compute. }
  assert (earliest (message_scan 0 (split_on LF (crlf_text pre ++ lit "BEGIN:MSG" ++ CRLF ++ stuffed ++ CRLF ++
                 lit "END:MSG" ++ CRLF ++ Q)) ∅ []) = Some (s0, b0, e0)) as ->.
  { rewrite split_text by done. rewrite scan_before; [|apply split_on_aux_nil|].
    2: { apply Forall_fmap. eapply Forall_impl; [exact Hop|]. intros l Hl. unfold opens. cbn. by rewrite line_of_CR. }
    rewrite seg_sum_text, Z.add_0_l. fold s0.
    rewrite split_crlf, (split_line (lit "BEGIN:MSG")) by (apply (bool_decide_unpack _); by vm_compute).
    rewrite split_crlf, (split_crlf (lit "END:MSG")),
      (split_line (lit "END:MSG")) by (apply (bool_decide_unpack _); by vm_compute).
    cbn [app]. set (segs := split_on LF (stuffed ++ [CR])). set (rest := (lit "END:MSG" ++ [CR]) :: split_on LF Q).
    cbn [message_scan]. rewrite line_of_CR, Hbegin, bool_decide_eq_true_2 by done.
    assert (Hn : is_nil (segs ++ rest) = false) by (by destruct segs). rewrite Hn. cbn [andb negb].
    rewrite lookup_empty. change (indent_of (lit "BEGIN:MSG")) with (@nil Z).
    change (zlen (lit "BEGIN:MSG" ++ [CR])) with 10. replace (s0 + 10 + 1) with b0 by (unfold b0; lia).
    destruct (scan_open s0 b0 segs rest) with (cursor := b0) (cands := <[[] := (s0, b0)]> (∅ : gmap ustr (Z * Z)))
      (matches := @nil span) as (cands & new & -> & [Ho Hl] & Hnew); [done|by apply stuffed_segments|unfold b0; lia|..].
    { split; [apply lookup_insert_eq|]. intros i p. rewrite delete_insert_id by done. by rewrite lookup_empty. }
    pose proof (seg_sum_split (stuffed ++ [CR]) []) as Hss. fold (split_on LF (stuffed ++ [CR])) segs in Hss.
    rewrite Hss. change (zlen []) with 0. rewrite zlen_app. change (zlen [CR]) with 1.
    replace (b0 + (0 + (zlen stuffed + 1) + 1)) with e0 by (unfold e0; lia).
    unfold rest. cbn [message_scan]. rewrite line_of_CR, Hend. rewrite andb_false_r.
    change (indent_of (lit "END:MSG")) with (@nil Z). cbn [bool_decide andb]. rewrite Ho. cbn [app].
    change (bool_decide (lit "end:msg" = lit "begin:msg")) with false.
    change (bool_decide (lit "end:msg" = lit "end:msg")) with true. cbn [andb].
    destruct (scan_later s0 (split_on LF Q) (e0 + zlen (lit "END:MSG" ++ [CR]) + 1) (delete [] cands)
      (new ++ [(s0, b0, e0)])) as (new' & -> & Hnew'); [|done|].
    { pose proof (zlen_nonneg stuffed). unfold e0, b0. change (zlen (lit "END:MSG" ++ [CR])) with 8. lia. }
    rewrite <- (assoc_L (++)). by apply earliest_least. }
  set (front := crlf_text pre ++ lit "BEGIN:MSG" ++ CRLF).
  assert (Hb : b0 = zlen front) by (unfold front; by rewrite zlen_app).
  rewrite (assoc_L (++) (lit "BEGIN:MSG") CRLF), (assoc_L (++) (crlf_text pre)). fold front.
  unfold slice. rewrite Hb. replace (Z.to_nat (zlen front)) with (length front) by (unfold zlen; lia). rewrite drop_app_length, (assoc_L (++) stuffed).
  assert (Z.to_nat (e0 - zlen front) = length (stuffed ++ CRLF)) as ->.
  { rewrite length_app. change (length CRLF) with 2%nat. unfold e0. rewrite Hb. unfold zlen. lia. }
  by rewrite take_app_length.
Qed.
End body.

(** ** Parsing the stuffed body *)

Section parse_body.
Context `{CaseMapping}.

(** The body lines that survive the round trip: no line already looks stuffed. *)
Definition unambiguous (l : ustr) : Prop := ∀ l', l = SPACE :: l' → structural l' = false.
(** A text that [strip("\r\n ")] leaves alone. *)
Definition trimmed (s : ustr) : Prop :=
  (∀ c, head s = Some c → body_margin c = false) ∧ (∀ c, last s = Some c → body_margin c = false).

Lemma unstuff_stuff l : unambiguous l → unstuff_line (stuff_line l) = l.
Proof.
  intros Hu. unfold stuff_line. destruct (structural l) eqn:E; [by cbn; rewrite E|].
  destruct l as [|c l]; [done|]. cbn. destruct (Z.eqb_spec c SPACE) as [->|]; [|done].
  by rewrite (Hu l).
Qed.
Lemma unstuff_plain l : unambiguous l → unstuff_line l = l.
Proof.
  intros Hu. destruct l as [|c l]; [done|]. cbn. destruct (Z.eqb_spec c SPACE) as [->|]; [|done].
  by rewrite (Hu l).
Qed.

Lemma join_cons l ls : join [LF] (l :: ls) = l ++ match ls with [] => [] | _ => LF :: join [LF] ls end.
Proof. destruct ls; cbn; [by rewrite app_nil_r|done]. Qed.

Lemma last_app_ne {A} (l k : list A) : k ≠ [] → last (l ++ k) = last k.
Proof. intros Hk. rewrite last_app. destruct (last k) eqn:E; [done|]. by apply last_None in E. Qed.

(** The last character of joined lines is that of the last line. *)
Lemma last_join ls x : last ls = Some x → x ≠ [] → last (join [LF] ls) = last x.
Proof.
  intros Hl Hx. induction ls as [|l ls IH]; [done|]. rewrite join_cons. destruct ls as [|l' ls].
  - injection Hl as ->. by rewrite app_nil_r.
  - specialize (IH Hl). rewrite last_app_ne by done.
    change (LF :: join [LF] (l' :: ls)) with ([LF] ++ join [LF] (l' :: ls)). rewrite last_app_ne; [done|].
    intros E. rewrite E in IH. symmetry in IH. by apply last_None in IH.
Qed.

Lemma stuff_last l : l ≠ [] → last (stuff_line l) = last l ∧ stuff_line l ≠ [].
Proof. unfold stuff_line. destruct (structural l); [|done]. by destruct l. Qed.

Lemma strip_margin p s q : trimmed s → s ≠ [] →
  Forall (λ c, body_margin c = true) p → Forall (λ c, body_margin c = true) q →
  strip_by body_margin (p ++ s ++ q) = s.
Proof.
  intros [Hh Hl] Hne Hp Hq. unfold strip_by. rewrite lstrip_by_all by done.
  destruct s as [|c s]; [done|]. cbn [app]. rewrite lstrip_by_id by (by apply Hh).
  change (c :: s ++ q) with ((c :: s) ++ q). rewrite rstrip_by_all by done.
  destruct (c :: s) as [|x l _] using rev_ind; [done|]. apply rstrip_by_id, Hl. by rewrite last_snoc.
Qed.

Lemma parse_stuffed ls : Forall one_line ls → Forall unambiguous ls → trimmed (join [LF] ls) →
  parse_body (join [LF] (stuff_line <$> ls) ++ CRLF) = join [LF] ls.
Proof.
  intros Hls Hu Ht. unfold parse_body. destruct ls as [|l ls]; [done|].
  apply Forall_cons in Hls as [Hl Hls], Hu as [Hul Hu]. cbn [fmap list_fmap].
  change (list_fmap ustr ustr stuff_line ls) with (stuff_line <$> ls).
  destruct (decide (l :: ls = [[]])) as [[= -> ->]|Hne]; [done|].
  (* the last line is not empty, or the text would end in a line break *)
  assert (Hlast : last (l :: ls) ≠ Some []).
  { intros E. destruct (l :: ls) as [|x xs _] using rev_ind; [done|]. rewrite last_snoc in E. injection E as ->.
    destruct xs as [|y ys]; [done|]. destruct Ht as [_ Ht]. assert (body_margin LF = false); [|done]. apply Ht.
    clear. revert y. induction ys as [|z ys IH]; intros y.
    - cbn. by rewrite last_snoc.
    - change (join [LF] ((y :: z :: ys) ++ [[]])) with (y ++ LF :: join [LF] ((z :: ys) ++ [[]])).
      rewrite last_app. specialize (IH z). destruct (join _ _) as [|a s]; [done|].
      change (last (LF :: a :: s)) with (last (a :: s)). by rewrite IH. }
  set (T := join [LF] (l :: (stuff_line <$> ls))).
  assert (HT : trimmed T ∧ T ≠ []).
  { destruct Ht as [Hh Hla]. split; [split|]; unfold T.
    - intros c Hc. apply Hh. rewrite join_cons in *. destruct l; [|done]. by destruct ls.
    - intros c Hc. apply Hla. rewrite <- Hc. destruct ls as [|l' ls]; [done|].
      destruct (last (l :: l' :: ls)) as [y|] eqn:Ey; [|by apply last_None in Ey].
      assert (Hy : y ≠ []) by congruence. rewrite (last_join (l :: l' :: ls) y) by done.
      rewrite (last_join (l :: (stuff_line <$> l' :: ls)) (stuff_line y)); [by rewrite (proj1 (stuff_last y Hy))| |by apply stuff_last].
      change (last (stuff_line <$> l' :: ls) = Some (stuff_line y)). rewrite fmap_last.
      change (last (l' :: ls) = Some y) in Ey. by rewrite Ey.
    - rewrite join_cons. destruct l; [|done]. by destruct ls. }
  destruct HT as [HT HTne].
  assert (Hs : strip_by body_margin (join [LF] (stuff_line l :: (stuff_line <$> ls)) ++ CRLF) = T).
  { assert (join [LF] (stuff_line l :: (stuff_line <$> ls)) = (if structural l then [SPACE] else []) ++ T) as ->.
    { unfold T. rewrite !join_cons. unfold stuff_line at 1. by destruct (structural l). }
    rewrite <- (assoc_L (++)). apply strip_margin; [done..| |by repeat constructor].
    destruct (structural l); by repeat constructor. }
  rewrite Hs. rewrite (proj2 (nonempty_spec T)) by done. unfold T.
  rewrite splitlines_join.
  - f_equal. cbn [fmap list_fmap]. rewrite unstuff_plain by done. f_equal.
    change (list_fmap ustr ustr unstuff_line ?x) with (unstuff_line <$> x). rewrite <- list_fmap_compose.
    rewrite <- (list_fmap_id ls) at 2. apply Forall_fmap_ext_1. eapply Forall_impl; [exact Hu|].
    intros x Hx. by apply unstuff_stuff.
  - constructor; [done|]. apply Forall_fmap. eapply Forall_impl; [exact Hls|]. intros x. apply stuff_one_line.
  - intros x Hx. destruct ls as [|l' ls]; [cbn in Hx; congruence|].
    change (last (stuff_line <$> (l' :: ls)) = Some x) in Hx.
    change (last (l' :: ls) ≠ Some []) in Hlast.
    rewrite fmap_last in Hx. destruct (last (l' :: ls)) as [y|]; [|done]. injection Hx as <-.
    apply stuff_last. congruence.
Qed.
End parse_body.

(** ** Built messages *)

Section built.
Context `{CaseMapping}.

Definition plain_char (c : Z) : Prop := 33 <= c <= 126.
Definition plain (s : ustr) : Prop := Forall plain_char s.

Lemma plain_one_line s : plain s → one_line s.
Proof. intros Hs. eapply Forall_impl; [exact Hs|]. unfold plain_char, is_linebreak. intros c Hc. lia. Qed.

Lemma pretty_go_digits n : ∀ s, Forall (λ a, plain_char (Z.of_N (Ascii.N_of_ascii a))) (String.list_ascii_of_string s) →
  Forall (λ a, plain_char (Z.of_N (Ascii.N_of_ascii a))) (String.list_ascii_of_string (pretty_N_go n s)).
Proof.
  induction (N.lt_wf_0 n) as [n _ IH]. intros s Hs. destruct (decide (n = 0%N)) as [->|Hn].
  { by rewrite pretty_N_go_0. }
  rewrite pretty_N_go_step by lia. apply IH; [by apply N.div_lt; lia|]. cbn. constructor; [|done].
  unfold pretty_N_char, plain_char. by repeat case_match.
Qed.
Lemma decimal_plain n : 0 <= n → plain (decimal n).
Proof.
  intros Hn. unfold decimal, plain, lit. apply Forall_fmap. destruct n as [|p|p]; [by repeat constructor| |lia].
  change (pretty (Z.pos p)) with (pretty_N_go (N.pos p) String.EmptyString). apply pretty_go_digits. constructor.
Qed.

(** A line that starts with another letter than "b" opens no block. *)
Lemma other_marker c l r : is_ascii c = true → is_blank c = false → lower_ascii c ≠ 98 → l = c :: r →
  marker_of l ≠ lit "begin:msg".
Proof.
  intros Ha Hb Hc -> Hm. unfold marker_of in Hm. rewrite lstrip_by_id in Hm by done.
  destruct (rstrip_by_sub is_blank (c :: r)) as (q & Hq & Hf). destruct (rstrip_by _ _) as [|d s].
  - cbn in Hq. subst q. apply Forall_cons in Hf as [Hf _]. congruence.
  - injection Hq as <- _. change (fold1 c ++ str_casefold s = lit "begin:msg") in Hm.
    rewrite fold1_ascii in Hm by done. by injection Hm.
Qed.
Lemma ascii_marker s : ascii (rstrip_by is_blank (lstrip_by is_blank s)) →
  lower_ascii <$> rstrip_by is_blank (lstrip_by is_blank s) ≠ lit "begin:msg" → marker_of s ≠ lit "begin:msg".
Proof. intros Ha Hm. unfold marker_of. by rewrite casefold_ascii_text. Qed.

Definition quiet (l : ustr) : Prop := one_line l ∧ marker_of l ≠ lit "begin:msg".

Ltac quiet_line :=
  split; [|apply ascii_marker]; unfold one_line, ascii; apply (bool_decide_unpack _); by vm_compute.

Lemma header_quiet : Forall quiet header_lines.
Proof. unfold header_lines. repeat (apply Forall_cons; split; [quiet_line|]). constructor. Qed.

Lemma safe_one_line s : Forall safe_char s → one_line s.
Proof. intros Hs. apply plain_one_line. eapply Forall_impl; [exact Hs|]. by intros c [? _]. Qed.

(** The address line of a recipient's vCard. *)
Definition address_line (r : ustr) : ustr := (if mem AT r then lit "EMAIL" else lit "TEL") ++ [COLON] ++ r.

Lemma recipient_vcard_ok r ls : _recipient_vcard r = Ok ls → ∃ r', validate_recipient r = Ok r' ∧
  Forall safe_char r' ∧
  ls = [lit "BEGIN:VCARD"; lit "VERSION:2.1"; lit "N:;;;;"; address_line r'; lit "END:VCARD"].
Proof.
  unfold _recipient_vcard. destruct (validate_recipient r) as [r'|] eqn:E; [|done]. intros [= <-].
  exists r'. split; [done|]. split; [|done].
  apply validate_recipient_cases in E as [(plus & digits & -> & Hd & Hn)|(local & domain & Hok & _)].
  - apply dialled_safe; [done|lia].
  - by apply (email_safe _ local domain).
Qed.

Lemma address_line_quiet r : Forall safe_char r → quiet (address_line r).
Proof.
  intros Hr. unfold address_line. split.
  - apply Forall_app. split; [by case_match; repeat constructor|]. apply Forall_app.
    split; [by repeat constructor|by apply safe_one_line].
  - destruct (mem AT r); [by eapply (other_marker 69)|by eapply (other_marker 84)].
Qed.

Lemma recipient_lines_quiet rs ls : recipient_lines rs = Ok ls → Forall quiet ls.
Proof.
  revert ls. induction rs as [|r rs IH]; intros ls E; cbn in E; [injection E as <-; constructor|].
  destruct (_recipient_vcard r) as [l|] eqn:El; [|done]. cbn in E.
  destruct (recipient_lines rs) as [k|]; [|done]. injection E as <-. apply Forall_app.
  split; [|by apply IH]. apply recipient_vcard_ok in El as (r' & _ & Hr & ->).
  pose proof (address_line_quiet r' Hr). do 3 (constructor; [quiet_line|]). constructor; [done|].
  constructor; [quiet_line|constructor].
Qed.

Lemma length_quiet n : 0 <= n →
  Forall quiet [lit "BEGIN:BBODY"; lit "CHARSET:UTF-8"; lit "LENGTH:" ++ decimal n].
Proof.
  intros Hn. do 2 (apply Forall_cons; split; [quiet_line|]). constructor; [|constructor].
  split; [|by eapply (other_marker 76)]. apply Forall_app.
  split; [by repeat constructor|by apply plain_one_line, decimal_plain].
Qed.

Lemma Ok_inj {A} (x y : A) : Ok x = Ok y → x = y.
Proof. congruence. Qed.

(** What [_build_bmessage] returns. *)
Lemma build_inv rs bd m : _build_bmessage rs bd = Ok m → ∃ ls n, 0 <= n ∧ recipient_lines rs = Ok ls ∧
  m = crlf_text (header_lines ++ ls ++ [lit "BEGIN:BBODY"; lit "CHARSET:UTF-8"; lit "LENGTH:" ++ decimal n]) ++
      lit "BEGIN:MSG" ++ CRLF ++ join [LF] (stuff_line <$> splitlines bd) ++ CRLF ++
      lit "END:MSG" ++ CRLF ++ crlf_text [lit "END:BBODY"; lit "END:BENV"; lit "END:BMSG"].
Proof.
  unfold _build_bmessage, mbind, result_bind, mret, result_ret.
  destruct (utf8_encode bd) as [enc|]; [|done]. destruct (_ <? _); [done|].
  destruct (recipient_lines rs) as [ls|]; [|done]. cbv zeta.
  destruct (utf8_encode (_byte_stuff bd)) as [encs|]; [|done]. intros <-%Ok_inj.
  exists ls, (zlen encs). split; [apply zlen_nonneg|]. split; [done|].
  rewrite crlf_text_join by done.
  set (q1 := [lit "BEGIN:BBODY"; lit "CHARSET:UTF-8"; lit "LENGTH:" ++ decimal (zlen encs)]).
  set (q3 := [lit "END:BBODY"; lit "END:BENV"; lit "END:BMSG"]).
  change (lit "BEGIN:BBODY" :: lit "CHARSET:UTF-8" :: (lit "LENGTH:" ++ decimal (zlen encs)) :: ?r) with (q1 ++ r).
  rewrite (assoc_L (++) ls), (assoc_L (++) header_lines), crlf_text_app, !crlf_text_cons. done.
Qed.
End built.

(** C9: what the phone gets parses back to what the user typed: for every list
    of recipients and every body [_build_bmessage] accepts, [parse] returns the
    body with its line breaks as "\n", whatever BEGIN: and END: lines (in any
    case) it contains, provided the body has no line break or space at its ends
    and no line that already starts with a space and BEGIN: or END:; the status,
    type and folder are those of the header. *)
Theorem build_parse_roundtrip `{CaseMapping} recipients bd m :
  _build_bmessage recipients bd = Ok m →
  Forall unambiguous (splitlines bd) → trimmed (join [LF] (splitlines bd)) →
  body (parse m) = Some (join [LF] (splitlines bd)) ∧ status (parse m) = Some (lit "UNREAD") ∧
  type (parse m) = Some (lit "SMS_GSM") ∧ folder (parse m) = Some (lit "telecom/msg/outbox").
Proof.
  intros Hm Hu Ht. apply build_inv in Hm as (ls & n & Hn & Hls & ->).
  set (pre := header_lines ++ ls ++ _).
  assert (Hq : Forall quiet pre).
  { unfold pre. rewrite !Forall_app. split_and!; [apply header_quiet|by eapply recipient_lines_quiet|by apply length_quiet]. }
  assert (Ho : Forall one_line pre) by (eapply Forall_impl; [exact Hq|by intros ? []]).
  unfold parse. cbn [body status type folder]. rewrite message_body_built; [|done| |apply splitlines_one_line].
  2: { eapply Forall_impl; [exact Hq|by intros ? []]. }
  cbn [fmap option_fmap option_map]. rewrite parse_stuffed by (done || apply splitlines_one_line). split; [done|].
  unfold _first. rewrite split_text by done. unfold pre. rewrite fmap_app. split_and!; reflexivity.
Qed.

Lemma build_parse_roundtrip_witness :
  ∃ m, _build_bmessage [lit "+15550109999"; lit "ann@x.org"] (lit "END:MSG" ++ CRLF ++ lit "begin:msg") = Ok m ∧
       body (parse m) = Some (lit "END:MSG" ++ [LF] ++ lit "begin:msg").
Proof.
  eexists. split; [by vm_compute|].
  refine (proj1 (build_parse_roundtrip [lit "+15550109999"; lit "ann@x.org"]
                   (lit "END:MSG" ++ CRLF ++ lit "begin:msg") _ _ _ _)); [by vm_compute| |].
  - repeat constructor; by intros ? [= ->].
  - split; intros c; vm_compute; by intros [= <-].
Defined.

(** ** Who a message is addressed to *)

Section addressed.
Context `{CaseMapping}.

(** The recipients of a bMessage, read from its lines: the addresses between
    BEGIN:BENV and BEGIN:BBODY. *)
Definition vcard_address (line : ustr) : option ustr :=
  if startswith (lit "TEL:") line then Some (drop 4 line)
  else if startswith (lit "EMAIL:") line then Some (drop 6 line) else None.
Fixpoint after_line (marker : ustr) (ls : list ustr) : list ustr :=
  match ls with [] => [] | l :: ls' => if bool_decide (l = marker) then ls' else after_line marker ls' end.
Fixpoint until_line (marker : ustr) (ls : list ustr) : list ustr :=
  match ls with [] => [] | l :: ls' => if bool_decide (l = marker) then [] else l :: until_line marker ls' end.
Definition envelope_recipients (m : ustr) : list ustr :=
  omap vcard_address (until_line (lit "BEGIN:BBODY") (after_line (lit "BEGIN:BENV") (splitlines m))).

Lemma lines_aux_CRLF cur s : lines_aux cur (CR :: LF :: s) = (reverse cur, CRLF) :: lines_aux [] s.
Proof. done. Qed.

Lemma splitlines_crlf ls s : Forall one_line ls → splitlines (crlf_text ls ++ s) = ls ++ splitlines s.
Proof.
  induction 1 as [|l ls Hl _ IH]; [done|]. rewrite crlf_text_cons, <- !(assoc_L (++)).
  unfold splitlines. rewrite lines_aux_line, app_nil_r by done.
  change (CRLF ++ crlf_text ls ++ s) with (CR :: LF :: crlf_text ls ++ s). rewrite lines_aux_CRLF, reverse_involutive.
  cbn [fmap list_fmap fst app]. f_equal. apply IH.
Qed.

Lemma address_line_value r : vcard_address (address_line r) = Some r ∧ address_line r ≠ lit "BEGIN:BBODY".
Proof.
  unfold vcard_address, address_line. destruct (mem AT r).
  - change (lit "EMAIL" ++ [COLON] ++ r) with (lit "EMAIL:" ++ r).
    assert (startswith (lit "TEL:") (lit "EMAIL:" ++ r) = false) as -> by done.
    by rewrite startswith_app.
  - change (lit "TEL" ++ [COLON] ++ r) with (lit "TEL:" ++ r). by rewrite startswith_app.
Qed.

Lemma recipient_lines_read rs ls rest : recipient_lines rs = Ok ls → ∃ ns, validate_all rs = Ok ns ∧
  omap vcard_address (until_line (lit "BEGIN:BBODY") (ls ++ rest)) =
  ns ++ omap vcard_address (until_line (lit "BEGIN:BBODY") rest).
Proof.
  revert ls. induction rs as [|r rs IH]; intros ls E; cbn in E; [injection E as <-; by exists []|].
  destruct (_recipient_vcard r) as [l|] eqn:El; [|done]. cbn in E.
  destruct (recipient_lines rs) as [k|] eqn:Ek; [|done]. injection E as <-.
  destruct (IH k eq_refl) as (ns & Hns & Hk). apply recipient_vcard_ok in El as (r' & Hr & _ & ->).
  destruct (address_line_value r') as [Hv Hne]. exists (r' :: ns). split.
  { cbn. rewrite Hr. cbn. by rewrite Hns. }
  rewrite <- (assoc_L (++)). cbn [app].
  assert (Hcons : ∀ l k, l ≠ lit "BEGIN:BBODY" → omap vcard_address (until_line (lit "BEGIN:BBODY") (l :: k)) =
    match vcard_address l with
    | Some v => v :: omap vcard_address (until_line (lit "BEGIN:BBODY") k)
    | None => omap vcard_address (until_line (lit "BEGIN:BBODY") k)
    end).
  { intros l0 k0 Hl0. cbn [until_line]. by rewrite bool_decide_eq_false_2. }
  rewrite !Hcons by done. rewrite Hv.
  change (vcard_address (lit "BEGIN:VCARD")) with (@None ustr).
  change (vcard_address (lit "VERSION:2.1")) with (@None ustr). change (vcard_address (lit "N:;;;;")) with (@None ustr).
  change (vcard_address (lit "END:VCARD")) with (@None ustr). cbn [app]. f_equal. apply Hk.
Qed.

Lemma build_addressed rs bd m : _build_bmessage rs bd = Ok m → validate_all rs = Ok (envelope_recipients m).
Proof.
  intros Hm. apply build_inv in Hm as (ls & n & Hn & Hls & ->). unfold envelope_recipients.
  rewrite splitlines_crlf.
  2: { eapply (Forall_impl quiet); [|by intros ? []]. rewrite !Forall_app.
       split_and!; [apply header_quiet|by eapply recipient_lines_quiet|by apply length_quiet]. }
  rewrite <- !(assoc_L (++)).
  assert (∀ l, after_line (lit "BEGIN:BENV") (header_lines ++ l) = l) as -> by done.
  destruct (recipient_lines_read rs ls ([lit "BEGIN:BBODY"; lit "CHARSET:UTF-8"; lit "LENGTH:" ++ decimal n] ++
    splitlines (lit "BEGIN:MSG" ++ CRLF ++ join [LF] (stuff_line <$> splitlines bd) ++ CRLF ++
      lit "END:MSG" ++ CRLF ++ crlf_text [lit "END:BBODY"; lit "END:BENV"; lit "END:BMSG"])) Hls) as (ns & -> & ->).
  by rewrite app_nil_r.
Qed.

Lemma validate_all_fixed rs ns : validate_all rs = Ok ns → validate_all ns = Ok ns.
Proof.
  revert ns. induction rs as [|r rs IH]; intros ns E; cbn in E; [by injection E as <-|].
  destruct (validate_recipient r) as [n|] eqn:En; [|done]. cbn in E.
  destruct (validate_all rs) as [k|]; [|done]. injection E as <-. cbn.
  assert (validate_recipient n = Ok n) as ->.
  { apply validate_recipient_cases in En as [(plus & digits & -> & Hd & Hn)|(local & domain & Hok & Hl)];
      [by apply dialled_valid|]. unfold validate_recipient.
    rewrite (email_strip _ _ _ Hok), (email_not_phone _ _ _ Hok), (normalize_email_ok _ _ _ Hok), Hl.
    by rewrite <- (e_shape _ _ _ Hok). }
  cbn. by rewrite (IH k eq_refl).
Qed.

Lemma remove_dups_full {A} `{EqDecision A} (l : list A) : zlen (remove_dups l) = zlen l → NoDup l.
Proof.
  assert (Hle : ∀ l : list A, zlen (remove_dups l) <= zlen l).
  { intros k. induction k as [|x k IH]; cbn; [done|]. rewrite zlen_cons. case_decide; [lia|]. rewrite zlen_cons. lia. }
  induction l as [|x l IH]; cbn; [constructor|]. rewrite zlen_cons. intros E. specialize (Hle l).
  case_decide; [lia|]. rewrite zlen_cons in E. constructor; [done|]. apply IH. lia.
Qed.
End addressed.

(** C10: a message is addressed to exactly the recipients asked for: the
    addresses in the envelope of what [build_bmessage] returns are the one
    validated recipient, and those of what [build_group_bmessage] returns are
    the validated recipients in order, between 2 and 20 of them and all
    distinct; neither a recipient nor the body can add an address. *)
Theorem built_message_addressed `{CaseMapping} bd m :
  (∀ r, build_bmessage r bd = Ok m → ∃ n, validate_recipient r = Ok n ∧ envelope_recipients m = [n]) ∧
  (∀ rs, build_group_bmessage rs bd = Ok m → ∃ ns, validate_all rs = Ok ns ∧ envelope_recipients m = ns ∧
     2 <= zlen ns <= 20 ∧ NoDup ns).
Proof.
  split.
  - intros r. unfold build_bmessage, mbind, result_bind. destruct (validate_recipient r) as [n|] eqn:En; [|done].
    intros Hm%build_addressed. exists n. split; [done|].
    assert (Hf : validate_all [n] = Ok [n]) by (apply (validate_all_fixed [r]); cbn; by rewrite En).
    rewrite Hf in Hm. by injection Hm.
  - intros rs. unfold build_group_bmessage, mbind, result_bind. destruct (validate_all rs) as [ns|] eqn:En; [|done].
    destruct (negb (_ && _)) eqn:El; [done|]. destruct (negb (_ =? _)) eqn:Ed; [done|]. intros Hm%build_addressed.
    exists ns. split; [done|]. rewrite (validate_all_fixed rs ns En) in Hm. injection Hm as <-.
    split; [done|]. split; [lia|]. apply remove_dups_full. lia.
Qed.

Lemma built_message_addressed_witness :
  ∃ m, build_group_bmessage [lit "+1 (555) 010-9999"; lit "ann@x.org"] (lit "TEL:+1900" ++ [LF] ++ lit "BEGIN:VCARD") = Ok m
    ∧ ∃ ns, validate_all [lit "+1 (555) 010-9999"; lit "ann@x.org"] = Ok ns ∧ envelope_recipients m = ns ∧
     2 <= zlen ns <= 20 ∧ NoDup ns.
Proof.
  eexists. split; [by vm_compute|].
  refine (proj2 (built_message_addressed (lit "TEL:+1900" ++ [LF] ++ lit "BEGIN:VCARD") _) _ _). by vm_compute.
Defined.

(** ** What [parse] reads from an untrusted message *)

Section untrusted.
Context `{CaseMapping}.

Lemma region_loop_app k ls : ∀ offset, region_loop offset (ls ++ k) =
  match region_loop offset ls with
  | Some n => Some n
  | None => region_loop (offset + length (concat ls))%nat k
  end.
Proof.
  induction ls as [|l ls IH]; intros offset; cbn; [by rewrite Nat.add_0_r|].
  case_bool_decide; [done|]. rewrite IH, length_app. by rewrite Nat.add_assoc.
Qed.
Lemma lines_concat s : ∀ cur, concat ((λ l : ustr * ustr, l.1 ++ l.2) <$> lines_aux cur s) = reverse cur ++ s.
Proof.
  induction s as [[|c s] IH] using length_ind; intros cur; cbn [lines_aux].
  { destruct cur; [done|]. cbn [fmap list_fmap concat fst snd]. by rewrite !app_nil_r. }
  assert (Hc : ∀ b r s', (length s' < length (c :: s))%nat → c :: s = b ++ s' →
    concat ((λ l : ustr * ustr, l.1 ++ l.2) <$> ((r, b) :: lines_aux [] s')) = r ++ c :: s).
  { intros b r s' Hs ->. cbn [fmap list_fmap concat fst snd].
    change (list_fmap (ustr * ustr)%type ustr ?f ?l) with (f <$> l). rewrite IH by done. by rewrite <- (assoc_L (++)). }
  destruct (is_linebreak c).
  - destruct s as [|d s]; [by apply Hc; cbn; try lia|]. destruct (decide (d = 10)) as [->|Hd].
    + destruct (Z.eqb_spec c 13) as [->|]; apply Hc; cbn; try done; lia.
    + assert (∀ (x y : list (ustr * ustr)), match d with 10 => x | _ => y end = y) as ->
        by (intros; repeat case_match; congruence). apply Hc; cbn; [lia|done].
  - rewrite IH by (cbn; lia). by rewrite reverse_cons, <- (assoc_L (++)).
Qed.

(** A line that ends the header. *)
Definition benv_line (b : ustr) : Prop := one_line b ∧ str_casefold (strip b) = lit "begin:benv".

Lemma lstrip_app_ws cls s p : Forall (λ c, cls c = true) p → strip_by cls (s ++ p) = strip_by cls s.
Proof.
  intros Hp. unfold strip_by. destruct (lstrip_by_sub cls s) as (q & Hq & Hf).
  assert (Hs : lstrip_by cls (s ++ p) = lstrip_by cls s ++ p ∨ (lstrip_by cls s = [] ∧ lstrip_by cls (s ++ p) = [])).
  { clear Hq Hf. induction s as [|c s IH]; cbn.
    - right. split; [done|]. rewrite <- (app_nil_r p). by rewrite lstrip_by_all.
    - destruct (cls c); [exact IH|by left]. }
  destruct Hs as [-> |[-> ->]]; [by apply rstrip_by_all|done].
Qed.

Lemma region_prefix h b x : benv_line b →
  _originator_region (h ++ [LF] ++ b ++ [LF] ++ x) = _originator_region (h ++ [LF] ++ b ++ [LF]).
Proof.
  intros [Hb Hm]. unfold _originator_region, splitlines_keep. cbn [app].
  rewrite (lines_aux_break h (b ++ LF :: x)), (lines_aux_break h (b ++ [LF])).
  rewrite !(lines_aux_line [] b), !app_nil_r, !lines_aux_LF by done. rewrite !fmap_app, !region_loop_app.
  set (hl := (λ l : ustr * ustr, l.1 ++ l.2) <$> lines_aux [] (h ++ [LF])).
  assert (Hc : concat hl = h ++ [LF]) by (unfold hl; by rewrite lines_concat).
  assert (Htake : ∀ n t, (n <= length (h ++ [LF]))%nat → take n (h ++ LF :: t) = take n (h ++ [LF])).
  { intros n t Hn. change (h ++ LF :: t) with (h ++ [LF] ++ t). rewrite (assoc_L (++)). by apply take_app_le. }
  assert (Hreg : ∀ ls o n, region_loop o ls = Some n → (n <= o + length (concat ls))%nat).
  { induction ls as [|l ls IH]; intros o n; cbn; [done|]. case_bool_decide; [intros [= <-]; lia|].
    intros E%IH. rewrite length_app. lia. }
  destruct (region_loop 0 hl) as [n|] eqn:E.
  - apply Hreg in E. rewrite Hc in E. rewrite (Htake n (b ++ LF :: x)), (Htake n (b ++ [LF])) by done. done.
  - cbn [fmap list_fmap region_loop fst snd]. rewrite reverse_involutive.
    assert (Hs : strip (b ++ [LF]) = strip b) by (apply lstrip_app_ws; by repeat constructor).
    rewrite Hs, Hm. rewrite Hc. rewrite bool_decide_eq_true_2 by done.
    rewrite (Htake _ (b ++ LF :: x)), (Htake _ (b ++ [LF])) by lia. done.
Qed.

Lemma note_address_bound old c : (∀ a, old = Some a → 1 <= zlen a <= MAX_CONTACT_ADDRESS_CHARS) →
  ∀ a, note_address old c = Some a → 1 <= zlen a <= MAX_CONTACT_ADDRESS_CHARS.
Proof.
  intros Hold a. unfold note_address. destruct (_ && _) eqn:E; [|apply Hold]. intros [= <-].
  rewrite !andb_true_iff in E. destruct E as [[E1 E2] _]. pose proof (zlen_nonneg c).
  unfold nonempty in E1. lia.
Qed.

Definition sender_ok (st : Sender) : Prop :=
  (∀ a, phone_address st = Some a → 1 <= zlen a <= MAX_CONTACT_ADDRESS_CHARS) ∧
  (∀ a, sender_email st = Some a → 1 <= zlen a <= MAX_CONTACT_ADDRESS_CHARS) ∧
  (∀ n, found_name st = Some n → n ≠ []).

Lemma or_none_some s n : or_none s = Some n → n ≠ [].
Proof. unfold or_none. destruct (nonempty s) eqn:E; [|done]. intros [= <-]. by apply nonempty_spec. Qed.

Lemma sender_line_ok st l : sender_ok st → sender_ok (sender_line st l).
Proof.
  intros (H1 & H2 & H3). unfold sender_line. destruct (negb _); [done|]. destruct (partition _ _) as [before after].
  destruct (bool_decide _); [|destruct (_ && _); [|destruct (startswith _ _); [|destruct (startswith _ _); [|done]]]];
    split_and!; cbn; try done; first [apply or_none_some|by apply note_address_bound].
Qed.
Lemma parse_sender_ok blob : sender_ok (parse_sender blob).
Proof.
  unfold parse_sender. destruct (head _) as [vc|]; [|done].
  assert (H0 : ∀ ls st, sender_ok st → sender_ok (foldl sender_line st ls)); [|apply H0; by split_and!].
  intros ls. induction ls as [|l ls IH]; intros st Hst; [done|]. by apply IH, sender_line_ok.
Qed.

Lemma take_while_spec f s : Forall (λ c, f c = true) (take_while f s).
Proof. induction s as [|c s IH]; cbn; [constructor|]. destruct (f c) eqn:E; by constructor. Qed.
Lemma header_search_ok name ls v : header_search name ls = Some v → v ≠ [] ∧ Forall (λ c, is_space c = false) v.
Proof.
  induction ls as [|l ls IH]; cbn; [done|]. destruct (match_prefix name l) as [s|]; [|done].
  pose proof (take_while_spec (λ c, negb (is_space c)) s) as Hf. destruct (take_while _ s); [done|].
  intros [= <-]. split; [done|]. eapply Forall_impl; [exact Hf|]. intros x Hx. by apply negb_true_iff.
Qed.
Lemma first_ok name blob v : _first name blob = Some v →
  1 <= zlen v <= MAX_REMOTE_PROPERTY_CHARS ∧ Forall (λ c, is_space c = false) v.
Proof.
  unfold _first. destruct (header_search _ _) as [w|] eqn:E; [|done]. intros [= <-].
  apply header_search_ok in E as [Hne Hf]. split; [|by apply Forall_take].
  destruct w as [|c w]; [done|]. rewrite zlen_take, zlen_cons. pose proof (zlen_nonneg w).
  unfold MAX_REMOTE_PROPERTY_CHARS. lia.
Qed.
End untrusted.

(** Only the header names the sender: whatever follows the first line
    BEGIN:BENV (the envelope's recipients, the message body, more cards), [parse]
    reports the same sender address and name. *)
Theorem sender_from_header_only `{CaseMapping} header b x y : benv_line b →
  let m t := parse (header ++ [LF] ++ b ++ [LF] ++ t) in
  sender_address (m x) = sender_address (m y) ∧ sender_name (m x) = sender_name (m y).
Proof.
  intros Hb. cbn zeta. unfold parse. cbn [sender_address sender_name].
  unfold parse_sender. by rewrite !(region_prefix header b) by done.
Qed.

Lemma sender_from_header_only_witness :
  sender_address (parse (lit "BEGIN:VCARD" ++ [LF] ++ lit "TEL:+1555" ++ [LF] ++ lit "END:VCARD" ++ [LF] ++
                         lit "Begin:benv " ++ [LF] ++ lit "BEGIN:VCARD" ++ [LF] ++ lit "TEL:+1900" ++ [LF] ++ lit "END:VCARD"))
  = Some (lit "+1555").
Proof.
  transitivity (sender_address (parse ((lit "BEGIN:VCARD" ++ [LF] ++ lit "TEL:+1555" ++ [LF] ++ lit "END:VCARD") ++ [LF] ++
                         lit "Begin:benv " ++ [LF] ++ []))); [|by vm_compute].
  refine (proj1 (sender_from_header_only (lit "BEGIN:VCARD" ++ [LF] ++ lit "TEL:+1555" ++ [LF] ++ lit "END:VCARD")
            (lit "Begin:benv ") (lit "BEGIN:VCARD" ++ [LF] ++ lit "TEL:+1900" ++ [LF] ++ lit "END:VCARD") [] _)).
  split; [by repeat constructor|by vm_compute].
Defined.

(** Everything [parse] returns from an untrusted message is bounded: a
    sender address has 1 to 320 characters, a name 1 to 512, and the status,
    type and folder have 1 to 512 characters, none of them white space. *)
Theorem parse_bounded `{CaseMapping} blob :
  (∀ a, sender_address (parse blob) = Some a → 1 <= zlen a <= MAX_CONTACT_ADDRESS_CHARS) ∧
  (∀ n, sender_name (parse blob) = Some n → 1 <= zlen n <= MAX_CONTACT_NAME_CHARS) ∧
  (∀ v, v ∈ [status (parse blob); type (parse blob); folder (parse blob)] →
     match v with
     | Some s => 1 <= zlen s <= MAX_REMOTE_PROPERTY_CHARS ∧ Forall (λ c, is_space c = false) s
     | None => True
     end).
Proof.
  unfold parse. cbn [sender_address sender_name status type folder].
  destruct (parse_sender_ok blob) as (H1 & H2 & H3). split_and!.
  - intros a. destruct (phone_address _) as [p|]; [|apply H2]. intros [= <-]. by apply H1.
  - intros n. destruct (found_name _) as [w|]; [|done]. intros [= <-].
    specialize (H3 w eq_refl). destruct w as [|c w]; [done|]. rewrite zlen_take, zlen_cons.
    pose proof (zlen_nonneg w). unfold MAX_CONTACT_NAME_CHARS. lia.
  - intros v. rewrite !elem_of_cons, elem_of_nil.
    intros [-> |[-> |[-> |[]]]]; (destruct (_first _ blob) eqn:E; [by eapply first_ok|done]).
Qed.
