(* ===== verification/Worker.v ===== *)
(** * Worker: the serialized OBEX executor (src/blueferry/obex/worker.py).

    One pool thread runs the submitted operations in order; a future stays in
    [_futures] until its completion callback has run on the main loop.  The
    operations and their results are parameters.  Each definition is one
    section under the worker's lock, or one step of the pool thread. *)
From S2P Require Import Prelude.

Definition MAX_OBEX_PENDING_OPERATIONS : Z := 256.

Section worker.
Context {Op Res : Type}.

Inductive status := Queued | Running | Done (outcome : result Res).

Record Future := mkFuture {
  f_id : Z;
  f_op : Op;
  f_reserved : bool;
  f_status : status;
}.

(** [_futures] in the order of submission. *)
Record ObexWorker := mkWorker {
  _closed : bool;
  _reserved : bool;
  _futures : list Future;
  next_id : Z;
}.
Definition ObexWorker_init : ObexWorker := mkWorker false false [] 0.

Definition submit (op : Op) (reserved : bool) : M ObexWorker Z :=
  w ← get;
  if _closed w then raise (RuntimeError "OBEX worker is shut down")
  else if negb (Bool.eqb (_reserved w) reserved) then raise (RuntimeError "Bluetooth recovery is in progress")
  else if MAX_OBEX_PENDING_OPERATIONS <=? zlen (_futures w) then raise (RuntimeError "OBEX operation queue is full")
  else
    modify (λ w : ObexWorker,
      w <| _futures ::= λ l, l ++ [mkFuture (next_id w) op reserved Queued] |> <| next_id ::= Z.add 1 |>);;
    mret (next_id w).

Definition reserve_if_idle : M ObexWorker bool :=
  w ← get;
  if _closed w || _reserved w || negb (zlen (_futures w) =? 0) then mret false
  else modify (λ w : ObexWorker, w <| _reserved := true |>);; mret true.

Definition release : M ObexWorker () := modify (λ w : ObexWorker, w <| _reserved := false |>).

Definition is_queued (f : Future) : bool := match f_status f with Queued => true | _ => false end.
Definition is_running (f : Future) : bool := match f_status f with Running => true | _ => false end.
Definition is_done (f : Future) : bool := match f_status f with Done _ => true | _ => false end.

(** The pool's only thread takes the next queued operation when it is free. *)
Fixpoint start_first (l : list Future) : list Future :=
  match l with
  | [] => []
  | f :: l' => match f_status f with
               | Queued => f <| f_status := Running |> :: l'
               | Running => l
               | Done _ => f :: start_first l'
               end
  end.
Definition pool_start : M ObexWorker () := modify (λ w : ObexWorker, w <| _futures ::= start_first |>).

(** The running operation returns or raises; its callback is now pending. *)
Definition finish_one (outcome : result Res) (f : Future) : Future :=
  if is_running f then f <| f_status := Done outcome |> else f.
Definition pool_finish (outcome : result Res) : M ObexWorker () :=
  modify (λ w : ObexWorker, w <| _futures ::= fmap (finish_one outcome) |>).

(** The completion callbacks run in the order of completion; [_deliver_pending]
    discards the future after its callback. *)
Definition next_done (w : ObexWorker) : option Future := List.find is_done (_futures w).
Definition discard (id : Z) : M ObexWorker () :=
  modify (λ w : ObexWorker, w <| _futures ::= List.filter (λ f, negb (f_id f =? id)) |>).

(** [shutdown] up to the point where it waits: no more submissions, queued work
    cancelled (a cancelled future is discarded without a callback). *)
Definition shutdown : M ObexWorker () :=
  modify (λ w : ObexWorker, w <| _closed := true |> <| _futures ::= List.filter (λ f, negb (is_queued f)) |>).

(** ** The worker's invariant *)

(** Finished operations, then at most one running, then queued ones; distinct
    ids. *)
Inductive in_order : list Future → Prop :=
  | order_queued l : Forall (λ f, is_queued f = true) l → in_order l
  | order_running f l : is_running f = true → Forall (λ f, is_queued f = true) l → in_order (f :: l)
  | order_done f l : is_done f = true → in_order l → in_order (f :: l).

Record worker_inv (w : ObexWorker) : Prop := {
  w_order : in_order (_futures w);
  w_bound : zlen (_futures w) <= MAX_OBEX_PENDING_OPERATIONS;
  w_ids : Forall (λ f, f_id f < next_id w) (_futures w);
  w_nodup : NoDup (f_id <$> _futures w);
  w_exclusive : _reserved w = true → Forall (λ f, f_reserved f = true) (_futures w);
}.

Lemma in_order_snoc l f : is_queued f = true → in_order l → in_order (l ++ [f]).
Proof.
  intros Hf. induction 1 as [l Hl|g l Hg Hl|g l Hg _ IH].
  - constructor. by apply Forall_app_2; [|constructor].
  - apply order_running; [done|]. by apply Forall_app_2; [|constructor].
  - by apply order_done.
Qed.
Lemma in_order_filter p l : in_order l → in_order (List.filter p l).
Proof.
  assert (Hq : ∀ k, Forall (λ f, is_queued f = true) k → Forall (λ f, is_queued f = true) (List.filter p k)).
  { clear l. intros k. induction 1; cbn; [constructor|]. destruct (p _); [by constructor|done]. }
  induction 1 as [l Hl|g l Hg Hl|g l Hg _ IH]; cbn.
  - constructor. auto.
  - destruct (p g); [apply order_running; auto|constructor; auto].
  - destruct (p g); [by apply order_done|done].
Qed.
Lemma queued_start l : Forall (λ f, is_queued f = true) l → in_order (start_first l).
Proof.
  destruct 1 as [|f l Hf Hl]; cbn; [by repeat constructor|].
  unfold is_queued in Hf. destruct (f_status f); [|done..]. by apply order_running.
Qed.
Lemma in_order_start l : in_order l → in_order (start_first l).
Proof.
  induction 1 as [l Hl|g l Hg Hl|g l Hg _ IH]; cbn.
  - by apply queued_start.
  - unfold is_running in Hg. destruct (f_status g) eqn:E; [done| |done]. apply order_running; [|done].
    unfold is_running. by rewrite E.
  - unfold is_done in Hg. destruct (f_status g) eqn:E; [done..|]. apply order_done; [|done].
    unfold is_done. by rewrite E.
Qed.
Lemma in_order_finish r (l : list Future) : in_order l → in_order (finish_one r <$> l).
Proof.
  assert (Hq : ∀ k, Forall (λ f, is_queued f = true) k → finish_one r <$> k = k).
  { clear l. intros k. induction 1 as [|f k Hf _ IH]; [done|]. cbn.
    change (list_fmap _ _ (finish_one r) k) with (finish_one r <$> k).
    rewrite IH. unfold finish_one, is_running, is_queued in *. by destruct (f_status f) eqn:E; rewrite ?E. }
  induction 1 as [l Hl|g l Hg Hl|g l Hg _ IH].
  - rewrite Hq by done. by constructor.
  - cbn. change (list_fmap _ _ (finish_one r) l) with (finish_one r <$> l). rewrite (Hq l Hl).
    unfold finish_one. rewrite Hg. apply order_done; [done|]. by constructor.
  - cbn. apply order_done; [|done]. unfold finish_one. by destruct (is_running g).
Qed.

(** What an operation of the worker does to one future besides its status. *)
Lemma start_first_fields (l : list Future) : (λ f, (f_id f, f_op f, f_reserved f)) <$> start_first l = (λ f, (f_id f, f_op f, f_reserved f)) <$> l.
Proof. induction l as [|f l IH]; [done|]. cbn. destruct (f_status f); [done|done|]. cbn. by f_equal. Qed.
Lemma finish_fields r (l : list Future) : (λ f, (f_id f, f_op f, f_reserved f)) <$> (finish_one r <$> l) = (λ f, (f_id f, f_op f, f_reserved f)) <$> l.
Proof.
  rewrite <- list_fmap_compose. apply list_fmap_ext. intros i f _. unfold compose, finish_one. by destruct (is_running f).
Qed.

(** Same futures up to their status. *)
Lemma same_fields_inv (w : ObexWorker) (l : list Future) :
  (λ f, (f_id f, f_op f, f_reserved f)) <$> l = (λ f, (f_id f, f_op f, f_reserved f)) <$> _futures w →
  in_order l → worker_inv w → worker_inv (w <| _futures := l |>).
Proof.
  intros E Ho [_ Hb Hi Hn He].
  assert (Hid : f_id <$> l = f_id <$> _futures w).
  { apply (f_equal (fmap (λ t : Z * Op * bool, t.1.1))) in E. by rewrite <- !list_fmap_compose in E. }
  assert (Hr : f_reserved <$> l = f_reserved <$> _futures w).
  { apply (f_equal (fmap (λ t : Z * Op * bool, t.2))) in E. by rewrite <- !list_fmap_compose in E. }
  assert (Hlen : length l = length (_futures w)) by (apply (f_equal length) in Hid; by rewrite !length_fmap in Hid).
  split; cbn; [done|unfold zlen in *; lia| |by rewrite Hid|].
  - assert (Hf : Forall (λ i, i < next_id w) (f_id <$> l)) by (rewrite Hid; by apply Forall_fmap).
    by apply Forall_fmap in Hf.
  - intros Hres. assert (Hf : Forall (λ b, b = true) (f_reserved <$> l)) by (rewrite Hr; apply Forall_fmap; by apply He).
    by apply Forall_fmap in Hf.
Qed.

Lemma filter_inv (w : ObexWorker) p : worker_inv w → worker_inv (w <| _futures ::= List.filter p |>).
Proof.
  intros [Ho Hb Hi Hn He]. assert (Hsub : ∀ P, Forall P (_futures w) → Forall P (List.filter p (_futures w))).
  { intros P. rewrite !Forall_forall. intros Hf x Hx. apply Hf. apply list_elem_of_In in Hx.
    apply filter_In in Hx as [Hx _]. by apply list_elem_of_In. }
  split; cbn; auto using in_order_filter.
  - clear -Hb. unfold zlen in *. pose proof (List.filter_length_le p (_futures w)). lia.
  - clear -Hn. induction (_futures w) as [|f l IH]; [done|]. cbn in *. apply NoDup_cons in Hn as [Hf Hn].
    destruct (p f); [|by apply IH]. cbn. apply NoDup_cons. split; [|by apply IH].
    intros Hin. apply Hf. apply list_elem_of_fmap in Hin as (g & E & Hg). apply list_elem_of_fmap. exists g.
    split; [done|]. apply list_elem_of_In in Hg. apply filter_In in Hg as [Hg _]. by apply list_elem_of_In.
Qed.

(** What the client and the pool thread can do to a worker. *)
Inductive call :=
  | CSubmit (op : Op) (reserved : bool) | CReserve | CRelease | CStart | CFinish (outcome : result Res)
  | CDiscard (id : Z) | CShutdown.
Definition perform (c : call) : M ObexWorker () :=
  match c with
  | CSubmit op r => submit op r;; mret ()
  | CReserve => reserve_if_idle;; mret ()
  | CRelease => release
  | CStart => pool_start
  | CFinish r => pool_finish r
  | CDiscard id => discard id
  | CShutdown => shutdown
  end.

Lemma perform_inv c (w : ObexWorker) : worker_inv w → worker_inv (perform c w).2.
Proof.
  intros Hw. destruct c; cbn [perform].
  - unfold submit. monad_simpl. destruct (_closed w); [done|]. destruct (negb _) eqn:Er; [done|].
    destruct (_ <=? _) eqn:El; [done|]. destruct Hw as [Ho Hb Hi Hn He]. cbn.
    split; cbn; [by apply in_order_snoc| | | |].
    + rewrite zlen_app. change (zlen [_]) with 1. lia.
    + apply Forall_app. split; [|constructor; [cbn; lia|constructor]].
      eapply Forall_impl; [exact Hi|]. cbn. lia.
    + rewrite fmap_app. apply NoDup_app. split; [done|]. split; [|apply NoDup_singleton].
      intros x Hx ->%list_elem_of_singleton. apply list_elem_of_fmap in Hx as (f & E & Hf). cbn in E.
      rewrite Forall_forall in Hi. specialize (Hi f Hf). lia.
    + intros Hr. apply Forall_app. split; [by apply He|]. constructor; [|constructor]. cbn.
      rewrite Hr in Er. by destruct reserved.
  - unfold reserve_if_idle. monad_simpl. destruct (_ || _) eqn:E; [done|]. destruct Hw. split; cbn; try done.
    intros _. rewrite !orb_false_iff in E. destruct E as [_ E]. destruct (_futures w); [constructor|done].
  - destruct Hw. by split.
  - apply (same_fields_inv w); [apply start_first_fields|apply in_order_start, Hw|done].
  - apply (same_fields_inv w); [apply finish_fields|apply in_order_finish, Hw|done].
  - by apply filter_inv.
  - destruct (filter_inv w (λ f, negb (is_queued f)) Hw). by split.
Qed.

Lemma reachable_inv cs : worker_inv (run_all (perform <$> cs) ObexWorker_init).
Proof.
  apply run_all_invariant.
  - intros m t Hm Ht. apply list_elem_of_fmap in Hm as (c & -> & _). by apply perform_inv.
  - split; cbn; try constructor; done.
Qed.
End worker.
Arguments Future : clear implicits.
Arguments ObexWorker : clear implicits.

(** Whatever the clients and the pool thread do, at most 256 operations are
    pending, they complete in the order of submission with at most one running
    at a time, and while the worker is reserved every pending operation was
    submitted under the reservation: a profile transfer that was submitted,
    runs, or waits for its callback excludes a reservation, and the other way
    round. *)
Theorem worker_serialized {Op Res} (cs : list (call (Op:=Op) (Res:=Res))) :
  let w := run_all (perform <$> cs) ObexWorker_init in
  zlen (_futures w) <= MAX_OBEX_PENDING_OPERATIONS ∧ in_order (_futures w) ∧
  (_reserved w = true → ∀ f, f ∈ _futures w → f_reserved f = true) ∧
  ((reserve_if_idle w).1 = Ok true → _futures w = []).
Proof.
  cbn zeta. set (w := run_all _ _). destruct (reachable_inv cs) as [Ho Hb _ _ He]. fold w in Ho, Hb, He.
  split_and!; [done|done| |].
  - intros Hr. apply Forall_forall. by apply He.
  - unfold reserve_if_idle. monad_simpl. destruct (_ || _) eqn:E; [done|]. intros _.
    rewrite !orb_false_iff in E. destruct E as [_ E]. by destruct (_futures w).
Qed.
