(* ===== verification/Recovery.v ===== *)
(** * Recovery: the last-resort adapter reset
    (class BluetoothRecovery of src/blueferry/bluetooth_recovery.py).

    [World] holds the object's attributes, the settings file's record, the
    OBEX worker it reserves, the adapter's two pending flags, the asynchronous
    replies and idle callbacks that are under way, the clocks, and a log of
    what the object did.  [step] is one main-loop callback, one step of the
    worker's thread, or one step of the environment; what a collaborator
    answers to a callback is the [Answers] of that step.  A restart of the
    daemon keeps only the settings file. *)
From S2P Require Import Prelude Worker.

Definition POLL_SECONDS : Z := sec 10.
Definition OUTAGE_SECONDS : Z := sec 300.
Definition SOFT_RESET_SECONDS : Z := sec 180.
Definition RESET_SETTLE_SECONDS : Z := sec 60.
Definition REARM_SECONDS : Z := sec 600.
Definition HOURLY_LIMIT_SECONDS : Z := sec 3600.
Definition HEALTH_PROBE_SECONDS : Z := sec 60.
Definition HEALTH_FRESH_SECONDS : Z := sec 90.

Record AdapterState := mkAdapterState {
  owner : string;
  address : string;
  powered : bool;
  safe : bool;
  power_state : string;
  revision : Z;
  incarnation : Z;
  le_reset_safe : bool;
}.
#[global] Instance AdapterState_eq_dec : EqDecision AdapterState.
Proof. solve_decision. Defined.

Record RecoveryObservation := mkObservation {
  healthy : bool;
  health_proof : option Z;
  eligible : bool;
  busy : bool;
}.

(** A value of the settings file, as far as the code tells values apart:
    [JNum] is a finite [int] or [float], as a time in the model's unit. *)
Inductive json := JStr (s : string) | JBool (b : bool) | JNum (n : Z) | JOther.
#[global] Instance json_eq_dec : EqDecision json.
Proof. solve_decision. Defined.
Abbreviation record := (gmap string json).

(** What runs on the worker: the MAP probe of one generation, the power cycle,
    the restoration, or an operation of another component. *)
Inductive op :=
  | OpProbe (generation : Z) (state : AdapterState)
  | OpCycle (state : AdapterState)
  | OpRestore
  | OpOther.

(** What the object did, with the monotonic and the wall clock. *)
Inductive action :=
  | AObserved (o : RecoveryObservation)  (* in [_check] *)
  | AProbed (o : RecoveryObservation)    (* in [_after_probe] *)
  | ASaved (r : record)
  | AResetLe
  | AProbe
  | ACycle (state : AdapterState)
  | APause
  | AResume
  | AStop
  | ARestart.
Record entry := mkEntry { at_ : Z; wall_at : Z; what : action }.

(** An asynchronous read of the adapter that will answer. *)
Inductive read_reply :=
  | RSnapshot (generation : Z)
  | RAfterProbe (generation : Z) (expected : AdapterState) (when_ : Z).

Record World := mkWorld {
  _record : record;
  _running : bool;
  _suspended : bool;
  _timer : bool;
  _generation : Z;
  _identity : option (string * string);
  _proof_floor : Z;
  _outage_since : option Z;
  _healthy_since : option Z;
  _last_observation : Z;
  _le_outage_since : option Z;
  _soft_reset_at : option Z;
  _probing : bool;
  active : bool;
  _operation_pending : bool;
  _resume_pending : bool;
  _snapshot_pending : bool;
  _cancelled : bool;
  (* collaborators *)
  disk : record;
  worker : ObexWorker op Z;
  restore_pending : bool;
  cleanup_pending : bool;
  reads : list read_reply;
  idles : list (Z * AdapterState * Z);
  clock : Z;
  wall_clock : Z;
  log : list entry;
}.

(** A new object over the settings file's record. *)
Definition World_init (saved : record) (clk wall : Z) (history : list entry) : World :=
  mkWorld saved false false false 0 None clk None None clk None None false false false false false false
    saved ObexWorker_init false false [] [] clk wall history.

(** The answers of the collaborators during one callback; [None] is an
    exception. *)
Record Answers := mkAnswers {
  a_blocked : bool;
  a_read : option AdapterState;
  a_async_ok : bool;
  a_observed : option RecoveryObservation;
  a_probe_health_ok : bool;
  a_reset_le : option bool;
  a_saved : bool;
  a_cleaned : bool;
  a_paused : bool;
}.

Definition emit (a : action) : M World () :=
  modify (λ w : World, w <| log ::= λ l, l ++ [mkEntry (clock w) (wall_clock w) a] |>).
Definition on_worker {A} (m : M (ObexWorker op Z) A) : M World A :=
  λ w, let '(r, k) := m (worker w) in (r, w <| worker := k |>).
(** [try: m except Exception as e: h(e)]. *)
Definition catch (m : M World ()) (h : exn → M World ()) : M World () :=
  λ w, match m w with
       | (Raise e, w') => h e w'
       | ok => ok
       end.
(** [try: x = m except Exception as e: h(e); return]  followed by [k]. *)
Definition attempt {A} (m : M World A) (h : exn → M World ()) (k : A → M World ()) : M World () :=
  λ w, match m w with
       | (Raise e, w') => h e w'
       | (Ok x, w') => k x w'
       end.
(** A call that raises unless [ok]. *)
Definition may_raise (ok : bool) (msg : string) : M World () := if ok then mret () else raise (RuntimeError msg).
Definition answer {A} (a : option A) (msg : string) : M World A :=
  match a with Some x => mret x | None => raise (RuntimeError msg) end.

Section recovery.
(** The phone's address, and whether snapshots are read asynchronously. *)
Context (phone : string) (read_async : bool).

Definition _resume : M World () := emit AResume.
Definition _pause (a : Answers) : M World () := may_raise (a_paused a) "pause";; emit APause.

Definition discard_window (suspended : option bool) (w : World) : World :=
  w <| _generation ::= Z.add 1 |> <| _snapshot_pending := false |>
    <| _suspended := default (_suspended w) suspended |>
    <| _outage_since := None |> <| _le_outage_since := None |> <| _healthy_since := None |>
    <| _soft_reset_at := None |> <| _probing := false |> <| _proof_floor := clock w |>.
Definition invalidate (suspended : option bool) : M World () :=
  modify (discard_window suspended);;
  w ← get;
  if active w then modify (λ w : World, w <| _cancelled := true |>)
  else if _running w && bool_decide (suspended = Some false) && _resume_pending w then
    modify (λ w : World, w <| _resume_pending := false |>);; _resume
  else mret ().

Definition _finished (error : bool) : M World () :=
  modify (λ w : World, w <| _operation_pending := false |>);;
  w ← get;
  if restore_pending w then mret ()
  else
    modify (λ w : World, w <| active := false |>);;
    on_worker release;;
    invalidate (Some (_suspended w));;
    w ← get;
    if _running w && _suspended w then modify (λ w : World, w <| _resume_pending := true |>)
    else if _running w then _resume
    else mret ().

(** The submission of the restoration, when none is under way. *)
Definition submit_restore : M World () :=
  w ← get;
  if _operation_pending w then mret ()
  else
    modify (λ w : World, w <| _operation_pending := true |>);;
    catch (on_worker (submit OpRestore true);; mret ()) (λ _, _finished true).

Definition _continue_restoration (a : Answers) : M World () :=
  w ← get;
  if active w then submit_restore
  else
    reserved ← on_worker reserve_if_idle;
    if negb (reserved : bool) then mret ()
    else
      modify (λ w : World, w <| active := true |>);;
      attempt (_pause a) (λ _, _finished true) (λ _, submit_restore).

Definition start (a : Answers) : M World () :=
  w ← get;
  if _running w then mret ()
  else
    modify (λ w : World, w <| _running := true |> <| _timer := true |>);;
    w ← get;
    if restore_pending w then _continue_restoration a else mret ().

Definition stop : M World () :=
  emit AStop;;
  modify (λ w : World, w <| _running := false |>);;
  invalidate None;;
  modify (λ w : World, w <| _timer := false |>).

(** [_save]: the record is replaced only when the file was written. *)
Definition _save (a : Answers) (updates : record) : M World bool :=
  w ← get;
  let merged := updates ∪ _record w in
  if a_saved a then
    modify (λ w : World, w <| disk := merged |> <| _record := merged |>);;
    emit (ASaved merged);;
    mret true
  else mret false.

Definition forget_phone (a : Answers) : M World () :=
  invalidate None;;
  _save a {["verified" := JBool false; "spent" := JBool true]};;
  mret ().

Definition _known (w : World) (s : AdapterState) : bool :=
  bool_decide (_record w !! "adapter" = Some (JStr (address s))) &&
  bool_decide (_record w !! "phone" = Some (JStr phone)) &&
  bool_decide (_record w !! "verified" = Some (JBool true)).

Definition unspent (w : World) : bool := bool_decide (_record w !! "spent" = Some (JBool false)).

Definition _allowed (w : World) (s : AdapterState) : bool :=
  _known w s && negb (cleanup_pending w) && unspent w &&
  match default (JNum 0) (_record w !! "last_attempt") with
  | JNum last => HOURLY_LIMIT_SECONDS <=? wall_clock w - last
  | _ => false
  end.

(** [proof is None or proof < floor or not (age satisfies the bound)]. *)
Definition proof_missing (w : World) (proof : option Z) (too_old : Z → bool) : bool :=
  match proof with
  | None => true
  | Some p => (p <? _proof_floor w) || too_old (clock w - p)
  end.

(** A healthy and an unhealthy observation end what the other one started. *)
Definition note_healthy (observed : RecoveryObservation) : M World () :=
  modify (λ w : World, w <| _outage_since := None |> <| _le_outage_since := None |> <| _soft_reset_at := None |>);;
  emit (AObserved observed).
Definition note_outage (observed : RecoveryObservation) : M World () :=
  modify (λ w : World, w <| _healthy_since := None |>);;
  emit (AObserved observed).

(** [_check] for a healthy observation. *)
Definition check_healthy (a : Answers) (state : AdapterState) (observed : RecoveryObservation) : M World () :=
  note_healthy observed;;
  let proof := health_proof observed in
  w ← get;
  if _known w state && unspent w then mret ()
  else
    when (proof_missing w proof (λ age, HEALTH_PROBE_SECONDS <=? age)) (may_raise (a_probe_health_ok a) "probe health");;
    w ← get;
    if proof_missing w proof (λ age, HEALTH_FRESH_SECONDS <? age)
    then modify (λ w : World, w <| _healthy_since := None |>)
    else
      modify (λ w : World, w <| _healthy_since ::= λ h, Some (default (clock w) h) |>);;
      w ← get;
      if negb (_known w state) then
        _save a {["adapter" := JStr (address state); "phone" := JStr phone;
                  "verified" := JBool true; "spent" := JBool false]};; mret ()
      else if negb (unspent w) && (REARM_SECONDS <=? clock w - default (clock w) (_healthy_since w)) then
        _save a {["spent" := JBool false]};; mret ()
      else mret ().

(** [_check] for an outage: the windows, the soft reset, then the probe before
    a cycle. *)
Definition open_windows (cycle_allowed : bool) : M World () :=
  modify (λ w : World, w <| _le_outage_since := Some (default (clock w) (_le_outage_since w)) |>
    <| _outage_since := if cycle_allowed then Some (default (clock w) (_outage_since w)) else None |>).
Definition soft_reset (a : Answers) : M World () :=
  accepted ← answer (a_reset_le a) "reset";
  when (accepted : bool) (emit AResetLe;; modify (λ w : World, w <| _soft_reset_at := Some (clock w) |>)).
Definition submit_probe (state : AdapterState) : M World () :=
  modify (λ w : World, w <| _probing := true |>);;
  w ← get;
  catch (on_worker (submit (OpProbe (_generation w) state) false);; emit AProbe)
        (λ _, modify (λ w : World, w <| _probing := false |>)).
Definition check_outage (a : Answers) (state : AdapterState) : M World () :=
  w ← get;
  let cycle_allowed := safe state && _allowed w state in
  open_windows cycle_allowed;;
  w ← get;
  if _probing w then mret ()
  else if negb (is_some (_soft_reset_at w)) &&
          (SOFT_RESET_SECONDS <=? clock w - default (clock w) (_le_outage_since w)) then soft_reset a
  else
    match _outage_since w, _soft_reset_at w with
    | Some outage, Some reset =>
        if negb cycle_allowed || (clock w - outage <? OUTAGE_SECONDS) || (clock w - reset <? RESET_SETTLE_SECONDS)
        then mret ()
        else submit_probe state
    | _, _ => mret ()
    end.

Definition identity (s : AdapterState) : string * string := (owner s, address s).

Definition _check (a : Answers) (given : option AdapterState) : M World () :=
  state ← answer (match given with Some s => Some s | None => a_read a end) "read";
  w ← get;
  when (negb (bool_decide (_identity w = Some (identity state))))
    (invalidate None;; modify (λ w : World, w <| _identity := Some (identity state) |>));;
  if negb (powered state) then invalidate None
  else
    w ← get;
    when (HEALTH_FRESH_SECONDS <? clock w - _last_observation w)
      (modify (λ w : World, w <| _healthy_since := None |> <| _outage_since := None |>
        <| _le_outage_since := None |> <| _soft_reset_at := None |>));;
    modify (λ w : World, w <| _last_observation := clock w |>);;
    observed ← answer (a_observed a) "observe";
    if healthy observed then check_healthy a state observed
    else
      note_outage observed;;
      w ← get;
      if busy observed then mret ()
      else if negb (le_reset_safe state) || negb (eligible observed) || negb (_known w state) || cleanup_pending w
      then modify (λ w : World, w <| _outage_since := None |> <| _le_outage_since := None |> <| _soft_reset_at := None |>)
      else check_outage a state.

Definition _snapshot_failed (generation : Z) : M World () :=
  w ← get;
  if negb (generation =? _generation w) || negb (_running w) then mret () else invalidate None.

Definition _snapshot_ready (a : Answers) (state : AdapterState) (generation : Z) : M World () :=
  w ← get;
  if negb (generation =? _generation w) || negb (_running w) || _suspended w then mret ()
  else
    modify (λ w : World, w <| _snapshot_pending := false |>);;
    if active w || restore_pending w then mret ()
    else catch (_check a (Some state)) (λ _, w ← get; _snapshot_failed (_generation w)).

(** [adapter.cleanup_journal()]: a pending cleanup is retried; it reports no
    failure. *)
Definition cleanup_journal (a : Answers) : M World () :=
  modify (λ w : World, w <| cleanup_pending ::= andb (negb (a_cleaned a)) |>).

Definition _tick (a : Answers) : M World () :=
  w ← get;
  if negb (_running w) then modify (λ w : World, w <| _timer := false |>)
  else if _suspended w then mret ()
  else if a_blocked a then (if active w then mret () else invalidate None)
  else if active w || restore_pending w then _continue_restoration a
  else
    catch
      (cleanup_journal a;;
       if negb read_async then _check a None
       else if _snapshot_pending w then mret ()
       else
         modify (λ w : World, w <| _snapshot_pending := true |>);;
         may_raise (a_async_ok a) "read_async";;
         modify (λ w : World, w <| reads ::= λ l, l ++ [RSnapshot (_generation w)] |>))
      (λ _, invalidate None).

Definition _probe_failed (generation : Z) : M World () :=
  w ← get;
  if negb (generation =? _generation w) then mret ()
  else modify (λ w : World, w <| _probing := false |> <| _outage_since := None |>).

(** [_after_probe] once the adapter's state has been read. *)
Definition cycle_now (a : Answers) (expected current : AdapterState) (observed : RecoveryObservation) : M World () :=
  w ← get;
  if negb (bool_decide (current = expected)) || negb (safe current) || healthy observed
     || negb (eligible observed) || busy observed || negb (_allowed w current)
  then mret ()
  else
    reserved ← on_worker reserve_if_idle;
    if negb (reserved : bool) then mret ()
    else
      w ← get;
      saved ← _save a {["spent" := JBool true; "last_attempt" := JNum (wall_clock w)]};
      if negb (saved : bool) then on_worker release
      else
        modify (λ w : World, w <| active := true |> <| _operation_pending := true |> <| _cancelled := false |>);;
        catch (_pause a;; on_worker (submit (OpCycle current) true);; emit (ACycle current))
              (λ _, _finished true).

Definition _after_probe (a : Answers) (generation : Z) (expected : AdapterState) (when_ : Z)
    (given : option AdapterState) : M World () :=
  w ← get;
  if negb (generation =? _generation w) || negb (_running w) || _suspended w then mret ()
  else if (sec 30 <? clock w - when_) ||
          match _outage_since w with Some since => clock w - since <? OUTAGE_SECONDS | None => true end
  then modify (λ w : World, w <| _probing := false |>)
  else if negb (is_some given) && read_async then
    catch (may_raise (a_async_ok a) "read_async";;
           modify (λ w : World, w <| reads ::= λ l, l ++ [RAfterProbe generation expected when_] |>))
          (λ _, _snapshot_failed generation)
  else
    modify (λ w : World, w <| _probing := false |>);;
    attempt (current ← answer (match given with Some s => Some s | None => a_read a end) "read";
             observed ← answer (a_observed a) "observe";
             emit (AProbed observed);; mret (current, observed))
            (λ _, invalidate None)
            (λ co : AdapterState * RecoveryObservation, cycle_now a expected co.1 co.2).

(** ** The program's and the environment's steps *)

(** The completion callback of a worker operation. *)
Definition deliver (o : op) (outcome : result Z) : M World () :=
  match o, outcome with
  | OpProbe g state, Ok when_ => modify (λ w : World, w <| idles ::= λ l, l ++ [(g, state, when_)] |>)
  | OpProbe g _, Raise _ => _probe_failed g
  | OpCycle _, Ok _ | OpRestore, Ok _ => _finished false
  | OpCycle _, Raise _ | OpRestore, Raise _ => _finished true
  | OpOther, _ => mret ()
  end.

Definition reply (a : Answers) (r : read_reply) (outcome : option AdapterState) : M World () :=
  match r, outcome with
  | RSnapshot g, Some s => _snapshot_ready a s g
  | RAfterProbe g expected when_, Some s => _after_probe a g expected when_ (Some s)
  | RSnapshot g, None | RAfterProbe g _ _, None => _snapshot_failed g
  end.

Inductive event :=
  | EStart (a : Answers)
  | ETick (a : Answers)
  | EInvalidate (suspended : option bool)
  | EStop
  | EForgetPhone (a : Answers)
  | EReply (n : nat) (a : Answers) (outcome : option AdapterState)
  | EIdle (a : Answers)
  | EDeliver
  | EPoolStart
  | EPoolFinish (outcome : result ())
  | EOther (o : op)
  | EAdapter (restore cleanup : bool)
  | EWorkerShutdown
  | ETime (monotonic wall : Z)
  | ERestart.

Definition delete_nth {A} (n : nat) (l : list A) : list A := take n l ++ drop (S n) l.

Definition step (e : event) : M World () :=
  match e with
  | EStart a => start a
  | ETick a => w ← get; if _timer w then _tick a else mret ()
  | EInvalidate s => invalidate s
  | EStop => stop
  | EForgetPhone a => forget_phone a
  | EReply n a outcome =>
      w ← get;
      match reads w !! n with
      | None => mret ()
      | Some r => modify (λ w : World, w <| reads ::= delete_nth n |>);; reply a r outcome
      end
  | EIdle a =>
      w ← get;
      match idles w with
      | [] => mret ()
      | (g, s, t) :: l => modify (λ w : World, w <| idles := l |>);; _after_probe a g s t None
      end
  | EDeliver =>
      w ← get;
      match next_done (worker w) with
      | Some (mkFuture id o _ (Done r)) => catch (deliver o r) (λ _, mret ());; on_worker (discard id)
      | _ => mret ()
      end
  | EPoolStart => on_worker pool_start
  | EPoolFinish r =>
      (* a probe returns the clock when it finishes *)
      w ← get; on_worker (pool_finish (match r with Ok _ => Ok (clock w) | Raise e => Raise e end))
  | EOther o => match o with OpOther => on_worker (submit OpOther false);; mret () | _ => mret () end
  | EAdapter restore cleanup => modify (λ w : World, w <| restore_pending := restore |> <| cleanup_pending := cleanup |>)
  | EWorkerShutdown => on_worker shutdown
  | ETime monotonic wall =>
      modify (λ w : World, w <| clock ::= λ c, c + Z.max 0 monotonic |> <| wall_clock := wall |>)
  | ERestart => emit ARestart;; modify (λ w : World, World_init (disk w) (clock w) (wall_clock w) (log w))
  end.

Definition run (es : list event) (w : World) : World := run_all (step <$> es) w.
End recovery.

(** The daemons of one computer, one after another: each is configured for a
    phone, starts from the settings file that the last one left, and runs its
    events.  The log goes on. *)
Record daemon := mkDaemon { d_phone : string; d_read_async : bool; d_events : list event }.
Definition daemons (l : list daemon) (w : World) : World :=
  foldl (λ w d, run (d_phone d) (d_read_async d) (ERestart :: d_events d) w) w l.
