(* ===== verification/RecoveryScenario.v ===== *)
(** * RecoveryScenario: a concrete phone, adapter and day of polls, at which
    the theorems about the recovery are evaluated. *)
From S2P Require Import Prelude Worker Recovery.

Definition the_phone : string := "AA:BB".
Definition the_adapter : AdapterState := mkAdapterState ":1.5" "11:22" true true "on" 0 0 true.

(** Every collaborator answers; the poll at [t] sees [o]. *)
Definition answers (o : RecoveryObservation) : Answers :=
  mkAnswers false (Some the_adapter) true (Some o) true (Some true) true true true.
Definition well (t : Z) : Answers := answers (mkObservation true (Some t) true false).
Definition ill : Answers := answers (mkObservation false None true false).

(** [n] polls, 60 s apart, from time [t]; wall time is the clock plus a day. *)
Definition at_time (d t : Z) : event := ETime (sec d) (sec (t + 86400)).
Definition poll (healthy : bool) (t : Z) : list event :=
  [at_time 60 t; ETick (if healthy then well (sec t) else ill)].
Fixpoint polls (healthy : bool) (n : nat) (t : Z) : list event :=
  match n with
  | O => []
  | S n' => poll healthy (t + 60) ++ polls healthy n' (t + 60)
  end.

(** The worker runs its first operation, and the main loop its callbacks. *)
Definition run_operation : list event := [EPoolStart; EPoolFinish (Ok ()); EDeliver].

(** Adoption of the phone, 300 s of outage with an LE reset, the probe, and
    the cycle. *)
Definition outage : list event := polls true 2 0 ++ polls false 6 120 ++ run_operation ++ [EIdle ill].
Definition first_cycle : list event := EStart ill :: outage.
(** Health gives the attempt back; an hour later a second outage. *)
Definition second_outage : list event := polls true 62 480 ++ polls false 6 4200 ++ run_operation ++ [EIdle ill].
Definition second_cycle : list event := first_cycle ++ run_operation ++ second_outage.
(** The same for a daemon that starts after the first cycle. *)
Definition next_cycle : list event := EStart ill :: second_outage.

Definition after (es : list event) : World := run the_phone false es (World_init ∅ 0 0 []).

(** A probe that waits behind another operation, across a healthy poll and a
    whole second outage. *)
Definition stale_probe : list event :=
  EStart ill :: polls true 2 0 ++ polls false 5 120 ++ [EOther OpOther; EPoolStart] ++ poll false 480
  ++ poll true 540 ++ polls false 6 540 ++ [EPoolFinish (Ok ()); EDeliver] ++ run_operation ++ [EIdle ill].

(** The entry of the log at which the given action was taken last. *)
Definition is_healthy_poll (e : entry) : bool := match what e with AObserved o => healthy o | _ => false end.
Definition is_reset (e : entry) : bool := match what e with AResetLe => true | _ => false end.
Definition is_attempt (e : entry) : bool := match what e with ACycle _ => true | _ => false end.

(** What follows the last healthy poll. *)
Fixpoint since_healthy (l : list entry) : list entry :=
  match l with
  | [] => []
  | e :: l' => if existsb is_healthy_poll l' then since_healthy l' else if is_healthy_poll e then l' else l
  end.
