(* ===== verification/RecoverySafety.v ===== *)
(** * RecoverySafety: what the last-resort adapter reset guarantees. *)
From S2P Require Import Prelude Worker Recovery RecoveryScenario.

(** ** Invariants along the code *)

Section stable.
Context (I : World → Prop).

Lemma stable_catch m h : stable I m → (∀ e, stable I (h e)) → stable I (catch m h).
Proof.
  intros Hm Hh w Hw. unfold catch. specialize (Hm w Hw). destruct (m w) as [[[]|e] w'] eqn:E; [done|].
  by apply Hh.
Qed.
Lemma stable_attempt {A} (m : M World A) h k :
  stable I m → (∀ e, stable I (h e)) → (∀ x, stable I (k x)) → stable I (attempt m h k).
Proof.
  intros Hm Hh Hk w Hw. unfold attempt. specialize (Hm w Hw). destruct (m w) as [[x|e] w'].
  - by apply Hk.
  - by apply Hh.
Qed.
Lemma stable_on_worker {A} (m : M (ObexWorker op Z) A) :
  (∀ w k, I w → I (w <| worker := k |>)) → stable I (on_worker m).
Proof. intros Hk w Hw. unfold on_worker. destruct (m (worker w)) as [r k]. cbn. by apply Hk. Qed.
End stable.

(** [keeps] for the methods of the object. *)
Ltac stable :=
  repeat lazymatch goal with
    | |- keeps _ (catch _ _) => apply stable_catch; [|intros ?]
    | |- keeps _ (attempt _ _ _) => apply stable_attempt; [|intros ?|intros ?]
    | |- keeps _ (answer ?x _) => destruct x; cbn [answer]
    | |- keeps _ (may_raise ?x _) => destruct x; cbn [may_raise]
    | |- keeps _ (if healthy ?o then _ else _) => destruct (healthy o) eqn:?
    | |- keeps _ _ =>
        first
          [ solve [auto 1 with keeps nocore]
          | lazymatch goal with
            | |- keeps _ (mbind _ _) => apply keeps_bind; [apply _| |intros ?]
            | |- keeps _ (modify _) => apply keeps_modify; intros ?
            | |- keeps _ (when _ _) => apply keeps_when; [apply _|]
            | |- keeps _ (match ?x with _ => _ end) => destruct x
            | |- keeps _ _ => apply keeps_pure; [apply _|]; intros ?; reflexivity
            end ]
    end.

(** ** The hourly budget *)

Definition is_cycle (e : entry) : bool := match what e with ACycle _ => true | _ => false end.
Definition cycles (l : list entry) : list entry := List.filter is_cycle l.

(** The attempts of the log are the last one of the record and earlier ones,
    each at least an hour before the next. *)
Record budget (w : World) : Prop := {
  b_disk : disk w = _record w;
  b_last : ∀ e, e ∈ cycles (log w) → ∃ t, _record w !! "last_attempt" = Some (JNum t) ∧ wall_at e <= t;
  b_apart : ∀ i j e1 e2, (i < j)%nat → cycles (log w) !! i = Some e1 → cycles (log w) !! j = Some e2 →
    wall_at e1 + HOURLY_LIMIT_SECONDS <= wall_at e2;
}.

Lemma cycles_snoc l e : cycles (l ++ [e]) = cycles l ++ (if is_cycle e then [e] else []).
Proof. unfold cycles. rewrite List.filter_app. cbn. by destruct (is_cycle e). Qed.

Section budget.
Context (phone : string) (read_async : bool).

(** A step that leaves the record, the file and the attempts alone. *)
Lemma budget_frame w w' :
  disk w' = disk w → _record w' = _record w → cycles (log w') = cycles (log w) → budget w → budget w'.
Proof. intros Hd Hr Hl [H1 H2 H3]. split; rewrite ?Hd, ?Hr, ?Hl; done. Qed.

Lemma budget_emit a : is_cycle (mkEntry 0 0 a) = false → stable budget (emit a).
Proof.
  intros Ha w. unfold holding. apply budget_frame; [done..|]. cbn -[cycles]. rewrite cycles_snoc.
  unfold is_cycle in *. cbn in *. rewrite Ha. apply app_nil_r.
Qed.

Lemma budget_save a u : u !! "last_attempt" = None → stable budget (_save a u).
Proof.
  intros Hu w [H1 H2 H3]. unfold _save. monad_simpl. destruct (a_saved a); [|by split].
  assert (Hm : (u ∪ _record w) !! "last_attempt" = _record w !! "last_attempt") by (by rewrite lookup_union_r).
  set (merged := u ∪ _record w) in *. clearbody merged.
  assert (Hc : ∀ a', is_cycle (mkEntry 0 0 a') = false →
    cycles (log w ++ [mkEntry (clock w) (wall_clock w) a']) = cycles (log w)).
  { intros a' Ha. rewrite cycles_snoc. unfold is_cycle in *. cbn in *. rewrite Ha. apply app_nil_r. }
  split; cbn -[cycles]; rewrite ?Hc by done; [done| |done].
  intros e He. destruct (H2 e He) as (t & Ht & Hle). exists t. by rewrite Hm.
Qed.

Lemma budget_worker w k : budget w → budget (w <| worker := k |>).
Proof. by apply budget_frame. Qed.

Ltac budget_leaf :=
  first [ by unfold holding; apply budget_frame | by apply budget_emit | by apply budget_save
        | by apply stable_on_worker; intros ? ?; apply budget_worker ].

Lemma budget_invalidate s : stable budget (invalidate s).
Proof. unfold invalidate, _resume. stable; budget_leaf. Qed.
#[local] Hint Resolve budget_invalidate : keeps.
Lemma budget_finished e : stable budget (_finished e).
Proof. unfold _finished, _resume. stable; budget_leaf. Qed.
#[local] Hint Resolve budget_finished : keeps.
Lemma budget_submit_restore : stable budget submit_restore.
Proof. unfold submit_restore. stable; budget_leaf. Qed.
#[local] Hint Resolve budget_submit_restore : keeps.
Lemma budget_continue a : stable budget (_continue_restoration a).
Proof. unfold _continue_restoration, _pause. stable; budget_leaf. Qed.
#[local] Hint Resolve budget_continue : keeps.
Lemma budget_healthy a state o : stable budget (check_healthy phone a state o).
Proof. unfold check_healthy, note_healthy. stable; budget_leaf. Qed.
Lemma budget_outage a state : stable budget (check_outage phone a state).
Proof. unfold check_outage, open_windows, soft_reset, submit_probe. stable; budget_leaf. Qed.
#[local] Hint Resolve budget_healthy budget_outage : keeps.
Lemma budget_check a given : stable budget (_check phone a given).
Proof. unfold _check, note_outage. stable; budget_leaf. Qed.
#[local] Hint Resolve budget_check : keeps.
Lemma budget_snapshot_failed g : stable budget (_snapshot_failed g).
Proof. unfold _snapshot_failed. stable; budget_leaf. Qed.
#[local] Hint Resolve budget_snapshot_failed : keeps.
Lemma budget_tick a : stable budget (_tick phone read_async a).
Proof. unfold _tick, cleanup_journal. stable; budget_leaf. Qed.

(** The attempt about to start is in the record, an hour after all others. *)
Definition fresh (w : World) : Prop := budget w ∧
  _record w !! "last_attempt" = Some (JNum (wall_clock w)) ∧
  ∀ e, e ∈ cycles (log w) → wall_at e + HOURLY_LIMIT_SECONDS <= wall_clock w.

Lemma fresh_frame w w' :
  disk w' = disk w → _record w' = _record w → cycles (log w') = cycles (log w) → wall_clock w' = wall_clock w →
  fresh w → fresh w'.
Proof. intros Hd Hr Hl Hc (H1 & H2 & H3). split; [by apply (budget_frame w)|]. by rewrite Hr, Hl, Hc. Qed.

Lemma allowed_last w s e : budget w → _allowed phone w s = true → e ∈ cycles (log w) →
  wall_at e + HOURLY_LIMIT_SECONDS <= wall_clock w.
Proof.
  intros Hw Ha He. destruct (b_last w Hw e He) as (t & Ht & Hle). unfold _allowed in Ha.
  apply andb_true_iff in Ha as [_ Ha]. rewrite Ht in Ha. cbn in Ha. lia.
Qed.

(** The one place that cycles: the attempt is on disk before the radio is
    touched. *)
Lemma budget_attempt a state w : fresh w →
  budget (catch (_pause a;; on_worker (submit (OpCycle state) true);; emit (ACycle state)) (λ _, _finished true) w).2.
Proof.
  intros Hw. assert (Hf : ∀ w, fresh w → budget (_finished true w).2).
  { intros w' Hw'. by apply (budget_finished true), Hw'. }
  unfold catch, _pause. destruct (a_paused a); cbn [may_raise]; [|by apply Hf].
  unfold mbind, M_bind, mret, M_ret, emit, modify, on_worker. cbn beta iota.
  set (w1 := w <| log ::= _ |>).
  assert (Hw1 : fresh w1) by (apply (fresh_frame w); [done..|cbn -[cycles]; rewrite cycles_snoc; apply app_nil_r|done|done]).
  clearbody w1. destruct (submit _ _ _) as [[id|e] k]; cbn [fst snd];
    [|apply Hf; by apply (fresh_frame w1)].
  destruct Hw1 as ([H1 H2 H3] & Hl & Ha). split; cbn -[cycles]; [done| |]; rewrite cycles_snoc; cbn -[cycles].
  - intros e. rewrite elem_of_app, list_elem_of_singleton. intros [He| ->]; [by apply H2|].
    exists (wall_clock w1). by split.
  - intros i j e1 e2 Hij E1 E2. apply lookup_app_Some in E2 as [E2|[Hge E2]].
    + apply (H3 i j); [done| |done]. rewrite lookup_app_l in E1; [done|]. apply lookup_lt_Some in E2. lia.
    + destruct (j - _)%nat eqn:Ej in E2; [|done]. injection E2 as <-. cbn. apply Ha.
      rewrite lookup_app_l in E1 by lia. by eapply list_elem_of_lookup_2.
Qed.

Lemma budget_cycle a expected current o : stable budget (cycle_now phone a expected current o).
Proof.
  intros w Hw. unfold cycle_now. unfold mbind at 1, M_bind at 1, get at 1.
  destruct (_ || negb (_allowed phone w current)) eqn:E; [done|]. apply orb_false_iff in E as [_ Ha].
  apply negb_false_iff in Ha. unfold mbind at 1, M_bind at 1, on_worker at 1.
  destruct (reserve_if_idle (worker w)) as [[r|e] k]; cbn [fst snd]; [|by apply budget_worker].
  destruct r; cbn [negb]; [|by apply budget_worker].
  unfold mbind at 1, M_bind at 1, get at 1. set (w1 := w <| worker := k |>).
  assert (Hw1 : budget w1) by (by apply budget_worker).
  assert (Hall : ∀ e, e ∈ cycles (log w1) → wall_at e + HOURLY_LIMIT_SECONDS <= wall_clock w1)
    by (intros e; by apply (allowed_last w current)).
  clearbody w1. clear Ha Hw w k. unfold mbind at 1, M_bind at 1, _save.
  unfold mbind at 1, M_bind at 1, get at 1. destruct (a_saved a).
  - set (merged := {["spent" := _; "last_attempt" := _]} ∪ _).
    assert (Hm : merged !! "last_attempt" = Some (JNum (wall_clock w1))) by (by apply lookup_union_Some_l). clearbody merged.
    unfold mbind at 1 2, M_bind at 1 2, modify at 1, emit at 1, modify at 1, mret, M_ret. cbn [fst snd negb].
    unfold mbind at 1, M_bind at 1, modify at 1. cbn [fst snd]. apply budget_attempt.
    destruct Hw1 as [H1 H2 H3]. split; [split|]; cbn -[cycles]; rewrite ?cycles_snoc, ?app_nil_r; try done.
    intros e He. exists (wall_clock w1). split; [done|]. specialize (Hall e He). unfold HOURLY_LIMIT_SECONDS, sec in Hall. lia.
  - unfold mret, M_ret. cbn [negb]. by apply stable_on_worker; [intros ???; apply budget_worker|].
Qed.
#[local] Hint Resolve budget_cycle budget_tick : keeps.

Lemma budget_after_probe a g expected t given : stable budget (_after_probe phone read_async a g expected t given).
Proof. unfold _after_probe. stable; budget_leaf. Qed.
#[local] Hint Resolve budget_after_probe : keeps.
Lemma budget_snapshot_ready a state g : stable budget (_snapshot_ready phone a state g).
Proof. unfold _snapshot_ready. stable; budget_leaf. Qed.
#[local] Hint Resolve budget_snapshot_ready : keeps.

Lemma budget_probe_failed g : stable budget (_probe_failed g).
Proof. unfold _probe_failed. stable; budget_leaf. Qed.
#[local] Hint Resolve budget_probe_failed : keeps.

Lemma budget_step e : stable budget (step phone read_async e).
Proof.
  destruct e; unfold step, start, stop, forget_phone, reply, deliver; stable; try budget_leaf.
  intros [H1 H2 H3]. split; cbn -[cycles]; rewrite ?H1; done.
Qed.

Lemma budget_run es w : budget w → budget (run phone read_async es w).
Proof.
  intros Hw. unfold run. apply run_all_invariant; [|done]. intros m w' Hm Hw'.
  apply list_elem_of_fmap in Hm as (e & -> & _). by apply (budget_step e).
Qed.
Lemma budget_init saved clk wall : budget (World_init saved clk wall []).
Proof. split; cbn; [done| |done]. by intros e He%elem_of_nil. Qed.
End budget.

Lemma budget_daemons l w : budget w → budget (daemons l w).
Proof.
  unfold daemons. revert w. induction l as [|d l IH]; intros w Hw; [done|]. cbn [foldl]. apply IH. by apply budget_run.
Qed.

(** C12: the adapter is power cycled at most once per hour of the wall clock,
    whatever happens: any two attempts of the log are at least 3600 s apart,
    across restarts of the daemon, also for another phone or with another
    adapter, failed writes of the settings file, a phone that is forgotten, and
    with the wall clock set forward or back. *)
Theorem cycles_hourly saved clk wall l i j e1 e2 :
  let w := daemons l (World_init saved clk wall []) in
  (i < j)%nat → cycles (log w) !! i = Some e1 → cycles (log w) !! j = Some e2 →
  wall_at e1 + sec 3600 <= wall_at e2.
Proof. cbn zeta. apply b_apart. apply budget_daemons, budget_init. Qed.

(** The second attempt is made by a daemon for another phone. *)
Lemma cycles_hourly_witness :
  let w := daemons [mkDaemon the_phone false (first_cycle ++ run_operation); mkDaemon "CC:DD" false next_cycle] (World_init ∅ 0 0 []) in
  let e1 := mkEntry (sec 480) (sec 86880) (ACycle the_adapter) in
  let e2 := mkEntry (sec 4560) (sec 90960) (ACycle the_adapter) in
  cycles (log w) !! 0%nat = Some e1 ∧ cycles (log w) !! 1%nat = Some e2 ∧ wall_at e1 + sec 3600 <= wall_at e2.
Proof.
  intros w e1 e2. assert (E1 : cycles (log w) !! 0%nat = Some e1) by (vm_compute; reflexivity).
  assert (E2 : cycles (log w) !! 1%nat = Some e2) by (vm_compute; reflexivity).
  pose proof (cycles_hourly ∅ 0 0 _ 0 1 e1 e2 Nat.lt_0_1 E1 E2) as H. by repeat split.
Defined.

(** ** The evidence behind each action *)

(** Every poll after [s] in the log was unhealthy, or healthy. *)
Definition unhealthy_after (s : Z) (l : list entry) : Prop :=
  ∀ e o, e ∈ l → what e = AObserved o → s < at_ e → healthy o = false.
Definition healthy_after (s : Z) (l : list entry) : Prop :=
  ∀ e o, e ∈ l → what e = AObserved o → s < at_ e → healthy o = true.

(** The record in force after a log that starts from [saved]. *)
Definition next_record (r : record) (e : entry) : record := match what e with ASaved r' => r' | _ => r end.
Definition current_record (saved : record) (l : list entry) : record := foldl next_record saved l.

Definition clears_spent (r : record) : bool := bool_decide (r !! "spent" = Some (JBool false)).
Definition verified_for (phone : string) (r : record) : Prop :=
  r !! "phone" = Some (JStr phone) ∧ r !! "verified" = Some (JBool true).

Section evidence.
Context (phone : string) (read_async : bool) (saved : record).

(** The entry that spends the attempt: the record before it allowed one. *)
Definition pays (l : list entry) (e : entry) : Prop :=
  verified_for phone (current_record saved l) ∧ clears_spent (current_record saved l) = true ∧
  ∃ r, what e = ASaved r ∧ r !! "spent" = Some (JBool true) ∧ r !! "last_attempt" = Some (JNum (wall_at e)).

(** What the log before it must say for an action to be taken at time [t]. *)
Definition grounds (l : list entry) (t : Z) (a : action) : Prop :=
  match a with
  | ACycle _ => (∃ s, s + OUTAGE_SECONDS <= t ∧ unhealthy_after s l) ∧ (∃ p, p ∈ l ∧ what p = AProbe) ∧
      ∃ l0 e p, l = l0 ++ [e; p] ∧ what p = APause ∧ pays l0 e
  | AProbe => ∃ r, r ∈ l ∧ what r = AResetLe ∧ at_ r + RESET_SETTLE_SECONDS <= t ∧ unhealthy_after (at_ r) l
  | AResetLe => ∃ s, s + SOFT_RESET_SECONDS <= t ∧ unhealthy_after s l
  | ASaved r =>
      clears_spent r = true →
      (∃ h, h + REARM_SECONDS <= t ∧ healthy_after h l) ∨
      (* the phone is adopted: its bond was not verified with this adapter *)
      (verified_for phone r ∧ ¬ (verified_for phone (current_record saved l) ∧
         current_record saved l !! "adapter" = r !! "adapter"))
  | _ => True
  end.

Inductive grounded : list entry → Prop :=
  | grounded_nil : grounded []
  | grounded_snoc l e : grounded l → Forall (λ e', at_ e' <= at_ e) l → grounds l (at_ e) (what e) → grounded (l ++ [e]).

Definition has_probe (w : World) : Prop := ∃ p, p ∈ log w ∧ what p = AProbe.
Definition is_probe (f : Future op Z) : bool := match f_op f with OpProbe _ _ => true | _ => false end.
Definition is_after_probe (r : read_reply) : bool := match r with RAfterProbe _ _ _ => true | _ => false end.

Record evidence (w : World) : Prop := {
  e_log : grounded (log w);
  e_past : Forall (λ e, at_ e <= clock w) (log w);
  e_record : _record w = current_record saved (log w);
  e_disk : disk w = _record w;
  e_outage : ∀ s, _outage_since w = Some s → s <= clock w ∧ unhealthy_after s (log w);
  e_le_outage : ∀ s, _le_outage_since w = Some s → s <= clock w ∧ unhealthy_after s (log w);
  e_healthy : ∀ s, _healthy_since w = Some s → s <= clock w ∧ healthy_after s (log w);
  e_reset : ∀ s, _soft_reset_at w = Some s → s <= clock w ∧ unhealthy_after s (log w) ∧
    ∃ r, r ∈ log w ∧ what r = AResetLe ∧ at_ r = s;
  e_probe : ∀ f, f ∈ _futures (worker w) → is_probe f = true → has_probe w;
  e_reads : ∀ r, r ∈ reads w → is_after_probe r = true → has_probe w;
  e_idles : idles w ≠ [] → has_probe w;
}.

Lemma after_snoc (P : bool) s l t b o : t <= s ∨ healthy o = P →
  (∀ e o, e ∈ l → what e = AObserved o → s < at_ e → healthy o = P) →
  ∀ e o', e ∈ l ++ [mkEntry t b (AObserved o)] → what e = AObserved o' → s < at_ e → healthy o' = P.
Proof.
  intros Ho Hl e o'. rewrite elem_of_app, list_elem_of_singleton. intros [He| ->]; [by apply Hl|].
  cbn. intros [= <-] Hs. destruct Ho; [lia|done].
Qed.

(** An entry that is not an observation. *)
Definition unobserved (a : action) : Prop := match a with AObserved _ => False | _ => True end.
Lemma after_snoc_other (P : bool) s l t b a : unobserved a →
  (∀ e o, e ∈ l → what e = AObserved o → s < at_ e → healthy o = P) →
  ∀ e o', e ∈ l ++ [mkEntry t b a] → what e = AObserved o' → s < at_ e → healthy o' = P.
Proof.
  intros Ha Hl e o'. rewrite elem_of_app, list_elem_of_singleton. intros [He| ->]; [by apply Hl|].
  cbn. intros ->. done.
Qed.
Lemma unhealthy_snoc s l t b a : unobserved a → unhealthy_after s l → unhealthy_after s (l ++ [mkEntry t b a]).
Proof. intros Ha Hl. exact (after_snoc_other false s l t b a Ha Hl). Qed.
Lemma healthy_snoc s l t b a : unobserved a → healthy_after s l → healthy_after s (l ++ [mkEntry t b a]).
Proof. intros Ha Hl. exact (after_snoc_other true s l t b a Ha Hl). Qed.
Lemma current_record_snoc l e : current_record saved (l ++ [e]) = next_record (current_record saved l) e.
Proof. unfold current_record. by rewrite foldl_app. Qed.

(** The parts of the state the invariant speaks about. *)
Lemma evidence_frame w w' :
  log w' = log w → clock w' = clock w → _record w' = _record w → disk w' = disk w →
  (_outage_since w' = _outage_since w ∨ _outage_since w' = None) →
  (_le_outage_since w' = _le_outage_since w ∨ _le_outage_since w' = None) →
  (_healthy_since w' = _healthy_since w ∨ _healthy_since w' = None) →
  (_soft_reset_at w' = _soft_reset_at w ∨ _soft_reset_at w' = None) →
  worker w' = worker w → reads w' = reads w → idles w' = idles w → evidence w → evidence w'.
Proof.
  intros Hl Hc Hr Hd Ho Hle Hh Hs Hw Hre Hi [].
  split; unfold has_probe in *; rewrite ?Hl, ?Hc, ?Hr, ?Hd, ?Hw, ?Hre, ?Hi; try done.
  - by destruct Ho as [-> | ->].
  - by destruct Hle as [-> | ->].
  - by destruct Hh as [-> | ->].
  - by destruct Hs as [-> | ->].
Qed.

(** A worker that has no new probe. *)
Lemma evidence_worker w k : (∀ f, f ∈ _futures k → is_probe f = true → ∃ f', f' ∈ _futures (worker w) ∧ is_probe f' = true) →
  evidence w → evidence (w <| worker := k |>).
Proof. intros Hk []. split; cbn; try done. intros f Hf Hp. destruct (Hk f Hf Hp) as (f' & ? & ?). by eapply e_probe0. Qed.

(** An action other than an observation, with its grounds. *)
Lemma evidence_log w a : unobserved a → (∀ r, a ≠ ASaved r) → grounds (log w) (clock w) a →
  evidence w → evidence (w <| log ::= λ l, l ++ [mkEntry (clock w) (wall_clock w) a] |>).
Proof.
  intros Ha Hs Hg []. assert (Hsub : ∀ e, e ∈ log w → e ∈ log w ++ [mkEntry (clock w) (wall_clock w) a]) by set_solver.
  assert (Hp : has_probe w → has_probe (w <| log ::= λ l, l ++ [mkEntry (clock w) (wall_clock w) a] |>)).
  { intros (p & Hp & E). exists p. split; [by apply Hsub|done]. }
  split; cbn; auto.
  - by apply grounded_snoc.
  - apply Forall_app. split; [done|]. constructor; [cbn; lia|constructor].
  - rewrite current_record_snoc, <- e_record0. by destruct a; try done; destruct (Hs r).
  - intros s E. destruct (e_outage0 s E). split; [done|]. by apply unhealthy_snoc.
  - intros s E. destruct (e_le_outage0 s E). split; [done|]. by apply unhealthy_snoc.
  - intros s E. destruct (e_healthy0 s E). split; [done|]. by apply healthy_snoc.
  - intros s E. destruct (e_reset0 s E) as (? & ? & r & ? & ? & ?). split; [done|].
    split; [by apply unhealthy_snoc|]. exists r. split_and!; auto.
  - intros f Hf E. apply Hp. by eapply e_probe0.
  - intros f Hf E. apply Hp. by eapply e_reads0.
Qed.
Lemma evidence_emit a : unobserved a → (∀ r, a ≠ ASaved r) → (∀ l t, grounds l t a) → stable evidence (emit a).
Proof. intros Ha Hs Hg w Hw. by apply evidence_log. Qed.

Lemma start_first_ops (l : list (Future op Z)) : f_op <$> start_first l = f_op <$> l.
Proof. induction l as [|f l IH]; [done|]. cbn. destruct (f_status f); [done|done|]. cbn. by f_equal. Qed.
Lemma finish_ops r (l : list (Future op Z)) : f_op <$> (finish_one r <$> l) = f_op <$> l.
Proof.
  rewrite <- list_fmap_compose. apply list_fmap_ext. intros i f _. unfold compose, finish_one. by destruct (is_running f).
Qed.
Lemma same_ops (l k : list (Future op Z)) : f_op <$> k = f_op <$> l →
  ∀ f, f ∈ k → is_probe f = true → ∃ f', f' ∈ l ∧ is_probe f' = true.
Proof.
  intros E f Hf Hp. assert (Hin : f_op f ∈ f_op <$> l) by (rewrite <- E; by apply list_elem_of_fmap_2).
  apply list_elem_of_fmap in Hin as (f' & E' & Hf'). exists f'. split; [done|]. unfold is_probe in *. by rewrite <- E'.
Qed.

(** The worker's operations, other than the submission of a probe. *)
Lemma evidence_submit o r : (∀ g s, o ≠ OpProbe g s) → stable evidence (on_worker (submit o r)).
Proof.
  intros Ho w Hw. unfold on_worker. destruct (submit o r (worker w)) as [res k] eqn:E. cbn.
  apply evidence_worker; [|done]. intros f Hf Hp.
  assert (Hk : f ∈ _futures (worker w) ∨ f_op f = o).
  { revert E. unfold submit. monad_simpl. destruct (_closed _); [intros [= <- <-]; by left|].
    destruct (negb _); [intros [= <- <-]; by left|]. destruct (_ <=? _); [intros [= <- <-]; by left|].
    intros [= <- <-]. cbn in Hf. apply elem_of_app in Hf as [Hf|Hf%list_elem_of_singleton]; [by left|].
    right. by subst f. }
  destruct Hk as [Hk|Hk]; [eauto|]. unfold is_probe in Hp. rewrite Hk in Hp. destruct o; try done. by edestruct Ho.
Qed.
Lemma evidence_reserve : stable evidence (on_worker reserve_if_idle).
Proof.
  intros w Hw. unfold on_worker. destruct (reserve_if_idle (worker w)) as [res k] eqn:E. cbn.
  apply evidence_worker; [|done]. revert E. unfold reserve_if_idle. monad_simpl.
  destruct (_ || _); intros [= <- <-]; eauto.
Qed.
Lemma evidence_release : stable evidence (on_worker release).
Proof. intros w Hw. apply evidence_worker; [|done]. eauto. Qed.

Ltac evidence_leaf :=
  first [ by unfold holding; apply evidence_frame; auto | by apply evidence_emit | by apply evidence_release
        | by apply evidence_reserve | by apply evidence_submit ].
#[local] Hint Resolve evidence_release evidence_reserve : keeps.

Lemma evidence_invalidate s : stable evidence (invalidate s).
Proof. unfold invalidate, _resume. stable; evidence_leaf. Qed.
#[local] Hint Resolve evidence_invalidate : keeps.
Lemma evidence_finished e : stable evidence (_finished e).
Proof. unfold _finished, _resume. stable; evidence_leaf. Qed.
#[local] Hint Resolve evidence_finished : keeps.
Lemma evidence_submit_restore : stable evidence submit_restore.
Proof.
  unfold submit_restore. stable; try evidence_leaf.
Qed.
#[local] Hint Resolve evidence_submit_restore : keeps.
Lemma evidence_continue a : stable evidence (_continue_restoration a).
Proof. unfold _continue_restoration, _pause. stable; evidence_leaf. Qed.
#[local] Hint Resolve evidence_continue : keeps.

(** A write of the record, with its grounds. *)
Lemma evidence_saved w r : grounds (log w) (clock w) (ASaved r) → evidence w →
  evidence (w <| disk := r |> <| _record := r |> <| log ::= λ l, l ++ [mkEntry (clock w) (wall_clock w) (ASaved r)] |>).
Proof.
  intros Hg []. set (w' := w <| disk := r |> <| _record := r |> <| log ::= _ |>).
  assert (Hsub : ∀ e, e ∈ log w → e ∈ log w ++ [mkEntry (clock w) (wall_clock w) (ASaved r)]) by set_solver.
  assert (Hp : has_probe w → has_probe w') by (intros (p & Hp & E); exists p; split; [by apply Hsub|done]).
  split; cbn; auto.
  - by apply grounded_snoc.
  - apply Forall_app. split; [done|]. constructor; [cbn; lia|constructor].
  - by rewrite current_record_snoc.
  - intros s E. destruct (e_outage0 s E). split; [done|]. by apply unhealthy_snoc.
  - intros s E. destruct (e_le_outage0 s E). split; [done|]. by apply unhealthy_snoc.
  - intros s E. destruct (e_healthy0 s E). split; [done|]. by apply healthy_snoc.
  - intros s E. destruct (e_reset0 s E) as (? & ? & r' & ? & ? & ?). split; [done|].
    split; [by apply unhealthy_snoc|]. exists r'. split_and!; auto.
  - intros f Hf E. apply Hp. by eapply e_probe0.
  - intros f Hf E. apply Hp. by eapply e_reads0.
Qed.
Lemma evidence_save a u w : grounds (log w) (clock w) (ASaved (u ∪ _record w)) → evidence w →
  evidence (_save a u w).2.
Proof.
  intros Hg Hw. unfold _save. monad_simpl. destruct (a_saved a); [|done].
  exact (evidence_saved w (u ∪ _record w) Hg Hw).
Qed.

(** An observation, once what it contradicts has been cleared. *)
Lemma evidence_observed w o :
  (if healthy o then _outage_since w = None ∧ _le_outage_since w = None ∧ _soft_reset_at w = None
   else _healthy_since w = None) → evidence w →
  evidence (w <| log ::= λ l, l ++ [mkEntry (clock w) (wall_clock w) (AObserved o)] |>).
Proof.
  intros Ho []. set (w' := w <| log ::= _ |>).
  assert (Hsub : ∀ e, e ∈ log w → e ∈ log w ++ [mkEntry (clock w) (wall_clock w) (AObserved o)]) by set_solver.
  assert (Hp : has_probe w → has_probe w') by (intros (p & Hp & E); exists p; split; [by apply Hsub|done]).
  assert (Hun : ∀ s, healthy o = false → unhealthy_after s (log w) → unhealthy_after s (log w')).
  { intros s E Hl. exact (after_snoc false s (log w) _ _ o (or_intror E) Hl). }
  split; cbn; auto.
  - by apply grounded_snoc.
  - apply Forall_app. split; [done|]. constructor; [cbn; lia|constructor].
  - by rewrite current_record_snoc.
  - intros s E. destruct (healthy o) eqn:Eh; [destruct Ho as (Ho & _); congruence|].
    destruct (e_outage0 s E). split; [done|by apply Hun].
  - intros s E. destruct (healthy o) eqn:Eh; [destruct Ho as (_ & Ho & _); congruence|].
    destruct (e_le_outage0 s E). split; [done|by apply Hun].
  - intros s E. destruct (healthy o) eqn:Eh; [|congruence]. destruct (e_healthy0 s E) as [? Hl]. split; [done|].
    exact (after_snoc true s (log w) _ _ o (or_intror Eh) Hl).
  - intros s E. destruct (healthy o) eqn:Eh; [destruct Ho as (_ & _ & Ho); congruence|].
    destruct (e_reset0 s E) as (? & ? & r & ? & ? & ?). split; [done|].
    split; [by apply Hun|]. exists r. split_and!; auto.
  - intros f Hf E. apply Hp. by eapply e_probe0.
  - intros f Hf E. apply Hp. by eapply e_reads0.
Qed.
Lemma evidence_note_healthy o : healthy o = true → stable evidence (note_healthy o).
Proof.
  intros Ho w Hw. unfold note_healthy. monad_simpl. unfold emit, modify. cbn [snd].
  refine (evidence_observed (w <| _outage_since := None |> <| _le_outage_since := None |> <| _soft_reset_at := None |>) o _ _).
  - by rewrite Ho.
  - revert Hw. apply evidence_frame; auto.
Qed.
Lemma evidence_note_outage o : healthy o = false → stable evidence (note_outage o).
Proof.
  intros Ho w Hw. unfold note_outage. monad_simpl. unfold emit, modify. cbn [snd].
  refine (evidence_observed (w <| _healthy_since := None |>) o _ _).
  - by rewrite Ho.
  - revert Hw. apply evidence_frame; auto.
Qed.

(** A window that opens now, or goes on. *)
Lemma healthy_now w : evidence w → ∀ s, default (clock w) (_healthy_since w) = s → s <= clock w ∧ healthy_after s (log w).
Proof.
  intros Hw s <-. destruct (_healthy_since w) as [h|] eqn:E; [by apply (e_healthy w Hw)|]. cbn. split; [lia|].
  intros e o He _ Hs. pose proof (e_past w Hw) as Hp. rewrite Forall_forall in Hp. specialize (Hp e He). lia.
Qed.
Lemma unhealthy_now w (x : option Z) : evidence w → (∀ s, x = Some s → s <= clock w ∧ unhealthy_after s (log w)) →
  ∀ s, default (clock w) x = s → s <= clock w ∧ unhealthy_after s (log w).
Proof.
  intros Hw Hx s <-. destruct x as [h|]; [by apply Hx|]. cbn. split; [lia|].
  intros e o He _ Hs. pose proof (e_past w Hw) as Hp. rewrite Forall_forall in Hp. specialize (Hp e He). lia.
Qed.

Lemma evidence_health_window w : evidence w → evidence (w <| _healthy_since ::= λ h, Some (default (clock w) h) |>).
Proof.
  intros Hw. pose proof (healthy_now w Hw) as Hn. destruct Hw. split; cbn; try done.
  intros s [= <-]. by apply Hn.
Qed.
Lemma evidence_open_windows b : stable evidence (open_windows b).
Proof.
  intros w Hw. pose proof (unhealthy_now w _ Hw (e_outage w Hw)) as Ho.
  pose proof (unhealthy_now w _ Hw (e_le_outage w Hw)) as Hl. destruct Hw. split; cbn; try done.
  - intros s. destruct b; [|done]. intros [= <-]. by apply Ho.
  - intros s [= <-]. by apply Hl.
Qed.
#[local] Hint Resolve evidence_note_healthy evidence_note_outage evidence_open_windows : keeps.

Lemma known_verified w state : _known phone w state = true ↔
  verified_for phone (_record w) ∧ _record w !! "adapter" = Some (JStr (address state)).
Proof. unfold _known, verified_for. rewrite !andb_true_iff, !bool_decide_eq_true. tauto. Qed.

Lemma evidence_healthy_branch a state o : healthy o = true → stable evidence (check_healthy phone a state o).
Proof.
  intros Ho. unfold check_healthy. apply keeps_bind; [apply _|by apply evidence_note_healthy|intros _].
  cbn zeta. apply stable_get_bind. intros w Hw. destruct (_known phone w state && unspent w); [done|].
  set (probe := when _ _). assert (Hp : probe w = (Ok (), w) ∨ ∃ e, probe w = (Raise e, w)).
  { unfold probe, when, may_raise. destruct (proof_missing _ _ _); [|by left].
    destruct (a_probe_health_ok a); [by left|right; by eexists]. }
  clearbody probe. unfold mbind at 1, M_bind at 1. destruct Hp as [-> |[e ->]]; [|done].
  unfold mbind at 1, M_bind at 1, get at 1. destruct (proof_missing _ _ _).
  { revert Hw. apply evidence_frame; auto. }
  unfold mbind, M_bind, modify, get. cbn beta iota. apply evidence_health_window in Hw.
  set (w1 := w <| _healthy_since ::= _ |>) in *.
  assert (Hh : ∃ h, _healthy_since w1 = Some h) by (eexists; reflexivity). clearbody w1. clear w.
  destruct (negb (_known phone w1 state)) eqn:Ek; [|destruct (negb (unspent w1) && _) eqn:Es; [|done]].
  - set (u := {["adapter" := _]} ∪ _) || set (u := <["adapter" := _]> _).
    pose proof (evidence_save a u w1) as Hs. destruct (_save a u w1) as [[b|e] w2]; cbn [fst snd] in *;
      apply Hs; try done; intros _; right.
    + split; [by split; apply lookup_union_Some_l|]. intros [Hv Ha]. rewrite <- (e_record w1 Hw) in Hv, Ha.
      apply negb_true_iff in Ek. rewrite <- not_true_iff_false in Ek. apply Ek, known_verified. split; [done|].
      rewrite Ha. by apply lookup_union_Some_l.
    + split; [by split; apply lookup_union_Some_l|]. intros [Hv Ha]. rewrite <- (e_record w1 Hw) in Hv, Ha.
      apply negb_true_iff in Ek. rewrite <- not_true_iff_false in Ek. apply Ek, known_verified. split; [done|].
      rewrite Ha. by apply lookup_union_Some_l.
  - apply andb_true_iff in Es as [_ Es]. destruct Hh as [h Hh]. rewrite Hh in Es. cbn in Es.
    pose proof (evidence_save a {["spent" := JBool false]} w1) as Hs.
    assert (Hg : grounds (log w1) (clock w1) (ASaved ({["spent" := JBool false]} ∪ _record w1))).
    { intros _. left. exists h. split; [lia|]. by apply (e_healthy w1 Hw). }
    destruct (_save a _ w1) as [[b|e] w2]; cbn [fst snd] in *; by apply Hs.
Qed.

Lemma evidence_soft_reset a w s : evidence w → _le_outage_since w = Some s → SOFT_RESET_SECONDS <= clock w - s →
  evidence (soft_reset a w).2.
Proof.
  intros Hw Hs Hle. unfold soft_reset. destruct (a_reset_le a) as [b|]; cbn [answer]; [|done].
  unfold mbind, M_bind, mret, M_ret. destruct b; cbn [when]; [|done].
  unfold emit, modify. cbn beta iota.
  destruct (e_le_outage w Hw s Hs) as [Hc Hu].
  assert (Hw1 : evidence (w <| log ::= λ l, l ++ [mkEntry (clock w) (wall_clock w) AResetLe] |>)).
  { apply evidence_log; [done|done| |done]. exists s. split; [lia|done]. }
  set (w1 := w <| log ::= _ |>) in *.
  assert (Hr : ∃ r, r ∈ log w1 ∧ what r = AResetLe ∧ at_ r = clock w1).
  { exists (mkEntry (clock w) (wall_clock w) AResetLe). split; [|done]. cbn. set_solver. }
  clearbody w1. destruct Hw1. split; cbn; try done. intros s' [= <-]. split; [lia|]. split; [|done].
  intros e o He _ Hlt. rewrite Forall_forall in e_past0. specialize (e_past0 e He). lia.
Qed.

Lemma has_probe_snoc w p : p ∈ log w → what p = AProbe → has_probe w.
Proof. intros. by exists p. Qed.

Lemma evidence_submit_probe state w r : evidence w → _soft_reset_at w = Some r → RESET_SETTLE_SECONDS <= clock w - r →
  evidence (submit_probe state w).2.
Proof.
  intros Hw Hr Hle. unfold submit_probe, catch, on_worker. unfold mbind, M_bind, modify, get, mret, M_ret.
  cbn beta iota. set (w1 := w <| _probing := true |>).
  assert (Hw1 : evidence w1) by (revert Hw; apply evidence_frame; auto).
  assert (Hr1 : _soft_reset_at w1 = Some r ∧ RESET_SETTLE_SECONDS <= clock w1 - r) by done.
  clearbody w1. clear w Hw Hr Hle. destruct Hr1 as [Hr Hle].
  destruct (submit (OpProbe (_generation w1) state) false (worker w1)) as [[id|e] k] eqn:E; cbn [fst snd].
  2: { assert (k = worker w1) as ->.
       { revert E. unfold submit. monad_simpl. destruct (_closed _); [by intros [= _ <-]|].
         destruct (negb _); [by intros [= _ <-]|]. destruct (_ <=? _); [by intros [= _ <-]|done]. }
       revert Hw1. apply evidence_frame; auto. }
  destruct (e_reset w1 Hw1 r Hr) as (Hc & Hu & e & He & Hwe & Hat).
  unfold emit, modify. cbn [snd].
  assert (Hw2 : evidence (w1 <| log ::= λ l, l ++ [mkEntry (clock w1) (wall_clock w1) AProbe] |>)).
  { apply evidence_log; [done|done| |done]. exists e. rewrite Hat. split_and!; [done|done|lia|done]. }
  assert (Hp : has_probe (w1 <| log ::= λ l, l ++ [mkEntry (clock w1) (wall_clock w1) AProbe] |>)).
  { exists (mkEntry (clock w1) (wall_clock w1) AProbe). cbn. set_solver. }
  destruct Hw2. split; cbn; try done.
Qed.

Lemma evidence_outage_branch a state : stable evidence (check_outage phone a state).
Proof.
  unfold check_outage. apply stable_get_bind. intros w0 Hw0. cbn zeta. set (allowed := safe state && _).
  clearbody allowed. pose proof (evidence_open_windows allowed w0 Hw0) as Hw.
  unfold mbind at 1, M_bind at 1. destruct (open_windows allowed w0) as [[u|e] w] eqn:E0; [|done].
  cbn [fst snd] in *. clear E0 Hw0 w0. unfold mbind at 1, M_bind at 1, get at 1.
  destruct (_probing w); [done|].
  destruct (negb _ && _) eqn:Es.
  - apply andb_true_iff in Es as [_ Es]. destruct (_le_outage_since w) as [s|] eqn:E; cbn in Es.
    + apply (evidence_soft_reset a w s); [done|done|lia].
    + exfalso. unfold SOFT_RESET_SECONDS, sec in Es. lia.
  - destruct (_outage_since w) as [outage|]; [|done]. destruct (_soft_reset_at w) as [reset|] eqn:Er; [|done].
    destruct (_ || _ || _) eqn:E; [done|]. rewrite !orb_false_iff in E. destruct E as [[_ _] E].
    apply (evidence_submit_probe state w reset); [done|done|lia].
Qed.
#[local] Hint Resolve evidence_outage_branch : keeps.

Lemma evidence_check a given : stable evidence (_check phone a given).
Proof.
  unfold _check. stable; try evidence_leaf.
  - by apply evidence_healthy_branch.
  - by apply evidence_note_outage.
Qed.
#[local] Hint Resolve evidence_check : keeps.
Lemma evidence_snapshot_failed g : stable evidence (_snapshot_failed g).
Proof. unfold _snapshot_failed. stable; evidence_leaf. Qed.
#[local] Hint Resolve evidence_snapshot_failed : keeps.
Lemma evidence_snapshot_ready a state g : stable evidence (_snapshot_ready phone a state g).
Proof. unfold _snapshot_ready. stable; evidence_leaf. Qed.

Lemma evidence_reads_snoc r w : (is_after_probe r = true → has_probe w) → evidence w →
  evidence (w <| reads ::= λ l, l ++ [r] |>).
Proof.
  intros Hr []. split; cbn; try done. intros r'. rewrite elem_of_app, list_elem_of_singleton.
  intros [?| ->]; [by apply e_reads0|done].
Qed.

Lemma evidence_tick a : stable evidence (_tick phone read_async a).
Proof. unfold _tick, cleanup_journal. stable; try evidence_leaf. intros Hw. by apply evidence_reads_snoc. Qed.
Lemma evidence_probe_failed g : stable evidence (_probe_failed g).
Proof. unfold _probe_failed. stable; evidence_leaf. Qed.

(** The attempt, once its window has passed and a probe was answered. *)
Definition cycle_ready (w : World) : Prop :=
  evidence w ∧ (∃ s, s + OUTAGE_SECONDS <= clock w ∧ unhealthy_after s (log w)) ∧ has_probe w.

Lemma ready_emitted w a : unobserved a → (∀ r, a ≠ ASaved r) → (∀ l t, grounds l t a) →
  cycle_ready w → cycle_ready (w <| log ::= λ l, l ++ [mkEntry (clock w) (wall_clock w) a] |>).
Proof.
  intros Ha Hs Hg (Hw & (s & Hle & Hu) & p & Hp & Ep). split; [by apply evidence_log|]. split.
  - exists s. split; [done|]. by apply unhealthy_snoc.
  - exists p. split; [cbn; set_solver|done].
Qed.
Lemma ready_frame w w' : evidence w' → log w' = log w → clock w' = clock w → cycle_ready w → cycle_ready w'.
Proof. intros Hw Hl Hc (_ & Hr & Hp). split; [done|]. unfold has_probe in *. by rewrite Hl, Hc. Qed.

(** The attempt is on disk: its entry is the last one of the log. *)
Definition cycle_paid (w : World) : Prop :=
  cycle_ready w ∧ ∃ l0 e, log w = l0 ++ [e] ∧ pays l0 e.

Lemma evidence_attempt a state w : cycle_paid w →
  evidence (catch (_pause a;; on_worker (submit (OpCycle state) true);; emit (ACycle state)) (λ _, _finished true) w).2.
Proof.
  intros [Hw (l0 & e0 & El & Hpay)]. assert (Hf : ∀ w, evidence w → evidence (_finished true w).2).
  { intros w' Hw'. by apply (evidence_finished true), Hw'. }
  unfold catch, _pause. destruct (a_paused a); cbn [may_raise]; [|apply Hf, Hw].
  unfold mbind, M_bind, mret, M_ret. cbn beta iota. unfold emit at 1, modify at 1. cbn beta iota.
  apply (ready_emitted w APause) in Hw; [|done..].
  set (w1 := w <| log ::= _ |>) in *.
  assert (El1 : ∃ p, log w1 = l0 ++ [e0; p] ∧ what p = APause).
  { eexists. split; [unfold w1; cbn; by rewrite El, <- app_assoc|done]. }
  clearbody w1. pose proof (evidence_submit (OpCycle state) true) as Hs.
  specialize (Hs ltac:(done) w1 (proj1 Hw)).
  assert (Hl : log (on_worker (submit (OpCycle state) true) w1).2 = log w1 ∧
               clock (on_worker (submit (OpCycle state) true) w1).2 = clock w1).
  { unfold on_worker. by destruct (submit _ _ _). }
  destruct (on_worker (submit (OpCycle state) true) w1) as [[id|e] w2]; cbn [fst snd] in *; [|by apply Hf].
  destruct Hl as [Hl Hc]. apply (ready_frame w1 w2) in Hw; [|done..].
  destruct Hw as (Hw & Hr & Hp). apply evidence_log; [done|done| |done]. split; [done|]. split; [done|].
  destruct El1 as (p & El1 & Ep). exists l0, e0, p. by rewrite Hl.
Qed.

Lemma allowed_unspent w s : evidence w → _allowed phone w s = true →
  verified_for phone (current_record saved (log w)) ∧ clears_spent (current_record saved (log w)) = true.
Proof.
  intros Hw. unfold _allowed. rewrite !andb_true_iff. intros [[[Hk _] Hu] _]. rewrite <- (e_record w Hw).
  apply known_verified in Hk as [Hk _]. done.
Qed.

Lemma evidence_cycle a expected current o w : cycle_ready w → evidence (cycle_now phone a expected current o w).2.
Proof.
  intros Hw. unfold cycle_now. unfold mbind at 1, M_bind at 1, get at 1. destruct (_ || negb (_allowed _ _ _)) eqn:Ea; [apply Hw|].
  apply orb_false_iff in Ea as [_ Ea]. apply negb_false_iff, (allowed_unspent w current (proj1 Hw)) in Ea.
  unfold mbind at 1, M_bind at 1. pose proof (evidence_reserve w (proj1 Hw)) as Hs.
  assert (Hl : log (on_worker reserve_if_idle w).2 = log w ∧ clock (on_worker reserve_if_idle w).2 = clock w).
  { unfold on_worker. by destruct (reserve_if_idle _). }
  destruct (on_worker reserve_if_idle w) as [[r|e] w1]; cbn [fst snd] in *; [|done].
  destruct Hl as [Hl Hc]. apply (ready_frame w w1) in Hw; [|done..]. rewrite <- Hl in Ea. clear Hs Hl Hc w.
  destruct r; cbn [negb]; [|apply Hw]. unfold mbind at 1, M_bind at 1, get at 1.
  unfold mbind at 1, M_bind at 1, _save. unfold mbind at 1, M_bind at 1, get at 1. destruct (a_saved a).
  - set (merged := {["spent" := _; "last_attempt" := _]} ∪ _).
    assert (Hm : merged !! "spent" = Some (JBool true)) by (by apply lookup_union_Some_l).
    assert (Ht : merged !! "last_attempt" = Some (JNum (wall_clock w1))) by (by apply lookup_union_Some_l).
    clearbody merged.
    unfold mbind at 1 2, M_bind at 1 2, modify at 1, emit at 1, modify at 1, mret, M_ret. cbn [fst snd negb].
    unfold mbind at 1, M_bind at 1, modify at 1. cbn [fst snd]. apply evidence_attempt.
    destruct Hw as (Hw & (s & Hle & Hu) & p & Hp & Ep).
    assert (He : evidence (w1 <| disk := merged |> <| _record := merged |>
      <| log ::= λ l, l ++ [mkEntry (clock w1) (wall_clock w1) (ASaved merged)] |>)).
    { apply evidence_saved; [|done]. unfold grounds, clears_spent. rewrite Hm. by intros ?%bool_decide_eq_true. }
    split; [split; [|split]|].
    + revert He. apply evidence_frame; auto.
    + exists s. split; [done|]. by apply unhealthy_snoc.
    + exists p. split; [cbn; set_solver|done].
    + eexists (log w1), _. split; [reflexivity|]. split; [apply Ea|]. split; [apply Ea|]. by exists merged.
  - unfold mret, M_ret. cbn [negb]. apply (evidence_release w1), Hw.
Qed.

Lemma evidence_after_probe a g expected t given w : has_probe w → evidence w →
  evidence (_after_probe phone read_async a g expected t given w).2.
Proof.
  intros Hp Hw. unfold _after_probe. unfold mbind at 1, M_bind at 1, get at 1.
  destruct (_ || _ || _); [done|]. destruct (_ || _) eqn:Eo; [revert Hw; apply evidence_frame; auto|].
  apply orb_false_iff in Eo as [_ Eo]. destruct (_outage_since w) as [since|] eqn:Es; [|done].
  destruct (_ && _).
  - unfold catch, may_raise. destruct (a_async_ok a); cbn beta iota.
    + unfold mbind, M_bind, mret, M_ret, modify. cbn [snd]. by apply evidence_reads_snoc.
    + by apply (evidence_snapshot_failed g).
  - unfold mbind at 1, M_bind at 1, modify at 1. cbn beta iota.
    assert (Hw1 : cycle_ready (w <| _probing := false |>)).
    { split; [revert Hw; apply evidence_frame; auto|]. split; [|done]. exists since.
      split; [cbn; lia|]. by apply (e_outage w Hw). }
    set (w1 := w <| _probing := false |>) in *. clearbody w1. clear Hp Hw Eo Es w.
    unfold attempt. unfold mbind, M_bind, answer.
    destruct (match given with Some s => Some s | None => a_read a end) as [cur|]; cbn beta iota;
      [|by apply (evidence_invalidate None), Hw1].
    destruct (a_observed a) as [obs|]; cbn beta iota; [|by apply (evidence_invalidate None), Hw1].
    unfold mret, M_ret, emit, modify. cbn beta iota. apply evidence_cycle. by apply ready_emitted.
Qed.
Lemma evidence_save_spent a u : u !! "spent" = Some (JBool true) → stable evidence (_save a u).
Proof.
  intros Hu w Hw. apply evidence_save; [|done]. unfold grounds, clears_spent.
  rewrite (lookup_union_Some_l u (_record w) _ _ Hu). by intros ?%bool_decide_eq_true.
Qed.
Lemma evidence_forget a : stable evidence (forget_phone a).
Proof. unfold forget_phone. stable. by apply evidence_save_spent. Qed.
Lemma evidence_start a : stable evidence (start a).
Proof. unfold start. stable; evidence_leaf. Qed.
Lemma evidence_stop : stable evidence stop.
Proof. unfold stop. stable; evidence_leaf. Qed.

(** The pending reads, callbacks and probes only shrink. *)
Lemma evidence_reads w l : (∀ r, r ∈ l → r ∈ reads w) → evidence w → evidence (w <| reads := l |>).
Proof. intros Hl []. split; cbn; eauto. Qed.
Lemma evidence_idles w l : (l ≠ [] → has_probe w) → evidence w → evidence (w <| idles := l |>).
Proof. intros Hl []. by split. Qed.
Lemma evidence_subset w k : (∀ f, f ∈ _futures k → f ∈ _futures (worker w)) → evidence w → evidence (w <| worker := k |>).
Proof. intros Hk. apply evidence_worker. eauto. Qed.

Lemma elem_of_delete_nth {A} n (l : list A) x : x ∈ delete_nth n l → x ∈ l.
Proof.
  unfold delete_nth. intros [?|?]%elem_of_app; [by rewrite <- (take_drop n l); apply elem_of_app; left|].
  rewrite <- (take_drop (S n) l). apply elem_of_app. by right.
Qed.
Lemma elem_of_filter_list {A} p (l : list A) x : x ∈ List.filter p l → x ∈ l.
Proof. rewrite !list_elem_of_In, filter_In. by intros []. Qed.

Lemma evidence_reply a r outcome w : (is_after_probe r = true → has_probe w) → evidence w →
  evidence (reply phone read_async a r outcome w).2.
Proof.
  intros Hp Hw. unfold reply. destruct r as [g|g expected t], outcome as [s|]; try by apply (evidence_snapshot_failed g).
  - by apply (evidence_snapshot_ready a s g).
  - apply evidence_after_probe; auto.
Qed.

Lemma evidence_deliver id o b r w : mkFuture id o b (Done r) ∈ _futures (worker w) → evidence w →
  evidence (catch (deliver o r) (λ _, mret ()) w).2.
Proof.
  intros Hf Hw. assert (Hs : ∀ m, evidence (m w).2 → evidence (catch m (λ _, mret ()) w).2).
  { intros m. unfold catch. by destruct (m w) as [[[]|e] w']. }
  apply Hs. destruct o as [g s| | |], r as [t|e]; cbn [deliver]; try by apply evidence_finished.
  - unfold modify. cbn [snd]. refine (evidence_idles w (idles w ++ _) _ Hw). intros _. by eapply e_probe.
  - by apply evidence_probe_failed.
  - done.
  - done.
Qed.

Lemma evidence_time w d wall : 0 <= d → evidence w → evidence (w <| clock ::= λ c, c + d |> <| wall_clock := wall |>).
Proof.
  intros Hd []. split; cbn; try done.
  - eapply Forall_impl; [exact e_past0|]. cbn. lia.
  - intros s E. destruct (e_outage0 s E). split; [lia|done].
  - intros s E. destruct (e_le_outage0 s E). split; [lia|done].
  - intros s E. destruct (e_healthy0 s E). split; [lia|done].
  - intros s E. destruct (e_reset0 s E). split; [lia|done].
Qed.

Lemma evidence_restart : stable evidence (step phone read_async ERestart).
Proof.
  intros w Hw. unfold step. unfold mbind, M_bind. apply (evidence_emit ARestart) in Hw; [|done..].
  unfold emit, modify in *. cbn [snd] in *. destruct Hw. split; cbn in *; try done; try congruence; by intros ? ?%elem_of_nil.
Qed.

Lemma evidence_step e : stable evidence (step phone read_async e).
Proof.
  destruct e; cbn [step].
  - apply evidence_start.
  - stable. apply evidence_tick.
  - apply evidence_invalidate.
  - apply evidence_stop.
  - apply evidence_forget.
  - apply stable_get_bind. intros w Hw. destruct (reads w !! n) as [r|] eqn:E; [|done].
    unfold mbind, M_bind, modify. apply evidence_reply.
    + intros Hr. apply (e_reads w Hw r); [by eapply list_elem_of_lookup_2|done].
    + refine (evidence_reads w (delete_nth n (reads w)) _ Hw). intros r'. apply elem_of_delete_nth.
  - apply stable_get_bind. intros w Hw. destruct (idles w) as [|[[g s] t] l] eqn:E; [done|].
    assert (Hp : has_probe w) by (apply (e_idles w Hw); by rewrite E).
    unfold mbind, M_bind, modify. apply evidence_after_probe; [done|]. by apply (evidence_idles w l).
  - apply stable_get_bind. intros w Hw. destruct (next_done (worker w)) as [[id o b []]|] eqn:E; [done|done| |done].
    unfold next_done in E. apply List.find_some in E as [Hf _]. apply list_elem_of_In in Hf.
    pose proof (evidence_deliver id o b outcome w Hf Hw) as Hd. unfold mbind, M_bind.
    destruct (catch _ _ w) as [[[]|e] w']; cbn [fst snd] in *; [|done].
    unfold on_worker, discard, modify. cbn [snd]. apply evidence_subset; [|done]. intros f. apply elem_of_filter_list.
  - intros w. refine (evidence_worker w _ _). cbn. apply same_ops, start_first_ops.
  - apply stable_get_bind. intros w. refine (evidence_worker w _ _). cbn. apply same_ops, finish_ops.
  - destruct o; stable; evidence_leaf.
  - stable; evidence_leaf.
  - intros w. refine (evidence_subset w _ _). cbn. intros f. apply elem_of_filter_list.
  - intros w Hw. refine (evidence_time w (Z.max 0 monotonic) wall _ Hw). lia.
  - apply evidence_restart.
Qed.

Lemma evidence_run es w : evidence w → evidence (run phone read_async es w).
Proof.
  intros Hw. unfold run. apply run_all_invariant; [|done]. intros m w' Hm Hw'.
  apply list_elem_of_fmap in Hm as (e & -> & _). by apply (evidence_step e).
Qed.
Lemma evidence_init clk wall : evidence (World_init saved clk wall []).
Proof. split; cbn; try done; try constructor. all: by intros ? ?%elem_of_nil. Qed.

Lemma grounded_app l1 e l2 : grounded (l1 ++ e :: l2) →
  Forall (λ e', at_ e' <= at_ e) l1 ∧ grounds l1 (at_ e) (what e).
Proof.
  intros H. remember (l1 ++ e :: l2) as l eqn:E. revert l2 E. induction H as [|l e' _ IH Ht Hg]; intros l2 E.
  - by destruct l1.
  - destruct l2 as [|x l2 _] using rev_ind.
    + apply app_inj_tail in E as [-> ->]. done.
    + rewrite app_comm_cons, app_assoc in E. apply app_inj_tail in E as [-> _]. by eapply IH.
Qed.
End evidence.

(** C11: every drastic action has its grounds in the log before it: a power
    cycle comes at least 300 s after the last healthy poll, after a MAP probe
    was asked for, and right after the record that still had the attempt was
    replaced on disk by one that has spent it; a probe at least 60 s after an accepted LE reset with
    no healthy poll since; an LE reset at least 180 s after the last healthy
    poll; and the spent attempt is given back only after 600 s of polls that
    were all healthy, or when the phone's bond is first verified with this
    adapter. *)
Theorem actions_grounded phone read_async saved clk wall es l1 e l2 :
  log (run phone read_async es (World_init saved clk wall [])) = l1 ++ e :: l2 →
  Forall (λ e', at_ e' <= at_ e) l1 ∧ grounds phone saved l1 (at_ e) (what e).
Proof.
  intros E. apply (grounded_app _ _ _ _ l2). rewrite <- E. apply e_log, evidence_run, evidence_init.
Qed.
Lemma actions_grounded_witness :
  let l := log (run the_phone false first_cycle (World_init ∅ 0 0 [])) in
  let e := mkEntry (sec 480) (sec 86880) (ACycle the_adapter) in
  l = take 14 l ++ e :: [] ∧
  (Forall (λ e', at_ e' <= at_ e) (take 14 l) ∧ grounds the_phone ∅ (take 14 l) (at_ e) (what e)).
Proof.
  intros l e. assert (E : l = take 14 l ++ e :: []) by (vm_compute; reflexivity).
  split; [exact E|]. exact (actions_grounded the_phone false ∅ 0 0 first_cycle _ e [] E).
Defined.
