(* ===== verification/RecoveryProtocol.v ===== *)
(** * RecoveryProtocol: the reserved worker and the paused profiles of a
    recovery. *)
From S2P Require Import Prelude Worker Recovery RecoveryScenario RecoverySafety.

(** ** The reservation *)

Definition recovers (o : op) : bool := match o with OpCycle _ | OpRestore => true | _ => false end.

(** Between two steps, the worker is reserved exactly while a recovery is
    active, and then holds its one operation or nothing. *)
Record reserving (w : World) : Prop := {
  r_worker : worker_inv (worker w);
  r_flags : Forall (λ f, f_reserved f = recovers (f_op f)) (_futures (worker w));
  r_active : _reserved (worker w) = active w;
  r_free : active w = false →
    _operation_pending w = false ∧ Forall (λ f, f_reserved f = false) (_futures (worker w));
  r_held : active w = true →
    (_futures (worker w) = [] ∧ (_operation_pending w = false ∨ _closed (worker w) = true)) ∨
    (∃ f, _futures (worker w) = [f] ∧ f_reserved f = true ∧ _operation_pending w = true);
}.

(** What was done about the profiles last: paused, and not yet resumed. *)
Definition owe (b : bool) (e : entry) : bool :=
  match what e with APause => true | AResume | AStop | ARestart => false | _ => b end.
Definition owed (l : list entry) : bool := foldl owe false l.
Lemma owed_snoc l e : owed (l ++ [e]) = owe (owed l) e.
Proof. unfold owed. by rewrite foldl_app. Qed.

Record resuming (w : World) : Prop := {
  p_timer : _running w = true → _timer w = true;
  p_owed : owed (log w) = true →
    _running w = true ∧ (active w = true ∨ (_resume_pending w = true ∧ _suspended w = true));
}.

Section protocol.
Context (phone : string) (read_async : bool).

(** The parts of the state the reservation is about. *)
Lemma reserving_frame w w' : worker w' = worker w → active w' = active w →
  _operation_pending w' = _operation_pending w → reserving w → reserving w'.
Proof. intros Hw Ha Ho []. split; rewrite ?Hw, ?Ha, ?Ho; done. Qed.

(** A step of the pool thread changes a status only. *)
Definition tag (f : Future op Z) : Z * op * bool := (f_id f, f_op f, f_reserved f).
Lemma reserving_tags w l : tag <$> l = tag <$> _futures (worker w) → in_order l → reserving w →
  reserving (w <| worker := ((worker w) <| _futures := l |>) |>).
Proof.
  intros E Ho []. assert (Hall : ∀ P : op → bool → Prop,
    Forall (λ f, P (f_op f) (f_reserved f)) (_futures (worker w)) → Forall (λ f, P (f_op f) (f_reserved f)) l).
  { intros P HP. assert (Hf : Forall (λ t : Z * op * bool, P t.1.2 t.2) (tag <$> l)) by (rewrite E; by apply Forall_fmap).
    by apply Forall_fmap in Hf. }
  split; cbn.
  - by apply same_fields_inv.
  - by apply (Hall (λ o b, b = recovers o)).
  - done.
  - intros Ha. destruct (r_free0 Ha) as [? Hf]. split; [done|]. by apply (Hall (λ _ b, b = false)).
  - intros Ha. destruct (r_held0 Ha) as [[Hn Hc]|(f & Hf & Hr & Hp)].
    + left. split; [|done]. rewrite Hn in E. by apply fmap_nil_inv in E.
    + right. rewrite Hf in E. apply fmap_cons_inv in E as (g & k & Eg & Ek & ->).
      symmetry in Ek. apply fmap_nil_inv in Ek as ->. exists g. split; [done|]. split; [|done].
      unfold tag in Eg. injection Eg as _ _ Eg. congruence.
Qed.

(** An unreserved submission is refused during a recovery. *)
Lemma reserving_submit w o : recovers o = false → reserving w →
  let r := submit o false (worker w) in
  reserving (w <| worker := r.2 |>) ∧ (active w = true → is_ok r.1 = false).
Proof.
  intros Ho Hw. cbn zeta. pose proof (perform_inv (CSubmit o false) (worker w) (r_worker w Hw)) as Hi.
  cbn [perform] in Hi. unfold mbind, M_bind, mret, M_ret in Hi. unfold submit in *. revert Hi. monad_simpl.
  assert (Hsame : reserving (w <| worker := worker w |>)) by (by apply (reserving_frame w)).
  destruct (_closed (worker w)); [by cbn|]. destruct Hw. rewrite r_active0.
  destruct (active w) eqn:Ea; cbn [Bool.eqb negb]; [by cbn|].
  destruct (_ <=? _); [by cbn|]. cbn [fst snd is_ok]. intros Hi. split; [|done].
  destruct (r_free0 eq_refl) as [Hp Hf]. split; cbn; rewrite ?Ea; try done.
  - apply Forall_app. split; [done|]. constructor; [|constructor]. cbn. by rewrite Ho.
  - intros _. split; [done|]. apply Forall_app. split; [done|]. by repeat constructor.
Qed.

(** A worker without operations. *)
Lemma reserving_empty w : worker_inv (worker w) → _futures (worker w) = [] → _reserved (worker w) = active w →
  _operation_pending w = false → reserving w.
Proof.
  intros Hi Hf Hr Hp. split; rewrite ?Hf; [done|constructor|done|by split|].
  intros _. left. by split; [|left].
Qed.

(** ** Both together, along the code *)
Record steady (w : World) : Prop := {
  s_reserving : reserving w;
  s_resuming : resuming w;
}.

Lemma steady_frame w w' : worker w' = worker w → active w' = active w → _operation_pending w' = _operation_pending w →
  owed (log w') = owed (log w) → _running w' = _running w → _timer w' = _timer w → _suspended w' = _suspended w →
  _resume_pending w' = _resume_pending w → steady w → steady w'.
Proof.
  intros Hw Ha Ho Hl Hr Ht Hs Hp [H1 [H2 H3]]. split; [by apply (reserving_frame w)|].
  split; rewrite ?Hl, ?Hr, ?Ht, ?Ha, ?Hs, ?Hp; done.
Qed.
Definition neutral (a : action) : Prop := ∀ b, owe b (mkEntry 0 0 a) = b.
Lemma steady_emit a : neutral a → stable steady (emit a).
Proof. intros Ha w. unfold holding. apply steady_frame; try done. cbn -[owed]. rewrite owed_snoc. apply Ha. Qed.
Lemma steady_save a u : stable steady (_save a u).
Proof.
  intros w. unfold holding, _save. monad_simpl. destruct (a_saved a); [|done]. apply steady_frame; try done.
  cbn -[owed]. by rewrite owed_snoc.
Qed.

Ltac steady_leaf :=
  first [ by unfold holding; apply steady_frame | by apply steady_emit | by apply steady_save ].

Lemma owed_resume l t b : owed (l ++ [mkEntry t b AResume]) = false.
Proof. by rewrite owed_snoc. Qed.

(** [invalidate] as a function of the state. *)
Lemma invalidate_eq s w : (invalidate s w).2 =
  let w1 := discard_window s w in
  if active w then w1 <| _cancelled := true |>
  else if _running w && bool_decide (s = Some false) && _resume_pending w then
    w1 <| _resume_pending := false |> <| log ::= λ l, l ++ [mkEntry (clock w) (wall_clock w) AResume] |>
  else w1.
Proof.
  unfold invalidate, mbind, M_bind, modify, get. cbn beta iota.
  change (active (discard_window s w)) with (active w). change (_running (discard_window s w)) with (_running w).
  change (_resume_pending (discard_window s w)) with (_resume_pending w).
  destruct (active w); [done|]. by destruct (_ && _ && _).
Qed.

Lemma invalidate_ok s w : invalidate s w = (Ok (), (invalidate s w).2).
Proof.
  unfold invalidate, mbind, M_bind, modify, get. cbn beta iota.
  destruct (active _); [done|]. by destruct (_ && _ && _).
Qed.

Lemma steady_invalidate s : stable steady (invalidate s).
Proof.
  intros w [H1 [H2 H3]]. rewrite invalidate_eq. cbn zeta. destruct (active w) eqn:Ea.
  { split; [by apply (reserving_frame w)|]. split; cbn; rewrite ?Ea; [done|]. intros Ho.
    split; [by apply H3|by left]. }
  destruct (_ && _ && _) eqn:E.
  { split; [by apply (reserving_frame w)|]. split; cbn -[owed]; [done|]. by rewrite owed_resume. }
  split; [by apply (reserving_frame w)|]. split; cbn; [done|]. intros Ho.
  destruct (H3 Ho) as [Hr [?|[Hp Hs]]]; [done|]. split; [done|]. right. split; [done|].
  rewrite Hr, Hp in E. destruct s as [[]|]; [done| |done]. vm_compute in E. discriminate.
Qed.

(** [_finished] as a function of the state; it leaves the future to its
    discard. *)
Lemma finished_eq e w : (_finished e w).2 =
  let w1 := w <| _operation_pending := false |> in
  if restore_pending w then w1
  else
    let w2 := discard_window (Some (_suspended w)) (w1 <| active := false |> <| worker := ((worker w) <| _reserved := false |>) |>) in
    let resumed w := w <| log ::= λ l, l ++ [mkEntry (clock w) (wall_clock w) AResume] |> in
    let w3 := if _running w && negb (_suspended w) && _resume_pending w
              then resumed (w2 <| _resume_pending := false |>) else w2 in
    if _running w && _suspended w then w3 <| _resume_pending := true |>
    else if _running w then resumed w3 else w3.
Proof.
  unfold _finished, mbind, M_bind, modify, get, mret, M_ret, on_worker, release. cbn beta iota zeta.
  change (restore_pending (_ <| _operation_pending := _ |>)) with (restore_pending w).
  destruct (restore_pending w); [done|]. unfold modify. cbn beta iota.
  match goal with |- context [invalidate ?s ?v] =>
    rewrite (invalidate_ok s v), (invalidate_eq s v) end.
  cbn -[owed].
  destruct (_running w), (_suspended w), (_resume_pending w); reflexivity.
Qed.

Lemma resuming_finished e w : resuming w → resuming (_finished e w).2.
Proof.
  intros [H2 H3]. rewrite finished_eq. cbn zeta. destruct (restore_pending w); [by split|].
  destruct (_running w) eqn:Eu, (_suspended w) eqn:Es, (_resume_pending w) eqn:Ep; cbn -[owed]; split;
    cbn -[owed]; rewrite ?Eu, ?Es, ?Ep, ?owed_resume; try done; auto;
    by intros Ho; destruct (H3 Ho).
Qed.
Lemma finished_fields e w : let w' := (_finished e w).2 in
  worker w' = (if restore_pending w then worker w else (worker w) <| _reserved := false |>) ∧
  active w' = (if restore_pending w then active w else false) ∧ _operation_pending w' = false.
Proof.
  cbn zeta. rewrite finished_eq. cbn zeta. destruct (restore_pending w); [done|].
  by destruct (_running w), (_suspended w), (_resume_pending w).
Qed.

(** The recovery has the worker to itself, with no operation in it. *)
Record alone (w : World) : Prop := {
  a_reserving : reserving w;
  a_resuming : resuming w;
  a_active : active w = true;
  a_none : _futures (worker w) = [];
  a_idle : _operation_pending w = false;
}.

Lemma steady_finished e w : worker_inv (worker w) → _futures (worker w) = [] → _reserved (worker w) = active w →
  resuming w → steady (_finished e w).2.
Proof.
  intros Hi Hn Hr H2. split; [|by apply resuming_finished].
  destruct (finished_fields e w) as (Hw & Hact & Hop).
  destruct (restore_pending w).
  - apply reserving_empty; rewrite ?Hw, ?Hact; done.
  - apply reserving_empty; rewrite ?Hw, ?Hact; cbn; try done. by destruct Hi; split.
Qed.
Lemma steady_finished_alone e w : alone w → steady (_finished e w).2.
Proof. intros [[] ????]. by apply steady_finished. Qed.

(** A reserved submission, by a recovery that is alone. *)
Lemma alone_submit w o : recovers o = true → alone w →
  let w1 := w <| _operation_pending := true |> in
  match submit o true (worker w) with
  | (Ok _, k) => steady (w1 <| worker := k |>)
  | (Raise _, k) => k = worker w
  end.
Proof.
  intros Ho [H1 [H2 H3] Ha Hn Hp]. cbn zeta. pose proof (perform_inv (CSubmit o true) (worker w) (r_worker w H1)) as Hi.
  cbn [perform] in Hi. unfold mbind, M_bind, mret, M_ret in Hi. unfold submit in *. revert Hi. monad_simpl.
  destruct (_closed (worker w)); [done|]. destruct H1. rewrite r_active0, Ha. cbn [Bool.eqb negb].
  destruct (_ <=? _); [done|]. cbn [snd]. intros Hi. split; [|by split].
  split; [exact Hi|..]; cbn; rewrite ?Ha, ?Hn; cbn; try done.
  - constructor; [by cbn; rewrite Ho|constructor].
  - by rewrite r_active0.
  - intros _. right. eexists. split; [done|]. done.
Qed.

Lemma steady_submit_restore w : active w = true → steady w → steady (submit_restore w).2.
Proof.
  intros Ha Hw. unfold submit_restore. unfold mbind at 1, M_bind at 1, get at 1.
  destruct (_operation_pending w) eqn:Ep; [done|]. unfold mbind at 1, M_bind at 1, modify at 1. cbn beta iota.
  assert (Hal : alone w).
  { destruct Hw as [H1 H2]. split; try done. destruct (r_held w H1 Ha) as [[? _]|(? & _ & _ & E)]; [done|congruence]. }
  clear Hw. pose proof (alone_submit w OpRestore eq_refl Hal) as Hs. cbn zeta in Hs.
  unfold catch, on_worker, mbind, M_bind, mret, M_ret. cbn [worker].
  change (worker (w <| _operation_pending := true |>)) with (worker w).
  destruct (submit OpRestore true (worker w)) as [[id|e] k]; [done|]. subst k.
  destruct Hal as [[] [? ?] _ Hn _]. by apply steady_finished.
Qed.

Lemma reserve_alone w : _running w = true → active w = false → steady w →
  match reserve_if_idle (worker w) with
  | (Ok true, k) => alone (w <| worker := k |> <| active := true |>) ∧ k = (worker w) <| _reserved := true |>
  | (Ok false, k) => k = worker w
  | (Raise _, _) => False
  end.
Proof.
  intros Hr Ha [H1 [H2 H3]]. unfold reserve_if_idle. monad_simpl. destruct (_ || _) eqn:E; [done|].
  rewrite !orb_false_iff in E. destruct E as [_ E].
  assert (Hn : _futures (worker w) = []) by (destruct (_futures (worker w)); done).
  split; [|done]. destruct H1. destruct (r_free0 Ha) as [Hp _].
  split; try done.
  - apply reserving_empty; cbn; try done. destruct r_worker0. split; cbn; rewrite ?Hn; try done; by constructor.
  - split; cbn; [done|]. intros _. by split; [|left].
Qed.

Lemma alone_emit a w : neutral a ∨ _running w = true → alone w →
  alone (w <| log ::= λ l, l ++ [mkEntry (clock w) (wall_clock w) a] |>).
Proof.
  intros Hor [H1 [H2 H3] Ha Hn Hp]. split; try done; [by apply (reserving_frame w)|]. split; [done|].
  cbn -[owed]. rewrite owed_snoc. intros Ho. destruct Hor as [Hneu|Hr]; [|by split; [|left]].
  specialize (Hneu (owed (log w))). unfold owe in Hneu, Ho. cbn in Hneu, Ho. rewrite Hneu in Ho. by apply H3.
Qed.

Lemma steady_continue a w : _running w = true → steady w → steady (_continue_restoration a w).2.
Proof.
  intros Hr Hw. unfold _continue_restoration. unfold mbind at 1, M_bind at 1, get at 1.
  destruct (active w) eqn:Ea; [by apply steady_submit_restore|].
  unfold mbind at 1, M_bind at 1, on_worker. pose proof (reserve_alone w Hr Ea Hw) as Hal.
  destruct (reserve_if_idle (worker w)) as [[[]|e] k]; cbn [negb]; [|subst k; revert Hw; by apply steady_frame|done].
  destruct Hal as [Hal _]. unfold mbind at 1, M_bind at 1, modify at 1. cbn beta iota.
  set (w1 := w <| worker := k |> <| active := true |>) in *.
  assert (Hr1 : _running w1 = true) by done. clearbody w1. unfold attempt, _pause.
  destruct (a_paused a); cbn [may_raise]; [|by apply steady_finished_alone].
  unfold mbind, M_bind, mret, M_ret, emit, modify. cbn beta iota.
  apply (alone_emit APause) in Hal; [|by right]. apply steady_submit_restore; [apply Hal|]. by destruct Hal.
Qed.

Lemma steady_worker w k : reserving (w <| worker := k |>) → steady w → steady (w <| worker := k |>).
Proof. intros Hk [_ [H2 H3]]. split; [done|]. by split. Qed.
Lemma steady_submit_other o : recovers o = false → stable steady (on_worker (submit o false)).
Proof.
  intros Ho w Hw. destruct (reserving_submit w o Ho (s_reserving w Hw)) as [Hr _].
  unfold on_worker. destruct (submit o false (worker w)) as [r k]. by apply steady_worker.
Qed.
#[local] Hint Resolve steady_invalidate steady_save : keeps.

Lemma steady_outage a state : stable steady (check_outage phone a state).
Proof.
  unfold check_outage, open_windows, soft_reset, submit_probe. stable; try steady_leaf. by apply steady_submit_other.
Qed.
Lemma steady_healthy a state o : stable steady (check_healthy phone a state o).
Proof. unfold check_healthy, note_healthy. stable; steady_leaf. Qed.
#[local] Hint Resolve steady_healthy steady_outage : keeps.
Lemma steady_check a given : stable steady (_check phone a given).
Proof. unfold _check, note_outage. stable; steady_leaf. Qed.
#[local] Hint Resolve steady_check : keeps.
Lemma steady_snapshot_failed g : stable steady (_snapshot_failed g).
Proof. unfold _snapshot_failed. stable; steady_leaf. Qed.
#[local] Hint Resolve steady_snapshot_failed : keeps.
Lemma steady_snapshot_ready a state g : stable steady (_snapshot_ready phone a state g).
Proof. unfold _snapshot_ready. stable; steady_leaf. Qed.

Lemma steady_tick a : stable steady (_tick phone read_async a).
Proof.
  unfold _tick. apply stable_get_bind. intros w Hw. destruct (_running w) eqn:Er; cbn [negb].
  2: { destruct Hw as [H1 [H2 H3]]. split; [by apply (reserving_frame w)|]. split; cbn; [congruence|done]. }
  destruct (_suspended w); [done|]. destruct (a_blocked a).
  { destruct (active w); [done|by apply steady_invalidate]. }
  destruct (_ || _); [by apply steady_continue|].
  match goal with |- steady (?m w).2 => enough (Hc : stable steady m) by (by apply Hc) end.
  unfold cleanup_journal. stable; steady_leaf.
Qed.

Lemma steady_attempt a state w : _running w = true → alone w →
  steady (catch (_pause a;; on_worker (submit (OpCycle state) true);; emit (ACycle state)) (λ _, _finished true)
            (w <| _operation_pending := true |>)).2.
Proof.
  intros Hr Hal. unfold catch, _pause. destruct (a_paused a); cbn [may_raise].
  2: { destruct Hal as [[] [? ?] _ ? _]. by apply steady_finished. }
  unfold mbind, M_bind, mret, M_ret, emit, modify, on_worker. cbn beta iota.
  apply (alone_emit APause) in Hal; [|by right].
  change (worker _) with (worker w) at 1. set (w1 := w <| log ::= _ |>) in Hal.
  pose proof (alone_submit w1 (OpCycle state) eq_refl Hal) as Hs. cbn zeta in Hs. change (worker w1) with (worker w) in Hs.
  destruct (submit (OpCycle state) true (worker w)) as [[id|e] k]; cbn [snd].
  - revert Hs. apply steady_frame; try done. cbn -[owed]. by rewrite owed_snoc.
  - subst k. destruct Hal as [[] [? ?] _ ? _]. by apply steady_finished.
Qed.

Lemma steady_cycle a expected current o w : _running w = true → steady w → steady (cycle_now phone a expected current o w).2.
Proof.
  intros Hr Hw. unfold cycle_now. unfold mbind at 1, M_bind at 1, get at 1. destruct (_ || _); [done|].
  unfold mbind at 1, M_bind at 1, on_worker at 1. destruct (active w) eqn:Ea.
  { (* the worker is reserved already *)
    destruct (reserve_if_idle (worker w)) as [r k] eqn:E. revert E. unfold reserve_if_idle. monad_simpl.
    rewrite (r_active w (s_reserving w Hw)), Ea, orb_true_r. intros [= <- <-]. cbn [negb].
    revert Hw. by apply steady_frame. }
  pose proof (reserve_alone w Hr Ea Hw) as Hal.
  destruct (reserve_if_idle (worker w)) as [[[]|e] k]; cbn [negb]; [|subst k; revert Hw; by apply steady_frame|done].
  destruct Hal as [Hal Hk]. unfold mbind at 1, M_bind at 1, get at 1.
  unfold mbind at 1, M_bind at 1, _save. unfold mbind at 1, M_bind at 1, get at 1.
  set (w1 := w <| worker := k |> <| active := true |>) in *. destruct (a_saved a).
  - set (merged := _ ∪ _). clearbody merged.
    unfold mbind at 1 2, M_bind at 1 2, modify at 1, emit at 1, modify at 1, mret, M_ret. cbn [fst snd negb].
    unfold mbind at 1, M_bind at 1, modify at 1. cbn [fst snd].
    set (w2 := w1 <| disk := merged |> <| _record := merged |> <| _cancelled := false |>).
    assert (Hal2 : alone w2) by (destruct Hal as [? [? ?] ? ? ?]; split; try done; by apply (reserving_frame w1)).
    apply (alone_emit (ASaved merged)) in Hal2; [|by left]. apply (steady_attempt a current) in Hal2; [|done].
    match goal with Hx : steady (catch _ _ ?u).2 |- steady (catch _ _ ?v).2 => replace v with u; [done|] end.
    unfold w2, w1. cbn. reflexivity.
  - unfold mret, M_ret, release, modify, on_worker. cbn [negb snd].
    subst k. pose proof (r_active w (s_reserving w Hw)) as Hres. rewrite Ea in Hres.
    revert Hw. apply steady_frame; try done. cbn. destruct (worker w); cbn in *; by subst.
Qed.

Lemma steady_after_probe a g expected t given : stable steady (_after_probe phone read_async a g expected t given).
Proof.
  intros w Hw. unfold _after_probe. unfold mbind at 1, M_bind at 1, get at 1.
  destruct (_ || negb (_running w) || _) eqn:Eg; [done|].
  rewrite !orb_false_iff, !negb_false_iff in Eg. destruct Eg as [[_ Hr] _].
  destruct (_ || _); [revert Hw; by apply steady_frame|]. destruct (_ && _).
  { match goal with |- steady (?m w).2 => enough (Hc : stable steady m) by (by apply Hc) end. stable; steady_leaf. }
  unfold mbind at 1, M_bind at 1, modify at 1. cbn beta iota. set (w1 := w <| _probing := false |>).
  assert (Hw1 : steady w1) by (revert Hw; by apply steady_frame). assert (Hr1 : _running w1 = true) by done.
  clearbody w1. clear Hw Hr w. unfold attempt, mbind, M_bind, answer.
  destruct (match given with Some s => Some s | None => a_read a end) as [cur|]; cbn beta iota;
    [|by apply steady_invalidate].
  destruct (a_observed a) as [obs|]; cbn beta iota; [|by apply steady_invalidate].
  unfold mret, M_ret, emit, modify. cbn beta iota. apply steady_cycle; [done|].
  by apply (steady_emit (AProbed obs)).
Qed.

(** Futures that are dropped. *)
Lemma reserving_filter p c w : active w = false ∨ c = true → (c = false → _closed (worker w) = c) → reserving w →
  reserving (w <| worker := ((worker w) <| _closed := c |> <| _futures ::= List.filter p |>) |>).
Proof.
  intros Hc Hcl [].
  assert (Hall : ∀ P, Forall P (_futures (worker w)) → Forall P (List.filter p (_futures (worker w)))).
  { intros P. rewrite !Forall_forall. intros HP f Hf. eapply HP, elem_of_filter_list, Hf. }
  split; [refine (filter_inv ((worker w) <| _closed := c |>) p _); by destruct r_worker0; split|..]; cbn.
  - by apply Hall.
  - done.
  - intros Ha. destruct (r_free0 Ha). split; [done|]. by apply Hall.
  - intros Ha. destruct Hc as [Hc|Hc]; [congruence|]. destruct (r_held0 Ha) as [[Hn _]|(f & Hn & Hr & Hp)]; rewrite Hn; cbn.
    + left. split; [done|by right].
    + destruct (p f); [right; by exists f|left]. split; [done|by right].
Qed.

(** The callback of the recovery's own operation, with its discard. *)
Lemma steady_deliver id o b r w : mkFuture id o b (Done r) ∈ _futures (worker w) → steady w →
  steady ((catch (deliver o r) (λ _, mret ());; on_worker (discard id)) w).2.
Proof.
  intros Hf Hw. pose proof (r_flags w (s_reserving w Hw)) as Hb. rewrite Forall_forall in Hb. specialize (Hb _ Hf).
  cbn in Hb. destruct (recovers o) eqn:Ho.
  - assert (Ha : active w = true).
    { destruct (active w) eqn:Ea; [done|]. destruct (r_free w (s_reserving w Hw) Ea) as [_ Hn].
      rewrite Forall_forall in Hn. specialize (Hn _ Hf). cbn in Hn. congruence. }
    assert (Hl : _futures (worker w) = [mkFuture id o b (Done r)]).
    { destruct (r_held w (s_reserving w Hw) Ha) as [[Hn _]|(f & Hn & _)]; rewrite Hn in *; [by apply elem_of_nil in Hf|].
      apply list_elem_of_singleton in Hf. by subst f. }
    assert (Hd : ∃ e, (catch (deliver o r) (λ _, mret ()) w).2 = (_finished e w).2 ∧
                      is_ok (catch (deliver o r) (λ _, mret ()) w).1 = true).
    { unfold catch. exists (negb (is_ok r)). destruct o, r; try done; cbn [deliver is_ok negb];
        by destruct (_finished _ w) as [[[]|?] w']. }
    destruct Hd as (e & Hd & Hok). unfold mbind, M_bind.
    destruct (catch _ _ w) as [[[]|x] w1] eqn:Ec; [|done]. cbn in Hd. subst w1.
    pose proof (finished_fields e w) as (Hk & Hact & Hop). cbn zeta in *.
    pose proof (resuming_finished e w (s_resuming w Hw)) as Hres. set (w1 := (_finished e w).2) in *.
    unfold on_worker, discard, modify. cbn [snd].
    assert (Hfu : _futures (worker w1) = _futures (worker w)) by (rewrite Hk; by destruct (restore_pending w)).
    assert (Hr1 : _reserved (worker w1) = active w1).
    { rewrite Hk, Hact. pose proof (r_active w (s_reserving w Hw)). by destruct (restore_pending w). }
    assert (Hi : worker_inv (worker w1)).
    { rewrite Hk. pose proof (r_worker w (s_reserving w Hw)) as Hi. destruct (restore_pending w); [done|].
      by apply (perform_inv CRelease) in Hi. }
    split; [|by destruct Hres].
    apply reserving_empty; cbn; try done; [by apply (perform_inv (CDiscard id)) in Hi|].
    rewrite Hfu, Hl. cbn. by rewrite Z.eqb_refl.
  - assert (Hd : steady (catch (deliver o r) (λ _, mret ()) w).2 ∧ is_ok (catch (deliver o r) (λ _, mret ()) w).1 = true ∧
                 worker (catch (deliver o r) (λ _, mret ()) w).2 = worker w).
    { unfold catch. destruct o, r; try done; cbn [deliver].
      - unfold modify. split; [|done]. revert Hw. by apply steady_frame.
      - unfold _probe_failed. unfold mbind, M_bind, get. destruct (negb _); [done|]. unfold modify.
        split; [|done]. revert Hw. by apply steady_frame. }
    destruct Hd as (Hs & Hok & Hk). unfold mbind, M_bind. destruct (catch _ _ w) as [[[]|x] w1]; [|done].
    cbn [fst snd] in *. unfold on_worker, discard, modify. cbn [snd]. rewrite <- Hk in Hf.
    assert (Ha : active w1 = false).
    { destruct (active w1) eqn:Ea; [|done]. pose proof (r_flags w1 (s_reserving w1 Hs)) as Hb1.
      rewrite Forall_forall in Hb1. specialize (Hb1 _ Hf). cbn in Hb1.
      destruct (r_held w1 (s_reserving w1 Hs) Ea) as [[Hn _]|(f & Hn & Hr & _)]; rewrite Hn in Hf; [by apply elem_of_nil in Hf|].
      apply list_elem_of_singleton in Hf. subst f. cbn in Hr. congruence. }
    apply steady_worker; [|done].
    pose proof (reserving_filter (λ f, negb (f_id f =? id)) (_closed (worker w1)) w1 (or_introl Ha) (λ E, eq_refl)
      (s_reserving w1 Hs)) as Hr. revert Hr. by apply reserving_frame; destruct (worker w1).
Qed.

Lemma steady_step e : stable steady (step phone read_async e).
Proof.
  destruct e; cbn [step].
  - (* start *) unfold start. apply stable_get_bind. intros w Hw. destruct (_running w) eqn:Er; [done|].
    destruct Hw as [H1 [H2 H3]].
    unfold mbind at 1, M_bind at 1, modify at 1. cbn beta iota.
    assert (Hw : steady (w <| _running := true |> <| _timer := true |>)).
    { split; [by apply (reserving_frame w)|]. split; [done|]. cbn. intros Ho. destruct (H3 Ho). congruence. }
    unfold mbind at 1, M_bind at 1, get at 1. destruct (restore_pending _); [|done]. by apply steady_continue.
  - stable. apply steady_tick.
  - apply steady_invalidate.
  - (* stop *) intros w [H1 [H2 H3]]. unfold stop, emit, mbind, M_bind, modify. cbn beta iota.
    set (w1 := w <| log ::= _ |> <| _running := false |>).
    assert (Hw1 : reserving w1 ∧ _running w1 = false ∧ owed (log w1) = false).
    { split; [by apply (reserving_frame w)|]. split; [done|]. cbn -[owed]. by rewrite owed_snoc. }
    clearbody w1. destruct Hw1 as (Hw1 & Hr & Ho).
    rewrite (invalidate_ok None w1), (invalidate_eq None w1). cbn zeta. rewrite Hr. cbn [andb snd].
    split; destruct (active w1); [by apply (reserving_frame w1)|by apply (reserving_frame w1)|..];
      split; cbn -[owed]; congruence.
  - unfold forget_phone. stable.
  - apply stable_get_bind. intros w Hw. destruct (reads w !! n) as [r|]; [|done].
    unfold mbind, M_bind, modify. cbn beta iota.
    match goal with |- steady (reply _ _ _ _ _ ?v).2 => assert (Hw1 : steady v) by (revert Hw; by apply steady_frame) end.
    unfold reply. destruct r, outcome; try by apply steady_snapshot_failed.
    + by apply steady_snapshot_ready.
    + by apply steady_after_probe.
  - apply stable_get_bind. intros w Hw. destruct (idles w) as [|[[g s] t] l]; [done|].
    unfold mbind, M_bind, modify. cbn beta iota. apply steady_after_probe. revert Hw. by apply steady_frame.
  - apply stable_get_bind. intros w Hw. destruct (next_done (worker w)) as [[id o b []]|] eqn:E; [done|done| |done].
    unfold next_done in E. apply List.find_some in E as [Hf _]. apply list_elem_of_In in Hf.
    exact (steady_deliver id o b outcome w Hf Hw).
  - intros w Hw. apply steady_worker; [|done]. apply reserving_tags; [apply start_first_fields| |apply Hw].
    apply in_order_start, (r_worker w), Hw.
  - apply stable_get_bind. intros w Hw. apply steady_worker; [|done].
    apply reserving_tags; [apply finish_fields| |apply Hw]. apply in_order_finish, (r_worker w), Hw.
  - destruct o; stable. by apply steady_submit_other.
  - stable. steady_leaf.
  - intros w Hw. apply steady_worker; [|done]. apply (reserving_filter _ true); [by right|done|apply Hw].
  - stable. steady_leaf.
  - intros w Hw. unfold mbind, M_bind, emit, modify. cbn -[owed]. split.
    + apply reserving_empty; cbn; try done. split; cbn; try done; constructor. constructor.
    + split; cbn -[owed]; [done|]. by rewrite owed_snoc.
Qed.

Lemma steady_run es w : steady w → steady (run phone read_async es w).
Proof.
  intros Hw. unfold run. apply run_all_invariant; [|done]. intros m w' Hm Hw'.
  apply list_elem_of_fmap in Hm as (e & -> & _). by apply (steady_step e).
Qed.
Lemma steady_init saved clk wall : steady (World_init saved clk wall []).
Proof.
  split; [|by split]. apply reserving_empty; cbn; try done. split; cbn; try done; constructor. constructor.
Qed.
End protocol.

(** C13: a recovery and the profile operations exclude each other: at every
    moment the worker is reserved exactly while a recovery is active; a power
    cycle or restoration in the worker is then the only operation there, and
    the submissions of other components and a second reservation are refused;
    while no recovery is active its operations are not in the worker. *)
Theorem recovery_exclusive phone read_async saved clk wall es :
  let w := run phone read_async es (World_init saved clk wall []) in
  _reserved (worker w) = active w ∧
  (∀ f, f ∈ _futures (worker w) → recovers (f_op f) = true → active w = true ∧ _futures (worker w) = [f]) ∧
  (active w = true → (∀ o, is_ok (submit o false (worker w)).1 = false) ∧ (reserve_if_idle (worker w)).1 = Ok false).
Proof.
  cbn zeta. set (w := run _ _ _ _).
  assert (Hw : reserving w) by apply steady_run, steady_init. clearbody w. split; [by apply r_active|]. split.
  - intros f Hf Hr. assert (Ha : active w = true).
    { destruct (active w) eqn:Ea; [done|]. destruct (r_free w Hw Ea) as [_ Hn]. pose proof (r_flags w Hw) as Hb.
      rewrite Forall_forall in Hn, Hb. specialize (Hn f Hf). specialize (Hb f Hf). cbn in *. congruence. }
    split; [done|]. destruct (r_held w Hw Ha) as [[Hn _]|(g & Hn & _)]; rewrite Hn in Hf |- *; [by apply elem_of_nil in Hf|].
    apply list_elem_of_singleton in Hf. by subst.
  - intros Ha. pose proof (r_active w Hw) as Hr. rewrite Ha in Hr. split.
    + intros o. unfold submit. monad_simpl. destruct (_closed (worker w)); [done|]. by rewrite Hr.
    + unfold reserve_if_idle. monad_simpl. by rewrite Hr, orb_true_r.
Qed.

(** C15: profiles that a recovery paused are resumed: whenever the last thing
    done to them was the pause, the daemon runs and either the recovery is
    still active or the machine sleeps with the resumption noted; and in the
    second case waking up resumes them at once. *)
Theorem profiles_resumed phone read_async saved clk wall es :
  let w := run phone read_async es (World_init saved clk wall []) in
  owed (log w) = true →
  _running w = true ∧ (active w = true ∨ (_suspended w = true ∧ _resume_pending w = true)) ∧
  (active w = false → owed (log (step phone read_async (EInvalidate (Some false)) w).2) = false).
Proof.
  cbn zeta. set (w := run _ _ _ _).
  assert (Hw : resuming w) by apply steady_run, steady_init. clearbody w. intros Ho. destruct (p_owed w Hw Ho) as [Hr Hor].
  split; [done|]. split; [tauto|]. intros Ha. destruct Hor as [Hor|[Hp _]]; [congruence|].
  cbn [step]. rewrite invalidate_eq. cbn zeta. rewrite Ha, Hr, Hp. cbn -[owed]. apply owed_resume.
Qed.
Lemma profiles_resumed_witness : let w := run the_phone false first_cycle (World_init ∅ 0 0 []) in
  owed (log w) = true ∧ _running w = true ∧ (active w = true ∨ (_suspended w = true ∧ _resume_pending w = true)).
Proof.
  intros w. assert (Ho : owed (log w) = true) by (vm_compute; reflexivity). split; [exact Ho|].
  pose proof (profiles_resumed the_phone false ∅ 0 0 first_cycle Ho) as H. split; apply H.
Defined.

(** An active recovery with its operation in the worker. *)
Record finishing (w : World) (f : Future op Z) : Prop := {
  n_active : active w = true;
  n_running : _running w = true;
  n_awake : _suspended w = false;
  n_restored : restore_pending w = false;
  n_future : _futures (worker w) = [f];
  n_recovers : recovers (f_op f) = true;
}.

Section finishing.
Context (phone : string) (read_async : bool).

Lemma tick_submits a w : steady w → active w = true → _running w = true → _suspended w = false →
  restore_pending w = false → _closed (worker w) = false → a_blocked a = false →
  ∃ f, finishing (step phone read_async (ETick a) w).2 f.
Proof.
  intros [H1 H2] Ha Hr Hs Hres Hc Hb. cbn [step]. unfold mbind at 1, M_bind at 1, get at 1.
  rewrite (p_timer w H2 Hr). unfold _tick. unfold mbind at 1, M_bind at 1, get at 1.
  rewrite Hr, Hs, Hb, Ha. cbn [negb orb]. unfold _continue_restoration. unfold mbind at 1, M_bind at 1, get at 1.
  rewrite Ha. unfold submit_restore. unfold mbind at 1, M_bind at 1, get at 1.
  destruct (r_held w H1 Ha) as [[Hn [Hp|Hp]]|(f & Hn & Hf & Hp)]; [|congruence|].
  - rewrite Hp. unfold mbind at 1, M_bind at 1, modify at 1. cbn beta iota. unfold catch, on_worker, mbind, M_bind, mret, M_ret.
    change (worker (_ <| _operation_pending := true |>)) with (worker w).
    unfold submit. monad_simpl. rewrite Hc, (r_active w H1), Ha. cbn [Bool.eqb negb]. rewrite Hn.
    change (MAX_OBEX_PENDING_OPERATIONS <=? zlen []) with false. cbn beta iota.
    eexists. split; cbn; try done; [by rewrite Hn|done].
  - rewrite Hp. exists f. split; try done. pose proof (r_flags w H1) as Hfl. rewrite Hn in Hfl.
    apply Forall_cons in Hfl as [Hfl _]. congruence.
Qed.

Lemma pool_finishes r w f : finishing w f →
  ∃ g out, finishing (run phone read_async [EPoolStart; EPoolFinish r] w) g ∧ f_status g = Done out.
Proof.
  intros [Ha Hr Hs Hres Hn Hrec]. unfold run. cbn [fmap list_fmap run_all step].
  unfold pool_start, pool_finish, on_worker, mbind, M_bind, modify, get. cbn [snd].
  destruct f as [id o b s]. destruct s as [| |out].
  - eexists (mkFuture id o b (Done _)), _. split; [|done]. split; try done. cbn. by rewrite Hn.
  - eexists (mkFuture id o b (Done _)), _. split; [|done]. split; try done. cbn. by rewrite Hn.
  - exists (mkFuture id o b (Done out)), out. split; [|done]. split; try done. cbn. by rewrite Hn.
Qed.

Lemma deliver_finishes w f out : finishing w f → f_status f = Done out →
  let w' := (step phone read_async EDeliver w).2 in
  active w' = false ∧ _reserved (worker w') = false ∧ _futures (worker w') = [] ∧ _operation_pending w' = false ∧
  owed (log w') = false.
Proof.
  intros [Ha Hr Hs Hres Hn Hrec] Hst. cbn zeta. destruct f as [id o b s]. cbn in Hst, Hrec. subst s.
  assert (Hd : ∃ e, catch (deliver o out) (λ _, mret ()) w = (Ok (), (_finished e w).2)).
  { exists (negb (is_ok out)). unfold catch. destruct o, out; try done; cbn [deliver is_ok negb];
      by destruct (_finished _ w) as [[[]|?] w']. }
  destruct Hd as [e Hd].
  assert (E : step phone read_async EDeliver w = on_worker (discard id) (_finished e w).2).
  { cbn [step]. unfold mbind at 1, M_bind at 1, get at 1.
    assert (En : next_done (worker w) = Some (mkFuture id o b (Done out))) by (unfold next_done; by rewrite Hn).
    rewrite En. unfold mbind, M_bind. by rewrite Hd. }
  rewrite E, finished_eq. cbn zeta. rewrite Hres, Hr, Hs. cbn [andb negb].
  destruct (_resume_pending w); cbn -[owed]; rewrite Hn, owed_resume; cbn; by rewrite Z.eqb_refl.
Qed.
End finishing.

Section awake.
Context (phone : string) (read_async : bool).

Lemma awake_finishes a r w : steady w → active w = true → _running w = true → _suspended w = false → restore_pending w = false →
  _closed (worker w) = false → a_blocked a = false →
  let w' := run phone read_async [ETick a; EPoolStart; EPoolFinish r; EDeliver] w in
  active w' = false ∧ _reserved (worker w') = false ∧ _futures (worker w') = [] ∧ _operation_pending w' = false ∧
  owed (log w') = false.
Proof.
  intros Hw Ha Hr Hs Hres Hc Hb. unfold run.
  destruct (tick_submits phone read_async a w) as [f Hf]; [done..|].
  destruct (pool_finishes phone read_async r _ f Hf) as (g & out & Hg & Hout).
  exact (deliver_finishes phone read_async _ g out Hg Hout).
Qed.

(** The events that start a stopped recovery and resume a suspended one. *)
Definition wake (a : Answers) (w : World) : list event :=
  (if _running w then [] else [EStart a]) ++ (if _suspended w then [EInvalidate (Some false)] else []).
Lemma start_eq a w : _running w = false → restore_pending w = false →
  (step phone read_async (EStart a) w).2 = w <| _running := true |> <| _timer := true |>.
Proof.
  intros Hr Hp. cbn [step]. unfold start, mbind, M_bind, get, modify. rewrite Hr. cbn [fst snd].
  change (restore_pending (w <| _running := true |> <| _timer := true |>)) with (restore_pending w). by rewrite Hp.
Qed.
Lemma resume_eq w : active w = true →
  (step phone read_async (EInvalidate (Some false)) w).2 = discard_window (Some false) w <| _cancelled := true |>.
Proof.
  intros Ha. cbn [step]. unfold invalidate, mbind, M_bind, get, modify. cbn [fst snd].
  change (active (discard_window (Some false) w)) with (active w). by rewrite Ha.
Qed.
Lemma wakes a w : active w = true → restore_pending w = false → _closed (worker w) = false →
  let w' := run phone read_async (wake a w) w in
  active w' = true ∧ _running w' = true ∧ _suspended w' = false ∧ restore_pending w' = false ∧ _closed (worker w') = false.
Proof.
  intros Ha Hp Hc. cbn zeta. unfold wake, run. destruct (_running w) eqn:Er, (_suspended w) eqn:Es;
    cbn [app fmap list_fmap run_all]; rewrite ?start_eq, ?resume_eq by done; by split_and!.
Qed.
End awake.

(** C14: a recovery ends.  From any reachable state with an active recovery,
    once the adapter has nothing left to restore, while the worker is not shut
    down and BlueZ answers the poll: after a stopped recovery has been started
    and a suspended one resumed, one tick, the worker's operation (whatever its
    outcome) and its callback release the worker, leave no operation behind and
    resume the profiles. *)
Theorem recovery_finishes phone read_async saved clk wall es a r :
  let w := run phone read_async es (World_init saved clk wall []) in
  active w = true → restore_pending w = false → _closed (worker w) = false → a_blocked a = false →
  let w' := run phone read_async (wake a w ++ [ETick a; EPoolStart; EPoolFinish r; EDeliver]) w in
  active w' = false ∧ _reserved (worker w') = false ∧ _futures (worker w') = [] ∧ _operation_pending w' = false ∧
  owed (log w') = false.
Proof.
  cbn zeta. set (w := run _ _ _ _). assert (Hw : steady w) by apply steady_run, steady_init. clearbody w.
  intros Ha Hp Hc Hb. unfold run. rewrite fmap_app, run_all_app.
  destruct (wakes phone read_async a w Ha Hp Hc) as (Ha' & Hr' & Hs' & Hp' & Hc').
  apply (awake_finishes phone read_async a r (run phone read_async (wake a w) w)); try done. by apply steady_run.
Qed.
(** The daemon is suspended during the cycle. *)
Lemma recovery_finishes_witness :
  let w := run the_phone false (first_cycle ++ [EInvalidate (Some true)]) (World_init ∅ 0 0 []) in
  let w' := run the_phone false (wake ill w ++ [ETick ill; EPoolStart; EPoolFinish (Ok ()); EDeliver]) w in
  active w = true ∧ _suspended w = true ∧ (active w' = false ∧ _reserved (worker w') = false ∧ _futures (worker w') = [] ∧
    _operation_pending w' = false ∧ owed (log w') = false).
Proof.
  intros w w'. assert (Ha : active w = true) by (vm_compute; reflexivity). split; [exact Ha|].
  split; [vm_compute; reflexivity|].
  assert (Hp : restore_pending w = false) by (vm_compute; reflexivity).
  assert (Hc : _closed (worker w) = false) by (vm_compute; reflexivity).
  exact (recovery_finishes the_phone false ∅ 0 0 (first_cycle ++ [EInvalidate (Some true)]) ill (Ok ()) Ha Hp Hc eq_refl).
Defined.

(** A gap: a probe that is still waiting when the phone recovers is not
    forgotten, and while it waits the next outage asks for no LE reset; so an
    adapter can be power cycled in an outage without the LE reset that
    [_check] wants to see first. *)
Theorem stale_probe_skips_reset :
  let l := log (run the_phone false stale_probe (World_init ∅ 0 0 [])) in
  existsb is_healthy_poll l = true ∧
  existsb is_attempt (since_healthy l) = true ∧ existsb is_reset (since_healthy l) = false.
Proof. vm_compute. done. Qed.
