(* ===== verification/PowerRestore.v ===== *)
(** * PowerRestore: the adapter's power transaction
    (class BluezRecoveryAdapter of src/blueferry/bluetooth_recovery.py).

    The worker runs [cycle] and [restore]; BlueZ's signals arrive on the main
    loop while the worker waits for a reply, and both work on the transaction
    objects, kept in [store] and shared by their index.  A [prog] is a method
    of the worker: its sections that touch the shared state ([Locked]) and its
    requests ([Ask]), whose replies and failures the environment chooses.  Each
    section, each sending of a request and each reply is a step of its own:
    signals run before, between and after them, so also between the last check
    and the request that it permits. *)
From S2P Require Import Prelude Recovery.

(** ** Values of the settings file and of D-Bus *)

Inductive value := VStr (s : string) | VInt (n : Z) | VBool (b : bool) | VOther.
Inductive raw := RAbsent | RDict (fields : gmap string value) | ROther.
#[global] Instance value_eq_dec : EqDecision value.
Proof. solve_decision. Defined.

Inductive property := PBool (b : bool) | PStr (s : string) | PInt (n : Z).
Abbreviation properties := (gmap string property).
Abbreviation objects := (gmap string (gmap string properties)).

(** [bool(p)]. *)
Definition truthy (p : property) : bool :=
  match p with PBool b => b | PStr s => negb (String.eqb s "") | PInt n => negb (n =? 0) end.

(** ** The shared state *)

Record _PowerRestore := mkPowerRestore {
  expected : AdapterState;
  bus_id : string;
  instance : string;
  saw_off : bool;
  completed : bool;
}.

(** What a daemon finds in the settings file when it starts: no record, one it
    cannot use, or a transaction to finish. *)
Inductive found := Nothing | Unreadable | Pending.
(** What the transaction did: the journal before the power-off, the last check
    before a request ([true] for the power-on), the requests to BlueZ, the
    completion, the removal of the journal, and the start of a daemon. *)
Inductive power_action := LJournal | LSure (on : bool) | LOff | LOn | LDone | LClean | LBoot (f : found).

Record Adapter := mkAdapter {
  _revision : Z;
  _incarnation : Z;
  _restore : option nat;
  _stale_record : bool;
  store : list _PowerRestore;
  (* the settings file, and whether it can be written now *)
  journal : raw;
  writable : bool;
  (* the [cancelled] event of the running cycle *)
  cancelled : bool;
  history : list power_action;
}.

Definition note (x : power_action) : M Adapter () := modify (λ a : Adapter, a <| history ::= λ l, l ++ [x] |>).

Fixpoint replace_char (c d : Ascii.ascii) (s : string) : string :=
  match s with
  | EmptyString => EmptyString
  | String x s' => String (if Ascii.eqb x c then d else x) (replace_char c d s')
  end.

Section adapter.
(** The adapter's and the phone's names, D-Bus's check of a bus name, and
    [str] of a D-Bus value. *)
Context (adapter phone : string) (validate_bus_name : string → bool) (py_str : property → string).

Definition path : string := "/org/bluez/" +:+ adapter.
Definition device_path : string := path +:+ "/dev_" +:+ replace_char (Ascii.ascii_of_N 58) (Ascii.ascii_of_N 95) phone.

Definition current_transaction (a : Adapter) : option _PowerRestore := t ← _restore a; store a !! t.
Definition restore_pending (a : Adapter) : bool :=
  match current_transaction a with Some tr => negb (completed tr) | None => false end.
Definition cleanup_pending (a : Adapter) : bool :=
  _stale_record a || match current_transaction a with Some tr => completed tr | None => false end.

(** [isinstance(raw.get(key), str) and raw[key]]. *)
Definition text_field (m : gmap string value) (key : string) : option string :=
  match m !! key with Some (VStr s) => if String.eqb s "" then None else Some s | _ => None end.
(** [raw.get("version") == 1]: [True == 1] too. *)
Definition is_version_1 (v : option value) : bool :=
  match v with Some (VInt n) => n =? 1 | Some (VBool b) => b | _ => false end.

Definition _load_restore (r : raw) : option _PowerRestore :=
  match r with
  | RDict m =>
      if negb (is_version_1 (m !! "version")) then None
      else if negb (bool_decide (m !! "path" = Some (VStr path)))
              || negb (bool_decide (m !! "device" = Some (VStr device_path))) then None
      else
        match text_field m "owner", text_field m "address", text_field m "bus_id", text_field m "instance" with
        | Some owner, Some address, Some bus, Some inst =>
            match m !! "phase" with
            | Some (VStr phase) =>
                if negb (String.prefix ":" owner) || negb (String.eqb phase "off" || String.eqb phase "on")
                   || negb (validate_bus_name owner) then None
                else Some (mkPowerRestore (mkAdapterState owner address true true "on" 0 0 false) bus inst
                             (String.eqb phase "on") false)
            | _ => None
            end
        | _, _, _, _ => None
        end
  | _ => None
  end.

Definition present (r : raw) : bool := match r with RAbsent => false | _ => true end.

Definition reload_journal : M Adapter () :=
  a ← get;
  match _load_restore (journal a) with
  | Some tr => put (a <| store ::= λ l, l ++ [tr] |> <| _restore := Some (length (store a)) |> <| _stale_record := false |>)
  | None => put (a <| _restore := None |> <| _stale_record := present (journal a) |>)
  end.

(** The record [_persist_restore] writes. *)
Definition journal_record (tr : _PowerRestore) (phase : string) : raw :=
  RDict {["version" := VInt 1; "path" := VStr path; "device" := VStr device_path;
          "owner" := VStr (owner (expected tr)); "address" := VStr (address (expected tr));
          "bus_id" := VStr (bus_id tr); "instance" := VStr (instance tr); "phase" := VStr phase]}.
Definition _persist_restore (tr : _PowerRestore) (phase : string) : M Adapter () :=
  a ← get;
  if writable a then put (a <| journal := journal_record tr phase |>) else raise OSError.

Definition cleanup_journal : M Adapter () :=
  a ← get;
  if negb (cleanup_pending a) then mret ()
  else if writable a then
    put (a <| journal := RAbsent |> <| _restore := None |> <| _stale_record := false |>);;
    note LClean
  else mret ().

Definition set_completed (tr : _PowerRestore) : _PowerRestore := tr <| completed := true |>.
Definition set_saw_off (tr : _PowerRestore) : _PowerRestore := tr <| saw_off := true |>.
Definition _complete_restore (t : nat) : M Adapter () :=
  modify (λ a : Adapter, a <| store ::= alter set_completed t |>);;
  note LDone;;
  a ← get;
  if bool_decide (_restore a = Some t) then cleanup_journal else mret ().

(** ** Signals of BlueZ *)

Definition bump_revision : M Adapter () := modify (λ a : Adapter, a <| _revision ::= Z.add 1 |>).
Definition bump_incarnation : M Adapter () := modify (λ a : Adapter, a <| _incarnation ::= Z.add 1 |>).
Definition inside (p : string) : bool := String.prefix (path +:+ "/") p.
Definition mentions (names : list string) (watched : list string) : bool :=
  existsb (λ n, bool_decide (n ∈ watched)) names.

Definition _interfaces_changed (p : string) (interfaces : list string) : M Adapter () :=
  if String.eqb p path && mentions interfaces ["org.bluez.Adapter1"] then bump_incarnation;; bump_revision
  else if inside p && mentions interfaces ["org.bluez.Device1"; "org.bluez.Bearer.LE1"; "org.bluez.Bearer.BREDR1"]
  then bump_revision
  else mret ().

Definition _owner_changed : M Adapter () := bump_incarnation;; bump_revision.

(** The transaction follows the adapter's [Powered]. *)
Definition power_signal (powered : bool) : M Adapter () :=
  a ← get;
  match _restore a, current_transaction a with
  | Some t, Some tr =>
      if negb powered then modify (λ a : Adapter, a <| store ::= alter set_saw_off t |>)
      else if saw_off tr then _complete_restore t
      else mret ()
  | _, _ => mret ()
  end.

Definition _properties_changed (interface : string) (changed : gmap string property) (invalidated : list string)
    (p : string) : M Adapter () :=
  let names := (map_to_list changed).*1 ++ invalidated in
  let relevant :=
    if String.eqb p path && String.eqb interface "org.bluez.Adapter1" then
      mentions names ["Address"; "Powered"; "PowerState"; "Discovering"; "Discoverable"]
    else if inside p then
      if String.eqb interface "org.bluez.Device1" then
        mentions names (["Paired"; "Bonded"; "Blocked"] ++ if negb (String.eqb p device_path) then ["Connected"] else [])
      else if negb (String.eqb p device_path) &&
              (String.eqb interface "org.bluez.Bearer.LE1" || String.eqb interface "org.bluez.Bearer.BREDR1")
      then mentions names ["Connected"]
      else false
    else false in
  (if String.eqb p path && String.eqb interface "org.bluez.Adapter1" then
     match changed !! "Powered" with Some v => power_signal (truthy v) | None => mret () end
   else mret ());;
  if relevant then bump_revision else mret ().

(** ** Reading the adapter *)

Definition flag (props : properties) (name : string) (absent : bool) : bool :=
  match props !! name with Some p => truthy p | None => absent end.
Definition interface_of (interfaces : gmap string properties) (name : string) : properties :=
  default ∅ (interfaces !! name).
Definition lookup_error {A} (x : option A) : result A := match x with Some a => Ok a | None => Raise KeyError end.
Definition upper_char (c : Ascii.ascii) : Ascii.ascii :=
  let n := Ascii.N_of_ascii c in if ((97 <=? n) && (n <=? 122))%N then Ascii.ascii_of_N (n - 32) else c.
(** [str.upper] of an ASCII text. *)
Fixpoint upper_string (s : string) : string :=
  match s with EmptyString => EmptyString | String c s' => String (upper_char c) (upper_string s') end.

(** Another device that is connected or known to the adapter. *)
Definition other_device (entry : string * gmap string properties) : bool :=
  inside entry.1 && negb (String.eqb entry.1 device_path) &&
  match entry.2 !! "org.bluez.Device1" with
  | Some device =>
      flag device "Connected" true || flag device "Paired" false || flag device "Bonded" false
      || flag (interface_of entry.2 "org.bluez.Bearer.LE1") "Connected" false
      || flag (interface_of entry.2 "org.bluez.Bearer.BREDR1") "Connected" false
  | None => false
  end.

Definition power_state_of (props : properties) : string :=
  match props !! "PowerState" with Some p => py_str p | None => "" end.

Definition _state_from_objects (owner : string) (objs : objects) (revision incarnation : Z) : M Adapter AdapterState :=
  interfaces ← lift (lookup_error (objs !! path));
  props ← lift (lookup_error (interfaces !! "org.bluez.Adapter1"));
  let device := interface_of (default ∅ (objs !! device_path)) "org.bluez.Device1" in
  powered ← lift (truthy <$> lookup_error (props !! "Powered"));
  let le_reset_safe := powered && String.eqb (power_state_of props) "on"
                       && flag device "Bonded" (flag device "Paired" false) && negb (flag device "Blocked" false) in
  let safe := le_reset_safe && negb (flag props "Discovering" true) && negb (flag props "Discoverable" true)
              && negb (existsb other_device (map_to_list objs)) in
  a ← get;
  if negb (revision =? _revision a) then raise (RuntimeError "adapter topology changed during inspection")
  else
    addr ← lift (lookup_error (props !! "Address"));
    mret (mkAdapterState owner (upper_string (py_str addr)) powered safe (power_state_of props)
            revision incarnation le_reset_safe).

(** ** The worker's methods *)

Inductive call : Type → Type :=
  | GetId : call string
  | AdapterInstance : call string
  | Proxy : call ()
  | GetNameOwner : call string
  | GetManagedObjects : call objects
  | SetPowered (on : bool) : call ().

Inductive prog (A : Type) : Type :=
  | Return (r : result A)
  | Locked {B : Type} (f : M Adapter B) (k : result B → prog A)
  | Ask {B : Type} (c : call B) (k : result B → prog A).
Arguments Return {A} _.
Arguments Locked {A B} _ _.
Arguments Ask {A B} _ _.

(** The rest of a method, for a result or an exception. *)
Fixpoint and_then {A B} (p : prog A) (k : result A → prog B) : prog B :=
  match p with
  | Return r => k r
  | Locked f k' => Locked f (λ r, and_then (k' r) k)
  | Ask c k' => Ask c (λ r, and_then (k' r) k)
  end.
#[export] Instance prog_ret : MRet prog := λ A a, Return (Ok a).
#[export] Instance prog_bind : MBind prog := λ A B k p,
  and_then p (λ r, match r with Ok a => k a | Raise e => Return (Raise e) end).
Definition throw {A} (e : exn) : prog A := Return (Raise e).
Definition locked {A} (f : M Adapter A) : prog A := Locked f Return.
Definition ask {A} (c : call A) : prog A := Ask c Return.
(** [try: p except: h] and [try: p finally: q]. *)
Definition except {A} (p : prog A) (h : exn → prog A) : prog A :=
  and_then p (λ r, match r with Ok a => Return (Ok a) | Raise e => h e end).
Definition finally (p q : prog ()) : prog () :=
  and_then p (λ r, and_then q (λ r', match r' with Ok _ => Return r | Raise e => Return (Raise e) end)).

Definition read : prog AdapterState :=
  seen ← locked (gets (λ a, (_revision a, _incarnation a)));
  owner ← ask GetNameOwner;
  objs ← ask GetManagedObjects;
  locked (_state_from_objects owner objs seen.1 seen.2).

(** The transaction is over, and the method fails with [e]. *)
Definition complete_and_raise {A} (t : nat) (e : exn) : M Adapter A := _complete_restore t;; raise e.

Definition gone_names : list string :=
  ["org.freedesktop.DBus.Error.NameHasNoOwner"; "org.freedesktop.DBus.Error.ServiceUnknown";
   "org.freedesktop.DBus.Error.UnknownObject"].
Definition controller_changed : exn := RuntimeError "controller changed during Bluetooth recovery".

(** The [except] clauses of [_restoration_state], and its last checks. *)
Definition restoration_failed (t : nat) (e : exn) : prog AdapterState :=
  match e with
  | FileNotFoundError | KeyError =>
      locked (complete_and_raise t (RuntimeError "controller disappeared during Bluetooth recovery"))
  | DBusException name =>
      if bool_decide (name ∈ gone_names) then locked (complete_and_raise t e) else throw e
  | _ => throw e
  end.
Definition same_controller (t : nat) (tr : _PowerRestore) (current : AdapterState) : prog AdapterState :=
  if negb (String.eqb (owner current) (owner (expected tr))) || negb (String.eqb (address current) (address (expected tr)))
     || negb (incarnation current =? incarnation (expected tr))
  then locked (complete_and_raise t controller_changed)
  else if String.eqb (power_state current) "off-blocked"
  then locked (complete_and_raise t (RuntimeError "adapter power could not be restored: rfkill blocked"))
  else mret current.
Definition _restoration_state (t : nat) (tr : _PowerRestore) : prog AdapterState :=
  current ← except
    (inst ← ask AdapterInstance;
     locked (a ← get;
             if negb (String.eqb inst (instance tr)) || negb (_incarnation a =? incarnation (expected tr))
             then complete_and_raise t controller_changed else mret ());;
     read)
    (restoration_failed t);
  same_controller t tr current.

Definition terminal (s : AdapterState) : bool := String.eqb (power_state s) "on" || String.eqb (power_state s) "off".
Definition is_completed (a : Adapter) (t : nat) : bool :=
  match store a !! t with Some tr => completed tr | None => false end.

(** Before the power-on: the journal says [on], or could not be written. *)
Definition prepare_on (t : nat) (tr : _PowerRestore) : M Adapter bool :=
  a ← get;
  if is_completed a t then _complete_restore t;; mret false
  else if negb (_incarnation a =? incarnation (expected tr)) then complete_and_raise t controller_changed
  else
    modify (λ a : Adapter, a <| store ::= alter set_saw_off t |>
              <| journal ::= λ j, if writable a then journal_record tr "on" else j |>);;
    mret true.

(** The last check before the power-on. *)
Definition still_off (t : nat) (current : AdapterState) : M Adapter bool :=
  a ← get;
  if is_completed a t || powered current || negb (terminal current) then
    (if is_completed a t || (powered current && terminal current) then _complete_restore t else mret ());;
    mret false
  else note (LSure true);; mret true.

(** The transaction that [restore] works on. *)
Definition pending_transaction : M Adapter (option (nat * _PowerRestore)) :=
  cleanup_journal;;
  a ← get;
  mret (t ← _restore a; tr ← store a !! t; if completed tr then None else Some (t, tr)).

Definition restore : prog () :=
  pending ← locked pending_transaction;
  match pending with
  | None => mret ()
  | Some (t, tr) =>
      bus ← ask GetId;
      if negb (String.eqb bus (bus_id tr))
      then locked (complete_and_raise t (RuntimeError "system bus changed during Bluetooth recovery"))
      else
        ask Proxy;;
        current ← _restoration_state t tr;
        if negb (terminal current) then mret ()
        else if negb (powered current) then
          go ← locked (prepare_on t tr);
          if negb (go : bool) then mret ()
          else
            again ← _restoration_state t tr;
            off ← locked (still_off t again);
            if negb (off : bool) then mret ()
            else
              ask (SetPowered true);;
              locked (_complete_restore t)
        else locked (_complete_restore t)
  end.

Definition conditions_changed : exn := RuntimeError "adapter recovery conditions changed".

(** Before the power-off: the transaction and its journal. *)
Definition begin_transaction (state : AdapterState) (bus inst : string) : M Adapter nat :=
  let tr := mkPowerRestore state bus inst false false in
  _persist_restore tr "off";;
  note LJournal;;
  a ← get;
  put (a <| store ::= λ l, l ++ [tr] |> <| _restore := Some (length (store a)) |>);;
  mret (length (store a)).

(** The last check before the power-off. *)
Definition unchanged (t : nat) (state current : AdapterState) : M Adapter () :=
  a ← get;
  if cancelled a || negb (bool_decide (current = state)) || negb (safe current)
     || negb (_revision a =? revision current) || is_completed a t
  then raise conditions_changed else note (LSure false).

Definition cycle (state : AdapterState) : prog () :=
  locked (a ← get; if restore_pending a then raise (RuntimeError "adapter power restoration is still pending") else mret ());;
  locked (a ← get; if cleanup_pending a then raise (RuntimeError "adapter restoration journal cleanup is still pending") else mret ());;
  ask Proxy;;
  bus ← ask GetId;
  inst ← ask AdapterInstance;
  t ← locked (begin_transaction state bus inst);
  except
    (inst' ← ask AdapterInstance;
     if negb (String.eqb inst' inst) then throw conditions_changed
     else
       current ← read;
       locked (unchanged t state current))
    (λ e, locked (complete_and_raise t e));;
  finally (ask (SetPowered false)) restore.

(** [finish_shutdown]: attempts while time is left, then the cleanup. *)
Fixpoint restore_attempts (attempts : nat) : prog () :=
  match attempts with
  | O => mret ()
  | S n =>
      pending ← locked (gets restore_pending);
      if (pending : bool) then except restore (λ _, mret ());; restore_attempts n else mret ()
  end.
Definition finish_shutdown (attempts : nat) : prog () := restore_attempts attempts;; locked cleanup_journal.

(** ** The worker among the signals *)

(** A request that is sent leaves its mark. *)
Definition sent {B} (c : call B) (a : Adapter) : Adapter :=
  match c with
  | SetPowered on => a <| history ::= λ l, l ++ [if on then LOn else LOff] |>
  | _ => a
  end.

(** [asked]: the request at the head of [thread] was sent. *)
Record Power := mkPower { shared : Adapter; thread : prog (); asked : bool }.

Inductive signal :=
  | SInterfaces (p : string) (interfaces : list string)
  | SOwner
  | SProperties (interface : string) (changed : gmap string property) (invalidated : list string) (p : string)
  | SCancel (on : bool)
  | SWritable (ok : bool)
  | SCleanup.  (* [cleanup_journal] from the recovery's tick *)
Definition receive (s : signal) : M Adapter () :=
  match s with
  | SInterfaces p i => _interfaces_changed p i
  | SOwner => _owner_changed
  | SProperties i c v p => _properties_changed i c v p
  | SCancel on => modify (λ a : Adapter, a <| cancelled := on |>)
  | SWritable ok => modify (λ a : Adapter, a <| writable := ok |>)
  | SCleanup => cleanup_journal
  end.

Inductive method := MCycle (state : AdapterState) | MRestore | MShutdown (attempts : nat).
Definition body (m : method) : prog () :=
  match m with MCycle s => cycle s | MRestore => restore | MShutdown n => finish_shutdown n end.

Inductive power_event :=
  | PCall (m : method)
  | PRun  (* the worker's next section, or the sending of its next request *)
  | PReply (reply : ∀ B, call B → result B)
  | PSignal (s : signal)
  | PBoot.  (* the daemon ends, and a new one loads the journal *)

Definition idle_thread : prog () := Return (Ok ()).
Definition found_in (a : Adapter) : found := if restore_pending a then Pending else if _stale_record a then Unreadable else Nothing.
Definition boot (saved : raw) (ok : bool) (past : list power_action) : Adapter :=
  let a := (reload_journal (mkAdapter 0 0 None false [] saved ok false past)).2 in
  a <| history ::= λ l, l ++ [LBoot (found_in a)] |>.

Definition power_step (e : power_event) (w : Power) : Power :=
  match e with
  | PCall m =>
      match thread w with
      | Return _ => mkPower (shared w) (body m) false
      | _ => w
      end
  | PRun =>
      match thread w with
      | Return _ => w
      | Locked f k => let '(r, a) := f (shared w) in mkPower a (k r) false
      | Ask c k => if asked w then w else mkPower (sent c (shared w)) (Ask c k) true
      end
  | PReply reply =>
      match thread w with
      | Ask c k => if asked w then mkPower (shared w) (k (reply _ c)) false else w
      | _ => w
      end
  | PSignal s => w <| shared := (receive s (shared w)).2 |>
  | PBoot => mkPower (boot (journal (shared w)) (writable (shared w)) (history (shared w))) idle_thread false
  end.
Definition power_run (es : list power_event) (w : Power) : Power := foldl (λ w e, power_step e w) w es.
End adapter.
Arguments Return {A} _.
Arguments Locked {A B} _ _.
Arguments Ask {A B} _ _.
