(* ===== verification/PowerProtocol.v ===== *)
(** * PowerProtocol: the power transaction under every interleaving of the
    worker with BlueZ's signals, failures and restarts. *)
From S2P Require Import Prelude Recovery PowerRestore.

(** ** The specification: one obligation at a time *)

(** No obligation and no journal; a journal that nobody works on (its
    transaction completed, or it cannot be used); an obligation whose power-off
    was not sent; one whose power-off may have been sent. *)
Inductive obligation := Free | Stale | Armed | Owing.
#[global] Instance obligation_eq_dec : EqDecision obligation.
Proof. solve_decision. Defined.
Definition open (o : obligation) : bool := match o with Armed | Owing => true | _ => false end.

(** What the specification remembers: the obligation, and the request that the
    worker's last check permits ([Some true] the power-on).

    A power-off needs a check under an armed obligation, and a power-on one
    under an open obligation; between the check and its request only a signal
    may complete the transaction.  A completed transaction stays on disk until
    the journal is removed, and only a new daemon can take it up again. *)
Abbreviation spec := (obligation * option bool)%type.
Definition follow (s : spec) (x : power_action) : option spec :=
  match x, s with
  | LJournal, (Free, _) => Some (Armed, None)
  | LSure false, (Armed, _) => Some (Armed, Some false)
  | LSure true, (Armed, _) => Some (Armed, Some true)
  | LSure true, (Owing, _) => Some (Owing, Some true)
  | LOff, (Armed, Some false) => Some (Owing, None)
  | LOff, (Stale, Some false) => Some (Stale, None)
  | LOff, (Free, Some false) => Some (Free, None)
  | LOn, (o, Some true) => Some (o, None)
  | LDone, (Free, p) => Some (Free, p)
  | LDone, (_, p) => Some (Stale, p)
  | LClean, (Stale, p) => Some (Free, p)
  | LBoot Pending, ((Stale | Armed | Owing), _) => Some (Owing, None)
  | LBoot Unreadable, (Stale, _) => Some (Stale, None)
  | LBoot Nothing, (Free, _) => Some (Free, None)
  | _, _ => None
  end.
Definition protocol (start : obligation) (l : list power_action) : option spec :=
  foldl (λ s x, s ≫= (λ s, follow s x)) (Some (start, None)) l.
Lemma protocol_snoc o l x : protocol o (l ++ [x]) = protocol o l ≫= (λ s, follow s x).
Proof. unfold protocol. by rewrite foldl_app. Qed.
(** The obligation that a settings file stands for, before a daemon read it. *)
Definition obligation_of (r : raw) : obligation := if present r then Stale else Free.

Section power.
Context (adapter phone : string) (validate_bus_name : string → bool) (py_str : property → string).
Abbreviation load := (_load_restore adapter phone validate_bus_name).
Context (start : obligation).
Abbreviation protocol := (protocol start).
Abbreviation receive := (receive adapter phone).
Abbreviation record := (journal_record adapter phone).

(** A transaction whose journal can be read back. *)
Record loadable (tr : _PowerRestore) : Prop := {
  l_unique : String.prefix ":" (owner (expected tr)) = true;
  l_owner : validate_bus_name (owner (expected tr)) = true;
  l_address : address (expected tr) ≠ "";
  l_bus : bus_id tr ≠ "";
  l_instance : instance tr ≠ "";
}.

(** The state of the object and of the settings file is that of the
    specification. *)
Record agrees (a : Adapter) (o : obligation) : Prop := {
  g_pending : restore_pending a = open o;
  g_cleanup : cleanup_pending a = bool_decide (o = Stale);
  g_journal : present (journal a) = negb (bool_decide (o = Free));
  g_loads : open o = true → is_Some (load (journal a));
}.
(** The invariant of the shared state. *)
Record sound (a : Adapter) : Prop := {
  s_ref : ∀ t, _restore a = Some t → ∃ tr, store a !! t = Some tr ∧ loadable tr;
  s_stale : _stale_record a = true → _restore a = None;
  s_protocol : ∃ o p, protocol (history a) = Some (o, p) ∧ agrees a o;
}.

(** What the worker knows of its transaction [t], whatever the signals do. *)
Definition holds (t : nat) (a : Adapter) : Prop :=
  _restore a = Some t ∨ (is_completed a t = true ∧ _restore a = None).
Definition unsent (a : Adapter) : Prop := ∃ o p, protocol (history a) = Some (o, p) ∧ o ≠ Owing.
(** The request that the last check permits. *)
Definition permits (on : bool) (a : Adapter) : Prop := ∃ o, protocol (history a) = Some (o, Some on).

Lemma text_field_ok m k s : m !! k = Some (VStr s) → s ≠ "" → text_field m k = Some s.
Proof. intros E Hs. unfold text_field. rewrite E. destruct (String.eqb s "") eqn:Eq; [|done]. by apply String.eqb_eq in Eq. Qed.

Lemma load_record tr phase : loadable tr → (phase = "off" ∨ phase = "on") → is_Some (load (record tr phase)).
Proof.
  intros [Hu Ho Ha Hb Hi] Hp. assert (Hn : owner (expected tr) ≠ "") by (intros E; by rewrite E in Hu). unfold _load_restore, journal_record.
  set (m := {["version" := _; "path" := _; "device" := _; "owner" := _; "address" := _; "bus_id" := _; "instance" := _; "phase" := _]}).
  assert (E1 : m !! "version" = Some (VInt 1)) by (unfold m; by simplify_map_eq). assert (E2 : m !! "path" = Some (VStr (path adapter))) by (unfold m; by simplify_map_eq).
  assert (E3 : m !! "device" = Some (VStr (device_path adapter phone))) by (unfold m; by simplify_map_eq).
  assert (E4 : m !! "phase" = Some (VStr phase)) by (unfold m; by simplify_map_eq). rewrite E1, E2, E3, E4. cbn [is_version_1].
  rewrite (text_field_ok m "owner" (owner (expected tr))), (text_field_ok m "address" (address (expected tr))),
    (text_field_ok m "bus_id" (bus_id tr)), (text_field_ok m "instance" (instance tr))
    by (done || (unfold m; by simplify_map_eq)).
  rewrite !bool_decide_eq_true_2 by done. rewrite Hu, Ho. change (1 =? 1) with true. cbn [negb orb].
  destruct Hp as [-> | ->]; cbn; by eexists.
Qed.

(** ** The shared operations keep the invariant *)

Lemma pending_completed a t : _restore a = Some t → sound a → restore_pending a = negb (is_completed a t).
Proof.
  intros E Hs. destruct (s_ref a Hs t E) as (tr & Et & _). unfold restore_pending, current_transaction, is_completed.
  rewrite E. cbn. by rewrite Et.
Qed.
Lemma pending_none a : _restore a = None → restore_pending a = false.
Proof. intros E. unfold restore_pending, current_transaction. by rewrite E. Qed.

(** A change outside the transaction. *)
Lemma sound_frame a a' : _restore a' = _restore a → store a' = store a → _stale_record a' = _stale_record a →
  journal a' = journal a → history a' = history a → sound a → sound a'.
Proof.
  intros Hr Hs Hst Hj Hh [H1 H2 (o & p & Ho & [])].
  assert (Hp : restore_pending a' = restore_pending a) by (unfold restore_pending, current_transaction; by rewrite Hr, Hs).
  assert (Hc : cleanup_pending a' = cleanup_pending a) by (unfold cleanup_pending, current_transaction; by rewrite Hr, Hs, Hst).
  split; rewrite ?Hr, ?Hs, ?Hst, ?Hh; [done..|]. exists o, p. split; [done|]. split; rewrite ?Hp, ?Hc, ?Hj; done.
Qed.
Lemma holds_frame t a a' : _restore a' = _restore a → store a' = store a → holds t a → holds t a'.
Proof. intros Hr Hs. unfold holds, is_completed. by rewrite Hr, Hs. Qed.

(** A transaction that changes, but not in what names it. *)
Lemma alter_ref f t a : (∀ tr, loadable tr → loadable (f tr)) → sound a →
  ∀ t', _restore a = Some t' → ∃ tr, alter f t (store a) !! t' = Some tr ∧ loadable tr.
Proof.
  intros Hf Hs t' E. destruct (s_ref a Hs t' E) as (tr & Et & Hl). destruct (decide (t = t')) as [->|Hne].
  - exists (f tr). rewrite list_lookup_alter_eq, Et. split; [done|]. by apply Hf.
  - exists tr. by rewrite list_lookup_alter_ne.
Qed.
Lemma loadable_completed tr : loadable tr → loadable (set_completed tr).
Proof. by intros []. Qed.
Lemma loadable_saw_off tr : loadable tr → loadable (set_saw_off tr).
Proof. by intros []. Qed.

Lemma saw_off_completed t t' a : is_completed (a <| store ::= alter set_saw_off t |>) t' = is_completed a t'.
Proof.
  unfold is_completed. cbn. destruct (decide (t = t')) as [->|Hne].
  - rewrite list_lookup_alter_eq. by destruct (store a !! t').
  - by rewrite list_lookup_alter_ne.
Qed.
Lemma saw_off_current t a :
  completed <$> current_transaction (a <| store ::= alter set_saw_off t |>) = completed <$> current_transaction a.
Proof.
  unfold current_transaction. cbn. destruct (_restore a) as [t'|]; [|done]. cbn. destruct (decide (t = t')) as [->|Hne].
  - rewrite list_lookup_alter_eq. by destruct (store a !! t').
  - by rewrite list_lookup_alter_ne.
Qed.
Lemma pending_completes a : restore_pending a = default false (negb <$> (completed <$> current_transaction a)).
Proof. unfold restore_pending. by destruct (current_transaction a). Qed.
Lemma cleanup_completes a : cleanup_pending a = _stale_record a || default false (completed <$> current_transaction a).
Proof. unfold cleanup_pending. by destruct (current_transaction a). Qed.
Lemma sound_saw_off t a : sound a → sound (a <| store ::= alter set_saw_off t |>).
Proof.
  intros Hs. pose proof (saw_off_current t a) as Hcur.
  pose proof (alter_ref set_saw_off t a loadable_saw_off Hs). destruct Hs as [_ H2 (o & p & Ho & [G1 G2 G3 G4])].
  split; [done..|]. exists o, p. split; [done|].
  split; [by rewrite pending_completes, Hcur, <- pending_completes|rewrite cleanup_completes in *; by rewrite Hcur|done..].
Qed.

(** The cleanup of a stale journal; nothing else is cleaned up. *)
Lemma cleanup_sound a : sound a → sound (cleanup_journal a).2.
Proof.
  intros Hs. unfold cleanup_journal, get, note, modify, put, mbind, M_bind. destruct (cleanup_pending a) eqn:Ec; cbn [negb]; [|done].
  destruct (writable a); [|done]. cbn -[protocol load]. destruct Hs as [_ _ (o & p & Ho & [G1 G2 G3 G4])].
  rewrite Ec in G2. symmetry in G2. apply bool_decide_eq_true in G2. subst o.
  split; cbn -[protocol load]; [done..|]. exists Free, p. rewrite protocol_snoc, Ho. split; [done|]. by split.
Qed.
Lemma cleanup_holds t a : sound a → holds t a → holds t (cleanup_journal a).2.
Proof.
  intros Hs Hh. unfold cleanup_journal, get, note, modify, put, mbind, M_bind. destruct (cleanup_pending a) eqn:Ec; cbn [negb]; [|done].
  destruct (writable a); [|done]. right. destruct Hh as [Hh|[Hc _]]; [|done]. split; [|done].
  unfold cleanup_pending in Ec. apply orb_true_iff in Ec as [Ec|Ec]; [by rewrite (s_stale a Hs) in Hh|].
  unfold current_transaction in Ec. rewrite Hh in Ec. cbn in Ec. unfold is_completed. cbn. by destruct (store a !! t).
Qed.
(** It changes the specification only from a stale to no obligation. *)
Lemma cleanup_spec a : sound a → store (cleanup_journal a).2 = store a ∧
  (history (cleanup_journal a).2 = history a ∨
   ∃ p, protocol (history a) = Some (Stale, p) ∧ protocol (history (cleanup_journal a).2) = Some (Free, p)).
Proof.
  intros Hs. unfold cleanup_journal, get, note, modify, put, mbind, M_bind. destruct (cleanup_pending a) eqn:Ec; cbn [negb]; [|auto].
  destruct (writable a); [|auto]. cbn -[protocol]. split; [done|]. right. destruct Hs as [_ _ (o & p & Ho & [_ G2 _ _])].
  rewrite Ec in G2. symmetry in G2. apply bool_decide_eq_true in G2. subst o. exists p. by rewrite protocol_snoc, Ho.
Qed.

(** A closed obligation stays closed; the permit does not change. *)
Definition closes (s s' : spec) : Prop := s'.2 = s.2 ∧ open s'.1 = false ∧ s'.1 ≠ Owing.
Lemma complete_spec t a : sound a → holds t a →
  let a' := (_complete_restore t a).2 in
  sound a' ∧ holds t a' ∧ is_completed a' t = true ∧
  ∃ s s', protocol (history a) = Some s ∧ protocol (history a') = Some s' ∧ closes s s'.
Proof.
  intros Hs Hh. cbn zeta. unfold _complete_restore, note, modify, get, mbind, M_bind. cbn [_restore].
  set (a1 := a <| store ::= alter set_completed t |> <| history ::= λ l, l ++ [LDone] |>).
  destruct (s_protocol a Hs) as (o & p & Ho & Hg). set (o1 := match o with Free => Free | _ => Stale end).
  assert (Hp : protocol (history a1) = Some (o1, p)) by (cbn -[protocol]; rewrite protocol_snoc, Ho; by destruct o).
  assert (Hc : is_completed a1 t = true).
  { unfold is_completed. cbn. rewrite list_lookup_alter_eq. destruct Hh as [Hh|[Hh _]].
    - by destruct (s_ref a Hs t Hh) as (tr & -> & _).
    - unfold is_completed in Hh. by destruct (store a !! t). }
  assert (Ho1 : open o1 = false) by (subst o1; by destruct o).
  assert (Hcl : closes (o, p) (o1, p)) by (split_and!; [done|done|by destruct o]).
  assert (Hs1 : sound a1).
  { pose proof (alter_ref set_completed t a loadable_completed Hs) as Href. destruct Hg as [G1 G2 G3 G4]. split.
    - exact Href.
    - apply (s_stale a Hs).
    - exists o1, p. split; [done|]. unfold is_completed in Hc. destruct Hh as [Hh|[Hcomp Hh]].
      + assert (Hcur : current_transaction a1 = store a1 !! t) by (unfold current_transaction; cbn; by rewrite Hh).
        destruct (store a1 !! t) as [tr|] eqn:Et; [|done].
        assert (Hne : o ≠ Free).
        { intros ->. destruct (s_ref a Hs t Hh) as (tr' & Et' & _). unfold restore_pending, cleanup_pending, current_transaction in *.
          rewrite Hh in *. cbn in *. rewrite Et' in *. rewrite orb_false_iff in G2. destruct G2 as [_ G2]. by rewrite G2 in G1. }
        assert (o1 = Stale) as -> by (subst o1; by destruct o).
        split; [by rewrite pending_completes, Hcur; cbn; rewrite Hc|by rewrite cleanup_completes, Hcur; cbn; rewrite Hc, orb_true_r| |done].
        change (journal a1) with (journal a). rewrite G3. by rewrite bool_decide_false.
      + assert (Hcur : current_transaction a = None ∧ current_transaction a1 = None) by (unfold current_transaction; cbn; by rewrite Hh).
        destruct Hcur as [Hc0 Hc1]. assert (Hop : open o = false) by (rewrite <- G1, pending_completes, Hc0; done).
        assert (o1 = o) as -> by (subst o1; by destruct o).
        split; [by rewrite pending_completes, Hc1|by rewrite cleanup_completes, Hc1, <- G2, cleanup_completes, Hc0|done..]. }
  assert (Hh1 : holds t a1) by (destruct Hh as [Hh|[_ Hh]]; [by left|by right]).
  clearbody a1. change (_restore a1) with (_restore a1).
  destruct (bool_decide _); [|split_and!; [done..|]; by exists (o, p), (o1, p)]. destruct (cleanup_spec a1 Hs1) as [Hf1 Hf2].
  split; [by apply cleanup_sound|]. split; [by apply cleanup_holds|]. split; [unfold is_completed in *; by rewrite Hf1|].
  exists (o, p). destruct Hf2 as [Hf2|(q & E1 & E2)].
  - exists (o1, p). by rewrite Hf2.
  - exists (Free, q). split_and!; [done..|]. rewrite Hp in E1. by injection E1 as _ ->.
Qed.

(** ** The signals *)

(** Facts that neither the counters, [cancelled] and [writable] nor the first
    off signal touch, and that completion and cleanup keep. *)
Record stable_fact (F : Adapter → Prop) : Prop := {
  f_frame : ∀ a a', _restore a' = _restore a → store a' = store a → _stale_record a' = _stale_record a →
    history a' = history a → F a → F a';
  f_saw_off : ∀ t a, F a → F (a <| store ::= alter set_saw_off t |>);
  f_complete : ∀ t a, sound a → _restore a = Some t → F a → F (_complete_restore t a).2;
  f_cleanup : ∀ a, sound a → F a → F (cleanup_journal a).2;
}.

Lemma power_signal_keeps F b a : stable_fact F → sound a → F a → sound (power_signal b a).2 ∧ F (power_signal b a).2.
Proof.
  intros HF Hs Hf. unfold power_signal, get, mbind, M_bind. destruct (_restore a) as [t|] eqn:Er; [|done].
  destruct (current_transaction a) as [tr|]; [|done]. destruct b; cbn [negb].
  - destruct (saw_off tr); [|done]. split; [|by apply (f_complete F HF)]. by apply complete_spec; [|left].
  - unfold modify. cbn [snd]. split; [by apply sound_saw_off|by apply (f_saw_off F HF)].
Qed.

Lemma receive_keeps F s a : stable_fact F → sound a → F a → sound (receive s a).2 ∧ F (receive s a).2.
Proof.
  intros HF Hs Hf.
  assert (Hframe : ∀ a a', _restore a' = _restore a → store a' = store a → _stale_record a' = _stale_record a →
    journal a' = journal a → history a' = history a → sound a ∧ F a → sound a' ∧ F a').
  { intros b b' Hr Hst Hsr ? Hh [? ?]. split; [by apply (sound_frame b)|by apply (f_frame F HF b)]. }
  destruct s as [p l| |i c v p|on|ok|]; cbn [PowerRestore.receive].
  - unfold _interfaces_changed. destruct (_ && _); [by apply (Hframe a)|]. destruct (_ && _); [by apply (Hframe a)|done].
  - by apply (Hframe a).
  - assert (Hb : ∀ (m : M Adapter ()) (r : bool), sound (m a).2 ∧ F (m a).2 →
      sound ((m;; if r then bump_revision else mret ()) a).2 ∧ F ((m;; if r then bump_revision else mret ()) a).2).
    { intros m r Hm. unfold mbind, M_bind. destruct (m a) as [[u|e] a1]; cbn [snd] in Hm; [|done].
      destruct r; [|done]. by apply (Hframe a1). }
    unfold _properties_changed. apply Hb. destruct (String.eqb p (path adapter) && _); [|done].
    destruct (c !! "Powered"); [by apply power_signal_keeps|done].
  - by apply (Hframe a).
  - by apply (Hframe a).
  - split; [by apply cleanup_sound|by apply (f_cleanup F HF)].
Qed.

Lemma stable_true : stable_fact (λ _, True).
Proof. by split. Qed.
Lemma stable_holds t : stable_fact (holds t).
Proof.
  split.
  - intros a a' Hr Hs _ _. by apply holds_frame.
  - intros t' a [Hh|[Hc Hn]]; [by left|right]. by rewrite saw_off_completed.
  - intros t' a Hs Hr [Hh|[_ Hn]]; [|congruence]. rewrite Hr in Hh. injection Hh as ->.
    by apply complete_spec; [|left].
  - intros a Hs. by apply cleanup_holds.
Qed.
Lemma stable_and F G : stable_fact F → stable_fact G → stable_fact (λ a, F a ∧ G a).
Proof.
  intros [F1 F2 F3 F4] [G1 G2 G3 G4]. split.
  - intros a a' Hr Hs Hst Hh [? ?]. split; [by apply (F1 a)|by apply (G1 a)].
  - intros t a [? ?]. auto.
  - intros t a Hs Hr [? ?]. auto.
  - intros a Hs [? ?]. auto.
Qed.
Lemma stable_unsent : stable_fact unsent.
Proof.
  split; [by intros a a' _ _ _ Hh; unfold unsent; rewrite Hh|done| |].
  - intros t a Hs Hr _. destruct (complete_spec t a Hs (or_introl Hr)) as (_ & _ & _ & s1 & [o p] & _ & Ho & _ & _ & Hne). by exists o, p.
  - intros a Hs Hu. destruct (cleanup_spec a Hs) as [_ [Hh|(p & _ & Ho)]]; [unfold unsent; by rewrite Hh|]. by exists Free, p.
Qed.
Lemma stable_permits on : stable_fact (permits on).
Proof.
  split; [by intros a a' _ _ _ Hh; unfold permits; rewrite Hh|done| |].
  - intros t a Hs Hr [o1 E1]. destruct (complete_spec t a Hs (or_introl Hr)) as (_ & _ & _ & s1 & [o p] & E1' & Ho & Hp & _).
    rewrite E1 in E1'. injection E1' as <-. cbn in Hp. subst p. by exists o.
  - intros a Hs [o1 E1]. destruct (cleanup_spec a Hs) as [_ [Hh|(p & E1' & Ho)]]; [exists o1; by rewrite Hh|].
    rewrite E1 in E1'. injection E1' as -> <-. by exists Free.
Qed.

(** ** Methods among the signals *)

(** Replies that D-Bus and the kernel can give. *)
Definition sensible {B} (c : call B) : result B → Prop :=
  match c in call B return result B → Prop with
  | GetId | AdapterInstance => λ r, r ≠ Ok ""
  | _ => λ _, True
  end.
Definition receives (ss : list signal) (a : Adapter) : Adapter := foldl (λ a s, (receive s a).2) a ss.

(** [wp p Q a]: from [a], [p] keeps the invariant at every step and ends in
    [Q], whatever the replies and the signals before each step. *)
Fixpoint wp {A} (p : prog A) (Q : result A → Adapter → Prop) (a : Adapter) : Prop :=
  match p with
  | Return r => Q r a
  | Locked f k => ∀ ss, sound (f (receives ss a)).2 ∧ wp (k (f (receives ss a)).1) Q (f (receives ss a)).2
  | Ask c k => ∀ ss, sound (sent c (receives ss a)) ∧
      ∀ ss' r, sensible c r → wp (k r) Q (receives ss' (sent c (receives ss a)))
  end.

Lemma pwp_mono {A} (p : prog A) (Q Q' : result A → Adapter → Prop) a :
  (∀ r a, Q r a → Q' r a) → wp p Q a → wp p Q' a.
Proof.
  intros HQ. revert a. induction p as [r|B f k IH|B c k IH]; cbn; intros a; [apply HQ| |].
  - intros Hw ss. destruct (Hw ss) as [Hs Hk]. split; [done|]. by apply IH.
  - intros Hw ss. destruct (Hw ss) as [Hs Hk]. split; [done|]. intros ss' r Hr. by apply IH, Hk.
Qed.
Lemma wp_and_then {A B} (p : prog A) (k : result A → prog B) Q a :
  wp p (λ r a', wp (k r) Q a') a → wp (and_then p k) Q a.
Proof.
  revert a. induction p as [r|C f k' IH|C c k' IH]; cbn; intros a; [done| |].
  - intros Hw ss. destruct (Hw ss) as [Hs Hk]. split; [done|]. by apply IH.
  - intros Hw ss. destruct (Hw ss) as [Hs Hk]. split; [done|]. intros ss' r Hr. by apply IH, Hk.
Qed.

Lemma pwp_bind {A B} (p : prog A) (k : A → prog B) Q a :
  wp p (λ r a', match r with Ok x => wp (k x) Q a' | Raise e => Q (Raise e) a' end) a → wp (p ≫= k) Q a.
Proof. intros Hw. apply wp_and_then. eapply pwp_mono; [|exact Hw]. by intros [x|e] a'. Qed.
Lemma wp_except {A} (p : prog A) (h : exn → prog A) Q a :
  wp p (λ r a', match r with Ok x => Q (Ok x) a' | Raise e => wp (h e) Q a' end) a → wp (except p h) Q a.
Proof. intros Hw. apply wp_and_then. eapply pwp_mono; [|exact Hw]. by intros [x|e] a'. Qed.

(** The assertion [F] with the invariant. *)
Definition keeping (F : Adapter → Prop) (a : Adapter) : Prop := sound a ∧ F a.
Lemma receives_keeps F ss a : stable_fact F → keeping F a → keeping F (receives ss a).
Proof.
  intros HF. revert a. induction ss as [|s ss IH]; intros a; [done|]. intros [Hs Hf]. cbn. apply IH.
  by apply receive_keeps.
Qed.

(** A section, between facts that the signals keep. *)
Lemma wp_locked {A} F (f : M Adapter A) (Q : result A → Adapter → Prop) a : stable_fact F → keeping F a →
  (∀ a', keeping F a' → sound (f a').2 ∧ Q (f a').1 (f a').2) → wp (locked f) Q a.
Proof. intros HF Ha HQ ss. apply HQ. by apply receives_keeps. Qed.
(** A request that is not a switch. *)
Definition harmless {B} (c : call B) : Prop := match c with SetPowered _ => False | _ => True end.
Lemma wp_ask {B} (c : call B) F (Q : result B → Adapter → Prop) a : stable_fact F → harmless c → keeping F a →
  (∀ r a', sensible c r → keeping F a' → Q r a') → wp (ask c) Q a.
Proof.
  intros HF Hc Ha HQ ss. assert (E : ∀ a, sent c a = a) by (by destruct c). cbn. rewrite E.
  pose proof (receives_keeps F ss a HF Ha) as Hs. split; [apply Hs|]. intros ss' r Hr. apply HQ; [done|]. by apply receives_keeps.
Qed.
Lemma wp_read F Q a : stable_fact F → keeping F a → (∀ r a', keeping F a' → Q r a') → wp (read adapter phone py_str) Q a.
Proof.
  intros HF Ha HQ.
  unfold read. apply pwp_bind, (wp_locked F); [done..|]. intros a0 H0. split; [apply H0|]. cbn [gets fst snd].
  apply pwp_bind, (wp_ask _ F); [done..|]. intros [o|e] a1 _ H1; [|by apply HQ].
  apply pwp_bind, (wp_ask _ F); [done..|]. intros [objs|e] a2 _ H2; [|by apply HQ].
  apply (wp_locked F); [done..|]. intros a3 H3.
  assert (E : ∀ o objs x y b, (_state_from_objects adapter phone py_str o objs x y b).2 = b).
  { clear. intros. unfold _state_from_objects, mbind, M_bind, lift, get, raise, mret, M_ret.
    destruct (lookup_error _); [|done]. destruct (lookup_error _); [|done].
    destruct (truthy <$> _); [|done]. destruct (negb _); [done|]. by destruct (lookup_error _). }
  rewrite E. split; [apply H3|by apply HQ].
Qed.

(** ** The restoration *)

Lemma complete_ok t a : (_complete_restore t a).1 = Ok ().
Proof.
  unfold _complete_restore, note, modify, get, mbind, M_bind. destruct (bool_decide _); [|done].
  unfold cleanup_journal, get, note, modify, put, mbind, M_bind. destruct (negb _); [done|]. by destruct (writable _).
Qed.
Lemma complete_keeps t a : keeping (holds t) a → keeping (holds t) (_complete_restore t a).2.
Proof. intros [Hs Hh]. by destruct (complete_spec t a Hs Hh) as (? & ? & _). Qed.
Lemma complete_raises {A} t e a : complete_and_raise (A:=A) t e a = (Raise e, (_complete_restore t a).2).
Proof.
  unfold complete_and_raise, mbind, M_bind. pose proof (complete_ok t a) as Hk.
  destruct (_complete_restore t a) as [[u|x] a1]; [done|discriminate].
Qed.
Lemma raise_keeps {A} t e a : keeping (holds t) a → keeping (holds t) (complete_and_raise (A:=A) t e a).2.
Proof. intros Ha. rewrite complete_raises. by apply complete_keeps. Qed.

Lemma wp_raise {A} t e (Q : result A → Adapter → Prop) a : keeping (holds t) a →
  (∀ r a', keeping (holds t) a' → Q r a') → wp (locked (complete_and_raise t e)) Q a.
Proof.
  intros Ha HQ. apply (wp_locked (holds t)); [apply stable_holds|done|]. intros a' H'. pose proof (raise_keeps (A:=A) t e a' H') as Hr.
  split; [apply Hr|by apply HQ].
Qed.
Lemma wp_complete t (Q : result () → Adapter → Prop) a : keeping (holds t) a →
  (∀ r a', keeping (holds t) a' → Q r a') → wp (locked (_complete_restore t)) Q a.
Proof.
  intros Ha HQ. apply (wp_locked (holds t)); [apply stable_holds|done|]. intros a' H'. pose proof (complete_keeps t a' H') as Hr.
  split; [apply Hr|by apply HQ].
Qed.
Lemma wp_failed t e (Q : result AdapterState → Adapter → Prop) a : keeping (holds t) a →
  (∀ r a', keeping (holds t) a' → Q r a') → wp (restoration_failed t e) Q a.
Proof.
  intros Ha HQ. unfold restoration_failed. destruct e; try (by apply HQ); try (by apply wp_raise).
  case_bool_decide; [by apply wp_raise|by apply HQ].
Qed.
Lemma wp_same t tr current Q a : keeping (holds t) a → (∀ r a', keeping (holds t) a' → Q r a') →
  wp (same_controller t tr current) Q a.
Proof.
  intros Ha HQ. unfold same_controller. destruct (_ || _ || _); [by apply wp_raise|].
  destruct (String.eqb _ _); [by apply wp_raise|by apply HQ].
Qed.
(** A section that starts by reading the state. *)
Ltac locked_get :=
  match goal with |- context [(get ≫= ?f) ?a] => change ((get ≫= f) a) with (f a a) end; cbn beta.

Lemma wp_restoration t tr Q a : keeping (holds t) a → (∀ r a', keeping (holds t) a' → Q r a') →
  wp (_restoration_state adapter phone py_str t tr) Q a.
Proof.
  intros Ha HQ. pose proof (stable_holds t) as HF. unfold _restoration_state.
  apply pwp_bind, (pwp_mono _ (λ _, keeping (holds t))).
  { intros [cur|e] a' H'; [by apply wp_same|by apply HQ]. }
  apply wp_except.
  apply pwp_bind, (wp_ask _ (holds t)); [done..|]. intros [inst|e] a1 _ H1; [|by apply wp_failed].
  apply pwp_bind, (wp_locked (holds t)); [done..|]. intros a2 H2. locked_get. destruct (_ || _).
  - rewrite complete_raises. cbn [fst snd]. pose proof (complete_keeps t a2 H2) as H3. split; [apply H3|by apply wp_failed].
  - cbn [fst snd mret M_ret]. split; [apply H2|]. apply (wp_read (holds t)); [done..|]. intros [cur|e] a3 H3; [done|by apply wp_failed].
Qed.

(** The last check, under an open obligation. *)
Lemma not_completed t a : sound a → holds t a → is_completed a t = false → restore_pending a = true.
Proof.
  intros Hs Hh Hc. assert (Hr : _restore a = Some t) by (destruct Hh as [?|[? _]]; [done|congruence]).
  by rewrite (pending_completed a t Hr Hs), Hc.
Qed.
Lemma sure_keeps on t a : keeping (holds t) a → is_completed a t = false → (on = false → unsent a) →
  keeping (λ a, holds t a ∧ permits on a) (note (LSure on) a).2.
Proof.
  intros [Hs Hh] Hc Hu. pose proof (not_completed t a Hs Hh Hc) as Hp. destruct Hs as [H1 H2 (o & p & Ho & Hg)].
  rewrite (g_pending _ _ Hg) in Hp. assert (Hsure : follow (o, p) (LSure on) = Some (o, Some on)).
  { destruct on; [by destruct o|]. destruct (Hu eq_refl) as (o' & p' & Ho' & Hne). rewrite Ho in Ho'. injection Ho' as <- <-. by destruct o. }
  assert (E : protocol (history a ++ [LSure on]) = Some (o, Some on)) by by rewrite protocol_snoc, Ho.
  split; [|split; [exact Hh|by exists o]]. split; [done..|]. exists o, (Some on). split; [exact E|]. by destruct Hg.
Qed.

(** A request after the check that permits it. *)
Lemma sent_sound on a : sound a → permits on a → (on = false → unsent a) → sound (sent (SetPowered on) a).
Proof.
  intros [H1 H2 (o & p & Ho & Hg)] [o' Ho'] Hu. rewrite Ho in Ho'. injection Ho' as -> ->.
  assert (E : ∃ o1, protocol (history a ++ [if on then LOn else LOff]) = Some (o1, None) ∧ open o1 = open o' ∧
    (o1 = Free ↔ o' = Free) ∧ (o1 = Stale ↔ o' = Stale)).
  { rewrite protocol_snoc, Ho. destruct on; [by exists o'|]. destruct (Hu eq_refl) as (o1 & p1 & Ho1 & Hne).
    rewrite Ho in Ho1. injection Ho1 as <- <-. destruct o'; [exists Free|exists Stale|exists Owing|done]; by repeat split. }
  destruct E as (o1 & E & Eo & Ef & Es). split; [done..|]. exists o1, None. split; [exact E|].
  destruct Hg as [G1 G2 G3 G4]. split; cbn -[load]; rewrite ?Eo; [done| | |done].
  - transitivity (bool_decide (o' = Stale)); [exact G2|]. by apply bool_decide_ext.
  - transitivity (negb (bool_decide (o' = Free))); [exact G3|]. f_equal. by apply bool_decide_ext.
Qed.

Lemma prepare_keeps t tr a : loadable tr → keeping (holds t) a → keeping (holds t) (prepare_on adapter phone t tr a).2.
Proof.
  intros Hl Ha. unfold prepare_on. unfold mbind at 1, M_bind at 1, get at 1.
  destruct (is_completed a t) eqn:Ec.
  { unfold mbind, M_bind. pose proof (complete_keeps t a Ha). by destruct (_complete_restore t a) as [[u|e] a1]. }
  destruct (negb _); [by apply raise_keeps|]. unfold mbind, M_bind, modify. cbn [snd mret M_ret].
  destruct Ha as [Hs Hh]. split.
  - destruct (sound_saw_off t a Hs) as [H1 H2 (o & p & Ho & [G1 G2 G3 G4])]. split; [done..|]. exists o, p. split; [done|].
    assert (Hop : open o = true).
    { rewrite <- G1, pending_completes, saw_off_current, <- pending_completes. by apply (not_completed t). }
    split; [done..| |]; cbn -[load]; destruct (writable a); try done; [by destruct o|].
    intros _. apply load_record; [done|by right].
  - destruct Hh as [Hh|[Hc Hn]]; [by left|right; split; [|done]].
    rewrite <- (saw_off_completed t t a) in Hc. exact Hc.
Qed.
Lemma still_off_spec t cur a : keeping (holds t) a →
  keeping (holds t) (still_off t cur a).2 ∧ ((still_off t cur a).1 = Ok true → permits true (still_off t cur a).2).
Proof.
  intros Ha.
  assert (E : still_off t cur a =
    if is_completed a t || powered cur || negb (terminal cur) then
      (Ok false, if is_completed a t || (powered cur && terminal cur) then (_complete_restore t a).2 else a)
    else (Ok true, (note (LSure true) a).2)).
  { unfold still_off, mbind, M_bind, get. destruct (is_completed a t || powered cur || _); [|done].
    destruct (_ || _); [|done]. pose proof (complete_ok t a) as Hk.
    destruct (_complete_restore t a) as [[u|e] a1]; [done|discriminate]. }
  rewrite E. destruct (is_completed a t) eqn:Ec; cbn [orb].
  { split; [by apply complete_keeps|done]. }
  destruct (powered cur || _); cbn [fst snd].
  - split; [|done]. destruct (_ && _); [by apply complete_keeps|done].
  - destruct (sure_keeps true t a Ha Ec ltac:(done)) as [H1 [H2 H3]]. by split.
Qed.

Abbreviation restore := (restore adapter phone py_str).
Abbreviation cycle := (cycle adapter phone py_str).

Lemma wp_ask_on t (Q : result () → Adapter → Prop) a : keeping (λ a, holds t a ∧ permits true a) a →
  (∀ r a', keeping (holds t) a' → Q r a') → wp (ask (SetPowered true)) Q a.
Proof.
  intros Ha HQ ss. pose proof (stable_and _ _ (stable_holds t) (stable_permits true)) as HF.
  destruct (receives_keeps _ ss a HF Ha) as [Hs [Hh Hp]]. pose proof (sent_sound true _ Hs Hp ltac:(done)) as Hsent. split; [exact Hsent|].
  intros ss' r _. apply HQ, receives_keeps; [apply stable_holds|]. split; [exact Hsent|]. by eapply holds_frame.
Qed.

Lemma pending_eq a : pending_transaction a =
  let a1 := (cleanup_journal a).2 in
  (Ok (match _restore a1 with
       | Some t => match store a1 !! t with Some tr => if completed tr then None else Some (t, tr) | None => None end
       | None => None
       end), a1).
Proof.
  unfold pending_transaction, cleanup_journal, note, modify, put, mbind, M_bind, get. destruct (negb _); [done|]. by destruct (writable a).
Qed.
Lemma wp_restore Q a : sound a → (∀ r a', sound a' → Q r a') → wp restore Q a.
Proof.
  intros Ha HQ. unfold restore. apply pwp_bind, (wp_locked (λ _, True)); [apply stable_true|done|]. intros a0 [H0 _].
  rewrite pending_eq. pose proof (cleanup_sound a0 H0) as Hs. set (a1 := (cleanup_journal a0).2) in *. clearbody a1.
  cbn [fst snd]. split; [done|]. destruct (_restore a1) as [t|] eqn:Er; cbn beta iota; [|by apply HQ].
  destruct (s_ref a1 Hs t Er) as (tr & Et & Hl). rewrite Et. cbn beta iota. destruct (completed tr); [by apply HQ|].
  assert (Hh : keeping (holds t) a1) by (split; [done|by left]). clear Er Et.
  assert (HQ' : ∀ r a', keeping (holds t) a' → Q r a') by (intros r a' [? _]; by apply HQ). clear HQ Hs.
  apply pwp_bind, (wp_ask _ (holds t)); [apply stable_holds|done..|]. intros [bus|e] a2 _ H2; [|by apply HQ'].
  destruct (negb _); [by apply wp_raise|].
  apply pwp_bind, (wp_ask _ (holds t)); [apply stable_holds|done..|]. intros [u|e] a3 _ H3; [|by apply HQ'].
  apply pwp_bind, wp_restoration; [done|]. intros [cur|e] a4 H4; [|by apply HQ'].
  destruct (negb (terminal cur)); [by apply HQ'|]. destruct (negb (powered cur)); [|by apply wp_complete].
  apply pwp_bind, (wp_locked (holds t)); [apply stable_holds|done|]. intros a5 H5. pose proof (prepare_keeps t tr a5 Hl H5) as H5'.
  split; [apply H5'|]. destruct (prepare_on adapter phone t tr a5) as [[[]|e] a5']; cbn [fst snd negb] in *; [|by apply HQ'..].
  apply pwp_bind, wp_restoration; [done|]. intros [again|e] a6 H6; [|by apply HQ'].
  apply pwp_bind, (wp_locked (holds t)); [apply stable_holds|done|]. intros a7 H7. destruct (still_off_spec t again a7 H7) as [H8 Hc].
  split; [apply H8|]. destruct (still_off t again a7) as [[[]|e] a8]; cbn [fst snd negb] in *; [|by apply HQ'..].
  apply pwp_bind, (wp_ask_on t); [destruct H8 as [Hs8 Hh8]; split; [done|]; split; [done|by apply Hc]|].
  intros [v|e] a9 H9; [|by apply HQ']. by apply wp_complete.
Qed.

(** ** The cycle *)

(** A state of the adapter that can be journalled. *)
Record named (s : AdapterState) : Prop := {
  n_unique : String.prefix ":" (owner s) = true;
  n_owner : validate_bus_name (owner s) = true;
  n_address : address s ≠ "";
}.

Definition vacant (a : Adapter) : Prop := _restore a = None ∧ _stale_record a = false.
Lemma stable_vacant : stable_fact vacant.
Proof.
  split.
  - intros a a' Hr _ Hst _. unfold vacant. by rewrite Hr, Hst.
  - done.
  - intros t a _ Hr [Hn _]. congruence.
  - intros a _ [Hn Hst]. unfold cleanup_journal, get, mbind, M_bind. unfold note, modify, put. destruct (negb _); [done|]. by destruct (writable a).
Qed.
Lemma not_pending_vacant a : sound a → restore_pending a = false → cleanup_pending a = false → vacant a.
Proof.
  intros Hs Hp Hc. unfold cleanup_pending in Hc. apply orb_false_iff in Hc as [Hst Hc]. split; [|done].
  unfold restore_pending, current_transaction in *. destruct (_restore a) as [t|] eqn:Er; [|done].
  destruct (s_ref a Hs t Er) as (tr & Et & _). cbn in *. rewrite Et in *. by destruct (completed tr).
Qed.

(** The transaction as the worker has it between its journal and the power-off. *)
Definition journalled (t : nat) (a : Adapter) : Prop := holds t a ∧ unsent a.
Lemma stable_journalled t : stable_fact (journalled t).
Proof. apply stable_and; [apply stable_holds|apply stable_unsent]. Qed.
Lemma begin_keeps state bus inst a : named state → bus ≠ "" → inst ≠ "" → keeping vacant a →
  match begin_transaction adapter phone state bus inst a with
  | (Ok t, a') => keeping (journalled t) a'
  | (Raise _, a') => sound a'
  end.
Proof.
  intros [] Hb Hi [Hs [Hn Hst]]. unfold begin_transaction, _persist_restore, note, modify, get, put, mbind, M_bind, mret, M_ret.
  destruct (writable a); cbn -[protocol journal_record load]; [|done].
  assert (Hl : loadable (mkPowerRestore state bus inst false false)) by done.
  assert (Hlk : (store a ++ [mkPowerRestore state bus inst false false]) !! length (store a)
                = Some (mkPowerRestore state bus inst false false)) by (by apply list_lookup_middle).
  destruct Hs as [H1 H2 (o & p & Ho & [G1 G2 G3 G4])]. assert (o = Free) as ->.
  { unfold restore_pending, cleanup_pending, current_transaction in *. rewrite Hn, Hst in *. cbn in *.
    symmetry in G2. apply bool_decide_eq_false in G2. by destruct o. }
  assert (E : protocol (history a ++ [LJournal]) = Some (Armed, None)) by by rewrite protocol_snoc, Ho.
  split; [|split; [by left|by exists Armed, None]]. split; cbn -[protocol journal_record load].
  - intros t [= <-]. by eexists.
  - congruence.
  - exists Armed, None. split; [exact E|]. split; cbn -[journal_record load].
    + unfold restore_pending, current_transaction. cbn. by rewrite Hlk.
    + unfold cleanup_pending, current_transaction. cbn. by rewrite Hlk, Hst.
    + done.
    + intros _. apply load_record; [done|by left].
Qed.
(** The last check before the power-off, and the power-off. *)
Lemma unchanged_keeps t state cur a : keeping (journalled t) a →
  keeping (journalled t) (unchanged t state cur a).2 ∧ ((unchanged t state cur a).1 = Ok () → permits false (unchanged t state cur a).2).
Proof.
  intros Ha. unfold unchanged, mbind, M_bind, get. destruct (_ || is_completed a t) eqn:Eu; [done|].
  apply orb_false_iff in Eu as [_ Eu]. destruct Ha as [Hs [Hh Hu]]. destruct (sure_keeps false t a ltac:(by split) Eu ltac:(done)) as [H1 [H2 H3]].
  change (note (LSure false) a) with (Ok (A:=()) (), (note (LSure false) a).2) in *. cbn [fst snd]. split; [split; [done|split; [done|]]|done].
  destruct Hu as (o & p & Ho & Hne). destruct H3 as [o' Ho']. exists o', (Some false). split; [done|]. intros ->.
  cbn -[protocol] in Ho'. rewrite protocol_snoc, Ho in Ho'. by destruct o.
Qed.
Lemma wp_ask_off t (Q : result () → Adapter → Prop) a : keeping (λ a, journalled t a ∧ permits false a) a →
  (∀ r a', sound a' → Q r a') → wp (ask (SetPowered false)) Q a.
Proof.
  intros Ha HQ ss. pose proof (stable_and _ _ (stable_journalled t) (stable_permits false)) as HF.
  destruct (receives_keeps _ ss a HF Ha) as [Hs [[_ Hu] Hp]]. pose proof (sent_sound false _ Hs Hp ltac:(done)) as Hsent. split; [exact Hsent|].
  intros ss' r _. apply HQ. by apply (receives_keeps (λ _, True) ss' _ stable_true).
Qed.

(** No transaction waits: only the worker can begin one. *)
Definition idle (a : Adapter) : Prop := restore_pending a = false.
Lemma stable_idle : stable_fact idle.
Proof.
  split; unfold idle.
  - intros a a' Hr Hs _ _. unfold restore_pending, current_transaction. by rewrite Hr, Hs.
  - intros t a. by rewrite !pending_completes, saw_off_current.
  - intros t a Hs Hr _. destruct (complete_spec t a Hs (or_introl Hr)) as ([_ _ (o & p & Ho & Hg)] & _ & _ & s1 & s2 & _ & Ho' & _ & Hop & _).
    rewrite (g_pending _ _ Hg). rewrite Ho in Ho'. by injection Ho' as <-.
  - intros a Hs Hi. unfold cleanup_journal, get, note, modify, put, mbind, M_bind. destruct (negb _); [done|]. by destruct (writable a).
Qed.
Lemma wp_cycle state Q a : named state → sound a → (∀ r a', sound a' → Q r a') → wp (cycle state) Q a.
Proof.
  intros Hn Ha HQ. unfold cycle.
  apply pwp_bind, (wp_locked (λ _, True)); [apply stable_true|done|]. intros a0 [H0 _]. locked_get.
  destruct (restore_pending a0) eqn:Hp; [split; [done|by apply HQ]|]. cbn [fst snd mret M_ret]. split; [done|].
  pose proof (stable_idle) as HI. apply pwp_bind, (wp_locked idle); [done..|]. intros a1 [H1 Hp1]. locked_get.
  destruct (cleanup_pending a1) eqn:Hc; [split; [done|by apply HQ]|]. cbn [fst snd mret M_ret]. split; [done|].
  assert (Hv : keeping vacant a1) by (split; [done|by apply not_pending_vacant]). clear Hp Hc Hp1.
  assert (HV : ∀ F r a', keeping F a' → Q r a') by (intros F r a' [? _]; by apply HQ).
  apply pwp_bind, (wp_ask _ vacant); [apply stable_vacant|done..|]. intros [u|e] a2 _ H2; [|by eapply HV].
  apply pwp_bind, (wp_ask _ vacant); [apply stable_vacant|done..|]. intros [bus|e] a3 Hbus H3; [|by eapply HV].
  apply pwp_bind, (wp_ask _ vacant); [apply stable_vacant|done..|]. intros [inst|e] a4 Hinst H4; [|by eapply HV].
  apply pwp_bind, (wp_locked vacant); [apply stable_vacant|done|]. intros a5 H5.
  pose proof (begin_keeps state bus inst a5 Hn ltac:(congruence) ltac:(congruence) H5) as H6.
  destruct (begin_transaction adapter phone state bus inst a5) as [[t|e] a6]; cbn [fst snd]; [|split; [done|by apply HQ]].
  split; [apply H6|]. pose proof (stable_journalled t) as HF.
  apply pwp_bind, (pwp_mono _ (λ r a', keeping (journalled t) a' ∧ (r = Ok () → permits false a') ∨ (is_ok r = false ∧ sound a'))).
  { intros [[]|e] a7; [|intros [[[? _] _]|[_ ?]]; by apply HQ]. intros [[[Hs7 H7] Hc]|[? _]]; [|done].
    unfold finally. apply wp_and_then, (wp_ask_off t); [split; [done|]; split; [done|by apply Hc]|].
    intros r a8 H8. apply wp_and_then, wp_restore; [done|]. intros [u'|e] a' ?; by apply HQ. }
  apply wp_except.
  apply (pwp_mono _ (λ r a', keeping (journalled t) a' ∧ (r = Ok () → permits false a'))).
  { intros [[]|e] a7 H7; [by left|]. apply (wp_locked (holds t)); [apply stable_holds|destruct H7 as [[? [? _]] _]; by split|].
    intros a8 H8. rewrite complete_raises. pose proof (complete_keeps t a8 H8) as [H9 _]. split; [exact H9|]. right. by split. }
  apply pwp_bind, (wp_ask _ (journalled t)); [done..|]. intros [inst'|e] a7 _ H7; [|by split].
  destruct (negb _); [by split|].
  apply pwp_bind, (wp_read (journalled t)); [done..|]. intros [cur|e] a8 H8; [|by split].
  apply (wp_locked (journalled t)); [done..|]. intros a9 H9. destruct (unchanged_keeps t state cur a9 H9) as [H10 H11].
  split; [apply H10|]. by split.
Qed.

Lemma wp_attempts n Q a : sound a → (∀ r a', sound a' → Q r a') → wp (restore_attempts adapter phone py_str n) Q a.
Proof.
  revert Q a. induction n as [|n IH]; intros Q a Ha HQ; cbn [restore_attempts]; [by apply HQ|].
  apply pwp_bind, (wp_locked (λ _, True)); [apply stable_true|done|]. intros a1 [H1 _]. cbn [fst snd gets]. split; [done|].
  destruct (restore_pending a1); [|by apply HQ].
  apply pwp_bind, wp_except, wp_restore; [done|]. intros [u|e] a2 H2; by apply IH.
Qed.
Lemma wp_body m Q a : match m with MCycle s => named s | _ => True end → sound a → (∀ r a', sound a' → Q r a') →
  wp (body adapter phone py_str m) Q a.
Proof.
  intros Hm Ha HQ. destruct m; cbn [body]; [by apply wp_cycle|by apply wp_restore|].
  unfold finish_shutdown. apply pwp_bind, wp_attempts; [done|]. intros [u|e] a1 H1; [|by apply HQ].
  apply (wp_locked (λ _, True)); [apply stable_true|done|]. intros a2 [H2 _]. split; [by apply cleanup_sound|]. by apply HQ, cleanup_sound.
Qed.

(** ** The whole system *)

Definition finished (_ : result ()) : Adapter → Prop := sound.
Definition system_ok (w : Power) : Prop :=
  sound (shared w) ∧
  if asked w then match thread w with Ask c k => ∀ ss r, sensible c r → wp (k r) finished (receives ss (shared w)) | _ => False end
  else wp (thread w) finished (shared w).

Lemma wp_signal p s a : sound a → wp p finished a → wp p finished (receive s a).2.
Proof.
  intros Ha. destruct p as [r|B f k|B c k]; cbn [wp].
  - intros _. by apply (receive_keeps (λ _, True) s a stable_true Ha I).
  - intros Hw ss. exact (Hw (s :: ss)).
  - intros Hw ss. exact (Hw (s :: ss)).
Qed.

Lemma load_loadable r tr : load r = Some tr → loadable tr ∧ completed tr = false.
Proof.
  unfold _load_restore. destruct r as [|m|]; [naive_solver| |naive_solver]. destruct (negb _); [naive_solver|]. destruct (_ || _); [naive_solver|].
  unfold text_field. destruct (m !! "owner") as [[o| | |]|]; try naive_solver. destruct (String.eqb o ""); [naive_solver|].
  destruct (m !! "address") as [[ad| | |]|]; try naive_solver. destruct (String.eqb ad "") eqn:Ea; [naive_solver|].
  destruct (m !! "bus_id") as [[b| | |]|]; try naive_solver. destruct (String.eqb b "") eqn:Eb; [naive_solver|].
  destruct (m !! "instance") as [[i| | |]|]; try naive_solver. destruct (String.eqb i "") eqn:Ei; [naive_solver|].
  destruct (m !! "phase") as [[ph| | |]|]; try naive_solver.
  destruct (negb (String.prefix ":" o) || _ || _) eqn:E; [naive_solver|]. intros [= <-].
  rewrite !orb_false_iff, !negb_false_iff in E. destruct E as [[Hu _] Ho].
  split; [|reflexivity]. apply String.eqb_neq in Ea, Eb, Ei. by split.
Qed.
Lemma load_present r tr : load r = Some tr → present r = true.
Proof. by destruct r. Qed.

(** A daemon that starts reads the state of the specification. *)
Lemma boot_sound saved ok past o p : protocol past = Some (o, p) → present saved = negb (bool_decide (o = Free)) →
  (open o = true → is_Some (load saved)) → sound (boot adapter phone validate_bus_name saved ok past).
Proof.
  intros Ho Hpres Hloads. unfold boot, reload_journal, mbind, M_bind, get, put. cbn [journal store].
  destruct (load saved) as [tr|] eqn:El; cbn [snd].
  - destruct (load_loadable saved tr El) as [Hl Hc]. pose proof (load_present saved tr El) as Hp. rewrite Hp in Hpres.
    symmetry in Hpres. apply negb_true_iff, bool_decide_eq_false in Hpres.
    assert (E : protocol (past ++ [LBoot Pending]) = Some (Owing, None)) by (rewrite protocol_snoc, Ho; by destruct o).
    split; cbn -[protocol load].
    + intros t [= <-]. by exists tr.
    + by intros [=].
    + unfold found_in, restore_pending, current_transaction. cbn -[protocol load]. rewrite Hc. cbn -[protocol load]. exists Owing, None. split; [exact E|].
      split; cbn -[load]; [|unfold cleanup_pending, current_transaction; cbn; by rewrite Hc|exact Hp|by rewrite El].
      unfold restore_pending, current_transaction. cbn. by rewrite Hc.
  - assert (open o = false) as Hop by (destruct (open o); [by destruct (Hloads eq_refl)|reflexivity]).
    assert (E : protocol (past ++ [LBoot (if present saved then Unreadable else Nothing)]) = Some (o, None))
      by (rewrite protocol_snoc, Ho, Hpres; by destruct o).
    split; cbn -[protocol load]; [by intros ? [=]|by intros ?|].
    unfold found_in, restore_pending, current_transaction. cbn -[protocol load]. exists o, None. split; [exact E|].
    split; cbn -[load]; [by rewrite Hop| |exact Hpres|by rewrite Hop].
    unfold cleanup_pending, current_transaction. cbn. rewrite Hpres, orb_false_r. by destruct o.
Qed.

Definition reasonable (e : power_event) : Prop :=
  match e with
  | PCall (MCycle s) => named s
  | PReply reply => ∀ B (c : call B), sensible c (reply B c)
  | _ => True
  end.

Lemma step_ok e w : reasonable e → system_ok w → system_ok (power_step adapter phone validate_bus_name py_str e w).
Proof.
  intros He Hok. destruct (Hok) as [Hs Hw]. destruct e as [m| |reply|s|]; cbn [power_step].
  - destruct (thread w) as [r| |]; [|done..]. split; [done|]. cbn. apply wp_body; [by destruct m|done|done].
  - destruct (thread w) as [r|B f k|B c k] eqn:Et; [done| |].
    + destruct (asked w); [|cbn in Hw; destruct (Hw []) as [H1 H2]; cbn in H1, H2].
      * done.
      * destruct (f (shared w)) as [r a]. by split.
    + destruct (asked w) eqn:Ea; [done|]. destruct (Hw []) as [H1 H2]. by split.
  - destruct (thread w) as [r|B f k|B c k] eqn:Et; [done..|].
    destruct (asked w) eqn:Ea; [|done]. split; [done|]. cbn. exact (Hw [] (reply B c) (He B c)).
  - assert (Hs' : sound (receive s (shared w)).2) by apply (receive_keeps (λ _, True) s _ stable_true Hs I).
    split; [exact Hs'|]. cbn. destruct (asked w); [|by apply wp_signal].
    destruct (thread w) as [r|B f k|B c k]; [done..|]. intros ss r Hr. exact (Hw (s :: ss) r Hr).
  - destruct (s_protocol _ Hs) as (o & p & Ho & Hg).
    assert (Hb : sound (boot adapter phone validate_bus_name (journal (shared w)) (writable (shared w)) (history (shared w))))
      by (apply (boot_sound _ _ _ o p); [done|apply (g_journal _ _ Hg)|apply (g_loads _ _ Hg)]).
    split; [exact Hb|exact Hb].
Qed.
Lemma run_ok es w : Forall reasonable es → system_ok w → system_ok (power_run adapter phone validate_bus_name py_str es w).
Proof.
  intros Hes. unfold power_run. revert w. induction Hes as [|e es He _ IH]; intros w Hw; [done|]. cbn. by apply IH, step_ok.
Qed.
End power.

(** C16: power is switched only under an obligation.  For any settings file, and
    any order of the worker's steps, BlueZ's signals (also between a check and
    its request), failures, disk errors and restarts of the daemon, if a cycle
    is asked for a state that BlueZ can have (a unique bus name that D-Bus
    accepts, an address) and the bus and the adapter have non-empty ids: the
    history follows the specification [follow].  So the adapter is switched off
    at most once for each journal entry, after a last check that found the
    entry on disk and open, and switched on only after a last check that found
    an obligation open, with only signals between check and request; after the
    completion only a new daemon asks again, for a transaction whose journal
    could not be removed (see [done_twice]).
    Object and settings file agree with the specification: the daemon knows the
    open obligation, has a journal exactly when there is something to finish or
    to remove, and a new daemon takes an open one over from the journal. *)
Theorem power_obligation adapter phone valid str saved ok es :
  Forall (reasonable valid) es →
  let w := power_run adapter phone valid str es (mkPower (boot adapter phone valid saved ok []) idle_thread false) in
  ∃ o p, protocol (obligation_of saved) (history (shared w)) = Some (o, p) ∧
    restore_pending (shared w) = open o ∧ cleanup_pending (shared w) = bool_decide (o = Stale) ∧
    present (journal (shared w)) = negb (bool_decide (o = Free)) ∧
    (open o = true → restore_pending (boot adapter phone valid (journal (shared w)) ok []) = true).
Proof.
  intros Hes. cbn zeta.
  set (w := power_run _ _ _ _ _ _). assert (Hw : system_ok adapter phone valid (obligation_of saved) w).
  { assert (Hb : sound adapter phone valid (obligation_of saved) (boot adapter phone valid saved ok [])).
    { apply (boot_sound _ _ _ _ _ _ _ (obligation_of saved) None); [done|by unfold obligation_of; destruct (present saved)|].
      unfold obligation_of. by destruct (present saved). }
    apply run_ok; [done|]. by split. }
  destruct Hw as [[_ _ (o & p & Ho & Hg)] _]. exists o, p. split; [done|]. split; [apply (g_pending _ _ _ _ _ Hg)|].
  split; [apply (g_cleanup _ _ _ _ _ Hg)|]. split; [apply (g_journal _ _ _ _ _ Hg)|].
  intros Hop. destruct (g_loads _ _ _ _ _ Hg Hop) as [tr El].
  unfold boot, reload_journal, mbind, M_bind, get, put. cbn [journal store]. rewrite El. cbn.
  apply load_loadable in El as [_ Hc]. unfold restore_pending, current_transaction. cbn. by rewrite Hc.
Qed.

(** A cycle that switches the adapter off and on again. *)
Definition props_of (on : bool) : properties :=
  {["Powered" := PBool on; "PowerState" := PStr (if on then "on" else "off"); "Address" := PStr "11:22";
    "Discovering" := PBool false; "Discoverable" := PBool false]}.
Definition objects_of (on : bool) : objects :=
  {["/org/bluez/hci0" := {["org.bluez.Adapter1" := props_of on]};
    "/org/bluez/hci0/dev_AA_BB" := {["org.bluez.Device1" := {["Bonded" := PBool true]}]}]}.
Definition bluez (on : bool) : ∀ B, call B → result B := λ B c,
  match c with
  | GetId => Ok "bus" | AdapterInstance => Ok "5:77" | Proxy => Ok () | GetNameOwner => Ok ":1.5"
  | GetManagedObjects => Ok (objects_of on) | SetPowered _ => Ok ()
  end.
Definition the_state : AdapterState := mkAdapterState ":1.5" "11:22" true true "on" 0 0 true.
Definition text (p : property) : string := match p with PStr s => s | _ => "" end.
Definition valid_name (_ : string) : bool := true.
(** [n] steps of the worker; each request is answered at once, by an adapter
    that is on or off. *)
Definition work (n : nat) (on : bool) : list power_event := concat (replicate n [PRun; PReply (bluez on)]).
Definition fresh (saved : raw) : Power := mkPower (boot "hci0" "AA:BB" valid_name saved true []) idle_thread false.
Abbreviation outcome es := (power_run "hci0" "AA:BB" valid_name text es (fresh RAbsent)).
Definition up_to_check : list power_event := PCall (MCycle the_state) :: work 12 true.
Definition full_cycle : list power_event := up_to_check ++ work 24 false.

Lemma bluez_reasonable on : reasonable valid_name (PReply (bluez on)).
Proof. by intros B []. Qed.
Lemma work_reasonable n on : Forall (reasonable valid_name) (work n on).
Proof.
  apply Forall_concat, Forall_replicate. apply Forall_cons. split; [done|]. apply Forall_cons. split; [apply bluez_reasonable|constructor].
Qed.
Lemma power_obligation_witness :
  let w := outcome full_cycle in
  history (shared w) = [LBoot Nothing; LJournal; LSure false; LOff; LSure true; LOn; LDone; LClean] ∧
  ∃ o p, protocol (obligation_of RAbsent) (history (shared w)) = Some (o, p) ∧
    restore_pending (shared w) = open o ∧ cleanup_pending (shared w) = bool_decide (o = Stale) ∧
    present (journal (shared w)) = negb (bool_decide (o = Free)) ∧
    (open o = true → restore_pending (boot "hci0" "AA:BB" valid_name (journal (shared w)) true []) = true).
Proof.
  intros w. split; [vm_compute; reflexivity|].
  assert (Hes : Forall (reasonable valid_name) full_cycle).
  { apply Forall_app. split; [|apply work_reasonable]. apply Forall_cons. split; [by split|]. apply work_reasonable. }
  exact (power_obligation "hci0" "AA:BB" valid_name text RAbsent true full_cycle Hes).
Defined.

(** A gap: the latch of a completed transaction is not on disk.  When its journal
    cannot be removed, the next daemon switches the adapter on again, although
    the user switched it off meanwhile. *)
Example done_twice : history (shared (outcome (up_to_check ++ [PSignal (SWritable false)] ++ work 24 false ++ [PBoot; PCall MRestore] ++ work 24 false))) =
  [LBoot Nothing; LJournal; LSure false; LOff; LSure true; LOn; LDone; LBoot Pending; LSure true; LOn; LDone].
Proof. vm_compute. reflexivity. Qed.
(** Another: the user switches the adapter off and on between the last check and
    the power-off.  The signals complete the transaction, so the power-off that
    follows has nothing to restore it, and the adapter stays off. *)
Definition powered_signal (on : bool) : power_event :=
  PSignal (SProperties "org.bluez.Adapter1" {["Powered" := PBool on]} [] "/org/bluez/hci0").
Example off_for_good :
  let w := outcome (up_to_check ++ [powered_signal false; powered_signal true] ++ work 24 false) in
  history (shared w) = [LBoot Nothing; LJournal; LSure false; LDone; LClean; LOff] ∧
  match thread w with Return r => r | _ => Raise KeyError end = Ok () ∧ restore_pending (shared w) = false.
Proof. vm_compute. done. Qed.
