(* ===== verification/CallModel.v ===== *)
(** * CallModel: oFono's properties and the input of calls
    (src/blueferry/calls/model.py).

    Values from oFono and from local clients are arbitrary Python objects
    ([pyval]); everything the module returns is checked or cleaned text.  The
    Unicode classes are those of the interpreter; the case mappings are the
    interface [CaseMapping]. *)
From S2P Require Import Prelude PyStr Text Recipients.

Definition CALL_STATES : list ustr :=
  lit <$> ["active"; "held"; "dialing"; "alerting"; "incoming"; "waiting"; "disconnected"].
Definition RINGING_STATES : list ustr := lit <$> ["incoming"; "waiting"].
Definition UNKNOWN_STATE : ustr := lit "unknown".
Definition VOICE_CALL_MANAGER_IFACE : ustr := lit "org.ofono.VoiceCallManager".
Definition MAX_DIAL_DIGITS : Z := 32.
Definition MAX_DTMF_TONES : Z := 32.
Definition MAX_CALL_ID_CHARS : Z := 64.

(** A Python object, as far as the module tells objects apart; [VBool] is a
    [bool] or a [dbus.Boolean], [VInt] an [int] that is neither. *)
Inductive pyval :=
  VText (s : ustr) | VBool (b : bool) | VList (l : list pyval) | VNone | VInt (n : Z) | VObject (truth : bool).

(** Membership in a constant collection. *)
Definition among (s : ustr) (l : list ustr) : bool := bool_decide (s ∈ l).

(** ** The patterns *)

Definition word_char (c : Z) : bool := is_alnum c || (c =? 95).
(** [fullmatch] of a class repeated 1 to [n] times. *)
Definition repeated (cls : Z → bool) (n : Z) (s : ustr) : bool := negb (is_nil s) && (zlen s <=? n) && forallb cls s.
Definition _CALL_ID_RE (s : ustr) : bool := repeated word_char MAX_CALL_ID_CHARS s.
Definition _DIAL_SEPARATORS_RE (c : Z) : bool := is_space c || mem c (lit "-.()/").
Definition drop_plus (s : ustr) : ustr := match s with c :: s' => if c =? PLUS then s' else s | [] => s end.
Definition _DIAL_RE (s : ustr) : bool := repeated is_digit MAX_DIAL_DIGITS (drop_plus s).
Definition tone_char (c : Z) : bool := is_digit c || mem c (lit "*#").
Definition _DTMF_RE (s : ustr) : bool := repeated tone_char MAX_DTMF_TONES s.
(** A slash alone, or segments of word characters each after a slash. *)
Definition SLASH : Z := 47.
Definition _OBJECT_PATH_RE (s : ustr) : bool :=
  match s with
  | c :: s' => (c =? SLASH) && (is_nil s' || forallb (λ seg, negb (is_nil seg) && forallb word_char seg) (split_on SLASH s'))
  | [] => false
  end.
(** The first match of ["/(hci[0-9]+)/"] anywhere. *)
Fixpoint digits_prefix (s : ustr) : ustr * ustr :=
  match s with
  | c :: s' => if is_digit c then let '(d, r) := digits_prefix s' in (c :: d, r) else ([], s)
  | [] => ([], [])
  end.
Definition adapter_here (s : ustr) : option ustr :=
  if startswith (lit "/hci") s then
    let '(d, r) := digits_prefix (drop 4 s) in
    match d, r with
    | _ :: _, c :: _ => if c =? SLASH then Some (lit "hci" ++ d) else None
    | _, _ => None
    end
  else None.
Fixpoint _ADAPTER_SEGMENT_RE (s : ustr) : option ustr :=
  match adapter_here s, s with
  | Some a, _ => Some a
  | None, _ :: s' => _ADAPTER_SEGMENT_RE s'
  | None, [] => None
  end.

(** ** Text *)

(** [unicodedata.category(c) in {"Cc", "Cf", "Zl", "Zp"}]. *)
Definition within (c a b : Z) : bool := (a <=? c) && (c <=? b).
Definition is_control (c : Z) : bool :=
  within c 0 31 || within c 127 159
  || (c =? 0xAD) || within c 0x600 0x605 || (c =? 0x61C) || (c =? 0x6DD) || (c =? 0x70F) || within c 0x890 0x891
  || (c =? 0x8E2) || (c =? 0x180E) || within c 0x200B 0x200F || within c 0x202A 0x202E || within c 0x2060 0x2064
  || within c 0x2066 0x206F || (c =? 0xFEFF) || within c 0xFFF9 0xFFFB || (c =? 0x110BD) || (c =? 0x110CD)
  || within c 0x13430 0x1343F || within c 0x1BCA0 0x1BCA3 || within c 0x1D173 0x1D17A || (c =? 0xE0001)
  || within c 0xE0020 0xE007F
  || (c =? 0x2028) || (c =? 0x2029).
Definition blank_control (c : Z) : Z := if is_control c then SPACE else c.

Definition remote_text (value : pyval) (limit : Z) : ustr :=
  match value with
  | VText s => take (Z.to_nat limit) (join [SPACE] (split_ws (blank_control <$> take (Z.to_nat (limit * 4)) s)))
  | _ => []
  end.

Definition _bool (value : pyval) : bool := match value with VBool b => b | _ => false end.

Definition valid_object_path (value : pyval) : bool :=
  match value with VText s => (zlen s <=? 255) && _OBJECT_PATH_RE s | _ => false end.

Definition last_segment (s : ustr) : ustr := default [] (last (split_on SLASH s)).
Definition call_id_from_path (path : pyval) : option ustr :=
  match path with
  | VText s =>
      if negb (valid_object_path path) then None
      else
        let candidate := last_segment (rstrip_by (Z.eqb SLASH) s) in
        if _CALL_ID_RE candidate then Some candidate else None
  | _ => None
  end.

(** [str(value or "")]; [py_str] is the text of an object that is not a [str]. *)
Definition truthy (v : pyval) : bool :=
  match v with
  | VText s => negb (is_nil s) | VBool b => b | VList l => negb (is_nil l) | VNone => false | VInt n => negb (n =? 0) | VObject t => t
  end.
Definition text_of (py_str : pyval → ustr) (v : pyval) : ustr := match v with VText s => s | _ => py_str v end.

Definition strip_ws (s : ustr) : ustr := strip_by is_space s.
Definition validate_call_id (py_str : pyval → ustr) (value : pyval) : result ustr :=
  let selected := strip_ws (if truthy value then text_of py_str value else []) in
  if negb (_CALL_ID_RE selected) then Raise (InvalidArgumentsError "call identifier is invalid") else Ok selected.

Definition EMERGENCY_NUMBERS : list ustr := lit <$> [
  "000"; "061"; "062"; "08"; "091"; "092"; "100"; "101"; "102"; "103"; "104"; "105"; "107"; "108";
   "110"; "111"; "112"; "113"; "114"; "115"; "116"; "117"; "118"; "119"; "120"; "122"; "123";
   "125"; "131"; "132"; "133"; "140"; "144"; "15"; "150"; "155"; "158"; "166"; "17"; "18"; "180";
   "190"; "191"; "192"; "193"; "199"; "911"; "995"; "997"; "998"; "999"; "1122"; "1414"; "1530";
   "1669"; "10111"; "10177"].

Definition compact (s : ustr) : ustr := List.filter (λ c, negb (_DIAL_SEPARATORS_RE c)) s.
Definition lstrip_plus (s : ustr) : ustr := lstrip_by (Z.eqb PLUS) s.
Definition normalize_dial_number (value : pyval) : result ustr :=
  match value with
  | VText s =>
      if MAX_DIAL_DIGITS * 3 <? zlen s then Raise (InvalidArgumentsError "phone number is invalid")
      else
        let n := compact s in
        if mem 42 n || mem 35 n then
          Raise (InvalidArgumentsError "service codes are not allowed; dial a plain number")
        else if negb (_DIAL_RE n) then
          Raise (InvalidArgumentsError "phone number may contain only an optional leading + and digits")
        else if among (lstrip_plus n) EMERGENCY_NUMBERS then
          Raise (InvalidArgumentsError "emergency numbers are not dialed through BlueFerry; call them on the iPhone")
        else Ok n
  | _ => Raise (InvalidArgumentsError "phone number is invalid")
  end.

Definition validate_dtmf (value : pyval) : result ustr :=
  match value with
  | VText s =>
      let n := strip_ws s in
      if _DTMF_RE n then Ok n
      else Raise (InvalidArgumentsError "DTMF tones must be 1-32 characters of 0-9, * and #")
  | _ => Raise (InvalidArgumentsError "DTMF tones are invalid")
  end.

(** ** Modems *)

Record ModemInfo := mkModem {
  m_path : ustr;
  m_type : ustr;
  powered : bool;
  online : bool;
  interfaces : list ustr;
}.

Definition voice_ready (m : ModemInfo) : bool := online m && among VOICE_CALL_MANAGER_IFACE (interfaces m).
Definition adapter (m : ModemInfo) : ustr := default [] (_ADAPTER_SEGMENT_RE (m_path m)).

Definition interface_name (v : pyval) : option ustr :=
  match v with VText s => if zlen s <=? 255 then Some s else None | _ => None end.
Definition _interfaces (value : pyval) : list ustr :=
  match value with VList l => remove_dups (omap interface_name (take 64 l)) | _ => [] end.

Definition updated (m : ModemInfo) (key : ustr) (value : pyval) : ModemInfo :=
  if bool_decide (key = lit "Powered") then m <| powered := _bool value |>
  else if bool_decide (key = lit "Online") then m <| online := _bool value |>
  else if bool_decide (key = lit "Interfaces") then m <| interfaces := _interfaces value |>
  else if bool_decide (key = lit "Type") then m <| m_type := remote_text value 32 |>
  else m.

(** A [Mapping] of properties, or another object. *)
Abbreviation mapping := (gmap (list Z) pyval).
Definition prop (m : mapping) (key : string) : pyval := default VNone (m !! lit key).

Definition parse_modem (path : pyval) (properties : option mapping) : option ModemInfo :=
  match path, properties with
  | VText s, Some m =>
      if negb (valid_object_path path) then None
      else Some (mkModem s (remote_text (prop m "Type") 32) (_bool (prop m "Powered")) (_bool (prop m "Online"))
                   (_interfaces (prop m "Interfaces")))
  | _, _ => None
  end.

Section modems.
Context `{CaseMapping}.

Definition COLON : Z := 58.
Definition UNDERSCORE : Z := 95.
Definition device_suffix (mac : ustr) : ustr :=
  lit "/dev_" ++ ((λ c, if c =? COLON then UNDERSCORE else c) <$> upper (strip_ws mac)).
Definition endswith (p s : ustr) : bool := startswith (reverse p) (reverse s).
Definition modem_belongs_to (m : ModemInfo) (mac : ustr) : bool :=
  negb (is_nil mac) && bool_decide (m_type m = lit "hfp")
  && endswith (str_casefold (device_suffix mac)) (str_casefold (m_path m)).

(** The key of [min]: tuples compare from the left. *)
Definition modem_key (selected : ustr) (m : ModemInfo) : list bool * ustr :=
  ([negb (bool_decide (adapter m = selected)); negb (voice_ready m); negb (online m); negb (powered m)], m_path m).
Fixpoint flags_lt (a b : list bool) (tie : bool) : bool :=
  match a, b with
  | x :: a', y :: b' => (negb x && y) || (Bool.eqb x y && flags_lt a' b' tie)
  | _, _ => tie
  end.
Definition key_lt (a b : list bool * ustr) : bool := flags_lt a.1 b.1 (negb (str_leb b.2 a.2)).
(** [min]: the first of the least elements. *)
Definition min_by {A} (lt : A → A → bool) (x : A) (l : list A) : A := foldl (λ best y, if lt y best then y else best) x l.

Definition select_modem (modems : list ModemInfo) (mac selected : ustr) : option ModemInfo :=
  match List.filter (λ m, modem_belongs_to m mac) modems with
  | [] => None
  | m :: l => Some (min_by (λ x y, key_lt (modem_key selected x) (modem_key selected y)) m l)
  end.
End modems.

(** ** Calls *)

Definition direction_for_state (state : ustr) : ustr :=
  if among state RINGING_STATES then lit "incoming"
  else if among state (lit <$> ["dialing"; "alerting"]) then lit "outgoing"
  else lit "unknown".

Definition parse_call_state (value : pyval) : ustr :=
  let state := match value with VText s => s | _ => [] end in
  if among state CALL_STATES then state else UNKNOWN_STATE.

Definition parse_line_identification (value : pyval) : ustr :=
  let n := compact (remote_text value 64) in
  if _DIAL_RE n then n else [].

Record CallRecord := mkCall {
  call_id : ustr;
  c_path : ustr;
  state : ustr;
  direction : ustr;
  number : ustr;
  network_name : ustr;
  contact_name : ustr;
  multiparty : bool;
  emergency : bool;
  first_seen : ustr;
}.

Definition ringing (c : CallRecord) : bool := among (state c) RINGING_STATES.
Definition display_peer (c : CallRecord) : ustr :=
  if negb (is_nil (contact_name c)) then contact_name c
  else if negb (is_nil (network_name c)) then network_name c
  else if negb (is_nil (number c)) then number c
  else lit "Unknown caller".

Definition with_property (c : CallRecord) (key : ustr) (value : pyval) : CallRecord :=
  if bool_decide (key = lit "State") then c <| state := parse_call_state value |>
  else if bool_decide (key = lit "LineIdentification") then c <| number := parse_line_identification value |>
  else if bool_decide (key = lit "Name") then c <| network_name := remote_text value 128 |>
  else if bool_decide (key = lit "Multiparty") then c <| multiparty := _bool value |>
  else if bool_decide (key = lit "Emergency") then c <| emergency := _bool value |>
  else c.

Definition apply_present (m : mapping) (c : CallRecord) (key : string) : CallRecord :=
  match m !! lit key with Some v => with_property c (lit key) v | None => c end.
Definition parse_call (now : ustr) (path : pyval) (properties : option mapping) (given : option ustr) : option CallRecord :=
  match call_id_from_path path, path, properties with
  | Some id, VText s, Some m =>
      let state := parse_call_state (prop m "State") in
      let direction := match given with Some d => d | None => direction_for_state state end in
      Some (foldl (apply_present m) (mkCall id s state direction [] [] [] false false now)
              ["LineIdentification"; "Name"; "Multiparty"; "Emergency"])
  | _, _, _ => None
  end.

(** ** Dial strings *)

Lemma mem_false c s : mem c s = false ↔ c ∉ s.
Proof. rewrite <- not_true_iff_false, mem_spec. done. Qed.

Abbreviation digits_only s := (Forall (λ c, is_digit c = true) s).
Lemma digit_plain c : is_digit c = true → _DIAL_SEPARATORS_RE c = false ∧ c ≠ PLUS ∧ c ≠ 42 ∧ c ≠ 35.
Proof.
  intros Hc. unfold _DIAL_SEPARATORS_RE. split; [|unfold is_digit, PLUS in *; lia].
  apply orb_false_iff. split; [by apply digit_safe|]. apply mem_false. intros Hin. cbn in Hin.
  rewrite !elem_of_cons, elem_of_nil in Hin. unfold is_digit in Hc. lia.
Qed.

Lemma repeated_spec cls n s : repeated cls n s = true ↔ 1 <= zlen s <= n ∧ Forall (λ c, cls c = true) s.
Proof.
  unfold repeated. rewrite !andb_true_iff, negb_true_iff, is_nil_false, forallb_Forall. unfold zlen in *.
  split; [intros [[? ?] ?]; split; [lia|done]|intros [? ?]; split_and!; [lia|lia|done]].
Qed.

Lemma drop_plus_digits plus digits : digits_only digits → drop_plus (dialled plus digits) = digits ∧
  lstrip_plus (dialled plus digits) = digits.
Proof.
  intros Hd. unfold dialled, lstrip_plus.
  assert (Hh : match digits with [] => True | d :: _ => (PLUS =? d) = false ∧ (d =? PLUS) = false end).
  { destruct Hd as [|d l Hc _]; [done|]. apply digit_plain in Hc. lia. }
  assert (Hl : lstrip_by (Z.eqb PLUS) digits = digits).
  { destruct digits as [|d l]; [done|]. apply lstrip_by_id, Hh. }
  destruct plus; cbn [app]; (split; [|exact Hl]); [done|].
  destruct digits as [|d l]; [done|]. cbn [drop_plus]. destruct Hh as [_ Hh]. by rewrite Hh.
Qed.
Lemma compact_dialled plus digits : digits_only digits → compact (dialled plus digits) = dialled plus digits.
Proof.
  intros Hd. unfold compact, dialled. rewrite List.filter_app. f_equal; [by destruct plus|].
  induction Hd as [|c l Hc _ IH]; [done|]. cbn. destruct (digit_plain c Hc) as [-> _]. cbn. by rewrite IH.
Qed.

(** The texts that are dialled. *)
Record dialable (n : ustr) : Prop := {
  d_shape : ∃ plus digits, n = dialled plus digits ∧ digits_only digits ∧ 1 <= zlen digits <= 32 ∧
    digits ∉ EMERGENCY_NUMBERS;
}.

Lemma dialable_accepted n : dialable n →
  _DIAL_RE n = true ∧ mem 42 n = false ∧ mem 35 n = false ∧ among (lstrip_plus n) EMERGENCY_NUMBERS = false ∧
  zlen n <= 33 ∧ compact n = n.
Proof.
  intros [(plus & digits & -> & Hd & Hl & He)]. destruct (drop_plus_digits plus digits Hd) as [E1 E2].
  assert (Hn : ∀ c, c ∈ dialled plus digits → c ≠ 42 ∧ c ≠ 35).
  { unfold dialled. intros c [Hc|Hc]%elem_of_app.
    - destruct plus; [|by apply elem_of_nil in Hc]. apply list_elem_of_singleton in Hc. subst c. by unfold PLUS.
    - rewrite Forall_forall in Hd. by apply Hd, digit_plain in Hc as (_ & _ & ? & ?). }
  split_and!.
  - unfold _DIAL_RE. rewrite E1. by apply repeated_spec.
  - apply mem_false. intros Hc. by apply Hn in Hc as [].
  - apply mem_false. intros Hc. by apply Hn in Hc as [].
  - rewrite E2. unfold among. by apply bool_decide_eq_false.
  - unfold dialled. rewrite zlen_app. destruct plus; [change (zlen [PLUS]) with 1|change (zlen (@nil Z)) with 0]; lia.
  - by apply compact_dialled.
Qed.

Lemma accepted_dialable n : _DIAL_RE n = true → among (lstrip_plus n) EMERGENCY_NUMBERS = false → dialable n.
Proof.
  intros Hr He. unfold _DIAL_RE in Hr. apply repeated_spec in Hr as [Hl Hd].
  assert (E : ∃ plus, n = dialled plus (drop_plus n)).
  { destruct n as [|c l]; [by exists false|]. cbn. destruct (c =? PLUS) eqn:Ec; [|by exists false].
    exists true. apply Z.eqb_eq in Ec. by subst c. }
  destruct E as [plus E]. rewrite E in He. destruct (drop_plus_digits plus (drop_plus n) Hd) as [_ E2].
  rewrite E2 in He. split. exists plus, (drop_plus n). split; [done|]. split; [done|]. split; [exact Hl|]. by apply bool_decide_eq_false in He.
Qed.

(** What may be dialled, exactly: a text is accepted if it has at most 96
    characters and, without its visual separators, is an optional plus sign
    and 1 to 32 digits that are not an emergency number; the result is that
    number, which is a fixed point, so no service code (no star or hash), no
    letter and no listed emergency number ever reaches the modem. *)
Theorem dial_number_exact s n :
  normalize_dial_number (VText s) = Ok n ↔ zlen s <= 96 ∧ n = compact s ∧ dialable n ∧
    normalize_dial_number (VText n) = Ok n.
Proof.
  assert (Hfix : ∀ t, zlen t <= 96 → dialable (compact t) → normalize_dial_number (VText t) = Ok (compact t)).
  { intros t Hl Hd. destruct (dialable_accepted _ Hd) as (E1 & E2 & E3 & E4 & _ & _). unfold normalize_dial_number.
    change (MAX_DIAL_DIGITS * 3) with 96. zbool. by rewrite E1, E2, E3, E4. }
  split.
  - intros E. assert (Hs : zlen s <= 96 ∧ n = compact s ∧ dialable n).
    { revert E. unfold normalize_dial_number. change (MAX_DIAL_DIGITS * 3) with 96.
      destruct (96 <? zlen s) eqn:El; [done|]. destruct (_ || _); [done|]. destruct (negb _) eqn:Er; [done|].
      destruct (among _ _) eqn:Ea; [done|]. intros [= <-]. split; [lia|]. split; [done|].
      apply accepted_dialable; [by apply negb_false_iff in Er|done]. }
    destruct Hs as (Hl & Hn & Hd). split_and!; try done.
    destruct (dialable_accepted n Hd) as (_ & _ & _ & _ & Hz & Ec).
    assert (E' : normalize_dial_number (VText n) = Ok (compact n)) by (apply Hfix; [lia|by rewrite Ec]). by rewrite Ec in E'.
  - intros (Hl & -> & Hd & _). by apply Hfix.
Qed.

(** ** Records *)

(** Text that is safe to show: on one line, without control or format
    characters. *)
Definition shown (limit : Z) (s : ustr) : Prop :=
  zlen s <= limit ∧ Forall (λ c, is_control c = false ∧ (c = SPACE ∨ is_space c = false)) s.

Lemma space_no_control : is_control SPACE = false.
Proof. done. Qed.
Lemma blank_no_control c : is_control (blank_control c) = false.
Proof. unfold blank_control. by destruct (is_control c) eqn:E; [apply space_no_control|]. Qed.

Lemma Forall_taken {A} (P : A → Prop) n l : Forall P l → Forall P (take n l).
Proof. apply Forall_take. Qed.

Lemma remote_text_shown value limit : 0 <= limit → shown limit (remote_text value limit).
Proof.
  intros Hl. destruct value as [s| | | | |]; cbn [remote_text]; try (split; [unfold zlen; cbn; lia|constructor]).
  set (t := blank_control <$> take _ s). split; [rewrite zlen_take; lia|]. apply Forall_taken, Forall_forall.
  intros c Hc. assert (Hn : normalized (join [SPACE] (split_ws t))) by apply join_normalized, split_ws_words.
  split; [|by apply (normalized_chars _ _ Hn)]. apply join_chars in Hc as [Hc|(p & Hp & Hc)].
  - apply list_elem_of_singleton in Hc as ->. apply space_no_control.
  - apply (split_ws_chars _ _ _ Hp) in Hc. unfold t in Hc. apply list_elem_of_fmap in Hc as (d & -> & _).
    apply blank_no_control.
Qed.

Definition known_state (s : ustr) : Prop := s ∈ CALL_STATES ∨ s = UNKNOWN_STATE.
Definition a_number (s : ustr) : Prop :=
  s = [] ∨ ∃ plus digits, s = dialled plus digits ∧ digits_only digits ∧ 1 <= zlen digits <= 32.
Definition call_identifier (s : ustr) : Prop := 1 <= zlen s <= 64 ∧ Forall (λ c, word_char c = true) s.
Definition directions : list ustr := lit <$> ["incoming"; "outgoing"; "unknown"].

(** The type invariant of a call record. *)
Record call_ok (c : CallRecord) : Prop := {
  k_id : call_identifier (call_id c);
  k_state : known_state (state c);
  k_direction : direction c ∈ directions;
  k_number : a_number (number c);
  k_name : shown 128 (network_name c);
}.

Lemma parse_state_known v : known_state (parse_call_state v).
Proof.
  unfold parse_call_state. destruct (among _ CALL_STATES) eqn:E; [left|by right]. by apply bool_decide_eq_true in E.
Qed.
Lemma dial_number_shape n : _DIAL_RE n = true → a_number n.
Proof.
  intros Hr. unfold _DIAL_RE in Hr. apply repeated_spec in Hr as [Hl Hd]. right.
  destruct n as [|c l]; [unfold zlen in Hl; cbn in Hl; lia|]. cbn in Hl, Hd. destruct (c =? PLUS) eqn:Ec.
  - apply Z.eqb_eq in Ec. subst c. by exists true, l.
  - by exists false, (c :: l).
Qed.
Lemma parse_line_number v : a_number (parse_line_identification v).
Proof.
  unfold parse_line_identification. destruct (_DIAL_RE _) eqn:E; [|by left]. by apply dial_number_shape.
Qed.
Lemma with_property_ok c k v : call_ok c → call_ok (with_property c k v).
Proof.
  intros []. unfold with_property. repeat case_bool_decide; try done; split; try done.
  - apply parse_state_known.
  - apply parse_line_number.
  - by apply remote_text_shown.
Qed.
Lemma call_id_ok p id : call_id_from_path p = Some id → call_identifier id.
Proof.
  unfold call_id_from_path. destruct p as [s| | | | |]; try done. destruct (negb _); [done|].
  destruct (_CALL_ID_RE _) eqn:E; [|done]. intros [= <-]. by apply repeated_spec in E.
Qed.
Lemma direction_known s : direction_for_state s ∈ directions.
Proof.
  unfold direction_for_state, directions. repeat destruct (among _ _); apply (bool_decide_unpack _); by vm_compute.
Qed.

(** C17: a call record is well formed whatever oFono sends: from any path and
    properties, through any sequence of property signals, its identifier is 1
    to 64 word characters, its state and direction are known ones, its number
    is empty or an optional plus sign and 1 to 32 digits, and its name is at
    most 128 characters on one line without control or format characters. *)
Theorem call_record_wellformed now path properties given c changes :
  (∀ d, given = Some d → d ∈ directions) →
  parse_call now path properties given = Some c →
  call_ok (foldl (λ c kv, with_property c kv.1 kv.2) c changes).
Proof.
  intros Hg Hp. assert (Hc : call_ok c).
  { revert Hp. unfold parse_call. destruct (call_id_from_path path) as [id|] eqn:Ei; [|done].
    destruct path as [s| | | | |]; try done. destruct properties as [m|]; [|done]. intros [= <-].
    set (c0 := mkCall _ _ _ _ _ _ _ _ _ _). assert (H0 : call_ok c0).
    { split; cbn; [by eapply call_id_ok|apply parse_state_known| |by left|split; [done|constructor]].
      destruct given; [by apply Hg|apply direction_known]. }
    assert (Ha : ∀ k c, call_ok c → call_ok (apply_present m c k)).
    { intros k c Hc. unfold apply_present. destruct (m !! lit k); [by apply with_property_ok|done]. }
    cbn [foldl]. by repeat apply Ha. }
  clear Hp. revert c Hc. induction changes as [|kv l IH]; intros c Hc; [done|]. by apply IH, with_property_ok.
Qed.
Lemma call_record_wellformed_witness :
  let props : mapping := {[lit "State" := VText (lit "incoming"); lit "LineIdentification" := VText (lit "+49 (30) 12-34")]} in
  let path := VText (lit "/hfp/org/bluez/hci0/dev_AA/voicecall01") in
  let changes := [(lit "Name", VText ([7; 10] ++ lit "Ada")); (lit "State", VText (lit "bogus"))] in
  ∃ c, parse_call [] path (Some props) None = Some c ∧
    number (foldl (λ c kv, with_property c kv.1 kv.2) c changes) = lit "+49301234" ∧
    call_ok (foldl (λ c kv, with_property c kv.1 kv.2) c changes).
Proof.
  intros props path changes.
  assert (E : is_Some (parse_call [] path (Some props) None)) by (apply (bool_decide_unpack _); by vm_compute).
  destruct (parse_call [] path (Some props) None) as [c|] eqn:Ep; [|by destruct E]. exists c. split; [done|]. split.
  - vm_compute in Ep. injection Ep as <-. by vm_compute.
  - exact (call_record_wellformed [] path (Some props) None c changes (λ d H, ltac:(discriminate H)) Ep).
Defined.

(** ** The modem *)

Lemma str_leb_trans a b c : str_leb a b = true → str_leb b c = true → str_leb a c = true.
Proof.
  revert b c. induction a as [|x a IH]; intros [|y b] [|z c]; cbn; try done.
  rewrite !orb_true_iff, !andb_true_iff, !Z.ltb_lt, !Z.eqb_eq. intros [?|[-> Ha]] [?|[-> Hb]]; try (left; lia).
  right. split; [done|]. by eapply IH.
Qed.
Lemma str_leb_total a b : str_leb a b = true ∨ str_leb b a = true.
Proof.
  revert b. induction a as [|x a IH]; intros [|y b]; cbn; try (by left); try (by right).
  rewrite !orb_true_iff, !andb_true_iff, !Z.ltb_lt, !Z.eqb_eq.
  destruct (Z.lt_trichotomy x y) as [?|[->|?]]; [by left; left| |by right; left].
  destruct (IH b); [left|right]; right; by split.
Qed.
Definition str_lt (a b : ustr) : bool := negb (str_leb b a).
Lemma str_lt_trans a b c : str_lt a b = true → str_lt b c = true → str_lt a c = true.
Proof.
  unfold str_lt. rewrite !negb_true_iff. intros Hab Hbc. apply not_true_is_false. intros Hca.
  destruct (str_leb_total b c) as [H|H]; [|congruence].
  rewrite (str_leb_trans b c a H Hca) in Hab. discriminate.
Qed.
Lemma flags_lt_trans a b c (t1 t2 t3 : bool) : (t1 = true → t2 = true → t3 = true) → length a = length b → length b = length c →
  flags_lt a b t1 = true → flags_lt b c t2 = true → flags_lt a c t3 = true.
Proof.
  intros Ht. revert b c. induction a as [|x a IH]; intros [|y b] [|z c] Hab Hbc; cbn in *; try done.
  rewrite !orb_true_iff, !andb_true_iff. intros [[Hx Hy]|[Hxy H1]] [[Hy' Hz]|[Hyz H2]]; destruct x, y, z; try done; auto.
  - right. split; [done|]. by apply (IH b c); [lia|lia|..].
  - right. split; [done|]. by apply (IH b c); [lia|lia|..].
Qed.

(** The fold keeps a least element. *)
Lemma min_by_spec {A} (lt : A → A → bool) : (∀ a b c, lt a b = true → lt b c = true → lt a c = true) →
  (∀ a, lt a a = false) → ∀ (l : list A) x,
  min_by lt x l ∈ x :: l ∧ ∀ y, y ∈ x :: l → lt y (min_by lt x l) = false.
Proof.
  intros Htr Hirr l. unfold min_by. induction l as [|y l IH] using rev_ind; intros x.
  - split; [left|]. by intros y ->%list_elem_of_singleton.
  - rewrite foldl_app. cbn [foldl]. destruct (IH x) as [Hin Hmin]. set (b := foldl _ x l) in *.
    destruct (lt y b) eqn:E; (split; [set_solver|]); intros z Hz;
      assert (Hz' : z ∈ x :: l ∨ z = y) by set_solver.
    + destruct Hz' as [Hz'| ->]; [|done]. apply not_true_is_false. intros Hzy. specialize (Hmin z Hz').
      rewrite (Htr z y b Hzy E) in Hmin. discriminate.
    + destruct Hz' as [Hz'| ->]; [by apply Hmin|done].
Qed.

Section select.
Context `{CaseMapping}.

Lemma key_lt_trans k1 k2 k3 : length k1.1 = length k2.1 → length k2.1 = length k3.1 →
  key_lt k1 k2 = true → key_lt k2 k3 = true → key_lt k1 k3 = true.
Proof. unfold key_lt. intros ??. apply flags_lt_trans; [|done..]. apply str_lt_trans. Qed.
Lemma key_lt_irrefl k : key_lt k k = false.
Proof.
  unfold key_lt. destruct k as [f s]. cbn.
  assert (Hs : negb (str_leb s s) = false) by (by destruct (str_leb_total s s) as [-> | ->]). rewrite Hs. clear Hs.
  induction f as [|x f IH]; cbn; [done|]. rewrite IH. by destruct x.
Qed.

(** The selected modem is one of the phone's, and no other one of them comes
    first in the order: on the chosen adapter, ready for voice, online,
    powered, and then by path.  None is selected only when there is none. *)
Theorem select_modem_least modems mac selected :
  match select_modem modems mac selected with
  | None => ∀ m, m ∈ modems → modem_belongs_to m mac = false
  | Some best => best ∈ modems ∧ modem_belongs_to best mac = true ∧
      ∀ m, m ∈ modems → modem_belongs_to m mac = true → key_lt (modem_key selected m) (modem_key selected best) = false
  end.
Proof.
  unfold select_modem. assert (Hf : ∀ m, m ∈ List.filter (λ m, modem_belongs_to m mac) modems ↔
    m ∈ modems ∧ modem_belongs_to m mac = true) by (intros m; by rewrite !list_elem_of_In, filter_In).
  destruct (List.filter _ modems) as [|m0 l] eqn:E.
  - intros m Hm. apply not_true_is_false. intros Hb. by apply (elem_of_nil m), Hf.
  - destruct (min_by_spec (λ x y, key_lt (modem_key selected x) (modem_key selected y))
      (λ a b c, key_lt_trans (modem_key selected a) (modem_key selected b) (modem_key selected c) eq_refl eq_refl) (λ a, key_lt_irrefl _) l m0) as [Hin Hmin].
    split; [by apply Hf|]. split; [by apply Hf|]. intros m Hm Hb. apply Hmin, Hf. by split.
Qed.
End select.
