(* ===== verification/Solicitation.v ===== *)
(** * Solicitation: the ANCS advertisement and its supervisor
    (src/blueferry/solicitation_supervisor.py and the advertisement half of
    src/blueferry/bluez_setup.py).

    [adverts] holds the [_AncsAdvert] objects in the order of their serial
    number, which is their D-Bus path; [_advert_instance] names the current
    one.  BlueZ answers a registration later, releases an advertisement, or
    goes away; each is a step of its own. *)
From S2P Require Import Prelude.

Definition RECONCILE_SECONDS : Z := sec 30.
Definition MINIMUM_ON_SECONDS : Z := sec 180.

(** ** Advertisements *)

Record _AncsAdvert := mkAdvert {
  adapter : string;
  compact : bool;
  registered : bool;
  pending : bool;
  retired : bool;
  request : bool;  (* a reply may still be dispatched *)
}.

(** A D-Bus error: its name and its message. *)
Definition error : Type := string * string.
Definition _advert_payload_rejected (e : error) : bool :=
  String.eqb e.1 "org.bluez.Error.Failed" && contains "parse advertisement" (casefold e.2).

(** What the supervisor and the advertisements did, with the time. *)
Inductive move := Hold (t : Z) | TakeDown (t : Z) | Registering (serial : nat) | Unregistering (serial : nat).

Record World := mkWorld {
  _needed : bool;
  _running : bool;
  _dialing : bool;
  _timer : bool;
  _hold_until : Z;
  _was_registered : bool;
  _compact_advert_adapters : gset string;
  adverts : list _AncsAdvert;
  _advert_instance : option nat;
  clock : Z;
  log : list move;
}.
Definition World_init (needed : bool) (now : Z) : World := mkWorld needed false false false 0 false ∅ [] None now [].

Definition emit (m : move) : M World () := modify (λ w : World, w <| log ::= λ l, l ++ [m] |>).
Definition current (w : World) : option _AncsAdvert := i ← _advert_instance w; adverts w !! i.
Definition advert_registered (w : World) : bool := match current w with Some a => registered a | None => false end.
Definition advert_registration_pending (w : World) : bool := match current w with Some a => pending a | None => false end.

Definition over (a : _AncsAdvert) : _AncsAdvert :=
  a <| retired := true |> <| pending := false |> <| registered := false |> <| request := false |>.
Definition retire (i : nat) (unregister : bool) : M World () :=
  w ← get;
  match adverts w !! i with
  | Some a =>
      if retired a then mret ()
      else
        modify (λ w : World, w <| adverts ::= alter over i |>);;
        when unregister (emit (Unregistering i))
  | None => mret ()
  end.

Definition accept (a : _AncsAdvert) : _AncsAdvert := a <| pending := false |> <| registered := true |> <| request := false |>.
Definition _registered (i : nat) : M World () :=
  w ← get;
  match adverts w !! i with
  | Some a => if retired a || negb (pending a) then mret () else modify (λ w : World, w <| adverts ::= alter accept i |>)
  | None => mret ()
  end.

Definition _failed (i : nat) (e : error) : M World () :=
  w ← get;
  match adverts w !! i with
  | Some a =>
      if retired a then mret ()
      else
        when (negb (compact a) && _advert_payload_rejected e)
          (modify (λ w : World, w <| _compact_advert_adapters ::= union {[adapter a]} |>));;
        retire i true
  | None => mret ()
  end.

Definition Release (i : nat) : M World () := retire i false.

(** What the bus answers while an advertisement is created: whether the
    manager can be reached, and an error of the call. *)
Record Answers := mkAnswers { a_manager : bool; a_error : option error }.

Definition sending (a : _AncsAdvert) : _AncsAdvert := a <| pending := true |> <| request := true |>.
Definition start_advert (i : nat) (ans : Answers) : M World () :=
  modify (λ w : World, w <| adverts ::= alter sending i |>);;
  emit (Registering i);;
  match a_error ans with Some e => _failed i e | None => mret () end.

Definition forget_advert_registration : M World () :=
  modify (λ w : World, w <| _compact_advert_adapters := ∅ |>);;
  w ← get;
  modify (λ w : World, w <| _advert_instance := None |>);;
  match _advert_instance w with Some i => retire i false | None => mret () end.

Section solicitation.
(** The configured adapter, whether its name is valid, and the least time on
    air. *)
Context (the_adapter : string) (valid_adapter : bool) (minimum_on : Z).

(** [register_advert(adapter)] of the daemon. *)
Definition register_advert (ans : Answers) : M World bool :=
  if negb valid_adapter then raise (ValueError "invalid Bluetooth adapter name")
  else
    w ← get;
    match _advert_instance w, current w with
    | Some i, Some a => when (negb (String.eqb (adapter a) the_adapter)) (retire i true)
    | _, _ => mret ()
    end;;
    w ← get;
    let fresh := match current w with Some a => retired a | None => true end in
    if negb fresh then mret (advert_registered w)
    else if negb (a_manager ans) then mret false
    else
      let i := length (adverts w) in
      let a := mkAdvert the_adapter (bool_decide (the_adapter ∈ _compact_advert_adapters w)) false false false false in
      put (w <| adverts ::= λ l, l ++ [a] |> <| _advert_instance := Some i |>);;
      start_advert i ans;;
      w ← get;
      mret (advert_registered w).

Definition unregister_advert : M World () :=
  w ← get;
  match _advert_instance w, current w with
  | Some i, Some a =>
      if String.eqb (adapter a) the_adapter then
        modify (λ w : World, w <| _advert_instance := None |>);; retire i true
      else mret ()
  | _, _ => mret ()
  end.

(** ** The supervisor *)

Definition _begin_hold : M World () :=
  w ← get;
  emit (Hold (clock w));;
  modify (λ w : World, w <| _hold_until ::= Z.max (clock w + minimum_on) |>).

Definition take_down : M World () :=
  w ← get;
  emit (TakeDown (clock w));;
  unregister_advert;;
  modify (λ w : World, w <| _was_registered := false |>).

Definition _reconcile (ans : Answers) : M World () :=
  w ← get;
  let registered := advert_registered w in
  when (registered && negb (_was_registered w)) _begin_hold;;
  modify (λ w : World, w <| _was_registered := registered |>);;
  w ← get;
  if _dialing w && (_hold_until w <=? clock w) then
    when (registered || advert_registration_pending w) take_down
  else if _needed w && negb registered then
    if advert_registration_pending w then mret ()
    else
      accepted ← register_advert ans;
      when (accepted : bool) (modify (λ w : World, w <| _was_registered := true |>);; _begin_hold)
  else when (negb (_needed w) && registered && (_hold_until w <=? clock w)) take_down.

Definition start (ans : Answers) : M World () :=
  w ← get;
  if _running w then mret ()
  else
    modify (λ w : World, w <| _running := true |>);;
    when (_needed w) _begin_hold;;
    _reconcile ans;;
    modify (λ w : World, w <| _timer := true |>).

Definition set_needed (needed : bool) (ans : Answers) : M World () :=
  w ← get;
  let changed := negb (Bool.eqb needed (_needed w)) in
  modify (λ w : World, w <| _needed := needed |>);;
  when (needed && changed) _begin_hold;;
  w ← get;
  when (_running w && (changed || negb (Bool.eqb needed (advert_registered w)))) (_reconcile ans).

Definition set_dialing (dialing : bool) (ans : Answers) : M World () :=
  w ← get;
  modify (λ w : World, w <| _dialing := dialing |>);;
  when (_running w && negb (Bool.eqb dialing (_dialing w))) (_reconcile ans).

Definition reset_after_bluez_restart (ans : Answers) : M World () :=
  modify (λ w : World, w <| _needed := true |>);;
  _begin_hold;;
  forget_advert_registration;;
  w ← get;
  when (_running w) (_reconcile ans).

Definition stop : M World () :=
  modify (λ w : World, w <| _running := false |> <| _timer := false |>);;
  w ← get;
  when (advert_registered w || advert_registration_pending w) unregister_advert.

Definition _tick (ans : Answers) : M World () :=
  w ← get;
  if negb (_running w) then modify (λ w : World, w <| _timer := false |>) else _reconcile ans.

Inductive event :=
  | EStart (ans : Answers)
  | ESetNeeded (needed : bool) (ans : Answers)
  | ESetDialing (dialing : bool) (ans : Answers)
  | EBluezRestart (ans : Answers)
  | EStop
  | ETick (ans : Answers)
  | EReply (i : nat) (outcome : option error)
  | ERelease (i : nat)
  | ETime (d : Z).

Definition step (e : event) : M World () :=
  match e with
  | EStart ans => start ans
  | ESetNeeded b ans => set_needed b ans
  | ESetDialing b ans => set_dialing b ans
  | EBluezRestart ans => reset_after_bluez_restart ans
  | EStop => stop
  | ETick ans => w ← get; when (_timer w) (_tick ans)
  | EReply i outcome =>
      (* a cancelled request is not answered *)
      w ← get;
      match adverts w !! i with
      | Some a => when (request a) (match outcome with None => _registered i | Some e => _failed i e end)
      | None => mret ()
      end
  | ERelease i => Release i
  | ETime d => modify (λ w : World, w <| clock ::= λ c, c + Z.max 0 d |>)
  end.
Definition run (es : list event) (w : World) : World := run_all (step <$> es) w.
End solicitation.

(** ** The invariant *)

(** Whatever was taken down had been held long enough. *)
Definition held (minimum_on : Z) (l : list move) : Prop :=
  ∀ l1 t l2 s, l = l1 ++ TakeDown t :: l2 → Hold s ∈ l1 → s + minimum_on <= t.

Section proofs.
Context (the_adapter : string) (valid_adapter : bool) (minimum_on : Z).
Abbreviation held := (held minimum_on).

Lemma held_snoc l m : held l → (∀ t s, m = TakeDown t → Hold s ∈ l → s + minimum_on <= t) → held (l ++ [m]).
Proof.
  intros Hl Hm l1 t l2 s E Hs. destruct l2 as [|x l2 _] using rev_ind.
  - apply app_inj_tail in E as [-> ->]. by apply Hm.
  - rewrite app_comm_cons, app_assoc in E. apply app_inj_tail in E as [-> _]. by eapply Hl.
Qed.

(** An advertisement is over, waiting for BlueZ, or on air. *)
Definition advert_ok (a : _AncsAdvert) : Prop :=
  adapter a = the_adapter ∧ retired a = negb (pending a || registered a) ∧ pending a && registered a = false.

Record ok (w : World) : Prop := {
  o_live : ∀ i a, adverts w !! i = Some a → retired a = false → _advert_instance w = Some i;
  o_adverts : Forall advert_ok (adverts w);
  o_hold : ∀ s, Hold s ∈ log w → s + minimum_on <= _hold_until w;
  o_held : held (log w);
}.

(** What the advertisement's own methods leave alone. *)
Record aside (w w' : World) : Prop := {
  s_needed : _needed w' = _needed w;
  s_running : _running w' = _running w;
  s_dialing : _dialing w' = _dialing w;
  s_clock : clock w' = clock w;
  s_hold : _hold_until w' = _hold_until w;
}.
#[local] Instance aside_preorder : PreOrder aside.
Proof. split; [by split|]. intros w1 w2 w3 [] []. split; congruence. Qed.

Lemma ok_frame w w' : adverts w' = adverts w → _advert_instance w' = _advert_instance w → log w' = log w →
  _hold_until w' = _hold_until w → ok w → ok w'.
Proof. intros Ha Hi Hl Hh []. split; rewrite ?Ha, ?Hi, ?Hl, ?Hh; done. Qed.
Lemma ok_emit m w : (∀ s, m ≠ Hold s) → (∀ t, m ≠ TakeDown t) → ok w → ok (w <| log ::= λ l, l ++ [m] |>).
Proof.
  intros Hm Ht []. split; cbn; try done.
  - intros s. rewrite elem_of_app, list_elem_of_singleton. intros [?|E]; [by apply o_hold0|by destruct (Hm s)].
  - apply held_snoc; [done|]. intros t s ->. by destruct (Ht t).
Qed.

Lemma ok_alter f i w : (∀ a, adverts w !! i = Some a → advert_ok a → advert_ok (f a)) →
  (∀ a, adverts w !! i = Some a → retired a = true → retired (f a) = true) →
  ok w → ok (w <| adverts ::= alter f i |>).
Proof.
  intros Hf Hr []. split; cbn; try done.
  - intros j a Hj Ha. destruct (decide (i = j)) as [<-|Hne]; [|rewrite list_lookup_alter_ne in Hj by done; by eapply o_live0].
    rewrite list_lookup_alter_eq in Hj. destruct (adverts w !! i) as [b|] eqn:E; [|done]. injection Hj as <-.
    apply (o_live0 i b E). destruct (retired b) eqn:Eb; [|done]. by rewrite (Hr b eq_refl Eb) in Ha.
  - apply Forall_lookup. intros j a Hj. rewrite Forall_lookup in o_adverts0.
    destruct (decide (i = j)) as [<-|Hne]; [|rewrite list_lookup_alter_ne in Hj by done; by eapply o_adverts0].
    rewrite list_lookup_alter_eq in Hj. destruct (adverts w !! i) as [b|] eqn:E; [|done]. injection Hj as <-.
    apply Hf; [done|by eapply o_adverts0].
Qed.
Lemma over_ok a : advert_ok a → advert_ok (over a).
Proof. by intros (? & _ & _). Qed.

Lemma retire_eq i b w : retire i b w =
  (Ok (), match adverts w !! i with
          | Some a =>
              if retired a then w
              else let w1 := w <| adverts ::= alter over i |> in if b then w1 <| log ::= λ l, l ++ [Unregistering i] |> else w1
          | None => w
          end).
Proof.
  unfold retire, mbind, M_bind, get. destruct (adverts w !! i) as [a|]; [|done]. destruct (retired a); [done|]. by destruct b.
Qed.
Lemma retire_ok i b : stable ok (retire i b).
Proof.
  intros w Hw. rewrite retire_eq. cbn [snd]. destruct (adverts w !! i) as [a|]; [|done].
  destruct (retired a); [done|].
  assert (H1 : ok (w <| adverts ::= alter over i |>)) by (apply ok_alter; [intros; by apply over_ok|done|done]).
  cbn zeta. destruct b; [|done]. by apply (ok_emit (Unregistering i)).
Qed.
Lemma retire_aside i b : keeps aside (retire i b).
Proof. intros w. rewrite retire_eq. cbn [snd]. destruct (adverts w !! i); [|done]. destruct (retired _); [done|]. by destruct b. Qed.
(** After its retirement an advertisement is over. *)
Lemma retire_retired i b w a : adverts (retire i b w).2 !! i = Some a → retired a = true.
Proof.
  rewrite retire_eq. cbn [snd]. destruct (adverts w !! i) as [x|] eqn:E; [|congruence].
  destruct (retired x) eqn:Er; [congruence|]. cbn zeta.
  intros Ha. assert (Hl : alter over i (adverts w) !! i = Some a) by (by destruct b).
  rewrite list_lookup_alter_eq, E in Hl. by injection Hl as <-.
Qed.
Lemma retire_instance i b w : _advert_instance (retire i b w).2 = _advert_instance w.
Proof. rewrite retire_eq. cbn [snd]. destruct (adverts w !! i); [|done]. destruct (retired _); [done|]. by destruct b. Qed.

Lemma failed_keeps R i e : PreOrder R → keeps R (retire i true) →
  (∀ w s, R w (w <| _compact_advert_adapters := s |>)) → keeps R (_failed i e).
Proof.
  intros HR Hret Hset w. unfold _failed. unfold mbind at 1, M_bind at 1, get at 1.
  destruct (adverts w !! i) as [a|]; [|reflexivity]. destruct (retired a); [reflexivity|].
  apply keeps_bind; [done| |done]. apply keeps_when; [done|]. apply keeps_modify. intros w'. apply Hset.
Qed.
Lemma failed_ok i e : stable ok (_failed i e).
Proof. apply failed_keeps; [apply _|apply retire_ok|]. intros w s. unfold holding. by apply ok_frame. Qed.
Lemma failed_aside i e : keeps aside (_failed i e).
Proof. apply failed_keeps; [apply _|apply retire_aside|done]. Qed.
Lemma registered_ok i : stable ok (_registered i).
Proof.
  unfold _registered. apply stable_get_bind. intros w Hw. destruct (adverts w !! i) as [a|] eqn:E; [|done].
  destruct (retired a || _) eqn:Er; [done|]. apply orb_false_iff in Er as [Er Ep]. apply negb_false_iff in Ep.
  apply ok_alter; [|by intros b; rewrite E; intros [= <-]; rewrite Er|done].
  rewrite E. intros b [= <-] (Ha & _ & _). split_and!; done.
Qed.

(** Every advertisement is over. *)
Lemma all_retired_ok w : ok w → (∀ i a, adverts w !! i = Some a → retired a = true) → ok (w <| _advert_instance := None |>).
Proof.
  intros [] Hall. split; cbn; try done. intros i a Hi Ha. rewrite (Hall i a Hi) in Ha. discriminate.
Qed.
Lemma dropped_retired w i : ok w → (∀ a, adverts w !! i = Some a → retired a = true) →
  (_advert_instance w = Some i ∨ _advert_instance w = None) → ∀ j a, adverts w !! j = Some a → retired a = true.
Proof.
  intros Hw Hi Hor j a Hj. destruct (retired a) eqn:E; [done|]. pose proof (o_live w Hw j a Hj E) as Hc.
  destruct Hor as [Hor|Hor]; [|congruence]. rewrite Hor in Hc. injection Hc as ->. by rewrite (Hi a Hj) in E.
Qed.

(** The current instance retired, and the name dropped before or after. *)
Definition dropped (i : nat) (b : bool) (w : World) : World := (retire i b w).2 <| _advert_instance := None |>.
Lemma drop_eq i b w : (modify (λ w : World, w <| _advert_instance := None |>);; retire i b) w = (Ok (), dropped i b w).
Proof.
  unfold mbind, M_bind, modify, dropped. rewrite !retire_eq. cbn [snd adverts].
  change (adverts (w <| _advert_instance := None |>)) with (adverts w).
  destruct (adverts w !! i) as [a|]; [|done]. destruct (retired a); [done|]. by destruct b.
Qed.
Lemma dropped_ok i b w : ok w → _advert_instance w = Some i → ok (dropped i b w).
Proof.
  intros Hw Hi. pose proof (retire_ok i b w Hw) as H1. apply all_retired_ok; [done|].
  apply (dropped_retired _ i); [done|apply retire_retired|]. left. by rewrite retire_instance.
Qed.
Lemma dropped_aside i b w : aside w (dropped i b w).
Proof. destruct (retire_aside i b w). by split. Qed.

Lemma current_adapter w i a : ok w → adverts w !! i = Some a → String.eqb (adapter a) the_adapter = true.
Proof. intros Hw Hi. pose proof (o_adverts w Hw) as Ha. rewrite Forall_lookup in Ha. apply String.eqb_eq. by apply (Ha i a Hi). Qed.

Lemma unregister_eq w : ok w → unregister_advert the_adapter w =
  (Ok (), match _advert_instance w, current w with Some i, Some _ => dropped i true w | _, _ => w end).
Proof.
  intros Hw. unfold unregister_advert. unfold mbind at 1, M_bind at 1, get. unfold current.
  destruct (_advert_instance w) as [i|]; [|done]. cbn [mbind option_bind]. destruct (adverts w !! i) as [a|] eqn:Ea; [|done].
  rewrite (current_adapter w i a Hw Ea). apply drop_eq.
Qed.
Lemma unregister_spec w : ok w → let w' := (unregister_advert the_adapter w).2 in
  ok w' ∧ aside w w' ∧ advert_registered w' = false ∧ advert_registration_pending w' = false.
Proof.
  intros Hw. cbn zeta. rewrite (unregister_eq w Hw). cbn [snd]. unfold advert_registered, advert_registration_pending.
  destruct (_advert_instance w) as [i|] eqn:Ei; [|by unfold current; rewrite Ei].
  destruct (current w) as [a|] eqn:Ec; [|by rewrite Ec].
  split; [by apply dropped_ok|]. split; [apply dropped_aside|done].
Qed.
Lemma forget_ok : stable ok forget_advert_registration.
Proof.
  intros w Hw. unfold forget_advert_registration. unfold mbind at 1, M_bind at 1, modify at 1. cbn beta iota.
  set (w1 := w <| _compact_advert_adapters := ∅ |>). assert (Hw1 : ok w1) by (revert Hw; by apply ok_frame).
  clearbody w1. unfold mbind at 1, M_bind at 1, get at 1. destruct (_advert_instance w1) as [i|] eqn:Ei.
  - rewrite drop_eq. by apply dropped_ok.
  - cbn. destruct Hw1. split; cbn; try done. intros j a Hj Ha. rewrite <- Ei. by eapply o_live0.
Qed.
Lemma forget_aside : keeps aside forget_advert_registration.
Proof.
  intros w. unfold forget_advert_registration. unfold mbind at 1, M_bind at 1, modify at 1. cbn beta iota.
  unfold mbind at 1, M_bind at 1, get at 1. cbn [_advert_instance].
  change (_advert_instance (w <| _compact_advert_adapters := ∅ |>)) with (_advert_instance w).
  destruct (_advert_instance w) as [i|]; [|done]. rewrite drop_eq. etrans; [|apply dropped_aside]. done.
Qed.
Lemma forget_result w : (forget_advert_registration w).1 = Ok ().
Proof.
  unfold forget_advert_registration. unfold mbind at 1, M_bind at 1, modify at 1. cbn beta iota.
  unfold mbind at 1, M_bind at 1, get at 1. destruct (_advert_instance _) as [i|]; [|done]. by rewrite drop_eq.
Qed.

(** A new advertisement on its way. *)
Definition fresh_advert (w : World) : _AncsAdvert :=
  mkAdvert the_adapter (bool_decide (the_adapter ∈ _compact_advert_adapters w)) false true false true.
Definition launched (w : World) : World :=
  w <| adverts ::= λ l, l ++ [fresh_advert w] |> <| _advert_instance := Some (length (adverts w)) |>
    <| log ::= λ l, l ++ [Registering (length (adverts w))] |>.

Lemma launch_eq w ans :
  (put (w <| adverts ::= λ l, l ++ [mkAdvert the_adapter (bool_decide (the_adapter ∈ _compact_advert_adapters w)) false false false false] |>
          <| _advert_instance := Some (length (adverts w)) |>);; start_advert (length (adverts w)) ans) w =
  match a_error ans with Some e => _failed (length (adverts w)) e (launched w) | None => (Ok (), launched w) end.
Proof.
  unfold start_advert, mbind, M_bind, put, modify, emit. cbn -[alter _failed].
  assert (E : ∀ l (a : _AncsAdvert), alter sending (length l) (l ++ [a]) = l ++ [sending a]).
  { intros l a. induction l as [|x l IH]; [done|]. cbn. f_equal. exact IH. }
  rewrite E. by destruct (a_error ans).
Qed.

Lemma launched_ok w : ok w → (∀ i a, adverts w !! i = Some a → retired a = true) → ok (launched w).
Proof.
  intros [] Hall. split; cbn; try done.
  - intros i a Hi Ha. apply lookup_app_Some in Hi as [Hi|[Hge Hi]]; [by rewrite (Hall i a Hi) in Ha|].
    destruct (i - _)%nat eqn:E in Hi; [|done]. f_equal. lia.
  - apply Forall_app. split; [done|]. by constructor.
  - intros s. rewrite elem_of_app, list_elem_of_singleton. intros [?|?]; [by apply o_hold0|done].
  - by apply held_snoc.
Qed.
Lemma launched_current w : current (launched w) = Some (fresh_advert w).
Proof. unfold current, launched. cbn. by apply list_lookup_middle. Qed.

Lemma failed_result i e w : (_failed i e w).1 = Ok ().
Proof.
  unfold _failed. unfold mbind at 1, M_bind at 1, get at 1. destruct (adverts w !! i) as [a|]; [|done].
  destruct (retired a); [done|]. unfold mbind, M_bind, when. destruct (_ && _); cbn -[retire]; by rewrite retire_eq.
Qed.

(** [register_advert]: the current advertisement stays; otherwise a new one is
    sent, unless the bus refuses. *)
Definition launch (ans : Answers) (w : World) : World :=
  match a_error ans with Some e => (_failed (length (adverts w)) e (launched w)).2 | None => launched w end.
Definition vacant (w : World) : bool := match current w with Some a => retired a | None => true end.
Lemma register_eq w ans : ok w → register_advert the_adapter valid_adapter ans w =
  if negb valid_adapter then (Raise (ValueError "invalid Bluetooth adapter name"), w)
  else if vacant w then
    if a_manager ans then (Ok (advert_registered (launch ans w)), launch ans w) else (Ok false, w)
  else (Ok (advert_registered w), w).
Proof.
  intros Hw. unfold register_advert, vacant. destruct (negb valid_adapter); [done|].
  unfold mbind at 1, M_bind at 1, get at 1. unfold mbind at 1, M_bind at 1.
  assert (E : match _advert_instance w, current w with
    | Some i, Some a => when (negb (String.eqb (adapter a) the_adapter)) (retire i true) | _, _ => mret () end w = (Ok (), w)).
  { unfold current. destruct (_advert_instance w) as [i|]; [|done]. cbn [mbind option_bind].
    destruct (adverts w !! i) as [a|] eqn:Ea; [|done]. by rewrite (current_adapter w i a Hw Ea). }
  rewrite E. cbn beta iota. unfold mbind at 1, M_bind at 1, get at 1.
  destruct (match current w with Some a => retired a | None => true end); cbn [negb]; [|done].
  destruct (a_manager ans); cbn [negb]; [|done]. cbn zeta.
  pose proof (launch_eq w ans) as Hl. unfold launch. unfold mbind at 1, M_bind at 1, put at 1 in Hl.
  unfold mbind at 1, M_bind at 1, put at 1. cbn beta iota in *. unfold mbind at 1, M_bind at 1. rewrite Hl.
  destruct (a_error ans) as [e|]; [|done]. pose proof (failed_result (length (adverts w)) e (launched w)) as Hr.
  destruct (_failed _ e _) as [r w']. cbn in Hr. by subst r.
Qed.
Lemma vacant_retired w : ok w → vacant w = true → ∀ i a, adverts w !! i = Some a → retired a = true.
Proof.
  intros Hw Hv i a Hi. destruct (retired a) eqn:E; [done|]. pose proof (o_live w Hw i a Hi E) as Hc.
  unfold vacant, current in Hv. rewrite Hc in Hv. cbn in Hv. rewrite Hi in Hv. congruence.
Qed.
Lemma launch_ok w ans : ok w → vacant w = true → ok (launch ans w) ∧ aside w (launch ans w).
Proof.
  intros Hw Hv. pose proof (launched_ok w Hw (vacant_retired w Hw Hv)) as Hl. unfold launch.
  destruct (a_error ans); [|done]. split; [by apply failed_ok|]. etrans; [|apply failed_aside]. done.
Qed.
Lemma current_ok w a : ok w → current w = Some a → advert_ok a.
Proof.
  intros Hw Hc. pose proof (o_adverts w Hw) as Ha. rewrite Forall_lookup in Ha. unfold current in Hc.
  destruct (_advert_instance w) as [i|]; [|done]. by apply (Ha i).
Qed.

Lemma register_spec w ans : ok w → let r := register_advert the_adapter valid_adapter ans w in
  ok r.2 ∧ aside w r.2 ∧ (valid_adapter = true → a_manager ans = true → a_error ans = None →
    advert_registered r.2 || advert_registration_pending r.2 = true).
Proof.
  intros Hw. cbn zeta. rewrite (register_eq w ans Hw). destruct valid_adapter; cbn [negb]; [|by split_and!].
  destruct (vacant w) eqn:Hv.
  - destruct (a_manager ans); [|by split_and!]. cbn [snd]. destruct (launch_ok w ans Hw Hv) as [H1 H2].
    split; [done|]. split; [done|]. intros _ _ E. unfold launch, advert_registered, advert_registration_pending.
    by rewrite E, launched_current.
  - cbn [snd]. split; [done|]. split; [done|]. intros _ _ _. unfold vacant in Hv.
    unfold advert_registered, advert_registration_pending. destruct (current w) as [a|] eqn:Ec; [|done].
    destruct (current_ok w a Hw Ec) as (_ & Hr & _). rewrite Hv in Hr. symmetry in Hr. apply negb_false_iff in Hr.
    by rewrite orb_comm.
Qed.

(** *** The supervisor *)

(** What the supervisor's reconciliation leaves alone. *)
Record apart (w w' : World) : Prop := {
  p_needed : _needed w' = _needed w;
  p_dialing : _dialing w' = _dialing w;
  p_clock : clock w' = clock w;
  p_hold : _hold_until w <= _hold_until w';
}.
#[local] Instance apart_preorder : PreOrder apart.
Proof. split; [intros w; by split|]. intros w1 w2 w3 [] []. split; [congruence..|lia]. Qed.
Lemma aside_apart w w' : aside w w' → apart w w'.
Proof. intros []. split; [congruence..|lia]. Qed.

Lemma ok_flag f w : adverts (f w) = adverts w → _advert_instance (f w) = _advert_instance w → log (f w) = log w →
  _hold_until (f w) = _hold_until w → ok w → ok (modify f w).2.
Proof. apply ok_frame. Qed.

Lemma begin_hold_ok : stable ok (_begin_hold minimum_on).
Proof.
  intros w []. unfold _begin_hold. monad_simpl. split; cbn; try done.
  - intros s. rewrite elem_of_app, list_elem_of_singleton. intros [Hs|[= ->]]; [specialize (o_hold0 s Hs)|]; lia.
  - by apply held_snoc.
Qed.
Lemma begin_hold_apart : keeps apart (_begin_hold minimum_on).
Proof. intros w. unfold _begin_hold. monad_simpl. split; cbn; (done || lia). Qed.
Lemma begin_hold_result w : (_begin_hold minimum_on w).1 = Ok ().
Proof. done. Qed.

(** A take-down, once the hold is over. *)
Lemma take_down_spec w : ok w → _hold_until w <= clock w → let w' := (take_down the_adapter w).2 in
  ok w' ∧ aside w w' ∧ advert_registered w' = false ∧ advert_registration_pending w' = false.
Proof.
  intros Hw Hh. cbn zeta. set (w1 := w <| log ::= λ l, l ++ [TakeDown (clock w)] |>).
  assert (Hw1 : ok w1).
  { destruct Hw. split; cbn; try done.
    - intros s. rewrite elem_of_app, list_elem_of_singleton. intros [?|?]; [by apply o_hold0|done].
    - apply held_snoc; [done|]. intros t s [= <-] Hs. specialize (o_hold0 s Hs). lia. }
  assert (Hd : aside w w1) by by split. pose proof (unregister_spec w1 Hw1) as (H1 & H2 & H3 & H4).
  assert (E : take_down the_adapter w =
    (Ok (), (unregister_advert the_adapter w1).2 <| _was_registered := false |>)).
  { unfold take_down, emit. monad_simpl. fold w1. by rewrite (unregister_eq w1 Hw1). }
  rewrite E. cbn [snd]. split; [by revert H1; apply ok_frame|]. split; [|done].
  etrans; [exact Hd|]. by destruct H2.
Qed.

(** The first half of a reconciliation: a registration seen for the first
    time starts a hold. *)
Definition noticed (w : World) : World :=
  let w1 := if advert_registered w && negb (_was_registered w) then (_begin_hold minimum_on w).2 else w in
  w1 <| _was_registered := advert_registered w |>.
Lemma noticed_spec w : ok w →
  ok (noticed w) ∧ apart w (noticed w) ∧ adverts (noticed w) = adverts w ∧ _advert_instance (noticed w) = _advert_instance w.
Proof.
  intros Hw. unfold noticed. destruct (_ && _).
  - split; [|split; [|done]]; [pose proof (begin_hold_ok w Hw) as H; revert H; by apply ok_frame|].
    etrans; [apply begin_hold_apart|]. by split.
  - split; [by revert Hw; apply ok_frame|]. by split_and!.
Qed.

(** The second half. *)
Definition settle (ans : Answers) (w : World) : M World () :=
  if _dialing w && (_hold_until w <=? clock w) then
    when (advert_registered w || advert_registration_pending w) (take_down the_adapter)
  else if _needed w && negb (advert_registered w) then
    if advert_registration_pending w then mret ()
    else
      accepted ← register_advert the_adapter valid_adapter ans;
      when (accepted : bool) (modify (λ w : World, w <| _was_registered := true |>);; _begin_hold minimum_on)
  else when (negb (_needed w) && advert_registered w && (_hold_until w <=? clock w)) (take_down the_adapter).
Lemma reconcile_eq w ans : _reconcile the_adapter valid_adapter minimum_on ans w = settle ans (noticed w) (noticed w).
Proof.
  unfold _reconcile. unfold mbind at 1, M_bind at 1, get at 1.
  assert (E : ∀ w', adverts w' = adverts w → _advert_instance w' = _advert_instance w → advert_registered w' = advert_registered w ∧
    advert_registration_pending w' = advert_registration_pending w).
  { intros w' H1 H2. unfold advert_registered, advert_registration_pending, current. by rewrite H1, H2. }
  unfold settle, noticed. destruct (advert_registered w && negb (_was_registered w)).
  - destruct (E ((_begin_hold minimum_on w).2 <| _was_registered := advert_registered w |>)) as [-> ->]; done.
  - destruct (E (w <| _was_registered := advert_registered w |>)) as [-> ->]; done.
Qed.

(** What a reconciliation that found the bus at work leaves behind. *)
Record settled (ans : Answers) (w : World) : Prop := {
  z_primed : _needed w = true → (_dialing w = false ∨ clock w < _hold_until w) → valid_adapter = true →
    a_manager ans = true → a_error ans = None → advert_registered w || advert_registration_pending w = true;
  z_dialing : _dialing w = true → _hold_until w <= clock w →
    advert_registered w = false ∧ advert_registration_pending w = false;
  z_idle : _needed w = false → _hold_until w <= clock w → advert_registered w = false;
}.

Lemma accepted_ok w : ok w → let w' := ((modify (λ w : World, w <| _was_registered := true |>);; _begin_hold minimum_on) w).2 in
  ok w' ∧ apart w w' ∧ adverts w' = adverts w ∧ _advert_instance w' = _advert_instance w.
Proof.
  intros Hw. cbn zeta. unfold mbind, M_bind, modify. cbn beta iota. set (w1 := w <| _was_registered := true |>).
  assert (Hw1 : ok w1) by by revert Hw; apply ok_frame.
  split; [by apply begin_hold_ok|]. split; [|done]. etrans; [|apply begin_hold_apart]. by split.
Qed.
Lemma same_adverts w w' : adverts w' = adverts w → _advert_instance w' = _advert_instance w →
  advert_registered w' = advert_registered w ∧ advert_registration_pending w' = advert_registration_pending w.
Proof. intros H1 H2. unfold advert_registered, advert_registration_pending, current. by rewrite H1, H2. Qed.

(** Registration while the advertisement is needed. *)
Lemma enrol_spec w ans : ok w → _needed w = true → (_dialing w = false ∨ clock w < _hold_until w) →
  let w' := ((accepted ← register_advert the_adapter valid_adapter ans;
    when (accepted : bool) (modify (λ w : World, w <| _was_registered := true |>);; _begin_hold minimum_on)) w).2 in
  ok w' ∧ apart w w' ∧ settled ans w'.
Proof.
  intros Hw Hn Hd. rewrite M_bind_eq.
  pose proof (register_spec w ans Hw) as (H1 & H2 & H3). cbn zeta in *. destruct (register_advert _ _ ans w) as [r w1]. cbn [snd] in *.
  apply aside_apart in H2 as H2'.
  assert (Hs : ∀ w', apart w w' → adverts w' = adverts w1 → _advert_instance w' = _advert_instance w1 → settled ans w').
  { intros w' [E1 E2 E3 E4] Ha Hi. destruct (same_adverts w1 w' Ha Hi) as [Er Ep].
    split; [by rewrite Er, Ep|intros Hd' Hh; exfalso|rewrite E1, Hn; discriminate].
    rewrite E2 in Hd'. rewrite Hd' in Hd. destruct Hd; [discriminate|]. lia. }
  destruct r as [[]|e]; cbn [when snd].
  - destruct (accepted_ok w1 H1) as (H4 & H5 & H6 & H7). split; [done|].
    pose proof (transitivity H2' H5) as H8. split; [exact H8|]. by apply Hs.
  - split; [done|]. split; [done|]. by apply Hs.
  - split; [done|]. split; [done|]. by apply Hs.
Qed.

Lemma settle_spec w ans : ok w → let w' := (settle ans w w).2 in ok w' ∧ apart w w' ∧ settled ans w'.
Proof.
  intros Hw. cbn zeta. unfold settle. destruct (_dialing w && (_hold_until w <=? clock w)) eqn:Ed.
  - apply andb_true_iff in Ed as [Ed Eh]. apply Z.leb_le in Eh.
    assert (Hs : ∀ w', aside w w' → advert_registered w' = false → advert_registration_pending w' = false → settled ans w').
    { intros w' [E1 E2 E3 E4 E5] Hr Hp. split; [|done..]. rewrite E3, E4, E5, Ed. intros _ [?|?]; [done|lia]. }
    destruct (_ || _) eqn:Er; cbn [when].
    + destruct (take_down_spec w Hw Eh) as (H1 & H2 & H3 & H4).
      split; [done|]. split; [by apply aside_apart|]. by apply Hs.
    + apply orb_false_iff in Er as [Er Ep]. split; [done|]. split; [done|]. by apply Hs.
  - assert (Hd : _dialing w = false ∨ clock w < _hold_until w).
    { apply andb_false_iff in Ed as [?|E]; [by left|]. right. by apply Z.leb_gt in E. }
    destruct (_needed w && negb (advert_registered w)) eqn:En.
    + apply andb_true_iff in En as [En Er]. apply negb_true_iff in Er.
      destruct (advert_registration_pending w) eqn:Ep; [|by apply enrol_spec].
      split; [done|]. split; [done|]. change (settled ans w). split; [by rewrite Ep, orb_true_r| |congruence].
      intros Hd'. destruct Hd; [congruence|lia].
    + assert (Hn : ∀ w', apart w w' → _needed w = true → advert_registered w' = advert_registered w → settled ans w').
      { intros w' [E1 E2 E3 E4] Hn Hr. rewrite Hn in En. cbn in En. apply negb_false_iff in En.
        split; [by rewrite Hr, En| |congruence]. intros Hd' Hh. rewrite E2 in Hd'. destruct Hd; [congruence|lia]. }
      destruct (_needed w) eqn:Ew; cbn [negb andb when].
      { split; [done|]. split; [done|]. by apply Hn. }
      assert (Hi : ∀ w', aside w w' → (_hold_until w <= clock w → advert_registered w' = false) → settled ans w').
      { intros w' [E1 E2 E3 E4 E5] Hr. split; [congruence| |intros _ Hh; apply Hr; congruence].
        rewrite E3, E4, E5. intros Hd' Hh. destruct Hd; [congruence|lia]. }
      destruct (advert_registered w) eqn:Er; cbn [andb when].
      2:{ split; [done|]. split; [done|]. by apply Hi. }
      destruct (_hold_until w <=? clock w) eqn:Eh; cbn [when].
      * apply Z.leb_le in Eh. destruct (take_down_spec w Hw Eh) as (H1 & H2 & H3 & _).
        split; [done|]. split; [by apply aside_apart|]. by apply Hi.
      * apply Z.leb_gt in Eh. split; [done|]. split; [done|]. apply Hi; [done|lia].
Qed.

Lemma reconcile_spec w ans : ok w → let w' := (_reconcile the_adapter valid_adapter minimum_on ans w).2 in
  ok w' ∧ apart w w' ∧ settled ans w'.
Proof.
  intros Hw. cbn zeta. rewrite reconcile_eq. destruct (noticed_spec w Hw) as (H1 & H2 & _).
  destruct (settle_spec (noticed w) ans H1) as (H3 & H4 & H5). split; [done|]. split; [|done]. etrans; [exact H2|exact H4].
Qed.
Lemma reconcile_ok ans : stable ok (_reconcile the_adapter valid_adapter minimum_on ans).
Proof. intros w Hw. by apply reconcile_spec. Qed.

Lemma unregister_ok : stable ok (unregister_advert the_adapter).
Proof. intros w Hw. by apply unregister_spec. Qed.
#[local] Hint Resolve begin_hold_ok reconcile_ok forget_ok retire_ok registered_ok failed_ok unregister_ok : keeps.

Lemma advert_step_ok e : stable ok (step the_adapter valid_adapter minimum_on e).
Proof.
  destruct e; cbn [step]; unfold start, set_needed, set_dialing, reset_after_bluez_restart, stop, _tick, Release; keeps;
    unfold holding; by apply ok_frame.
Qed.
Lemma advert_run_ok es needed now : ok (run the_adapter valid_adapter minimum_on es (World_init needed now)).
Proof.
  unfold run. apply run_all_invariant.
  - intros m w (e & -> & _)%list_elem_of_fmap. apply advert_step_ok.
  - split; cbn; [done|by constructor|intros ? ?%not_elem_of_nil; done|]. by intros [|] ? ? ?.
Qed.

(** C18: The solicitation discipline, after any sequence of daemon requests,
    timer ticks, BlueZ replies, releases and restarts.  An advertisement that
    has not been retired is the current one, so no two are on air or pending
    at once; a take-down of the supervisor comes at least [minimum_on] after
    every hold begun before it; and a reconciliation leaves the
    advertisement on air or pending when it is needed (outside an outbound
    dial past the hold, with the bus at work), neither registered nor pending
    during such a dial, and not on air when it is no longer needed and the
    hold has passed. *)
Theorem solicitation_discipline es needed now :
  let w := run the_adapter valid_adapter minimum_on es (World_init needed now) in
  (∀ i a, adverts w !! i = Some a → retired a = false → _advert_instance w = Some i) ∧
  (∀ l1 t l2 s, log w = l1 ++ TakeDown t :: l2 → Hold s ∈ l1 → s + minimum_on <= t) ∧
  (∀ ans, let w' := (_reconcile the_adapter valid_adapter minimum_on ans w).2 in
    (_needed w' = true → (_dialing w' = false ∨ clock w' < _hold_until w') → valid_adapter = true →
      a_manager ans = true → a_error ans = None → advert_registered w' || advert_registration_pending w' = true) ∧
    (_dialing w' = true → _hold_until w' <= clock w' →
      advert_registered w' = false ∧ advert_registration_pending w' = false) ∧
    (_needed w' = false → _hold_until w' <= clock w' → advert_registered w' = false)).
Proof.
  intros w. pose proof (advert_run_ok es needed now) as Hw. fold w in Hw. split_and!.
  - apply (o_live w Hw).
  - apply (o_held w Hw).
  - intros ans. by destruct (reconcile_spec w ans Hw) as (_ & _ & []).
Qed.
End proofs.

(** A day: the advertisement goes up, ANCS works, the hold passes, the
    advertisement comes down; a rejected payload makes the next one compact. *)
Definition good : Answers := mkAnswers true None.
Definition rejected : error := ("org.bluez.Error.Failed", "Failed to parse advertisement.").
Definition day : list event :=
  [EStart good; EReply 0 (Some rejected); ETick good; EReply 1 None; ETick good; ESetNeeded false good;
   ETime (sec 60); ETick good; ETime (sec 120); ETick good].
Example solicitation_day : let w := run "hci0" true MINIMUM_ON_SECONDS day (World_init true 0) in
  (log w, map compact (adverts w), advert_registered w) =
  ([Hold 0; Registering 0; Unregistering 0; Registering 1; Hold 0; TakeDown (sec 180); Unregistering 1],
   [false; true], false).
Proof. vm_compute. reflexivity. Qed.
