(* ===== verification/Bearer.v ===== *)
(** * Bearer: the supervisor of the iPhone's Classic and LE bearers
    (src/blueferry/bearer_supervisor.py).

    The state of [BearerSupervisor] is grouped in records: the connect
    requests in flight, the pacing of the dials, the pending LE reset and the
    evidence of a stale LE bond.  What BlueZ and the collaborators answer
    while a callback runs is an [Env]; D-Bus calls that have been sent and not
    answered are in [calls].  Callbacks to the owner are entries of [log]. *)
From S2P Require Import Prelude LeBudget.

Definition POLL_SECONDS : Z := sec 5.
Definition STABLE_CONNECTION_SECONDS : Z := POLL_SECONDS * 3.
Definition CLASSIC_SETTLE_SECONDS : Z := sec 3.
Definition CONNECT_TIMEOUT_SECONDS : Z := sec 45.
Definition BACKOFF_CAP_SECONDS : Z := sec 300.
Definition LE_CONNECTED_CLASSIC_BACKOFF_CAP_SECONDS : Z := sec 30.
Definition CLASSIC_BACKOFF_CAP_SECONDS : Z := sec 600.
Definition CLASSIC_RESTING_AFTER_FAILURES : Z := 3.
Definition PRESENCE_FRESH_SECONDS : Z := sec 120.
Definition LE_FLAP_THRESHOLD : Z := 5.
Definition LE_FLAP_WINDOW_SECONDS : Z := sec 60.
Definition LE_FLAP_MAX_LINK_SECONDS : Z := sec 5.
Definition LE_FLAP_PERSIST_SECONDS : Z := sec 180.
Definition POLLED_LE_FLAP_WINDOW_SECONDS : Z := sec 180.
Definition POLLED_LE_FLAP_PERSIST_SECONDS : Z := sec 540.
Definition LE_SUSPECT_ABSENT_EXPIRY_SECONDS : Z := sec 120.
Definition LE_SUSPECT_QUIET_EXPIRY_SECONDS : Z := sec 600.
Definition OWN_LE_DISCONNECT_GRACE_SECONDS : Z := sec 10.

(** ** Errors *)

(** The exceptions a D-Bus call ends with: a D-Bus error with its name and
    message, or another exception with its type and its text. *)
Inductive failure := DBusError (name message : string) | OtherError (type text : string).

Definition truncated (s : string) : string := String.substring 0 256 s.
Definition or_else (s d : string) : string := if String.eqb s "" then d else s.
Definition _connect_error_parts (e : failure) : string * string :=
  match e with
  | DBusError name message => (truncated (or_else name "DBusException"), truncated message)
  | OtherError type text => (truncated type, truncated text)
  end.

Definition among (s : string) (l : list string) : bool := existsb (String.eqb s) l.
Definition unknown_property : list string :=
  ["org.freedesktop.DBus.Error.UnknownInterface"; "org.freedesktop.DBus.Error.UnknownMethod";
   "org.freedesktop.DBus.Error.UnknownProperty"].
Definition bearer_connected_unavailable (e : failure) : bool :=
  match e with
  | DBusError name message =>
      among name unknown_property
      || contains "no such property" (casefold message) && contains "connected" (casefold message)
  | OtherError _ _ => false
  end.
Definition preferred_bearer_unavailable (e : failure) : bool :=
  match e with
  | DBusError name message =>
      among name unknown_property
      || contains "no such property" (casefold message) && contains "preferredbearer" (casefold message)
  | OtherError _ _ => false
  end.
Definition bearer_interface_missing (e : failure) : bool :=
  match e with
  | DBusError name message =>
      String.eqb name "org.freedesktop.DBus.Error.UnknownInterface" || contains "no such interface" (casefold message)
  | OtherError _ _ => false
  end.
(** The link was already down. *)
Definition already_down (e : failure) : bool :=
  let '(name, message) := _connect_error_parts e in
  among name ["org.bluez.Error.NotConnected"; "org.bluez.Error.AlreadyDisconnected"]
  || contains "not connected" (casefold message).

(** [s.strip()] of an ASCII string. *)
Definition is_space (a : Ascii.ascii) : bool :=
  let n := Ascii.N_of_ascii a in ((9 <=? n) && (n <=? 13) || (28 <=? n) && (n <=? 32))%N.
Fixpoint lstrip (s : string) : string :=
  match s with String a s' => if is_space a then lstrip s' else s | EmptyString => s end.
Fixpoint rstrip (s : string) : string :=
  match s with
  | String a s' => match rstrip s' with
      | EmptyString => if is_space a then EmptyString else String a EmptyString
      | r => String a r end
  | EmptyString => EmptyString
  end.
Definition strip (s : string) : string := rstrip (lstrip s).
Definition in_progress (e : failure) : bool :=
  let '(name, message) := _connect_error_parts e in
  String.eqb name "org.bluez.Error.InProgress"
  || String.eqb name "org.bluez.Error.Failed" && String.eqb (casefold (strip message)) "operation already in progress".

Definition _public_error_token (name message : string) : string :=
  let detail := casefold (name +:+ " " +:+ message) in
  if contains "forbidden" detail || contains "not authorized" detail then "authorization-required"
  else if contains "connection refused" detail || contains "(111)" detail then "connection-refused"
  else if contains "timed out" detail || contains "timeout" detail then "connection-timeout"
  else if contains "cancel" detail || contains "abort" detail then "connection-aborted"
  else if contains "not supported" detail || contains "unsupported" detail then "unsupported"
  else "connection-failed".

(** [_PUBLIC_ERROR_NAME.fullmatch(name)]. *)
Definition name_start (a : Ascii.ascii) : bool :=
  let n := Ascii.N_of_ascii a in ((65 <=? n) && (n <=? 90) || (97 <=? n) && (n <=? 122) || (n =? 95))%N.
Definition name_char (a : Ascii.ascii) : bool :=
  let n := Ascii.N_of_ascii a in name_start a || ((48 <=? n) && (n <=? 57) || (n =? 46))%N.
Fixpoint all_chars (p : Ascii.ascii → bool) (s : string) : bool :=
  match s with EmptyString => true | String a s' => p a && all_chars p s' end.
Definition _PUBLIC_ERROR_NAME (name : string) : bool :=
  match name with
  | EmptyString => false
  | String a s => name_start a && all_chars name_char s && (String.length s <=? 255)%nat
  end.

Inductive reason := unknown | timeout | local | remote | authentication | suspend.
#[global] Instance reason_eq_dec : EqDecision reason.
Proof. solve_decision. Defined.
Definition _LE_DISCONNECT_REASONS (name : string) : reason :=
  if String.eqb name "org.bluez.Reason.Timeout" then timeout
  else if String.eqb name "org.bluez.Reason.Local" then local
  else if String.eqb name "org.bluez.Reason.Remote" then remote
  else if String.eqb name "org.bluez.Reason.Authentication" then authentication
  else if String.eqb name "org.bluez.Reason.Suspend" then suspend
  else unknown.
Definition _COUNTED_LE_DISCONNECT_REASONS (r : reason) : bool :=
  match r with timeout | remote | authentication => true | _ => false end.

(** ** The state *)

Inductive kind := Bredr | Le.
#[global] Instance kind_eq_dec : EqDecision kind.
Proof. solve_decision. Defined.

(** A dict keyed by the two bearers. *)
Record two (A : Type) := mkTwo { bredr : A; le : A }.
Arguments mkTwo {A} _ _.
Arguments bredr {A} _.
Arguments le {A} _.
Definition sel {A} (k : kind) (p : two A) : A := match k with Bredr => bredr p | Le => le p end.
Definition upd {A} (k : kind) (v : A) (p : two A) : two A :=
  match k with Bredr => mkTwo v (le p) | Le => mkTwo (bredr p) v end.
Definition both {A} (v : A) : two A := mkTwo v v.

(** The connect requests in flight. *)
Record Requests := mkRequests {
  _connecting : two bool;
  _connect_request_serial : Z;
  _connect_request_ids : two (option Z);
  _connect_targeted : two (option bool);
  _connect_observation_deadlines : two (option Z);
}.
Definition no_requests (serial : Z) : Requests := mkRequests (both false) serial (both None) (both None) (both None).

(** The pacing of the dials. *)
Record Pace := mkPace {
  _failures : two Z;
  _next_attempt : two Z;
  _connected_since : two (option Z);
  _le_dwell_should_forgive_classic : bool;
  _last_errors : two (option (string * string));
  _bredr_resting : bool;
  _bredr_last_failed : bool;
  _bredr_remote_closed : bool;
  _presence_seen_at : option Z;
}.
Definition Pace_init : Pace := mkPace (both 0) (both 0) (both None) false (both None) false false false None.

(** The LE reset that ANCS asked for. *)
Record Reset := mkReset {
  _le_reset_pending : bool;
  _le_reset_wanted : option bool;
  _le_reset_started_at : option Z;
  _le_reset_down_seen : bool;
  _le_reset_failures : Z;
  _next_le_reset_attempt : Z;
}.
Definition Reset_init : Reset := mkReset false None None false 0 0.

(** The evidence of a stale LE bond. *)
Record Bond := mkBond {
  _le_flaps : list Z;
  _le_flap_count : Z;
  _le_burst_started_at : option Z;
  _bredr_lost_at : option Z;
  _le_bond_suspect : bool;
  _le_disconnect_signal_seen : bool;
  _le_link_up_at : option Z;
  _le_last_drop_at : option Z;
  _le_last_polled_drop_at : option Z;
  _last_le_disconnect_reason : option reason;
  _own_le_disconnect_at : option Z;
}.
Definition Bond_init : Bond := mkBond [] 0 None None false false None None None None None.

Inductive phase := disconnecting | settling.
#[global] Instance phase_eq_dec : EqDecision phase.
Proof. solve_decision. Defined.

(** A D-Bus call that has not been answered. *)
Inductive call :=
  | Connect (k : kind) (generation request_id : Z)
  | Disconnect (generation : Z)
  | DisconnectDevice (generation : Z).

(** Calls, callbacks and their time. *)
Inductive action :=
  | Dial (k : kind) (targeted manual : bool) (t : Z)
  | Probing (t : Z)  (* "probing resting iPhone over BR/EDR" *)
  | Hangup (force : bool) (t : Z)
  | HangupDevice (t : Z)
  | Prefer (k : kind)
  | OnLeState (state : option bool)
  | OnStatus
  | OnLeDial (active : bool)
  | OnReconnectState
  | OnLeBondReport
  | OnBluezError
  | OnBluezOk.

Record World := mkWorld {
  _le_recovery_budget : LeRecoveryBudget;
  _le_enabled : bool;
  _le_api_available : option bool;
  _legacy_observation : option (bool * bool);
  _timer : bool;
  _le_settle : bool;
  _running : bool;
  _generation : Z;
  requests : Requests;
  _disconnecting : bool;
  _le_targeting_hint : bool;
  _le_dial_active : bool;
  _le_preference_restore_pending : bool;
  _le_dial_spent : bool;
  reset : Reset;
  _states : two (option bool);
  _status_dirty : bool;
  pace : Pace;
  bond : Bond;
  _manual_dial : bool;
  _profile_reset_phase : option phase;
  _profile_reset_timer : bool;
  _published_reconnect : option (string * bool);
  _unwatch_le : bool;
  _unwatch_bredr : bool;
  clock : Z;
  calls : list call;
  log : list action;
}.
Definition World_init (le_enabled : bool) (now : Z) : World :=
  mkWorld LeRecoveryBudget_init le_enabled None None false false false 0 (no_requests 0) false false false false false
    Reset_init (both None) false Pace_init Bond_init false None false None false false now [] [].

(** ** What the collaborators answer during one callback *)

(** A property read: its value, or the name and message of a D-Bus error. *)
Inductive reply (A : Type) := Got (a : A) | Failed (name message : string).
Arguments Got {A} _.
Arguments Failed {A} _ _.

(** The properties one poll of BlueZ finds. *)
Record Readings := mkReadings {
  r_bredr : reply bool;
  r_le : reply bool;
  r_device : reply bool;
  r_resolved : reply bool;
}.
Record Env := mkEnv {
  _bluez_blocked : bool;
  _profile_busy : bool;
  _inbound_le_primed : bool;
  _le_bond_detection : bool;
  poll : Readings;
  poll_again : Readings;
  connect_raises : kind → bool → option failure;
  disconnect_raises : option failure;
  preferred_bearer : reply string;
  set_preferred_raises : option failure;
  watch_le_raises : bool;
  watch_bredr_raises : bool;
}.

Definition is_true (o : option bool) : bool := match o with Some b => b | None => false end.
Definition is_false (o : option bool) : bool := match o with Some b => negb b | None => false end.

Definition emit (a : action) : M World () := modify (λ w : World, w <| log ::= λ l, l ++ [a] |>).
Definition send (c : call) : M World () := modify (λ w : World, w <| calls ::= λ l, l ++ [c] |>).
Definition set_requests (f : Requests → Requests) : M World () := modify (λ w : World, w <| requests ::= f |>).
Definition set_pace (f : Pace → Pace) : M World () := modify (λ w : World, w <| pace ::= f |>).
Definition set_reset (f : Reset → Reset) : M World () := modify (λ w : World, w <| reset ::= f |>).
Definition set_bond (f : Bond → Bond) : M World () := modify (λ w : World, w <| bond ::= f |>).

Definition busy_connecting (w : World) : bool := bredr (_connecting (requests w)) || le (_connecting (requests w)).

(** ** Reports *)

Definition _classic_connect_should_be_targeted (w : World) : bool := _le_targeting_hint w || is_true (le (_states w)).

(** [reconnect_snapshot]. *)
Record reconnect_view := mkReconnectView { state : string; paused : bool; next_in_sec : Z }.
Definition reconnect_snapshot (w : World) : reconnect_view :=
  let state :=
    if is_some (_profile_reset_phase w) then "connecting"
    else if is_true (bredr (_states w)) then "connected"
    else if bredr (_connecting (requests w)) || _manual_dial w then "connecting"
    else if _bredr_last_failed (pace w) then "unreachable"
    else "waiting" in
  let wait := bredr (_next_attempt (pace w)) - clock w in
  mkReconnectView state (_bredr_resting (pace w))
    (if String.eqb state "connected" then 0 else Z.max 0 (Z.quot (wait + msec 999) 1000000)).

Definition published (w : World) : string * bool := (state (reconnect_snapshot w), paused (reconnect_snapshot w)).
Definition _publish_reconnect : M World () :=
  w ← get;
  if bool_decide (_published_reconnect w = Some (published w)) then mret ()
  else
    modify (λ w : World, w <| _published_reconnect := Some (published w) |>);;
    emit OnReconnectState.

(** [snapshot]. *)
Record snapshot_view := mkSnapshot {
  v_bredr : bool; v_le : bool; last_le_error : string; last_le_error_message : string;
  le_bond_suspect : bool; le_flap_count : Z; last_le_disconnect_reason : option reason;
}.
Definition snapshot (w : World) : snapshot_view :=
  let '(name, message) := default ("", "") (le (_last_errors (pace w))) in
  mkSnapshot (is_true (bredr (_states w))) (is_true (le (_states w)))
    (if String.eqb name "" then "" else if _PUBLIC_ERROR_NAME name then name else "connection-failed")
    (if String.eqb name "" && String.eqb message "" then "" else _public_error_token name message)
    (_le_bond_suspect (bond w)) (_le_flap_count (bond w)) (_last_le_disconnect_reason (bond w)).

(** ** Pacing *)

Definition _set_le_dial_active (active : bool) : M World () :=
  w ← get;
  if Bool.eqb active (_le_dial_active w) then mret ()
  else
    modify (λ w : World, w <| _le_dial_active := active |>);;
    emit (OnLeDial active).

Definition forget_request (k : kind) (r : Requests) : Requests :=
  r <| _connecting ::= upd k false |> <| _connect_request_ids ::= upd k None |>
    <| _connect_targeted ::= upd k None |> <| _connect_observation_deadlines ::= upd k None |>.
Definition _clear_connect_request (k : kind) : M World () := set_requests (forget_request k).

Definition _backoff_cap (k : kind) (w : World) : Z :=
  match k with
  | Bredr => if _classic_connect_should_be_targeted w then LE_CONNECTED_CLASSIC_BACKOFF_CAP_SECONDS
             else CLASSIC_BACKOFF_CAP_SECONDS
  | Le => BACKOFF_CAP_SECONDS
  end.

(** A recent discovery sighting of the phone. *)
Definition sighted (w : World) : bool :=
  match _presence_seen_at (pace w) with Some seen => clock w - seen <? PRESENCE_FRESH_SECONDS | None => false end.
Definition _peer_present (w : World) : bool :=
  is_true (bredr (_states w)) || _classic_connect_should_be_targeted w || sighted w.

Definition _enter_bredr_resting : M World () :=
  modify (λ w : World, w <| pace ::= λ p, p <| _bredr_resting := true |>
    <| _next_attempt ::= upd Bredr (Z.max (bredr (_next_attempt p)) (clock w + CLASSIC_BACKOFF_CAP_SECONDS)) |> |>);;
  _publish_reconnect.

Definition _record_failure (k : kind) (failed : bool) : M World Z :=
  set_pace (λ p, p <| _failures ::= upd k (sel k (_failures p) + 1) |>);;
  match k with Bredr => set_pace (λ p, p <| _bredr_last_failed := failed |>) | Le => mret () end;;
  w ← get;
  let delay := Z.min (POLL_SECONDS * 2 ^ sel k (_failures (pace w))) (_backoff_cap k w) in
  let threshold := if _bredr_remote_closed (pace w) then 1 else CLASSIC_RESTING_AFTER_FAILURES in
  match k with
  | Bredr => when ((threshold <=? sel k (_failures (pace w))) && negb (_peer_present w)) _enter_bredr_resting
  | Le => mret ()
  end;;
  w ← get;
  let delay := match k with
    | Bredr => if _bredr_resting (pace w) then CLASSIC_BACKOFF_CAP_SECONDS else delay
    | Le => delay end in
  modify (λ w : World, w <| pace ::= λ p, p <| _next_attempt ::= upd k (clock w + delay) |> |>);;
  match k with Bredr => _publish_reconnect | Le => mret () end;;
  mret delay.

Definition _note_presence (sighting : bool) : M World () :=
  when sighting (modify (λ w : World, w <| pace ::= λ p, p <| _presence_seen_at := Some (clock w) |> |>));;
  set_pace (λ p, p <| _bredr_remote_closed := false |>);;
  w ← get;
  if negb (_bredr_resting (pace w)) then mret ()
  else
    set_pace (λ p, p <| _bredr_resting := false |> <| _next_attempt ::= upd Bredr 0 |>);;
    _publish_reconnect.

Definition _rearm_le_dial : M World () :=
  modify (λ w : World, w <| _le_dial_spent := false |>
    <| pace ::= λ p, p <| _failures ::= upd Le 0 |> <| _next_attempt ::= upd Le 0 |> |>).

Definition forgiven (k : kind) (p : Pace) : Pace :=
  p <| _last_errors ::= upd k None |> <| _failures ::= upd k 0 |> <| _next_attempt ::= upd k 0 |>.
Definition _reset_classic_backoff_from_le : M World () := set_pace (forgiven Bredr).
Definition _clear_backoff_if_stable (k : kind) : M World () :=
  w ← get;
  match sel k (_connected_since (pace w)) with
  | None => mret ()
  | Some since =>
      if clock w - since <? STABLE_CONNECTION_SECONDS then mret ()
      else
        set_pace (forgiven k);;
        when (bool_decide (k = Le) && _le_dwell_should_forgive_classic (pace w))
          (_reset_classic_backoff_from_le;; set_pace (λ p, p <| _le_dwell_should_forgive_classic := false |>))
  end.

Definition _settle_in_progress_connect (k : kind) (value : option bool) : M World () :=
  w ← get;
  match sel k (_connect_observation_deadlines (requests w)) with
  | None => mret ()
  | Some deadline =>
      let connected := is_true value in
      if negb connected && (clock w <? deadline) then mret ()
      else
        _clear_connect_request k;;
        match k with Le => _set_le_dial_active false | Bredr => mret () end;;
        if connected then mret ()
        else _record_failure k true;; mret ()
  end.

(** ** The evidence of a stale bond *)

Definition _reset_le_burst : M World () :=
  set_bond (λ b, (b <| _le_flaps := [] |> <| _le_burst_started_at := None |>)
    <| _le_flap_count ::= λ c, if _le_bond_suspect b then c else 0 |>).

Definition _clear_le_flaps (notify : bool) : M World () :=
  set_bond (λ b, b <| _le_flaps := [] |> <| _le_flap_count := 0 |> <| _le_burst_started_at := None |>);;
  w ← get;
  if negb (_le_bond_suspect (bond w)) then mret ()
  else
    set_bond (λ b, b <| _le_bond_suspect := false |>);;
    when notify (emit OnLeBondReport).

Definition flap_window (b : Bond) : Z :=
  if _le_disconnect_signal_seen b then LE_FLAP_WINDOW_SECONDS else POLLED_LE_FLAP_WINDOW_SECONDS.
Definition flap_persist (b : Bond) : Z :=
  if _le_disconnect_signal_seen b then LE_FLAP_PERSIST_SECONDS else POLLED_LE_FLAP_PERSIST_SECONDS.
Definition later (t : Z) (o : option Z) (d : Z) : bool := match o with Some x => d <? t - x | None => false end.
Fixpoint popleft_while {A} (p : A → bool) (l : list A) : list A :=
  match l with x :: l' => if p x then popleft_while p l' else l | [] => [] end.

(** The drop is counted. *)
Definition count_le_drop (signal : bool) (bredr_since : Z) : M World () :=
  w ← get;
  let now := clock w in
  let window := flap_window (bond w) in
  let persist := flap_persist (bond w) in
  when (later now (last (_le_flaps (bond w))) window) _reset_le_burst;;
  w ← get;
  when (match _le_burst_started_at (bond w) with Some s => s <? bredr_since | None => false end) _reset_le_burst;;
  set_bond (λ b, b <| _le_burst_started_at ::= λ s, Some (default now s) |>);;
  w ← get;
  let burst_started := default now (_le_burst_started_at (bond w)) in
  set_bond (λ b, b <| _le_flaps ::= λ l, l ++ [now] |> <| _le_last_drop_at := Some now |>);;
  when (negb signal) (set_bond (λ b, b <| _le_last_polled_drop_at := Some now |>));;
  set_bond (λ b, b <| _le_flaps ::= popleft_while (λ t, window <? now - t) |> <| _le_flap_count ::= Z.succ |>);;
  w ← get;
  if _le_bond_suspect (bond w) || (zlen (_le_flaps (bond w)) <? LE_FLAP_THRESHOLD) || (now - burst_started <? persist)
  then mret ()
  else
    set_bond (λ b, b <| _le_bond_suspect := true |>);;
    emit OnLeBondReport.

Section env.
Context (env : Env).

Definition _le_bond_detection_active (w : World) : bool := _le_enabled w && _le_bond_detection env.

Definition _record_le_drop (lifetime : option Z) (r : option reason) : M World () :=
  w ← get;
  if negb (_le_bond_detection_active w) then _reset_le_burst
  else if match lifetime with Some d => STABLE_CONNECTION_SECONDS <=? d | None => false end then _clear_le_flaps true
  else if match r with Some r => negb (_COUNTED_LE_DISCONNECT_REASONS r) | None => false end then mret ()
  else if is_some r && match lifetime with Some d => LE_FLAP_MAX_LINK_SECONDS <? d | None => true end then _reset_le_burst
  else
    match bredr (_connected_since (pace w)) with
    | Some bredr_since =>
        if is_true (bredr (_states w)) then count_le_drop (is_some r) bredr_since else _reset_le_burst
    | None => _reset_le_burst
    end.

Definition _clear_le_flaps_if_held : M World () :=
  w ← get;
  if negb (negb (bool_decide (_le_flaps (bond w) = [])) || _le_bond_suspect (bond w)) then mret ()
  else
    let since := if _le_disconnect_signal_seen (bond w) then _le_link_up_at (bond w) else le (_connected_since (pace w)) in
    when (match since with Some s => STABLE_CONNECTION_SECONDS <=? clock w - s | None => false end) (_clear_le_flaps true).

Definition elapsed (now : Z) (o : option Z) (d : Z) : bool := match o with Some x => d <=? now - x | None => false end.
Definition _age_le_evidence : M World () :=
  w ← get;
  let now := clock w in
  when (negb (_le_bond_suspect (bond w)) && later now (last (_le_flaps (bond w))) (flap_window (bond w))) _reset_le_burst;;
  w ← get;
  when (_le_bond_suspect (bond w) && elapsed now (_bredr_lost_at (bond w)) LE_SUSPECT_ABSENT_EXPIRY_SECONDS) (_clear_le_flaps true);;
  w ← get;
  when (_le_bond_suspect (bond w) && elapsed now (_le_last_drop_at (bond w)) LE_SUSPECT_QUIET_EXPIRY_SECONDS) (_clear_le_flaps true);;
  w ← get;
  when (_le_bond_suspect (bond w) && negb (_le_bond_detection_active w)) (_clear_le_flaps true).

(** The last drop counted by the poll is the one the first signal reports. *)
Definition same_drop (now : Z) (b : Bond) : bool :=
  negb (_le_disconnect_signal_seen b) &&
  match _le_last_polled_drop_at b with
  | Some polled =>
      (now - polled <=? POLL_SECONDS * 2) && bool_decide (last (_le_flaps b) = Some polled)
      && match _le_link_up_at b with Some t => t <=? polled | None => true end
  | None => false
  end.
Definition uncount (b : Bond) : Bond :=
  let flaps := removelast (_le_flaps b) in
  b <| _le_flaps := flaps |> <| _le_flap_count := Z.max 0 (_le_flap_count b - 1) |>
    <| _le_burst_started_at ::= λ s, if bool_decide (flaps = []) then None else s |>.

Definition _count_le_disconnect (name : string) : M World () :=
  w ← get;
  let now := clock w in
  let r := _LE_DISCONNECT_REASONS name in
  let replaced := same_drop now (bond w) in
  set_bond (λ b, b <| _le_disconnect_signal_seen := true |>);;
  when replaced (set_bond uncount);;
  let lifetime := up_at ← _le_link_up_at (bond w); Some (now - up_at) in
  set_bond (λ b, b <| _le_last_polled_drop_at := None |> <| _le_link_up_at := None |>);;
  if bool_decide (r = suspend) then mret ()
  else if bool_decide (r = local)
          && match _own_le_disconnect_at (bond w) with Some t => now - t <? OWN_LE_DISCONNECT_GRACE_SECONDS | None => false end
  then mret ()
  else
    set_bond (λ b, b <| _last_le_disconnect_reason := Some r |>);;
    _record_le_drop lifetime (Some r).

(** ** Reading BlueZ *)

Definition get_property {A} (r : reply A) : M World A :=
  match r with
  | Got a => mret a
  | Failed name _ => raise (DBusException name)
  end.

Definition _connected_property (rs : Readings) (k : kind) : M World (option bool) :=
  match k with
  | Bredr =>
      match r_bredr rs with
      | Got b => mret (Some b)
      | Failed name message =>
          if bearer_connected_unavailable (DBusError name message) then b ← get_property (r_device rs); mret (Some b)
          else raise (DBusException name)
      end
  | Le =>
      match r_le rs with
      | Got b => modify (λ w : World, w <| _le_api_available := Some true |>);; mret (Some b)
      | Failed name message =>
          if negb (bearer_interface_missing (DBusError name message)) then raise (DBusException name)
          else
            modify (λ w : World, w <| _le_api_available := Some false |>);;
            device_connected ← get_property (r_device rs);
            let resolved := match r_resolved rs with Got b => b | Failed _ _ => false end in
            modify (λ w : World, w <| _legacy_observation := Some (device_connected, resolved) |>);;
            mret (if (device_connected : bool) then None else Some false)
      end
  end.

Definition _read (rs : Readings) (k : kind) : M World (option bool) := λ w,
  match _connected_property rs k w with
  | (Ok value, w) => (emit OnBluezOk;; mret value) w
  | (Raise _, w) => (emit OnBluezError;; mret None) w
  end.

(** [_prefer_bluez]: the error it raises, if any. *)
Definition _prefer_bluez (k : kind) : M World (option failure) :=
  let name := match k with Bredr => "bredr" | Le => "le" end in
  let set :=
    emit (Prefer k);;
    match set_preferred_raises env with
    | None => mret None
    | Some e =>
        if preferred_bearer_unavailable e
           && match e with DBusError n _ => negb (String.eqb n "org.freedesktop.DBus.Error.UnknownMethod") | _ => true end
        then mret None else mret (Some e)
    end in
  match preferred_bearer env with
  | Got current => if String.eqb current name then mret None else set
  | Failed n m => if preferred_bearer_unavailable (DBusError n m) then mret None else set
  end.

Definition _restore_le_preference : M World () :=
  w ← get;
  if negb (_le_preference_restore_pending w) || negb (_le_enabled w) || _bluez_blocked env
     || is_some (_profile_reset_phase w) || _profile_busy env || _classic_connect_should_be_targeted w
     || busy_connecting w || _disconnecting w
  then mret ()
  else
    e ← _prefer_bluez Le;
    match e with
    | Some _ => mret ()
    | None => modify (λ w : World, w <| _le_preference_restore_pending := false |>)
    end.

Definition _le_dial_exhausted (w : World) : bool := _le_dial_spent w && _inbound_le_primed env.

(** ** Connecting *)

Definition current_request (k : kind) (generation request_id : Z) (w : World) : bool :=
  (generation =? _generation w) && bool_decide (sel k (_connect_request_ids (requests w)) = Some request_id).

Definition _connect_succeeded (k : kind) (generation request_id : Z) : M World () :=
  w ← get;
  if negb (current_request k generation request_id w) then mret ()
  else
    _clear_connect_request k;;
    match k with Le => _set_le_dial_active false | Bredr => mret () end;;
    set_pace (λ p, p <| _last_errors ::= upd k None |>);;
    match k with Bredr => _restore_le_preference | Le => mret () end;;
    _record_failure k false;;
    mret ().

Definition take_budget : M World bool :=
  w ← get;
  match take (clock w) (_le_recovery_budget w) with
  | (Ok granted, b) => modify (λ w : World, w <| _le_recovery_budget := b |>);; mret granted
  | (Raise e, b) => modify (λ w : World, w <| _le_recovery_budget := b |>);; raise e
  end.
Definition observe_budget (healthy : bool) (proof : option Z) : M World () :=
  modify (λ w : World, w <| _le_recovery_budget := (observe_health (clock w) healthy proof (_le_recovery_budget w)).2 |>).

(** A new connection of the phone: [_update_state] up to the evidence. *)
Definition note_le_value (value previous : option bool) : M World () :=
  set_reset (λ r, r <| _le_reset_down_seen ::= λ d, d || is_false value && _le_reset_pending r |>
    <| _le_reset_wanted ::= λ o, if is_false value && is_true previous then None else o |>);;
  when (negb (is_true value)) (observe_budget false None);;
  match value with
  | Some b => modify (λ w : World, w <| _le_targeting_hint := b |>)
  | None => mret ()
  end.

Definition note_le_lost (deliberate : bool) : M World () :=
  _rearm_le_dial;;
  w ← get;
  when (negb deliberate && negb (_le_disconnect_signal_seen (bond w)))
    (_record_le_drop (since ← le (_connected_since (pace w)); Some (clock w - since)) None).

Definition note_bredr_value (value previous : option bool) : M World () :=
  if is_true value then set_bond (λ b, b <| _bredr_lost_at := None |>)
  else when (is_true previous)
    (modify (λ w : World, w <| bond ::= λ b, b <| _bredr_lost_at := Some (clock w) |> |>);; _reset_le_burst).

Definition note_connected (k : kind) (previous : option bool) : M World () :=
  when (negb (is_true previous))
    (_note_presence false;;
     match k with Bredr => set_pace (λ p, p <| _bredr_last_failed := false |>) | Le => mret () end;;
     match k with
     | Le => modify (λ w : World, w <| bond ::= λ b, b <| _le_link_up_at ::= λ t, Some (default (clock w) t) |> |>)
     | Bredr => mret ()
     end);;
  w ← get;
  match sel k (_connected_since (pace w)) with
  | Some _ => mret ()
  | None =>
      set_pace (λ p, p <| _connected_since ::= upd k (Some (clock w)) |>);;
      match k with
      | Le => set_pace (λ p, p <| _le_dwell_should_forgive_classic :=
                (0 <? bredr (_failures p)) || (clock w <? bredr (_next_attempt p)) |>)
      | Bredr => mret ()
      end
  end;;
  _clear_backoff_if_stable k;;
  match k with Le => _clear_le_flaps_if_held | Bredr => mret () end.

Definition note_disconnected (k : kind) : M World () :=
  set_pace (λ p, p <| _connected_since ::= upd k None |>);;
  match k with Le => set_pace (λ p, p <| _le_dwell_should_forgive_classic := false |>) | Bredr => mret () end.

(** [_retarget_pending_classic_connect]; [request] dials Classic again. *)
Definition _retarget_pending_classic_connect (request : M World ()) : M World () :=
  w ← get;
  if negb (bredr (_connecting (requests w))) || is_true (bredr (_connect_targeted (requests w))) then mret ()
  else
    _clear_connect_request Bredr;;
    set_pace (λ p, p <| _next_attempt ::= upd Bredr 0 |>);;
    request.

(** [_update_state] up to the pending Classic request. *)
Definition observe_state (k : kind) (value : option bool) (deliberate notify : bool) : M World () :=
  _settle_in_progress_connect k value;;
  w ← get;
  let previous := sel k (_states w) in
  modify (λ w : World, w <| _states ::= upd k value |>);;
  match k with
  | Le => note_le_value value previous
  | Bredr => mret ()
  end;;
  w ← get;
  match k with
  | Bredr =>
      when (is_false previous && is_true value && negb (is_true (le (_states w)))) _rearm_le_dial;;
      note_bredr_value value previous
  | Le => when (is_true previous && is_false value) (note_le_lost deliberate)
  end;;
  match value with
  | Some true => note_connected k previous
  | Some false => note_disconnected k
  | None => mret ()
  end;;
  let changed := negb (bool_decide (previous = value)) in
  when (changed && bool_decide (k = Le)) (emit (OnLeState value));;
  when changed (if notify then emit OnStatus else modify (λ w : World, w <| _status_dirty := true |>)).

Definition _update_state (request : M World ()) (k : kind) (value : option bool) (deliberate notify : bool) : M World () :=
  observe_state k value deliberate notify;;
  match k with
  | Bredr => modify (λ w : World, w <| _published_reconnect := Some (published w) |>)
  | Le => when (is_true value) (_retarget_pending_classic_connect request)
  end.

Definition _refresh_le_state (request : M World ()) (rs : Readings) (notify : bool) : M World (option bool) :=
  w ← get;
  let previous_le := le (_states w) in
  let previous_observation := _legacy_observation w in
  le ← _read rs Le;
  _update_state request Le le false notify;;
  w ← get;
  when (bool_decide (previous_le = le) && negb (bool_decide (previous_observation = _legacy_observation w)))
    (emit (OnLeState le));;
  mret le.

(** [_connect_failed]: an untyped Classic request that finds the device
    connected looks again at both bearers. *)
Definition give_up_connect (k : kind) (parts : string * string) : M World () :=
  _clear_connect_request k;;
  match k with Le => _set_le_dial_active false | Bredr => mret () end;;
  w ← get;
  if bool_decide (k = Le) && negb (_le_enabled w) then modify (λ w : World, w <| _le_dial_spent := false |>)
  else
    _record_failure k true;;
    set_pace (λ p, p <| _last_errors ::= upd k (Some parts) |>).

Definition _connect_failed (request : M World ()) (k : kind) (e : failure) (generation request_id : Z) : M World () :=
  w ← get;
  if negb (current_request k generation request_id w) then mret ()
  else if in_progress e then
    set_requests (λ r, r <| _connect_observation_deadlines ::=
      upd k (Some (default (clock w + CONNECT_TIMEOUT_SECONDS) (sel k (_connect_observation_deadlines r)))) |>)
  else
    let parts := _connect_error_parts e in
    if String.eqb parts.1 "org.bluez.Error.AlreadyConnected" then
      if bool_decide (k = Bredr) && negb (is_true (sel k (_connect_targeted (requests w)))) then
        bredr ← _read (poll_again env) Bredr;
        _update_state request Bredr bredr false true;;
        if is_true bredr then _connect_succeeded k generation request_id
        else
          _refresh_le_state request (poll_again env) true;;
          w ← get;
          if negb (current_request k generation request_id w) then mret ()
          else give_up_connect k parts
      else _connect_succeeded k generation request_id
    else give_up_connect k parts.

(** Whether [_request_connect] dials; the LE budget is asked last. *)
Definition may_dial (k : kind) (w : World) : bool :=
  negb (_bluez_blocked env || is_some (_profile_reset_phase w) || _profile_busy env || _disconnecting w)
  && negb (busy_connecting w)
  && match k with
     | Bredr => negb (_le_enabled w && negb (is_some (le (_states w))) && negb (_classic_connect_should_be_targeted w))
     | Le => negb (_le_dial_exhausted w)
     end
  && (sel k (_next_attempt (pace w)) <=? clock w).

Definition begin_request (k : kind) (targeted : bool) (r : Requests) : Requests :=
  (r <| _connecting ::= upd k true |>) <| _connect_request_serial := _connect_request_serial r + 1 |>
    <| _connect_request_ids ::= upd k (Some (_connect_request_serial r + 1)) |>
    <| _connect_targeted ::= upd k (Some targeted) |>.

(** The request is sent; the result is the exception, if one is raised. *)
Definition send_connect (k : kind) (targeted manual : bool) (generation request_id : Z) : M World (option failure) :=
  e ← match k with
    | Bredr =>
        if targeted then mret None
        else
          e ← _prefer_bluez Bredr;
          match e with
          | Some e => mret (Some e)
          | None => modify (λ w : World, w <| _le_preference_restore_pending := true |>);; mret None
          end
    | Le => _set_le_dial_active true;; mret None
    end;
  match e with
  | Some e => mret (Some e)
  | None =>
      w ← get;
      emit (Dial k targeted manual (clock w));;
      match connect_raises env k targeted with
      | Some e => mret (Some e)
      | None => send (Connect k generation request_id);; mret None
      end
  end.

(** [_request_connect]; [fuel] bounds the nesting of a dial within the failure
    of another one (see [dial_terminates]). *)
Fixpoint _request_connect (fuel : nat) (k : kind) (manual : bool) : M World () :=
  match fuel with
  | O => raise (RuntimeError "maximum recursion depth exceeded")
  | S fuel =>
      w ← get;
      if negb (may_dial k w) then mret ()
      else
        granted ← match k with
          | Le => granted ← take_budget;
                  when (granted : bool) (modify (λ w : World, w <| _le_dial_spent := true |>));;
                  mret granted
          | Bredr => mret true
          end;
        if negb granted then mret ()
        else
          when (bool_decide (k = Bredr) && _bredr_resting (pace w) && negb manual) (emit (Probing (clock w)));;
          let targeted := bool_decide (k = Bredr) && _classic_connect_should_be_targeted w in
          set_requests (begin_request k targeted);;
          let request_id := _connect_request_serial (requests w) + 1 in
          e ← send_connect k targeted manual (_generation w) request_id;
          match e with
          | Some e => _connect_failed (_request_connect fuel Bredr false) k e (_generation w) request_id
          | None => mret ()
          end
  end.


(** A dial within a dial is targeted, and a targeted one does not look again. *)
Definition FUEL : nat := 2.
Definition request_connect : kind → bool → M World () := _request_connect FUEL.
Definition update_state : kind → option bool → bool → bool → M World () := _update_state (request_connect Bredr false).
Definition refresh_le_state : bool → M World (option bool) := _refresh_le_state (request_connect Bredr false) (poll env).
Definition connect_failed : kind → failure → Z → Z → M World () := _connect_failed (request_connect Bredr false).

Definition _refresh_states : M World (option bool * option bool) :=
  w ← get;
  let previous := _states w in
  bredr ← _read (poll env) Bredr;
  update_state Bredr bredr false false;;
  le ← refresh_le_state false;
  w ← get;
  let changed := negb (bool_decide (Bearer.bredr previous = Bearer.bredr (_states w) ∧ Bearer.le previous = Bearer.le (_states w)))
                 || _status_dirty w in
  modify (λ w : World, w <| _status_dirty := false |>);;
  when changed (emit OnStatus);;
  mret (bredr, le).

(** ** The LE dial after Classic has settled *)

Definition _cancel_le_settle : M World () := modify (λ w : World, w <| _le_settle := false |>).

Definition _schedule_le_connect : M World () :=
  w ← get;
  if bool_decide (_le_api_available w = Some false) || _bluez_blocked env || is_some (_profile_reset_phase w)
     || _profile_busy env || _le_settle w || _disconnecting w || _le_dial_exhausted w
  then mret ()
  else modify (λ w : World, w <| _le_settle := true |>).

Definition _connect_le_after_settle : M World () :=
  modify (λ w : World, w <| _le_settle := false |>);;
  w ← get;
  if negb (_running w) || _bluez_blocked env || is_some (_profile_reset_phase w) || _profile_busy env then mret ()
  else
    '(bredr, le) ← _refresh_states;
    w ← get;
    if is_true bredr && is_false le && _le_enabled w && negb (bool_decide (_le_api_available w = Some false)) then
      _restore_le_preference;;
      request_connect Le false
    else when (is_false bredr) (request_connect Bredr false).

(** ** Disconnecting LE *)

Definition _complete_le_reset : M World () :=
  w ← get;
  let down_seen := _le_reset_pending (reset w) && _le_reset_down_seen (reset w) in
  set_reset (λ r, r <| _le_reset_pending := false |> <| _le_reset_down_seen := false |>
    <| _le_reset_failures := 0 |> <| _next_le_reset_attempt := 0 |>);;
  when (negb down_seen) (update_state Le (Some false) true true);;
  w ← get;
  when (is_true (bredr (_states w)) && _le_enabled w && negb (is_true (le (_states w)))) _schedule_le_connect.

Definition _disconnect_succeeded (generation : Z) : M World () :=
  w ← get;
  if negb (generation =? _generation w) then mret ()
  else
    modify (λ w : World, w <| _disconnecting := false |>);;
    when (_le_reset_pending (reset w)) _complete_le_reset.

Definition _disconnect_failed (e : failure) (generation : Z) : M World () :=
  w ← get;
  if negb (generation =? _generation w) then mret ()
  else
    modify (λ w : World, w <| _disconnecting := false |>);;
    if negb (_le_reset_pending (reset w)) then mret ()
    else if already_down e then _complete_le_reset
    else
      modify (λ w : World, w <| reset ::= λ r,
        let failures := _le_reset_failures r + 1 in
        r <| _le_reset_failures := failures |>
          <| _next_le_reset_attempt := clock w + Z.min (POLL_SECONDS * 2 ^ failures) BACKOFF_CAP_SECONDS |> |>).

Definition _request_le_disconnect (force : bool) : M World () :=
  w ← get;
  if bool_decide (_le_api_available w = Some false) || _bluez_blocked env || is_some (_profile_reset_phase w) || _profile_busy env
  then mret ()
  else if _disconnecting w || le (_connecting (requests w)) && negb force then mret ()
  else if negb force && (clock w <? _next_le_reset_attempt (reset w)) then mret ()
  else
    granted ← (if negb force && negb (_le_reset_failures (reset w) =? 0) then take_budget else mret true);
    if negb granted then mret ()
    else
      modify (λ w : World, w <| _disconnecting := true |>
        <| bond ::= λ b, b <| _own_le_disconnect_at := Some (clock w) |> |>);;
      emit (Hangup force (clock w));;
      match disconnect_raises env with
      | Some e => _disconnect_failed e (_generation w)
      | None => send (Disconnect (_generation w))
      end.

(** [started >= since]: a reset that already answers the caller's outage. *)
Definition answered (started since : option Z) : bool :=
  match since, started with Some s, Some t => s <=? t | _, _ => false end.
Definition recover_le_transport (allow_disconnected : bool) (since : option Z) : M World bool :=
  w ← get;
  let wanted := _le_reset_wanted (reset w) in
  set_reset (λ r, r <| _le_reset_wanted := None |>);;
  if negb (_running w) || bool_decide (_le_api_available w = Some false) then mret false
  else if is_some (_profile_reset_phase w) then mret false
  else if is_false (le (_states w)) && negb allow_disconnected then mret false
  else
    granted ← (if _le_reset_pending (reset w) then mret true else take_budget);
    if negb granted then
      if answered (_le_reset_started_at (reset w)) since then
        set_reset (λ r, r <| _le_reset_wanted := wanted |>);; mret true
      else
        set_reset (λ r, r <| _le_reset_wanted := Some (allow_disconnected || default false wanted) |>);; mret false
    else
      when (negb (_le_reset_pending (reset w)))
        (modify (λ w : World, w <| reset ::= λ r, r <| _le_reset_down_seen := false |> <| _le_reset_started_at := Some (clock w) |> |>));;
      modify (λ w : World, w <| _le_dial_spent := false |> <| reset ::= λ r, r <| _le_reset_pending := true |> |>);;
      _cancel_le_settle;;
      when (_le_enabled w) (_request_le_disconnect false);;
      mret true.

(** ** The poll *)

Definition settle_bearers (bredr le : option bool) : M World () :=
  when (negb (is_true bredr)) _cancel_le_settle;;
  w ← get;
  if is_false bredr then request_connect Bredr false
  else if is_true bredr && is_false le && _le_enabled w then
    _restore_le_preference;;
    w ← get;
    when (negb (Bearer.bredr (_connecting (requests w)))) _schedule_le_connect
  else when (is_true le) _cancel_le_settle.

Definition _tick : M World () :=
  w ← get;
  if negb (_running w) || _bluez_blocked env then mret ()
  else
    '(bredr, le) ← _refresh_states;
    _age_le_evidence;;
    w ← get;
    if is_some (_profile_reset_phase w) || _profile_busy env || _disconnecting w then mret ()
    else
      match _le_reset_wanted (reset w) with
      | Some allow => recover_le_transport allow None;; mret ()
      | None => mret ()
      end;;
      w' ← get;
      if is_some (_le_reset_wanted (reset w)) && _disconnecting w' then mret ()
      else if _le_reset_pending (reset w') && _le_enabled w' then
        match le with
        | Some false => _complete_le_reset;; settle_bearers bredr le
        | Some true => _request_le_disconnect false
        | None => mret ()
        end
      else settle_bearers bredr le.

(** ** The requests of the daemon *)

Definition busy (w : World) : bool :=
  busy_connecting w || _disconnecting w || is_some (_profile_reset_phase w) || _profile_busy env.
Definition can_change_profiles (w : World) : bool :=
  _running w && negb (_bluez_blocked env) && negb (busy w) && negb (_le_reset_pending (reset w)) && negb (_manual_dial w).

Definition _start_le_watch : M World () :=
  modify (λ w : World, w <| _unwatch_le ::= λ b, b || negb (watch_le_raises env) |>).
Definition _start_bredr_watch : M World () :=
  modify (λ w : World, w <| _unwatch_bredr ::= λ b, b || negb (watch_bredr_raises env) |>).

Definition start : M World () :=
  w ← get;
  if _running w then mret ()
  else
    modify (λ w : World, w <| _running := true |>);;
    _start_le_watch;;
    _start_bredr_watch;;
    _tick;;
    modify (λ w : World, w <| _timer := true |>).

Definition enable_le : M World () :=
  w ← get;
  if _le_enabled w then mret ()
  else
    modify (λ w : World, w <| _le_enabled := true |>);;
    when (negb (is_true (le (_states w))))
      (modify (λ w : World, w <| _le_preference_restore_pending := true |>);; _restore_le_preference);;
    w ← get;
    when (_running w) _tick.

Definition hold_le : M World () :=
  modify (λ w : World, w <| _le_enabled := false |>);;
  _cancel_le_settle;;
  w ← get;
  when (le (_connecting (requests w))) (_request_le_disconnect true).

Definition poke : M World () := w ← get; when (_running w) _tick.

Definition observe_ancs_health (healthy : bool) (proof : option Z) : M World () :=
  when healthy (set_reset (λ r, r <| _le_reset_wanted := None |>));;
  observe_budget healthy proof.

Definition _abort_profile_reset : M World () :=
  modify (λ w : World, w <| _profile_reset_phase := None |> <| _profile_reset_timer := false |>).

(** The requests, and everything that a reply could refer to, are dropped. *)
Definition drop_operations : M World () :=
  modify (λ w : World, w <| _generation ::= Z.succ |> <| requests ::= λ r, no_requests (_connect_request_serial r) |>
    <| _disconnecting := false |>);;
  _set_le_dial_active false;;
  modify (λ w : World, w <| _le_targeting_hint := false |> <| _le_preference_restore_pending := false |>
    <| _le_dial_spent := false |>
    <| reset ::= λ r, r <| _le_reset_pending := false |> <| _le_reset_wanted := None |> |>).
Definition forget_damping : M World () :=
  set_pace (λ p, p <| _bredr_resting := false |> <| _bredr_remote_closed := false |> <| _bredr_last_failed := false |>
    <| _presence_seen_at := None |>).

(** What belonged to the bluetoothd that went away. *)
Definition forget_bluez : M World () :=
  modify (λ w : World, w <| _le_api_available := None |> <| _legacy_observation := None |>);;
  drop_operations;;
  set_reset (λ r, r <| _le_reset_failures := 0 |> <| _next_le_reset_attempt := 0 |>);;
  _cancel_le_settle;;
  modify (λ w : World, w <| _states := both None |> <| pace ::= λ p,
    p <| _failures := both 0 |> <| _next_attempt := both 0 |> <| _connected_since := both None |>
      <| _le_dwell_should_forgive_classic := false |> <| _last_errors := both None |> |>);;
  _clear_le_flaps false;;
  set_bond (λ b, b <| _le_disconnect_signal_seen := false |> <| _le_link_up_at := None |> <| _own_le_disconnect_at := None |>);;
  forget_damping;;
  _abort_profile_reset.

Definition reset_after_bluez_restart : M World () :=
  w ← get;
  let previous := _states w in
  forget_bluez;;
  emit (OnLeState None);;
  when (is_some (bredr previous) || is_some (le previous)) (emit OnStatus);;
  w ← get;
  when (_running w) _tick.

Definition stop : M World () :=
  modify (λ w : World, w <| _running := false |> <| _legacy_observation := None |>);;
  drop_operations;;
  _cancel_le_settle;;
  modify (λ w : World, w <| _unwatch_le := false |> <| _unwatch_bredr := false |> <| _manual_dial := false |>);;
  _abort_profile_reset;;
  forget_damping;;
  modify (λ w : World, w <| _timer := false |>).

(** The Classic backoff is forgotten before a deliberate dial. *)
Definition forget_classic_backoff : M World () :=
  set_pace (λ p, p <| _bredr_resting := false |> <| _bredr_remote_closed := false |> <| _bredr_last_failed := false |>
    <| _failures ::= upd Bredr 0 |> <| _next_attempt ::= upd Bredr 0 |>).

Definition reconnect_now : M World string :=
  w ← get;
  if negb (_running w) then mret "unavailable"
  else if _bluez_blocked env then mret "bluez-unresponsive"
  else if is_some (_profile_reset_phase w) || _profile_busy env then mret "in-progress"
  else if is_true (bredr (_states w)) then mret "connected"
  else if busy_connecting w || _manual_dial w then mret "in-progress"
  else
    forget_classic_backoff;;
    set_pace (λ p, p <| _last_errors ::= upd Bredr None |>);;
    modify (λ w : World, w <| _manual_dial := true |>);;
    _publish_reconnect;;
    mret "started".

Definition _manual_dial_now : M World () :=
  modify (λ w : World, w <| _manual_dial := false |>);;
  w ← get;
  if negb (_running w) || _bluez_blocked env || is_true (bredr (_states w)) then mret ()
  else
    request_connect Bredr true;;
    _publish_reconnect.

Definition _profile_reset_disconnected (generation : Z) : M World () :=
  w ← get;
  if negb (generation =? _generation w) || negb (bool_decide (_profile_reset_phase w = Some disconnecting)) then mret ()
  else
    set_reset (λ r, r <| _le_reset_wanted := None |>);;
    modify (λ w : World, w <| _profile_reset_phase := Some settling |> <| _profile_reset_timer := true |>).

Definition _profile_reset_disconnect_failed (e : failure) (generation : Z) : M World () :=
  w ← get;
  if negb (generation =? _generation w) || negb (bool_decide (_profile_reset_phase w = Some disconnecting)) then mret ()
  else if already_down e then _profile_reset_disconnected generation
  else
    modify (λ w : World, w <| _profile_reset_phase := None |>);;
    _publish_reconnect.

Definition reset_profiles : M World string :=
  w ← get;
  if negb (_running w) then mret "unavailable"
  else if _bluez_blocked env then mret "bluez-unresponsive"
  else if is_some (_profile_reset_phase w) || _profile_busy env || _le_reset_pending (reset w) || busy_connecting w
          || _disconnecting w || _manual_dial w
  then mret "in-progress"
  else if negb (is_true (bredr (_states w))) then mret "disconnected"
  else
    _cancel_le_settle;;
    modify (λ w : World, w <| _profile_reset_phase := Some disconnecting |>
      <| bond ::= λ b, b <| _own_le_disconnect_at := Some (clock w) |> |>);;
    _publish_reconnect;;
    emit (HangupDevice (clock w));;
    match disconnect_raises env with
    | Some e => _profile_reset_disconnect_failed e (_generation w)
    | None => send (DisconnectDevice (_generation w))
    end;;
    mret "started".

Definition _profile_reset_reconnect : M World () :=
  modify (λ w : World, w <| _profile_reset_timer := false |>);;
  w ← get;
  if negb (bool_decide (_profile_reset_phase w = Some settling)) then mret ()
  else
    modify (λ w : World, w <| _profile_reset_phase := None |>);;
    if negb (_running w) || _bluez_blocked env then _publish_reconnect
    else
      bredr ← _read (poll env) Bredr;
      update_state Bredr bredr false true;;
      le ← _read (poll env) Le;
      update_state Le le false true;;
      if is_true bredr then _publish_reconnect
      else
        forget_classic_backoff;;
        request_connect Bredr true;;
        _publish_reconnect.

(** ** Signals of BlueZ *)

Definition note_le_usable : M World () := _clear_le_flaps true.

Definition _observe_signalled_le (connected : bool) : M World () :=
  w ← get;
  if bool_decide (le (_states w) = Some connected) then mret ()
  else update_state Le (Some connected) true false.

Definition _on_le_disconnected_signal (name : string) : M World () :=
  w ← get;
  if negb (_running w) then mret ()
  else
    _count_le_disconnect name;;
    _observe_signalled_le false.

(** The properties of the signal that matter: RSSI, Connected, and whether
    Paired or Bonded became true. *)
Record changes := mkChanges { c_rssi : bool; c_connected : option bool; c_bond : bool }.
Definition _on_le_properties_changed (interface : string) (changed : changes) : M World () :=
  w ← get;
  if negb (_running w) then mret ()
  else
    when (String.eqb interface "org.bluez.Device1" && c_rssi changed) (_note_presence true);;
    match c_connected changed with
    | Some connected =>
        if String.eqb interface "org.bluez.Bearer.LE1" then
          modify (λ w : World, w <| _le_api_available := Some true |>);;
          when connected (modify (λ w : World, w <| bond ::= λ b, b <| _le_link_up_at := Some (clock w) |> |>));;
          _observe_signalled_le connected
        else mret ()
    | None => mret ()
    end;;
    when (among interface ["org.bluez.Bearer.LE1"; "org.bluez.Device1"] && c_bond changed) (_clear_le_flaps true).

Definition _on_bredr_disconnected_signal (name : string) : M World () :=
  w ← get;
  if negb (_running w) then mret ()
  else if negb (bool_decide (_LE_DISCONNECT_REASONS name = remote)) || is_true (le (_states w)) then mret ()
  else if _le_enabled w && is_false (le (_states w)) && negb (_classic_connect_should_be_targeted w) && negb (sighted w)
  then _enter_bredr_resting
  else set_pace (λ p, p <| _bredr_remote_closed := true |>).

(** ** Events *)

(** What the main loop dispatches: requests of the daemon, timers, signals,
    and the reply to the [i]-th outstanding call. *)
Inductive event :=
  | EStart | EStop | EEnableLe | EHoldLe | EPoke | EBluezRestart
  | EAncsHealth (healthy : bool) (proof : option Z)
  | ERecover (allow_disconnected : bool) (since : option Z)
  | EReconnectNow | EResetProfiles | ELeUsable
  | ETick | ESettle | EManualDial | EProfileTimer
  | ELeDisconnected (name : string)
  | ELeProperties (interface : string) (changed : changes)
  | EBredrDisconnected (name : string)
  | EReply (i : nat) (outcome : option failure)
  | ETime (d : Z).

Definition on_reply (c : call) (outcome : option failure) : M World () :=
  match c, outcome with
  | Connect k generation id, None => _connect_succeeded k generation id
  | Connect k generation id, Some e => connect_failed k e generation id
  | Disconnect generation, None => _disconnect_succeeded generation
  | Disconnect generation, Some e => _disconnect_failed e generation
  | DisconnectDevice generation, None => _profile_reset_disconnected generation
  | DisconnectDevice generation, Some e => _profile_reset_disconnect_failed e generation
  end.

Definition step (e : event) : M World () :=
  match e with
  | EStart => start
  | EStop => stop
  | EEnableLe => enable_le
  | EHoldLe => hold_le
  | EPoke => poke
  | EBluezRestart => reset_after_bluez_restart
  | EAncsHealth healthy proof => observe_ancs_health healthy proof
  | ERecover allow since => recover_le_transport allow since;; mret ()
  | EReconnectNow => reconnect_now;; mret ()
  | EResetProfiles => reset_profiles;; mret ()
  | ELeUsable => note_le_usable
  | ETick => w ← get; when (_timer w) _tick
  | ESettle => w ← get; when (_le_settle w) _connect_le_after_settle
  | EManualDial => w ← get; when (_manual_dial w) _manual_dial_now
  | EProfileTimer => w ← get; when (_profile_reset_timer w) _profile_reset_reconnect
  | ELeDisconnected name => w ← get; when (_unwatch_le w) (_on_le_disconnected_signal name)
  | ELeProperties interface changed => w ← get; when (_unwatch_le w) (_on_le_properties_changed interface changed)
  | EBredrDisconnected name => w ← get; when (_unwatch_bredr w) (_on_bredr_disconnected_signal name)
  | EReply i outcome =>
      w ← get;
      match calls w !! i with
      | None => mret ()
      | Some c => modify (λ w : World, w <| calls ::= delete i |>);; on_reply c outcome
      end
  | ETime d => modify (λ w : World, w <| clock ::= λ c, c + Z.max 0 d |>)
  end.
End env.

Definition run (es : list (Env * event)) (w : World) : World := run_all ((λ '(env, e), step env e) <$> es) w.

(** ** A morning *)

Definition quiet : Readings := mkReadings (Got false) (Got false) (Got false) (Got false).
Definition calm : Env := mkEnv false false true true quiet quiet (λ _ _, None) None (Got "le") None false false.
Definition seeing (b l : bool) : Env := calm <| poll := mkReadings (Got b) (Got l) (Got (b || l)) (Got (b || l)) |>.

(** The phone comes: Classic first, then LE after the settling time, and the
    backoff is forgiven. *)
Definition morning : list (Env * event) :=
  [(calm, EStart); (calm, EReply 0 None); (calm, ETime (sec 10)); (seeing true false, ETick); (seeing true false, EEnableLe);
   (seeing true false, ETick); (seeing true false, ESettle); (calm, EReply 0 None); (seeing true true, ETick)].
Example morning_dials : let w := run morning (World_init false 0) in
  (List.filter (λ a, match a with Dial _ _ _ _ => true | _ => false end) (log w), _states w, busy_connecting w) =
  ([Dial Bredr false false 0; Dial Le false false (sec 10)], both (Some true), false).
Proof. vm_compute. reflexivity. Qed.
