(* ===== verification/BearerSafety.v ===== *)
(** * BearerSafety: requests of the bearer supervisor never overlap and never
    hang (src/blueferry/bearer_supervisor.py).

    [ok] is the invariant of the requests in flight: every operation the
    supervisor believes to be running has a D-Bus call BlueZ still owes an
    answer to, a deadline, or a timer. *)
From S2P Require Import Prelude LeBudget Bearer.

(** ** What most of the code leaves alone *)

(** The part of the state that says which operations are running. *)
Record core := mkCore {
  c_requests : Requests;
  c_disconnecting : bool;
  c_dial : bool;
  c_phase : option phase;
  c_ptimer : bool;
  c_generation : Z;
  c_calls : list call;
  c_running : bool;
  c_timer : bool;
  c_manual : bool;
  c_settle : bool;
  c_pending : bool;
  c_le : option bool;
  c_clock : Z;
}.
Definition core_of (w : World) : core :=
  mkCore (requests w) (_disconnecting w) (_le_dial_active w) (_profile_reset_phase w) (_profile_reset_timer w)
    (_generation w) (calls w) (_running w) (_timer w) (_manual_dial w) (_le_settle w) (_le_reset_pending (reset w)) (le (_states w)) (clock w).
Definition aside : relation World := λ w w', core_of w' = core_of w.
#[export] Instance aside_preorder : PreOrder aside.
Proof. split; unfold aside; [by intros ?|intros ? ? ? -> ->]; done. Qed.

Ltac aside := tame; reflexivity.

Lemma emit_aside a : tame aside (emit a).
Proof. unfold emit. aside. Qed.
#[export] Hint Resolve emit_aside : tame.
Lemma set_pace_aside f : tame aside (set_pace f).
Proof. unfold set_pace. aside. Qed.
Lemma set_bond_aside f : tame aside (set_bond f).
Proof. unfold set_bond. aside. Qed.
#[export] Hint Resolve set_pace_aside set_bond_aside : tame.
Lemma publish_aside : tame aside _publish_reconnect.
Proof. unfold _publish_reconnect. aside. Qed.
#[export] Hint Resolve publish_aside : tame.
Lemma enter_resting_aside : tame aside _enter_bredr_resting.
Proof. unfold _enter_bredr_resting. aside. Qed.
#[export] Hint Resolve enter_resting_aside : tame.
Lemma record_failure_aside k b : tame aside (_record_failure k b).
Proof. unfold _record_failure. aside. Qed.
Lemma note_presence_aside b : tame aside (_note_presence b).
Proof. unfold _note_presence. aside. Qed.
Lemma rearm_aside : tame aside _rearm_le_dial.
Proof. unfold _rearm_le_dial. aside. Qed.
Lemma forgive_aside : tame aside _reset_classic_backoff_from_le.
Proof. unfold _reset_classic_backoff_from_le. aside. Qed.
#[export] Hint Resolve record_failure_aside note_presence_aside rearm_aside forgive_aside : tame.
Lemma stable_aside k : tame aside (_clear_backoff_if_stable k).
Proof. unfold _clear_backoff_if_stable. aside. Qed.
Lemma reset_burst_aside : tame aside _reset_le_burst.
Proof. unfold _reset_le_burst. aside. Qed.
Lemma clear_flaps_aside b : tame aside (_clear_le_flaps b).
Proof. unfold _clear_le_flaps. aside. Qed.
#[export] Hint Resolve stable_aside reset_burst_aside clear_flaps_aside : tame.
Lemma count_drop_aside b t : tame aside (count_le_drop b t).
Proof. unfold count_le_drop. aside. Qed.
#[export] Hint Resolve count_drop_aside : tame.
Lemma record_drop_aside env d r : tame aside (_record_le_drop env d r).
Proof. unfold _record_le_drop. aside. Qed.
Lemma flaps_held_aside : tame aside _clear_le_flaps_if_held.
Proof. unfold _clear_le_flaps_if_held. aside. Qed.
Lemma age_aside env : tame aside (_age_le_evidence env).
Proof. unfold _age_le_evidence. aside. Qed.
#[export] Hint Resolve record_drop_aside flaps_held_aside age_aside : tame.
Lemma count_disconnect_aside env name : tame aside (_count_le_disconnect env name).
Proof. unfold _count_le_disconnect. aside. Qed.
Lemma observe_budget_aside b p : tame aside (observe_budget b p).
Proof. unfold observe_budget. aside. Qed.
#[export] Hint Resolve count_disconnect_aside observe_budget_aside : tame.
Lemma note_le_value_aside v p : tame aside (note_le_value v p).
Proof. unfold note_le_value, set_reset. aside. Qed.
Lemma note_le_lost_aside env b : tame aside (note_le_lost env b).
Proof. unfold note_le_lost. aside. Qed.
Lemma note_bredr_value_aside v p : tame aside (note_bredr_value v p).
Proof. unfold note_bredr_value. aside. Qed.
Lemma note_connected_aside k p : tame aside (note_connected k p).
Proof. unfold note_connected. aside. Qed.
Lemma note_disconnected_aside k : tame aside (note_disconnected k).
Proof. unfold note_disconnected. aside. Qed.
#[export] Hint Resolve note_le_value_aside note_le_lost_aside note_bredr_value_aside note_connected_aside note_disconnected_aside : tame.

Lemma prefer_aside env k : tame aside (_prefer_bluez env k).
Proof. unfold _prefer_bluez. aside. Qed.
#[export] Hint Resolve prefer_aside : tame.
Lemma restore_aside env : tame aside (_restore_le_preference env).
Proof. unfold _restore_le_preference. aside. Qed.
#[export] Hint Resolve restore_aside : tame.

Lemma property_cases {A} (r : reply A) (w : World) : (∃ a, get_property r w = (Ok a, w)) ∨ (∃ e, get_property r w = (Raise e, w)).
Proof. destruct r; cbn; eauto. Qed.
Lemma connected_property_aside rs k : keeps aside (_connected_property rs k).
Proof.
  unfold _connected_property, get_property. intros w.
  destruct k; repeat (case_match; subst); unfold mbind, M_bind; cbn; done.
Qed.
Lemma read_aside rs k : tame aside (_read rs k).
Proof.
  intros w. unfold wp, _read. pose proof (connected_property_aside rs k w) as H.
  destruct (_connected_property rs k w) as [[v|e] w']; exact H.
Qed.
#[export] Hint Resolve read_aside : tame.

Lemma take_ok now b : ∃ r, (take now b).1 = Ok r.
Proof.
  unfold take. unfold mbind, M_bind, get, put. cbn beta iota. case_match; cbn; eauto.
Qed.
Lemma take_budget_aside : tame aside take_budget.
Proof.
  intros w. unfold take_budget, wp, mbind, M_bind, get. destruct (take_ok (clock w) (_le_recovery_budget w)) as [r E].
  destruct (take _ _) as [o b]. cbn in E. subst o. done.
Qed.
#[export] Hint Resolve take_budget_aside : tame.

(** What leaves the observed LE state alone. *)
Definition steady : relation World := λ w w', le (_states w') = le (_states w).
#[export] Instance steady_preorder : PreOrder steady.
Proof. split; unfold steady; [by intros ?|intros ? ? ? H1 H2; congruence]. Qed.
Lemma tame_mono {A} (R R' : relation World) (m : M World A) : (∀ w w', R w w' → R' w w') → tame R m → tame R' m.
Proof. intros HR Hm w. eapply wp_mono; [apply Hm|]. intros a w'. apply HR. Qed.
Lemma aside_steady {A} (m : M World A) : tame aside m → tame steady m.
Proof. apply tame_mono. intros w w' E. by injection E. Qed.
#[export] Hint Extern 1 (tame steady _) => (apply aside_steady; solve [auto 1 with tame nocore]) : tame.

Ltac steady := tame; reflexivity.
Lemma dial_steady b : tame steady (_set_le_dial_active b).
Proof. unfold _set_le_dial_active. steady. Qed.
Lemma clear_steady k : tame steady (_clear_connect_request k).
Proof. unfold _clear_connect_request, set_requests. steady. Qed.
#[export] Hint Resolve dial_steady clear_steady : tame.
Lemma settle_steady k v : tame steady (_settle_in_progress_connect k v).
Proof. unfold _settle_in_progress_connect. steady. Qed.
#[export] Hint Resolve settle_steady : tame.
Lemma wp_tame {A B} R (m : M World A) (f : A → M World B) Q w : tame R m →
  (∀ a w', R w w' → wp (f a) Q w') → wp (m ≫= f) Q w.
Proof. intros Hm Hf. apply wp_bind. eapply wp_mono; [apply Hm|]. intros a w' E. by apply Hf. Qed.
Lemma observe_le env k v d n w : wp (observe_state env k v d n) (λ _ w', k = Le → le (_states w') = v) w.
Proof.
  unfold observe_state. apply (wp_tame steady); [auto with tame|]. intros _ w1 _. apply wp_get, wp_modify.
  set (w2 := w1 <| _states ::= upd k v |>). assert (E : k = Le → le (_states w2) = v) by by intros ->. clearbody w2.
  assert (Ht : ∀ m : M World (), tame steady m → wp m (λ _ w', k = Le → le (_states w') = v) w2).
  { intros m Hm. eapply wp_mono; [apply Hm|]. intros a w3 E3 Hk. rewrite E3. by apply E. }
  apply Ht. destruct k, v as [[]|], n; steady.
Qed.

(** ** The invariant *)

Lemma wp_aside {A B} (m : M World A) (f : A → M World B) Q w : tame aside m →
  (∀ a w', core_of w' = core_of w → wp (f a) Q w') → wp (m ≫= f) Q w.
Proof. intros Hm Hf. apply wp_bind. eapply wp_mono; [apply Hm|]. intros a w' E. by apply Hf. Qed.
Ltac skip := (apply wp_aside; [by auto with tame|]).

Section life.
(** Whether the supervisor runs and polls. *)
Context (life : bool * bool).

Record ok (h : list call) (w : World) : Prop := {
  k_one : bredr (_connecting (requests w)) && le (_connecting (requests w)) = false;
  k_dial : _le_dial_active w = le (_connecting (requests w));
  k_ids : ∀ k, is_some (sel k (_connect_request_ids (requests w))) = sel k (_connecting (requests w));
  k_deadline : ∀ k, sel k (_connect_observation_deadlines (requests w)) ≠ None → sel k (_connecting (requests w)) = true;
  k_owed : ∀ k id, sel k (_connect_request_ids (requests w)) = Some id →
    sel k (_connect_observation_deadlines (requests w)) = None → Connect k (_generation w) id ∈ h ++ calls w;
  k_disconnect : _disconnecting w = true → Disconnect (_generation w) ∈ h ++ calls w;
  k_device : _profile_reset_phase w = Some disconnecting → DisconnectDevice (_generation w) ∈ h ++ calls w;
  k_settling : _profile_reset_timer w = bool_decide (_profile_reset_phase w = Some settling);
  k_phase : _profile_reset_phase w ≠ None → busy_connecting w = false ∧ _disconnecting w = false ∧ _manual_dial w = false ∧
    _le_reset_pending (reset w) = false ∧ _le_settle w = false;
  k_life : (_running w, _timer w) = life;
  k_serial : ∀ k id, sel k (_connect_request_ids (requests w)) = Some id → id <= _connect_request_serial (requests w);
}.

Lemma ok_core h w w' : core_of w' = core_of w → ok h w → ok h w'.
Proof.
  intros E []. injection E as E1 E2 E3 E4 E5 E6 E7 E8 E9 E10 E11 E12 E13.
  split; unfold busy_connecting in *; rewrite ?E1, ?E2, ?E3, ?E4, ?E5, ?E6, ?E7, ?E8, ?E9, ?E10, ?E11, ?E12; assumption.
Qed.
Lemma aside_wp {A} (m : M World A) h w : tame aside m → ok h w → wp m (λ _, ok h) w.
Proof. intros Hm Hw. eapply wp_mono; [apply Hm|]. intros a w' E. exact (ok_core h w w' E Hw). Qed.

Lemma sel_upd {A} k (v : A) p : sel k (upd k v p) = v.
Proof. by destruct k. Qed.
Lemma sel_upd_ne {A} k k' (v : A) p : k ≠ k' → sel k (upd k' v p) = sel k p.
Proof. by destruct k, k'. Qed.

(** A request is over. *)
Definition cleared (k : kind) (w : World) : World :=
  w <| requests ::= forget_request k |> <| _le_dial_active ::= λ b, b && bool_decide (k = Bredr) |>.
Lemma cleared_ok h k w : ok h w → ok h (cleared k w).
Proof.
  intros []. split; cbn; try done.
  - destruct k; cbn; [done|apply andb_false_r].
  - destruct k; cbn; [by rewrite andb_true_r|apply andb_false_r].
  - intros k'. destruct (decide (k' = k)) as [->|Hne]; [by rewrite !sel_upd|]. by rewrite !sel_upd_ne.
  - intros k'. destruct (decide (k' = k)) as [->|Hne]; [by rewrite !sel_upd|]. rewrite !sel_upd_ne by done. apply k_deadline0.
  - intros k' id. destruct (decide (k' = k)) as [->|Hne]; [by rewrite !sel_upd|]. rewrite !sel_upd_ne by done. apply k_owed0.
  - intros Hp. destruct (k_phase0 Hp) as [Hb ?]. split; [|done]. revert Hb. unfold busy_connecting. destruct k; cbn.
    + by intros [_ ->]%orb_false_iff.
    + by intros [-> _]%orb_false_iff.
  - intros k' id. destruct (decide (k' = k)) as [->|Hne]; [by rewrite sel_upd|]. rewrite sel_upd_ne by done. apply k_serial0.
Qed.
Definition clear_request (k : kind) : M World () :=
  _clear_connect_request k;; match k with Le => _set_le_dial_active false | Bredr => mret () end.
Lemma clear_wp {A} k (m : M World A) Q w : (∀ w', core_of w' = core_of (cleared k w) → wp m Q w') →
  wp (_clear_connect_request k;; match k with Le => _set_le_dial_active false | Bredr => mret () end;; m) Q w.
Proof.
  intros Hm. unfold _clear_connect_request, set_requests. apply wp_modify. apply wp_bind. destruct k.
  - apply Hm. unfold core_of, cleared. cbn. by rewrite andb_true_r.
  - unfold _set_le_dial_active. apply wp_get.
    match goal with |- context [_le_dial_active ?x] => change (_le_dial_active x) with (_le_dial_active w) end.
    destruct (_le_dial_active w) eqn:E; cbn [Bool.eqb]; apply Hm; unfold core_of, cleared; cbn; by rewrite ?E.
Qed.

(** The call being handled is no longer awaited. *)
Lemma ok_drop_connect h k g id w : ok (Connect k g id :: h) w → current_request k g id w = false → ok h w.
Proof.
  intros [] Hc. split; try done.
  - intros k' id' Hid Hd. specialize (k_owed0 k' id' Hid Hd). apply elem_of_cons in k_owed0 as [[= -> <- <-]|?]; [|done].
    unfold current_request in Hc. rewrite Z.eqb_refl, bool_decide_true in Hc by done. discriminate.
  - intros Hd. specialize (k_disconnect0 Hd). by apply elem_of_cons in k_disconnect0 as [?|?].
  - intros Hd. specialize (k_device0 Hd). by apply elem_of_cons in k_device0 as [?|?].
Qed.
Lemma ok_drop_disconnect h g w : ok (Disconnect g :: h) w → (g =? _generation w) && _disconnecting w = false → ok h w.
Proof.
  intros [] Hc. split; try done.
  - intros k' id' Hid Hd. specialize (k_owed0 k' id' Hid Hd). by apply elem_of_cons in k_owed0 as [?|?].
  - intros Hd. specialize (k_disconnect0 Hd). apply elem_of_cons in k_disconnect0 as [[= <-]|?]; [|done].
    rewrite Z.eqb_refl, Hd in Hc. discriminate.
  - intros Hd. specialize (k_device0 Hd). by apply elem_of_cons in k_device0 as [?|?].
Qed.
Lemma ok_drop_device h g w : ok (DisconnectDevice g :: h) w →
  (g =? _generation w) && bool_decide (_profile_reset_phase w = Some disconnecting) = false → ok h w.
Proof.
  intros [] Hc. split; try done.
  - intros k' id' Hid Hd. specialize (k_owed0 k' id' Hid Hd). by apply elem_of_cons in k_owed0 as [?|?].
  - intros Hd. specialize (k_disconnect0 Hd). by apply elem_of_cons in k_disconnect0 as [?|?].
  - intros Hd. specialize (k_device0 Hd). apply elem_of_cons in k_device0 as [[= <-]|?]; [|done].
    rewrite Z.eqb_refl, bool_decide_true in Hc by done. discriminate.
Qed.

(** ** Dialing *)

Lemma wp_ok {A B} (m : M World A) (f : A → M World B) Q h w : wp m (λ _, ok h) w →
  (∀ a w', ok h w' → wp (f a) Q w') → wp (m ≫= f) Q w.
Proof. intros Hm Hf. apply wp_bind. eapply wp_mono; [apply Hm|]. intros a w' E. by apply Hf. Qed.

Lemma settle_ok h k v w : ok h w → wp (_settle_in_progress_connect k v) (λ _, ok h) w.
Proof.
  intros Hw. unfold _settle_in_progress_connect. apply wp_get.
  destruct (sel k (_connect_observation_deadlines (requests w))) as [t|]; [|done].
  destruct (_ && _); [done|]. apply clear_wp. intros w' E. apply (ok_core h) in E; [|by apply cleared_ok].
  destruct (is_true v); [done|]. apply aside_wp; [|done]. aside.
Qed.

(** What a nested dial must satisfy: it runs once LE is known to be up. *)
Definition nested_ok (request : M World ()) : Prop :=
  ∀ h w, ok h w → _classic_connect_should_be_targeted w = true → wp request (λ _, ok h) w.

Lemma ok_states h w k v : ok h w → ok h (w <| _states ::= upd k v |>).
Proof. intros []. by split. Qed.

Lemma retarget_ok request h w : nested_ok request → ok h w → _classic_connect_should_be_targeted w = true →
  wp (_retarget_pending_classic_connect request) (λ _, ok h) w.
Proof.
  intros Hr Hw Ht. unfold _retarget_pending_classic_connect. apply wp_get.
  destruct (_ || _); [done|]. unfold _clear_connect_request, set_requests, set_pace. apply wp_modify, wp_modify.
  apply Hr; [|exact Ht]. refine (ok_core _ _ _ _ (cleared_ok h Bredr w Hw)). unfold core_of. cbn. by rewrite andb_true_r.
Qed.

Lemma observe_ok env h k v d n w : ok h w → wp (observe_state env k v d n) (λ _, ok h) w.
Proof.
  intros Hw. unfold observe_state. eapply wp_ok; [by apply settle_ok|]. clear w Hw. intros _ w Hw.
  apply wp_get, wp_modify. apply (ok_states h w k v) in Hw.
  apply wp_aside; [by destruct k; auto with tame; aside|]. intros _ w2 E2. apply (ok_core _ _ _ E2) in Hw. apply wp_get.
  apply wp_aside; [by destruct k; aside|]. intros _ w3 E3. apply (ok_core _ _ _ E3) in Hw.
  apply wp_aside; [by destruct v as [[]|]; aside|]. intros _ w4 E4. apply (ok_core _ _ _ E4) in Hw.
  apply aside_wp; [|done]. destruct n; aside.
Qed.
Lemma update_state_ok env request h k v d n w : nested_ok request → ok h w →
  wp (_update_state env request k v d n) (λ _, ok h) w.
Proof.
  intros Hr Hw. unfold _update_state. apply wp_bind. pose proof (observe_ok env h k v d n w Hw) as H1.
  pose proof (observe_le env k v d n w) as H2. unfold wp in *. destruct (observe_state env k v d n w) as [[u|x] w1]; [|done].
  destruct k; [by apply (ok_core h w1)|]. destruct (is_true v) eqn:Ev; [|done]. cbn [when].
  apply retarget_ok; [done..|]. unfold _classic_connect_should_be_targeted. by rewrite (H2 eq_refl), Ev, orb_true_r.
Qed.

Lemma refresh_le_ok env request rs h n w : nested_ok request → ok h w → wp (_refresh_le_state env request rs n) (λ _, ok h) w.
Proof.
  intros Hr Hw. unfold _refresh_le_state. apply wp_get. skip. intros v w1 E1. apply (ok_core h _ _ E1) in Hw.
  eapply wp_ok; [by apply update_state_ok|]. intros _ w2 Hw2. apply aside_wp; [|done]. aside.
Qed.

Lemma succeeded_ok env h k g id w : ok (Connect k g id :: h) w → wp (_connect_succeeded env k g id) (λ _, ok h) w.
Proof.
  intros Hw. unfold _connect_succeeded. apply wp_get. destruct (current_request k g id w) eqn:Ec; cbn [negb].
  2:{ by eapply ok_drop_connect. }
  apply clear_wp. intros w' E. apply (cleared_ok _ k) in Hw. apply (ok_core _ _ _ E) in Hw.
  apply (ok_drop_connect h k g id) in Hw.
  2:{ unfold current_request. injection E as -> _ _ _ _ -> _. cbn. rewrite sel_upd. by rewrite bool_decide_false, andb_false_r. }
  apply aside_wp; [|done]. aside.
Qed.
Lemma give_up_ok h k g id p w : ok (Connect k g id :: h) w → wp (give_up_connect k p) (λ _, ok h) w.
Proof.
  intros Hw. unfold give_up_connect. apply clear_wp. intros w' E. apply (cleared_ok _ k) in Hw. apply (ok_core _ _ _ E) in Hw.
  apply (ok_drop_connect h k g id) in Hw.
  2:{ unfold current_request. injection E as -> _ _ _ _ -> _. cbn. rewrite sel_upd. by rewrite bool_decide_false, andb_false_r. }
  apply aside_wp; [|done]. aside.
Qed.

(** A nested dial is only possible for an untyped Classic request. *)
Lemma connect_failed_ok env request h k e g id w : ok (Connect k g id :: h) w →
  (k = Bredr → is_true (bredr (_connect_targeted (requests w))) = false → nested_ok request) →
  wp (_connect_failed env request k e g id) (λ _, ok h) w.
Proof.
  intros Hw Hr. unfold _connect_failed. apply wp_get. destruct (current_request k g id w) eqn:Ec; cbn [negb].
  2:{ by eapply ok_drop_connect. }
  apply andb_true_iff in Ec as [Eg Ei]. apply Z.eqb_eq in Eg. apply bool_decide_eq_true in Ei. subst g.
  destruct (in_progress e).
  { unfold set_requests. destruct Hw. split; cbn; try done.
    - intros k'. destruct (decide (k' = k)) as [->|Hne]; [rewrite sel_upd; intros _; rewrite <- k_ids0, Ei; done|].
      rewrite sel_upd_ne by done. apply k_deadline0.
    - intros k' id'. destruct (decide (k' = k)) as [->|Hne]; [by rewrite sel_upd|]. rewrite sel_upd_ne by done. intros H1 H2.
      specialize (k_owed0 k' id' H1 H2). apply elem_of_cons in k_owed0 as [[= ->]|?]; done.
    - intros Hd. specialize (k_disconnect0 Hd). by apply elem_of_cons in k_disconnect0 as [?|?].
    - intros Hd. specialize (k_device0 Hd). by apply elem_of_cons in k_device0 as [?|?]. }
  destruct (String.eqb _ _); [|by eapply give_up_ok]. destruct (bool_decide (k = Bredr) && _) eqn:Eu; [|by apply succeeded_ok].
  apply andb_true_iff in Eu as [Ek Et]. apply bool_decide_eq_true in Ek as ->. apply negb_true_iff in Et. specialize (Hr eq_refl Et).
  skip. intros v w1 E1. apply (ok_core _ _ _ E1) in Hw. eapply wp_ok; [by apply update_state_ok|]. intros _ w2 Hw2.
  destruct (is_true v); [by apply succeeded_ok|]. eapply wp_ok; [by apply refresh_le_ok|]. intros _ w3 Hw3. apply wp_get.
  destruct (current_request _ _ _ w3) eqn:Ec; cbn [negb]; [by eapply give_up_ok|by eapply ok_drop_connect].
Qed.

(** A request under way. *)
Definition begun (k : kind) (targeted : bool) (w : World) : World :=
  w <| requests ::= begin_request k targeted |> <| _le_dial_active ::= λ b, b || bool_decide (k = Le) |>.
Lemma begun_ok env h k t w : ok h w → may_dial env k w = true →
  ok (Connect k (_generation w) (_connect_request_serial (requests w) + 1) :: h) (begun k t w).
Proof.
  intros [] Hm. unfold may_dial in Hm. apply andb_true_iff in Hm as [[[Hb Hc]%andb_true_iff _]%andb_true_iff _].
  apply negb_true_iff in Hb, Hc. apply orb_false_iff in Hb as [[[_ Hp]%orb_false_iff _]%orb_false_iff Hd].
  apply orb_false_iff in Hc as [Hcb Hcl]. split; cbn [begun].
  - destruct k; cbn; [done|]. by rewrite Hcb.
  - destruct k; cbn; [by rewrite k_dial0, orb_false_r|by rewrite orb_true_r].
  - intros k'. cbn. destruct (decide (k' = k)) as [->|Hne]; [by rewrite !sel_upd|]. rewrite !sel_upd_ne by done. apply k_ids0.
  - intros k'. cbn. destruct (decide (k' = k)) as [->|Hne]; [by rewrite !sel_upd|]. rewrite !sel_upd_ne by done. apply k_deadline0.
  - intros k' id. cbn. destruct (decide (k' = k)) as [->|Hne].
    + rewrite sel_upd. intros [= <-] _. left.
    + rewrite !sel_upd_ne by done. intros H1 H2. right. by apply k_owed0.
  - cbn. rewrite Hd. discriminate.
  - cbn. intros H1. right. by apply k_device0.
  - done.
  - cbn. intros H1. destruct (_profile_reset_phase w); [discriminate|done].
  - done.
  - intros k' id. cbn. destruct (decide (k' = k)) as [->|Hne]; [rewrite sel_upd; intros [= <-]; lia|].
    rewrite sel_upd_ne by done. intros H1. specialize (k_serial0 k' id H1). lia.
Qed.
Lemma ok_sent h c w : ok (c :: h) w → ok h (w <| calls ::= λ l, l ++ [c] |>).
Proof.
  intros []. split; cbn; try done.
  - intros k id H1 H2. specialize (k_owed0 k id H1 H2). set_solver.
  - intros H1. specialize (k_disconnect0 H1). set_solver.
  - intros H1. specialize (k_device0 H1). set_solver.
Qed.

Lemma send_connect_ok env h k t m g id w w1 : ok (Connect k g id :: h) (begun k t w) →
  w1 = w <| requests ::= begin_request k t |> →
  wp (send_connect env k t m g id) (λ e w', match e with
    | Some _ => ok (Connect k g id :: h) w' ∧ bredr (_connect_targeted (requests w')) = bredr (_connect_targeted (begin_request k t (requests w)))
    | None => ok h w' end) w1.
Proof.
  intros Hw ->. unfold send_connect.
  assert (Hsend : ∀ w', core_of w' = core_of (begun k t w) →
    wp (w ← get; emit (Dial k t m (clock w));;
      match connect_raises env k t with Some e => mret (Some e) | None => send (Connect k g id);; mret None end)
     (λ e w', match e with
      | Some _ => ok (Connect k g id :: h) w' ∧ bredr (_connect_targeted (requests w')) = bredr (_connect_targeted (begin_request k t (requests w)))
      | None => ok h w' end) w').
  { intros w' E. apply wp_get. skip. intros _ w2 E2. rewrite E in E2. pose proof (ok_core _ _ _ E2 Hw) as Hw2.
    destruct (connect_raises env k t).
    - split; [done|]. by injection E2 as ->.
    - by apply ok_sent. }
  destruct k.
  - assert (E0 : core_of (w <| requests ::= begin_request Bredr t |>) = core_of (begun Bredr t w)).
    { unfold core_of, begun. cbn. by rewrite orb_false_r. }
    destruct t; [apply Hsend; exact E0|]. apply wp_bind. skip. intros e w2 E2. rewrite E0 in E2. destruct e as [e|].
    + split; [by eapply ok_core|]. by injection E2 as ->.
    + apply Hsend. exact E2.
  - apply wp_bind, wp_bind. unfold _set_le_dial_active. apply wp_get.
    match goal with |- context [_le_dial_active ?x] => change (_le_dial_active x) with (_le_dial_active w) end.
    destruct (_le_dial_active w) eqn:E; cbn [Bool.eqb]; apply Hsend; unfold core_of, begun; cbn; by rewrite E.
Qed.

Lemma request_ok env fuel : ∀ h k m w, ok h w →
  (1 <= fuel)%nat → (k = Bredr → _classic_connect_should_be_targeted w = false → 2 <= fuel)%nat →
  wp (_request_connect env fuel k m) (λ _, ok h) w.
Proof.
  induction fuel as [|fuel IH]; intros h k m w Hw H1 H2; [lia|]. cbn [_request_connect]. apply wp_get.
  destruct (may_dial env k w) eqn:Em; cbn [negb]; [|done].
  assert (Hgo : ∀ w1, core_of w1 = core_of w →
    wp (when (bool_decide (k = Bredr) && _bredr_resting (pace w) && negb m) (emit (Probing (clock w)));;
        let targeted := bool_decide (k = Bredr) && _classic_connect_should_be_targeted w in
        set_requests (begin_request k targeted);;
        let request_id := _connect_request_serial (requests w) + 1 in
        e ← send_connect env k targeted m (_generation w) request_id;
        match e with
        | Some e => _connect_failed env (_request_connect env fuel Bredr false) k e (_generation w) request_id
        | None => mret ()
        end) (λ _, ok h) w1).
  { intros w0 E0. apply wp_aside; [aside|]. intros _ w1 E. rewrite E0 in E. clear w0 E0.
    cbn zeta. set (t := bool_decide (k = Bredr) && _). unfold set_requests. apply wp_modify, wp_bind.
    pose proof (begun_ok env h k t w Hw Em) as Hb. eapply wp_mono.
    - apply (send_connect_ok env h k t m _ _ w1 _); [|done]. refine (ok_core _ _ _ _ Hb).
      injection E as E1 E2 E3 E4 E5 E6 E7 E8 E9 E10 E11 E12 E13. unfold core_of, begun. cbn. congruence.
    - intros [e|] w2; [|done]. intros [Hw2 Ht]. apply connect_failed_ok; [done|]. intros -> Hf h' w3 Hw3 Ht3. apply IH; [done| |congruence].
      rewrite Ht in Hf. cbn in Hf. unfold t in Hf. rewrite bool_decide_true in Hf by done. specialize (H2 eq_refl Hf). lia. }
  destruct k.
  - apply wp_bind. apply (Hgo w). done.
  - apply wp_bind. skip. intros r w1 E1. destruct r; cbn [when].
    + apply wp_modify, Hgo. rewrite <- E1. reflexivity.
    + by apply (ok_core h w w1 E1).
Qed.
Lemma request_connect_ok env h k m w : ok h w → wp (request_connect env k m) (λ _, ok h) w.
Proof. intros Hw. apply request_ok; [done|unfold FUEL; lia|by unfold FUEL; intros; lia]. Qed.
Lemma nested_request env : nested_ok (request_connect env Bredr false).
Proof. intros h w Hw _. by apply request_connect_ok. Qed.

(** ** The other operations *)

Lemma update_ok env h k v d n w : ok h w → wp (update_state env k v d n) (λ _, ok h) w.
Proof. intros Hw. unfold update_state. apply update_state_ok; [apply nested_request|exact Hw]. Qed.
Lemma refresh_ok env h n w : ok h w → wp (refresh_le_state env n) (λ _, ok h) w.
Proof. intros Hw. unfold refresh_le_state. apply refresh_le_ok; [apply nested_request|exact Hw]. Qed.
Lemma refresh_states_ok env h w : ok h w → wp (_refresh_states env) (λ _, ok h) w.
Proof.
  intros Hw. unfold _refresh_states. apply wp_get. skip. intros b w1 E1. apply (ok_core _ _ _ E1) in Hw.
  eapply wp_ok; [by apply update_ok|]. intros _ w2 Hw2.
  eapply wp_ok; [by apply refresh_ok|]. intros l w3 Hw3.
  apply aside_wp; [|done]. aside.
Qed.

Lemma cancel_ok h w : ok h w → ok h (w <| _le_settle := false |>).
Proof. intros []. split; try done. intros Hp. destruct (k_phase0 Hp) as (? & ? & ? & ? & ?). by split_and!. Qed.
Lemma cancel_wp h w : ok h w → wp _cancel_le_settle (λ _, ok h) w.
Proof. apply cancel_ok. Qed.
Lemma schedule_ok env h w : ok h w → wp (_schedule_le_connect env) (λ _, ok h) w.
Proof.
  intros Hw. unfold _schedule_le_connect. apply wp_get. destruct (_ || _) eqn:E; [done|].
  repeat apply orb_false_iff in E as [E ?]. destruct Hw. split; try done. cbn. intros Hp.
  by destruct (_profile_reset_phase w).
Qed.

Lemma complete_reset_ok env h w : ok h w → wp (_complete_le_reset env) (λ _, ok h) w.
Proof.
  intros Hw. unfold _complete_le_reset, set_reset. apply wp_get. cbn zeta. apply wp_modify.
  assert (Hw1 : ok h (w <| reset ::= λ r, r <| _le_reset_pending := false |> <| _le_reset_down_seen := false |>
    <| _le_reset_failures := 0 |> <| _next_le_reset_attempt := 0 |> |>)).
  { destruct Hw. split; try done. intros Hp. destruct (k_phase0 Hp) as (? & ? & ? & ? & ?). by split_and!. }
  eapply wp_ok; [|intros _ w2 Hw2; apply wp_get; destruct (_ && _); cbn [when]; [by apply schedule_ok|done]].
  destruct (negb _); cbn [when]; [by apply update_ok|done].
Qed.

Lemma ended_ok h w : ok (Disconnect (_generation w) :: h) w → ok h (w <| _disconnecting := false |>).
Proof.
  intros []. split; cbn; try done.
  - intros k id H1 H2. specialize (k_owed0 k id H1 H2). by apply elem_of_cons in k_owed0 as [?|?].
  - intros H1. specialize (k_device0 H1). by apply elem_of_cons in k_device0 as [?|?].
  - intros Hp. destruct (k_phase0 Hp) as (? & ? & ? & ? & ?). by split_and!.
Qed.
Lemma disconnect_succeeded_ok env h g w : ok (Disconnect g :: h) w → wp (_disconnect_succeeded env g) (λ _, ok h) w.
Proof.
  intros Hw. unfold _disconnect_succeeded. apply wp_get. destruct (g =? _generation w) eqn:Eg; cbn [negb].
  2:{ by apply ok_drop_disconnect in Hw; [|rewrite Eg]. }
  apply Z.eqb_eq in Eg as ->. apply wp_modify. apply ended_ok in Hw.
  destruct (_le_reset_pending _); cbn [when]; [by apply complete_reset_ok|done].
Qed.
Lemma disconnect_failed_ok env h e g w : ok (Disconnect g :: h) w → wp (_disconnect_failed env e g) (λ _, ok h) w.
Proof.
  intros Hw. unfold _disconnect_failed. apply wp_get. destruct (g =? _generation w) eqn:Eg; cbn [negb].
  2:{ by apply ok_drop_disconnect in Hw; [|rewrite Eg]. }
  apply Z.eqb_eq in Eg as ->. apply wp_modify. apply ended_ok in Hw.
  destruct (_le_reset_pending _); cbn [negb]; [|done]. destruct (already_down e); [by apply complete_reset_ok|].
  refine (ok_core _ _ _ _ Hw). reflexivity.
Qed.

Lemma request_disconnect_ok env h b w : ok h w → wp (_request_le_disconnect env b) (λ _, ok h) w.
Proof.
  intros Hw. unfold _request_le_disconnect. apply wp_get. destruct (_ || _ || _ || _) eqn:E1; [done|].
  repeat apply orb_false_iff in E1 as [E1 ?].
  destruct (_disconnecting w || _) eqn:E2; [done|]. apply orb_false_iff in E2 as [E2 _]. destruct (_ && _); [done|].
  apply wp_aside; [aside|]. intros [] w1 Ec; cbn [negb]; [|by eapply ok_core]. apply (ok_core _ _ _ Ec) in Hw.
  assert (Hp : _profile_reset_phase w1 = None).
  { injection Ec as _ _ _ -> _. by destruct (_profile_reset_phase w). }
  assert (Eg : _generation w = _generation w1) by by injection Ec as _ _ _ _ _ -> _. clear E2. rewrite Eg. clear Ec Eg.
  apply wp_modify. skip. intros _ w2 E2.
  assert (Hw2 : ok (Disconnect (_generation w1) :: h) w2).
  { eapply ok_core; [exact E2|]. destruct Hw. split; cbn; try done.
    - intros k id Hi Hj. right. by apply k_owed0.
    - intros _. left.
    - intros Hd. congruence. }
  destruct (disconnect_raises env); [by apply disconnect_failed_ok|]. by apply ok_sent.
Qed.

Lemma recover_ok env h a s w : ok h w → wp (recover_le_transport env a s) (λ _, ok h) w.
Proof.
  intros Hw. unfold recover_le_transport. apply wp_get. cbn zeta. unfold set_reset. apply wp_modify.
  set (w0 := w <| reset ::= _ |>). assert (E0 : core_of w0 = core_of w) by done. clearbody w0.
  apply (ok_core _ _ _ E0) in Hw. destruct (_ || _); [done|]. destruct (is_some _) eqn:Ep; [done|]. destruct (_ && _); [done|].
  apply wp_aside; [aside|]. intros [] w1 E1; cbn [negb].
  2:{ apply (ok_core _ _ _ E1) in Hw. destruct (answered _ _); apply aside_wp; try done; aside. }
  apply wp_aside; [aside|]. intros _ w2 E2. apply wp_modify.
  assert (Hw2 : ok h (w2 <| _le_dial_spent := false |> <| reset ::= λ r, r <| _le_reset_pending := true |> |>)).
  { assert (E : core_of w2 = core_of w) by congruence. apply (ok_core _ _ _ (eq_trans E2 E1)) in Hw.
    destruct Hw. split; try done. intros Hp. exfalso. apply Hp. change (_profile_reset_phase w2 = None).
    injection E as _ _ _ -> _. by destruct (_profile_reset_phase w). }
  eapply wp_ok; [by apply cancel_wp|]. intros _ w3 Hw3.
  apply (wp_ok _ _ _ h); [|intros _ w4 Hw4; exact Hw4].
  destruct (_le_enabled w); cbn [when]; [by apply request_disconnect_ok|exact Hw3].
Qed.

Lemma settle_bearers_ok env h b l w : ok h w → wp (settle_bearers env b l) (λ _, ok h) w.
Proof.
  intros Hw. unfold settle_bearers.
  eapply wp_ok; [instantiate (1 := h); destruct (negb _); cbn [when]; [by apply cancel_wp|done]|].
  clear w Hw. intros _ w Hw. apply wp_get. destruct (is_false b); [by apply request_connect_ok|]. destruct (_ && _).
  - skip. intros _ w1 E1. apply (ok_core _ _ _ E1) in Hw. apply wp_get. destruct (negb _); cbn [when]; [by apply schedule_ok|done].
  - destruct (is_true l); cbn [when]; [by apply cancel_wp|done].
Qed.

Lemma tick_ok env h w : ok h w → wp (_tick env) (λ _, ok h) w.
Proof.
  intros Hw. unfold _tick. apply wp_get. destruct (_ || _); [done|].
  eapply wp_ok; [by apply refresh_states_ok|]. clear w Hw. intros [b l] w Hw. skip. intros _ w1 E1.
  apply (ok_core _ _ _ E1) in Hw. clear E1 w. apply wp_get. destruct (_ || _ || _); [done|].
  apply (wp_ok _ _ _ h).
  { destruct (_le_reset_wanted (reset w1)); [|exact Hw]. apply (wp_ok _ _ _ h); [by apply recover_ok|]. intros _ w2 Hw2. exact Hw2. }
  intros _ w2 Hw2. apply wp_get. destruct (_ && _); [done|]. destruct (_ && _); [|by apply settle_bearers_ok].
  destruct l as [[]|]; [by apply request_disconnect_ok| |done].
  eapply wp_ok; [by apply complete_reset_ok|]. intros _ w3 Hw3. by apply settle_bearers_ok.
Qed.

Lemma enable_ok env h w : ok h w → wp (enable_le env) (λ _, ok h) w.
Proof.
  intros Hw. unfold enable_le. apply wp_get. destruct (_le_enabled w); [done|]. skip. intros _ w1 E1.
  apply (ok_core _ _ _ E1) in Hw. apply wp_aside; [aside|]. intros _ w2 E2. apply (ok_core _ _ _ E2) in Hw.
  apply wp_get. destruct (_running w2); cbn [when]; [by apply tick_ok|done].
Qed.
Lemma hold_ok env h w : ok h w → wp (hold_le env) (λ _, ok h) w.
Proof.
  intros Hw. unfold hold_le. skip. intros _ w1 E1. apply (ok_core _ _ _ E1) in Hw.
  eapply wp_ok; [by apply cancel_wp|]. intros _ w2 Hw2. apply wp_get.
  destruct (le _); cbn [when]; [by apply request_disconnect_ok|done].
Qed.

Lemma poke_ok env h w : ok h w → wp (poke env) (λ _, ok h) w.
Proof. intros Hw. unfold poke. apply wp_get. destruct (_running w); cbn [when]; [by apply tick_ok|done]. Qed.
Lemma health_ok h b p w : ok h w → wp (observe_ancs_health b p) (λ _, ok h) w.
Proof. apply aside_wp. unfold observe_ancs_health, set_reset. aside. Qed.

(** The phase of a profile reset ends, or moves on. *)
Lemma ok_phase_none h w : ok h w → ok h (w <| _profile_reset_phase := None |> <| _profile_reset_timer := false |>).
Proof. intros []. by split. Qed.
Lemma ended_phase_ok h w : ok (DisconnectDevice (_generation w) :: h) w → _profile_reset_phase w = Some disconnecting →
  ok h (w <| _profile_reset_phase := None |>).
Proof.
  intros [] Hp. split; cbn; try done.
  - intros k id H1 H2. specialize (k_owed0 k id H1 H2). by apply elem_of_cons in k_owed0 as [?|?].
  - intros H1. specialize (k_disconnect0 H1). by apply elem_of_cons in k_disconnect0 as [?|?].
  - rewrite k_settling0, Hp. done.
Qed.
Lemma profile_disconnected_ok h g w : ok (DisconnectDevice g :: h) w → wp (_profile_reset_disconnected g) (λ _, ok h) w.
Proof.
  intros Hw. unfold _profile_reset_disconnected. apply wp_get.
  destruct (_ || _) eqn:E.
  { apply ok_drop_device in Hw; [done|]. apply orb_true_iff in E as [->%negb_true_iff| ->%negb_true_iff]; [done|apply andb_false_r]. }
  apply orb_false_iff in E as [Eg%negb_false_iff%Z.eqb_eq Ep%negb_false_iff%bool_decide_eq_true]. subst g.
  unfold set_reset. apply wp_modify. destruct Hw. split; cbn; try done.
  - intros k id H1 H2. specialize (k_owed0 k id H1 H2). by apply elem_of_cons in k_owed0 as [?|?].
  - intros H1. specialize (k_disconnect0 H1). by apply elem_of_cons in k_disconnect0 as [?|?].
  - intros _. apply k_phase0. by rewrite Ep.
Qed.
Lemma profile_failed_ok h e g w : ok (DisconnectDevice g :: h) w → wp (_profile_reset_disconnect_failed e g) (λ _, ok h) w.
Proof.
  intros Hw. unfold _profile_reset_disconnect_failed. apply wp_get.
  destruct (_ || _) eqn:E.
  { apply ok_drop_device in Hw; [done|]. apply orb_true_iff in E as [->%negb_true_iff| ->%negb_true_iff]; [done|apply andb_false_r]. }
  destruct (already_down e); [by apply profile_disconnected_ok|].
  apply orb_false_iff in E as [Eg%negb_false_iff%Z.eqb_eq Ep%negb_false_iff%bool_decide_eq_true]. subst g.
  apply wp_modify. apply aside_wp; [aside|]. by apply ended_phase_ok.
Qed.
Lemma reset_profiles_ok env h w : ok h w → wp (reset_profiles env) (λ _, ok h) w.
Proof.
  intros Hw. unfold reset_profiles. apply wp_get. destruct (negb (_running w)); [done|]. destruct (_bluez_blocked env); [done|].
  destruct (_ || _) eqn:E; [done|]. destruct (negb _); [done|].
  apply orb_false_iff in E as [E Em]. apply orb_false_iff in E as [E Ed]. apply orb_false_iff in E as [E Eb].
  apply orb_false_iff in E as [E Er]. apply orb_false_iff in E as [Ep _].
  unfold _cancel_le_settle. apply wp_modify, wp_modify. skip. intros _ w1 E1. skip. intros _ w2 E2. rewrite E1 in E2.
  assert (Hw2 : ok (DisconnectDevice (_generation w) :: h) w2).
  { eapply ok_core; [exact E2|]. destruct Hw. split; cbn; try done.
    - intros k id H1 H2. right. by apply k_owed0.
    - rewrite Ed. discriminate.
    - intros _. left.
    - rewrite k_settling0. by destruct (_profile_reset_phase w). }
  apply (wp_ok _ _ _ h); [|intros _ w3 Hw3; exact Hw3].
  destruct (disconnect_raises env); [by apply profile_failed_ok|]. by apply ok_sent.
Qed.
Lemma profile_reconnect_ok env h w : ok h w → _profile_reset_timer w = true → wp (_profile_reset_reconnect env) (λ _, ok h) w.
Proof.
  intros Hw Ht. unfold _profile_reset_reconnect. apply wp_modify, wp_get.
  pose proof (k_settling h w Hw) as Hs. rewrite Ht in Hs. symmetry in Hs.
  match goal with |- context [_profile_reset_phase ?x] => change (_profile_reset_phase x) with (_profile_reset_phase w) end.
  rewrite Hs. cbn [negb]. apply wp_modify. apply ok_phase_none in Hw.
  match goal with |- wp _ _ ?x => assert (Hx : ok h x) by exact (ok_core h _ x eq_refl Hw); generalize dependent x end.
  clear Hw. intros w0 Hw. destruct (_ || _); [apply aside_wp; [aside|done]|].
  skip. intros b w1 E1. apply (ok_core _ _ _ E1) in Hw. eapply wp_ok; [by apply update_ok|]. intros _ w2 Hw2.
  skip. intros l w3 E3. apply (ok_core _ _ _ E3) in Hw2. eapply wp_ok; [by apply update_ok|]. intros _ w4 Hw4.
  destruct (is_true b); [apply aside_wp; [aside|done]|]. unfold forget_classic_backoff. skip. intros _ w5 E5.
  apply (ok_core _ _ _ E5) in Hw4. eapply wp_ok; [by apply request_connect_ok|]. intros _ w6 Hw6.
  apply aside_wp; [aside|done].
Qed.

Lemma reconnect_now_ok env h w : ok h w → wp (reconnect_now env) (λ _, ok h) w.
Proof.
  intros Hw. unfold reconnect_now. apply wp_get. destruct (negb (_running w)); [done|]. destruct (_bluez_blocked env); [done|].
  destruct (_ || _) eqn:E; [done|]. apply orb_false_iff in E as [Ep _]. destruct (is_true _); [done|]. destruct (_ || _); [done|].
  unfold forget_classic_backoff. skip. intros _ w1 E1. skip. intros _ w2 E2. rewrite E1 in E2. apply wp_modify.
  apply aside_wp; [aside|]. apply (ok_core _ _ _ E2) in Hw. destruct Hw. split; try done. cbn. intros Hp. exfalso. apply Hp.
  injection E2 as _ _ _ -> _. by destruct (_profile_reset_phase w).
Qed.
Lemma manual_ok env h w : ok h w → wp (_manual_dial_now env) (λ _, ok h) w.
Proof.
  intros Hw. unfold _manual_dial_now. apply wp_modify, wp_get.
  assert (Hw1 : ok h (w <| _manual_dial := false |>)).
  { destruct Hw. split; try done. intros Hp. destruct (k_phase0 Hp) as (? & ? & ? & ? & ?). by split_and!. }
  destruct (_ || _ || _); [done|]. eapply wp_ok; [by apply request_connect_ok|]. intros _ w2 Hw2. apply aside_wp; [aside|done].
Qed.

Lemma signalled_ok env h b w : ok h w → wp (_observe_signalled_le env b) (λ _, ok h) w.
Proof. intros Hw. unfold _observe_signalled_le. apply wp_get. destruct (bool_decide _); [done|by apply update_ok]. Qed.
Lemma le_signal_ok env h name w : ok h w → wp (_on_le_disconnected_signal env name) (λ _, ok h) w.
Proof.
  intros Hw. unfold _on_le_disconnected_signal. apply wp_get. destruct (negb _); [done|]. skip. intros _ w1 E1.
  apply (ok_core _ _ _ E1) in Hw. by apply signalled_ok.
Qed.
Lemma le_properties_ok env h i c w : ok h w → wp (_on_le_properties_changed env i c) (λ _, ok h) w.
Proof.
  intros Hw. unfold _on_le_properties_changed. apply wp_get. destruct (negb _); [done|].
  apply wp_aside; [aside|]. intros _ w1 E1. apply (ok_core _ _ _ E1) in Hw. apply (wp_ok _ _ _ h).
  - destruct (c_connected c) as [b|]; [|done]. destruct (String.eqb _ _); [|done].
    apply wp_aside; [aside|]. intros _ w2 E2. apply (ok_core _ _ _ E2) in Hw.
    apply wp_aside; [aside|]. intros _ w3 E3. apply (ok_core _ _ _ E3) in Hw. by apply signalled_ok.
  - intros _ w2 Hw2. apply aside_wp; [aside|done].
Qed.
Lemma bredr_signal_ok h name w : ok h w → wp (_on_bredr_disconnected_signal name) (λ _, ok h) w.
Proof. apply aside_wp. unfold _on_bredr_disconnected_signal. aside. Qed.

Lemma reply_ok env h c o w : ok (c :: h) w → wp (on_reply env c o) (λ _, ok h) w.
Proof.
  intros Hw. destruct c as [k g id|g|g], o as [e|]; cbn [on_reply].
  - unfold connect_failed. apply connect_failed_ok; [done|]. intros _ _. apply nested_request.
  - by apply succeeded_ok.
  - by apply disconnect_failed_ok.
  - by apply disconnect_succeeded_ok.
  - by apply profile_failed_ok.
  - by apply profile_disconnected_ok.
Qed.
Lemma ok_delete i c w : ok [] w → calls w !! i = Some c → ok [c] (w <| calls ::= delete i |>).
Proof.
  intros [] Hi. assert (Hd : ∀ x, x ∈ calls w → x ∈ [c] ++ delete i (calls w)).
  { intros x Hx. apply list_elem_of_lookup in Hx as [j Hj]. destruct (decide (j = i)) as [->|Hne].
    - rewrite Hi in Hj. injection Hj as ->. left.
    - right. apply list_elem_of_lookup. destruct (decide (j < i)%nat).
      + exists j. by rewrite list_lookup_delete_lt.
      + exists (j - 1)%nat. rewrite list_lookup_delete_ge by lia. by replace (S (j - 1)) with j by lia. }
  split; cbn; try done.
  - intros k id H1 H2. by apply Hd, k_owed0.
  - intros H1. by apply Hd, k_disconnect0.
  - intros H1. by apply Hd, k_device0.
Qed.
End life.

(** ** Start, stop and a new bluetoothd *)

(** Nothing is running. *)
Lemma idle_ok h life w s : requests w = no_requests s → _disconnecting w = false → _le_dial_active w = false →
  _profile_reset_phase w = None → _profile_reset_timer w = false → (_running w, _timer w) = life → ok life h w.
Proof.
  intros Hr Hd Ha Hp Ht Hl. split; rewrite ?Hr, ?Hd, ?Hp, ?Ht; cbn; try done; by intros [].
Qed.
Definition dropped (w : World) : World :=
  w <| _generation ::= Z.succ |> <| requests ::= λ r, no_requests (_connect_request_serial r) |> <| _disconnecting := false |>
    <| _le_dial_active := false |> <| reset ::= λ r, r <| _le_reset_pending := false |> |>.
Lemma drop_wp {A} (m : M World A) Q w : (∀ w', core_of w' = core_of (dropped w) → wp m Q w') → wp (drop_operations;; m) Q w.
Proof.
  intros Hm. unfold drop_operations. apply wp_bind, wp_modify, wp_bind. unfold _set_le_dial_active. apply wp_get.
  match goal with |- context [_le_dial_active ?x] => change (_le_dial_active x) with (_le_dial_active w) end.
  destruct (_le_dial_active w) eqn:E; cbn [Bool.eqb].
  - apply wp_modify. unfold emit. apply wp_modify_last, wp_modify_last, Hm. reflexivity.
  - apply wp_ret, wp_modify_last, Hm. unfold core_of, dropped. cbn. by rewrite E.
Qed.

Lemma stop_ok w b : ok (b, b) [] w → wp stop (λ _, ok (false, false) []) w.
Proof.
  intros Hw. unfold stop. apply wp_modify. apply drop_wp. intros w1 E1.
  unfold _cancel_le_settle, _abort_profile_reset, forget_damping, set_pace.
  do 4 apply wp_modify. apply wp_modify_last.
  injection E1 as E1 E2 E3 E4 E5 E6 E7 E8 E9 E10 E11 E12 E13.
  apply (idle_ok _ _ _ (_connect_request_serial (requests w))); [exact E1|exact E2|exact E3|reflexivity|reflexivity|].
  cbn. f_equal. exact E8.
Qed.
Lemma forget_bluez_ok w b : ok (b, b) [] w → wp forget_bluez (λ _, ok (b, b) []) w.
Proof.
  intros Hw. unfold forget_bluez. apply wp_modify. apply drop_wp. intros w1 E1.
  unfold set_reset, _cancel_le_settle. apply wp_modify, wp_modify, wp_modify.
  apply wp_aside; [aside|]. intros _ w2 E2. apply wp_aside; [aside|]. intros _ w3 E3.
  apply wp_aside; [unfold forget_damping; aside|]. intros _ w4 E4. unfold _abort_profile_reset. apply wp_modify_last.
  rewrite E3, E2 in E4. clear w2 E2 w3 E3.
  injection E4 as F1 F2 F3 F4 F5 F6 F7 F8 F9 F10 F11 F12 F13. injection E1 as E1 E2 E3 E4 E5 E6 E7 E8 E9 E10 E11 E12 E13.
  apply (idle_ok _ _ _ (_connect_request_serial (requests w)));
    [exact (eq_trans F1 E1)|exact (eq_trans F2 E2)|exact (eq_trans F3 E3)|reflexivity|reflexivity|].
  rewrite <- (k_life _ _ _ Hw). cbn. f_equal; [exact (eq_trans F8 E8)|exact (eq_trans F9 E9)].
Qed.
Lemma restart_ok env w b : ok (b, b) [] w → wp (reset_after_bluez_restart env) (λ _, ok (b, b) []) w.
Proof.
  intros Hw. unfold reset_after_bluez_restart. apply wp_get. eapply wp_ok; [by apply forget_bluez_ok|]. intros _ w1 Hw1.
  skip. intros _ w2 E2. apply (ok_core _ _ _ _ E2) in Hw1. apply wp_aside; [aside|]. intros _ w3 E3.
  apply (ok_core _ _ _ _ E3) in Hw1. apply wp_get. destruct (_running w3); cbn [when]; [by apply tick_ok|done].
Qed.

Lemma ok_running life h b w : ok life h w → ok (b, life.2) h (w <| _running := b |>).
Proof. intros []. split; try done. cbn. by rewrite <- k_life0. Qed.
Lemma ok_timer life h b w : ok life h w → ok (life.1, b) h (w <| _timer := b |>).
Proof. intros []. split; try done. cbn. by rewrite <- k_life0. Qed.
Lemma start_ok env b w : ok (b, b) [] w → wp (start env) (λ _, ok (true, true) []) w.
Proof.
  intros Hw. unfold start. apply wp_get. destruct (_running w) eqn:Er.
  { pose proof (k_life _ _ _ Hw) as Hl. rewrite Er in Hl. by injection Hl as <- _. }
  apply wp_modify. apply (ok_running _ _ true) in Hw. skip. intros _ w1 E1. skip. intros _ w2 E2. rewrite E1 in E2.
  apply (ok_core _ _ _ _ E2) in Hw. eapply wp_ok; [by apply tick_ok|]. intros _ w3 Hw3. apply wp_modify_last.
  exact (ok_timer _ _ true _ Hw3).
Qed.

(** Between two events the supervisor runs exactly while its poll is armed. *)
Definition good (w : World) : Prop := ∃ b, ok (b, b) [] w.

Lemma good_step env e w : good w → wp (step env e) (λ _, good) w.
Proof.
  intros [b Hw].
  assert (Hb : ∀ m, wp m (λ _ : (), ok (b, b) []) w → wp m (λ _, good) w).
  { intros m Hm. eapply wp_mono; [exact Hm|]. intros a w' Hw'. by exists b. }
  destruct e; cbn [step].
  - eapply wp_mono; [by eapply start_ok|]. intros a w' Hw'. by exists true.
  - eapply wp_mono; [by eapply stop_ok|]. intros a w' Hw'. by exists false.
  - by apply Hb, enable_ok.
  - by apply Hb, hold_ok.
  - by apply Hb, poke_ok.
  - by apply Hb, restart_ok.
  - by apply Hb, health_ok.
  - apply Hb. apply (wp_ok _ _ _ _ _ _ (recover_ok _ _ _ _ _ _ Hw)). by intros.
  - apply Hb. apply (wp_ok _ _ _ _ _ _ (reconnect_now_ok _ _ _ _ Hw)). by intros.
  - apply Hb. apply (wp_ok _ _ _ _ _ _ (reset_profiles_ok _ _ _ _ Hw)). by intros.
  - apply Hb, aside_wp; [unfold note_le_usable; aside|done].
  - apply Hb, wp_get. destruct (_timer w); cbn [when]; [by apply tick_ok|done].
  - apply Hb, wp_get. destruct (_le_settle w); cbn [when]; [|done].
    unfold _connect_le_after_settle. apply wp_modify, wp_get. apply cancel_ok in Hw. destruct (_ || _ || _ || _); [done|].
    eapply wp_ok; [by apply refresh_states_ok|]. intros [x l] w1 Hw1. apply wp_get. destruct (_ && _).
    + skip. intros _ w2 E2. apply (ok_core _ _ _ _ E2) in Hw1. by apply request_connect_ok.
    + destruct (is_false x); cbn [when]; [by apply request_connect_ok|done].
  - apply Hb, wp_get. destruct (_manual_dial w); cbn [when]; [by apply manual_ok|done].
  - apply Hb, wp_get. destruct (_profile_reset_timer w) eqn:E; cbn [when]; [by apply profile_reconnect_ok|done].
  - apply Hb, wp_get. destruct (_unwatch_le w); cbn [when]; [by apply le_signal_ok|done].
  - apply Hb, wp_get. destruct (_unwatch_le w); cbn [when]; [by apply le_properties_ok|done].
  - apply Hb, wp_get. destruct (_unwatch_bredr w); cbn [when]; [by apply bredr_signal_ok|done].
  - apply Hb, wp_get. destruct (calls w !! i) as [c|] eqn:E; [|done].
    apply wp_bind. apply (ok_delete _ _ _ _ Hw) in E. by apply reply_ok.
  - apply Hb, wp_modify_last. destruct Hw. by split.
Qed.
Lemma good_init l now : good (World_init l now).
Proof. exists false. split; cbn; try done; intros []; done. Qed.
Lemma good_run es w : good w → good (run es w).
Proof.
  unfold run. apply run_all_invariant. intros m w' Hin Hw'. apply list_elem_of_fmap in Hin as (p & -> & _). destruct p as [env e].
  pose proof (good_step env e w' Hw') as H. unfold wp in H. by destruct (step env e w') as [[u|x] w2].
Qed.

(** ** Properties *)

