(* ===== verification/BearerDial.v ===== *)
(** * BearerDial: the nesting of dials ends, and the properties of the
    requests in flight (src/blueferry/bearer_supervisor.py).

    [_request_connect] can reach itself: a dial that raises while it is sent
    runs its failure handler at once, which may find LE connected and dial
    Classic again, typed.  A typed dial does not look again. *)
From S2P Require Import Prelude LeBudget Bearer BearerSafety.

Abbreviation returns m := (wp m (λ _ _, True)).
Abbreviation targeted w := (_classic_connect_should_be_targeted w = true).

Lemma steady_returns {A} (m : M World A) w : tame steady m → returns m w.
Proof. intros Hm. eapply wp_mono; [apply Hm|done]. Qed.

(** ** Two nested dials that agree once LE is up *)

Definition agree (r1 r2 : M World ()) : Prop := ∀ w, targeted w → r1 w = r2 w.
Definition nested_returns (r : M World ()) : Prop := ∀ w, targeted w → returns r w.

Lemma bind_ext {A B} (m : M World A) (f g : A → M World B) w :
  (∀ a w', m w = (Ok a, w') → f a w' = g a w') → (m ≫= f) w = (m ≫= g) w.
Proof. intros H. rewrite !M_bind_eq. destruct (m w) as [[a|e] w'] eqn:E; [by apply H|done]. Qed.

Lemma retarget_ext r1 r2 w : agree r1 r2 → targeted w →
  _retarget_pending_classic_connect r1 w = _retarget_pending_classic_connect r2 w.
Proof.
  intros Hr Hw. unfold _retarget_pending_classic_connect. apply bind_ext. intros ? ? [= <- <-].
  destruct (_ || _); [done|]. apply bind_ext. intros ? ? [= _ <-]. apply bind_ext. intros ? ? [= _ <-]. by apply Hr.
Qed.
Lemma retarget_returns r w : nested_returns r → targeted w → returns (_retarget_pending_classic_connect r) w.
Proof.
  intros Hr Hw. unfold _retarget_pending_classic_connect. apply wp_get. destruct (_ || _); [done|].
  unfold _clear_connect_request, set_requests, set_pace. apply wp_modify, wp_modify. by apply Hr.
Qed.

Lemma observed_targeted env v d n w u w' : observe_state env Le v d n w = (Ok u, w') → is_true v = true → targeted w'.
Proof.
  intros E Hv. pose proof (observe_le env Le v d n w) as H. unfold wp in H. rewrite E in H.
  unfold _classic_connect_should_be_targeted. by rewrite (H eq_refl), Hv, orb_true_r.
Qed.
Lemma update_ext env r1 r2 k v d n w : agree r1 r2 → _update_state env r1 k v d n w = _update_state env r2 k v d n w.
Proof.
  intros Hr. unfold _update_state. apply bind_ext. intros u w' E. destruct k; [done|].
  destruct (is_true v) eqn:Ev; [|done]. cbn [when]. apply retarget_ext; [done|]. by eapply observed_targeted.
Qed.
Lemma update_returns env r k v d n w : nested_returns r → returns (_update_state env r k v d n) w.
Proof.
  intros Hr. unfold _update_state. apply wp_bind. pose proof (observe_le env k v d n w) as H. unfold wp in H |- *.
  destruct (observe_state env k v d n w) as [[u|x] w'] eqn:E; [|done]. destruct k; [done|].
  destruct (is_true v) eqn:Ev; [|done]. cbn [when]. apply retarget_returns; [done|]. by eapply observed_targeted.
Qed.
Lemma refresh_ext env r1 r2 rs n w : agree r1 r2 → _refresh_le_state env r1 rs n w = _refresh_le_state env r2 rs n w.
Proof.
  intros Hr. unfold _refresh_le_state. apply bind_ext. intros ? ? [= <- <-]. apply bind_ext. intros v w1 _.
  rewrite !M_bind_eq. by rewrite (update_ext env r1 r2).
Qed.
Lemma refresh_returns env r rs n w : nested_returns r → returns (_refresh_le_state env r rs n) w.
Proof.
  intros Hr. unfold _refresh_le_state. apply wp_get. skip. intros v w1 _. apply wp_bind.
  eapply wp_mono; [by apply update_returns|]. intros u w2 _. apply steady_returns. steady.
Qed.

(** ** The failure handler *)

(** Only an untyped Classic request looks at the bearers again. *)
Definition looks_again (k : kind) (w : World) : Prop := k = Bredr ∧ is_true (bredr (_connect_targeted (requests w))) = false.

Lemma succeeded_steady env k g id : tame steady (_connect_succeeded env k g id).
Proof. unfold _connect_succeeded. steady. Qed.
Lemma give_up_steady k p : tame steady (give_up_connect k p).
Proof. unfold give_up_connect. steady. Qed.

Lemma failed_ext env r1 r2 k e g id w : (looks_again k w → agree r1 r2) →
  _connect_failed env r1 k e g id w = _connect_failed env r2 k e g id w.
Proof.
  intros Hr. unfold _connect_failed. apply bind_ext. intros ? ? [= <- <-]. destruct (negb _); [done|].
  destruct (in_progress e); [done|]. destruct (String.eqb _ _); [|done].
  destruct (bool_decide (k = Bredr) && _) eqn:E; [|done]. apply andb_true_iff in E as [Ek Et].
  apply bool_decide_eq_true in Ek as ->. apply negb_true_iff in Et. specialize (Hr (conj eq_refl Et)).
  apply bind_ext. intros v w1 _. rewrite !M_bind_eq. rewrite (update_ext env r1 r2) by done.
  destruct (_update_state _ _ _ _ _ _ _) as [[u|x] w2]; [|done]. destruct (is_true v); [done|].
  rewrite !M_bind_eq. by rewrite (refresh_ext env r1 r2).
Qed.
Lemma failed_returns env r k e g id w : (looks_again k w → nested_returns r) → returns (_connect_failed env r k e g id) w.
Proof.
  intros Hr. unfold _connect_failed. apply wp_get. destruct (negb _); [done|]. destruct (in_progress e); [done|].
  destruct (String.eqb _ _); [|apply steady_returns, give_up_steady].
  destruct (bool_decide (k = Bredr) && _) eqn:E; [|apply steady_returns, succeeded_steady].
  apply andb_true_iff in E as [Ek Et]. apply bool_decide_eq_true in Ek as ->. apply negb_true_iff in Et.
  specialize (Hr (conj eq_refl Et)). skip. intros v w1 _. apply wp_bind.
  eapply wp_mono; [by apply update_returns|]. intros u w2 _. destruct (is_true v); [apply steady_returns, succeeded_steady|].
  apply wp_bind. eapply wp_mono; [by apply refresh_returns|]. intros l w3 _. apply wp_get.
  destruct (negb _); [done|]. apply steady_returns, give_up_steady.
Qed.

(** ** The dial *)

(** While it is sent, a request keeps whether it is typed. *)
Definition typed (t : option bool) : relation World := λ w w',
  bredr (_connect_targeted (requests w)) = t → bredr (_connect_targeted (requests w')) = t.
#[local] Instance typed_preorder t : PreOrder (typed t).
Proof. split; unfold typed; [by intros ?|intros ? ? ? H1 H2 H; auto]. Qed.
Lemma send_typed env k t m g id x : tame (typed x) (send_connect env k t m g id).
Proof.
  assert (Ha : ∀ A (m : M World A), tame aside m → tame (typed x) m).
  { intros A m' Hm. eapply tame_mono; [|exact Hm]. intros w w' E. injection E as E _. unfold typed. by rewrite E. }
  unfold send_connect. apply tame_bind; [apply _| |].
  - destruct k; [destruct t; [apply tame_ret; apply _|apply Ha; aside]|]. unfold _set_le_dial_active, emit. tame; by intros ?.
  - intros [e|]; [apply tame_ret; apply _|]. unfold emit, send. tame; by intros ?.
Qed.
Definition typing (k : kind) (w : World) : bool := bool_decide (k = Bredr) && _classic_connect_should_be_targeted w.

Lemma probe_returns (b : bool) a w : ∃ w', when b (emit a) w = (Ok (), w').
Proof. destruct b; unfold when, emit, modify; cbn; eauto. Qed.

(** The part of [_request_connect] before its failure handler. *)
Lemma request_cases env k m w :
  (∃ w', ∀ fuel', _request_connect env (S fuel') k m w = (Ok (), w')) ∨
  (∃ e g id w', (k = Bredr → bredr (_connect_targeted (requests w')) = Some (typing k w)) ∧
    ∀ fuel', _request_connect env (S fuel') k m w = _connect_failed env (_request_connect env fuel' Bredr false) k e g id w').
Proof.
  cbn [_request_connect]. destruct (may_dial env k w) eqn:Em.
  2:{ left. exists w. intros f. rewrite M_bind_eq. unfold get. by rewrite Em. }
  set (granting := match k with
    | Le => granted ← take_budget; when (granted : bool) (modify (λ w : World, w <| _le_dial_spent := true |>));; mret granted
    | Bredr => mret true end).
  assert (Hg : returns granting w).
  { destruct k; unfold granting; [done|]. apply steady_returns. apply tame_bind; [apply _| |].
    - apply aside_steady. auto with tame.
    - intros b. steady. }
  unfold wp in Hg. destruct (granting w) as [[b|x] w1] eqn:Eg; [|done].
  destruct b.
  2:{ left. exists w1. intros f. rewrite M_bind_eq. unfold get. rewrite Em. cbn [negb]. rewrite M_bind_eq. fold granting. by rewrite Eg. }
  destruct (probe_returns (bool_decide (k = Bredr) && _bredr_resting (pace w) && negb m) (Probing (clock w)) w1) as [w1' Ep].
  pose proof (send_typed env k (typing k w) m (_generation w) (_connect_request_serial (requests w) + 1) (Some (typing k w))
    (w1' <| requests ::= begin_request k (typing k w) |>)) as Hs. unfold wp in Hs.
  destruct (send_connect _ _ _ _ _ _ _) as [[[e|]|x] w2] eqn:Es; [|left; exists w2|done].
  - right. exists e, (_generation w), (_connect_request_serial (requests w) + 1), w2. split.
    + intros ->. by apply Hs.
    + intros f. rewrite M_bind_eq. unfold get. rewrite Em. cbn [negb]. rewrite M_bind_eq. fold granting. rewrite Eg. cbn [negb].
      rewrite M_bind_eq, Ep. rewrite M_bind_eq. unfold set_requests, modify. fold (typing k w). rewrite M_bind_eq. by rewrite Es.
  - intros f. rewrite M_bind_eq. unfold get. rewrite Em. cbn [negb]. rewrite M_bind_eq. fold granting. rewrite Eg. cbn [negb].
    rewrite M_bind_eq, Ep. rewrite M_bind_eq. unfold set_requests, modify. fold (typing k w). rewrite M_bind_eq. by rewrite Es.
Qed.

Lemma typed_last k w w' : targeted w → (k = Bredr → bredr (_connect_targeted (requests w')) = Some (typing k w)) → ¬ looks_again k w'.
Proof.
  intros Ht Hk [-> Hl]. rewrite (Hk eq_refl) in Hl. unfold typing in Hl. rewrite Ht, bool_decide_true in Hl by done. discriminate.
Qed.
Lemma nested_agree env n1 n2 : agree (_request_connect env (S n1) Bredr false) (_request_connect env (S n2) Bredr false).
Proof.
  intros w Hw. destruct (request_cases env Bredr false w) as [[w' H]|(e & g & id & w' & Hk & H)]; [by rewrite !H|].
  rewrite !H. apply failed_ext. intros Hl. by destruct (typed_last Bredr w w' Hw Hk).
Qed.
Lemma nested_request_returns env n : nested_returns (_request_connect env (S n) Bredr false).
Proof.
  intros w Hw. destruct (request_cases env Bredr false w) as [[w' H]|(e & g & id & w' & Hk & H)].
  - unfold wp. by rewrite H.
  - unfold wp. rewrite H. apply (failed_returns env _ Bredr e g id w'). intros Hl. by destruct (typed_last Bredr w w' Hw Hk).
Qed.

(** C21: A dial always returns.  A dial that raises while it is being sent looks
    at the bearers again and may dial Classic anew from inside its failure
    handler; that nesting ends after one level.  From every state and with
    every answer of BlueZ, two levels of [_request_connect] suffice: the result
    is a return, not an exception, and any more fuel gives the same result. *)
Theorem dial_terminates env k manual w :
  is_ok (_request_connect env FUEL k manual w).1 = true ∧
  ∀ fuel, (FUEL <= fuel)%nat → _request_connect env fuel k manual w = _request_connect env FUEL k manual w.
Proof.
  unfold FUEL. destruct (request_cases env k manual w) as [[w' H]|(e & g & id & w' & Hk & H)].
  - split; [by rewrite H|]. intros [|fuel] Hf; [lia|]. by rewrite !H.
  - split.
    + rewrite H. pose proof (failed_returns env (_request_connect env 1 Bredr false) k e g id w') as Hr. unfold wp in Hr.
      destruct (_connect_failed _ _ _ _ _ _ _) as [[u|x] w2]; [done|]. exfalso. apply Hr. intros _. apply nested_request_returns.
    + intros [|[|fuel]] Hf; [lia..|]. rewrite !H. apply failed_ext. intros _. apply nested_agree.
Qed.

(** One level is not enough: LE connected meanwhile. *)
Definition meanwhile : Env := calm <| poll_again := mkReadings (Got false) (Got true) (Got true) (Got true) |>
  <| connect_raises := λ (_ : kind) (t : bool), if t then None else Some (DBusError "org.bluez.Error.AlreadyConnected" "") |>.
Example nested_dial : let w := World_init false 0 in
  (_request_connect meanwhile 1 Bredr false w).1 = Raise (RuntimeError "maximum recursion depth exceeded") ∧
  List.filter (λ a, match a with Dial _ _ _ _ => true | _ => false end) (log (_request_connect meanwhile FUEL Bredr false w).2) =
    [Dial Bredr false false 0; Dial Bredr true false 0].
Proof. vm_compute. done. Qed.
