(* ===== verification/BearerProgress.v ===== *)
(** * BearerProgress: requests never overlap, and what is in flight always
    ends (src/blueferry/bearer_supervisor.py). *)
From S2P Require Import Prelude LeBudget Bearer BearerSafety BearerDial.

(** ** Requests that are over stay over *)

(** A request number that has been given out and is no longer in flight. *)
Definition gone (k : kind) (id : Z) (w : World) : Prop :=
  sel k (_connect_request_ids (requests w)) ≠ Some id ∧ id <= _connect_request_serial (requests w).
Definition gone_requests : relation Requests := λ r r',
  _connect_request_serial r <= _connect_request_serial r' ∧
  ∀ k id, sel k (_connect_request_ids r) ≠ Some id → id <= _connect_request_serial r → sel k (_connect_request_ids r') ≠ Some id.
#[local] Instance gone_preorder : PreOrder gone_requests.
Proof.
  split; [by intros r|]. intros r1 r2 r3 [H1 H2] [H3 H4]. split; [lia|]. intros k id Hk Hid. apply H4; [by apply H2|lia].
Qed.
Lemma gone_forget k r : gone_requests r (forget_request k r).
Proof.
  split; [done|]. intros k' id H1 H2. cbn. destruct (decide (k' = k)) as [->|Hne]; [by rewrite sel_upd|].
  by rewrite sel_upd_ne.
Qed.
Lemma gone_begin k t r : gone_requests r (begin_request k t r).
Proof.
  split; [cbn; lia|]. intros k' id H1 H2. cbn. destruct (decide (k' = k)) as [->|Hne]; [rewrite sel_upd; intros [= E]; lia|].
  by rewrite sel_upd_ne.
Qed.
Lemma gone_none r : gone_requests r (no_requests (_connect_request_serial r)).
Proof. split; [done|]. intros k id H1 H2. by destruct k. Qed.

(** A dial and a state change touch neither the disconnect in flight nor the
    profile reset. *)
Record still (w w' : World) : Prop := {
  s_disconnecting : _disconnecting w' = _disconnecting w;
  s_phase : _profile_reset_phase w' = _profile_reset_phase w;
  s_generation : _generation w' = _generation w;
  s_requests : gone_requests (requests w) (requests w');
}.
#[local] Instance still_preorder : PreOrder still.
Proof.
  split; [intros w; by split|]. intros w1 w2 w3 [] []. split; [congruence..|]. etrans; [exact s_requests0|exact s_requests1].
Qed.
Lemma aside_still w w' : aside w w' → still w w'.
Proof. intros E. injection E as E1 E2 E3 E4 E5 E6. split; [done..|]. by rewrite E1. Qed.
Lemma tame_still {A} (m : M World A) : tame aside m → keeps still m.
Proof. intros Hm. apply tame_keeps. eapply tame_mono; [|exact Hm]. apply aside_still. Qed.
#[local] Hint Extern 1 (keeps still _) => (apply tame_still; solve [auto 1 with tame nocore]) : keeps.
Ltac still := keeps; by split.

Lemma set_requests_still f : (∀ r, gone_requests r (f r)) → keeps still (set_requests f).
Proof. intros Hf w. split; [done..|apply Hf]. Qed.
Lemma clear_still k : keeps still (_clear_connect_request k).
Proof. apply set_requests_still, gone_forget. Qed.
Lemma dial_still b : keeps still (_set_le_dial_active b).
Proof. unfold _set_le_dial_active. still. Qed.
#[local] Hint Resolve clear_still dial_still : keeps.
Lemma settle_still k v : keeps still (_settle_in_progress_connect k v).
Proof. unfold _settle_in_progress_connect. still. Qed.
#[local] Hint Resolve settle_still : keeps.
Lemma observe_still env k v d n : keeps still (observe_state env k v d n).
Proof. unfold observe_state. still. Qed.
#[local] Hint Resolve observe_still : keeps.
Lemma retarget_still r : keeps still r → keeps still (_retarget_pending_classic_connect r).
Proof. intros Hr. unfold _retarget_pending_classic_connect. still. Qed.
Lemma update_still env r k v d n : keeps still r → keeps still (_update_state env r k v d n).
Proof.
  intros Hr. unfold _update_state. apply keeps_bind; [apply _|auto 1 with keeps|]. intros _. destruct k; [still|].
  apply keeps_when; [apply _|]. by apply retarget_still.
Qed.
Lemma refresh_still env r rs n : keeps still r → keeps still (_refresh_le_state env r rs n).
Proof.
  intros Hr. unfold _refresh_le_state. pose proof (λ k v d n, update_still env r k v d n Hr). keeps.
Qed.
Lemma succeeded_still env k g id : keeps still (_connect_succeeded env k g id).
Proof. unfold _connect_succeeded. still. Qed.
Lemma give_up_still k p : keeps still (give_up_connect k p).
Proof. unfold give_up_connect. still. Qed.
#[local] Hint Resolve succeeded_still give_up_still : keeps.
Lemma failed_still env r k e g id : keeps still r → keeps still (_connect_failed env r k e g id).
Proof.
  intros Hr. pose proof (λ k v d n, update_still env r k v d n Hr). pose proof (λ rs n, refresh_still env r rs n Hr).
  unfold _connect_failed. pose proof set_requests_still. still.
Qed.
Lemma send_still env k t m g id : keeps still (send_connect env k t m g id).
Proof. unfold send_connect, send. still. Qed.
#[local] Hint Resolve send_still : keeps.
Lemma request_still env fuel k m : keeps still (_request_connect env fuel k m).
Proof.
  revert k m. induction fuel as [|fuel IH]; intros k m; cbn [_request_connect]; [by intros w|].
  pose proof (λ k e g id, failed_still env (_request_connect env fuel Bredr false) k e g id (IH Bredr false)).
  pose proof (λ k t, set_requests_still (begin_request k t) (gone_begin k t)). still.
Qed.
Lemma request_connect_still env k m : keeps still (request_connect env k m).
Proof. unfold request_connect. apply request_still. Qed.
Lemma nested_still env : keeps still (request_connect env Bredr false).
Proof. exact (request_connect_still env Bredr false). Qed.
Lemma update_state_still env k v d n : keeps still (update_state env k v d n).
Proof. unfold update_state. apply update_still. exact (nested_still env). Qed.
Lemma refresh_le_still env n : keeps still (refresh_le_state env n).
Proof. unfold refresh_le_state. apply refresh_still. exact (nested_still env). Qed.
#[local] Hint Resolve request_connect_still update_state_still refresh_le_still : keeps.
Lemma refresh_states_still env : keeps still (_refresh_states env).
Proof. unfold _refresh_states. still. Qed.
#[local] Hint Resolve refresh_states_still : keeps.

(** ** The end of a connect request *)

Lemma still_gone k id w w' : still w w' → gone k id w → gone k id w'.
Proof. intros [_ _ _ [H1 H2]] [H3 H4]. split; [by apply H2|lia]. Qed.
Lemma keeps_gone {A} (m : M World A) k id w : keeps still m → gone k id w → gone k id (m w).2.
Proof. intros Hm. apply still_gone, Hm. Qed.

(** The request [id] is the one in flight. *)
Definition flying (k : kind) (g id : Z) (w : World) : Prop :=
  sel k (_connect_request_ids (requests w)) = Some id ∧ g = _generation w ∧ id <= _connect_request_serial (requests w).
Lemma flying_current k g id w : flying k g id w → current_request k g id w = true.
Proof. intros (H1 & -> & _). unfold current_request. by rewrite Z.eqb_refl, bool_decide_true. Qed.
Lemma still_flying k g id w w' : still w w' → flying k g id w → flying k g id w' ∨ gone k id w'.
Proof.
  intros [_ _ Hg [H1 H2]] (H3 & -> & H4). destruct (decide (sel k (_connect_request_ids (requests w')) = Some id)); [left|right].
  - split_and!; [done|done|lia].
  - split; [done|lia].
Qed.
Lemma flying_gone k g id w : flying k g id w ∨ gone k id w → current_request k g id w = false → gone k id w.
Proof. intros [H|H] E; [by rewrite (flying_current _ _ _ _ H) in E|done]. Qed.

Lemma clear_gone {A} k g id (m : M World A) w : flying k g id w → keeps still m →
  gone k id ((_clear_connect_request k;; m) w).2.
Proof.
  intros (_ & _ & H) Hm. unfold _clear_connect_request, set_requests. rewrite M_bind_eq. unfold modify.
  apply keeps_gone; [done|]. split; [|done]. cbn. by rewrite sel_upd.
Qed.
Lemma succeeded_gone env k g id w : flying k g id w ∨ gone k id w → gone k id (_connect_succeeded env k g id w).2.
Proof.
  intros H. unfold _connect_succeeded. rewrite M_bind_eq. unfold get. destruct (current_request k g id w) eqn:E; cbn [negb].
  - destruct H as [H|[H _]]; [apply (clear_gone k g); [done|still]|].
    apply andb_true_iff in E as [_ E]. by apply bool_decide_eq_true in E.
  - by eapply flying_gone.
Qed.
Lemma give_up_gone k g id p w : flying k g id w → gone k id (give_up_connect k p w).2.
Proof. intros H. unfold give_up_connect. apply (clear_gone k g); [done|still]. Qed.
Lemma wp_still {A} (m : M World A) w : returns m w → keeps still m → wp m (λ _ w', still w w') w.
Proof. intros H1 H2. specialize (H2 w). unfold wp in *. by destruct (m w) as [[a|e] w']. Qed.
Lemma wp_gone {A} (m : M World A) k id w : returns m w → gone k id (m w).2 → wp m (λ _ w', gone k id w') w.
Proof. intros H1 H2. unfold wp in *. by destruct (m w) as [[a|e] w']. Qed.
Lemma succeeded_wp_gone env k g id w : flying k g id w ∨ gone k id w → wp (_connect_succeeded env k g id) (λ _ w', gone k id w') w.
Proof. intros H. apply wp_gone; [apply steady_returns, succeeded_steady|by apply succeeded_gone]. Qed.

Definition waits_for (k : kind) (w : World) : bool := is_some (sel k (_connect_observation_deadlines (requests w))).
Lemma failed_ends env r k e g id w : keeps still r → nested_returns r → flying k g id w →
  wp (_connect_failed env r k e g id) (λ _ w', gone k id w' ∨ waits_for k w' = true) w.
Proof.
  intros Hs Hr Hf. unfold _connect_failed. apply wp_get. rewrite (flying_current _ _ _ _ Hf). cbn [negb].
  assert (Hgo : ∀ m : M World (), wp m (λ _ w', gone k id w') w → wp m (λ _ w', gone k id w' ∨ waits_for k w' = true) w).
  { intros m Hm. eapply wp_mono; [exact Hm|]. intros a w' H. by left. }
  destruct (in_progress e).
  { right. unfold waits_for. cbn. by rewrite sel_upd. }
  destruct (String.eqb _ _).
  2:{ apply Hgo, wp_gone; [apply steady_returns, give_up_steady|by eapply give_up_gone]. }
  destruct (_ && _); [|by apply Hgo, succeeded_wp_gone; left]. apply Hgo.
  apply wp_bind. eapply wp_mono; [apply wp_still; [apply steady_returns, aside_steady, read_aside|apply tame_still, read_aside]|].
  intros v w1 E1. apply wp_bind. eapply wp_mono; [apply wp_still; [by apply update_returns|by apply update_still]|].
  intros u w2 E2. assert (H2 : flying k g id w2 ∨ gone k id w2) by exact (still_flying _ _ _ _ _ (transitivity E1 E2) Hf).
  destruct (is_true v); [by apply succeeded_wp_gone|]. apply wp_bind.
  eapply wp_mono; [apply wp_still; [by apply refresh_returns|by apply refresh_still]|]. intros l w3 E3. apply wp_get.
  assert (H3 : flying k g id w3 ∨ gone k id w3) by (destruct H2 as [H2|H2]; [exact (still_flying _ _ _ _ _ E3 H2)|right; exact (still_gone _ _ _ _ E3 H2)]).
  destruct (current_request k g id w3) eqn:Ec; cbn [negb]; [|by apply (flying_gone k g)].
  apply wp_gone; [apply steady_returns, give_up_steady|]. destruct H3 as [H3|[H3 _]]; [by eapply give_up_gone|].
  apply andb_true_iff in Ec as [_ Ec]. by apply bool_decide_eq_true in Ec.
Qed.

(** ** The poll and the disconnect *)

Definition past : relation World := λ w w', gone_requests (requests w) (requests w').
#[local] Instance past_preorder : PreOrder past.
Proof. split; unfold past; [by intros ?|intros ? ? ? H1 H2; by etrans]. Qed.
Lemma keeps_mono {A} (R R' : relation World) (m : M World A) : (∀ w w', R w w' → R' w w') → keeps R m → keeps R' m.
Proof. intros HR Hm w. apply HR, Hm. Qed.
Lemma still_past {A} (m : M World A) : keeps still m → keeps past m.
Proof. apply keeps_mono. by intros ? ? []. Qed.
#[local] Hint Extern 1 (keeps past _) => (apply still_past; solve [auto 1 with keeps nocore]) : keeps.
Ltac past := keeps; by (unfold past; cbn).

Lemma cancel_still : keeps still _cancel_le_settle.
Proof. unfold _cancel_le_settle. still. Qed.
Lemma schedule_still env : keeps still (_schedule_le_connect env).
Proof. unfold _schedule_le_connect. still. Qed.
#[local] Hint Resolve cancel_still schedule_still : keeps.
Lemma complete_still env : keeps still (_complete_le_reset env).
Proof. unfold _complete_le_reset, set_reset. still. Qed.
#[local] Hint Resolve complete_still : keeps.
Lemma failed_past env e g : keeps past (_disconnect_failed env e g).
Proof. unfold _disconnect_failed. past. Qed.
#[local] Hint Resolve failed_past : keeps.
Lemma request_disconnect_past env b : keeps past (_request_le_disconnect env b).
Proof. unfold _request_le_disconnect, send. past. Qed.
#[local] Hint Resolve request_disconnect_past : keeps.
Lemma recover_past env a s : keeps past (recover_le_transport env a s).
Proof. unfold recover_le_transport, set_reset. past. Qed.
Lemma settle_bearers_past env b l : keeps past (settle_bearers env b l).
Proof. unfold settle_bearers. past. Qed.
#[local] Hint Resolve recover_past settle_bearers_past : keeps.
Lemma past_gone {A} (m : M World A) k id w : keeps past m → gone k id w → gone k id (m w).2.
Proof. intros Hm [H1 H2]. destruct (Hm w) as [H3 H4]. split; [by apply H4|lia]. Qed.

Lemma bind_gone {A B} (m : M World A) (f : A → M World B) k id w : gone k id (m w).2 → (∀ a, keeps past (f a)) →
  gone k id ((m ≫= f) w).2.
Proof. intros H Hf. rewrite M_bind_eq. destruct (m w) as [[a|e] w']; [by apply past_gone|done]. Qed.
(** An overdue request. *)
Definition overdue (k : kind) (g id : Z) (w : World) : Prop :=
  flying k g id w ∧ ∃ d, sel k (_connect_observation_deadlines (requests w)) = Some d ∧ d <= clock w.
Lemma settle_ends k v g id w : overdue k g id w → gone k id (_settle_in_progress_connect k v w).2.
Proof.
  intros (Hf & d & Hd & Hc). unfold _settle_in_progress_connect. rewrite M_bind_eq. unfold get. rewrite Hd.
  rewrite (proj2 (Z.ltb_ge _ _)) by done. rewrite andb_false_r. apply (clear_gone k g); [done|]. still.
Qed.
Lemma update_ends env k v d n g id w : overdue k g id w → gone k id (update_state env k v d n w).2.
Proof.
  intros Ho. unfold update_state, _update_state. apply bind_gone.
  - unfold observe_state. apply bind_gone; [by eapply settle_ends|]. intros _. past.
  - intros _. pose proof (retarget_still _ (nested_still env)). past.
Qed.
Lemma aside_overdue {A} (m : M World A) k g id w : tame aside m → overdue k g id w → wp m (λ _ w', overdue k g id w') w.
Proof.
  intros Hm Ho. eapply wp_mono; [apply Hm|]. intros a w' E. injection E as E1 E2 E3 E4 E5 E6 E7 E8 E9 E10 E11 E12 E13 E14.
  destruct Ho as ((H1 & -> & H2) & d & H3 & H4). split; [|exists d; by rewrite E1, E14]. unfold flying. by rewrite E1, E6.
Qed.

(** An update of Classic leaves an LE request alone. *)
Record le_kept (w w' : World) : Prop := {
  l_ids : le (_connect_request_ids (requests w')) = le (_connect_request_ids (requests w));
  l_deadline : le (_connect_observation_deadlines (requests w')) = le (_connect_observation_deadlines (requests w));
  l_serial : _connect_request_serial (requests w') = _connect_request_serial (requests w);
  l_generation : _generation w' = _generation w;
  l_clock : clock w' = clock w;
}.
#[local] Instance le_kept_preorder : PreOrder le_kept.
Proof. split; [by split|]. intros w1 w2 w3 [] []. split; congruence. Qed.
Lemma aside_kept {A} (m : M World A) : tame aside m → tame le_kept m.
Proof. apply tame_mono. intros w w' E. injection E as E1 E2 E3 E4 E5 E6 E7 E8 E9 E10 E11 E12 E13 E14. split; congruence. Qed.
#[local] Hint Extern 1 (tame le_kept _) => (apply aside_kept; solve [auto 1 with tame nocore]) : tame.
Lemma bredr_update_kept env v d n : tame le_kept (update_state env Bredr v d n).
Proof.
  unfold update_state, _update_state, observe_state, _settle_in_progress_connect, _clear_connect_request, set_requests.
  tame; by split.
Qed.
Lemma kept_overdue g id w w' : le_kept w w' → overdue Le g id w → overdue Le g id w'.
Proof.
  intros [H1 H2 H3 H4 H5] ((H6 & -> & H7) & d & H8 & H9). cbn in *. split; [split_and!; cbn; congruence|].
  exists d. cbn. split; congruence.
Qed.

Lemma refresh_ends env k g id w : overdue k g id w → gone k id (_refresh_states env w).2.
Proof.
  intros Ho. unfold _refresh_states. rewrite M_bind_eq. unfold get. rewrite M_bind_eq.
  pose proof (aside_overdue (_read (poll env) Bredr) k g id w (read_aside _ _) Ho) as H1. unfold wp in H1.
  destruct (_read _ _ w) as [[b|e] w1]; [|done]. destruct k.
  - apply bind_gone; [by eapply update_ends|]. intros _. past.
  - rewrite M_bind_eq. pose proof (bredr_update_kept env b false false w1) as H2. unfold wp in H2.
    destruct (update_state env Bredr b false false w1) as [[u|e] w2]; [|done]. apply (kept_overdue g id) in H2; [|done].
    apply bind_gone; [|intros l; past]. unfold refresh_le_state, _refresh_le_state. rewrite M_bind_eq. unfold get. rewrite M_bind_eq.
    pose proof (aside_overdue (_read (poll env) Le) Le g id w2 (read_aside _ _) H2) as H3. unfold wp in H3.
    destruct (_read _ _ w2) as [[l|e] w3]; [|done]. apply bind_gone; [apply (update_ends env Le l false false g id w3 H3)|].
    intros _. past.
Qed.
Lemma tick_ends env k g id w : overdue k g id w → _running w = true → _bluez_blocked env = false → gone k id (_tick env w).2.
Proof.
  intros Ho Hr Hb. unfold _tick. rewrite M_bind_eq. unfold get. rewrite Hr, Hb. cbn [negb orb].
  apply bind_gone; [by eapply refresh_ends|]. intros [b l]. past.
Qed.

(** ** Properties *)

Lemma busy_dials_nothing env fuel k m w : busy env w = true ∨ _bluez_blocked env = true →
  _request_connect env (S fuel) k m w = (Ok (), w).
Proof.
  intros Hb. cbn [_request_connect]. rewrite M_bind_eq. unfold get. enough (E : may_dial env k w = false) by by rewrite E.
  unfold may_dial, busy in *. destruct Hb as [Hb| ->]; [|done].
  destruct (busy_connecting w), (_disconnecting w), (is_some _), (_profile_busy env), (_bluez_blocked env); done.
Qed.

(** [_connecting] holds exactly the bearers with a request in flight. *)
Definition tracked (w : World) : Prop :=
  ∀ k, sel k (_connecting (requests w)) = is_some (sel k (_connect_request_ids (requests w))).
(** An outstanding call whose reply the supervisor still waits for. *)
Definition live (c : call) (w : World) : bool :=
  match c with
  | Connect k generation id => current_request k generation id w
  | Disconnect generation => generation =? _generation w
  | DisconnectDevice generation => (generation =? _generation w) && bool_decide (_profile_reset_phase w = Some disconnecting)
  end.
Lemma dead_reply env c o w : live c w = false → on_reply env c o w = (Ok (), w).
Proof.
  destruct c as [k g id|g|g]; cbn [live]; intros H; destruct o as [e|]; cbn [on_reply];
    unfold connect_failed, _connect_failed, _connect_succeeded, _disconnect_failed, _disconnect_succeeded,
      _profile_reset_disconnect_failed, _profile_reset_disconnected; rewrite M_bind_eq; unfold get; rewrite ?H; try done.
  all: apply andb_false_iff in H as [H|H]; by rewrite H, ?orb_true_r.
Qed.
Lemma good_tracked w : good w → tracked w.
Proof. intros [b Hw] k. symmetry. apply (k_ids _ _ _ Hw). Qed.

(** What a profile reset, and a change of profiles by a client, wait for. *)
Definition occupied (env : Env) (w : World) : bool := busy env w || _le_reset_pending (reset w) || _manual_dial w.
Lemma occupied_refuses env w : _running w = true → _bluez_blocked env = false → occupied env w = true →
  reset_profiles env w = (Ok "in-progress", w) ∧ can_change_profiles env w = false.
Proof.
  intros Hr Hb Ho. unfold reset_profiles, can_change_profiles, occupied, busy in *. rewrite M_bind_eq. unfold get. rewrite Hr, Hb. cbn [negb].
  destruct (is_some _), (_profile_busy env), (_le_reset_pending _), (busy_connecting w), (_disconnecting w), (_manual_dial w); done.
Qed.

(** C19: Operations of the bearer supervisor never overlap.  After any sequence
    of requests, timers, signals and replies: Classic and LE never have a
    request in flight at the same time; the connect calls whose reply is still
    waited for all belong to the one request in flight, and the reply to any
    other outstanding call (one that a retargeted dial, a restart of BlueZ or a
    stop abandoned) changes nothing; the dial state published to the
    solicitation is exactly whether an LE request is in flight; while a profile
    reset runs, no request, LE disconnect, manual dial, LE reset or settling
    timer is active; while a request, an LE disconnect, a profile reset or
    profile work runs, or BlueZ does not answer, a further dial is refused
    without any effect; and while one of these, an LE reset or a manual dial is
    pending, a running supervisor to which BlueZ answers refuses a profile
    reset without any effect and lets no client change profiles. *)
Theorem requests_exclusive es le_enabled now :
  let w := run es (World_init le_enabled now) in
  (bredr (_connecting (requests w)) && le (_connecting (requests w)) = false) ∧ tracked w ∧
  (∀ k g id k' g' id', Connect k g id ∈ calls w → Connect k' g' id' ∈ calls w →
     live (Connect k g id) w = true → live (Connect k' g' id') w = true → (k, g, id) = (k', g', id')) ∧
  (∀ env i c o, calls w !! i = Some c → live c w = false → step env (EReply i o) w = (Ok (), w <| calls ::= delete i |>)) ∧
  _le_dial_active w = le (_connecting (requests w)) ∧
  (_profile_reset_phase w ≠ None → busy_connecting w = false ∧ _disconnecting w = false ∧ _manual_dial w = false ∧
     _le_reset_pending (reset w) = false ∧ _le_settle w = false) ∧
  (∀ env k manual, busy env w = true ∨ _bluez_blocked env = true → request_connect env k manual w = (Ok (), w)) ∧
  (∀ env, _running w = true → _bluez_blocked env = false → occupied env w = true →
     reset_profiles env w = (Ok "in-progress", w) ∧ can_change_profiles env w = false).
Proof.
  intros w. pose proof (good_run es _ (good_init le_enabled now)) as Hgood. fold w in Hgood. pose proof (good_tracked _ Hgood) as Ht.
  destruct Hgood as [b Hw].
  pose proof (k_one _ _ _ Hw) as Hone. split_and!; [done|done| | |apply (k_dial _ _ _ Hw)|apply (k_phase _ _ _ Hw)| |].
  - intros k g id k' g' id' _ _ H H'. cbn [live] in H, H'. apply andb_true_iff in H as [Hg H], H' as [Hg' H'].
    apply Z.eqb_eq in Hg, Hg'. apply bool_decide_eq_true in H, H'. pose proof (Ht k) as Hk. pose proof (Ht k') as Hk'.
    rewrite H in Hk. rewrite H' in Hk'. subst g g'.
    destruct k, k'; cbn [sel is_some] in *; [congruence|by rewrite Hk, Hk' in Hone..|congruence].
  - intros env i c o Hc Hd. cbn [step]. rewrite M_bind_eq. unfold get. rewrite Hc, M_bind_eq. unfold modify. by apply dead_reply.
  - intros env k m. apply busy_dials_nothing.
  - intros env. apply occupied_refuses.
Qed.

(** The reply to a call is dispatched. *)
Lemma reply_step env i c o w : calls w !! i = Some c → (step env (EReply i o) w).2 = (on_reply env c o (w <| calls ::= delete i |>)).2.
Proof. intros Hi. cbn [step]. rewrite M_bind_eq. unfold get. rewrite Hi. by rewrite M_bind_eq. Qed.

Lemma connect_reply_ends env i k id o w : flying k (_generation w) id w → calls w !! i = Some (Connect k (_generation w) id) →
  let w' := (step env (EReply i o) w).2 in gone k id w' ∨ waits_for k w' = true.
Proof.
  intros Hf Hi. cbn zeta. rewrite (reply_step _ _ _ _ _ Hi). cbn [on_reply]. set (w1 := w <| calls ::= delete i |>).
  assert (Hf1 : flying k (_generation w) id w1) by exact Hf. clearbody w1. destruct o as [e|].
  - pose proof (failed_ends env (request_connect env Bredr false) k e (_generation w) id w1 (nested_still env)) as H.
    unfold connect_failed. unfold wp in H. specialize (H (λ w' Hw', nested_request_returns env 1 w' Hw') Hf1).
    by destruct (_connect_failed _ _ _ _ _ _ w1) as [[u|x] w2].
  - left. apply succeeded_gone. by left.
Qed.
Lemma disconnect_reply_ends env i o w : calls w !! i = Some (Disconnect (_generation w)) →
  _disconnecting (step env (EReply i o) w).2 = false.
Proof.
  intros Hi. rewrite (reply_step _ _ _ _ _ Hi).
  assert (H : ∀ m : M World (), keeps still m → _disconnecting ((modify (λ w : World, w <| _disconnecting := false |>);; m)
    (w <| calls ::= delete i |>)).2 = false).
  { intros m Hm. rewrite M_bind_eq. unfold modify. by rewrite (s_disconnecting _ _ (Hm _)). }
  destruct o as [e|]; cbn [on_reply]; unfold _disconnect_failed, _disconnect_succeeded; rewrite M_bind_eq; unfold get;
    rewrite Z.eqb_refl; cbn [negb]; apply H; still.
Qed.
Lemma device_reply_ends env i o w : calls w !! i = Some (DisconnectDevice (_generation w)) →
  _profile_reset_phase (step env (EReply i o) w).2 ≠ Some disconnecting.
Proof.
  intros Hi. rewrite (reply_step _ _ _ _ _ Hi).
  assert (H : ∀ x, _profile_reset_phase (_profile_reset_disconnected (_generation x) x).2 ≠ Some disconnecting).
  { intros x. unfold _profile_reset_disconnected. rewrite M_bind_eq. unfold get. rewrite Z.eqb_refl. cbn [negb orb].
    destruct (negb _) eqn:E; [|done]. intros H. change (_profile_reset_phase x = Some disconnecting) in H. by rewrite H in E. }
  set (x := w <| calls ::= delete i |>). change (_generation w) with (_generation x). clearbody x.
  destruct o as [e|]; cbn [on_reply]; [|apply H].
  unfold _profile_reset_disconnect_failed. rewrite M_bind_eq. unfold get. rewrite Z.eqb_refl. cbn [negb orb].
  destruct (negb _) eqn:E.
  { intros Hp. change (_profile_reset_phase x = Some disconnecting) in Hp. by rewrite Hp in E. }
  destruct (already_down e); [apply H|].
  rewrite M_bind_eq. unfold modify. by rewrite (s_phase _ _ (tame_still _ publish_aside _)).
Qed.
Lemma timer_ends env w : _profile_reset_timer w = true → _profile_reset_phase w = Some settling →
  _profile_reset_phase (step env EProfileTimer w).2 = None.
Proof.
  intros Ht Hp. cbn [step]. rewrite M_bind_eq. unfold get. rewrite Ht. cbn [when]. unfold _profile_reset_reconnect.
  rewrite M_bind_eq. unfold modify at 1. rewrite M_bind_eq. unfold get.
  match goal with |- context [negb (bool_decide (?x = _))] => change x with (_profile_reset_phase w) end. rewrite Hp. cbn [negb].
  assert (H : ∀ m : M World (), keeps still m → ∀ x, _profile_reset_phase ((modify (λ w : World, w <| _profile_reset_phase := None |>);; m) x).2 = None).
  { intros m Hm x. rewrite M_bind_eq. unfold modify. by rewrite (s_phase _ _ (Hm _)). }
  apply H. unfold forget_classic_backoff. still.
Qed.

(** The request is over, and [_connecting] says what is in flight now. *)
Definition ended (k : kind) (id : Z) (w : World) : Prop := gone k id w ∧ tracked w.
Lemma tracked_next es le_enabled now env e : tracked (step env e (run es (World_init le_enabled now))).2.
Proof.
  pose proof (good_tracked _ (good_run (es ++ [(env, e)]) _ (good_init le_enabled now))) as Hw.
  unfold run in *. by rewrite fmap_app, run_all_app in Hw.
Qed.

(** C20: The supervisor never hangs on an operation.  In every reachable state:
    the poll is armed exactly while it runs; a bearer counts as connecting
    exactly while it has a request in flight; such a request either has its
    D-Bus call outstanding, and any reply ends it or gives it a deadline, or
    has a deadline, and the first poll at or after it ends it, provided that
    the supervisor still runs and BlueZ answers (a poll while BlueZ does not
    answer does nothing); once it is over the bearer is free, unless a newer
    request has it; a running LE disconnect, and the disconnect of a profile
    reset, have their call outstanding, and any reply ends them; and a profile
    reset that waits has its timer armed, which ends it. *)
Theorem bearers_never_stall es le_enabled now :
  let w := run es (World_init le_enabled now) in
  _running w = _timer w ∧ tracked w ∧
  (∀ k id, sel k (_connect_request_ids (requests w)) = Some id →
     (waits_for k w = true ∧ ∀ env, _running w = true → _bluez_blocked env = false →
        default 0 (sel k (_connect_observation_deadlines (requests w))) <= clock w → ended k id (step env ETick w).2) ∨
     (∃ i, calls w !! i = Some (Connect k (_generation w) id) ∧
        ∀ env o, let w' := (step env (EReply i o) w).2 in ended k id w' ∨ waits_for k w' = true)) ∧
  (_disconnecting w = true → ∃ i, calls w !! i = Some (Disconnect (_generation w)) ∧
     ∀ env o, _disconnecting (step env (EReply i o) w).2 = false) ∧
  (_profile_reset_phase w = Some disconnecting → ∃ i, calls w !! i = Some (DisconnectDevice (_generation w)) ∧
     ∀ env o, _profile_reset_phase (step env (EReply i o) w).2 ≠ Some disconnecting) ∧
  (_profile_reset_phase w = Some settling → _profile_reset_timer w = true ∧
     ∀ env, _profile_reset_phase (step env EProfileTimer w).2 = None).
Proof.
  intros w. pose proof (tracked_next es le_enabled now) as Hnext. destruct (good_run es _ (good_init le_enabled now)) as [b Hw].
  fold w in Hw, Hnext. clearbody w. assert (Hl : _running w = _timer w) by (pose proof (k_life _ _ _ Hw) as H; congruence).
  split; [done|]. split; [apply good_tracked; by exists b|]. split; [|split; [|split]].
  - intros k id Hid. assert (Hf : flying k (_generation w) id w) by (split; [done|split; [done|by apply (k_serial _ _ _ Hw k)]]).
    destruct (sel k (_connect_observation_deadlines (requests w))) as [d|] eqn:Ed.
    + left. split; [unfold waits_for; by rewrite Ed|]. intros env Hr Hb Hd. split; [|apply Hnext]. cbn [step]. rewrite M_bind_eq. unfold get.
      rewrite <- Hl, Hr. cbn [when]. apply (tick_ends env k (_generation w)); [|done..]. split; [done|by exists d].
    + right. pose proof (k_owed _ _ _ Hw k id Hid Ed) as Hc. apply list_elem_of_lookup in Hc as [i Hi]. exists i. split; [done|].
      intros env o. cbn zeta. destruct (connect_reply_ends env i k id o w Hf Hi) as [H|H]; [left; split; [done|apply Hnext]|by right].
  - intros Hd. pose proof (k_disconnect _ _ _ Hw Hd) as Hc. apply list_elem_of_lookup in Hc as [i Hi]. exists i. split; [done|].
    intros env o. by apply disconnect_reply_ends.
  - intros Hd. pose proof (k_device _ _ _ Hw Hd) as Hc. apply list_elem_of_lookup in Hc as [i Hi]. exists i. split; [done|].
    intros env o. by apply device_reply_ends.
  - intros Hp. assert (Ht : _profile_reset_timer w = true) by by rewrite (k_settling _ _ _ Hw), Hp.
    split; [done|]. intros env. by apply timer_ends.
Qed.
