(* ===== verification/BearerReport.v ===== *)
(** * BearerReport: the stale-bond report never influences a connection
    (src/blueferry/bearer_supervisor.py).

    A non-interference proof: two supervisors that differ in the evidence of a
    stale bond, and in whether its detection applies, and that see the same
    events and the same answers of BlueZ, take the same actions. *)
From S2P Require Import Prelude LeBudget Bearer.

(** ** Two states that differ in the evidence *)

Definition is_report (a : action) : bool := match a with OnLeBondReport => true | _ => false end.
(** The actions other than the report itself. *)
Definition quiet (l : list action) : list action := List.filter (λ a, negb (is_report a)) l.
Definition repaint (b : Bond) (l : list action) (w : World) : World := w <| bond := b |> <| log := l |>.
Definition sim (w1 w2 : World) : Prop := ∃ b l, w2 = repaint b l w1 ∧ quiet l = quiet (log w1).
(** The answers of one callback, with another decision on whether the
    detection applies. *)
Definition undetect (d : bool) (env : Env) : Env := env <| _le_bond_detection := d |>.

Definition sims {A} (m1 m2 : M World A) : Prop := ∀ w1 w2, sim w1 w2 → (m1 w1).1 = (m2 w2).1 ∧ sim (m1 w1).2 (m2 w2).2.

Lemma quiet_app l1 l2 : quiet (l1 ++ l2) = quiet l1 ++ quiet l2.
Proof. apply List.filter_app. Qed.
Lemma sims_bind {A B} (m1 m2 : M World A) (f1 f2 : A → M World B) :
  sims m1 m2 → (∀ a, sims (f1 a) (f2 a)) → sims (m1 ≫= f1) (m2 ≫= f2).
Proof.
  intros Hm Hf w1 w2 Hw. rewrite !M_bind_eq. destruct (Hm w1 w2 Hw) as [H1 H2].
  destruct (m1 w1) as [[a|e] v1], (m2 w2) as [[a'|e'] v2]; cbn in H1, H2; try discriminate; [injection H1 as <-|injection H1 as <-].
  - by apply Hf.
  - done.
Qed.
Lemma sims_ret {A} (a : A) : sims (mret a) (mret a).
Proof. intros w1 w2 Hw. done. Qed.
Lemma sims_raise {A} e : sims (@raise World A e) (raise e).
Proof. intros w1 w2 Hw. done. Qed.
Lemma sims_get {A} (f1 f2 : World → M World A) : (∀ w b l, sims (f1 w) (f2 (repaint b l w))) → sims (get ≫= f1) (get ≫= f2).
Proof. intros Hf w1 w2 Hw. rewrite !M_bind_eq. unfold get. destruct Hw as (b & l & -> & Hl). apply Hf. by exists b, l. Qed.
Lemma sims_modify f1 f2 : (∀ w b l, ∃ b', f2 (repaint b l w) = repaint b' l (f1 w) ∧ log (f1 w) = log w) →
  sims (modify f1) (modify f2).
Proof.
  intros Hf w1 w2 (b & l & -> & Hl). split; [done|]. destruct (Hf w1 b l) as (b' & E1 & E2). exists b', l.
  split; [exact E1|]. etrans; [exact Hl|]. change (quiet (log w1) = quiet (log (f1 w1))). by rewrite E2.
Qed.
Lemma sims_when b m1 m2 : sims m1 m2 → sims (when b m1) (when b m2).
Proof. destruct b; [done|]. intros _. apply sims_ret. Qed.
Lemma sims_emit a : sims (emit a) (emit a).
Proof.
  intros w1 w2 (b & l & -> & Hl). split; [done|]. exists b, (l ++ [a]). split; [done|]. change (quiet (l ++ [a]) = quiet (log w1 ++ [a])). by rewrite !quiet_app, Hl.
Qed.

(** A method that only works on the evidence. *)
Definition private (m : M World ()) : Prop := ∀ w, ∃ b l, m w = (Ok (), repaint b l w) ∧ quiet l = quiet (log w).
Lemma sims_private m1 m2 : private m1 → private m2 → sims m1 m2.
Proof.
  intros H1 H2 w1 w2 (b & l & -> & Hl). destruct (H1 w1) as (b1 & l1 & -> & E1).
  destruct (H2 (repaint b l w1)) as (b2 & l2 & -> & E2). split; [done|]. exists b2, l2. split; [done|].
  etrans; [exact E2|]. etrans; [exact Hl|]. symmetry. exact E1.
Qed.
Lemma private_bind m (f : () → M World ()) : private m → (∀ a, private (f a)) → private (m ≫= f).
Proof.
  intros Hm Hf w. rewrite M_bind_eq. destruct (Hm w) as (b & l & -> & E). destruct (Hf () (repaint b l w)) as (b' & l' & -> & E').
  exists b', l'. split; [done|]. etrans; [exact E'|exact E].
Qed.
Lemma private_get (f : World → M World ()) : (∀ w, private (f w)) → private (get ≫= f).
Proof. intros Hf w. rewrite M_bind_eq. apply Hf. Qed.
Lemma private_ret : private (mret ()).
Proof. intros w. by exists (bond w), (log w); destruct w. Qed.
Lemma private_when b m : private m → private (when b m).
Proof. destruct b; [done|]. intros _. apply private_ret. Qed.
Lemma private_modify f : (∀ w, ∃ b, f w = repaint b (log w) w) → private (modify f).
Proof. intros Hf w. destruct (Hf w) as [b E]. exists b, (log w). by rewrite <- E. Qed.
Lemma private_report : private (emit OnLeBondReport).
Proof. intros w. exists (bond w), (log w ++ [OnLeBondReport]). split; [by destruct w|]. rewrite quiet_app. cbn. apply app_nil_r. Qed.
Lemma private_set_bond f : private (set_bond f).
Proof. apply private_modify. intros w. exists (f (bond w)). by destruct w. Qed.

Create HintDb private discriminated.
#[export] Hint Constants Opaque : private.
#[export] Hint Resolve private_report private_set_bond : private.
Ltac private :=
  repeat lazymatch goal with
    | |- private _ =>
        first
          [ solve [auto 1 with private nocore]
          | lazymatch goal with
            | |- private (mbind _ get) => apply private_get; intros ?
            | |- private (mbind _ _) => apply private_bind; [|intros ?]
            | |- private (mret ()) => apply private_ret
            | |- private (when _ _) => apply private_when
            | |- private (match ?x with _ => _ end) => destruct x
            | |- private (let _ := _ in _) => cbv zeta
            end ]
    end.
Lemma reset_burst_private : private _reset_le_burst.
Proof. unfold _reset_le_burst. private. Qed.
Lemma clear_flaps_private b : private (_clear_le_flaps b).
Proof. unfold _clear_le_flaps. private. Qed.
#[export] Hint Resolve reset_burst_private clear_flaps_private : private.
Lemma count_drop_private b t : private (count_le_drop b t).
Proof. unfold count_le_drop. private. Qed.
#[export] Hint Resolve count_drop_private : private.
Lemma record_drop_private env d r : private (_record_le_drop env d r).
Proof. unfold _record_le_drop. private. Qed.
Lemma flaps_held_private : private _clear_le_flaps_if_held.
Proof. unfold _clear_le_flaps_if_held. private. Qed.
Lemma age_private env : private (_age_le_evidence env).
Proof. unfold _age_le_evidence. private. Qed.
#[export] Hint Resolve record_drop_private flaps_held_private age_private : private.
Lemma count_disconnect_private env name : private (_count_le_disconnect env name).
Proof. unfold _count_le_disconnect. private. Qed.
Lemma note_bredr_private v p : private (note_bredr_value v p).
Proof.
  unfold note_bredr_value. private. apply private_modify. intros w.
  exists ((bond w) <| _bredr_lost_at := Some (clock w) |>). by destruct w.
Qed.
#[export] Hint Resolve count_disconnect_private note_bredr_private : private.

(** ** Two runs in step *)

Create HintDb sims discriminated.
#[export] Hint Constants Opaque : sims.
#[export] Hint Resolve sims_emit : sims.
Ltac sims :=
  repeat lazymatch goal with
    | |- sims _ _ =>
        first
          [ solve [auto 2 with sims nocore]
          | solve [apply sims_private; private]
          | lazymatch goal with
            | |- sims (mbind _ get) _ => apply sims_get; intros ? ? ?
            | |- sims (mbind _ _) _ => apply sims_bind; [|intros ?]
            | |- sims (mret _) _ => apply sims_ret
            | |- sims (raise _) _ => apply sims_raise
            | |- sims (when _ _) _ => apply sims_when
            | |- sims (modify _) _ => apply sims_modify; intros ? ? ?; eexists; split; reflexivity
            | |- sims (match ?x with _ => _ end) (match ?y with _ => _ end) => change y with x; destruct x
            | |- sims (let _ := _ in _) _ => cbv zeta
            end ]
    end.

Lemma set_requests_sims f : sims (set_requests f) (set_requests f).
Proof. unfold set_requests. sims. Qed.
Lemma set_pace_sims f : sims (set_pace f) (set_pace f).
Proof. unfold set_pace. sims. Qed.
Lemma set_reset_sims f : sims (set_reset f) (set_reset f).
Proof. unfold set_reset. sims. Qed.
Lemma send_sims c : sims (send c) (send c).
Proof. unfold send. sims. Qed.
#[export] Hint Resolve set_requests_sims set_pace_sims set_reset_sims send_sims : sims.
Lemma publish_sims : sims _publish_reconnect _publish_reconnect.
Proof. unfold _publish_reconnect. sims. Qed.
Lemma dial_sims b : sims (_set_le_dial_active b) (_set_le_dial_active b).
Proof. unfold _set_le_dial_active. sims. Qed.
Lemma clear_sims k : sims (_clear_connect_request k) (_clear_connect_request k).
Proof. unfold _clear_connect_request. sims. Qed.
#[export] Hint Resolve publish_sims dial_sims clear_sims : sims.
Lemma enter_resting_sims : sims _enter_bredr_resting _enter_bredr_resting.
Proof. unfold _enter_bredr_resting. sims. Qed.
#[export] Hint Resolve enter_resting_sims : sims.
Lemma record_failure_sims k b : sims (_record_failure k b) (_record_failure k b).
Proof. unfold _record_failure. sims. Qed.
Lemma note_presence_sims b : sims (_note_presence b) (_note_presence b).
Proof. unfold _note_presence. sims. Qed.
Lemma rearm_sims : sims _rearm_le_dial _rearm_le_dial.
Proof. unfold _rearm_le_dial. sims. Qed.
Lemma forgive_sims : sims _reset_classic_backoff_from_le _reset_classic_backoff_from_le.
Proof. unfold _reset_classic_backoff_from_le. sims. Qed.
#[export] Hint Resolve record_failure_sims note_presence_sims rearm_sims forgive_sims : sims.
Lemma stable_sims k : sims (_clear_backoff_if_stable k) (_clear_backoff_if_stable k).
Proof. unfold _clear_backoff_if_stable. sims. Qed.
Lemma settle_sims k v : sims (_settle_in_progress_connect k v) (_settle_in_progress_connect k v).
Proof. unfold _settle_in_progress_connect. sims. Qed.
#[export] Hint Resolve stable_sims settle_sims : sims.
Lemma observe_budget_sims b p : sims (observe_budget b p) (observe_budget b p).
Proof. unfold observe_budget. sims. Qed.
Lemma take_budget_sims : sims take_budget take_budget.
Proof. unfold take_budget. sims. Qed.
#[export] Hint Resolve observe_budget_sims take_budget_sims : sims.
Lemma note_le_value_sims v p : sims (note_le_value v p) (note_le_value v p).
Proof. unfold note_le_value. sims. Qed.
Lemma note_connected_sims k p : sims (note_connected k p) (note_connected k p).
Proof. unfold note_connected. sims. Qed.
Lemma note_disconnected_sims k : sims (note_disconnected k) (note_disconnected k).
Proof. unfold note_disconnected. sims. Qed.
#[export] Hint Resolve note_le_value_sims note_connected_sims note_disconnected_sims : sims.

Lemma get_property_sims {A} (r : reply A) : sims (get_property r) (get_property r).
Proof. unfold get_property. sims. Qed.
#[export] Hint Resolve get_property_sims : sims.
Lemma connected_property_sims rs k : sims (_connected_property rs k) (_connected_property rs k).
Proof. unfold _connected_property. sims. Qed.
Lemma read_sims rs k : sims (_read rs k) (_read rs k).
Proof.
  intros w1 w2 Hw. unfold _read. destruct (connected_property_sims rs k w1 w2 Hw) as [H1 H2].
  destruct (_connected_property rs k w1) as [[v|e] v1], (_connected_property rs k w2) as [[v'|e'] v2]; cbn in H1, H2; try discriminate.
  - injection H1 as <-. apply (sims_bind (emit OnBluezOk) (emit OnBluezOk)); [apply sims_emit|intros ?; apply sims_ret|done].
  - apply (sims_bind (emit OnBluezError) (emit OnBluezError)); [apply sims_emit|intros ?; apply sims_ret|done].
Qed.
#[export] Hint Resolve read_sims : sims.

Section undetect.
Context (env : Env) (d : bool).
Abbreviation env' := (undetect d env).

Lemma prefer_sims k : sims (_prefer_bluez env k) (_prefer_bluez env' k).
Proof. unfold _prefer_bluez. sims. Qed.
Hint Resolve prefer_sims : sims.
Lemma restore_sims : sims (_restore_le_preference env) (_restore_le_preference env').
Proof. unfold _restore_le_preference. sims. Qed.
Hint Resolve restore_sims : sims.
Lemma succeeded_sims k g id : sims (_connect_succeeded env k g id) (_connect_succeeded env' k g id).
Proof. unfold _connect_succeeded. sims. Qed.
Lemma give_up_sims k p : sims (give_up_connect k p) (give_up_connect k p).
Proof. unfold give_up_connect. sims. Qed.
Lemma note_le_lost_sims b : sims (note_le_lost env b) (note_le_lost env' b).
Proof.
  unfold note_le_lost. apply sims_bind; [auto with sims|]. intros _. apply sims_get. intros w bd l.
  apply sims_private; apply private_when; auto with private.
Qed.
Hint Resolve succeeded_sims give_up_sims note_le_lost_sims : sims.
Lemma observe_sims k v dl n : sims (observe_state env k v dl n) (observe_state env' k v dl n).
Proof. unfold observe_state. sims. Qed.
Hint Resolve observe_sims : sims.
Lemma retarget_sims r1 r2 : sims r1 r2 → sims (_retarget_pending_classic_connect r1) (_retarget_pending_classic_connect r2).
Proof. intros Hr. unfold _retarget_pending_classic_connect. sims. Qed.
Hint Resolve retarget_sims : sims.
Lemma update_sims r1 r2 k v dl n : sims r1 r2 → sims (_update_state env r1 k v dl n) (_update_state env' r2 k v dl n).
Proof. intros Hr. unfold _update_state. sims. Qed.
Hint Resolve update_sims : sims.
Lemma refresh_sims r1 r2 rs n : sims r1 r2 → sims (_refresh_le_state env r1 rs n) (_refresh_le_state env' r2 rs n).
Proof. intros Hr. unfold _refresh_le_state. sims. Qed.
Hint Resolve refresh_sims : sims.
Lemma failed_sims r1 r2 k e g id : sims r1 r2 → sims (_connect_failed env r1 k e g id) (_connect_failed env' r2 k e g id).
Proof. intros Hr. unfold _connect_failed. sims. Qed.
Hint Resolve failed_sims : sims.
Lemma send_connect_sims k t m g id : sims (send_connect env k t m g id) (send_connect env' k t m g id).
Proof. unfold send_connect. sims. Qed.
Hint Resolve send_connect_sims : sims.
Lemma request_sims fuel k m : sims (_request_connect env fuel k m) (_request_connect env' fuel k m).
Proof. revert k m. induction fuel as [|fuel IH]; intros k m; cbn [_request_connect]; sims. Qed.
Lemma request_connect_sims k m : sims (request_connect env k m) (request_connect env' k m).
Proof. unfold request_connect. apply request_sims. Qed.
Hint Resolve request_connect_sims : sims.
Lemma update_state_sims k v dl n : sims (update_state env k v dl n) (update_state env' k v dl n).
Proof. unfold update_state. auto with sims. Qed.
Lemma refresh_le_sims n : sims (refresh_le_state env n) (refresh_le_state env' n).
Proof. unfold refresh_le_state. apply refresh_sims. auto with sims. Qed.
Lemma connect_failed_sims k e g id : sims (connect_failed env k e g id) (connect_failed env' k e g id).
Proof. unfold connect_failed. auto with sims. Qed.
Hint Resolve update_state_sims refresh_le_sims connect_failed_sims : sims.
Lemma refresh_states_sims : sims (_refresh_states env) (_refresh_states env').
Proof. unfold _refresh_states. sims. Qed.
Hint Resolve refresh_states_sims : sims.

Lemma cancel_sims : sims _cancel_le_settle _cancel_le_settle.
Proof. unfold _cancel_le_settle. sims. Qed.
Lemma schedule_sims : sims (_schedule_le_connect env) (_schedule_le_connect env').
Proof. unfold _schedule_le_connect. sims. Qed.
Hint Resolve cancel_sims schedule_sims : sims.
Lemma complete_sims : sims (_complete_le_reset env) (_complete_le_reset env').
Proof. unfold _complete_le_reset. sims. Qed.
Hint Resolve complete_sims : sims.
Lemma disconnect_succeeded_sims g : sims (_disconnect_succeeded env g) (_disconnect_succeeded env' g).
Proof. unfold _disconnect_succeeded. sims. Qed.
Lemma disconnect_failed_sims e g : sims (_disconnect_failed env e g) (_disconnect_failed env' e g).
Proof. unfold _disconnect_failed. sims. Qed.
Hint Resolve disconnect_succeeded_sims disconnect_failed_sims : sims.
Lemma request_disconnect_sims b : sims (_request_le_disconnect env b) (_request_le_disconnect env' b).
Proof. unfold _request_le_disconnect. sims. Qed.
Hint Resolve request_disconnect_sims : sims.
Lemma recover_sims a s : sims (recover_le_transport env a s) (recover_le_transport env' a s).
Proof. unfold recover_le_transport. sims. Qed.
Lemma settle_bearers_sims b l : sims (settle_bearers env b l) (settle_bearers env' b l).
Proof. unfold settle_bearers. sims. Qed.
Hint Resolve recover_sims settle_bearers_sims : sims.
Lemma tick_sims : sims (_tick env) (_tick env').
Proof. unfold _tick. sims. Qed.
Hint Resolve tick_sims : sims.
Lemma abort_sims : sims _abort_profile_reset _abort_profile_reset.
Proof. unfold _abort_profile_reset. sims. Qed.
Lemma drop_sims : sims drop_operations drop_operations.
Proof. unfold drop_operations. sims. Qed.
Lemma forget_damping_sims : sims forget_damping forget_damping.
Proof. unfold forget_damping. sims. Qed.
Lemma forget_backoff_sims : sims forget_classic_backoff forget_classic_backoff.
Proof. unfold forget_classic_backoff. sims. Qed.
Lemma profile_disconnected_sims g : sims (_profile_reset_disconnected g) (_profile_reset_disconnected g).
Proof. unfold _profile_reset_disconnected. sims. Qed.
Hint Resolve abort_sims drop_sims forget_damping_sims forget_backoff_sims profile_disconnected_sims : sims.
Lemma profile_failed_sims e g : sims (_profile_reset_disconnect_failed e g) (_profile_reset_disconnect_failed e g).
Proof. unfold _profile_reset_disconnect_failed. sims. Qed.
Lemma signalled_sims b : sims (_observe_signalled_le env b) (_observe_signalled_le env' b).
Proof. unfold _observe_signalled_le. sims. Qed.
Hint Resolve profile_failed_sims signalled_sims : sims.
Lemma reply_sims c o : sims (on_reply env c o) (on_reply env' c o).
Proof. unfold on_reply. destruct c, o; auto with sims. Qed.

Lemma step_sims e : sims (step env e) (step env' e).
Proof.
  destruct e; cbn [step]; unfold start, stop, enable_le, hold_le, poke, reset_after_bluez_restart, forget_bluez, observe_ancs_health,
    reconnect_now, reset_profiles, note_le_usable, _connect_le_after_settle, _manual_dial_now, _profile_reset_reconnect,
    _on_le_disconnected_signal, _on_le_properties_changed, _on_bredr_disconnected_signal, _start_le_watch, _start_bredr_watch;
    sims.
  apply reply_sims.
Qed.
End undetect.

(** The same event, seen with the same answers of BlueZ; only whether the
    detection applies may differ. *)
Definition alike (p q : Env * event) : Prop := q.2 = p.2 ∧ ∃ d, q.1 = undetect d p.1.
Lemma run_sims es es' : Forall2 alike es es' → ∀ w1 w2, sim w1 w2 → sim (run es w1) (run es' w2).
Proof.
  intros Hes. induction Hes as [|[env e] [env' e'] es es' [H1 [d H2]] _ IH]; intros w1 w2 Hw; [done|].
  cbn in H1, H2. subst. unfold run. cbn [fmap list_fmap run_all]. apply IH. by apply (step_sims env d e).
Qed.

(** The stale-bond report is a report only.  Two supervisors that start
    from the same state except for arbitrary evidence of a stale bond (drops
    counted so far, a suspicion, link ages, the last reason), and that see the
    same events with the same answers of BlueZ while the detection may apply
    to one and not to the other at any time, dial, hang up, prefer a bearer
    and notify their owner in the same way at the same times; they differ in
    that evidence and in the reports of it alone. *)
Theorem report_only es es' w evidence : Forall2 alike es es' →
  let w1 := run es w in let w2 := run es' (w <| bond := evidence |>) in
  quiet (log w2) = quiet (log w1) ∧ w2 = repaint (bond w2) (log w2) w1.
Proof.
  intros Hes. cbn zeta. destruct (run_sims es es' Hes w (w <| bond := evidence |>)) as (b & l & E & Hl).
  - exists evidence, (log w). by destruct w.
  - rewrite E. split; [exact Hl|done].
Qed.
Lemma report_only_witness :
  let es := morning ++ [(calm, ELeDisconnected "org.bluez.Reason.Timeout")] in
  let es' := (λ '(env, e), (undetect false env, e)) <$> es in
  let evidence := Bond_init <| _le_flaps := [0; 1; 2; 3] |> <| _le_bond_suspect := true |> in
  let w1 := run es (World_init false 0) in
  let w2 := run es' ((World_init false 0) <| bond := evidence |>) in
  quiet (log w2) = quiet (log w1) ∧ existsb is_report (log w2) = true ∧ existsb is_report (log w1) = false.
Proof.
  intros es es' evidence. split; [|by vm_compute].
  apply (report_only es es' (World_init false 0) evidence).
  unfold es'. clear. induction es as [|[env e] es IH]; [done|]. constructor; [|done]. split; [done|by exists false].
Defined.
