(* ===== verification/BearerSteps.v ===== *)
(** * BearerSteps: what a dial and a state change keep, every event keeps
    (src/blueferry/bearer_supervisor.py).

    A relation on states that ignores everything but the [vital] part of the
    state, and that the few operations on that part keep, is kept by every
    event of the supervisor.  The properties of the pacing instantiate it. *)
From S2P Require Import Prelude LeBudget Bearer.

(** Dials, and the announcements of dials to a resting phone. *)
Definition is_dial (a : action) : bool := match a with Dial _ _ _ _ | Probing _ => true | _ => false end.
Definition dials (l : list action) : list action := List.filter is_dial l.
Lemma dials_app l1 l2 : dials (l1 ++ l2) = dials l1 ++ dials l2.
Proof. apply List.filter_app. Qed.

Record vital := mkVital {
  v_budget : LeRecoveryBudget;
  v_pace : Pace;
  v_requests : Requests;
  v_hint : bool;
  v_states : two (option bool);
  v_clock : Z;
  v_dials : list action;
}.
Definition vital_of (w : World) : vital :=
  mkVital (_le_recovery_budget w) (pace w) (requests w) (_le_targeting_hint w) (_states w) (clock w) (dials (log w)).

(** The readings of Classic that an event may find. *)
Definition reads (env : Env) (v : option bool) : Prop :=
  ∃ rs w w', rs ∈ [poll env; poll_again env] ∧ _read rs Bredr w = (Ok v, w').

(** What is to be shown of the operations on the vital part. *)
Record vital_kept (env : Env) (R : relation World) : Prop := {
  vk_free : ∀ w w', vital_of w' = vital_of w → R w w';
  vk_bredr : ∀ v d n, reads env v → keeps R (update_state env Bredr v d n);
  vk_le : ∀ v d n, keeps R (update_state env Le v d n);
  vk_request : ∀ k m, keeps R (request_connect env k m);
  vk_succeeded : ∀ k g id, keeps R (_connect_succeeded env k g id);
  vk_failed : ∀ k e g id, keeps R (connect_failed env k e g id);
  vk_take : keeps R take_budget;
  vk_presence : keeps R (_note_presence true);
  vk_backoff : keeps R forget_classic_backoff;
  vk_errors : keeps R (set_pace (λ p, p <| _last_errors ::= upd Bredr None |>));
  vk_forget : keeps R forget_bluez;
  vk_stop : keeps R stop;
}.

Section steps.
Context (env : Env) (R : relation World) `{!PreOrder R} (VK : vital_kept env R).

Ltac vital := keeps; try (apply (vk_free env R VK); reflexivity).

Lemma emit_kept a : is_dial a = false → keeps R (emit a).
Proof.
  intros Ha w. apply (vk_free env R VK). unfold vital_of, emit. cbn [modify snd]. f_equal.
  change (dials (log w ++ [a]) = dials (log w)). rewrite dials_app. cbn. by rewrite Ha, app_nil_r.
Qed.
Lemma set_bond_kept f : keeps R (set_bond f).
Proof. unfold set_bond. vital. Qed.
Lemma set_reset_kept f : keeps R (set_reset f).
Proof. unfold set_reset. vital. Qed.
Lemma send_kept c : keeps R (send c).
Proof. unfold send. vital. Qed.
Lemma le_update_kept v d n : keeps R (update_state env Le v d n).
Proof. apply (vk_le env R VK). Qed.
Lemma request_kept k m : keeps R (request_connect env k m).
Proof. apply (vk_request env R VK). Qed.
Lemma succeeded_kept k g id : keeps R (_connect_succeeded env k g id).
Proof. apply (vk_succeeded env R VK). Qed.
Lemma failed_kept k e g id : keeps R (connect_failed env k e g id).
Proof. apply (vk_failed env R VK). Qed.
Lemma take_kept : keeps R take_budget.
Proof. apply (vk_take env R VK). Qed.
Lemma presence_kept : keeps R (_note_presence true).
Proof. apply (vk_presence env R VK). Qed.
Lemma backoff_kept : keeps R forget_classic_backoff.
Proof. apply (vk_backoff env R VK). Qed.
Lemma errors_kept : keeps R (set_pace (λ p, p <| _last_errors ::= upd Bredr None |>)).
Proof. apply (vk_errors env R VK). Qed.
Lemma forget_kept : keeps R forget_bluez.
Proof. apply (vk_forget env R VK). Qed.
Lemma stop_kept : keeps R stop.
Proof. apply (vk_stop env R VK). Qed.
Hint Resolve set_bond_kept set_reset_kept send_kept le_update_kept request_kept succeeded_kept failed_kept take_kept
  presence_kept backoff_kept errors_kept forget_kept stop_kept : keeps.
Hint Extern 1 (keeps R (emit _)) => (apply emit_kept; reflexivity) : keeps.

Lemma publish_kept : keeps R _publish_reconnect.
Proof. unfold _publish_reconnect. vital. Qed.
Lemma prefer_kept k : keeps R (_prefer_bluez env k).
Proof. unfold _prefer_bluez. vital. Qed.
Hint Resolve publish_kept prefer_kept : keeps.
Lemma restore_kept : keeps R (_restore_le_preference env).
Proof. unfold _restore_le_preference. vital. Qed.
Lemma burst_kept : keeps R _reset_le_burst.
Proof. unfold _reset_le_burst. vital. Qed.
Lemma flaps_kept b : keeps R (_clear_le_flaps b).
Proof. unfold _clear_le_flaps. vital. Qed.
Hint Resolve restore_kept burst_kept flaps_kept : keeps.
Lemma count_kept b t : keeps R (count_le_drop b t).
Proof. unfold count_le_drop. vital. Qed.
Hint Resolve count_kept : keeps.
Lemma drop_kept d r : keeps R (_record_le_drop env d r).
Proof. unfold _record_le_drop. vital. Qed.
Lemma age_kept : keeps R (_age_le_evidence env).
Proof. unfold _age_le_evidence. vital. Qed.
Hint Resolve drop_kept age_kept : keeps.
Lemma count_disconnect_kept name : keeps R (_count_le_disconnect env name).
Proof. unfold _count_le_disconnect. vital. Qed.
Hint Resolve count_disconnect_kept : keeps.

Lemma property_kept rs k : keeps R (_connected_property rs k).
Proof. unfold _connected_property, get_property. intros w. apply (vk_free env R VK). destruct k; repeat (case_match; subst); done. Qed.
Lemma read_kept rs k : keeps R (_read rs k).
Proof.
  intros w. unfold _read. pose proof (property_kept rs k w) as H. destruct (_connected_property rs k w) as [[v|e] w'].
  - etrans; [exact H|]. apply (emit_kept OnBluezOk eq_refl).
  - etrans; [exact H|]. apply (emit_kept OnBluezError eq_refl).
Qed.
Hint Resolve read_kept : keeps.
Lemma read_bredr_kept {A} rs (f : option bool → M World A) : rs ∈ [poll env; poll_again env] →
  (∀ v, reads env v → keeps R (f v)) → keeps R (_read rs Bredr ≫= f).
Proof.
  intros Hrs Hf w. rewrite M_bind_eq. pose proof (read_kept rs Bredr w) as H.
  destruct (_read rs Bredr w) as [[v|e] w'] eqn:E; [|exact H]. etrans; [exact H|]. apply Hf. by exists rs, w, w'.
Qed.
Lemma refresh_le_kept n : keeps R (refresh_le_state env n).
Proof.
  unfold refresh_le_state, _refresh_le_state. pose proof (vk_le env R VK) as Hle. unfold update_state in Hle. vital.
Qed.
Hint Resolve refresh_le_kept : keeps.
Lemma refresh_states_kept : keeps R (_refresh_states env).
Proof.
  unfold _refresh_states. apply keeps_bind; [done|by apply keeps_pure|]. intros w0. cbn zeta.
  apply read_bredr_kept; [left|]. intros v Hv. pose proof (vk_bredr env R VK v false false Hv). vital.
Qed.
Hint Resolve refresh_states_kept : keeps.
Lemma cancel_kept : keeps R _cancel_le_settle.
Proof. unfold _cancel_le_settle. vital. Qed.
Lemma schedule_kept : keeps R (_schedule_le_connect env).
Proof. unfold _schedule_le_connect. vital. Qed.
Hint Resolve cancel_kept schedule_kept : keeps.
Lemma complete_kept : keeps R (_complete_le_reset env).
Proof. unfold _complete_le_reset. vital. Qed.
Hint Resolve complete_kept : keeps.
Lemma disconnect_succeeded_kept g : keeps R (_disconnect_succeeded env g).
Proof. unfold _disconnect_succeeded. vital. Qed.
Lemma disconnect_failed_kept e g : keeps R (_disconnect_failed env e g).
Proof. unfold _disconnect_failed. vital. Qed.
Hint Resolve disconnect_succeeded_kept disconnect_failed_kept : keeps.
Lemma request_disconnect_kept b : keeps R (_request_le_disconnect env b).
Proof. unfold _request_le_disconnect. vital. Qed.
Hint Resolve request_disconnect_kept : keeps.
Lemma recover_kept a s : keeps R (recover_le_transport env a s).
Proof. unfold recover_le_transport. vital. Qed.
Lemma settle_bearers_kept b l : keeps R (settle_bearers env b l).
Proof. unfold settle_bearers. vital. Qed.
Hint Resolve recover_kept settle_bearers_kept : keeps.
Lemma tick_kept : keeps R (_tick env).
Proof. unfold _tick. vital. Qed.
Hint Resolve tick_kept : keeps.

Lemma abort_kept : keeps R _abort_profile_reset.
Proof. unfold _abort_profile_reset. vital. Qed.
Lemma profile_disconnected_kept g : keeps R (_profile_reset_disconnected g).
Proof. unfold _profile_reset_disconnected. vital. Qed.
Hint Resolve abort_kept profile_disconnected_kept : keeps.
Lemma profile_failed_kept e g : keeps R (_profile_reset_disconnect_failed e g).
Proof. unfold _profile_reset_disconnect_failed. vital. Qed.
Lemma signalled_kept b : keeps R (_observe_signalled_le env b).
Proof. unfold _observe_signalled_le. vital. Qed.
Hint Resolve profile_failed_kept signalled_kept : keeps.
Lemma reply_kept c o : keeps R (on_reply env c o).
Proof. unfold on_reply. destruct c, o; auto with keeps. Qed.
Hint Resolve reply_kept : keeps.
Lemma reconnect_kept : keeps R (_profile_reset_reconnect env).
Proof.
  unfold _profile_reset_reconnect. apply keeps_bind; [done|vital|]. intros _. apply keeps_bind; [done|by apply keeps_pure|].
  intros w0. destruct (negb _); [vital|]. apply keeps_bind; [done|vital|]. intros _. destruct (_ || _); [vital|].
  apply read_bredr_kept; [left|]. intros v Hv. pose proof (vk_bredr env R VK v false true Hv). vital.
Qed.
Hint Resolve reconnect_kept : keeps.

(** The events whose treatment depends on the relation are left to it. *)
Definition special (e : event) : bool :=
  match e with EAncsHealth _ _ | EBredrDisconnected _ | ETime _ => true | _ => false end.
Lemma step_kept e : special e = false → keeps R (step env e).
Proof.
  intros He. destruct e; try discriminate; cbn [step]; unfold start, enable_le, hold_le, poke, reset_after_bluez_restart,
    reconnect_now, reset_profiles, note_le_usable, _connect_le_after_settle, _manual_dial_now,
    _on_le_disconnected_signal, _on_le_properties_changed, _start_le_watch, _start_bredr_watch; vital.
Qed.
End steps.
