(* ===== verification/BearerBudget.v ===== *)
(** * BearerBudget: the LE dials stay within the recovery budget
    (src/blueferry/bearer_supervisor.py, le_recovery_budget.py).

    The composition of the supervisor with [LeBudget]: its budget object is
    always that of some history of attempts and health observations, and every
    LE dial of the log is an attempt that history granted. *)
From S2P Require Import Prelude SlidingWindow LeBudget Bearer BearerSteps.

Definition le_dial_time (a : action) : option Z := match a with Dial Le _ _ t => Some t | _ => None end.
Definition le_dials (l : list action) : list Z := omap le_dial_time l.
Lemma le_dials_app l1 l2 : le_dials (l1 ++ l2) = le_dials l1 ++ le_dials l2.
Proof. apply omap_app. Qed.

(** [strict] when no healthy period has been reported. *)
Definition within (strict : bool) (w : World) : Prop :=
  ∃ h, LeBudget.inv h (clock w) ∧ LeBudget.budget h = _le_recovery_budget w ∧ le_dials (log w) `sublist_of` granted h ∧
       (strict = true → reset_at h = None).
(** The same with one grant at this very time still unspent. *)
Definition granted_now (strict : bool) (w : World) : Prop :=
  ∃ h, LeBudget.inv h (clock w) ∧ LeBudget.budget h = _le_recovery_budget w ∧ le_dials (log w) ++ [clock w] `sublist_of` granted h ∧
       (strict = true → reset_at h = None).
Lemma granted_within b w : granted_now b w → within b w.
Proof. intros (h & H1 & H2 & H3 & H4). exists h. split_and!; [done..| |done]. etrans; [|exact H3]. by apply sublist_inserts_r. Qed.

(** What the budget depends on. *)
Record ledger := mkLedger { l_budget : LeRecoveryBudget; l_clock : Z; l_dials : list Z }.
Definition ledger_of (w : World) : ledger := mkLedger (_le_recovery_budget w) (clock w) (le_dials (log w)).
Lemma within_ledger b w w' : ledger_of w' = ledger_of w → within b w → within b w'.
Proof. intros E (h & H). injection E as E1 E2 E3. exists h. by rewrite E1, E2, E3. Qed.
Lemma granted_ledger b w w' : ledger_of w' = ledger_of w → granted_now b w → granted_now b w'.
Proof. intros E (h & H). injection E as E1 E2 E3. exists h. by rewrite E1, E2, E3. Qed.

Lemma take_within b w : within b w →
  let r := take_budget w in within b r.2 ∧ (r.1 = Ok true → granted_now b r.2) ∧ clock r.2 = clock w ∧ le_dials (log r.2) = le_dials (log w).
Proof.
  intros (h & H1 & H2 & H3 & H4). cbn zeta. unfold take_budget. rewrite M_bind_eq. unfold get.
  pose proof (inv_take h (clock w) (clock w) (Z.le_refl _) H1) as Hi. cbn [run_op] in Hi. rewrite H2 in Hi.
  destruct (take_granted (clock w) (_le_recovery_budget w)) as [(E1 & _ & _ & _)|(E1 & _ & _)];
    destruct (take (clock w) (_le_recovery_budget w)) as [r bg]; cbn [fst] in E1; subst r; rewrite M_bind_eq; unfold modify; cbn [fst snd mret].
  - assert (Hg : granted_now b (w <| _le_recovery_budget := bg |>)).
    { exists (mkHistory bg (earlier h) (current h ++ [clock w]) (reset_at h)). rewrite bool_decide_eq_true_2 in Hi by done.
      split; [exact Hi|]. split; [done|]. split; [|done]. unfold granted. cbn. rewrite (assoc_L (++)). by apply sublist_app. }
    split; [by apply granted_within|]. by split_and!.
  - split; [|by split_and!]. exists (mkHistory bg (earlier h) (current h) (reset_at h)).
    rewrite bool_decide_eq_false_2 in Hi by done. by split_and!.
Qed.
Lemma observe_within b healthy proof w : (b = true → healthy = false) → within b w → within b (observe_budget healthy proof w).2.
Proof.
  intros Hb (h & H1 & H2 & H3 & H4). pose proof (inv_observe h (clock w) (clock w) healthy proof (Z.le_refl _) H1) as Hi.
  exists (run_op h (Observe (clock w) healthy proof)). split; [exact Hi|]. cbn [run_op].
  split; [|split].
  - destruct (resets _ _ _ _); cbn; by rewrite H2.
  - destruct (resets _ _ _ _); unfold granted in *; cbn; by rewrite ?app_nil_r.
  - intros Hs. specialize (Hb Hs). subst healthy. cbn. by apply H4.
Qed.
Lemma within_init b l now : within b (World_init l now).
Proof. exists history_init. split; [apply inv_init|]. by split_and!. Qed.

(** ** The code that does not spend *)

Definition unspent : relation World := λ w w', ledger_of w' = ledger_of w.
#[local] Instance unspent_preorder : PreOrder unspent.
Proof. split; unfold unspent; [by intros ?|intros ? ? ? -> ->]; done. Qed.
Ltac unspent := keeps; try reflexivity.

Lemma emit_unspent a : le_dial_time a = None → keeps unspent (emit a).
Proof. intros Ha w. unfold unspent, ledger_of, emit. cbn [modify snd]. f_equal. cbn. rewrite le_dials_app. cbn. by rewrite Ha, app_nil_r. Qed.
#[local] Hint Extern 1 (keeps unspent (emit _)) => (apply emit_unspent; reflexivity) : keeps.
Lemma set_unspent_pace f : keeps unspent (set_pace f).
Proof. unfold set_pace. unspent. Qed.
Lemma set_unspent_bond f : keeps unspent (set_bond f).
Proof. unfold set_bond. unspent. Qed.
Lemma set_unspent_reset f : keeps unspent (set_reset f).
Proof. unfold set_reset. unspent. Qed.
Lemma set_unspent_requests f : keeps unspent (set_requests f).
Proof. unfold set_requests. unspent. Qed.
#[local] Hint Resolve set_unspent_pace set_unspent_bond set_unspent_reset set_unspent_requests : keeps.
Lemma publish_unspent : keeps unspent _publish_reconnect.
Proof. unfold _publish_reconnect. unspent. Qed.
Lemma dial_unspent b : keeps unspent (_set_le_dial_active b).
Proof. unfold _set_le_dial_active. unspent. Qed.
Lemma prefer_unspent env k : keeps unspent (_prefer_bluez env k).
Proof. unfold _prefer_bluez. unspent. Qed.
Lemma clear_unspent k : keeps unspent (_clear_connect_request k).
Proof. unfold _clear_connect_request. unspent. Qed.
#[local] Hint Resolve publish_unspent dial_unspent prefer_unspent clear_unspent : keeps.
Lemma resting_unspent : keeps unspent _enter_bredr_resting.
Proof. unfold _enter_bredr_resting. unspent. Qed.
Lemma restore_unspent env : keeps unspent (_restore_le_preference env).
Proof. unfold _restore_le_preference. unspent. Qed.
Lemma presence_unspent b : keeps unspent (_note_presence b).
Proof. unfold _note_presence. unspent. Qed.
Lemma rearm_unspent : keeps unspent _rearm_le_dial.
Proof. unfold _rearm_le_dial. unspent. Qed.
Lemma stable_unspent k : keeps unspent (_clear_backoff_if_stable k).
Proof. unfold _clear_backoff_if_stable, _reset_classic_backoff_from_le. unspent. Qed.
Lemma burst_unspent : keeps unspent _reset_le_burst.
Proof. unfold _reset_le_burst. unspent. Qed.
Lemma flaps_unspent b : keeps unspent (_clear_le_flaps b).
Proof. unfold _clear_le_flaps. unspent. Qed.
#[local] Hint Resolve resting_unspent restore_unspent presence_unspent rearm_unspent stable_unspent burst_unspent flaps_unspent : keeps.
Lemma failure_unspent k b : keeps unspent (_record_failure k b).
Proof. unfold _record_failure. unspent. Qed.
Lemma held_unspent : keeps unspent _clear_le_flaps_if_held.
Proof. unfold _clear_le_flaps_if_held. unspent. Qed.
Lemma count_unspent b t : keeps unspent (count_le_drop b t).
Proof. unfold count_le_drop. unspent. Qed.
#[local] Hint Resolve failure_unspent held_unspent count_unspent : keeps.
Lemma drop_unspent env d r : keeps unspent (_record_le_drop env d r).
Proof. unfold _record_le_drop. unspent. Qed.
Lemma settle_unspent k v : keeps unspent (_settle_in_progress_connect k v).
Proof. unfold _settle_in_progress_connect. unspent. Qed.
#[local] Hint Resolve drop_unspent settle_unspent : keeps.
Lemma lost_unspent env b : keeps unspent (note_le_lost env b).
Proof. unfold note_le_lost. unspent. Qed.
Lemma bredr_value_unspent v p : keeps unspent (note_bredr_value v p).
Proof. unfold note_bredr_value. unspent. Qed.
Lemma connected_unspent k p : keeps unspent (note_connected k p).
Proof. unfold note_connected. unspent. Qed.
Lemma disconnected_unspent k : keeps unspent (note_disconnected k).
Proof. unfold note_disconnected. unspent. Qed.
Lemma succeeded_unspent env k g id : keeps unspent (_connect_succeeded env k g id).
Proof. unfold _connect_succeeded. unspent. Qed.
Lemma give_up_unspent k p : keeps unspent (give_up_connect k p).
Proof. unfold give_up_connect. unspent. Qed.
#[local] Hint Resolve lost_unspent bredr_value_unspent connected_unspent disconnected_unspent succeeded_unspent give_up_unspent : keeps.
Lemma read_unspent rs k : keeps unspent (_read rs k).
Proof.
  intros w. unfold _read.
  assert (H : unspent w (_connected_property rs k w).2).
  { unfold _connected_property, get_property. destruct k; repeat (case_match; subst); done. }
  destruct (_connected_property rs k w) as [[v|e] w']; (etrans; [exact H|]); [exact (emit_unspent OnBluezOk eq_refl w')|
    exact (emit_unspent OnBluezError eq_refl w')].
Qed.
#[local] Hint Resolve read_unspent : keeps.

(** ** The code that spends *)

Section spending.
Context (strict : bool).
Abbreviation thrifty := (keeps (holding (within strict))).

Lemma unspent_thrifty {A} (m : M World A) : keeps unspent m → thrifty m.
Proof. intros Hm w Hw. exact (within_ledger strict w _ (Hm w) Hw). Qed.
Hint Extern 1 (keeps (holding (within strict)) _) => (apply unspent_thrifty; solve [auto 1 with keeps nocore]) : keeps.
Ltac thrifty := keeps; try (refine (within_ledger _ _ _ _); reflexivity).

Lemma take_thrifty : thrifty take_budget.
Proof. intros w Hw. exact (proj1 (take_within strict w Hw)). Qed.
Lemma observe_thrifty : thrifty (observe_budget false None).
Proof. intros w Hw. exact (observe_within strict false None w (λ _, eq_refl) Hw). Qed.
Hint Resolve take_thrifty observe_thrifty : keeps.
Lemma le_value_thrifty v p : thrifty (note_le_value v p).
Proof. unfold note_le_value. thrifty. Qed.
Hint Resolve le_value_thrifty : keeps.
Lemma observe_state_thrifty env k v d n : thrifty (observe_state env k v d n).
Proof. unfold observe_state. thrifty. Qed.
Hint Resolve observe_state_thrifty : keeps.
Lemma retarget_thrifty r : thrifty r → thrifty (_retarget_pending_classic_connect r).
Proof. intros Hr. unfold _retarget_pending_classic_connect. thrifty. Qed.
Lemma update_thrifty env r k v d n : thrifty r → thrifty (_update_state env r k v d n).
Proof. intros Hr. pose proof (retarget_thrifty r Hr). unfold _update_state. thrifty. Qed.
Lemma refresh_thrifty env r rs n : thrifty r → thrifty (_refresh_le_state env r rs n).
Proof. intros Hr. pose proof (λ k v d n, update_thrifty env r k v d n Hr). unfold _refresh_le_state. thrifty. Qed.
Lemma failed_thrifty env r k e g id : thrifty r → thrifty (_connect_failed env r k e g id).
Proof.
  intros Hr. pose proof (λ k v d n, update_thrifty env r k v d n Hr). pose proof (λ rs n, refresh_thrifty env r rs n Hr).
  unfold _connect_failed. thrifty.
Qed.

(** A dial of LE spends the grant of this moment; one of Classic none. *)
Lemma dial_within w t m : granted_now strict w → within strict (emit (Dial Le t m (clock w)) w).2.
Proof.
  intros (h & H1 & H2 & H3 & H4). exists h. split; [exact H1|]. split; [exact H2|]. split; [|exact H4].
  unfold emit. cbn [modify snd]. change (le_dials (log w ++ [Dial Le t m (clock w)]) `sublist_of` granted h). by rewrite le_dials_app.
Qed.
Lemma send_bredr_thrifty env t m g id : thrifty (send_connect env Bredr t m g id).
Proof. apply unspent_thrifty. unfold send_connect, send. unspent. Qed.
Lemma send_le_within env t m g id w : granted_now strict w → within strict (send_connect env Le t m g id w).2.
Proof.
  intros Hw. unfold send_connect. rewrite M_bind_eq, M_bind_eq. pose proof (dial_unspent true w) as H1.
  assert (E1 : ∃ w1, _set_le_dial_active true w = (Ok (), w1)).
  { unfold _set_le_dial_active. rewrite M_bind_eq. unfold get. destruct (Bool.eqb _ _); eexists; reflexivity. }
  destruct E1 as [w1 E1]. rewrite E1 in H1 |- *. cbn [snd] in H1. apply (granted_ledger strict w w1 H1) in Hw.
  cbn [mret M_ret]. rewrite M_bind_eq. unfold get. rewrite M_bind_eq. pose proof (dial_within w1 t m Hw) as H2.
  destruct (emit _ w1) as [[u|x] w2] eqn:E2; [|done].
  refine (unspent_thrifty _ _ _ H2). unfold send. unspent.
Qed.
Lemma request_thrifty env fuel k m : thrifty (_request_connect env fuel k m).
Proof.
  revert k m. induction fuel as [|fuel IH]; intros k m; cbn [_request_connect]; [by intros w|].
  pose proof (λ k e g id, failed_thrifty env (_request_connect env fuel Bredr false) k e g id (IH Bredr false)) as Hf.
  apply stable_get_bind. intros w Hw. destruct (negb _); [done|]. destruct k.
  - pose proof send_bredr_thrifty.
    match goal with |- within strict (?x w).2 => enough (Ht : thrifty x) by exact (Ht w Hw) end. thrifty.
  - rewrite M_bind_eq, M_bind_eq. destruct (take_within strict w Hw) as (H1 & H2 & _).
    destruct (take_budget w) as [[[]|x] w1]; cbn [fst snd] in *; [|done|done]. specialize (H2 eq_refl). cbn [when].
    rewrite M_bind_eq. unfold modify at 1. cbn [mret M_ret negb]. rewrite !(bool_decide_false (Le = Bredr)) by done. cbn [andb when]. rewrite M_bind_eq. cbn [mret M_ret]. rewrite M_bind_eq. unfold set_requests, modify at 1. rewrite M_bind_eq.
    match goal with |- context [send_connect env Le ?t m ?g ?id ?x] => pose proof (send_le_within env t m g id x H2) as H3;
      destruct (send_connect env Le t m g id x) as [[[e|]|y] w2] end; cbn [snd] in H3; [|done..].
    by apply Hf.
Qed.
End spending.

(** ** Every event *)

Lemma within_vital strict w w' : vital_of w' = vital_of w → within strict w → within strict w'.
Proof.
  intros E. injection E as E1 _ _ _ _ E2 E3. apply within_ledger. unfold ledger_of. f_equal; [done..|].
  assert (Hd : ∀ l, le_dials l = le_dials (dials l)).
  { induction l as [|[] l IH]; [done| |exact IH..]. cbn. destruct k; [exact IH|]. by f_equal. }
  by rewrite (Hd (log w')), (Hd (log w)), E3.
Qed.
Lemma budget_vital strict env : vital_kept env (holding (within strict)).
Proof.
  assert (Hr : ∀ k m, keeps (holding (within strict)) (request_connect env k m)) by (intros; unfold request_connect; apply request_thrifty).
  specialize (Hr Bredr false) as Hn.
  split.
  - intros w w' E. exact (within_vital strict w w' E).
  - intros v d n _. unfold update_state. exact (update_thrifty strict env _ Bredr v d n Hn).
  - intros v d n. unfold update_state. exact (update_thrifty strict env _ Le v d n Hn).
  - exact Hr.
  - intros k g id. apply unspent_thrifty, succeeded_unspent.
  - intros k e g id. unfold connect_failed. exact (failed_thrifty strict env _ k e g id Hn).
  - apply take_thrifty.
  - apply unspent_thrifty, presence_unspent.
  - apply unspent_thrifty. unfold forget_classic_backoff. unspent.
  - apply unspent_thrifty, set_unspent_pace.
  - apply unspent_thrifty. unfold forget_bluez, drop_operations, _cancel_le_settle, forget_damping, _abort_profile_reset. unspent.
  - apply unspent_thrifty. unfold stop, drop_operations, _cancel_le_settle, forget_damping, _abort_profile_reset. unspent.
Qed.

(** An event that reports a healthy period. *)
Definition reports_health (e : event) : bool := match e with EAncsHealth healthy _ => healthy | _ => false end.
Lemma step_within strict env e w : (strict = true → reports_health e = false) → within strict w → within strict (step env e w).2.
Proof.
  intros He Hw. destruct (special e) eqn:Es.
  2:{ exact (step_kept env _ (budget_vital strict env) e Es w Hw). }
  destruct e; try discriminate; cbn [step].
  - unfold observe_ancs_health. rewrite M_bind_eq.
    assert (H1 : within strict (when healthy (set_reset (λ r, r <| _le_reset_wanted := None |>)) w).2) by by destruct healthy.
    destruct (when healthy _ w) as [[u|x] w1]; [|done]. by apply observe_within.
  - rewrite M_bind_eq. unfold get. destruct (_unwatch_bredr w); [|done].
    refine (unspent_thrifty strict _ _ w Hw). unfold _on_bredr_disconnected_signal. unspent.
  - destruct Hw as (h & H1 & H2). exists h. split; [|exact H2]. revert H1. apply inv_later. cbn. lia.
Qed.

Lemma sublist_in_window secs t l l' : l `sublist_of` l' → zlen (in_window secs t l) <= zlen (in_window secs t l').
Proof.
  intros Hl. unfold in_window. induction Hl as [|x l l' Hl IH|x l l' Hl IH]; cbn; [done|..];
    destruct (_ && _); rewrite ?zlen_cons; lia.
Qed.
Lemma sublist_rate_ok secs n l l' : l `sublist_of` l' → rate_ok secs n l' → rate_ok secs n l.
Proof. intros Hl Hr t. etrans; [by apply sublist_in_window|apply Hr]. Qed.
Lemma spaced_all d x l : 0 <= d → spaced d (x :: l) → Forall (λ y, x + d <= y) l.
Proof.
  intros Hd. revert x. induction l as [|y l IH]; intros x Hs; [done|]. destruct Hs as [Hxy Hs]. constructor; [done|].
  eapply Forall_impl; [exact (IH y Hs)|]. cbn. lia.
Qed.
Lemma spaced_of_all d x l : Forall (λ y, x + d <= y) l → spaced d l → spaced d (x :: l).
Proof. destruct l as [|y l]; [done|]. intros [Hy _]%Forall_cons Hs. by split. Qed.
Lemma sublist_spaced d l l' : 0 <= d → l `sublist_of` l' → spaced d l' → spaced d l.
Proof.
  intros Hd Hl. induction Hl as [|x l l' Hl IH|x l l' Hl IH]; intros Hs; [done|..].
  - apply spaced_of_all; [|apply IH; by destruct l' as [|y l']; [|destruct Hs]].
    apply spaced_all in Hs; [|done]. rewrite Forall_forall in Hs |- *. intros y Hy. apply Hs.
    eapply elem_of_submseteq; [exact Hy|]. by apply sublist_submseteq.
  - apply IH. by destruct l' as [|y l']; [|destruct Hs].
Qed.

(** C22: The LE bearer is not hammered, whatever happens.  After any sequence of
    requests, polls, signals and replies, with any answers of BlueZ: two LE
    dials are at least 30 s apart, no three minutes hold more than three, and
    as long as no healthy period of ANCS has been reported no ten minutes hold
    more than four.  Restarts of bluetoothd, stops and lost links do not refund
    an attempt. *)
Theorem le_dials_budgeted es le_enabled now :
  let times := le_dials (log (run es (World_init le_enabled now))) in
  spaced (sec 30) times ∧ rate_ok (sec 180) 3 times ∧
  (forallb (λ '(_, e), negb (reports_health e)) es = true → rate_ok WINDOW_SECONDS MAX_ATTEMPTS times).
Proof.
  assert (Hrun : ∀ strict, (strict = true → forallb (λ '(_, e), negb (reports_health e)) es = true) →
    within strict (run es (World_init le_enabled now))).
  { intros strict Hs. unfold run. apply run_all_invariant; [|apply within_init].
    intros m w Hin Hw. apply list_elem_of_fmap in Hin as (p & -> & Hin). destruct p as [env e]. apply step_within; [|done].
    intros Ht. specialize (Hs Ht). rewrite forallb_forall in Hs. specialize (Hs (env, e) (proj1 (list_elem_of_In _ _) Hin)).
    by apply negb_true_iff in Hs. }
  cbn zeta. destruct (Hrun false) as (h & Hi & _ & Hsub & _); [done|].
  split; [by eapply sublist_spaced; [|exact Hsub|apply (inv_spaced _ _ Hi)]|].
  split; [by eapply sublist_rate_ok; [exact Hsub|apply (inv_burst _ _ Hi)]|]. intros Hq.
  destruct (Hrun true) as (h' & Hi' & _ & Hsub' & Hr); [done|]. eapply sublist_rate_ok; [exact Hsub'|].
  pose proof (inv_reset _ _ Hi') as He. rewrite (Hr eq_refl) in He. unfold granted. rewrite He. apply (inv_rate _ _ Hi').
Qed.
