(* ===== verification/Proximity.v ===== *)
(** * Proximity: locking the desktop after the phone has been away
    (src/blueferry/proximity_lock.py).

    [ProximityLock] with its timers, and [DesktopLocker], whose D-Bus calls are
    answered in later events.  A presence reading and the calls the bus refuses
    at once are arguments of every event.  What [read_presence], the public
    operations and the locker are called with is recorded in [log]. *)
From S2P Require Import Prelude.

(** ** Settings and readings *)

Definition DEFAULT_GRACE_SEC : Z := 60.
Definition MIN_GRACE_SEC : Z := 10.
Definition MAX_GRACE_SEC : Z := 3600.
Definition PRESENCE_SETTLE_SEC : Z := 6.

(** An untrusted settings value: a [bool], an [int], another object that
    [int()] converts, one for which it raises [TypeError] or [ValueError], and
    an infinite [float], for which it raises [OverflowError]. *)
Inductive value := VBool (b : bool) | VInt (n : Z) | VConvertible (n : Z) | VUnconvertible | VInfinite.

Definition to_int (v : value) : result Z :=
  match v with
  | VBool b => Ok (Z.b2z b)
  | VInt n | VConvertible n => Ok n
  | VUnconvertible => Raise (ValueError "invalid literal")
  | VInfinite => Raise (RuntimeError "OverflowError")
  end.

Definition clamp_grace (v : value) (default : Z) : result Z :=
  if v is VBool _ then Ok default
  else
    match to_int v with
    | Ok selected => Ok (Z.max MIN_GRACE_SEC (Z.min selected MAX_GRACE_SEC))
    | Raise (ValueError _) => Ok default
    | Raise e => Raise e
    end.

Definition presence_from_bearers (bredr le : option bool) : option bool :=
  if bool_decide (bredr = Some true) || bool_decide (le = Some true) then Some true
  else if bool_decide (bredr = Some false) then Some false
  else None.

(** [ProximityLockSettings.set]: the arguments that are saved. *)
Definition set_settings (enabled grace_sec : value) : result (bool * Z) :=
  match enabled with
  | VBool e =>
      match grace_sec with
      | VInt n => if (MIN_GRACE_SEC <=? n) && (n <=? MAX_GRACE_SEC) then Ok (e, n)
                  else Raise (ValueError "proximity lock grace period must be between 10 and 3600 seconds")
      | _ => Raise (ValueError "proximity lock grace period must be an integer")
      end
  | _ => Raise (ValueError "proximity lock enabled must be a boolean")
  end.

(** The settings read at startup: what the document holds, or the defaults. *)
Definition initial_settings (stored_enabled stored_grace : option value) (config_enabled : bool) (config_grace : value) : result (bool * Z) :=
  fallback ← clamp_grace config_grace DEFAULT_GRACE_SEC;
  grace ← clamp_grace (default VUnconvertible stored_grace) fallback;
  mret (if stored_enabled is Some (VBool e) then e else config_enabled, grace).

(** ** Reasons, states, calls *)

Inductive reason :=
  | INHIBIT_SLEEP | INHIBIT_ADAPTER_OFF | INHIBIT_DISCOVERING | INHIBIT_RECOVERY | INHIBIT_FORGOTTEN
  | INHIBIT_STOPPED | INHIBIT_LOCAL_DISCONNECT.
#[global] Instance reason_eq_dec : EqDecision reason.
Proof. solve_decision. Defined.
Definition reason_value (r : reason) : string :=
  match r with
  | INHIBIT_SLEEP => "sleep" | INHIBIT_ADAPTER_OFF => "adapter-off" | INHIBIT_DISCOVERING => "discovering"
  | INHIBIT_RECOVERY => "recovery" | INHIBIT_FORGOTTEN => "forgotten" | INHIBIT_STOPPED => "stopped"
  | INHIBIT_LOCAL_DISCONNECT => "local-disconnect"
  end.

Inductive lock_state := STATE_DISABLED | STATE_IDLE | STATE_ARMED | STATE_GRACE | STATE_LOCKED.
#[global] Instance lock_state_eq_dec : EqDecision lock_state.
Proof. solve_decision. Defined.
Definition state_value (s : lock_state) : string :=
  match s with
  | STATE_DISABLED => "disabled" | STATE_IDLE => "idle" | STATE_ARMED => "armed" | STATE_GRACE => "grace"
  | STATE_LOCKED => "locked"
  end.

Definition RESULT_SCREENSAVER : string := "screensaver".
Definition RESULT_SCREENSAVER_REQUESTED : string := "screensaver-requested".
Definition RESULT_LOGIN1 : string := "login1".
Definition RESULT_FAILED : string := "failed".
Definition _NO_REPLY_ERRORS : list string :=
  ["org.freedesktop.DBus.Error.NoReply"; "org.freedesktop.DBus.Error.Timeout"; "org.freedesktop.DBus.Error.TimedOut"].

(** The calls of [DesktopLocker].  A session lock remembers what its error
    handler falls back to. *)
Inductive fallback := ThenEnv | ThenAuto | ThenFail.
#[global] Instance fallback_eq_dec : EqDecision fallback.
Proof. solve_decision. Defined.
Inductive call :=
  | ScreenSaverLock
  | GetSessionByPID
  | GetSession (session_id : string)
  | SessionLock (path : string) (fall : fallback).
#[global] Instance call_eq_dec : EqDecision call.
Proof. solve_decision. Defined.

Definition SESSION_PREFIX : string := "/org/freedesktop/login1/session/".
Definition AUTO_PATH : string := "/org/freedesktop/login1/session/auto".
Definition session_path (path : string) : bool := String.prefix SESSION_PREFIX path.

(** [_SESSION_ID_RE]: one to 64 letters, digits, underscores and hyphens. *)
Definition session_char (a : Ascii.ascii) : bool :=
  let n := Ascii.N_of_ascii a in
  ((65 <=? n) && (n <=? 90) || (97 <=? n) && (n <=? 122) || (48 <=? n) && (n <=? 57) || (n =? 95) || (n =? 45))%N.
Definition _session_id (xdg : string) : string :=
  if (1 <=? String.length xdg)%nat && (String.length xdg <=? 64)%nat && forallb session_char (String.list_ascii_of_string xdg)
  then xdg else "".

(** ** The state *)

Inductive action :=
  | Configured (enabled : bool) (grace : Z)
  | Inhibited (r : reason) (active : bool)
  | Resetting
  | Stopping
  | Read (t : time) (v : option bool)
  | Locking (t : time)
  | Calling (c : call)
  | OnStatus.

Record public := mkPublic {
  p_state : lock_state; p_enabled : bool; p_grace : Z; p_inhibitors : list reason; p_result : string;
}.
#[global] Instance public_eq_dec : EqDecision public.
Proof. solve_decision. Defined.

(** The set of inhibitors is a list without duplicates in the order of the
    names, as [sorted] gives it. *)
Definition ALL_REASONS : list reason :=
  [INHIBIT_ADAPTER_OFF; INHIBIT_DISCOVERING; INHIBIT_FORGOTTEN; INHIBIT_LOCAL_DISCONNECT; INHIBIT_RECOVERY; INHIBIT_SLEEP; INHIBIT_STOPPED].
Definition add_reason (r : reason) (rs : list reason) : list reason := filter (λ x, x = r ∨ x ∈ rs) ALL_REASONS.
Definition discard_reason (r : reason) (rs : list reason) : list reason := filter (λ x, x ≠ r) rs.

Record World := mkWorld {
  _enabled : bool;
  _grace : Z;
  _state : lock_state;
  _inhibitors : list reason;
  _absent_since : option time;
  _timer_id : option time;   (* when the source is due *)
  _settle_id : option time;
  _last_result : string;
  _dispatching : bool;
  _generation : Z;
  _published : public;
  clock : time;
  calls : list (call * Z);   (* unanswered, with the lock's generation *)
  log : list action;
}.

(** What the environment answers during one event. *)
Record Env := mkEnv {
  read_presence : result (option bool);
  refuses : call → option string;   (* the error a call raises when it is sent *)
  xdg_session_id : string;          (* the stripped environment variable *)
}.

Definition emit (a : action) : M World () := modify (λ w : World, w <| log ::= λ l, l ++ [a] |>).

Definition _public (w : World) : public :=
  mkPublic (_state w) (_enabled w) (_grace w) (_inhibitors w) (_last_result w).

(** [math.ceil] of a duration in seconds. *)
Definition ceil_sec (t : time) : Z := - ((- t) / 1000000).

Record Snapshot := mkSnapshot {
  proximity_lock : string; proximity_lock_enabled : bool; proximity_lock_grace_sec : Z;
  proximity_lock_remaining_sec : Z; proximity_lock_inhibited : string; proximity_lock_last_result : string;
}.
Definition snapshot (w : World) : Snapshot :=
  mkSnapshot (state_value (_state w)) (_enabled w) (_grace w)
    (match _state w, _absent_since w with
     | STATE_GRACE, Some since => Z.max 0 (ceil_sec (since + sec (_grace w) - clock w))
     | _, _ => 0
     end)
    (String.concat "," (reason_value <$> _inhibitors w)) (_last_result w).

Definition publish (current : public) : M World () :=
  w ← get;
  if bool_decide (current = _published w) then mret ()
  else modify (λ w : World, w <| _published := current |>);; emit OnStatus.
Definition _emit_if_changed : M World () := w ← get; publish (_public w).

(** ** Timers *)

Definition _cancel_timer : M World () := modify (λ w : World, w <| _timer_id := None |>).
Definition _cancel_settle : M World () := modify (λ w : World, w <| _settle_id := None |>).
Definition _forget_presence : M World () :=
  _cancel_timer;; _cancel_settle;; modify (λ w : World, w <| _absent_since := None |>).
Definition _schedule_settle : M World () :=
  _cancel_settle;; modify (λ w : World, w <| _settle_id := Some (clock w + sec PRESENCE_SETTLE_SEC) |>).
Definition _arm_timer : M World () :=
  _cancel_timer;;
  w ← get;
  match _absent_since w with
  | None => mret ()
  | Some since =>
      let remaining := since + sec (_grace w) - clock w in
      modify (λ w : World, w <| _timer_id := Some (clock w + sec (Z.max 1 (ceil_sec remaining))) |>)
  end.

Definition set_state (s : lock_state) : M World () := modify (λ w : World, w <| _state := s |>).

(** ** The locker *)

Section lock.
Context (env : Env).

(** The callback of a lock: [done] of [_dispatch]. *)
Definition done (generation : Z) (res : string) : M World () :=
  modify (λ w : World, w <| _dispatching := false |>);;
  w ← get;
  if negb (generation =? _generation w) then mret ()
  else modify (λ w : World, w <| _last_result := res |>);; _emit_if_changed.

(** [_invoke]: the call is sent, or raises and its error handler runs. *)
Definition _invoke (generation : Z) (c : call) (error : string → M World ()) : M World () :=
  match refuses env c with
  | Some name => error name
  | None => emit (Calling c);; modify (λ w : World, w <| calls ::= λ l, l ++ [(c, generation)] |>)
  end.

Definition lock_failed (generation : Z) (error : string) : M World () := done generation RESULT_FAILED.

Definition _lock_login1_session (generation : Z) (path : string) (fall : fallback) (fallback : string → M World ()) : M World () :=
  if negb (session_path path) then fallback "ValueError"
  else _invoke generation (SessionLock path fall) fallback.

Definition _lock_login1_auto (generation : Z) : M World () :=
  _lock_login1_session generation AUTO_PATH ThenFail (lock_failed generation).

Definition _lock_login1_by_env (generation : Z) : M World () :=
  let session_id := _session_id (xdg_session_id env) in
  if String.eqb session_id "" then _lock_login1_auto generation
  else _invoke generation (GetSession session_id) (λ _, _lock_login1_auto generation).

Definition _lock_login1_by_pid (generation : Z) : M World () :=
  _invoke generation GetSessionByPID (λ _, _lock_login1_by_env generation).

Definition screensaver_failed (generation : Z) (error : string) : M World () :=
  if bool_decide (error ∈ _NO_REPLY_ERRORS) then done generation RESULT_SCREENSAVER_REQUESTED
  else _lock_login1_by_pid generation.

Definition locker_lock (generation : Z) : M World () :=
  _invoke generation ScreenSaverLock (screensaver_failed generation).

(** What follows a failed session lock. *)
Definition fall_back (generation : Z) (fall : fallback) (error : string) : M World () :=
  match fall with
  | ThenEnv => _lock_login1_by_env generation
  | ThenAuto => _lock_login1_auto generation
  | ThenFail => lock_failed generation error
  end.

(** The reply and the error handler of each call. *)
Definition on_reply (generation : Z) (c : call) (path : string) : M World () :=
  match c with
  | ScreenSaverLock => done generation RESULT_SCREENSAVER
  | GetSessionByPID => _lock_login1_session generation path ThenEnv (fall_back generation ThenEnv)
  | GetSession _ => _lock_login1_session generation path ThenAuto (fall_back generation ThenAuto)
  | SessionLock _ _ => done generation RESULT_LOGIN1
  end.
Definition on_error (generation : Z) (c : call) (error : string) : M World () :=
  match c with
  | ScreenSaverLock => screensaver_failed generation error
  | GetSessionByPID => _lock_login1_by_env generation
  | GetSession _ => _lock_login1_auto generation
  | SessionLock _ fall => fall_back generation fall error
  end.

(** ** The lock *)

Definition _dispatch : M World () :=
  modify (λ w : World, w <| _absent_since := None |>);;
  set_state STATE_LOCKED;;
  w ← get;
  if _dispatching w then mret ()
  else
    modify (λ w : World, w <| _dispatching := true |>);;
    emit (Locking (clock w));;
    locker_lock (_generation w).

Definition _read : M World (option bool) :=
  w ← get;
  let present := match read_presence env with Ok v => v | Raise _ => None end in
  emit (Read (clock w) present);;
  mret present.

Definition _observe (present : option bool) : M World () :=
  match present with
  | Some true =>
      _cancel_timer;; _cancel_settle;;
      modify (λ w : World, w <| _absent_since := None |>);;
      set_state STATE_ARMED
  | None => mret ()
  | Some false =>
      w ← get;
      when (bool_decide (_state w = STATE_ARMED))
        (modify (λ w : World, w <| _absent_since := Some (clock w) |>);; set_state STATE_GRACE;; _arm_timer)
  end.

Definition heeded (w : World) : bool := _enabled w && bool_decide (_inhibitors w = []).

Definition configure (enabled : bool) (grace_sec : value) : M World () :=
  grace ← lift (clamp_grace grace_sec DEFAULT_GRACE_SEC);
  w ← get;
  emit (Configured enabled grace);;
  modify (λ w : World, w <| _enabled := enabled |> <| _grace := grace |>);;
  (if negb enabled then _forget_presence;; set_state STATE_DISABLED
   else if negb (_enabled w) then set_state STATE_IDLE;; _schedule_settle
   else when (bool_decide (_state w = STATE_GRACE)) _arm_timer);;
  _emit_if_changed.

Definition bearer_changed : M World () :=
  present ← _read;
  when (bool_decide (present = Some true))
    (modify (λ w : World, w <| _inhibitors ::= discard_reason INHIBIT_LOCAL_DISCONNECT |>));;
  w ← get;
  when (heeded w) (_observe present);;
  _emit_if_changed.

Definition inhibit (r : reason) (active : bool) : M World () :=
  emit (Inhibited r active);;
  w ← get;
  (if active && negb (bool_decide (r ∈ _inhibitors w)) then
     modify (λ w : World, w <| _inhibitors ::= add_reason r |>);;
     _forget_presence;;
     when (_enabled w) (set_state STATE_IDLE)
   else if negb active && bool_decide (r ∈ _inhibitors w) then
     modify (λ w : World, w <| _inhibitors ::= discard_reason r |>);;
     w ← get;
     when (heeded w) _schedule_settle
   else mret ());;
  _emit_if_changed.

Definition local_disconnect : M World () := inhibit INHIBIT_LOCAL_DISCONNECT true.
Definition suspending : M World () := inhibit INHIBIT_SLEEP true.
Definition resumed : M World () := inhibit INHIBIT_SLEEP false.

Definition reset : M World () :=
  emit Resetting;;
  _forget_presence;;
  w ← get;
  when (_enabled w) (set_state STATE_IDLE);;
  _emit_if_changed.

Definition stop : M World () :=
  emit Stopping;;
  modify (λ w : World, w <| _inhibitors ::= add_reason INHIBIT_STOPPED |>);;
  _forget_presence;;
  modify (λ w : World, w <| _generation ::= Z.succ |>).

Definition _settled : M World () :=
  modify (λ w : World, w <| _settle_id := None |>);;
  w ← get;
  when (heeded w && bool_decide (_state w = STATE_IDLE))
    (present ← _read; when (bool_decide (present = Some true)) (_observe (Some true)));;
  _emit_if_changed.

Definition _grace_elapsed : M World () :=
  modify (λ w : World, w <| _timer_id := None |>);;
  w ← get;
  match _absent_since w with
  | Some since =>
      if negb (heeded w) || negb (bool_decide (_state w = STATE_GRACE)) then mret ()
      else
        present ← _read;
        (match present with
         | Some true => _observe (Some true)
         | None => modify (λ w : World, w <| _absent_since := None |>);; set_state STATE_IDLE
         | Some false => if clock w <? since + sec (_grace w) then _arm_timer else _dispatch
         end);;
        _emit_if_changed
  | None => mret ()
  end.
End lock.

(** ** The main loop *)

(** The reasons the daemon gives; [stop] alone adds [INHIBIT_STOPPED]. *)
Inductive cause := CAdapterOff | CDiscovering | CRecovery | CForgotten.
Definition cause_reason (c : cause) : reason :=
  match c with
  | CAdapterOff => INHIBIT_ADAPTER_OFF | CDiscovering => INHIBIT_DISCOVERING | CRecovery => INHIBIT_RECOVERY
  | CForgotten => INHIBIT_FORGOTTEN
  end.

Inductive event :=
  | EConfigure (enabled : bool) (grace : value)
  | EBearer
  | ECause (c : cause) (active : bool)
  | ELocalDisconnect
  | ESuspending
  | EResumed
  | EReset
  | EStop
  | ESettled
  | EGrace
  | EReply (i : nat) (path : string)
  | EError (i : nat) (name : string)
  | ETime (d : Z).

Definition on_timer (armed : World → option time) (m : M World ()) : M World () :=
  w ← get; if armed w is Some _ then m else mret ().
(** The answer to the [i]th unanswered call. *)
Definition answered (i : nat) (f : Z → call → M World ()) : M World () :=
  w ← get;
  match calls w !! i with
  | Some (c, generation) => modify (λ w : World, w <| calls ::= delete i |>);; f generation c
  | None => mret ()
  end.

Definition step (env : Env) (e : event) : M World () :=
  match e with
  | EConfigure enabled grace => configure enabled grace
  | EBearer => bearer_changed env
  | ECause c active => inhibit (cause_reason c) active
  | ELocalDisconnect => local_disconnect
  | ESuspending => suspending
  | EResumed => resumed
  | EReset => reset
  | EStop => stop
  | ESettled => on_timer _settle_id (_settled env)
  | EGrace => on_timer _timer_id (_grace_elapsed env)
  | EReply i path => answered i (λ g c, on_reply env g c path)
  | EError i name => answered i (λ g c, on_error env g c name)
  | ETime d => modify (λ w : World, w <| clock ::= λ t, t + Z.max 0 d |>)
  end.

Definition World_init (enabled : bool) (grace : Z) (now : time) : World :=
  let s := if enabled then STATE_IDLE else STATE_DISABLED in
  mkWorld enabled grace s [] None None None "" false 0 (mkPublic s enabled grace [] "") now [] [].
Definition create (enabled : bool) (grace_sec : value) (now : time) : result World :=
  grace ← clamp_grace grace_sec DEFAULT_GRACE_SEC; mret (World_init enabled grace now).

Definition run (es : list (Env * event)) (w : World) : World := run_all ((λ '(env, e), step env e) <$> es) w.

(** An evening: the phone is seen, leaves, and after the grace period the
    ScreenSaver service locks the desktop. *)
Definition sees (v : option bool) : Env := mkEnv (Ok v) (λ _, None) "".
Example evening : 
  let w := run [(sees (Some true), EBearer); (sees None, ETime (sec 30)); (sees (Some false), EBearer); (sees None, ETime (sec 60));
                (sees (Some false), EGrace); (sees None, EReply 0 "")] (World_init true 60 0) in
  (log w, state_value (_state w), _last_result w, calls w) =
  ([Read 0 (Some true); OnStatus; Read (sec 30) (Some false); OnStatus; Read (sec 90) (Some false); Locking (sec 90);
    Calling ScreenSaverLock; OnStatus; OnStatus], "locked", "screensaver", []).
Proof. vm_compute. reflexivity. Qed.
(** A stored grace period that [json] reads as infinity. *)
Example infinite_grace : initial_settings None (Some VInfinite) true (VInt 60) = Raise (RuntimeError "OverflowError").
Proof. reflexivity. Qed.
