(* ===== verification/ProximitySafety.v ===== *)
(** * ProximitySafety: when the desktop is locked, and that it is
    (src/blueferry/proximity_lock.py).

    [lock_grounded] reads a lock's grounds off the log alone; [absence_locks]
    shows that a grace period always ends; [lock_order] that the asynchronous
    [DesktopLocker] tries what a short reference function tries. *)
From S2P Require Import Prelude Proximity.

(** ** What the log says *)

Section monitor.
Context (e0 : bool) (g0 : Z).

(** Whether the lock is enabled, its grace period, and whether a reason holds
    it back, after the operations and readings of [l]. *)
Definition enabled_after (l : list action) : bool := fold_left (λ on a, if a is Configured b _ then b else on) l e0.
Definition grace_after (l : list action) : Z := fold_left (λ g a, if a is Configured _ n then n else g) l g0.
Definition blocks (r : reason) (b : bool) (a : action) : bool :=
  match a with
  | Inhibited r' active => if bool_decide (r = r') then active else b
  | Read _ (Some true) => b && negb (bool_decide (r = INHIBIT_LOCAL_DISCONNECT))
  | Stopping => b || bool_decide (r = INHIBIT_STOPPED)
  | _ => b
  end.
Definition blocking (r : reason) (l : list action) : bool := fold_left (blocks r) l false.
Definition heeding (l : list action) : bool := enabled_after l && forallb (λ r, negb (blocking r l)) ALL_REASONS.

(** Nothing that makes the lock forget the phone, and no sight of it. *)
Definition quiet (a : action) : bool :=
  match a with
  | Locking _ | Inhibited _ true | Resetting | Stopping | Configured false _ | Read _ (Some true) => false
  | _ => true
  end.
(** Nor a reading that it is away. *)
Definition calm (a : action) : bool := quiet a && (if a is Read _ (Some false) then false else true).

(** The phone was last seen at [p], by a reading the lock heeds. *)
Definition seen (l : list action) : Prop :=
  ∃ la p lb, l = la ++ Read p (Some true) :: lb ∧ heeding (la ++ [Read p (Some true)]) = true ∧ Forall (λ a, calm a = true) lb.
(** And it has been away since [s]. *)
Definition away (s : time) (l : list action) : Prop :=
  ∃ la p lb lc, l = la ++ Read p (Some true) :: lb ++ Read s (Some false) :: lc ∧
    heeding (la ++ [Read p (Some true)]) = true ∧ Forall (λ a, calm a = true) lb ∧ Forall (λ a, quiet a = true) lc.

(** The grounds for locking at [t]. *)
Definition grounds (t : time) (l : list action) : Prop :=
  ∃ s l', l = l' ++ [Read t (Some false)] ∧ away s l' ∧ s + sec (grace_after l) <= t ∧
    MIN_GRACE_SEC <= grace_after l <= MAX_GRACE_SEC.
Definition all_grounded (l : list action) : Prop := ∀ l1 t l2, l = l1 ++ Locking t :: l2 → grounds t l1.

#[local] Arguments enabled_after : simpl never.
#[local] Arguments grace_after : simpl never.
#[local] Arguments blocking : simpl never.
#[local] Arguments heeding : simpl never.
#[local] Arguments heeded : simpl never.

Lemma enabled_snoc l a : enabled_after (l ++ [a]) = if a is Configured b _ then b else enabled_after l.
Proof. unfold enabled_after. rewrite fold_left_app. by destruct a. Qed.
Lemma grace_snoc l a : grace_after (l ++ [a]) = if a is Configured _ n then n else grace_after l.
Proof. unfold grace_after. rewrite fold_left_app. by destruct a. Qed.
Lemma blocking_snoc r l a : blocking r (l ++ [a]) = blocks r (blocking r l) a.
Proof. unfold blocking. by rewrite fold_left_app. Qed.

Lemma seen_snoc l a : calm a = true → seen l → seen (l ++ [a]).
Proof.
  intros Ha (la & p & lb & -> & Hh & Hb). exists la, p, (lb ++ [a]). rewrite <- app_assoc.
  split; [done|]. split; [done|]. apply Forall_app; split; [done|]. by constructor.
Qed.
Lemma away_snoc s l a : quiet a = true → away s l → away s (l ++ [a]).
Proof.
  intros Ha (la & p & lb & lc & -> & Hh & Hb & Hc). exists la, p, lb, (lc ++ [a]).
  split; [by rewrite <- !app_assoc; cbn; rewrite <- !app_assoc|]. do 2 (split; [done|]). apply Forall_app; split; [done|]. by constructor.
Qed.
Lemma away_begins s l : seen l → away s (l ++ [Read s (Some false)]).
Proof.
  intros (la & p & lb & -> & Hh & Hb). exists la, p, lb, []. split; [by rewrite <- app_assoc|]. auto.
Qed.
Lemma grounded_snoc l a : all_grounded l → (∀ t, a = Locking t → grounds t l) → all_grounded (l ++ [a]).
Proof.
  intros Hl Ha l1 t l2 E. destruct l2 as [|b l2 _] using rev_ind.
  - apply app_inj_tail in E as [-> ->]. by apply Ha.
  - rewrite app_comm_cons, app_assoc in E. apply app_inj_tail in E as [-> ->]. by eapply Hl.
Qed.

(** ** The invariant *)

Record ok (w : World) : Prop := {
  k_on : enabled_after (log w) = _enabled w;
  k_blocks : ∀ r, r ∈ _inhibitors w ↔ blocking r (log w) = true;
  k_grace : grace_after (log w) = _grace w ∧ MIN_GRACE_SEC <= _grace w <= MAX_GRACE_SEC;
  k_armed : heeded w = true → _state w = STATE_ARMED → seen (log w);
  k_away : heeded w = true → _state w = STATE_GRACE → ∃ s, _absent_since w = Some s ∧ away s (log w);
  k_idle : heeded w = false → INHIBIT_STOPPED ∉ _inhibitors w → _state w ≠ STATE_ARMED ∧ _state w ≠ STATE_GRACE;
  k_log : all_grounded (log w);
}.

Lemma heeded_iff w : heeded w = true ↔ _enabled w = true ∧ _inhibitors w = [].
Proof. unfold heeded. by rewrite andb_true_iff, bool_decide_eq_true. Qed.
Lemma heeding_agrees l on inh : enabled_after l = on → (∀ r, r ∈ inh ↔ blocking r l = true) →
  heeding l = on && bool_decide (inh = []).
Proof.
  intros <- Hb. unfold heeding. f_equal. apply eq_true_iff_eq. rewrite forallb_forall, bool_decide_eq_true. split.
  - intros Hr. destruct inh as [|r inh]; [done|exfalso]. assert (Hin : In r ALL_REASONS) by (destruct r; cbn; auto 10).
    specialize (Hr r Hin). rewrite (proj1 (Hb r)) in Hr by left. done.
  - intros -> r _. destruct (blocking r l) eqn:E; [|done]. apply Hb in E. by apply not_elem_of_nil in E.
Qed.

(** Steps the invariant does not see: D-Bus calls, status callbacks, timers. *)
Definition trivial (a : action) : bool := match a with OnStatus | Calling _ => true | _ => false end.
Record minor (w w' : World) : Prop := {
  m_enabled : _enabled w' = _enabled w;
  m_grace : _grace w' = _grace w;
  m_state : _state w' = _state w;
  m_inhibitors : _inhibitors w' = _inhibitors w;
  m_absent : _absent_since w' = _absent_since w;
  m_log : ∃ l, log w' = log w ++ l ∧ Forall (λ a, trivial a = true) l;
}.
#[export] Instance minor_preorder : PreOrder minor.
Proof.
  split; [intros w; split; try done; by exists []; rewrite app_nil_r|].
  intros w1 w2 w3 [] []. split; [congruence..|].
  destruct m_log0 as (l1 & E1 & H1), m_log1 as (l2 & E2 & H2). exists (l1 ++ l2).
  rewrite E2, E1, <- app_assoc. split; [done|]. by apply Forall_app.
Qed.

Lemma ok_trivial w a : trivial a = true → ok w → ok (w <| log ::= λ l, l ++ [a] |>).
Proof.
  intros Ha []. split; cbn.
  - rewrite enabled_snoc. by destruct a.
  - intros r. rewrite blocking_snoc. by destruct a; try apply k_blocks0.
  - rewrite grace_snoc. by destruct a.
  - intros H1 H2. apply seen_snoc; [by destruct a|auto].
  - intros H1 H2. destruct (k_away0 H1 H2) as (s & E & Hs). exists s. split; [done|]. apply away_snoc; [by destruct a|done].
  - done.
  - apply grounded_snoc; [done|]. intros t ->. discriminate.
Qed.
Lemma ok_fields w w' : log w' = log w → _enabled w' = _enabled w → _grace w' = _grace w → _state w' = _state w →
  _inhibitors w' = _inhibitors w → _absent_since w' = _absent_since w → ok w → ok w'.
Proof.
  intros E1 E2 E3 E4 E5 E6 []. assert (Eh : heeded w' = heeded w) by (unfold heeded; by rewrite E2, E5).
  split; rewrite ?Eh, ?E1, ?E2, ?E3, ?E4, ?E5, ?E6; auto.
Qed.
Lemma ok_minor w w' : minor w w' → ok w → ok w'.
Proof.
  intros [] Hw. destruct m_log0 as (l & El & Hl).
  assert (H1 : ok (w <| log := log w ++ l |>)).
  { clear El. induction l as [|a l IH] using rev_ind.
    - revert Hw. apply ok_fields; cbn; by rewrite ?app_nil_r.
    - apply Forall_app in Hl as [Hl Ha]. apply Forall_inv in Ha.
      generalize (ok_trivial _ _ Ha (IH Hl)). apply ok_fields; cbn; by rewrite ?app_assoc. }
  revert H1. by apply ok_fields.
Qed.
Lemma stable_minor {A} (m : M World A) : keeps minor m → stable ok m.
Proof. intros Hm w Hw. exact (ok_minor _ _ (Hm w) Hw). Qed.
End monitor.

(** ** Which methods are minor *)

Ltac minor_leaf := split; cbn; try done; by exists []; rewrite app_nil_r.
Ltac minor := keeps; minor_leaf.
Lemma emit_minor a : trivial a = true → keeps minor (emit a).
Proof. intros Ha w. split; cbn; try done. exists [a]. split; [done|]. by constructor. Qed.
#[local] Hint Extern 2 (keeps minor (emit _)) => (apply emit_minor; reflexivity) : keeps.
Lemma publish_minor p : keeps minor (publish p).
Proof. unfold publish. minor. Qed.
#[local] Hint Resolve publish_minor : keeps.
Lemma emit_if_changed_minor : keeps minor _emit_if_changed.
Proof. unfold _emit_if_changed. minor. Qed.
#[local] Hint Resolve emit_if_changed_minor : keeps.
Lemma done_minor g r : keeps minor (done g r).
Proof. unfold done. minor. Qed.
#[local] Hint Resolve done_minor : keeps.
Lemma invoke_minor env g c error : (∀ e, keeps minor (error e)) → keeps minor (_invoke env g c error).
Proof. intros He. unfold _invoke. minor. Qed.
Lemma failed_minor g e : keeps minor (lock_failed g e).
Proof. apply done_minor. Qed.
Lemma session_minor env g path f error : (∀ e, keeps minor (error e)) → keeps minor (_lock_login1_session env g path f error).
Proof. intros He. unfold _lock_login1_session. case_match; [done|by apply invoke_minor]. Qed.
Lemma auto_minor env g : keeps minor (_lock_login1_auto env g).
Proof. apply session_minor. apply failed_minor. Qed.
Lemma by_env_minor env g : keeps minor (_lock_login1_by_env env g).
Proof. unfold _lock_login1_by_env. case_match; [apply auto_minor|]. apply invoke_minor. intros _. apply auto_minor. Qed.
Lemma by_pid_minor env g : keeps minor (_lock_login1_by_pid env g).
Proof. apply invoke_minor. intros _. apply by_env_minor. Qed.
Lemma screensaver_minor env g e : keeps minor (screensaver_failed env g e).
Proof. unfold screensaver_failed. case_match; [apply done_minor|apply by_pid_minor]. Qed.
Lemma locker_minor env g : keeps minor (locker_lock env g).
Proof. apply invoke_minor. apply screensaver_minor. Qed.
Lemma fall_back_minor env g f e : keeps minor (fall_back env g f e).
Proof. destruct f; [apply by_env_minor|apply auto_minor|apply failed_minor]. Qed.
Lemma reply_minor env g c path : keeps minor (on_reply env g c path).
Proof. destruct c; [apply done_minor| | |apply done_minor]; apply session_minor, fall_back_minor. Qed.
Lemma error_minor env g c e : keeps minor (on_error env g c e).
Proof. destruct c; [apply screensaver_minor|apply by_env_minor|apply auto_minor|apply fall_back_minor]. Qed.
Lemma cancel_timer_minor : keeps minor _cancel_timer.
Proof. unfold _cancel_timer. minor. Qed.
Lemma cancel_settle_minor : keeps minor _cancel_settle.
Proof. unfold _cancel_settle. minor. Qed.
#[local] Hint Resolve locker_minor cancel_timer_minor cancel_settle_minor : keeps.
Lemma schedule_settle_minor : keeps minor _schedule_settle.
Proof. unfold _schedule_settle. minor. Qed.
Lemma arm_timer_minor : keeps minor _arm_timer.
Proof. unfold _arm_timer. minor. Qed.
#[local] Hint Resolve schedule_settle_minor arm_timer_minor : keeps.

(** ** The public operations *)

Lemma elem_of_add r r' rs : r' ∈ add_reason r rs ↔ r' = r ∨ r' ∈ rs.
Proof.
  unfold add_reason. rewrite list_elem_of_filter. split; [by intros [? _]|]. intros H. split; [done|].
  unfold ALL_REASONS. destruct r'; set_solver.
Qed.
Lemma elem_of_discard r r' rs : r' ∈ discard_reason r rs ↔ r' ≠ r ∧ r' ∈ rs.
Proof. unfold discard_reason. by rewrite list_elem_of_filter. Qed.
Lemma clamp_range v d n : MIN_GRACE_SEC <= d <= MAX_GRACE_SEC → clamp_grace v d = Ok n → MIN_GRACE_SEC <= n <= MAX_GRACE_SEC.
Proof.
  unfold clamp_grace, to_int, MIN_GRACE_SEC, MAX_GRACE_SEC. intros Hd. destruct v; intros [= <-]; lia.
Qed.

Section kept.
Context (e0 : bool) (g0 : Z).
Abbreviation ok := (ok e0 g0).
#[local] Arguments enabled_after : simpl never.
#[local] Arguments grace_after : simpl never.
#[local] Arguments blocking : simpl never.
#[local] Arguments heeding : simpl never.
#[local] Arguments heeded : simpl never.
#[local] Arguments add_reason : simpl never.
#[local] Arguments discard_reason : simpl never.
#[local] Arguments sec : simpl never.

Lemma finish w : ok w → ok (_emit_if_changed w).2.
Proof. apply (stable_minor e0 g0 _ emit_if_changed_minor w). Qed.

(** The effect of an input that resets what the lock knows. *)
Lemma ok_input a w w' : ok w →
  log w' = log w ++ [a] → (∀ t, a ≠ Locking t) →
  _enabled w' = (if a is Configured b _ then b else _enabled w) →
  _grace w' = (if a is Configured _ n then n else _grace w) → MIN_GRACE_SEC <= _grace w' <= MAX_GRACE_SEC →
  (∀ r, r ∈ _inhibitors w' ↔ blocks r (bool_decide (r ∈ _inhibitors w)) a = true) →
  (heeded w' = true → _state w' ≠ STATE_ARMED ∧ _state w' ≠ STATE_GRACE) →
  (heeded w' = false → INHIBIT_STOPPED ∉ _inhibitors w' → _state w' ≠ STATE_ARMED ∧ _state w' ≠ STATE_GRACE) →
  ok w'.
Proof.
  intros [] El Ha Ee Eg Hg Hb H1 H2.
  assert (E : ∀ r, blocking r (log w) = bool_decide (r ∈ _inhibitors w)).
  { intros r. apply eq_true_iff_eq. by rewrite bool_decide_eq_true, k_blocks0. }
  split; rewrite ?El.
  - by rewrite enabled_snoc, k_on0, Ee.
  - intros r. by rewrite blocking_snoc, E, Hb.
  - rewrite grace_snoc. destruct k_grace0 as [-> _]. split; [by rewrite Eg|done].
  - intros Hh Hs. destruct (H1 Hh) as [? _]. done.
  - intros Hh Hs. destruct (H1 Hh) as [_ ?]. done.
  - done.
  - apply grounded_snoc; [done|]. intros t ->. by destruct (Ha t).
Qed.

(** The effect of an input that leaves what the lock knows. *)
Lemma ok_noted a w w' : ok w →
  log w' = log w ++ [a] → quiet a = true → (calm a = true ∨ _state w ≠ STATE_ARMED ∨ heeded w = false) →
  _enabled w' = _enabled w → (if a is Configured b _ then b = _enabled w else True) →
  _grace w' = (if a is Configured _ n then n else _grace w) → MIN_GRACE_SEC <= _grace w' <= MAX_GRACE_SEC →
  (∀ r, r ∈ _inhibitors w ↔ blocks r (bool_decide (r ∈ _inhibitors w)) a = true) →
  _inhibitors w' = _inhibitors w → _state w' = _state w → _absent_since w' = _absent_since w → ok w'.
Proof.
  intros [] El Hq Hc Ee Ha Eg Hg Hb Ei Es Et.
  assert (E : ∀ r, blocking r (log w) = bool_decide (r ∈ _inhibitors w)).
  { intros r. apply eq_true_iff_eq. by rewrite bool_decide_eq_true, k_blocks0. }
  assert (Eh : heeded w' = heeded w) by (unfold heeded; by rewrite Ee, Ei).
  split; rewrite ?Eh, ?El, ?Es, ?Ei, ?Et.
  - rewrite enabled_snoc, k_on0, Ee. by destruct a.
  - intros r. rewrite blocking_snoc, E. apply Hb.
  - rewrite grace_snoc. destruct k_grace0 as [-> _]. split; [by rewrite Eg|done].
  - intros Hh Hs. apply seen_snoc; [|by apply k_armed0]. destruct Hc as [?|[?|?]]; [done..|congruence].
  - intros Hh Hs. destruct (k_away0 Hh Hs) as (t & E1 & E2). exists t. split; [done|]. by apply away_snoc.
  - done.
  - apply grounded_snoc; [done|]. intros t ->. discriminate.
Qed.

Lemma minor_finish (m : M World ()) : keeps minor m → stable ok (m;; _emit_if_changed).
Proof. intros Hm. apply stable_minor. apply keeps_bind; [apply _|done|]. intros _. apply emit_if_changed_minor. Qed.

Ltac run := unfold set_state, _forget_presence, _cancel_timer, _cancel_settle, _schedule_settle, emit in *; monad_simpl; cbn.

Lemma blocks_active r (rs : list reason) r' : r' ∈ add_reason r rs ↔ blocks r' (bool_decide (r' ∈ rs)) (Inhibited r true) = true.
Proof. rewrite elem_of_add. cbn. repeat case_bool_decide; naive_solver. Qed.
Lemma blocks_inactive r (rs : list reason) r' : r' ∈ discard_reason r rs ↔ blocks r' (bool_decide (r' ∈ rs)) (Inhibited r false) = true.
Proof. rewrite elem_of_discard. cbn. repeat case_bool_decide; naive_solver. Qed.
Lemma blocks_repeated r (rs : list reason) r' active : (active = true ↔ r ∈ rs) → r' ∈ rs ↔ blocks r' (bool_decide (r' ∈ rs)) (Inhibited r active) = true.
Proof. intros H. cbn. repeat case_bool_decide; naive_solver. Qed.
Lemma blocks_stopping (rs : list reason) r' : r' ∈ add_reason INHIBIT_STOPPED rs ↔ blocks r' (bool_decide (r' ∈ rs)) Stopping = true.
Proof. rewrite elem_of_add. cbn. repeat case_bool_decide; naive_solver. Qed.
Lemma blocks_other a (rs : list reason) r' : (∀ r b, a ≠ Inhibited r b) → (∀ t, a ≠ Read t (Some true)) → a ≠ Stopping →
  r' ∈ rs ↔ blocks r' (bool_decide (r' ∈ rs)) a = true.
Proof.
  intros H1 H2 H3. assert (E : blocks r' (bool_decide (r' ∈ rs)) a = bool_decide (r' ∈ rs)).
  { destruct a as [| r b | | |t v| | |]; try done; [by destruct (H1 r b)|]. destruct v as [[]|]; [by destruct (H2 t)|done..]. }
  by rewrite E, bool_decide_eq_true.
Qed.
Lemma heeded_elem w r : heeded w = true → r ∈ _inhibitors w → False.
Proof. intros [_ H]%heeded_iff. rewrite H. apply not_elem_of_nil. Qed.
Lemma unheeded w w' : heeded w' = true → _enabled w' = _enabled w → (∀ r, r ∈ _inhibitors w → r ∈ _inhibitors w') → heeded w = true.
Proof.
  intros [H1 H2]%heeded_iff E Hi. apply heeded_iff. split; [congruence|]. rewrite H2 in Hi.
  destruct (_inhibitors w) as [|r rs]; [done|]. specialize (Hi r). rewrite elem_of_nil in Hi. destruct Hi. by left.
Qed.
Lemma disabled_unheeded w : _enabled w = false → heeded w = false.
Proof. unfold heeded. by intros ->. Qed.
Ltac input a w := apply (ok_input a w); cbn; try done.

Lemma inhibit_ok r active : (active = false → r ≠ INHIBIT_STOPPED) → stable ok (inhibit r active).
Proof.
  intros Hr w Hw. unfold inhibit. run. pose proof Hw as [].
  destruct active; cbn.
  - case_bool_decide as Hin; cbn; [|destruct (_enabled w) eqn:Ee]; apply finish; input (Inhibited r true) w.
    + apply k_grace0.
    + intros r'. by apply blocks_repeated.
    + intros Hh. destruct (heeded_elem _ r Hh). done.
    + apply k_grace0.
    + intros r'. apply blocks_active.
    + apply k_grace0.
    + intros r'. apply blocks_active.
    + intros _ Hs. apply k_idle0; [by apply disabled_unheeded|]. intros H. apply Hs, elem_of_add. by right.
  - case_bool_decide as Hin; cbn.
    + assert (Hidle : INHIBIT_STOPPED ∉ discard_reason r (_inhibitors w) → _state w ≠ STATE_ARMED ∧ _state w ≠ STATE_GRACE).
      { intros Hs. apply k_idle0; [destruct (heeded w) eqn:E; [by destruct (heeded_elem w r E Hin)|done]|].
        intros H. apply Hs, elem_of_discard. split; [|done]. intros Er. by destruct (Hr eq_refl). }
      match goal with |- context [if heeded ?x then _ else _] => destruct (heeded x) end; apply finish; input (Inhibited r false) w;
        try apply k_grace0; try (intros r'; apply blocks_inactive);
        try (intros Hh; apply Hidle; intros Hs; exact (heeded_elem _ _ Hh Hs));
        intros _ Hs; exact (Hidle Hs).
    + apply finish. apply (ok_noted (Inhibited r false) w); cbn; try done; [by left|apply k_grace0|]. intros r'. by apply blocks_repeated.
Qed.

Lemma reset_ok : stable ok reset.
Proof.
  intros w Hw. unfold reset. run. pose proof Hw as []. destruct (_enabled w) eqn:Ee; cbn; apply finish; input Resetting w; try apply k_grace0;
    try (intros r; by rewrite bool_decide_eq_true).
  intros _ Hs. apply k_idle0; [by apply disabled_unheeded|done].
Qed.
Lemma lock_stop_ok : stable ok stop.
Proof.
  intros w Hw. unfold stop. run. pose proof Hw as []. input Stopping w.
  - apply k_grace0.
  - apply blocks_stopping.
  - intros Hh. exfalso. apply (heeded_elem _ INHIBIT_STOPPED Hh). cbn. apply elem_of_add. by left.
  - intros _ []. apply elem_of_add. by left.
Qed.
Lemma configure_ok enabled v : stable ok (configure enabled v).
Proof.
  intros w Hw. unfold configure. rewrite M_bind_eq. unfold lift. destruct (clamp_grace v _) as [g|e] eqn:Eg; [|done].
  apply clamp_range in Eg; [|done]. run. pose proof Hw as [].
  destruct enabled; cbn; [destruct (_enabled w) eqn:Ee; cbn|].
  - refine (minor_finish (if bool_decide (_state w = STATE_GRACE) then _arm_timer else mret ()) _ _ _).
    + case_bool_decide; [auto with keeps|]. apply keeps_pure; [apply _|done].
    + apply (ok_noted (Configured true g) w); cbn; try done; [by left|]. intros r. by rewrite bool_decide_eq_true.
  - apply finish. input (Configured true g) w. intros r. by rewrite bool_decide_eq_true.
  - apply finish. input (Configured false g) w. intros r. by rewrite bool_decide_eq_true.
Qed.

(** ** Readings *)

Lemma blocks_sight (rs : list reason) t r' :
  r' ∈ discard_reason INHIBIT_LOCAL_DISCONNECT rs ↔ blocks r' (bool_decide (r' ∈ rs)) (Read t (Some true)) = true.
Proof. rewrite elem_of_discard. cbn. repeat case_bool_decide; naive_solver. Qed.
Lemma ok_sight t w w' : ok w → log w' = log w ++ [Read t (Some true)] → _enabled w' = _enabled w → _grace w' = _grace w →
  _inhibitors w' = discard_reason INHIBIT_LOCAL_DISCONNECT (_inhibitors w) → heeded w' = true → _state w' = STATE_ARMED → ok w'.
Proof.
  intros [] El Ee Eg Ei Hh Es.
  assert (E : ∀ r, blocking r (log w) = bool_decide (r ∈ _inhibitors w)).
  { intros r. apply eq_true_iff_eq. by rewrite bool_decide_eq_true, k_blocks0. }
  assert (H1 : enabled_after e0 (log w') = _enabled w') by (by rewrite El, enabled_snoc, k_on0, Ee).
  assert (H2 : ∀ r, r ∈ _inhibitors w' ↔ blocking r (log w') = true).
  { intros r. rewrite El, blocking_snoc, E, Ei. apply blocks_sight. }
  split; [done|done| | | | |].
  - rewrite El, grace_snoc, Eg. done.
  - intros _ _. exists (log w), t, []. rewrite <- El. split; [done|]. split; [|done].
    by rewrite (heeding_agrees e0 _ _ _ H1 H2).
  - congruence.
  - congruence.
  - rewrite El. by apply grounded_snoc.
Qed.
Lemma ok_unheeded_sight t w w' : ok w → log w' = log w ++ [Read t (Some true)] → _enabled w' = _enabled w → _grace w' = _grace w →
  _inhibitors w' = discard_reason INHIBIT_LOCAL_DISCONNECT (_inhibitors w) → heeded w' = false → _state w' = _state w → ok w'.
Proof.
  intros Hw El Ee Eg Ei Hh Es. pose proof Hw as []. apply (ok_input (Read t (Some true)) w); try done.
  - rewrite Eg. apply k_grace0.
  - intros r. rewrite Ei. apply blocks_sight.
  - by rewrite Hh.
  - intros _ Hs. rewrite Es. apply k_idle0.
    + destruct (heeded w) eqn:E; [|done]. apply heeded_iff in E as [E1 E2]. rewrite <- Hh. symmetry. apply heeded_iff. by rewrite Ee, Ei, E2.
    + intros H. apply Hs. rewrite Ei, elem_of_discard. by split.
Qed.
Lemma ok_leaves t w w' : ok w → log w' = log w ++ [Read t (Some false)] → heeded w = true → _state w = STATE_ARMED →
  _enabled w' = _enabled w → _grace w' = _grace w → _inhibitors w' = _inhibitors w → _state w' = STATE_GRACE →
  _absent_since w' = Some t → ok w'.
Proof.
  intros [] El Hh Hs Ee Eg Ei Es Et. split; rewrite ?El, ?Ee, ?Eg, ?Ei, ?Es, ?Et.
  - by rewrite enabled_snoc.
  - intros r. rewrite blocking_snoc. apply k_blocks0.
  - by rewrite grace_snoc.
  - done.
  - intros _ _. exists t. split; [done|]. apply away_begins. by apply k_armed0.
  - intros H. assert (E : heeded w' = heeded w) by (unfold heeded; by rewrite Ee, Ei). congruence.
  - by apply grounded_snoc.
Qed.
(** The lock stops waiting. *)
Lemma ok_rests w w' : ok w → log w' = log w → _enabled w' = _enabled w → _grace w' = _grace w → _inhibitors w' = _inhibitors w →
  _state w' ≠ STATE_ARMED → _state w' ≠ STATE_GRACE → ok w'.
Proof. intros [] El Ee Eg Ei H1 H2. split; rewrite ?El, ?Ee, ?Eg, ?Ei; try done. Qed.
Lemma ok_locks w : ok w → _state w ≠ STATE_ARMED → _state w ≠ STATE_GRACE → grounds e0 g0 (clock w) (log w) →
  ok (w <| log ::= λ l, l ++ [Locking (clock w)] |>).
Proof.
  intros [] H1 H2 Hg. split; cbn; try done.
  - by rewrite enabled_snoc.
  - intros r. rewrite blocking_snoc. apply k_blocks0.
  - by rewrite grace_snoc.
  - apply grounded_snoc; [done|]. by intros t [= <-].
Qed.

Ltac noted a w := apply (ok_noted a w); cbn; auto; first [by apply (k_grace e0 g0 w)|intros r; by rewrite bool_decide_eq_true].
Ltac finish_arming :=
  match goal with |- context [_arm_timer ?x] => apply (minor_finish _arm_timer arm_timer_minor x) end.

Lemma bearer_ok env : stable ok (bearer_changed env).
Proof.
  intros w Hw. unfold bearer_changed, _read. run. pose proof Hw as []. set (v := match read_presence env with Ok v => v | _ => None end).
  destruct v as [[]|]; rewrite ?(bool_decide_true (Some true = Some true)), ?bool_decide_false by done; cbn.
  - match goal with |- context [if heeded ?x then _ else _] => destruct (heeded x) eqn:Hh end; run; apply finish.
    + by apply (ok_sight (clock w) w).
    + by apply (ok_unheeded_sight (clock w) w).
  - change (heeded _) with (heeded w). destruct (heeded w) eqn:Hh; run; [case_bool_decide as Es|].
    + finish_arming. by apply (ok_leaves (clock w) w).
    + apply finish. noted (Read (clock w) (Some false)) w.
    + apply finish. noted (Read (clock w) (Some false)) w.
  - change (heeded _) with (heeded w). 
    assert (H : ok (w <| log ::= λ l, l ++ [Read (clock w) None] |>)).
    { noted (Read (clock w) None) w. }
    destruct (heeded w); by apply finish.
Qed.

Lemma settled_ok env : stable ok (_settled env).
Proof.
  intros w Hw. unfold _settled, _read. run. change (heeded _) with (heeded w). pose proof Hw as [].
  destruct (heeded w) eqn:Hh; cbn; [case_bool_decide as Es; cbn|]; [|apply finish; by apply (ok_fields e0 g0 w)..].
  destruct (match read_presence env with Ok v => v | _ => None end) as [[]|]; rewrite ?(bool_decide_true (Some true = Some true)), ?bool_decide_false by done; run;
    apply finish.
  - apply heeded_iff in Hh as [He Hi]. apply (ok_sight (clock w) w); cbn; try done; [by rewrite Hi|]. apply heeded_iff. done.
  - assert (_state w ≠ STATE_ARMED) by by rewrite Es. noted (Read (clock w) (Some false)) w.
  - noted (Read (clock w) None) w.
Qed.

Lemma ok_dispatch env w w1 : ok w → _state w = STATE_GRACE → heeded w = true →
  (∃ s, _absent_since w = Some s ∧ s + sec (_grace w) <= clock w) →
  log w1 = log w ++ [Read (clock w) (Some false)] → _enabled w1 = _enabled w → _grace w1 = _grace w → _inhibitors w1 = _inhibitors w →
  clock w1 = clock w → ok w1 → ok (_dispatch env w1).2.
Proof.
  intros Hw Hs Hh (s & Es & Ht) El Ee Eg Ei Ec H1. unfold _dispatch. run. 
  assert (H2 : ok (w1 <| _absent_since := None |> <| _state := STATE_LOCKED |>)) by (by apply (ok_rests w1)).
  destruct (_dispatching w1); [by revert H2; apply ok_fields|].
  match goal with |- ok (locker_lock env ?g ?x).2 => apply (stable_minor e0 g0 _ (locker_minor env g) x) end.
  assert (H3 : grounds e0 g0 (clock w1) (log w1)).
  { pose proof Hw as []. destruct (k_away0 Hh Hs) as (s' & Es' & Ha). rewrite Es in Es'. injection Es' as <-.
    exists s, (log w). rewrite El, Ec, grace_snoc. destruct k_grace0 as [-> ?]. done. }
  refine (ok_fields e0 g0 _ _ _ _ _ _ _ _ (ok_locks (w1 <| _absent_since := None |> <| _state := STATE_LOCKED |>) H2 _ _ H3)); done.
Qed.
Lemma dispatch_then env w : ok (_dispatch env w).2 → ok ((_dispatch env;; _emit_if_changed) w).2.
Proof. intros H. rewrite M_bind_eq. destruct (_dispatch env w) as [[u|e] w']; [by apply finish|done]. Qed.
Lemma grace_ok env : stable ok (_grace_elapsed env).
Proof.
  intros w Hw. unfold _grace_elapsed, _read. run. change (heeded _) with (heeded w). pose proof Hw as [].
  assert (H0 : ok (w <| _timer_id := None |>)) by (by apply (ok_fields e0 g0 w)).
  destruct (_absent_since w) as [s|] eqn:Es; [|by revert H0; apply ok_fields]. cbn.
  destruct (heeded w) eqn:Hh; cbn; [|by revert H0; apply ok_fields]. case_bool_decide as Hs; cbn; [|by revert H0; apply ok_fields].
  assert (Hn : ∀ v, v ≠ Some true → ok (w <| log ::= λ l, l ++ [Read (clock w) v] |>)).
  { intros v Hv. assert (_state w ≠ STATE_ARMED) by by rewrite Hs. destruct v as [[]|]; [done| |];
      (match goal with |- context [Read ?t ?v] => apply (ok_noted (Read t v) w) end; cbn; auto; [by apply (k_grace e0 g0 w)|intros r; by rewrite bool_decide_eq_true]). }
  destruct (match read_presence env with Ok v => v | _ => None end) as [[]|]; run.
  - apply finish. apply heeded_iff in Hh as [He Hi]. apply (ok_sight (clock w) w); cbn; try done; [by rewrite Hi|]. by apply heeded_iff.
  - specialize (Hn (Some false) (λ E, ltac:(discriminate E))). destruct (Z.ltb_spec (clock w) (s + sec (_grace w))) as [_|Hle].
    + finish_arming. by revert Hn; apply ok_fields.
    + match goal with |- context [_dispatch env ?x] => apply (dispatch_then env x), (ok_dispatch env w x) end; try done; [by eauto|].
      by revert Hn; apply ok_fields.
  - apply finish. by apply (ok_rests _ _ (Hn None (λ E, ltac:(discriminate E)))).
Qed.

Lemma answered_ok i f : (∀ g c, keeps minor (f g c)) → stable ok (answered i f).
Proof. intros Hf. apply stable_minor. unfold answered. minor. Qed.
Lemma lock_step_ok env e : stable ok (step env e).
Proof.
  destruct e as [b v| |c b| | | | | | | |i path|i name|d]; cbn [step].
  - apply configure_ok.
  - apply bearer_ok.
  - apply inhibit_ok. by destruct c.
  - by apply inhibit_ok.
  - by apply inhibit_ok.
  - by apply inhibit_ok.
  - apply reset_ok.
  - apply lock_stop_ok.
  - intros w Hw. unfold on_timer, get. rewrite M_bind_eq. destruct (_settle_id w); [by apply settled_ok|done].
  - intros w Hw. unfold on_timer, get. rewrite M_bind_eq. destruct (_timer_id w); [by apply grace_ok|done].
  - apply answered_ok. intros g c. apply reply_minor.
  - apply answered_ok. intros g c. apply error_minor.
  - intros w Hw. by apply (ok_fields e0 g0 w).
Qed.
End kept.

Lemma lock_run_ok es enabled grace now : MIN_GRACE_SEC <= grace <= MAX_GRACE_SEC → ok enabled grace (run es (World_init enabled grace now)).
Proof.
  intros Hg. unfold Proximity.run. apply run_all_invariant.
  - intros m w Hm Hw. apply list_elem_of_fmap in Hm as ([env e] & -> & _). by apply lock_step_ok.
  - split; cbn; try done.
    + intros r. split; [intros Hin; by apply not_elem_of_nil in Hin|done].
    + by destruct enabled.
    + by destruct enabled.
    + by destruct enabled.
    + intros l1 t l2 E. by destruct l1.
Qed.

(** C23: The desktop is locked only because the phone left.  Whatever settings,
    readings, inhibitors, D-Bus answers and timers occur in whatever order, the
    log before every lock says: the phone was seen at some time p, at a moment
    when the lock was enabled and nothing inhibited it; it was then read as
    away at s; from p on it was never seen again, the lock was neither
    disabled, inhibited, reset nor stopped, and nothing was locked (so there is
    one lock per absence); the last reading, at the very moment of the lock,
    says away; and s lies at least the grace period of 10 s to one hour that is
    configured at the lock back. *)
Theorem lock_grounded enabled v now w es l1 t l2 : create enabled v now = Ok w → log (run es w) = l1 ++ Locking t :: l2 →
  ∃ g0, clamp_grace v DEFAULT_GRACE_SEC = Ok g0 ∧
  ∃ la p lb s lc,
    l1 = la ++ Read p (Some true) :: lb ++ Read s (Some false) :: lc ++ [Read t (Some false)] ∧
    heeding enabled (la ++ [Read p (Some true)]) = true ∧
    Forall (λ a, quiet a = true) (lb ++ lc) ∧
    s + sec (grace_after g0 l1) <= t ∧ MIN_GRACE_SEC <= grace_after g0 l1 <= MAX_GRACE_SEC.
Proof.
  unfold create. intros Hc El. destruct (clamp_grace v DEFAULT_GRACE_SEC) as [g0|] eqn:Eg; [|done]. injection Hc as <-.
  exists g0. split; [done|]. pose proof (clamp_range v DEFAULT_GRACE_SEC g0 ltac:(done) Eg) as Hg.
  destruct (k_log _ _ _ (lock_run_ok es enabled g0 now Hg) l1 t l2 El) as (s & l' & E & (la & p & lb & lc & -> & Hh & Hb & Hc) & Ht & Hr).
  exists la, p, lb, s, lc. split; [by rewrite E, <- !app_assoc; cbn; rewrite <- app_assoc|]. split; [done|]. split; [|done].
  apply Forall_app. split; [|done]. eapply Forall_impl; [exact Hb|]. unfold calm. intros a [Ha _]%andb_true_iff. exact Ha.
Qed.
Lemma lock_grounded_witness : ∃ g0, clamp_grace (VInt 60) DEFAULT_GRACE_SEC = Ok g0 ∧
  ∃ la p lb s lc,
    [Read 0 (Some true); OnStatus; Read (sec 30) (Some false); OnStatus; Read (sec 90) (Some false)]
      = la ++ Read p (Some true) :: lb ++ Read s (Some false) :: lc ++ [Read (sec 90) (Some false)] ∧
    heeding true (la ++ [Read p (Some true)]) = true ∧
    Forall (λ a, quiet a = true) (lb ++ lc) ∧
    s + sec (grace_after g0 [Read 0 (Some true); OnStatus; Read (sec 30) (Some false); OnStatus; Read (sec 90) (Some false)]) <= sec 90 ∧
    MIN_GRACE_SEC <= grace_after g0 [Read 0 (Some true); OnStatus; Read (sec 30) (Some false); OnStatus; Read (sec 90) (Some false)] <= MAX_GRACE_SEC.
Proof.
  apply (lock_grounded true (VInt 60) 0 (World_init true 60 0)
    [(sees (Some true), EBearer); (sees None, ETime (sec 30)); (sees (Some false), EBearer); (sees None, ETime (sec 60)); (sees (Some false), EGrace)]
    _ _ [Calling ScreenSaverLock; OnStatus]); vm_compute; reflexivity.
Defined.
