(* ===== verification/ProximityLive.v ===== *)
(** * ProximityLive: an absence is acted on, and the locker tries every way
    (src/blueferry/proximity_lock.py). *)
From S2P Require Import Prelude Proximity ProximitySafety.

(** ** The grace timer *)

(** The timer is due when the grace period is over, or within a second. *)
Definition timed (w : World) : Prop := ∃ s due,
  _absent_since w = Some s ∧ s <= clock w ∧ _timer_id w = Some due ∧
  s + sec (_grace w) <= due <= Z.max (clock w) (s + sec (_grace w)) + sec 1.
Definition T (w : World) : Prop := heeded w = true → _state w = STATE_GRACE → timed w.

Definition view (w : World) := (_enabled w, _inhibitors w, _state w, _absent_since w, _timer_id w, _grace w, clock w).
Definition same_view : relation World := λ w w', view w' = view w.
#[export] Instance same_view_preorder : PreOrder same_view.
Proof. split; unfold same_view; [by intros ?|intros ? ? ? ? ?; congruence]. Qed.
Lemma view_T w w' : same_view w w' → T w → T w'.
Proof.
  intros E. injection E as E1 E2 E3 E4 E5 E6 E7. unfold T, timed, heeded. by rewrite E1, E2, E3, E4, E5, E6, E7.
Qed.
Lemma stable_view {A} (m : M World A) : keeps same_view m → stable T m.
Proof. intros Hm w. exact (view_T _ _ (Hm w)). Qed.

Ltac view := keeps; done.
Lemma emit_view a : keeps same_view (emit a).
Proof. by intros w. Qed.
#[local] Hint Resolve emit_view : keeps.
Lemma publish_view p : keeps same_view (publish p).
Proof. unfold publish. view. Qed.
#[local] Hint Resolve publish_view : keeps.
Lemma emit_if_changed_view : keeps same_view _emit_if_changed.
Proof. unfold _emit_if_changed. view. Qed.
#[local] Hint Resolve emit_if_changed_view : keeps.
Lemma done_view g r : keeps same_view (done g r).
Proof. unfold done. view. Qed.
#[local] Hint Resolve done_view : keeps.
Lemma invoke_view env g c error : (∀ e, keeps same_view (error e)) → keeps same_view (_invoke env g c error).
Proof. intros He. unfold _invoke. view. Qed.
Lemma session_view env g path f error : (∀ e, keeps same_view (error e)) → keeps same_view (_lock_login1_session env g path f error).
Proof. intros He. unfold _lock_login1_session. case_match; [done|by apply invoke_view]. Qed.
Lemma auto_view env g : keeps same_view (_lock_login1_auto env g).
Proof. apply session_view. intros e. apply done_view. Qed.
Lemma by_env_view env g : keeps same_view (_lock_login1_by_env env g).
Proof. unfold _lock_login1_by_env. case_match; [apply auto_view|]. apply invoke_view. intros _. apply auto_view. Qed.
Lemma by_pid_view env g : keeps same_view (_lock_login1_by_pid env g).
Proof. apply invoke_view. intros _. apply by_env_view. Qed.
Lemma screensaver_view env g e : keeps same_view (screensaver_failed env g e).
Proof. unfold screensaver_failed. case_match; [apply done_view|apply by_pid_view]. Qed.
Lemma locker_view env g : keeps same_view (locker_lock env g).
Proof. apply invoke_view. apply screensaver_view. Qed.
Lemma fall_back_view env g f e : keeps same_view (fall_back env g f e).
Proof. destruct f; [apply by_env_view|apply auto_view|apply done_view]. Qed.
Lemma reply_view env g c path : keeps same_view (on_reply env g c path).
Proof. destruct c; [apply done_view| | |apply done_view]; apply session_view, fall_back_view. Qed.
Lemma error_view env g c e : keeps same_view (on_error env g c e).
Proof. destruct c; [apply screensaver_view|apply by_env_view|apply auto_view|apply fall_back_view]. Qed.

Lemma ceil_sec_bounds t : t <= sec (ceil_sec t) < t + sec 1.
Proof. unfold ceil_sec, sec. pose proof (Z.div_mod (- t) 1000000 ltac:(lia)). pose proof (Z.mod_pos_bound (- t) 1000000 ltac:(lia)). lia. Qed.

(** Arming the timer in a grace period. *)
Lemma arm_timed w s : _absent_since w = Some s → s <= clock w → timed (_arm_timer w).2.
Proof.
  intros Es Hs. unfold _arm_timer, _cancel_timer. monad_simpl. cbn. rewrite Es. cbn.
  eexists s, _. cbn. split; [done|]. split; [done|]. split; [done|].
  pose proof (ceil_sec_bounds (s + sec (_grace w) - clock w)) as H. unfold sec in *. lia.
Qed.
Lemma arm_T w : (heeded w = true → _state w = STATE_GRACE → ∃ s, _absent_since w = Some s ∧ s <= clock w) → T (_arm_timer w).2.
Proof.
  intros Hw Hh Hs. assert (E : heeded (_arm_timer w).2 = heeded w ∧ _state (_arm_timer w).2 = _state w).
  { unfold _arm_timer, _cancel_timer. monad_simpl. cbn. by destruct (_absent_since w). }
  destruct E as [E1 E2]. rewrite E1 in Hh. rewrite E2 in Hs. clear E1 E2. destruct (Hw Hh Hs) as (s & E1 & E2). exact (arm_timed w s E1 E2).
Qed.
Lemma arm_runs w : _arm_timer w = (Ok (), (_arm_timer w).2).
Proof. unfold _arm_timer, _cancel_timer. monad_simpl. cbn. by destruct (_absent_since w). Qed.

Ltac run := unfold set_state, _forget_presence, _cancel_timer, _cancel_settle, _schedule_settle, emit in *; monad_simpl; cbn.
Lemma finish_T w : T w → T (_emit_if_changed w).2.
Proof. apply (stable_view _ emit_if_changed_view w). Qed.
Lemma arm_finish w : (heeded w = true → _state w = STATE_GRACE → ∃ s, _absent_since w = Some s ∧ s <= clock w) → T ((_arm_timer;; _emit_if_changed) w).2.
Proof. intros Hw. rewrite M_bind_eq, arm_runs. by apply finish_T, arm_T. Qed.
Ltac arm_finish := match goal with |- context [_arm_timer ?x] => apply (arm_finish x) end.

(** Not in a grace period, or not heeding. *)
Lemma T_other w : _state w ≠ STATE_GRACE → T w.
Proof. by intros H _ ?. Qed.
#[local] Arguments heeded : simpl never.
#[local] Arguments add_reason : simpl never.
#[local] Arguments discard_reason : simpl never.
#[local] Arguments sec : simpl never.

(** ** Every event *)

Section kept.
Context (e0 : bool) (g0 : Z).

Lemma configure_T enabled v w : T w → T (configure enabled v w).2.
Proof.
  intros Hw. unfold configure. rewrite M_bind_eq. unfold lift. destruct (clamp_grace v _) as [g|e]; [|done]. run.
  destruct enabled; cbn; [destruct (_enabled w) eqn:Ee; cbn|].
  - case_bool_decide as Es; cbn.
    + arm_finish. cbn. intros Hh _. destruct (Hw) as (s & due & E1 & E2 & _); [|done|by eauto].
      apply heeded_iff in Hh as [_ Hi]. by apply heeded_iff.
    + apply finish_T. by apply T_other.
  - apply finish_T. by apply T_other.
  - apply finish_T. by apply T_other.
Qed.
Lemma bearer_T env w : T w → T (bearer_changed env w).2.
Proof.
  intros Hw. unfold bearer_changed, _read. run.
  destruct (match read_presence env with Ok v => v | _ => None end) as [[]|]; rewrite ?(bool_decide_true (Some true = Some true)), ?bool_decide_false by done; cbn.
  - match goal with |- context [if heeded ?x then _ else _] => destruct (heeded x) eqn:Hh end; run; apply finish_T; [by apply T_other|].
    intros Hh'. by rewrite Hh in Hh'.
  - change (heeded _) with (heeded w). destruct (heeded w) eqn:Hh; run; [case_bool_decide as Es|].
    + arm_finish. cbn. intros _ _. by eexists.
    + apply finish_T. exact (view_T w _ eq_refl Hw).
    + apply finish_T. exact (view_T w _ eq_refl Hw).
  - change (heeded _) with (heeded w). destruct (heeded w); apply finish_T; exact (view_T w _ eq_refl Hw).
Qed.
Lemma inhibit_T r active w : ok e0 g0 w → (active = false → r ≠ INHIBIT_STOPPED) → T w → T (inhibit r active w).2.
Proof.
  intros Hok Hr Hw. unfold inhibit. run. destruct active; cbn.
  - case_bool_decide as Hin; cbn; [|destruct (_enabled w) eqn:Ee]; apply finish_T; [exact (view_T w _ eq_refl Hw)|by apply T_other|].
    intros Hh. apply heeded_iff in Hh as [Hh _]. cbn in Hh. done.
  - case_bool_decide as Hin; cbn; [|apply finish_T; exact (view_T w _ eq_refl Hw)].
    match goal with |- context [if heeded ?x then _ else _] => destruct (heeded x) eqn:Hh end; apply finish_T.
    + apply T_other. cbn. apply (k_idle _ _ w Hok).
      * destruct (heeded w) eqn:E; [by destruct (heeded_elem w r E Hin)|done].
      * intros Hs. apply (heeded_elem _ INHIBIT_STOPPED Hh). cbn. apply elem_of_discard. split; [|done].
        intros E. by destruct (Hr eq_refl).
    + intros Hh'. by rewrite Hh in Hh'.
Qed.
Lemma reset_T w : T w → T (reset w).2.
Proof.
  intros Hw. unfold reset. run. destruct (_enabled w) eqn:Ee; cbn; apply finish_T; [by apply T_other|].
  intros Hh. apply heeded_iff in Hh as [Hh _]. cbn in Hh. done.
Qed.
Lemma stop_T w : T (stop w).2.
Proof. unfold stop. run. intros Hh. destruct (heeded_elem _ INHIBIT_STOPPED Hh). cbn. apply elem_of_add. by left. Qed.
Lemma settled_T env w : T w → T (_settled env w).2.
Proof.
  intros Hw. unfold _settled, _read. run. change (heeded _) with (heeded w).
  destruct (heeded w) eqn:Hh; cbn; [case_bool_decide as Es; cbn|]; [|apply finish_T; exact (view_T w _ eq_refl Hw)..].
  destruct (match read_presence env with Ok v => v | _ => None end) as [[]|]; rewrite ?(bool_decide_true (Some true = Some true)), ?bool_decide_false by done; run;
    apply finish_T; [by apply T_other|exact (view_T w _ eq_refl Hw)..].
Qed.
Lemma dispatch_T env w : T (_dispatch env w).2.
Proof.
  unfold _dispatch. run. destruct (_dispatching w); [by apply T_other|].
  match goal with |- T (locker_lock env ?g ?x).2 => apply (stable_view _ (locker_view env g) x) end. by apply T_other.
Qed.
Lemma dispatch_finish env w : T ((_dispatch env;; _emit_if_changed) w).2.
Proof. rewrite M_bind_eq. pose proof (dispatch_T env w) as H. destruct (_dispatch env w) as [[u|e] w']; [by apply finish_T|done]. Qed.
Lemma grace_T env w : T w → T (_grace_elapsed env w).2.
Proof.
  intros Hw. unfold _grace_elapsed, _read. run. change (heeded _) with (heeded w).
  destruct (_absent_since w) as [s|] eqn:Es; cbn.
  2:{ intros Hh Hs. destruct (Hw Hh Hs) as (s & due & E & _). congruence. }
  destruct (heeded w) eqn:Hh; cbn; [|intros Hh'; change (heeded w = true) in Hh'; congruence].
  case_bool_decide as Hs; cbn; [|by apply T_other]. destruct (Hw Hh Hs) as (s' & due & E & Hle & _). rewrite Es in E. injection E as <-.
  destruct (match read_presence env with Ok v => v | _ => None end) as [[]|]; run; [apply finish_T; by apply T_other| |apply finish_T; by apply T_other].
  destruct (Z.ltb_spec (clock w) (s + sec (_grace w))).
  - arm_finish. cbn. intros _ _. by eexists.
  - match goal with |- context [_dispatch env ?x] => apply (dispatch_finish env x) end.
Qed.
Lemma answered_T i f w : (∀ g c, keeps same_view (f g c)) → T w → T (answered i f w).2.
Proof. intros Hf. apply (stable_view (answered i f)). unfold answered. view. Qed.
Lemma step_T env e w : ok e0 g0 w → T w → T (step env e w).2.
Proof.
  intros Hok Hw. destruct e as [b v| |c b| | | | | | | |i path|i name|d]; cbn [step].
  - by apply configure_T.
  - by apply bearer_T.
  - apply inhibit_T; [done| |done]. by destruct c.
  - by apply inhibit_T.
  - by apply inhibit_T.
  - apply inhibit_T; [done| |done]. done.
  - by apply reset_T.
  - apply stop_T.
  - unfold on_timer, get. rewrite M_bind_eq. destruct (_settle_id w); [by apply settled_T|done].
  - unfold on_timer, get. rewrite M_bind_eq. destruct (_timer_id w); [by apply grace_T|done].
  - apply answered_T; [|done]. intros g c. apply reply_view.
  - apply answered_T; [|done]. intros g c. apply error_view.
  - intros Hh Hs. destruct (Hw Hh Hs) as (s & due & E1 & E2 & E3 & E4). exists s, due. cbn. split; [done|]. split; [lia|]. split; [done|]. lia.
Qed.
End kept.

(** ** One lock at a time *)

Definition one_call (w : World) : Prop :=
  (calls w = [] ∧ _dispatching w = false) ∨ (∃ c g, calls w = [(c, g)] ∧ _dispatching w = true).
Definition lockless : relation World := λ w w', (calls w', _dispatching w') = (calls w, _dispatching w).
#[export] Instance lockless_preorder : PreOrder lockless.
Proof. split; unfold lockless; [by intros ?|intros ? ? ? ? ?; congruence]. Qed.
Lemma lockless_one w w' : lockless w w' → one_call w → one_call w'.
Proof. intros E. injection E as E1 E2. unfold one_call. by rewrite E1, E2. Qed.
Ltac lockless := keeps; done.
Lemma publish_lockless : keeps lockless _emit_if_changed.
Proof. unfold _emit_if_changed, publish. lockless. Qed.
Lemma arm_lockless : keeps lockless _arm_timer.
Proof. unfold _arm_timer, _cancel_timer. lockless. Qed.
Lemma forget_lockless : keeps lockless _forget_presence.
Proof. unfold _forget_presence, _cancel_timer, _cancel_settle. lockless. Qed.
Lemma settle_lockless : keeps lockless _schedule_settle.
Proof. unfold _schedule_settle, _cancel_settle. lockless. Qed.
#[local] Hint Resolve publish_lockless arm_lockless forget_lockless settle_lockless : keeps.
Lemma observe_lockless v : keeps lockless (_observe v).
Proof. unfold _observe, _cancel_timer, _cancel_settle, set_state. lockless. Qed.
Lemma read_lockless env : keeps lockless (_read env).
Proof. unfold _read, emit. lockless. Qed.
#[local] Hint Resolve observe_lockless read_lockless : keeps.
Lemma configure_lockless b v : keeps lockless (configure b v).
Proof. unfold configure, emit, set_state. lockless. Qed.
Lemma bearer_lockless env : keeps lockless (bearer_changed env).
Proof. unfold bearer_changed. lockless. Qed.
Lemma inhibit_lockless r b : keeps lockless (inhibit r b).
Proof. unfold inhibit, emit, set_state. lockless. Qed.
Lemma reset_lockless : keeps lockless reset.
Proof. unfold reset, emit, set_state. lockless. Qed.
Lemma stop_lockless : keeps lockless stop.
Proof. unfold stop, emit. lockless. Qed.
Lemma settled_lockless env : keeps lockless (_settled env).
Proof. unfold _settled. lockless. Qed.

(** A lock in progress between two calls: it ends, or one call is sent. *)
Definition ends_well (m : M World ()) : Prop := ∀ w, calls w = [] → _dispatching w = true → one_call (m w).2.
Lemma done_ends g r : ends_well (done g r).
Proof.
  intros w H1 H2. unfold done. rewrite M_bind_eq. unfold modify at 1. rewrite M_bind_eq. unfold get.
  set (w1 := w <| _dispatching := false |>). assert (H : one_call w1) by (by left).
  destruct (negb _); [exact H|]. rewrite M_bind_eq. unfold modify. refine (lockless_one _ _ (publish_lockless _) _). exact H.
Qed.
Lemma invoke_ends env g c error : (∀ e, ends_well (error e)) → ends_well (_invoke env g c error).
Proof.
  intros He w H1 H2. unfold _invoke. destruct (refuses env c); [by apply He|]. unfold emit. monad_simpl. cbn. right. exists c, g. cbn. by rewrite H1.
Qed.
Lemma session_ends env g path f error : (∀ e, ends_well (error e)) → ends_well (_lock_login1_session env g path f error).
Proof. intros He. unfold _lock_login1_session. destruct (negb _); [done|by apply invoke_ends]. Qed.
Lemma auto_ends env g : ends_well (_lock_login1_auto env g).
Proof. apply session_ends. intros e. apply done_ends. Qed.
Lemma by_env_ends env g : ends_well (_lock_login1_by_env env g).
Proof. unfold _lock_login1_by_env. case_match; [apply auto_ends|]. apply invoke_ends. intros _. apply auto_ends. Qed.
Lemma by_pid_ends env g : ends_well (_lock_login1_by_pid env g).
Proof. apply invoke_ends. intros _. apply by_env_ends. Qed.
Lemma screensaver_ends env g e : ends_well (screensaver_failed env g e).
Proof. unfold screensaver_failed. case_match; [apply done_ends|apply by_pid_ends]. Qed.
Lemma fall_back_ends env g f e : ends_well (fall_back env g f e).
Proof. destruct f; [apply by_env_ends|apply auto_ends|apply done_ends]. Qed.
Lemma reply_ends env g c path : ends_well (on_reply env g c path).
Proof. destruct c; [apply done_ends| | |apply done_ends]; apply session_ends, fall_back_ends. Qed.
Lemma error_ends env g c e : ends_well (on_error env g c e).
Proof. destruct c; [apply screensaver_ends|apply by_env_ends|apply auto_ends|apply fall_back_ends]. Qed.
Lemma dispatch_one env w : one_call w → one_call (_dispatch env w).2.
Proof.
  intros Hw. unfold _dispatch, set_state, emit. monad_simpl. cbn. destruct Hw as [[H1 H2]|(c & g & H1 & H2)]; rewrite H2; cbn.
  - match goal with |- one_call (locker_lock env ?g ?x).2 => apply (invoke_ends env g _ _ (screensaver_ends env g) x) end; done.
  - right. exists c, g. by cbn; rewrite H1.
Qed.
Lemma grace_one env w : one_call w → one_call (_grace_elapsed env w).2.
Proof.
  intros Hw. unfold _grace_elapsed. rewrite M_bind_eq. unfold modify at 1. rewrite M_bind_eq. unfold get.
  set (w1 := w <| _timer_id := None |>). assert (H1 : one_call w1) by exact Hw. clearbody w1. clear Hw w.
  destruct (_absent_since w1) as [s|]; [|done]. destruct (_ || _); [done|]. rewrite M_bind_eq.
  pose proof (lockless_one _ _ (read_lockless env w1) H1) as H2. destruct (_read env w1) as [[v|e] w2]; [|done]. cbn [snd] in H2.
  assert (Hf : ∀ m : M World (), keeps lockless m → one_call ((m;; _emit_if_changed) w2).2).
  { intros m Hm. refine (lockless_one w2 _ _ H2). revert w2 H2. assert (K : keeps lockless (m;; _emit_if_changed)) by lockless. intros w2 _. apply K. }
  destruct v as [[]|]; [by apply Hf, observe_lockless| |apply Hf; unfold set_state; lockless].
  destruct (_ <? _); [by apply Hf, arm_lockless|]. rewrite M_bind_eq. pose proof (dispatch_one env w2 H2) as H3.
  destruct (_dispatch env w2) as [[u|e] w3]; [|done]. exact (lockless_one _ _ (publish_lockless _) H3).
Qed.
Lemma answered_one i f w : (∀ g c, ends_well (f g c)) → one_call w → one_call (answered i f w).2.
Proof.
  intros Hf Hw. unfold answered. rewrite M_bind_eq. unfold get. destruct (calls w !! i) as [[c g]|] eqn:E; [|done].
  destruct Hw as [[H1 _]|(c' & g' & H1 & H2)]; [by rewrite H1 in E|]. rewrite H1 in E.
  destruct i as [|i]; [|done]. rewrite M_bind_eq. unfold modify. apply Hf; cbn; by rewrite ?H1.
Qed.
Lemma step_one env e w : one_call w → one_call (step env e w).2.
Proof.
  intros Hw. destruct e as [b v| |c b| | | | | | | |i path|i name|d]; cbn [step].
  - exact (lockless_one _ _ (configure_lockless b v w) Hw).
  - exact (lockless_one _ _ (bearer_lockless env w) Hw).
  - exact (lockless_one _ _ (inhibit_lockless _ _ w) Hw).
  - exact (lockless_one _ _ (inhibit_lockless _ _ w) Hw).
  - exact (lockless_one _ _ (inhibit_lockless _ _ w) Hw).
  - exact (lockless_one _ _ (inhibit_lockless _ _ w) Hw).
  - exact (lockless_one _ _ (reset_lockless w) Hw).
  - exact (lockless_one _ _ (stop_lockless w) Hw).
  - unfold on_timer, get. rewrite M_bind_eq. destruct (_settle_id w); [exact (lockless_one _ _ (settled_lockless env w) Hw)|done].
  - unfold on_timer, get. rewrite M_bind_eq. destruct (_timer_id w); [by apply grace_one|done].
  - apply answered_one; [|done]. intros g c. apply reply_ends.
  - apply answered_one; [|done]. intros g c. apply error_ends.
  - done.
Qed.

Definition alive e0 g0 (w : World) : Prop := ok e0 g0 w ∧ T w ∧ one_call w.
Lemma run_alive es enabled grace now : MIN_GRACE_SEC <= grace <= MAX_GRACE_SEC → alive enabled grace (run es (World_init enabled grace now)).
Proof.
  intros Hg. unfold Proximity.run. apply run_all_invariant.
  - intros m w Hm (H1 & H2 & H3). apply list_elem_of_fmap in Hm as ([env e] & -> & _).
    split; [by apply lock_step_ok|]. split; [by eapply step_T|by apply step_one].
  - split; [exact (lock_run_ok [] enabled grace now Hg)|]. split; [by apply T_other; destruct enabled|by left].
Qed.

(** What the timer does once the phone is read as away. *)
Definition read_away (w : World) : World := w <| _timer_id := None |> <| log ::= λ l, l ++ [Read (clock w) (Some false)] |>.
Lemma grace_fires env w s : heeded w = true → _state w = STATE_GRACE → _absent_since w = Some s → read_presence env = Ok (Some false) →
  _grace_elapsed env w = ((if clock w <? s + sec (_grace w) then _arm_timer else _dispatch env);; _emit_if_changed) (read_away w).
Proof.
  intros Hh Hs Ea Hr. unfold _grace_elapsed. rewrite M_bind_eq. unfold modify at 1. rewrite M_bind_eq. unfold get at 1.
  match goal with |- match _absent_since ?x with _ => _ end _ = _ => set (w1 := x) end.
  change (_absent_since w1) with (_absent_since w). rewrite Ea. change (heeded w1) with (heeded w). rewrite Hh.
  rewrite (bool_decide_true (_state w1 = STATE_GRACE)) by exact Hs. cbn [negb orb]. rewrite M_bind_eq.
  assert (Er : _read env w1 = (Ok (Some false), read_away w)) by (unfold _read, emit; monad_simpl; cbn; by rewrite Hr).
  by rewrite Er.
Qed.
(** A handler that returns. *)
Abbreviation returns m := (tame (λ _ _, True) m).
#[local] Instance any_preorder {S} : PreOrder (λ _ _ : S, True).
Proof. by split. Qed.
Lemma publish_returns : returns _emit_if_changed.
Proof. unfold _emit_if_changed, publish, emit. by tame. Qed.
#[local] Hint Resolve publish_returns : tame.
Lemma done_returns g r : returns (done g r).
Proof. unfold done. by tame. Qed.
Lemma invoke_returns env g c error : (∀ e, returns (error e)) → returns (_invoke env g c error).
Proof. intros He. unfold _invoke, emit. destruct (refuses env c); [by apply He|by tame]. Qed.
Lemma auto_returns env g : returns (_lock_login1_auto env g).
Proof. unfold _lock_login1_auto, _lock_login1_session. cbn. apply invoke_returns. intros e. apply done_returns. Qed.
Lemma locker_returns env g : returns (locker_lock env g).
Proof.
  apply invoke_returns. intros e. unfold screensaver_failed. case_bool_decide; [apply done_returns|]. apply invoke_returns. intros _.
  unfold _lock_login1_by_env. case_match; [apply auto_returns|]. apply invoke_returns. intros _. apply auto_returns.
Qed.
#[local] Hint Resolve locker_returns : tame.
Lemma dispatch_returns env : returns (_dispatch env).
Proof. unfold _dispatch, set_state, emit. by tame. Qed.
Lemma locks_now env w : let w' := _dispatch env w in is_ok w'.1 = true ∧ _state w'.2 = STATE_LOCKED ∧
  (_dispatching w = false → ∃ l, log w'.2 = log w ++ Locking (clock w) :: l).
Proof.
  cbn zeta. split.
  { pose proof (dispatch_returns env w) as H. unfold wp in H. by destruct (_dispatch env w) as [[u|e] w']. }
  unfold _dispatch, set_state, emit. monad_simpl. cbn. destruct (_dispatching w); cbn; [done|].
  match goal with |- context [locker_lock env ?g ?x] => destruct (locker_minor env g x) as [_ _ Es _ _ (l & El & _)] end.
  split; [by rewrite Es|]. intros _. exists l. rewrite El. cbn. by rewrite <- app_assoc.
Qed.

(** C24: An absence is acted on.  In every reachable state in which a grace
    period runs and the lock has not been stopped, its timer is armed: it is
    due when the grace period (as configured now) is over, at most a second
    late; when it fires from then on and the phone is away, the desktop is
    locked, at once unless an earlier lock is still waiting for its answer, of
    which there is never more than one; when it fires too early, the period
    goes on with the timer armed anew. *)
Theorem absence_locks enabled v now w0 es w : create enabled v now = Ok w0 → w = run es w0 →
  _state w = STATE_GRACE → INHIBIT_STOPPED ∉ _inhibitors w →
  ∃ s due, _absent_since w = Some s ∧ s <= clock w ∧ _timer_id w = Some due ∧
    s + sec (_grace w) <= due <= Z.max (clock w) (s + sec (_grace w)) + sec 1 ∧
    (length (calls w) = if _dispatching w then 1 else 0)%nat ∧
    ∀ env, read_presence env = Ok (Some false) →
      let w' := (step env EGrace w).2 in
      if clock w <? s + sec (_grace w) then _state w' = STATE_GRACE ∧ timed w'
      else _state w' = STATE_LOCKED ∧
        (_dispatching w = false → ∃ l, log w' = log w ++ Read (clock w) (Some false) :: Locking (clock w) :: l).
Proof.
  unfold create. intros Hc -> Hs Hi. destruct (clamp_grace v DEFAULT_GRACE_SEC) as [g0|] eqn:Eg; [|done]. injection Hc as <-.
  pose proof (clamp_range v DEFAULT_GRACE_SEC g0 ltac:(done) Eg) as Hg.
  destruct (run_alive es enabled g0 now Hg) as (Hok & HT & H1). set (w := run es _) in *. clearbody w.
  assert (Hh : heeded w = true).
  { destruct (heeded w) eqn:E; [done|]. by destruct (k_idle _ _ w Hok E Hi). }
  destruct (HT Hh Hs) as (s & due & E1 & E2 & E3 & E4). exists s, due. do 4 (split; [done|]). split.
  { destruct H1 as [[-> ->]|(c & g & -> & ->)]; done. }
  intros env Hr. cbn [step]. unfold on_timer, get. rewrite M_bind_eq, E3, (grace_fires env w s Hh Hs E1 Hr).
  set (w1 := read_away w). destruct (clock w <? s + sec (_grace w)).
  - rewrite M_bind_eq, arm_runs. pose proof (emit_if_changed_view (_arm_timer w1).2) as Ev.
    assert (Es : _state (_arm_timer w1).2 = STATE_GRACE) by (unfold _arm_timer, _cancel_timer; monad_simpl; cbn; by rewrite E1).
    split; [injection Ev as _ _ -> _ _ _ _; exact Es|].
    pose proof (arm_timed w1 s E1 E2) as Ht. unfold timed in *. injection Ev as _ _ _ -> -> -> ->. exact Ht.
  - pose proof (locks_now env w1) as (H1' & H2 & H3). rewrite M_bind_eq. destruct (_dispatch env w1) as [[u|e] w2]; [|done].
    destruct (emit_if_changed_minor w2) as [_ _ Es _ _ (l & El & _)].
    split; [by rewrite Es|]. intros Hd. destruct (H3 Hd) as (l' & El'). exists (l' ++ l).
    rewrite El. change (log w1) with (log w ++ [Read (clock w) (Some false)]) in El'. cbn in El'. by rewrite El', <- !app_assoc.
Qed.

(** An evening when the phone leaves for good. *)
Definition gone : World := run [(sees (Some true), EBearer); (sees None, ETime (sec 30)); (sees (Some false), EBearer); (sees None, ETime (sec 60))] (World_init true 60 0).
Lemma absence_locks_witness : ∃ s due, _absent_since gone = Some s ∧ s <= clock gone ∧ _timer_id gone = Some due ∧
    s + sec (_grace gone) <= due <= Z.max (clock gone) (s + sec (_grace gone)) + sec 1 ∧
    (length (calls gone) = if _dispatching gone then 1 else 0)%nat ∧
    ∀ env, read_presence env = Ok (Some false) →
      let w' := (step env EGrace gone).2 in
      if clock gone <? s + sec (_grace gone) then _state w' = STATE_GRACE ∧ timed w'
      else _state w' = STATE_LOCKED ∧
        (_dispatching gone = false → ∃ l, log w' = log gone ++ Read (clock gone) (Some false) :: Locking (clock gone) :: l).
Proof.
  apply (absence_locks true (VInt 60) 0 (World_init true 60 0)
    [(sees (Some true), EBearer); (sees None, ETime (sec 30)); (sees (Some false), EBearer); (sees None, ETime (sec 60))] gone);
    [vm_compute; reflexivity|reflexivity|vm_compute; reflexivity|apply not_elem_of_nil].
Defined.

(** ** The locker against a reference *)

(** What becomes of a call: it raises when it is sent, or fails, or is
    answered later (with a path, where the call returns one). *)
Inductive outcome := Refuses (name : string) | Errs (name : string) | Replies (path : string).

Section locker.
Context (ans : call → outcome) (xdg : string).

Definition sent (c : call) : list call := if ans c is Refuses _ then [] else [c].
Definition after (cs : list call) (r : string * list call) : string * list call := (r.1, cs ++ r.2).

(** Sessions are looked up one after the other, then logind's own alias. *)
Fixpoint try_sessions (lookups : list (call * fallback)) : string * list call :=
  match lookups with
  | [] => let c := SessionLock AUTO_PATH ThenFail in (if ans c is Replies _ then RESULT_LOGIN1 else RESULT_FAILED, sent c)
  | (lookup, fall) :: rest =>
      after (sent lookup)
        match ans lookup with
        | Replies path =>
            if session_path path then
              let c := SessionLock path fall in
              after (sent c) (if ans c is Replies _ then (RESULT_LOGIN1, []) else try_sessions rest)
            else try_sessions rest
        | _ => try_sessions rest
        end
  end.
Definition lookups : list (call * fallback) :=
  (GetSessionByPID, ThenEnv) :: (if String.eqb (_session_id xdg) "" then [] else [(GetSession (_session_id xdg), ThenAuto)]).

(** The order of the class's documentation. *)
Definition reference_lock : string * list call :=
  after (sent ScreenSaverLock)
    match ans ScreenSaverLock with
    | Replies _ => (RESULT_SCREENSAVER, [])
    | Errs name | Refuses name =>
        if bool_decide (name ∈ _NO_REPLY_ERRORS) then (RESULT_SCREENSAVER_REQUESTED, []) else try_sessions lookups
    end.

(** The main loop answers the calls by [ans]. *)
Definition answering : Env := mkEnv (Ok None) (λ c, if ans c is Refuses name then Some name else None) xdg.
Definition answer_event (c : call) : event :=
  match ans c with Replies path => EReply 0 path | Errs name | Refuses name => EError 0 name end.
Fixpoint drive (n : nat) (w : World) : World :=
  match n, calls w with
  | S n', (c, _) :: _ => drive n' (step answering (answer_event c) w).2
  | _, _ => w
  end.

#[local] Arguments drive : simpl never.
Lemma drive_S n w : drive (S n) w = match calls w with (c, _) :: _ => drive n (step answering (answer_event c) w).2 | [] => w end.
Proof. done. Qed.

Definition called (l : list action) : list call := omap (λ a, if a is Calling c then Some c else None) l.

(** [m], run while a lock is in progress, leads to the result and the calls
    [r] within [n] answers. *)
Definition ends_in (m : M World ()) (n : nat) (g : Z) (r : string * list call) : Prop := ∀ w,
  calls w = [] → _dispatching w = true → _generation w = g →
  let w' := drive n (m w).2 in
  calls w' = [] ∧ _dispatching w' = false ∧ _last_result w' = r.1 ∧ called (log w') = called (log w) ++ r.2.

Lemma drive_idle n w : calls w = [] → drive n w = w.
Proof. intros E. destruct n; [done|]. by rewrite drive_S, E. Qed.
Lemma called_app l1 l2 : called (l1 ++ l2) = called l1 ++ called l2.
Proof. unfold called. by rewrite omap_app. Qed.

Lemma done_ends_in g res n : ends_in (done g res) n g (res, []).
Proof.
  intros w H1 H2 H3. unfold done. monad_simpl. cbn. rewrite H3, Z.eqb_refl. cbn.
  unfold _emit_if_changed, publish, emit. monad_simpl. case_bool_decide; cbn; rewrite drive_idle by (cbn; done); cbn.
  - by rewrite app_nil_r.
  - rewrite called_app. cbn. by rewrite !app_nil_r.
Qed.
Lemma drive_more n w : calls (drive n w) = [] → drive (S n) w = drive n w.
Proof.
  revert w. induction n as [|n IH]; intros w E; [by apply drive_idle|].
  rewrite drive_S in E. rewrite (drive_S (S n) w), (drive_S n w). destruct (calls w) as [|[c g] cs]; [done|]. apply (IH (step answering (answer_event c) w).2 E).
Qed.
Lemma ends_in_later m n n' g r : (n <= n')%nat → ends_in m n g r → ends_in m n' g r.
Proof.
  intros Hn Hm. induction Hn as [|n' _ IH]; [done|]. intros w H1 H2 H3. specialize (IH w H1 H2 H3). cbn zeta in *.
  rewrite drive_more by apply IH. exact IH.
Qed.
Lemma drive_answered n w c g : calls w = [(c, g)] → drive (S n) w =
  drive n (match ans c with Replies path => on_reply answering g c path | Errs e | Refuses e => on_error answering g c e end (w <| calls := [] |>)).2.
Proof.
  intros E. rewrite drive_S, E. unfold answer_event. destruct (ans c); cbn [step]; unfold answered; rewrite M_bind_eq; unfold get; rewrite E;
    cbn [lookup list_lookup]; rewrite M_bind_eq; unfold modify; by rewrite <- E at 1 || (do 3 f_equal; cbn; by rewrite E).
Qed.
Lemma invoke_ends_in g c error n r_err r_ok :
  (∀ e, ans c = Refuses e ∨ ans c = Errs e → ends_in (error e) n g r_err) →
  (∀ e, on_error answering g c e = error e) →
  (∀ path, ans c = Replies path → ends_in (on_reply answering g c path) n g r_ok) →
  ends_in (_invoke answering g c error) (S n) g (after (sent c) (if ans c is Replies _ then r_ok else r_err)).
Proof.
  intros He Hc Hr. unfold _invoke, sent. cbn [refuses answering]. destruct (ans c) as [e|e|path] eqn:E.
  - exact (ends_in_later _ n (S n) g r_err ltac:(lia) (He e (or_introl eq_refl))).
  - intros w H1 H2 H3. cbn zeta. set (w1 := w <| log ::= λ l, l ++ [Calling c] |> <| calls ::= λ l, l ++ [(c, g)] |>).
    change (((emit (Calling c);; modify (λ w : World, w <| calls ::= λ l, l ++ [(c, g)] |>)) w).2) with w1.
    rewrite (drive_answered n w1 c g) by (cbn; by rewrite H1). set (w2 := w1 <| calls := [] |>). rewrite E, Hc.
    destruct (He e (or_intror eq_refl) w2 eq_refl H2 H3) as (R1 & R2 & R3 & R4).
    split; [done|]. split; [done|]. split; [done|]. rewrite R4. cbn. by rewrite called_app, <- app_assoc.
  - intros w H1 H2 H3. cbn zeta. set (w1 := w <| log ::= λ l, l ++ [Calling c] |> <| calls ::= λ l, l ++ [(c, g)] |>).
    change (((emit (Calling c);; modify (λ w : World, w <| calls ::= λ l, l ++ [(c, g)] |>)) w).2) with w1.
    rewrite (drive_answered n w1 c g) by (cbn; by rewrite H1). set (w2 := w1 <| calls := [] |>). rewrite E.
    destruct (Hr path eq_refl w2 eq_refl H2 H3) as (R1 & R2 & R3 & R4).
    split; [done|]. split; [done|]. split; [done|]. rewrite R4. cbn. by rewrite called_app, <- app_assoc.
Qed.

Lemma drive_view n : ∀ w, same_view w (drive n w).
Proof.
  induction n as [|n IH]; intros w; [done|]. rewrite drive_S. destruct (calls w) as [|[c g] cs]; [done|].
  etrans; [|apply IH]. unfold answer_event. destruct (ans c); cbn [step].
  1,2: assert (H : keeps same_view (answered 0 (λ g c, on_error answering g c name))) by (unfold answered; pose proof error_view; view); apply H.
  assert (H : keeps same_view (answered 0 (λ g c, on_reply answering g c path))) by (unfold answered; pose proof reply_view; view). apply H.
Qed.

(** The stages, last first. *)
Lemma auto_ends_in g : ends_in (_lock_login1_auto answering g) 1 g (try_sessions []).
Proof.
  pose proof (invoke_ends_in g (SessionLock AUTO_PATH ThenFail) (lock_failed g) 0 (RESULT_FAILED, []) (RESULT_LOGIN1, [])) as H.
  cbn [try_sessions]. assert (Hr : after (sent (SessionLock AUTO_PATH ThenFail)) (if ans (SessionLock AUTO_PATH ThenFail) is Replies _ then (RESULT_LOGIN1, []) else (RESULT_FAILED, []))
    = (if ans (SessionLock AUTO_PATH ThenFail) is Replies _ then RESULT_LOGIN1 else RESULT_FAILED, sent (SessionLock AUTO_PATH ThenFail))).
  { unfold after. destruct (ans (SessionLock AUTO_PATH ThenFail)); cbn; by rewrite app_nil_r. }
  rewrite <- Hr. apply H; [|done|]; intros; apply done_ends_in.
Qed.
(** A lookup and the lock of the session it finds, before what follows. *)
Lemma lookup_ends_in g c fall next n rest :
  (∀ path, on_reply answering g c path = _lock_login1_session answering g path fall (fall_back answering g fall)) →
  (∀ e, on_error answering g c e = next) → (∀ e, fall_back answering g fall e = next) →
  ends_in next n g (try_sessions rest) →
  ends_in (_invoke answering g c (λ _, next)) (S (S n)) g (try_sessions ((c, fall) :: rest)).
Proof.
  intros H1 H2 H3 Hn.
  set (found := match ans c with Replies path => if session_path path
    then after (sent (SessionLock path fall)) (if ans (SessionLock path fall) is Replies _ then (RESULT_LOGIN1, []) else try_sessions rest)
    else try_sessions rest | _ => try_sessions rest end).
  assert (E : try_sessions ((c, fall) :: rest) = after (sent c) (if ans c is Replies _ then found else try_sessions rest)).
  { cbn [try_sessions]. f_equal. unfold found. by destruct (ans c). }
  rewrite E. apply invoke_ends_in; [|done|].
  - intros _ _. by apply (ends_in_later _ n); [lia|].
  - intros path Ep. rewrite H1. unfold found. rewrite Ep. unfold _lock_login1_session. destruct (session_path path); cbn [negb].
    + apply invoke_ends_in; [intros e _; by rewrite H3|done|]. intros ? _. apply done_ends_in.
    + rewrite H3. by apply (ends_in_later _ n); [lia|].
Qed.
Lemma by_env_ends_in g : ends_in (_lock_login1_by_env answering g) 3 g
  (try_sessions (if String.eqb (_session_id xdg) "" then [] else [(GetSession (_session_id xdg), ThenAuto)])).
Proof.
  unfold _lock_login1_by_env. cbn [xdg_session_id answering]. destruct (String.eqb _ _).
  - apply (ends_in_later _ 1); [lia|]. apply auto_ends_in.
  - apply (lookup_ends_in g _ ThenAuto _ 1 []); [done..|]. apply auto_ends_in.
Qed.
Lemma by_pid_ends_in g : ends_in (_lock_login1_by_pid answering g) 5 g (try_sessions lookups).
Proof. apply (lookup_ends_in g _ ThenEnv _ 3); [done..|]. apply by_env_ends_in. Qed.
Lemma locker_ends_in g : ends_in (locker_lock answering g) 6 g reference_lock.
Proof.
  set (no := match ans ScreenSaverLock with Errs name | Refuses name =>
    if bool_decide (name ∈ _NO_REPLY_ERRORS) then (RESULT_SCREENSAVER_REQUESTED, []) else try_sessions lookups | _ => ("", []) end).
  assert (E : reference_lock = after (sent ScreenSaverLock) (if ans ScreenSaverLock is Replies _ then (RESULT_SCREENSAVER, []) else no)).
  { unfold reference_lock, no. by destruct (ans ScreenSaverLock). }
  rewrite E. apply invoke_ends_in; [|done|intros; apply done_ends_in].
  intros e He. unfold screensaver_failed, no.
  assert (E' : match ans ScreenSaverLock with Errs name | Refuses name =>
    if bool_decide (name ∈ _NO_REPLY_ERRORS) then (RESULT_SCREENSAVER_REQUESTED, []) else try_sessions lookups | _ => ("", []) end =
    if bool_decide (e ∈ _NO_REPLY_ERRORS) then (RESULT_SCREENSAVER_REQUESTED, []) else try_sessions lookups) by (by destruct He as [-> | ->]).
  rewrite E'. case_bool_decide; [apply done_ends_in|apply by_pid_ends_in].
Qed.

(** The locker tries what its documentation says, in that order.  Whatever
    each D-Bus call does (it raises when it is sent, fails later, or returns a
    path), a lock that is dispatched while none is in progress ends within six
    answers, with the result and exactly the calls of a reference function:
    the ScreenSaver service first; logind only when that failed other than by
    not replying; then the session of the daemon's process, the session of
    XDG_SESSION_ID if that is a valid name, and logind's alias, each only if
    what came before failed or named something that is not a session. *)
Theorem lock_order w : calls w = [] → _dispatching w = false →
  let w' := drive 6 (_dispatch answering w).2 in
  calls w' = [] ∧ _dispatching w' = false ∧ _state w' = STATE_LOCKED ∧
  _last_result w' = reference_lock.1 ∧ called (log w') = called (log w) ++ reference_lock.2.
Proof.
  intros H1 H2. unfold _dispatch, set_state, emit. monad_simpl. cbn [_dispatching]. cbn. rewrite H2. cbn.
  match goal with |- context [locker_lock answering ?g ?x] => destruct (locker_ends_in g x H1 eq_refl eq_refl) as (R1 & R2 & R3 & R4);
    pose proof (locker_view answering g x) as Ev end.
  split; [done|]. split; [done|]. split; [|split; [done|]].
  - match goal with |- context [drive 6 ?y] => pose proof (drive_view 6 y) as Ed end.
    injection Ed as _ _ Ed _ _ _ _. injection Ev as _ _ Ev _ _ _ _. exact (eq_trans Ed Ev).
  - rewrite R4. cbn. by rewrite called_app, app_nil_r.
Qed.
End locker.

(** A service that does not answer the lock, and one that refuses it. *)
Definition gnome : call → outcome := λ c, match c with
  | ScreenSaverLock => Errs "org.freedesktop.DBus.Error.ServiceUnknown"
  | GetSessionByPID => Errs "org.freedesktop.login1.NoSessionForPID"
  | GetSession _ => Replies "/org/freedesktop/login1/session/_32"
  | SessionLock _ _ => Replies ""
  end.
Lemma lock_order_witness :
  let w' := drive gnome "2" 6 (_dispatch (answering gnome "2") (World_init true 60 0)).2 in
  calls w' = [] ∧ _dispatching w' = false ∧ _state w' = STATE_LOCKED ∧
  _last_result w' = (reference_lock gnome "2").1 ∧ called (log w') = called [] ++ (reference_lock gnome "2").2.
Proof. apply (lock_order gnome "2" (World_init true 60 0)); reflexivity. Defined.
Example gnome_locks : reference_lock gnome "2" =
  ("login1", [ScreenSaverLock; GetSessionByPID; GetSession "2"; SessionLock "/org/freedesktop/login1/session/_32" ThenAuto]).
Proof. vm_compute. reflexivity. Qed.
