(* ===== verification/BluezHealth.v ===== *)
(** * BluezHealth: noticing that bluetoothd has stopped answering
    (src/blueferry/bluez_health.py).

    Pings and PID queries are answered in later events; the timer fires when it
    is due or later.  Every ping sent, its outcome, and what ends a suspicion
    are recorded in [log]. *)
From S2P Require Import Prelude.

Definition NO_REPLY_ERRORS : list string :=
  ["org.freedesktop.DBus.Error.NoReply"; "org.freedesktop.DBus.Error.Timeout"; "org.freedesktop.DBus.Error.TimedOut"].
Definition NOT_RUNNING_ERRORS : list string :=
  ["org.freedesktop.DBus.Error.ServiceUnknown"; "org.freedesktop.DBus.Error.NameHasNoOwner"].
Definition PING_FAILURE_THRESHOLD : Z := 2.
Definition PING_INTERVAL_SEC : Z := 30.
Definition PING_INTERVAL_UNRESPONSIVE_SEC : Z := 15.

(** An error is its D-Bus name, empty for an exception without one. *)
Definition is_no_reply (name : string) : bool := bool_decide (name ∈ NO_REPLY_ERRORS).

Inductive action :=
  | Pinged (t : time)             (* a ping was sent *)
  | NoReply (t : time)            (* a ping of this process of bluetoothd went unanswered *)
  | Answered                      (* a ping or another call was answered *)
  | NewOwner                      (* org.bluez has another owner, or none *)
  | Unresponsive (t : time)
  | OnChange.

Record World := mkWorld {
  _failures : Z;
  _unresponsive : bool;
  _reason : string;
  _pinging : bool;
  _timer : option (time * Z);     (* when it is due, and its interval *)
  _generation : Z;
  clock : time;
  pings : list Z;                 (* unanswered, with the generation they captured *)
  queries : list Z;               (* unanswered PID queries *)
  log : list action;
}.

(** What the environment answers at once: whether sending a ping or asking
    for the PID raises, and whether there is a PID query at all. *)
Record Env := mkEnv { ping_raises : bool; owner_pid : option bool }.

Definition emit (a : action) : M World () := modify (λ w : World, w <| log ::= λ l, l ++ [a] |>).
Definition _notify : M World () := emit OnChange.

Record Snapshot := mkSnapshot { bluez_unresponsive : bool; bluez_unresponsive_reason : string }.
Definition snapshot (w : World) : Snapshot := mkSnapshot (_unresponsive w) (if _unresponsive w then _reason w else "").

Section health.
Context (env : Env).

Definition schedule (interval : Z) : M World () := modify (λ w : World, w <| _timer := Some (clock w + sec interval, interval) |>).
Definition _reschedule (interval : Z) : M World () :=
  w ← get; if _timer w is None then mret () else schedule interval.

Definition start : M World () := w ← get; if _timer w is None then schedule PING_INTERVAL_SEC else mret ().
Definition stop : M World () :=
  modify (λ w : World, w <| _generation ::= Z.succ |> <| _pinging := false |> <| _timer := None |>).

Definition _recovered : M World () :=
  modify (λ w : World, w <| _unresponsive := false |> <| _reason := "" |>);;
  _reschedule PING_INTERVAL_SEC;;
  _notify.

Definition report_success : M World () :=
  emit Answered;;
  w ← get;
  if _unresponsive w then modify (λ w : World, w <| _failures := 0 |>);; _recovered
  else when (negb (_failures w =? 0)) (modify (λ w : World, w <| _failures := 0 |>);; _reschedule PING_INTERVAL_SEC).

Definition probe : M World () :=
  w ← get;
  if _pinging w then mret ()
  else if ping_raises env then mret ()
  else
    modify (λ w : World, w <| _pinging := true |> <| pings ::= λ l, l ++ [_generation w] |>);;
    emit (Pinged (clock w)).

Definition report (name : string) : M World () :=
  w ← get;
  when (is_no_reply name && negb (_unresponsive w) && (_failures w =? 0)) probe.

Definition owner_changed (new_owner : string) : M World () :=
  emit NewOwner;;
  modify (λ w : World, w <| _generation ::= Z.succ |> <| _pinging := false |> <| _failures := 0 |>);;
  w ← get;
  if _unresponsive w && negb (String.eqb new_owner "") then _recovered
  else
    _reschedule PING_INTERVAL_SEC;;
    when (_unresponsive w) (modify (λ w : World, w <| _unresponsive := false |> <| _reason := "" |>);; _notify).

Definition _explain : M World () :=
  w ← get;
  when (bool_decide (owner_pid env = Some false)) (modify (λ w : World, w <| queries ::= λ l, l ++ [_generation w] |>)).

(** One ping went unanswered. *)
Definition _failed : M World () :=
  modify (λ w : World, w <| _failures ::= Z.succ |>);;
  w ← get;
  if _unresponsive w then mret ()
  else if _failures w <? PING_FAILURE_THRESHOLD then _reschedule PING_INTERVAL_UNRESPONSIVE_SEC
  else
    modify (λ w : World, w <| _unresponsive := true |> <| _reason := "" |>);;
    emit (Unresponsive (clock w));;
    _reschedule PING_INTERVAL_UNRESPONSIVE_SEC;;
    _explain;;
    _notify.

(** The callbacks of [probe] and [_explain]. *)
Definition replied (generation : Z) : M World () :=
  w ← get;
  if negb (generation =? _generation w) then mret ()
  else modify (λ w : World, w <| _pinging := false |>);; report_success.
Definition ping_failed (generation : Z) (name : string) : M World () :=
  w ← get;
  if negb (generation =? _generation w) then mret ()
  else
    modify (λ w : World, w <| _pinging := false |>);;
    if is_no_reply name then emit (NoReply (clock w));; _failed
    else when (bool_decide (name ∈ NOT_RUNNING_ERRORS)) (modify (λ w : World, w <| _failures := 0 |>)).
Definition got_pid (generation : Z) (pid : option Z) (state : string) : M World () :=
  w ← get;
  if negb (generation =? _generation w) || negb (_unresponsive w) || bool_decide (default 0 pid = 0) then mret ()
  else when (String.eqb state "D") (modify (λ w : World, w <| _reason := "kernel" |>);; _notify).

(** The timer's callback returns true: the source stays. *)
Definition _tick : M World () := probe.

(** ** The main loop *)

Inductive event :=
  | EStart
  | EStop
  | EReport (name : string)
  | ESuccess
  | EOwner (new_owner : string)
  | ETick
  | EReply (i : nat)
  | EError (i : nat) (name : string)
  | EPid (i : nat) (pid : option Z) (state : string)
  | ETime (d : Z).

Definition take_ping (i : nat) (f : Z → M World ()) : M World () :=
  w ← get;
  match pings w !! i with
  | Some g => modify (λ w : World, w <| pings ::= delete i |>);; f g
  | None => mret ()
  end.
Definition step (e : event) : M World () :=
  match e with
  | EStart => start
  | EStop => stop
  | EReport name => report name
  | ESuccess => report_success
  | EOwner new_owner => owner_changed new_owner
  | ETick =>
      w ← get;
      match _timer w with
      | Some (due, interval) => when (due <=? clock w) (_tick;; modify (λ w : World, w <| _timer := Some (clock w + sec interval, interval) |>))
      | None => mret ()
      end
  | EReply i => take_ping i replied
  | EError i name => take_ping i (λ g, ping_failed g name)
  | EPid i pid state =>
      w ← get;
      match queries w !! i with
      | Some g => modify (λ w : World, w <| queries ::= delete i |>);; got_pid g pid state
      | None => mret ()
      end
  | ETime d => modify (λ w : World, w <| clock ::= λ t, t + Z.max 0 d |>)
  end.
End health.

Definition World_init (now : time) : World := mkWorld 0 false "" false None 0 now [] [] [].
Definition run (es : list (Env * event)) (w : World) : World := run_all ((λ '(env, e), step env e) <$> es) w.

Definition quiet_env : Env := mkEnv false (Some false).
(** bluetoothd hangs: two pings go unanswered, 15 s apart. *)
Definition hang : list (Env * event) :=
  pair quiet_env <$> [EStart; ETime (sec 30); ETick; ETime (sec 3); EError 0 "org.freedesktop.DBus.Error.NoReply"; ETime (sec 15); ETick;
    ETime (sec 3); EError 0 "org.freedesktop.DBus.Error.NoReply"; EPid 0 (Some 812) "D"].
Example hang_noticed : let w := run hang (World_init 0) in
  (log w, snapshot w) = ([Pinged (sec 30); NoReply (sec 33); Pinged (sec 48); NoReply (sec 51); Unresponsive (sec 51); OnChange; OnChange],
    mkSnapshot true "kernel").
Proof. vm_compute. reflexivity. Qed.

(** An error reply between two lost pings does not break the count. *)
Definition answered_between : list (Env * event) :=
  pair quiet_env <$> [EStart; ETime (sec 30); ETick; EError 0 "org.freedesktop.DBus.Error.NoReply"; ETime (sec 15); ETick;
    EError 0 "org.freedesktop.DBus.Error.AccessDenied"; ETime (sec 15); ETick; EError 0 "org.freedesktop.DBus.Error.NoReply"].
Example not_consecutive : _unresponsive (run answered_between (World_init 0)) = true.
Proof. vm_compute. reflexivity. Qed.

(** ** Why bluetoothd is called unresponsive *)

Definition no_ping (a : action) : bool := if a is Pinged _ then false else true.
Definition same_owner (a : action) : bool := if a is NewOwner then false else true.
(** Neither a sign of life, nor another lost ping. *)
Definition silent (a : action) : bool := match a with Answered | NewOwner | NoReply _ => false | _ => true end.

(** The last ping was sent to this owner at [p]. *)
Definition pinged (l : list action) (p : time) : Prop := ∃ la lb,
  l = la ++ Pinged p :: lb ∧ Forall (λ a, no_ping a && same_owner a = true) lb.
(** A ping was lost at [f], and [l'] is silent since. *)
Definition lost_once (l : list action) (f : time) (l' : list action) : Prop := ∃ p la,
  pinged la p ∧ l = la ++ NoReply f :: l' ∧ Forall (λ a, silent a = true) l'.
(** The last ping of a silent period was sent 15 s after its start or later. *)
Definition pinged_again (f : time) (l' : list action) : Prop := ∃ lc p ld,
  l' = lc ++ Pinged p :: ld ∧ Forall (λ a, no_ping a = true) ld ∧ f + sec PING_INTERVAL_UNRESPONSIVE_SEC <= p.
(** The grounds for calling bluetoothd unresponsive at [t]. *)
Definition hung (l : list action) (t : time) : Prop := ∃ l0 f l',
  l = l0 ++ [NoReply t] ∧ lost_once l0 f l' ∧ pinged_again f l'.
Definition all_hung (l : list action) : Prop := ∀ l1 t l2, l = l1 ++ Unresponsive t :: l2 → hung l1 t.

Lemma pinged_app l p l2 : Forall (λ a, no_ping a && same_owner a = true) l2 → pinged l p → pinged (l ++ l2) p.
Proof.
  intros Ha (la & lb & -> & Hb). exists la, (lb ++ l2). split; [by rewrite <- app_assoc|]. by apply Forall_app.
Qed.
Lemma lost_app l f l' l2 : Forall (λ a, silent a = true) l2 → lost_once l f l' → lost_once (l ++ l2) f (l' ++ l2).
Proof.
  intros Ha (p & la & Hp & -> & Hs). exists p, la. split; [done|]. split; [by rewrite <- app_assoc|]. by apply Forall_app.
Qed.
Lemma again_app f l' l2 : Forall (λ a, no_ping a = true) l2 → pinged_again f l' → pinged_again f (l' ++ l2).
Proof.
  intros Ha (lc & p & ld & -> & Hd & Hp). exists lc, p, (ld ++ l2). split; [by rewrite <- app_assoc|]. split; [|done]. by apply Forall_app.
Qed.
Lemma hung_snoc l a : all_hung l → (∀ t, a = Unresponsive t → hung l t) → all_hung (l ++ [a]).
Proof.
  intros Hl Ha l1 t l2 E. destruct l2 as [|b l2 _] using rev_ind.
  - apply app_inj_tail in E as [-> ->]. by apply Ha.
  - rewrite app_comm_cons, app_assoc in E. apply app_inj_tail in E as [-> ->]. by eapply Hl.
Qed.

Definition current (w : World) : list Z := filter (λ g, g = _generation w) (pings w).
Definition late (f : time) (timer : option (time * Z)) : Prop :=
  match timer with Some (due, _) => f + sec PING_INTERVAL_UNRESPONSIVE_SEC <= due | None => True end.

Record ok (w : World) : Prop := {
  k_old : Forall (λ g, g <= _generation w) (pings w);
  k_current : current w = if _pinging w then [_generation w] else [];
  k_pinged : _pinging w = true → ∃ p, pinged (log w) p;
  k_failures : 0 <= _failures w ∧ (_unresponsive w = false → _failures w <= 1);
  k_lost : _unresponsive w = false → _failures w = 1 → ∃ f l', lost_once (log w) f l' ∧ f <= clock w ∧ late f (_timer w) ∧
    (_pinging w = true → pinged_again f l');
  k_interval : if _timer w is Some (_, interval) then PING_INTERVAL_UNRESPONSIVE_SEC <= interval else True;
  k_log : all_hung (log w);
}.

(** Steps that send no ping and see no new owner. *)
Definition plain (a : action) : bool := match a with Pinged _ | NewOwner | Unresponsive _ => false | _ => true end.
Lemma plain_hung l l2 : Forall (λ a, plain a = true) l2 → all_hung l → all_hung (l ++ l2).
Proof.
  intros Hp Hl. induction l2 as [|a l2 IH] using rev_ind; [by rewrite app_nil_r|].
  apply Forall_app in Hp as [Hp Ha]. apply Forall_inv in Ha. rewrite app_assoc. apply hung_snoc; [by apply IH|]. by intros t ->.
Qed.
Lemma ok_change w w' l2 : ok w → pings w' = pings w → _generation w' = _generation w → _pinging w' = _pinging w →
  log w' = log w ++ l2 → Forall (λ a, plain a = true) l2 → clock w <= clock w' →
  0 <= _failures w' → (_unresponsive w' = false → _failures w' <= 1) →
  (_unresponsive w' = false → _failures w' = 1 →
    _unresponsive w = false ∧ _failures w = 1 ∧ Forall (λ a, silent a = true) l2 ∧ ∀ f, f <= clock w → late f (_timer w) → late f (_timer w')) →
  (if _timer w' is Some (_, interval) then PING_INTERVAL_UNRESPONSIVE_SEC <= interval else True) → ok w'.
Proof.
  intros [] Ep Eg Epi El Hl2 Hc H1 H2 H3 H4. unfold current in *. split; unfold current; rewrite ?Ep, ?Eg, ?Epi, ?El; try done.
  - intros Hp. destruct (k_pinged0 Hp) as (p & Hpp). exists p. apply pinged_app; [|done].
    eapply Forall_impl; [exact Hl2|]. by intros [].
  - intros Hu Hf. destruct (H3 Hu Hf) as (Hu0 & Hf0 & Hs & Ht). destruct (k_lost0 Hu0 Hf0) as (f & l' & Hl & Hle & Hlate & Ha).
    exists f, (l' ++ l2). split; [by apply lost_app|]. split; [lia|]. split; [by apply Ht|].
    intros Hp. apply again_app; [|by apply Ha]. eapply Forall_impl; [exact Hl2|]. by intros [].
  - by apply plain_hung.
Qed.

Lemma ok_fresh w w' l2 : ok w → pings w' = pings w → _generation w' = Z.succ (_generation w) → _pinging w' = false →
  log w' = log w ++ l2 → Forall (λ a, ∀ t, a ≠ Unresponsive t) l2 → clock w' = clock w →
  (_failures w' = 0 ∨ (l2 = [] ∧ _failures w' = _failures w ∧ _unresponsive w' = _unresponsive w ∧ _timer w' = None)) →
  (if _timer w' is Some (_, interval) then PING_INTERVAL_UNRESPONSIVE_SEC <= interval else True) → ok w'.
Proof.
  intros [] Ep Eg Epi El Hl2 Hc Hf Ht. split; rewrite ?Ep, ?Eg, ?Epi, ?El, ?Hc; try done.
  - eapply Forall_impl; [exact k_old0|]. cbn. lia.
  - unfold current. rewrite Ep, Eg. clear -k_old0. induction k_old0 as [|g l Hg _ IH]; [done|].
    rewrite filter_cons_False by lia. exact IH.
  - destruct Hf as [->|(_ & -> & -> & _)]; [lia|done].
  - intros Hu Hf1. destruct Hf as [Hf|(-> & Ef & Eu & Et)]; [lia|]. rewrite Ef in Hf1. rewrite Eu in Hu.
    destruct (k_lost0 Hu Hf1) as (f & l' & Hl & Hle & _). exists f, l'. rewrite app_nil_r, Et. done.
  - clear -k_log0 Hl2. induction l2 as [|a l2 IH] using rev_ind; [by rewrite app_nil_r|].
    apply Forall_app in Hl2 as [Hl2 Ha]. apply Forall_inv in Ha. rewrite app_assoc. apply hung_snoc; [by apply IH|].
    intros t ->. by destruct (Ha t).
Qed.

Ltac run := unfold emit, _notify, _recovered, _reschedule, schedule; monad_simpl; cbn.
Ltac change_by w l2 :=
  apply (ok_change w _ l2); cbn; try done;
  try first [ by rewrite app_nil_r | by rewrite <- app_assoc | by repeat constructor | apply (k_failures w); done | apply (k_interval w); done ].
Lemma health_start_ok : stable ok start.
Proof.
  intros w Hw. unfold start. run. destruct (_timer w) as [t|] eqn:Et; [done|]. change_by w (@nil action).
  intros H1 H2. split; [done|]. split; [done|]. split; [done|]. intros f Hf _. unfold sec, PING_INTERVAL_UNRESPONSIVE_SEC, PING_INTERVAL_SEC. lia.
Qed.
Lemma health_stop_ok : stable ok stop.
Proof. intros w Hw. unfold stop. run. apply (ok_fresh w _ []); cbn; try done; [by rewrite app_nil_r|]. by right. Qed.
Lemma success_ok : stable ok report_success.
Proof.
  intros w Hw. unfold report_success. run. pose proof (k_interval w Hw) as Hi.
  destruct (_unresponsive w) eqn:Eu; [|destruct (_failures w =? 0) eqn:Ef]; run.
  - destruct (_timer w) eqn:Et; cbn; change_by w [Answered; OnChange].
  - apply Z.eqb_eq in Ef. change_by w [Answered]; rewrite Ef; done.
  - destruct (_timer w) eqn:Et; cbn; change_by w [Answered].
Qed.
Lemma owner_ok new_owner : stable ok (owner_changed new_owner).
Proof.
  intros w Hw. unfold owner_changed. run. pose proof (k_interval w Hw) as Hi.
  destruct (_unresponsive w) eqn:Eu; cbn; [destruct (String.eqb new_owner "") eqn:Eo; cbn|]; destruct (_timer w) eqn:Et; run;
    rewrite ?Eu; cbn;
    first [apply (ok_fresh w _ [NewOwner; OnChange]); cbn; try done; [by rewrite <- app_assoc|by repeat constructor|by left]
          |apply (ok_fresh w _ [NewOwner]); cbn; try done; [by repeat constructor|by left]].
Qed.

(** ** Pings *)

Lemma probe_ok env w : ok w → (_failures w = 1 → _unresponsive w = false → ∃ due interval, _timer w = Some (due, interval) ∧ due <= clock w) →
  ok (probe env w).2.
Proof.
  intros Hw Hd. unfold probe. run. destruct (_pinging w) eqn:Ep; [done|]. destruct (ping_raises env); [done|]. run. pose proof Hw as [].
  split; cbn; try done.
  - apply Forall_app. split; [done|]. by repeat constructor.
  - unfold current in *. cbn. rewrite filter_app, k_current0, Ep. by rewrite filter_cons_True.
  - intros _. exists (clock w). by exists (log w), [].
  - intros Hu Hf. destruct (k_lost0 Hu Hf) as (f & l' & Hl & Hle & Ht & _). exists f, (l' ++ [Pinged (clock w)]).
    split; [apply lost_app; [by repeat constructor|done]|]. split; [done|]. split; [done|]. intros _. exists l', (clock w), [].
    split; [done|]. split; [done|]. destruct (Hd Hf Hu) as (due & interval & Et & Hdue). rewrite Et in Ht. cbn in Ht. lia.
  - by apply hung_snoc.
Qed.
Lemma probe_runs env w : ∃ w', probe env w = (Ok (), w') ∧ _timer w' = _timer w ∧ clock w' = clock w.
Proof. unfold probe. run. destruct (_pinging w); [eauto|]. destruct (ping_raises env); run; eauto. Qed.
Lemma report_ok env name : stable ok (report env name).
Proof.
  intros w Hw. unfold report. run. destruct (is_no_reply name && negb (_unresponsive w) && (_failures w =? 0)) eqn:E; [|done].
  apply probe_ok; [done|]. apply andb_true_iff in E as [_ E]. lia.
Qed.
Lemma health_tick_ok env due interval w : ok w → _timer w = Some (due, interval) → due <= clock w →
  ok ((_tick env;; modify (λ w : World, w <| _timer := Some (clock w + sec interval, interval) |>)) w).2.
Proof.
  intros Hw Et Hd. rewrite M_bind_eq. unfold _tick. assert (H1 : ok (probe env w).2) by (apply probe_ok; eauto).
  destruct (probe_runs env w) as (w1 & E & Et1 & Ec1). rewrite E in H1 |- *. cbn in H1. unfold modify. cbn. rewrite Et in Et1.
  pose proof (k_interval w1 H1) as Hi. rewrite Et1 in Hi.
  apply (ok_change w1 _ []); cbn; try done; [by rewrite app_nil_r|apply k_failures, H1..|].
  intros Hu Hf. do 3 (split; [done|]). intros f Hle _. unfold sec, PING_INTERVAL_UNRESPONSIVE_SEC in *. lia.
Qed.

(** Taking an answer off the list. *)
Definition taken (i : nat) (g : Z) (w : World) : World :=
  if g =? _generation w then w <| pings ::= delete i |> <| _pinging := false |> else w <| pings ::= delete i |>.
Lemma filter_delete (P : Z → Prop) `{∀ g, Decision (P g)} (l : list Z) i g : l !! i = Some g →
  filter P l ≡ₚ (if bool_decide (P g) then [g] else []) ++ filter P (delete i l).
Proof.
  intros E. etrans; [apply (filter_Permutation P), (delete_Permutation l i g E)|].
  case_bool_decide; [by rewrite filter_cons_True|by rewrite filter_cons_False].
Qed.
Lemma taken_ok i g w : ok w → pings w !! i = Some g → ok (taken i g w) ∧ (g = _generation w → _pinging w = true).
Proof.
  intros Hw E. pose proof Hw as []. unfold taken. pose proof (filter_delete (λ g, g = _generation w) (pings w) i g E) as Hf.
  unfold current in k_current0. rewrite k_current0 in Hf.
  assert (Hold : Forall (λ g, g <= _generation w) (delete i (pings w))) by by apply Forall_delete.
  destruct (g =? _generation w) eqn:Eg.
  - apply Z.eqb_eq in Eg. subst g. rewrite bool_decide_true in Hf by done. destruct (_pinging w) eqn:Ep.
    2:{ apply Permutation_nil_l in Hf. done. }
    split; [|done]. cbn in Hf. apply Permutation_cons_inv, Permutation_nil_l in Hf. split; cbn; try done.
    intros Hu Hf1. destruct (k_lost0 Hu Hf1) as (f & l' & ? & ? & ? & _). by exists f, l'.
  - apply Z.eqb_neq in Eg. split; [|done]. rewrite bool_decide_false in Hf by done. cbn in Hf. split; cbn; try done.
    unfold current. cbn. destruct (_pinging w); [by apply Permutation_singleton_l in Hf|by apply Permutation_nil_l in Hf].
Qed.

Lemma replied_ok i g w : ok w → pings w !! i = Some g → ok (replied g (w <| pings ::= delete i |>)).2.
Proof.
  intros Hw E. pose proof (proj1 (taken_ok i g w Hw E)) as Ht. unfold taken in Ht. unfold replied. rewrite M_bind_eq. unfold get.
  change (_generation (w <| pings ::= delete i |>)) with (_generation w). destruct (g =? _generation w); [|exact Ht].
  cbn [negb]. rewrite M_bind_eq. unfold modify. apply success_ok. exact Ht.
Qed.
Lemma health_failed_ok env w : ok w → _pinging w = false → (∃ p, pinged (log w) p) →
  (_unresponsive w = false → _failures w = 1 → ∃ f l', lost_once (log w) f l' ∧ pinged_again f l') →
  ok ((emit (NoReply (clock w));; _failed env) w).2.
Proof.
  intros Hw Ep (p & Hp) Hl. unfold _failed. run. pose proof Hw as []. pose proof (k_interval w Hw) as Hi.
  destruct (_unresponsive w) eqn:Eu; run.
  { change_by w [NoReply (clock w)]. lia. }
  destruct k_failures0 as [Hf0 Hf1]. specialize (Hf1 eq_refl). unfold PING_FAILURE_THRESHOLD.
  assert (_failures w = 0 ∨ _failures w = 1) as [Ef|Ef] by lia; rewrite Ef; cbn.
  - change (Z.succ 0 <? 2) with true. run.
    assert (Hd : ∀ w', pings w' = pings w → _generation w' = _generation w → _pinging w' = false → _failures w' = 1 → clock w' = clock w →
      (_timer w' = None ∨ _timer w' = Some (clock w + sec PING_INTERVAL_UNRESPONSIVE_SEC, PING_INTERVAL_UNRESPONSIVE_SEC)) →
      log w' = log w ++ [NoReply (clock w)] → ok w').
    { intros w' E1 E2 E3 E4 E5 E6 E7. split; unfold current; rewrite ?E1, ?E2, ?E3, ?E4, ?E5, ?E7; try done.
      - unfold current in k_current0. by rewrite Ep in k_current0.
      - intros _ _. exists (clock w), []. split; [by exists p, (log w)|]. split; [done|]. split; [|done].
        destruct E6 as [-> | ->]; cbn; [done|lia].
      - destruct E6 as [-> | ->]; [done|]. unfold PING_INTERVAL_UNRESPONSIVE_SEC; lia.
      - by apply hung_snoc. }
    destruct (_timer w) eqn:Et; run; apply Hd; cbn; auto.
  - change (Z.succ 1 <? 2) with false. run.
    assert (Hd : ∀ w', pings w' = pings w → _generation w' = _generation w → _pinging w' = false → _unresponsive w' = true → _failures w' = 2 →
      (_timer w' = _timer w ∨ _timer w' = Some (clock w + sec PING_INTERVAL_UNRESPONSIVE_SEC, PING_INTERVAL_UNRESPONSIVE_SEC)) →
      log w' = ((log w ++ [NoReply (clock w)]) ++ [Unresponsive (clock w)]) ++ [OnChange] → ok w').
    { intros w' E1 E2 E3 E4 E5 E6 E7. split; unfold current; rewrite ?E1, ?E2, ?E3, ?E4, ?E5, ?E7; try done.
      - unfold current in k_current0. by rewrite Ep in k_current0.
      - destruct E6 as [-> | ->]; [done|]. unfold PING_INTERVAL_UNRESPONSIVE_SEC; lia.
      - apply hung_snoc; [|done]. apply hung_snoc; [by apply hung_snoc|]. intros t [= <-].
        destruct (Hl eq_refl Ef) as (f & l' & H1 & H2). by exists (log w), f, l'. }
    destruct (_timer w) eqn:Et, (owner_pid env) as [[]|] eqn:Eo; run; unfold _explain; rewrite Eo; run; apply Hd; cbn; auto.
Qed.
Lemma ping_failed_ok env i g name w : ok w → pings w !! i = Some g → ok (ping_failed env g name (w <| pings ::= delete i |>)).2.
Proof.
  intros Hw E. destruct (taken_ok i g w Hw E) as [Ht Hp]. unfold taken in Ht. unfold ping_failed. rewrite M_bind_eq. unfold get.
  change (_generation (w <| pings ::= delete i |>)) with (_generation w). destruct (g =? _generation w) eqn:Eg; [|exact Ht].
  apply Z.eqb_eq in Eg. specialize (Hp Eg). cbn [negb]. rewrite M_bind_eq. unfold modify at 1. set (w1 := _ <| _pinging := false |>).
  change (ok w1) in Ht. destruct (is_no_reply name); [|case_bool_decide; [|exact Ht]].
  - apply (health_failed_ok env w1 Ht eq_refl); [exact (k_pinged w Hw Hp)|]. intros Hu Hf.
    destruct (k_lost w Hw Hu Hf) as (f & l' & H1 & _ & _ & H2). exists f, l'. split; [exact H1|by apply H2].
  - unfold when, modify. clearbody w1. change_by w1 (@nil action).
Qed.
Lemma pid_ok i g pid state w : ok w → ok (got_pid g pid state (w <| queries ::= delete i |>)).2.
Proof.
  intros Hw. assert (H1 : ok (w <| queries ::= delete i |>)) by (change_by w (@nil action)).
  unfold got_pid. set (w1 := w <| queries ::= delete i |>) in *. clearbody w1. run. destruct (_ || _); [done|].
  destruct (String.eqb state "D"); [|done]. run. change_by w1 [OnChange].
Qed.
Lemma health_step_ok env e : stable ok (step env e).
Proof.
  destruct e as [| |name| |o| |i|i name|i pid state|d]; cbn [step].
  - apply health_start_ok.
  - apply health_stop_ok.
  - apply report_ok.
  - apply success_ok.
  - apply owner_ok.
  - intros w Hw. rewrite M_bind_eq. unfold get. destruct (_timer w) as [[due interval]|] eqn:Et; [|done].
    destruct (due <=? clock w) eqn:Ed; [|done]. apply Z.leb_le in Ed. by apply (health_tick_ok env due).
  - intros w Hw. unfold take_ping. rewrite M_bind_eq. unfold get. destruct (pings w !! i) as [g|] eqn:E; [|done]. by apply replied_ok.
  - intros w Hw. unfold take_ping. rewrite M_bind_eq. unfold get. destruct (pings w !! i) as [g|] eqn:E; [|done]. by apply ping_failed_ok.
  - intros w Hw. rewrite M_bind_eq. unfold get. destruct (queries w !! i) as [g|] eqn:E; [|done]. by apply pid_ok.
  - intros w Hw. unfold modify. cbn. change_by w (@nil action). lia.
Qed.

(** BlueZ is called unresponsive only on evidence.  Whatever calls fail or
    succeed, whatever pings are answered or lost, and whoever starts, stops or
    replaces what, the log before every such decision at t says: a ping of this
    owner of org.bluez was lost at f; after it no call was answered, the owner
    did not change and no other ping was lost; the last ping, sent 15 s or
    more after f, was lost at t. *)
Theorem unresponsive_grounded now es l1 t l2 : log (run es (World_init now)) = l1 ++ Unresponsive t :: l2 →
  ∃ la p1 lb f lc p2 ld,
    l1 = (la ++ Pinged p1 :: lb) ++ NoReply f :: (lc ++ Pinged p2 :: ld) ++ [NoReply t] ∧
    Forall (λ a, no_ping a && same_owner a = true) lb ∧
    Forall (λ a, silent a = true) (lc ++ Pinged p2 :: ld) ∧ Forall (λ a, no_ping a = true) ld ∧
    f + sec PING_INTERVAL_UNRESPONSIVE_SEC <= p2.
Proof.
  intros El. assert (Hok : ok (run es (World_init now))).
  { unfold run. apply run_all_invariant.
    - intros m w Hm Hw. apply list_elem_of_fmap in Hm as ([env e] & -> & _). by apply health_step_ok.
    - split; cbn; try done. intros l3 t' l4 E. by destruct l3. }
  destruct (k_log _ Hok l1 t l2 El) as (l0 & f & l' & -> & (p1 & l3 & (la & lb & -> & Hb) & -> & Hs) & (lc & p2 & ld & -> & Hd & Hp)).
  exists la, p1, lb, f, lc, p2, ld. split; [by rewrite <- !app_assoc; cbn; rewrite <- !app_assoc|]. done.
Qed.
Lemma unresponsive_grounded_witness : ∃ la p1 lb f lc p2 ld,
    [Pinged (sec 30); NoReply (sec 33); Pinged (sec 48); NoReply (sec 51)] = (la ++ Pinged p1 :: lb) ++ NoReply f :: (lc ++ Pinged p2 :: ld) ++ [NoReply (sec 51)] ∧
    Forall (λ a, no_ping a && same_owner a = true) lb ∧
    Forall (λ a, silent a = true) (lc ++ Pinged p2 :: ld) ∧ Forall (λ a, no_ping a = true) ld ∧
    f + sec PING_INTERVAL_UNRESPONSIVE_SEC <= p2.
Proof. apply (unresponsive_grounded 0 hang _ _ [OnChange; OnChange]). vm_compute. reflexivity. Defined.
