(* ===== verification/BluezReads.v ===== *)
(** * BluezReads: the cache of BlueZ's properties behind the health checks
    (src/blueferry/bluez_reads.py).

    Values are of any type.  A call is answered in a later event; what the
    cache is told, and when, is recorded in [log]. *)
From S2P Require Import Prelude.

Record key := mkKey { k_owner : string; k_path : string; k_interface : string; k_method : string; k_signature : string; k_args : list string }.
#[global] Instance key_eq_dec : EqDecision key.
Proof. solve_decision. Defined.
#[global] Instance key_countable : Countable key.
Proof.
  refine (inj_countable' (λ k, (k_owner k, k_path k, k_interface k, k_method k, k_signature k, k_args k))
    (λ '(a, b, c, d, e, f), mkKey a b c d e f) _). by intros [].
Defined.

Definition PROPERTIES : string := "org.freedesktop.DBus.Properties".
Definition PENDING : string := "org.freedesktop.DBus.Error.NoReply".
Definition property_key (path interface name : string) : key := mkKey "org.bluez" path PROPERTIES "Get" "ss" [interface; name].

Section reads.
Context {V : Type}.

(** What an entry holds: a value, or the error of the call. *)
Definition answer : Type := V + string.

Inductive action :=
  | Called (k : key) (token : nat)
  | Received (k : key) (token : nat) (t : time) (a : answer)   (* a call returned or failed *)
  | Signalled (k : key) (t : time) (v : option V)               (* a property changed, or was invalidated *)
  | Forgotten (k : key)                                         (* the managed objects changed *)
  | Restarted                                                   (* another bluetoothd *)
  | OnReady (k : key).

Record World := mkWorld {
  _generation : Z;
  _entries : gmap key (time * answer);
  _pending : gmap key nat;
  clock : time;
  next_token : nat;
  calls : list (key * nat * Z * bool);   (* unanswered: key, token, generation, on_ready *)
  log : list action;
}.

Definition emit (a : action) : M World () := modify (λ w : World, w <| log ::= λ l, l ++ [a] |>).

Definition invalidate : M World () :=
  emit Restarted;;
  modify (λ w : World, w <| _generation ::= Z.succ |> <| _entries := ∅ |> <| _pending := ∅ |>).

(** [for key in self._entries.keys() | self._pending.keys()]. *)
Definition forget (k : key) : M World () :=
  emit (Forgotten k);; modify (λ w : World, w <| _entries ::= delete k |> <| _pending ::= delete k |>).
Fixpoint forget_all (ks : list key) : M World () :=
  match ks with
  | [] => mret ()
  | k :: ks' => (if bool_decide (k_method k = "GetManagedObjects") then forget k else mret ());; forget_all ks'
  end.
Definition invalidate_managed_objects : M World () :=
  w ← get; forget_all (elements (dom (_entries w) ∪ dom (_pending w))).

(** One changed (with its value) or invalidated property. *)
Definition property_changed (path interface name : string) (v : option V) : M World () :=
  let k := property_key path interface name in
  w ← get;
  if bool_decide (is_Some (_entries w !! k)) || bool_decide (is_Some (_pending w !! k)) then
    emit (Signalled k (clock w) v);;
    modify (λ w : World, w <| _pending ::= delete k |> <| _entries ::= delete k |>);;
    match v with
    | Some v => modify (λ w : World, w <| _entries ::= <[k := (clock w, inl v)]> |>)
    | None => mret ()
    end
  else mret ().
(** [changed] is a dictionary and [invalidated] a list of names: each name of
    either is handled once, with its value if it is in [changed]. *)
Fixpoint each_property (path interface : string) (changed : gmap string V) (names : list string) : M World () :=
  match names with
  | [] => mret ()
  | name :: names' => property_changed path interface name (changed !! name);; each_property path interface changed names'
  end.
Definition properties_changed (path interface : string) (changed : gmap string V) (invalidated : gset string) : M World () :=
  each_property path interface changed (elements (dom changed ∪ invalidated)).

(** The callback of a call. *)
Definition finish (on_ready : bool) (k : key) (token : nat) (generation : Z) (a : answer) : M World () :=
  w ← get;
  if negb (generation =? _generation w) || negb (bool_decide (_pending w !! k = Some token)) then mret ()
  else
    emit (Received k token (clock w) a);;
    modify (λ w : World, w <| _pending ::= delete k |> <| _entries ::= <[k := (clock w, a)]> |>);;
    when (on_ready && (if a is inl _ then true else false)) (emit (OnReady k)).

(** The call itself: [refused] is the error it raises when it is sent. *)
Definition request (on_ready : bool) (refused : option string) (k : key) : M World () :=
  w ← get;
  let token := next_token w in
  modify (λ w : World, w <| next_token ::= S |> <| _pending ::= <[k := token]> |>);;
  emit (Called k token);;
  match refused with
  | Some e => finish on_ready k token (_generation w) (inr e)
  | None => modify (λ w : World, w <| calls ::= λ l, l ++ [(k, token, _generation w, on_ready)] |>)
  end.

Definition stale (w : World) (now : time) (k : key) : bool :=
  match _entries w !! k with None => true | Some (t, _) => sec 4 <=? now - t end.
Definition served (w : World) (now : time) (k : key) : result V :=
  match _entries w !! k with
  | None => Raise (DBusException PENDING)
  | Some (t, a) =>
      if sec 10 <? now - t then Raise (DBusException PENDING)
      else match a with inl v => Ok v | inr e => Raise (DBusException e) end
  end.

Definition read (on_ready : bool) (refused : option string) (k : key) : M World V :=
  w ← get;
  let now := clock w in
  let refresh := bool_decide (_pending w !! k = None) && stale w now k in
  when refresh (request on_ready refused k);;
  w' ← get;
  lift (served w' now k).
Definition property (on_ready : bool) (refused : option string) (path interface name : string) : M World V :=
  read on_ready refused (property_key path interface name).

(** ** The main loop *)

Inductive event :=
  | ERead (on_ready : bool) (refused : option string) (k : key)
  | EAnswer (i : nat) (a : answer)
  | EProperties (path interface : string) (changed : gmap string V) (invalidated : gset string)
  | EObjects
  | ERestart
  | ETime (d : Z).

Definition step (e : event) : M World () :=
  match e with
  | ERead on_ready refused k => λ w, (Ok (), (read on_ready refused k w).2)
  | EAnswer i a =>
      w ← get;
      match calls w !! i with
      | Some (k, token, generation, on_ready) => modify (λ w : World, w <| calls ::= delete i |>);; finish on_ready k token generation a
      | None => mret ()
      end
  | EProperties path interface changed invalidated => properties_changed path interface changed invalidated
  | EObjects => invalidate_managed_objects
  | ERestart => invalidate
  | ETime d => modify (λ w : World, w <| clock ::= λ t, t + Z.max 0 d |>)
  end.
Definition World_init (now : time) : World := mkWorld 0 ∅ ∅ now 0 [] [].
Definition run (es : list event) (w : World) : World := run_all (step <$> es) w.

(** ** Freshness *)

(** [a] says nothing about [k]. *)
Definition silent (k : key) (a : action) : bool :=
  match a with
  | Received k' _ _ _ | Signalled k' _ _ | Forgotten k' => negb (bool_decide (k' = k))
  | Restarted => false
  | _ => true
  end.
(** The call [token] for [k] was sent, and nothing has been heard of [k] since. *)
Definition asked (k : key) (token : nat) (l : list action) : Prop := ∃ la lb,
  l = la ++ Called k token :: lb ∧ Forall (λ a, silent k a = true) lb.
(** The last that was heard of [k] is [a], at [t]: a change that was signalled,
    or the answer to a call that nothing overtook. *)
Definition news (k : key) (t : time) (a : answer) (l : list action) : Prop := ∃ l1 e l2,
  l = l1 ++ e :: l2 ∧ Forall (λ a, silent k a = true) l2 ∧
  ((∃ v, a = inl v ∧ e = Signalled k t (Some v)) ∨ (∃ token, e = Received k token t a ∧ asked k token l1)).

Lemma asked_snoc k token l a : silent k a = true → asked k token l → asked k token (l ++ [a]).
Proof.
  intros Ha (la & lb & -> & Hb). exists la, (lb ++ [a]). split; [by rewrite <- app_assoc|]. apply Forall_app. split; [done|by constructor].
Qed.
Lemma news_snoc k t a l e : silent k e = true → news k t a l → news k t a (l ++ [e]).
Proof.
  intros He (l1 & e1 & l2 & -> & H2 & H). exists l1, e1, (l2 ++ [e]). split; [by rewrite <- app_assoc|]. split; [|done].
  apply Forall_app. split; [done|by constructor].
Qed.

Record ok (w : World) : Prop := {
  k_entries : ∀ k t a, _entries w !! k = Some (t, a) → t <= clock w ∧ news k t a (log w);
  k_pending : ∀ k token, _pending w !! k = Some token → asked k token (log w);
}.

#[local] Arguments silent : simpl never.
(** A step about [k] alone: what is known of other keys stays. *)
Lemma ok_about k a w w' : ok w → log w' = log w ++ [a] → clock w' = clock w → (∀ k', k' ≠ k → silent k' a = true) →
  (∀ k' t b, k' ≠ k → _entries w' !! k' = Some (t, b) → _entries w !! k' = Some (t, b)) →
  (∀ k' token, k' ≠ k → _pending w' !! k' = Some token → _pending w !! k' = Some token) →
  (∀ t b, _entries w' !! k = Some (t, b) → t <= clock w ∧ news k t b (log w ++ [a])) →
  (∀ token, _pending w' !! k = Some token → asked k token (log w ++ [a])) → ok w'.
Proof.
  intros [] El Ec Ha He Hp Hek Hpk. split; rewrite El, ?Ec.
  - intros k' t b E. destruct (decide (k' = k)) as [->|Hne]; [by apply Hek|]. apply He in E; [|done].
    destruct (k_entries0 _ _ _ E). split; [done|]. apply news_snoc; auto.
  - intros k' token E. destruct (decide (k' = k)) as [->|Hne]; [by apply Hpk|]. apply asked_snoc; auto.
Qed.
Ltac run := unfold emit; monad_simpl; cbn.
Lemma other_silent k k' a : k' ≠ k → (∃ t v, a = Signalled k t v) ∨ (∃ n t b, a = Received k n t b) ∨ a = Forgotten k ∨ (∃ n, a = Called k n) → silent k' a = true.
Proof. intros Hne [(t & v & ->)|[(n & t & b & ->)|[-> |(n & ->)]]]; unfold silent; rewrite ?bool_decide_false by congruence; done. Qed.

Lemma reads_forget_ok k : stable ok (forget k).
Proof.
  intros w Hw. unfold forget. run. apply (ok_about k (Forgotten k) w); cbn; try done.
  - intros k' Hne. apply (other_silent k); auto.
  - intros k' t b Hne. by rewrite lookup_delete_ne.
  - intros k' tok Hne. by rewrite lookup_delete_ne.
  - intros t b. by rewrite lookup_delete_eq.
  - intros tok. by rewrite lookup_delete_eq.
Qed.
Lemma forget_all_ok ks : stable ok (forget_all ks).
Proof. induction ks as [|k ks IH]; cbn; [by intros w|]. apply keeps_bind; [apply _| |done]. case_bool_decide; [apply reads_forget_ok|by intros w]. Qed.
Lemma changed_ok path interface name v : stable ok (property_changed path interface name v).
Proof.
  intros w Hw. unfold property_changed. run. set (k := property_key path interface name). destruct (_ || _); [|done]. run.
  set (e := Signalled k (clock w) v). destruct v as [v|]; run; apply (ok_about k e w); cbn; try done.
  all: try (intros k' Hne; apply (other_silent k); eauto).
  all: try (intros k' t b Hne; rewrite ?lookup_insert_ne, ?lookup_delete_ne by done; done).
  all: try (intros k' tok Hne; rewrite ?lookup_insert_ne, ?lookup_delete_ne by done; done).
  all: try (intros tok; by rewrite lookup_delete_eq).
  - intros t b. rewrite lookup_insert_eq. intros [= <- <-]. split; [done|]. exists (log w), e, [].
    split; [done|]. split; [done|]. left. by exists v.
Qed.
Lemma each_ok path interface changed names : stable ok (each_property path interface changed names).
Proof. induction names as [|name names IH]; cbn; [by intros w|]. apply keeps_bind; [apply _|apply changed_ok|done]. Qed.

Lemma finish_ok on_ready k token g a : stable ok (finish on_ready k token g a).
Proof.
  intros w Hw. unfold finish. run. destruct (negb (g =? _generation w)); [done|]. case_bool_decide as Hp; [|done]. cbn [negb orb]. run.
  set (w1 := mkWorld _ _ _ _ _ _ _). assert (H1 : ok w1).
  { apply (ok_about k (Received k token (clock w) a) w); cbn; try done.
    - intros k' Hne. apply (other_silent k); eauto 6.
    - intros k' t b Hne. by rewrite lookup_insert_ne.
    - intros k' tok Hne. by rewrite lookup_delete_ne.
    - intros t b. rewrite lookup_insert_eq. intros [= <- <-]. split; [done|]. exists (log w), (Received k token (clock w) a), [].
      split; [done|]. split; [done|]. right. exists token. split; [done|]. by apply (k_pending w Hw).
    - intros tok. by rewrite lookup_delete_eq. }
  clearbody w1. destruct (_ && _); [|done]. run. destruct H1 as [H1 H2]. split; cbn.
  - intros k' t b E. destruct (H1 _ _ _ E). split; [done|]. by apply news_snoc.
  - intros k' tok E. apply asked_snoc; [done|]. by apply H2.
Qed.
Lemma reads_request_ok on_ready refused k : stable ok (request on_ready refused k).
Proof.
  intros w Hw. unfold request. run. set (w1 := mkWorld _ _ _ _ _ _ _). assert (H1 : ok w1).
  { apply (ok_about k (Called k (next_token w)) w); cbn; try done.
    - intros k' tok Hne. by rewrite lookup_insert_ne.
    - intros t b E. destruct (k_entries w Hw _ _ _ E). split; [done|]. by apply news_snoc.
    - intros tok. rewrite lookup_insert_eq. intros [= <-]. by exists (log w), []. }
  destruct refused as [e|]; [exact (finish_ok on_ready k (next_token w) (_generation w) (inr e) w1 H1)|].
  unfold modify. destruct H1 as [H1 H2]. by split.
Qed.
Lemma request_returns on_ready refused k w : ∃ w1, request on_ready refused k w = (Ok (), w1) ∧ clock w1 = clock w.
Proof.
  unfold request. run. destruct refused as [e|]; [|eauto]. unfold finish. run. case_bool_decide; cbn; [|by destruct (negb _); eauto].
  destruct (negb _); cbn; [eauto|]. run. destruct (_ && _); run; eauto.
Qed.
Lemma read_served on_ready refused k w : ∃ w1, read on_ready refused k w = (served w1 (clock w) k, w1) ∧
  w1 = (when (bool_decide (_pending w !! k = None) && stale w (clock w) k) (request on_ready refused k) w).2 ∧ clock w1 = clock w.
Proof.
  unfold read. rewrite M_bind_eq. unfold get at 1. rewrite M_bind_eq. destruct (_ && _); cbn; [|eauto].
  destruct (request_returns on_ready refused k w) as (w1 & -> & E). eauto.
Qed.
Lemma read_ok on_ready refused k : stable ok (read on_ready refused k).
Proof.
  intros w Hw. destruct (read_served on_ready refused k w) as (w1 & E1 & E2 & _). rewrite E1. cbn [snd]. revert E2.
  destruct (_ && _); cbn; [|by intros ->]. intros ->. by apply reads_request_ok.
Qed.
Lemma reads_invalidate_ok : stable ok invalidate.
Proof. intros w Hw. unfold invalidate. run. split; cbn; intros k; rewrite lookup_empty; done. Qed.
Lemma reads_step_ok e : stable ok (step e).
Proof.
  destruct e as [r f k|i a|p n c inv| | |d]; cbn [step].
  - intros w Hw. exact (read_ok r f k w Hw).
  - intros w Hw. rewrite M_bind_eq. unfold get. destruct (calls w !! i) as [[[[k tok] g] r]|]; [|done].
    rewrite M_bind_eq. unfold modify. apply finish_ok. destruct Hw as [H1 H2]. by split.
  - apply each_ok.
  - intros w Hw. unfold invalidate_managed_objects. rewrite M_bind_eq. by apply forget_all_ok.
  - apply reads_invalidate_ok.
  - intros w [H1 H2]. split; cbn; [|done]. intros k t a E. destruct (H1 _ _ _ E). split; [lia|done].
Qed.

(** A reading is never stale.  Whatever was read, answered, signalled and
    restarted before: when a read returns a value or the error of a call, that
    is the last that was heard of the property, at most ten seconds ago: the
    value of a change that was signalled, or the answer to a call that no
    signal, no other answer and no restart of bluetoothd overtook.  Otherwise
    the read raises NoReply. *)
Theorem read_fresh now es on_ready refused k :
  let w := run es (World_init now) in
  let r := read on_ready refused k w in
  r.1 = Raise (DBusException PENDING) ∨
  ∃ t a, r.1 = match a with inl v => Ok v | inr e => Raise (DBusException e) end ∧
    clock w - sec 10 <= t <= clock w ∧ news k t a (log r.2).
Proof.
  cbn zeta. set (w := run es _). assert (Hw : ok w).
  { unfold w, run. apply run_all_invariant.
    - intros m w' Hm Hw. apply list_elem_of_fmap in Hm as (e & -> & _). by apply reads_step_ok.
    - split; cbn; intros k'; rewrite lookup_empty; done. }
  clearbody w. pose proof (read_ok on_ready refused k w Hw) as H1. destruct (read_served on_ready refused k w) as (w1 & E & _ & Ec).
  rewrite E in H1 |- *. cbn [fst snd] in *. unfold served. destruct (_entries w1 !! k) as [[t a]|] eqn:Ee; [|by left].
  destruct (Z.ltb_spec (sec 10) (clock w - t)); [by left|]. right. exists t, a. split; [done|].
  destruct (k_entries w1 H1 _ _ _ Ee). split; [lia|done].
Qed.
End reads.
Arguments answer : clear implicits.
Arguments action : clear implicits.
Arguments World : clear implicits.
Arguments event : clear implicits.

(** A poll asks, the next one is answered, and eleven seconds later without
    another answer the value is not used any more. *)
Definition connected : key := property_key "/org/bluez/hci0/dev_1" "org.bluez.Bearer.LE1" "Connected".
Example ages : 
  let w := run [ERead false None connected; EAnswer 0 (inl true)] (World_init 0) in
  ((read false None connected w).1, (read false None connected (run [ETime (sec 11)] w)).1) = (Ok true, Raise (DBusException PENDING)).
Proof. vm_compute. reflexivity. Qed.
