(* ===== verification/AncsClient.v ===== *)
(** * AncsClient: the ANCS client over GATT (src/blueferry/ancs/client.py).

    The whole of [AncsClient]: discovery of the three characteristics, the
    subscription, the serialized Control Point queue with its responses,
    timeouts and retries, the CCC refresh and the transport reset, the app-name
    cache and notification actions.  BlueZ's asynchronous replies, timers and
    signals are events; what a synchronous D-Bus call or a policy callback
    answers during an event is the event's [Env].  The formats are those of
    [Ancs] and the queue is [Backlog]'s. *)
From S2P Require Import Prelude Wire PyStr Text Ancs Backlog.

(** ** Constants *)

Definition MESSAGES_APP_ID : ustr := lit "com.apple.MobileSMS".
Definition NOTIFICATION_SOURCE_CHAR : string := "9fbf120d-6301-42d9-8c58-25e699a21dbd".
Definition CONTROL_POINT_CHAR : string := "69d1d8f3-45e1-49a8-9821-9bbdfdaad9d9".
Definition DATA_SOURCE_CHAR : string := "22eac6e9-24d6-4bb5-be44-b36ace7c7bfb".
Module CategoryID.
Definition Other : Z := 0.
Definition IncomingCall : Z := 1.
Definition MissedCall : Z := 2.
End CategoryID.
Module AncsErrorCode.
Definition UnknownCommand : Z := 0xA0.
Definition InvalidCommand : Z := 0xA1.
Definition InvalidParameter : Z := 0xA2.
Definition ActionFailed : Z := 0xA3.
End AncsErrorCode.

Definition REQUEST_TIMEOUT_SECONDS : Z := 15.
Definition CONTROL_POINT_BUSY_RETRY_SECONDS : Z := 1.
Definition MAX_CONTROL_POINT_BUSY_RETRIES : Z := 3.
Definition SUBSCRIBE_RETRY_SECONDS : Z := 2.
Definition AUTHORIZATION_RETRY_SECONDS : Z := 5.
Definition MANAGER_RETRY_SECONDS : Z := 2.
Definition BEARER_SETTLE_SECONDS : Z := 2.
Definition TRANSPORT_RESET_SECONDS : Z := 15.
Definition LEGACY_RETRY_CAP_SECONDS : Z := 60.
Definition LEGACY_HEALTH_SECONDS : Z := 60.
Definition MAX_NOTIFY_REFRESHES_PER_LINK : Z := 1.
Definition MAX_ANCS_REQUESTS : Z := 512.
Definition MAX_ANCS_APP_CACHE : Z := 256.
Definition MAX_ANCS_PENDING_PER_APP : Z := 128.
Definition MAX_ANCS_ACTIONABLE : Z := 64.
Definition MAX_ANCS_ACTIONS_IN_FLIGHT : Z := 4.

Definition ACTION_SENT : string := "sent".
Definition ACTION_UNAVAILABLE : string := "unavailable".
Definition ACTION_DISCONNECTED : string := "disconnected".
Definition ACTION_BUSY : string := "busy".
Definition ACTION_REJECTED : string := "rejected".
Definition ACTION_UNSUPPORTED : string := "unsupported".
Definition ACTION_FAILED : string := "failed".

(** ** Errors of D-Bus calls *)

(** The name, the message and [str()] of a [DBusException]; messages are
    ASCII. *)
Record dbus_error := mkError { e_name : string; e_message : string; e_str : string }.
Definition error_detail (e : dbus_error) : string := if String.eqb (e_message e) "" then e_str e else e_message e.

Fixpoint endswith (suffix s : string) : bool :=
  String.eqb s suffix || match s with EmptyString => false | String _ s' => endswith suffix s' end.

Definition _connection_was_lost (e : dbus_error) : bool :=
  endswith ".notconnected" (casefold (e_name e)) || contains "not connected" (casefold (error_detail e))
  || contains "no att transport" (casefold (error_detail e)).
Definition _notify_registration_pending (e : dbus_error) : bool := endswith ".inprogress" (casefold (e_name e)).
Definition _notification_is_already_stopped (e : dbus_error) : bool :=
  endswith ".unknownobject" (casefold (e_name e)) || endswith ".unknowninterface" (casefold (e_name e))
  || existsb (λ marker, contains marker (casefold (error_detail e)))
       ["not notifying"; "no notify session"; "no notification session"; "notify session not started"].
Definition permission_error (e : dbus_error) : bool :=
  endswith ".NotAuthorized" (e_name e) || endswith ".NotPermitted" (e_name e)
  || existsb (λ word, contains word (casefold (e_message e))) ["not authorized"; "permission denied"; "forbidden"].

(** [_ATT_ERROR_RE]: "att error", an optional colon, blanks, "0x", one or two
    hexadecimal digits and the end of a word, in any case. *)
Definition code_of (a : Ascii.ascii) : Z := Z.of_N (Ascii.N_of_ascii a).
Definition hex_value (a : Ascii.ascii) : option Z :=
  let c := code_of a in
  if (48 <=? c) && (c <=? 57) then Some (c - 48)
  else if (97 <=? c) && (c <=? 102) then Some (c - 87)
  else if (65 <=? c) && (c <=? 70) then Some (c - 55) else None.
Definition word_char (a : Ascii.ascii) : bool :=
  let c := code_of a in
  ((48 <=? c) && (c <=? 57)) || ((65 <=? c) && (c <=? 90)) || ((97 <=? c) && (c <=? 122)) || (c =? 95).
Definition word_ends (s : string) : bool := match s with EmptyString => true | String a _ => negb (word_char a) end.
Definition hex_number (s : string) : option Z :=
  match s with
  | String a (String b s') =>
      match hex_value a, hex_value b with
      | Some x, Some y => if word_ends s' then Some (16 * x + y) else None
      | Some x, None => if word_ends (String b s') then Some x else None
      | None, _ => None
      end
  | String a EmptyString => hex_value a
  | EmptyString => None
  end.
Fixpoint skip_blanks (s : string) : string :=
  match s with String a s' => if is_space (code_of a) then skip_blanks s' else s | EmptyString => s end.
Fixpoint strip_prefix (p s : string) : option string :=
  match p, s with
  | EmptyString, _ => Some s
  | String a p', String b s' => if Ascii.eqb a (Prelude.lower_ascii b) then strip_prefix p' s' else None
  | _, _ => None
  end.
Definition att_error_here (s : string) : option Z :=
  s1 ← strip_prefix "att error" s;
  let s2 := match s1 with String a s' => if code_of a =? 58 then s' else s1 | EmptyString => s1 end in
  s3 ← strip_prefix "0x" (skip_blanks s2);
  hex_number s3.
Fixpoint att_error_code (detail : string) : option Z :=
  match att_error_here detail with
  | Some code => Some code
  | None => match detail with EmptyString => None | String _ s' => att_error_code s' end
  end.

Definition _action_error_result (e : dbus_error) : string * option Z :=
  if _connection_was_lost e then (ACTION_DISCONNECTED, None)
  else
    let code := att_error_code (error_detail e) in
    if bool_decide (code = Some AncsErrorCode.InvalidParameter) then (ACTION_UNAVAILABLE, code)
    else if bool_decide (code = Some AncsErrorCode.ActionFailed) then (ACTION_REJECTED, code)
    else if bool_decide (code ∈ [Some AncsErrorCode.UnknownCommand; Some AncsErrorCode.InvalidCommand]) then (ACTION_UNSUPPORTED, code)
    else (ACTION_FAILED, code).

Example att_codes :
  (att_error_code "Operation failed with ATT error: 0xa2", att_error_code "ATT error 0x0E", att_error_code "att error 0xA2b",
   att_error_code "no error") = (Some 0xA2, Some 0x0E, None, None).
Proof. vm_compute. reflexivity. Qed.

(** ** Data *)

(** [_APP_ID_RE]. *)
Definition alnum (c : Z) : bool := ((65 <=? c) && (c <=? 90)) || ((97 <=? c) && (c <=? 122)) || ((48 <=? c) && (c <=? 57)).
Definition app_id_ok (s : ustr) : bool :=
  match s with
  | [] => false
  | c :: s' => alnum c && (zlen s' <=? 254) && forallb (λ c, alnum c || (c =? 46) || (c =? 95) || (c =? 45)) s'
  end.

(** [on_result] is [None] when [ar_reports] is false.  [ar_id] is the identity
    of the object. *)
Record _ActionRequest := mkAction { ar_id : nat; ar_uid : Z; ar_positive : bool; ar_reports : bool }.
Record _Actionable := mkActionable { aa_token : Z; aa_positive : bool; aa_negative : bool; aa_in_flight : bool }.

(** [pr_serial] is the identity of the object. *)
Record _PendingRequest := mkPending {
  pr_serial : nat;
  pr_key : string;
  pr_packet : bytes;
  pr_assembler : option DataSourceAssembler;
  pr_notification : option Notification;
  pr_app_probe : bool;
  pr_expected_app_id : option ustr;
  pr_authorization_probe : bool;
  pr_busy_retries : Z;
  pr_action_label_ids : list Z;
  pr_action : option _ActionRequest;
  pr_discarded : bool;
}.

Record AncsEvent := mkEvent {
  ev_notification_id : Z; ev_app_id : ustr; ev_app_name : ustr; ev_title : ustr; ev_subtitle : ustr; ev_body : ustr;
  ev_category : Z; ev_positive_action_label : ustr; ev_negative_action_label : ustr; ev_action_token : Z;
}.

(** A write BlueZ has not answered: what its callbacks captured. *)
Record InFlight := mkInFlight { if_request : _PendingRequest; if_token : nat; if_generation : Z }.

(** A StopNotify or StartNotify of a CCC refresh BlueZ has not answered. *)
Record Toggle := mkToggle {
  tg_path : string;
  tg_starting : bool;
  tg_owner : Z;                   (* owner generation when the toggle began *)
  tg_token : nat;                 (* the refresh *)
  tg_generation : Z;              (* owner generation when the refresh began *)
  tg_remaining : list string;
  tg_request : _PendingRequest;   (* the probe to repeat *)
}.

(** What the client did, in order: the writes handed to BlueZ and their
    answers, the callbacks it made, and the steps the theorems speak of
    ([Heard] a notification event, [Identified] its app and what the policy
    answered, [Asked] for an action, the UID session or the offers ended). *)
Inductive action :=
  | Writing (r : _PendingRequest) (token : nat)
  | WriteAnswered (token : nat) (accepted : bool)
  | OwnerChanged
  | Heard (n : Notification)
  | Identified (n : Notification) (app_id : ustr) (all_apps this_app : bool)
  | Asked (a : _ActionRequest) (token : Z)
  | SessionEnded
  | ActionsRetired
  | OnEvent (e : AncsEvent)
  | ActionResult (a : _ActionRequest) (res : string)
  | OnStatus
  | OnTransportFailure
  | OnCallActivity (activity : string)
  | OnRemoved (uid : Z)
  | OnSessionReset
  | OnNotificationRemoved (uid : Z)
  | OnActionsReset.

(** ** The state *)

Record Lifecycle := mkLifecycle {
  _started : bool;
  _bluez_owner_generation : Z;
  _bluez_owner_available : bool;
  _manager_watches : bool;
}.
Record Transport := mkTransport {
  _ns_path : option string;
  _ds_path : option string;
  _cp_path : option string;
  _notify_started : bool;
  _authorized : bool;
  health_proof : option time;
  permission_denied : bool;
  _was_authorized : bool;
  _bearer_connected : option bool;
  _subscription_generation : Z;
  _legacy_connected : bool;
  _legacy_retry_delay : Z;
  _bearer_ready : bool;
  _transport_blocked : bool;
  _owned_notify_paths : gset string;
  _notify_refresh : option nat;
  _notify_refreshes : Z;
  receivers : option (Z * Z);   (* characteristic watches: owner and subscription generation they captured *)
}.
(** Armed timers, with their delay. *)
Record Timers := mkTimers {
  _manager_retry_id : option Z;
  _subscribe_retry_id : option Z;
  _authorization_retry_id : option Z;
  _bearer_settle_id : option Z;
  _transport_reset_id : option Z;
  _legacy_health_id : option Z;
  _request_timeout_id : option Z;
  _cp_busy_retry_id : option Z;
}.
Record Requests := mkRequests {
  _request_queue : RequestBacklog _PendingRequest;
  _active_request : option _PendingRequest;
  _cp_write_token : option nat;
  writes : list InFlight;
  toggles : list Toggle;
}.
Record Caches := mkCaches {
  _app_name_cache : list (ustr * ustr);
  _observed_app_ids : list ustr;
  _pending_app_lookups : gmap ustr (list NotificationAttributes);
  _app_lookup_requested : gset ustr;
  _categories : list (Z * Z);
  _live_events_seen : bool;
}.
Record Actions := mkActions {
  _actionable : list (Z * _Actionable);
  _action_tokens : Z;   (* the next token *)
}.
Record World := mkWorld {
  lc : Lifecycle; tr : Transport; tm : Timers; rq : Requests; ca : Caches; ac : Actions;
  clock : time; fresh : nat; log : list action;
}.

(** Which callbacks the owner installed. *)
Record Config := mkConfig {
  device_path : string;
  has_status : bool; has_transport_failure : bool; has_call_activity : bool; has_notification_removed : bool;
  has_actions_reset : bool; has_removed : bool; has_session_reset : bool;
}.

(** What the environment answers during one event. *)
Inductive write_answer := WriteSent | WriteRefused (e : dbus_error) | WriteBroken.
Record Env := mkEnv {
  include_non_message : bool;
  include_app : ustr → bool;
  actions_setting : bool;
  write_value : nat → write_answer;                       (* by the request's serial *)
  add_receivers : option dbus_error;
  start_notify : string → option dbus_error;
  cached_notifying : string → option bool;
  stop_notify : string → option dbus_error;
  toggle_refused : bool → string → option dbus_error;     (* StartNotify or StopNotify of a refresh, sent asynchronously *)
  managed_objects : option (list (string * option string)); (* paths with their characteristic UUID, or the call fails *)
}.

Definition emit (a : action) : M World () := modify (λ w : World, w <| log ::= λ l, l ++ [a] |>).
Definition set_lc (f : Lifecycle → Lifecycle) : M World () := modify (λ w : World, w <| lc ::= f |>).
Definition set_tr (f : Transport → Transport) : M World () := modify (λ w : World, w <| tr ::= f |>).
Definition set_tm (f : Timers → Timers) : M World () := modify (λ w : World, w <| tm ::= f |>).
Definition set_rq (f : Requests → Requests) : M World () := modify (λ w : World, w <| rq ::= f |>).
Definition set_ca (f : Caches → Caches) : M World () := modify (λ w : World, w <| ca ::= f |>).
Definition set_ac (f : Actions → Actions) : M World () := modify (λ w : World, w <| ac ::= f |>).
(** Runs an operation of the request queue. *)
Definition on_queue {A} (m : M (RequestBacklog _PendingRequest) A) : M World A := λ w,
  let '(r, q) := m (_request_queue (rq w)) in (r, w <| rq ::= λ x, x <| _request_queue := q |> |>).
Definition tick : M World nat := w ← get; modify (λ w : World, w <| fresh ::= S |>);; mret (fresh w).

Definition _transport_available (t : Transport) : bool := bool_decide (_bearer_connected t = Some true) || _legacy_connected t.
Definition connected (w : World) : bool :=
  _transport_available (tr w) && _bearer_ready (tr w) && negb (_transport_blocked (tr w)) && _notify_started (tr w) && _authorized (tr w).

(** Ordered dictionaries. *)
Definition od_get {K V} `{EqDecision K} (k : K) (d : list (K * V)) : option V := snd <$> List.find (λ p, bool_decide (p.1 = k)) d.
Definition od_pop {K V} `{EqDecision K} (k : K) (d : list (K * V)) : list (K * V) := filter (λ p, p.1 ≠ k) d.
(** [d[k] = v; d.move_to_end(k)]. *)
Definition od_set_last {K V} `{EqDecision K} (k : K) (v : V) (d : list (K * V)) : list (K * V) := od_pop k d ++ [(k, v)].
(** [while len(d) > n: d.popitem(last=False)]. *)
Definition od_bound {A} (n : Z) (d : list A) : list A := drop (Z.to_nat (zlen d - n)) d.
Definition od_alter {K V} `{EqDecision K} (f : V → V) (k : K) (d : list (K * V)) : list (K * V) :=
  (λ p, if bool_decide (p.1 = k) then (p.1, f p.2) else p) <$> d.

(** [pending.remove(attrs)]: the first equal one. *)
Fixpoint remove_first {A} `{EqDecision A} (x : A) (l : list A) : list A :=
  match l with [] => [] | y :: l' => if decide (y = x) then l' else y :: remove_first x l' end.
(** An application identifier as part of a request key. *)
Definition str (s : ustr) : string := String.string_of_list_ascii ((λ c, Ascii.ascii_of_N (Z.to_N c)) <$> s).
#[global] Instance NotificationAttributes_eq_dec : EqDecision NotificationAttributes.
Proof. solve_decision. Defined.

(** [str.rsplit("/", 1)[0]], when there is a "/". *)
Fixpoint before_last_slash (s : string) : option string :=
  match s with
  | EmptyString => None
  | String a s' =>
      match before_last_slash s' with
      | Some p => Some (String a p)
      | None => if code_of a =? 47 then Some EmptyString else None
      end
  end.
Definition _char_path_to_device_path (char_path : string) : string := default "" (before_last_slash char_path ≫= before_last_slash).
Definition ANCS_CHAR_UUIDS : list string := [NOTIFICATION_SOURCE_CHAR; CONTROL_POINT_CHAR; DATA_SOURCE_CHAR].

(** * Operations *)

Section client.
Context (cfg : Config) (env : Env).

(** ** Timers *)

Definition _cancel_manager_retry : M World () := set_tm (λ t, t <| _manager_retry_id := None |>).
Definition _cancel_subscribe_retry : M World () := set_tm (λ t, t <| _subscribe_retry_id := None |>).
Definition _cancel_authorization_retry : M World () := set_tm (λ t, t <| _authorization_retry_id := None |>).
Definition _cancel_bearer_settle : M World () := set_tm (λ t, t <| _bearer_settle_id := None |>).
Definition _cancel_transport_reset : M World () := set_tm (λ t, t <| _transport_reset_id := None |>).
Definition _cancel_legacy_health : M World () := set_tm (λ t, t <| _legacy_health_id := None |>).
Definition _cancel_busy_retry : M World () := set_tm (λ t, t <| _cp_busy_retry_id := None |>).

Definition _schedule_manager_retry : M World () :=
  w ← get;
  if negb (_started (lc w)) || is_some (_manager_retry_id (tm w)) then mret ()
  else set_tm (λ t, t <| _manager_retry_id := Some MANAGER_RETRY_SECONDS |>).
Definition _schedule_bearer_settle : M World () :=
  w ← get;
  if is_some (_bearer_settle_id (tm w)) || negb (_transport_available (tr w)) then mret ()
  else set_tm (λ t, t <| _bearer_settle_id := Some BEARER_SETTLE_SECONDS |>).
Definition _schedule_transport_reset : M World () :=
  w ← get;
  when (_started (lc w) && bool_decide (_bearer_connected (tr w) = Some true) && has_transport_failure cfg
        && negb (is_some (_transport_reset_id (tm w))))
    (set_tm (λ t, t <| _transport_reset_id := Some TRANSPORT_RESET_SECONDS |>)).
Definition _schedule_subscribe_retry : M World () :=
  w ← get;
  if negb (_started (lc w)) || is_some (_subscribe_retry_id (tm w))
     || negb (is_some (_ns_path (tr w)) && is_some (_ds_path (tr w)) && is_some (_cp_path (tr w)))
  then mret ()
  else
    delay ← (if _legacy_connected (tr w) then
               let delay := _legacy_retry_delay (tr w) in
               set_tr (λ t, t <| _legacy_retry_delay := Z.min (delay * 2) LEGACY_RETRY_CAP_SECONDS |>);;
               mret delay
             else mret SUBSCRIBE_RETRY_SECONDS);
    set_tm (λ t, t <| _subscribe_retry_id := Some delay |>).
Definition _schedule_authorization_retry : M World () :=
  w ← get;
  if negb (_started (lc w)) || negb (_notify_started (tr w)) || _authorized (tr w) || is_some (_authorization_retry_id (tm w))
  then mret ()
  else set_tm (λ t, t <| _authorization_retry_id := Some AUTHORIZATION_RETRY_SECONDS |>).
Definition _schedule_legacy_health : M World () :=
  w ← get;
  when (_started (lc w) && _legacy_connected (tr w) && negb (is_some (_legacy_health_id (tm w))))
    (set_tm (λ t, t <| _legacy_health_id := Some LEGACY_HEALTH_SECONDS |>)).

(** ** Resets *)

Definition on_status : M World () := when (has_status cfg) (emit OnStatus).
(** [if was_connected and self.on_status is not None: self.on_status()]. *)
Definition status_if (was_connected : bool) : M World () := when was_connected on_status.

Definition _report_action (a : _ActionRequest) (res : string) : M World () := when (ar_reports a) (emit (ActionResult a res)).
Fixpoint report_all (removed : list _PendingRequest) (res : string) : M World () :=
  match removed with
  | [] => mret ()
  | r :: removed' => (match pr_action r with Some a => _report_action a res | None => mret () end);; report_all removed' res
  end.
Definition _drop_queued_actions (predicate : _ActionRequest → bool) (res : string) : M World Z :=
  removed ← on_queue (remove_if (λ r, match pr_action r with Some a => predicate a | None => false end));
  report_all removed res;;
  mret (zlen removed).
Definition _reset_actions : M World () :=
  w ← get;
  let had_actions := negb (bool_decide (_actionable (ac w) = [])) in
  set_ac (λ a, a <| _actionable := [] |>);;
  dropped ← _drop_queued_actions (λ _, true) ACTION_UNAVAILABLE;
  emit ActionsRetired;;
  when ((had_actions || negb (dropped =? 0)) && has_actions_reset cfg) (emit OnActionsReset).

Definition concerns (uid : option Z) (r : _PendingRequest) : bool :=
  match pr_notification r with
  | Some n => match uid with None => true | Some u => n_id n =? u end
  | None => false
  end.
(** What is left of the pending app lookups. *)
Definition retire_pending (uid : option Z) (pending : list NotificationAttributes) : option (list NotificationAttributes) :=
  match List.filter (λ a, match uid with Some u => negb (na_id a =? u) | None => false end) pending with
  | [] => None
  | kept => Some kept
  end.
Definition _discard_notification_requests (uid : option Z) : M World () :=
  on_queue (remove_if (concerns uid));;
  w ← get;
  (match _active_request (rq w) with
   | Some r =>
       when (concerns uid r && negb (pr_discarded r))
         (on_queue (finish (pr_key r));;
          set_rq (λ x, x <| _active_request := Some (r <| pr_discarded := true |> <| pr_key := "retired:" +:+ pr_key r |>) |>))
   | None => mret ()
   end);;
  set_ca (λ c, c <| _pending_app_lookups ::= omap (retire_pending uid) |>).
Definition _end_session : M World () :=
  set_ca (λ c, c <| _live_events_seen := false |>);;
  _discard_notification_requests None;;
  emit SessionEnded;;
  when (has_session_reset cfg) (emit OnSessionReset).

Definition _finish_active_request : M World (option _PendingRequest) :=
  w ← get;
  set_rq (λ x, x <| _active_request := None |>);;
  (match _active_request (rq w) with Some r => on_queue (finish (pr_key r)) | None => mret () end);;
  set_tm (λ t, t <| _request_timeout_id := None |>);;
  mret (_active_request (rq w)).
Definition _reset_requests : M World () :=
  _cancel_busy_retry;;
  _drop_queued_actions (λ _, true) ACTION_DISCONNECTED;;
  on_queue clear;;
  _finish_active_request;;
  set_ca (λ c, c <| _pending_app_lookups := ∅ |> <| _app_lookup_requested := ∅ |>).

(** One [StopNotify] call: whether the registration is gone. *)
Definition stopped_now (path : string) : bool :=
  match stop_notify env path with None => true | Some e => _notification_is_already_stopped e end.
Definition _stop_bluez_notifications : M World () :=
  set_tr (λ t, t <| _owned_notify_paths ::= filter (λ path, stopped_now path = false) |>).

Definition _clear_characteristic_subscription (stop_notify : bool) : M World () :=
  set_tr (λ t, t <| _subscription_generation ::= λ g, g + 1 |>);;
  _cancel_authorization_retry;;
  _cancel_legacy_health;;
  set_tr (λ t, t <| receivers := None |> <| _notify_refresh := None |>);;
  w ← get;
  when (_notify_started (tr w) && stop_notify) _stop_bluez_notifications;;
  set_tr (λ t, t <| _notify_started := false |> <| _authorized := false |>);;
  _reset_requests;;
  _reset_actions;;
  _end_session.

Definition _mark_transport_failed : M World () :=
  w ← get;
  set_tr (λ t, t <| _transport_blocked := true |> <| _bearer_ready := false |>);;
  _cancel_bearer_settle;;
  _cancel_subscribe_retry;;
  _clear_characteristic_subscription false;;
  (if _legacy_connected (tr w) then _schedule_subscribe_retry else _schedule_transport_reset);;
  status_if (connected w).
Definition _escalate_unresponsive_transport : M World () :=
  w ← get;
  when (_notify_started (tr w) && bool_decide (_bearer_connected (tr w) = Some true) && _bearer_ready (tr w))
    _stop_bluez_notifications;;
  _mark_transport_failed.

Definition _observe_permission_error (e : dbus_error) : M World () :=
  when (permission_error e)
    (set_tr (λ t, t <| permission_denied := true |>);;
     w ← get;
     when (_authorized (tr w)) (set_tr (λ t, t <| _authorized := false |>);; on_status);;
     _schedule_authorization_retry).

(** ** Events and actions *)

Definition _remember_actionable (e : AncsEvent) : M World AncsEvent :=
  let positive := negb (bool_decide (ev_positive_action_label e = [])) in
  let negative := negb (bool_decide (ev_negative_action_label e = [])) in
  if negb (positive || negative) then mret e
  else
    w ← get;
    let token := _action_tokens (ac w) in
    set_ac (λ a, a <| _action_tokens := token + 1 |>
                   <| _actionable ::= λ d, od_bound MAX_ANCS_ACTIONABLE
                        (od_set_last (ev_notification_id e) (mkActionable token positive negative false) d) |>);;
    mret (e <| ev_action_token := token |>).
Definition _emit (attrs : NotificationAttributes) (app_name : ustr) : M World () :=
  w ← get;
  let event :=
    {| ev_notification_id := na_id attrs; ev_app_id := na_app_id attrs; ev_app_name := app_name; ev_title := na_title attrs;
       ev_subtitle := na_subtitle attrs; ev_body := na_message attrs;
       ev_category := default CategoryID.Other (od_get (na_id attrs) (_categories (ca w)));
       ev_positive_action_label := na_positive_action_label attrs; ev_negative_action_label := na_negative_action_label attrs;
       ev_action_token := 0 |} in
  event ← (if actions_setting env then _remember_actionable event
           else mret (event <| ev_positive_action_label := [] |> <| ev_negative_action_label := [] |>));
  emit (OnEvent event).
Fixpoint emit_all (pending : list NotificationAttributes) (app_name : ustr) : M World () :=
  match pending with [] => mret () | attrs :: pending' => _emit attrs app_name;; emit_all pending' app_name end.
(** The events that waited for the name of [app_id], with [app_name]. *)
Definition flush_lookup (app_id app_name : ustr) : M World () :=
  w ← get;
  set_ca (λ c, c <| _app_lookup_requested ::= λ s, s ∖ {[app_id]} |> <| _pending_app_lookups ::= delete app_id |>);;
  emit_all (default [] (_pending_app_lookups (ca w) !! app_id)) app_name.

Definition _abandon_request (request : option _PendingRequest) : M World () :=
  match request with
  | None => mret ()
  | Some r =>
      on_queue (finish (pr_key r));;
      if pr_authorization_probe r then _schedule_authorization_retry
      else
        match pr_notification r, pr_assembler r ≫= as_app_id with
        | None, Some (c :: app_id) => flush_lookup (c :: app_id) (c :: app_id)
        | _, _ => mret ()
        end
  end.

Definition _action_written (a : _ActionRequest) : M World () :=
  set_ac (λ x, x <| _actionable ::= od_pop (ar_uid a) |>);;
  _report_action a ACTION_SENT.
Definition _action_failed (a : _ActionRequest) (e : dbus_error) : M World () :=
  let res := (_action_error_result e).1 in
  (if String.eqb res ACTION_UNAVAILABLE then set_ac (λ x, x <| _actionable ::= od_pop (ar_uid a) |>)
   else set_ac (λ x, x <| _actionable ::= od_alter (λ entry, entry <| aa_in_flight := false |>) (ar_uid a) |>));;
  _report_action a res.

(** ** The Control Point *)

Definition release_write (token : nat) (accepted : bool) : M World bool :=
  emit (WriteAnswered token accepted);;
  w ← get;
  if bool_decide (_cp_write_token (rq w) = Some token)
  then set_rq (λ x, x <| _cp_write_token := None |>);; mret true
  else mret false.
(** [current_attempt()]: the active request, when it is the one written. *)
Definition current_attempt (f : InFlight) (w : World) : option _PendingRequest :=
  match _active_request (rq w) with
  | Some r =>
      if _started (lc w) && (if_generation f =? _bluez_owner_generation (lc w)) && (pr_serial r =? pr_serial (if_request f))%nat
      then Some r else None
  | None => None
  end.

(** The [failed] callback, around the next [_pump_requests]. *)
Definition failed (pump : M World ()) (f : InFlight) (e : dbus_error) : M World () :=
  released ← release_write (if_token f) false;
  w ← get;
  match current_attempt f w with
  | None =>
      (match pr_action (if_request f) with Some a => _report_action a (_action_error_result e).1 | None => mret () end);;
      when released pump
  | Some request =>
      if pr_discarded request then
        _finish_active_request;;
        (if _connection_was_lost e then _mark_transport_failed else pump)
      else if endswith ".InProgress" (e_name e) && (pr_busy_retries request <? MAX_CONTROL_POINT_BUSY_RETRIES) then
        set_rq (λ x, x <| _active_request := None |>);;
        on_queue (push_front (pr_key request) (request <| pr_busy_retries ::= λ n, n + 1 |>));;
        set_tm (λ t, t <| _cp_busy_retry_id := Some CONTROL_POINT_BUSY_RETRY_SECONDS |>)
      else
        match pr_action request with
        | Some a =>
            _finish_active_request;;
            _action_failed a e;;
            _observe_permission_error e;;
            (if _connection_was_lost e then _mark_transport_failed else pump)
        | None =>
            _observe_permission_error e;;
            if _connection_was_lost e then _mark_transport_failed
            else
              _abandon_request (Some request);;
              set_rq (λ x, x <| _active_request := None |>);;
              pump
        end
  end.

Definition dispatch_failed : dbus_error := mkError "org.bluez.Error.Failed" "dispatch failed" "".
Definition CLOSED : exn := RuntimeError "WriteValue".
(** The [except Exception] clause of [_pump_requests]. *)
Definition release_broken (f : InFlight) : M World () :=
  release_write (if_token f) false;;
  w ← get;
  (match _active_request (rq w) with
   | Some request =>
       when (pr_serial request =? pr_serial (if_request f))%nat
         (match pr_action (if_request f) with
          | Some a => _finish_active_request;; _action_failed a dispatch_failed
          | None => set_rq (λ x, x <| _active_request := None |>);; _abandon_request (Some (if_request f))
          end)
   | None => mret ()
   end);;
  raise CLOSED.

(** A refusal at once runs [failed], which pumps again: each round takes one
    request off the queue, so its length bounds them. *)
Fixpoint pump (fuel : nat) : M World () :=
  w ← get;
  if is_some (_active_request (rq w)) || is_some (_cp_write_token (rq w)) || is_some (_cp_busy_retry_id (tm w))
     || is_some (_notify_refresh (tr w)) || negb (backlog_bool (_request_queue (rq w))) || negb (is_some (_cp_path (tr w)))
  then mret ()
  else
    match fuel with
    | O => raise (RuntimeError "fuel")
    | S fuel =>
        request ← on_queue popleft;
        token ← tick;
        set_rq (λ x, x <| _active_request := Some request |> <| _cp_write_token := Some token |>);;
        emit (Writing request token);;
        let f := mkInFlight request token (_bluez_owner_generation (lc w)) in
        match write_value env (pr_serial request) with
        | WriteSent => set_rq (λ x, x <| writes ::= λ l, l ++ [f] |>)
        | WriteRefused e => failed (pump fuel) f e
        | WriteBroken => release_broken f
        end
    end.
Definition _pump_requests : M World () := w ← get; pump (length (rb_queue (_request_queue (rq w)))).

(** The [written] callback. *)
Definition written (f : InFlight) : M World () :=
  released ← release_write (if_token f) true;
  w ← get;
  match pr_action (if_request f), current_attempt f w with
  | Some a, Some _ => _finish_active_request;; _action_written a;; _pump_requests
  | Some a, None => _report_action a ACTION_SENT;; when released _pump_requests
  | None, None => when released _pump_requests
  | None, Some _ => set_tm (λ t, t <| _request_timeout_id := Some REQUEST_TIMEOUT_SECONDS |>)
  end.
Definition write_failed (f : InFlight) (e : dbus_error) : M World () := failed _pump_requests f e.

Definition _retry_busy_control_point : M World () := _cancel_busy_retry;; _pump_requests.

Definition _enqueue (request : _PendingRequest) : M World () :=
  ok ← on_queue (enqueue (pr_key request) request false);
  when ok _pump_requests.

(** [_PendingRequest(...)], a new object. *)
Definition new_request (key : string) (packet : bytes) (assembler : option DataSourceAssembler) : M World _PendingRequest :=
  serial ← tick;
  mret {| pr_serial := serial; pr_key := key; pr_packet := packet; pr_assembler := assembler; pr_notification := None;
          pr_app_probe := false; pr_expected_app_id := None; pr_authorization_probe := false; pr_busy_retries := 0;
          pr_action_label_ids := []; pr_action := None; pr_discarded := false |}.

Definition _queue_authorization_probe (force : bool) : M World () :=
  w ← get;
  if negb (_notify_started (tr w)) || (_authorized (tr w) && negb force) then mret ()
  else
    packet ← lift (build_get_app_attributes MESSAGES_APP_ID);
    request ← new_request "authorization" packet
      (Some (DataSourceAssembler_init CommandID.GetAppAttributes [0] None (Some MESSAGES_APP_ID)));
    _enqueue (request <| pr_authorization_probe := true |>).
Definition probe_health : M World () :=
  w ← get;
  when (connected w && negb (is_some (_active_request (rq w))) && negb (backlog_bool (_request_queue (rq w))))
    (_queue_authorization_probe true).

Definition _mark_authorized : M World () :=
  w ← get;
  set_tr (λ t, t <| health_proof := Some (clock w) |> <| permission_denied := false |>
                 <| _legacy_retry_delay := SUBSCRIBE_RETRY_SECONDS |>);;
  _schedule_legacy_health;;
  when (negb (_authorized (tr w)))
    (set_tr (λ t, t <| _authorized := true |> <| _was_authorized := true |>);;
     _cancel_authorization_retry;;
     on_status).

(** ** Subscription *)

Definition _should_start_notify (path : string) (w : World) : bool :=
  negb (bool_decide (path ∈ _owned_notify_paths (tr w))) || negb (bool_decide (cached_notifying env path = Some true)).
(** One characteristic of [_try_subscribe]: the error it raises, if any. *)
Definition _start_notify (path : string) : M World (option dbus_error) :=
  w ← get;
  if negb (_should_start_notify path w) then mret None
  else
    let own := set_tr (λ t, t <| _owned_notify_paths ::= λ s, {[path]} ∪ s |>);; mret None in
    match start_notify env path with
    | None => own
    | Some e => if _legacy_connected (tr w) && _notify_registration_pending e then own else mret (Some e)
    end.
Definition subscribe_failed (e : dbus_error) : M World () :=
  _observe_permission_error e;;
  (if _connection_was_lost e then _mark_transport_failed else _schedule_subscribe_retry).

Definition _try_subscribe : M World () :=
  w ← get;
  let t := tr w in
  if _notify_started t || _transport_blocked t || negb (_transport_available t) || negb (_bearer_ready t) then mret ()
  else
    match _ns_path t, _ds_path t, _cp_path t with
    | Some ns_path, Some ds_path, Some _ =>
        if negb (_started (lc w)) then mret ()
        else
          match add_receivers env with
          | Some e => subscribe_failed e
          | None =>
              ns ← _start_notify ns_path;
              match ns with
              | Some e => subscribe_failed e
              | None =>
                  ds ← _start_notify ds_path;
                  match ds with
                  | Some e => subscribe_failed e
                  | None =>
                      _cancel_subscribe_retry;;
                      set_tr (λ t, t <| receivers := Some (_bluez_owner_generation (lc w), _subscription_generation t) |>
                                     <| _notify_started := true |>);;
                      _reset_actions;;
                      _end_session;;
                      _queue_authorization_probe false
                  end
              end
          end
    | _, _, _ => mret ()
    end.

Definition _retry_subscribe : M World () :=
  _cancel_subscribe_retry;;
  w ← get;
  when (_started (lc w))
    (when (_legacy_connected (tr w)) (set_tr (λ t, t <| _transport_blocked := false |> <| _bearer_ready := true |>));;
     _try_subscribe).
Definition _finish_bearer_settle : M World () :=
  _cancel_bearer_settle;;
  w ← get;
  when (_started (lc w) && _transport_available (tr w)) (set_tr (λ t, t <| _bearer_ready := true |>);; _try_subscribe).
Definition _retry_authorization : M World () := _cancel_authorization_retry;; _queue_authorization_probe false.
Definition _check_legacy_health : M World () :=
  _cancel_legacy_health;;
  w ← get;
  when (_started (lc w) && _legacy_connected (tr w) && _authorized (tr w))
    (probe_health;; w ← get; when (_authorized (tr w)) _schedule_legacy_health).
Definition _request_transport_reset : M World () :=
  _cancel_transport_reset;;
  w ← get;
  when (_started (lc w) && _transport_blocked (tr w) && bool_decide (_bearer_connected (tr w) = Some true) && has_transport_failure cfg)
    (emit OnTransportFailure).
Definition _legacy_transport_hint : M World () :=
  w ← get;
  when (_started (lc w))
    (if connected w then probe_health
     else when (is_some (_subscribe_retry_id (tm w)))
       (_cancel_subscribe_retry;; set_tr (λ t, t <| _legacy_retry_delay := SUBSCRIBE_RETRY_SECONDS |>);; _schedule_subscribe_retry)).

(** ** The CCC refresh *)

Definition toggle_current (tg : Toggle) (w : World) : bool :=
  _started (lc w) && bool_decide (_notify_refresh (tr w) = Some (tg_token tg))
  && (tg_generation tg =? _bluez_owner_generation (lc w)).
(** [failed] of [_refresh_notifications]. *)
Definition refresh_failed (tg : Toggle) (e : dbus_error) : M World () :=
  w ← get;
  when (toggle_current tg w)
    (set_tr (λ t, t <| _notify_refresh := None |>);;
     (if _connection_was_lost e then _mark_transport_failed else _escalate_unresponsive_transport)).
Definition await_toggle (tg : Toggle) : M World () := set_rq (λ x, x <| toggles ::= λ l, l ++ [tg] |>).
(** [stopped] and [stop_failed] of [_toggle_notify]. *)
Definition stopped (tg : Toggle) : M World () :=
  w ← get;
  when (tg_owner tg =? _bluez_owner_generation (lc w))
    (set_tr (λ t, t <| _owned_notify_paths ::= λ s, s ∖ {[tg_path tg]} |>));;
  w ← get;
  when (toggle_current tg w)
    match toggle_refused env true (tg_path tg) with
    | None => await_toggle (tg <| tg_starting := true |>)
    | Some e => refresh_failed tg e
    end.
Definition stop_failed (tg : Toggle) (e : dbus_error) : M World () :=
  if _notification_is_already_stopped e then stopped tg else refresh_failed tg e.
Definition _toggle_notify (tg : Toggle) : M World () :=
  match toggle_refused env false (tg_path tg) with
  | None => await_toggle tg
  | Some e => stop_failed tg e
  end.
(** [next_path] of [_refresh_notifications]. *)
Definition next_path (tg : Toggle) : M World () :=
  w ← get;
  when (toggle_current tg w)
    match tg_remaining tg with
    | path :: remaining =>
        _toggle_notify (tg <| tg_path := path |> <| tg_starting := false |> <| tg_owner := _bluez_owner_generation (lc w) |>
                           <| tg_remaining := remaining |>)
    | [] =>
        set_tr (λ t, t <| _notify_refresh := None |>);;
        _reset_actions;;
        probe ← new_request (pr_key (tg_request tg)) (pr_packet (tg_request tg))
          (Some (DataSourceAssembler_init CommandID.GetAppAttributes [0] None (Some MESSAGES_APP_ID)));
        let probe := probe <| pr_authorization_probe := true |> in
        ok ← on_queue (enqueue (pr_key probe) probe true);
        w ← get;
        if negb ok && (count_if pr_authorization_probe (_request_queue (rq w)) =? 0) then _escalate_unresponsive_transport
        else _pump_requests
    end.
Definition started (tg : Toggle) : M World () :=
  w ← get;
  when (tg_owner tg =? _bluez_owner_generation (lc w))
    (set_tr (λ t, t <| _owned_notify_paths ::= λ s, {[tg_path tg]} ∪ s |>));;
  next_path tg.

Definition _refresh_notifications (request : _PendingRequest) : M World bool :=
  w ← get;
  let t := tr w in
  if negb (_started (lc w)) || negb (_notify_started t) || _legacy_connected t
     || negb (bool_decide (_bearer_connected t = Some true)) || negb (_bearer_ready t) || is_some (_notify_refresh t)
     || (MAX_NOTIFY_REFRESHES_PER_LINK <=? _notify_refreshes t)
  then mret false
  else
    match _ns_path t, _ds_path t with
    | Some ns_path, Some ds_path =>
        set_tr (λ t, t <| _notify_refreshes ::= λ n, n + 1 |>);;
        _finish_active_request;;
        _end_session;;
        token ← tick;
        set_tr (λ t, t <| _notify_refresh := Some token |>);;
        next_path (mkToggle "" false 0 token (_bluez_owner_generation (lc w)) [ns_path; ds_path] request);;
        mret true
    | _, _ => mret false
    end.

Definition _request_timed_out : M World () :=
  set_tm (λ t, t <| _request_timeout_id := None |>);;
  w ← get;
  match _active_request (rq w) with
  | Some request =>
      if pr_authorization_probe request && _was_authorized (tr w) then
        refreshed ← _refresh_notifications request;
        (if refreshed : bool then mret () else _escalate_unresponsive_transport)
      else
        _abandon_request (Some request);;
        set_rq (λ x, x <| _active_request := None |>);;
        _pump_requests
  | None => _pump_requests
  end.

(** ** Notification Source *)

Definition _report_call_activity (n : Notification) : M World () :=
  when (has_call_activity cfg)
    (if (n_type n =? EventID.NotificationAdded) && (n_category n =? CategoryID.MissedCall) then
       when (negb (is_preexisting n)) (emit (OnCallActivity "missed"))
     else when ((n_type n =? EventID.NotificationRemoved) && (n_category n =? CategoryID.IncomingCall))
       (emit (OnCallActivity "ended"))).
Definition _forget_actionable (uid : Z) : M World () :=
  dropped ← _drop_queued_actions (λ a, ar_uid a =? uid) ACTION_UNAVAILABLE;
  w ← get;
  set_ac (λ a, a <| _actionable ::= od_pop uid |>);;
  when ((is_some (od_get uid (_actionable (ac w))) || negb (dropped =? 0)) && has_notification_removed cfg)
    (emit (OnNotificationRemoved uid)).

Definition notification_key (uid : Z) : string := "notification:" +:+ pretty uid.
Definition _request_attrs (n : Notification) : M World () :=
  packet ← lift (build_get_notification_app_identifier (n_id n));
  request ← new_request (notification_key (n_id n)) packet
    (Some (DataSourceAssembler_init CommandID.GetNotificationAttributes [0] (Some (n_id n)) None));
  _enqueue (request <| pr_notification := Some n |> <| pr_app_probe := true |>).
Definition _request_full_attrs (n : Notification) (app_id : ustr) : M World () :=
  let label_ids := if actions_setting env && negb (bool_decide (app_id = MESSAGES_APP_ID)) then action_label_ids n else [] in
  packet ← lift (build_get_notification_attributes (n_id n) ANCS_TITLE_MAX_BYTES ANCS_SUBTITLE_MAX_BYTES ANCS_MESSAGE_MAX_BYTES
                   label_ids);
  request ← new_request (notification_key (n_id n)) packet
    (Some (DataSourceAssembler_init CommandID.GetNotificationAttributes ([0; 1; 2; 3] ++ label_ids) (Some (n_id n)) None));
  _enqueue (request <| pr_notification := Some n |> <| pr_expected_app_id := Some app_id |> <| pr_action_label_ids := label_ids |>).

Definition GATT_CHARACTERISTIC : string := "org.bluez.GattCharacteristic1".
Definition _on_ns_changed (iface : string) (value : option bytes) : M World () :=
  if negb (String.eqb iface GATT_CHARACTERISTIC) then mret ()
  else
    match Notification_parse <$> value with
    | Some (Ok n) =>
        emit (Heard n);;
        _report_call_activity n;;
        _forget_actionable (n_id n);;
        if n_type n =? EventID.NotificationRemoved then
          _discard_notification_requests (Some (n_id n));;
          when (has_removed cfg) (emit (OnRemoved (n_id n)))
        else if is_preexisting n then
          w ← get;
          when (negb (bool_decide (_actionable (ac w) = []))) _reset_actions;;
          when (_live_events_seen (ca w)) _end_session
        else
          set_ca (λ c, c <| _live_events_seen := true |>
                         <| _categories ::= λ d, od_bound MAX_ANCS_REQUESTS (od_set_last (n_id n) (n_category n) d) |>);;
          _request_attrs n
    | _ => mret ()
    end.

(** ** Data Source *)

Definition _request_app_name (app_id : ustr) : M World bool :=
  w ← get;
  if is_some (od_get app_id (_app_name_cache (ca w))) || bool_decide (app_id ∈ _app_lookup_requested (ca w)) then mret true
  else
    set_ca (λ c, c <| _app_lookup_requested ::= λ s, {[app_id]} ∪ s |>);;
    packet ← lift (build_get_app_attributes app_id);
    request ← new_request ("app:" +:+ str app_id) packet
      (Some (DataSourceAssembler_init CommandID.GetAppAttributes [0] None (Some app_id)));
    ok ← on_queue (enqueue (pr_key request) request false);
    if negb ok then set_ca (λ c, c <| _app_lookup_requested ::= λ s, s ∖ {[app_id]} |>);; mret false
    else _pump_requests;; mret true.

Definition _handle_notification_attrs (attrs : NotificationAttributes) : M World () :=
  let app_id := na_app_id attrs in
  if bool_decide (app_id = MESSAGES_APP_ID) then _emit attrs app_id
  else
    w ← get;
    match od_get app_id (_app_name_cache (ca w)) with
    | Some app_name =>
        set_ca (λ c, c <| _app_name_cache ::= od_set_last app_id app_name |>);;
        _emit attrs app_name
    | None =>
        let pending := default [] (_pending_app_lookups (ca w) !! app_id) in
        if MAX_ANCS_PENDING_PER_APP <=? zlen pending then
          set_ca (λ c, c <| _pending_app_lookups ::= insert app_id pending |>);;
          _emit attrs app_id
        else
          set_ca (λ c, c <| _pending_app_lookups ::= insert app_id (pending ++ [attrs]) |>);;
          ok ← _request_app_name app_id;
          when (negb ok)
            (let rest := remove_first attrs (pending ++ [attrs]) in
             set_ca (λ c, c <| _pending_app_lookups ::=
               match rest with [] => delete app_id | _ => insert app_id rest end |>);;
             _emit attrs app_id)
    end.
Definition _handle_app_attrs (app_attrs : AppAttributes) : M World () :=
  let app_name := slice 0 256 (aa_app_name app_attrs) in
  set_ca (λ c, c <| _app_name_cache ::= λ d, od_bound MAX_ANCS_APP_CACHE (od_set_last (aa_app_id app_attrs) app_name d) |>);;
  flush_lookup (aa_app_id app_attrs) app_name.

(** What an app identifier response does. *)
Definition on_identified (n : Notification) (app_id : ustr) : M World () :=
  if bool_decide (app_id = MESSAGES_APP_ID) then
    emit (Identified n app_id false false);;
    _request_full_attrs n app_id
  else if app_id_ok app_id && include_non_message env then
    emit (Identified n app_id true (include_app env app_id));;
    set_ca (λ c, c <| _observed_app_ids ::= λ d, od_bound MAX_ANCS_APP_CACHE (filter (λ a, a ≠ app_id) d ++ [app_id]) |>);;
    when (include_app env app_id) (_request_full_attrs n app_id)
  else emit (Identified n app_id false false).

(** A complete response, after the request left its slot.  An error of a
    parser abandons the request and ends the handler. *)
Definition or_abandon {A} (request : _PendingRequest) (r : result A) (f : A → M World ()) : M World () :=
  match r with
  | Raise _ => _abandon_request (Some request)
  | Ok a => f a
  end.
Definition on_response (request : _PendingRequest) (complete : bytes) : M World () :=
  or_abandon request (DataSourceEvent_parse complete) (λ ev,
    if ds_type ev =? CommandID.GetNotificationAttributes then
      match pr_notification request with
      | None => mret ()
      | Some n =>
          if pr_app_probe request then
            or_abandon request (parse_notification_app_identifier (ds_body ev)) (λ '(notification_id, app_id),
              if negb (notification_id =? n_id n) then mret () else on_identified n app_id)
          else
            or_abandon request (NotificationAttributes_parse (ds_body ev) (pr_action_label_ids request)) (λ attrs,
              if negb (bool_decide (Some (na_app_id attrs) = pr_expected_app_id request)) then mret ()
              else _handle_notification_attrs attrs)
      end
    else if ds_type ev =? CommandID.GetAppAttributes then
      or_abandon request (AppAttributes_parse (ds_body ev)) (λ app_attrs,
        when (pr_authorization_probe request) _mark_authorized;;
        _handle_app_attrs app_attrs)
    else mret ()).

Definition _on_ds_changed (iface : string) (value : option bytes) : M World () :=
  if negb (String.eqb iface GATT_CHARACTERISTIC) then mret ()
  else
    w ← get;
    match value, _active_request (rq w) with
    | Some fragment, Some request0 =>
        match pr_assembler request0 with
        | None => mret ()
        | Some a0 =>
            let '(r, a) := feed fragment a0 in
            let request := request0 <| pr_assembler := Some a |> in
            set_rq (λ x, x <| _active_request := Some request |>);;
            match r with
            | Raise _ =>
                failed ← _finish_active_request;
                _abandon_request failed;;
                _pump_requests
            | Ok None => mret ()
            | Ok (Some complete) =>
                _finish_active_request;;
                when (negb (pr_discarded request)) (on_response request complete);;
                _pump_requests
            end
        end
    | _, _ => mret ()
    end.

(** ** Notification actions *)

Definition notification_actions_changed : M World () := when (negb (actions_setting env)) _reset_actions.

Definition _queued_actions (w : World) : Z :=
  count_if (λ r, is_some (pr_action r)) (_request_queue (rq w))
  + match _active_request (rq w) with Some r => if is_some (pr_action r) then 1 else 0 | None => 0 end.

(** [None] stands for an argument [int()] refuses. *)
Definition perform_notification_action (notification_id : option Z) (positive : bool) (token : option Z) (reports : bool)
    : M World bool :=
  id ← tick;
  w ← get;
  let uid := match notification_id, token with Some u, Some _ => u | _, _ => -1 end in
  let a := mkAction id uid positive reports in
  let entry := if actions_setting env then od_get uid (_actionable (ac w)) else None in
  let offered :=
    match entry with
    | Some e => bool_decide (Some (aa_token e) = token) && (if positive then aa_positive e else aa_negative e)
    | None => false
    end in
  if negb offered then _report_action a ACTION_UNAVAILABLE;; mret false
  else if negb (connected w) || negb (is_some (_cp_path (tr w))) then _report_action a ACTION_DISCONNECTED;; mret false
  else if match entry with Some e => aa_in_flight e | None => false end || (MAX_ANCS_ACTIONS_IN_FLIGHT <=? _queued_actions w)
  then _report_action a ACTION_BUSY;; mret false
  else
    packet ← lift (build_perform_notification_action uid (if positive then ActionID.Positive else ActionID.Negative));
    request ← new_request ("action:" +:+ pretty uid) packet None;
    let request := request <| pr_action := Some a |> in
    ok ← on_queue (enqueue (pr_key request) request true);
    if negb ok then _report_action a ACTION_BUSY;; mret false
    else
      set_ac (λ x, x <| _actionable ::= od_alter (λ e, e <| aa_in_flight := true |>) uid |>);;
      emit (Asked a (default 0 token));;
      _pump_requests;;
      mret true.

(** ** Lifecycle *)

Definition _on_iface_added (path : string) (uuid : option string) : M World () :=
  match casefold <$> uuid with
  | None => mret ()
  | Some uuid =>
      if negb (bool_decide (uuid ∈ ANCS_CHAR_UUIDS)) then mret ()
      else if negb (String.eqb (_char_path_to_device_path path) (device_path cfg)) then mret ()
      else
        (if String.eqb uuid NOTIFICATION_SOURCE_CHAR then set_tr (λ t, t <| _ns_path := Some path |>)
         else if String.eqb uuid DATA_SOURCE_CHAR then set_tr (λ t, t <| _ds_path := Some path |>)
         else set_tr (λ t, t <| _cp_path := Some path |>));;
        w ← get;
        if _legacy_connected (tr w) && _transport_blocked (tr w) then
          set_tr (λ t, t <| _legacy_retry_delay := SUBSCRIBE_RETRY_SECONDS |>);;
          _schedule_subscribe_retry
        else _try_subscribe
  end.
Definition _on_iface_removed (path : string) : M World () :=
  w ← get;
  let gone (f : Transport → Transport) :=
    set_tr f;;
    _cancel_subscribe_retry;;
    _cancel_authorization_retry;;
    _clear_characteristic_subscription false;;
    set_tr (λ t, t <| _owned_notify_paths ::= λ s, s ∖ {[path]} |>);;
    status_if (connected w) in
  if bool_decide (_ns_path (tr w) = Some path) then gone (λ t, t <| _ns_path := None |>)
  else if bool_decide (_ds_path (tr w) = Some path) then gone (λ t, t <| _ds_path := None |>)
  else if bool_decide (_cp_path (tr w) = Some path) then gone (λ t, t <| _cp_path := None |>)
  else mret ().

Definition _remove_manager_watches : M World () := set_lc (λ l, l <| _manager_watches := false |>).
Fixpoint sweep (managed : list (string * option string)) : M World () :=
  match managed with [] => mret () | (path, uuid) :: managed' => _on_iface_added path uuid;; sweep managed' end.
Definition _bind_manager_once : M World () :=
  _remove_manager_watches;;
  match managed_objects env with
  | None => raise (DBusException "GetManagedObjects")
  | Some managed => set_lc (λ l, l <| _manager_watches := true |>);; sweep managed
  end.
(** No owner change arrives during a sweep, so one round is enough. *)
Definition _bind_manager_and_rescan : M World () :=
  w ← get; when (_started (lc w) && _bluez_owner_available (lc w)) _bind_manager_once.
(** [try: m except Exception: handler]. *)
Definition catching (m : M World ()) (handler : exn → M World ()) : M World () := λ w,
  match m w with (Raise e, w') => handler e w' | r => r end.

Definition start : M World () :=
  w ← get;
  if _started (lc w) then mret ()
  else
    set_lc (λ l, l <| _bluez_owner_available := true |> <| _started := true |>);;
    catching _bind_manager_and_rescan (λ e, set_lc (λ l, l <| _started := false |>);; raise e);;
    w ← get;
    when (_transport_available (tr w)) _schedule_bearer_settle.
Definition _retry_manager_bind : M World () :=
  _cancel_manager_retry;;
  w ← get;
  if negb (_started (lc w)) then mret () else catching _bind_manager_and_rescan (λ _, _schedule_manager_retry).

Definition forget_paths : M World () := set_tr (λ t, t <| _ns_path := None |> <| _ds_path := None |> <| _cp_path := None |>).
Definition observe_bluez_owner (old_owner new_owner : bool) : M World () :=
  w ← get;
  if negb (_started (lc w)) then mret ()
  else
    set_lc (λ l, l <| _bluez_owner_generation ::= λ g, g + 1 |> <| _bluez_owner_available := new_owner |>);;
    set_tr (λ t, t <| _notify_refreshes := 0 |>);;
    set_rq (λ x, x <| _cp_write_token := None |>);;
    emit OwnerChanged;;
    when old_owner
      (_cancel_manager_retry;;
       _cancel_bearer_settle;;
       _cancel_transport_reset;;
       _remove_manager_watches;;
       _cancel_subscribe_retry;;
       _clear_characteristic_subscription false;;
       set_tr (λ t, t <| _bearer_connected := None |> <| _legacy_connected := false |>
                      <| _legacy_retry_delay := SUBSCRIBE_RETRY_SECONDS |> <| _bearer_ready := false |>
                      <| _transport_blocked := false |> <| _owned_notify_paths := ∅ |>);;
       forget_paths;;
       status_if (connected w));;
    when new_owner (catching _bind_manager_and_rescan (λ _, _schedule_manager_retry)).

Definition had_state (w : World) : bool :=
  _notify_started (tr w) || _authorized (tr w) || is_some (receivers (tr w))
  || negb (bool_decide (_owned_notify_paths (tr w) = ∅)) || is_some (_active_request (rq w))
  || backlog_bool (_request_queue (rq w)).
(** The rest of [observe_bearer_state], past the legacy cases. *)
Definition observe_le (connected : option bool) : M World () :=
  match connected with
  | None => set_tr (λ t, t <| _bearer_connected := None |> <| _bearer_ready := false |>);; _cancel_bearer_settle
  | Some up =>
      w ← get;
      set_tr (λ t, t <| _bearer_connected := Some up |>);;
      if negb up then
        set_tr (λ t, t <| _notify_refreshes := 0 |> <| _transport_blocked := false |> <| _bearer_ready := false |>);;
        _cancel_bearer_settle;;
        _cancel_transport_reset;;
        if negb (had_state w) then set_tr (λ t, t <| _subscription_generation ::= λ g, g + 1 |>)
        else
          _cancel_subscribe_retry;;
          _clear_characteristic_subscription false;;
          on_status
      else if bool_decide (_bearer_connected (tr w) = Some true) then mret ()
      else if _transport_blocked (tr w) then _schedule_transport_reset
      else when (_started (lc w)) _schedule_bearer_settle
  end.
Definition observe_bearer_state (bearer : option bool) (legacy_connected : bool) : M World () :=
  w ← get;
  if negb (Bool.eqb legacy_connected (_legacy_connected (tr w))) then
    set_tr (λ t, t <| _legacy_connected := legacy_connected |> <| _legacy_retry_delay := SUBSCRIBE_RETRY_SECONDS |>);;
    _cancel_subscribe_retry;;
    _cancel_bearer_settle;;
    _cancel_transport_reset;;
    _clear_characteristic_subscription false;;
    set_tr (λ t, t <| _bearer_ready := false |> <| _transport_blocked := false |>);;
    status_if (connected w);;
    if legacy_connected then
      set_tr (λ t, t <| _bearer_connected := None |>);;
      when (_started (lc w)) _schedule_bearer_settle
    else if negb (bool_decide (bearer = Some true)) then set_tr (λ t, t <| _bearer_connected := bearer |>)
    else observe_le bearer
  else if legacy_connected then set_tr (λ t, t <| _bearer_connected := None |>);; _legacy_transport_hint
  else observe_le bearer.

Definition stop : M World () :=
  w ← get;
  set_lc (λ l, l <| _started := false |> <| _bluez_owner_available := false |>);;
  _cancel_manager_retry;;
  _cancel_subscribe_retry;;
  _cancel_authorization_retry;;
  _cancel_bearer_settle;;
  _cancel_transport_reset;;
  _clear_characteristic_subscription (bool_decide (_bearer_connected (tr w) = Some true) && _bearer_ready (tr w));;
  set_tr (λ t, t <| _owned_notify_paths := ∅ |>);;
  _remove_manager_watches;;
  forget_paths;;
  status_if (connected w).

(** ** The main loop *)

Inductive event :=
  | EStart
  | EStop
  | EOwner (old_owner new_owner : bool)
  | EBearer (bearer : option bool) (legacy : bool)
  | EAdded (path : string) (uuid : option string)
  | ERemoved (path : string)
  | ENotification (iface : string) (value : option bytes)
  | EData (iface : string) (value : option bytes)
  | EWritten (token : nat)
  | EWriteFailed (token : nat) (e : dbus_error)
  | EToggled (i : nat) (e : option dbus_error)
  | EPerform (notification_id : option Z) (positive : bool) (token : option Z) (reports : bool)
  | EActionsChanged
  | EProbeHealth
  | EManagerRetry | ESubscribeRetry | EAuthorizationRetry | ESettled | ETransportReset | ELegacyHealth | ERequestTimeout
  | EBusyRetry
  | ETime (d : Z).

(** An expired timer runs its callback. *)
Definition on_timer {A} (armed : Timers → option A) (m : M World ()) : M World () :=
  w ← get; match armed (tm w) with Some _ => m | None => mret () end.
(** BlueZ answers an unanswered write. *)
Definition answering (token : nat) (m : InFlight → M World ()) : M World () :=
  w ← get;
  match List.find (λ f, (if_token f =? token)%nat) (writes (rq w)) with
  | Some f => set_rq (λ x, x <| writes ::= List.filter (λ f, negb (if_token f =? token)%nat) |>);; m f
  | None => mret ()
  end.
Definition on_toggle (i : nat) (e : option dbus_error) : M World () :=
  w ← get;
  match toggles (rq w) !! i with
  | Some tg =>
      set_rq (λ x, x <| toggles ::= delete i |>);;
      match tg_starting tg, e with
      | false, None => stopped tg
      | false, Some e => stop_failed tg e
      | true, None => started tg
      | true, Some e => refresh_failed tg e
      end
  | None => mret ()
  end.
(** The characteristic receivers ignore a signal once their attempt is stale. *)
Definition receiving (m : M World ()) : M World () :=
  w ← get;
  match receivers (tr w) with
  | Some (generation, subscription_generation) =>
      when (_started (lc w) && (generation =? _bluez_owner_generation (lc w))
            && (subscription_generation =? _subscription_generation (tr w))) m
  | None => mret ()
  end.
Definition watching (m : M World ()) : M World () := w ← get; when (_manager_watches (lc w)) m.

Definition step (e : event) : M World () :=
  match e with
  | EStart => start
  | EStop => stop
  | EOwner old_owner new_owner => observe_bluez_owner old_owner new_owner
  | EBearer bearer legacy => observe_bearer_state bearer legacy
  | EAdded path uuid => watching (_on_iface_added path uuid)
  | ERemoved path => watching (_on_iface_removed path)
  | ENotification iface value => receiving (_on_ns_changed iface value)
  | EData iface value => receiving (_on_ds_changed iface value)
  | EWritten token => answering token written
  | EWriteFailed token e => answering token (λ f, write_failed f e)
  | EToggled i e => on_toggle i e
  | EPerform uid positive token reports => perform_notification_action uid positive token reports;; mret ()
  | EActionsChanged => notification_actions_changed
  | EProbeHealth => probe_health
  | EManagerRetry => on_timer _manager_retry_id _retry_manager_bind
  | ESubscribeRetry => on_timer _subscribe_retry_id _retry_subscribe
  | EAuthorizationRetry => on_timer _authorization_retry_id _retry_authorization
  | ESettled => on_timer _bearer_settle_id _finish_bearer_settle
  | ETransportReset => on_timer _transport_reset_id _request_transport_reset
  | ELegacyHealth => on_timer _legacy_health_id _check_legacy_health
  | ERequestTimeout => on_timer _request_timeout_id _request_timed_out
  | EBusyRetry => on_timer _cp_busy_retry_id _retry_busy_control_point
  | ETime d => modify (λ w : World, w <| clock ::= λ t, t + Z.max 0 d |>)
  end.
End client.

Definition World_init (previously_authorized : bool) (now : time) : World :=
  {| lc := mkLifecycle false 0 true false;
     tr := {| _ns_path := None; _ds_path := None; _cp_path := None; _notify_started := false; _authorized := false;
              health_proof := None; permission_denied := false; _was_authorized := previously_authorized;
              _bearer_connected := None; _subscription_generation := 0; _legacy_connected := false;
              _legacy_retry_delay := SUBSCRIBE_RETRY_SECONDS; _bearer_ready := false; _transport_blocked := false;
              _owned_notify_paths := ∅; _notify_refresh := None; _notify_refreshes := 0; receivers := None |};
     tm := mkTimers None None None None None None None None;
     rq := mkRequests (mkBacklog MAX_ANCS_REQUESTS [] ∅) None None [] [];
     ca := mkCaches [] [] ∅ ∅ [] false;
     ac := mkActions [] 1;
     clock := now; fresh := 0; log := [] |}.

Definition run (cfg : Config) (es : list (Env * event)) (w : World) : World := run_all ((λ '(env, e), step cfg env e) <$> es) w.

(** ** A session *)

Definition device : string := "/org/bluez/hci0/dev_AA".
Definition config : Config := mkConfig device true true true true true true true.
Definition env0 : Env :=
  {| include_non_message := true; include_app := λ _, true; actions_setting := true; write_value := λ _, WriteSent;
     add_receivers := None; start_notify := λ _, None; cached_notifying := λ _, None; stop_notify := λ _, None;
     toggle_refused := λ _ _, None;
     managed_objects := Some [(device +:+ "/s1/c1", Some NOTIFICATION_SOURCE_CHAR); (device +:+ "/s1/c2", Some DATA_SOURCE_CHAR);
                              (device +:+ "/s1/c3", Some CONTROL_POINT_CHAR)] |}.
Definition ascii_bytes (s : string) : bytes := Ascii.byte_of_ascii <$> String.list_ascii_of_string s.
Definition app_name_response (app name : string) : bytes :=
  [z2b 1] ++ ascii_bytes app ++ [z2b 0] ++ encode_attr 0 (ascii_bytes name).
Definition notification_bytes (kind flags uid : Z) : bytes := [z2b kind; z2b flags; z2b 4; z2b 1] ++ le_bytes 4 uid.
Definition app_id_response (uid : Z) (app : string) : bytes := [z2b 0] ++ le_bytes 4 uid ++ encode_attr 0 (ascii_bytes app).
Definition full_response (uid : Z) (app title label : string) : bytes :=
  app_id_response uid app ++ encode_attr 1 (ascii_bytes title) ++ encode_attr 2 [] ++ encode_attr 3 []
  ++ encode_attr 6 (ascii_bytes label).
Definition heard (value : bytes) : event := ENotification GATT_CHARACTERISTIC (Some value).
Definition told (value : bytes) : event := EData GATT_CHARACTERISTIC (Some value).
(** The client connects, and iOS accepts its probe. *)
Definition connecting : list event :=
  [EStart; EBearer (Some true) false; ESettled; EWritten 1; told (app_name_response "com.apple.MobileSMS" "Messages")].
(** A notification with one action is identified, read and named. *)
Definition delivering : list event :=
  [heard (notification_bytes 0 8 7); EWritten 3; told (app_id_response 7 "org.chat"); EWritten 5;
   told (full_response 7 "org.chat" "Hi" "Reply"); EWritten 7; told (app_name_response "org.chat" "Chat")].

Example session :
  let w := run config ((env0,.) <$> connecting ++ delivering ++ [EPerform (Some 7) true (Some 1) true; EWritten 10]) (World_init false 0) in
  (connected w, omap (λ a, match a with OnEvent e => Some (ev_notification_id e, ev_title e, ev_action_token e) | _ => None end) (log w),
   omap (λ a, match a with ActionResult _ r => Some r | _ => None end) (log w), _actionable (ac w)) =
  (true, [(7, lit "Hi", 1)], ["sent"], []).
Proof. vm_compute. reflexivity. Qed.
