(* ===== verification/AncsSafety.v ===== *)
(** * AncsSafety: what the ANCS client may write and deliver.

    One invariant of [AncsClient]'s state over its history: writes are
    serialized, content is asked for and delivered only for a notification
    whose app was identified and admitted in the running UID session, and an
    action is written for an offer that was made. *)
From S2P Require Import Prelude Wire PyStr Text Ancs Backlog AncsClient.

(** ** Histories *)

Section since.
Context {A : Type}.
Implicit Types (P stop : A → Prop) (l : list A).

(** [P] happened, and [stop] has not since. *)
Definition since P stop l : Prop := ∃ l1 a l2, l = l1 ++ a :: l2 ∧ P a ∧ Forall (λ b, ¬ stop b) l2.

Lemma since_snoc P stop l a : since P stop l → ¬ stop a → since P stop (l ++ [a]).
Proof.
  intros (l1 & b & l2 & -> & Hb & Hl2) Ha. exists l1, b, (l2 ++ [a]).
  split; [by rewrite <-app_assoc|]. split; [done|]. apply Forall_app. auto.
Qed.
Lemma since_now P stop l a : P a → since P stop (l ++ [a]).
Proof. intros Ha. exists l, a, []. auto. Qed.
Lemma since_app P stop l l' : since P stop l → Forall (λ b, ¬ stop b) l' → since P stop (l ++ l').
Proof.
  intros (l1 & b & l2 & -> & Hb & Hl2) Hl'. exists l1, b, (l2 ++ l').
  split; [by rewrite <-app_assoc|]. split; [done|]. apply Forall_app. auto.
Qed.

(** Every entry of a history satisfies [E] of what came before it. *)
Definition each (E : list A → A → Prop) l : Prop := ∀ l1 a l2, l = l1 ++ a :: l2 → E l1 a.
Lemma each_nil E : each E [].
Proof. intros l1 a l2 H. by destruct l1. Qed.
Lemma each_snoc E l a : each E l → E l a → each E (l ++ [a]).
Proof.
  intros Hl Ha l1 b l2 Heq. destruct l2 as [|c l2 _] using rev_ind.
  - apply app_inj_tail in Heq as [<- <-]. done.
  - rewrite app_comm_cons, app_assoc in Heq. apply app_inj_tail in Heq as [-> _]. by eapply Hl.
Qed.
End since.

(** The write BlueZ has not answered. *)
Definition outstanding_step (o : option nat) (a : action) : option nat :=
  match a with
  | Writing _ t => Some t
  | WriteAnswered t _ => if bool_decide (o = Some t) then None else o
  | OwnerChanged => None
  | _ => o
  end.
Definition outstanding (l : list action) : option nat := foldl outstanding_step None l.

(** What ends the life of a notification's UID, and what takes its offers back. *)
Definition ends (uid : Z) (a : action) : Prop :=
  match a with SessionEnded => True | Heard n => n_id n = uid ∧ n_type n = EventID.NotificationRemoved | _ => False end.
Definition retires (uid : Z) (a : action) : Prop :=
  match a with ActionsRetired => True | Heard n => n_id n = uid | _ => False end.

(** A new or modified notification, in the session that runs. *)
Definition live (n : Notification) (l : list action) : Prop :=
  n_type n ≠ EventID.NotificationRemoved ∧ is_preexisting n = false ∧ since (λ a, a = Heard n) (ends (n_id n)) l.
(** The policy lets the content of [app_id] be read. *)
Definition admits (app_id : ustr) (all_apps this_app : bool) : Prop :=
  app_id = MESSAGES_APP_ID ∨ (app_id_ok app_id = true ∧ all_apps = true ∧ this_app = true).
Definition admitted (n : Notification) (app_id : ustr) (l : list action) : Prop :=
  since (λ a, ∃ all_apps this_app, a = Identified n app_id all_apps this_app ∧ admits app_id all_apps this_app) (ends (n_id n)) l.
Definition named (app_id : ustr) (l : list action) : Prop := ∃ n, Identified n app_id true true ∈ l ∧ app_id_ok app_id = true.
Definition offers (a : _ActionRequest) (token : Z) (e : AncsEvent) : Prop :=
  ev_notification_id e = ar_uid a ∧ ev_action_token e = token
  ∧ (if ar_positive a then ev_positive_action_label e else ev_negative_action_label e) ≠ [].
Definition offered (a : _ActionRequest) (token : Z) (l : list action) : Prop :=
  since (λ x, ∃ e, x = OnEvent e ∧ offers a token e) (retires (ar_uid a)) l.

(** What justifies the bytes of a write. *)
Definition content_packet (uid : Z) (label_ids : list Z) : result bytes :=
  build_get_notification_attributes uid ANCS_TITLE_MAX_BYTES ANCS_SUBTITLE_MAX_BYTES ANCS_MESSAGE_MAX_BYTES label_ids.
Definition action_packet (a : _ActionRequest) : result bytes :=
  build_perform_notification_action (ar_uid a) (if ar_positive a then ActionID.Positive else ActionID.Negative).
Inductive justified (l : list action) (r : _PendingRequest) : Prop :=
  | justified_probe : build_get_app_attributes MESSAGES_APP_ID = Ok (pr_packet r) → pr_action r = None → justified l r
  | justified_name app_id :
      build_get_app_attributes app_id = Ok (pr_packet r) → named app_id l → pr_action r = None → justified l r
  | justified_identify n :
      build_get_notification_app_identifier (n_id n) = Ok (pr_packet r) → live n l → pr_action r = None → justified l r
  | justified_content n app_id label_ids :
      content_packet (n_id n) label_ids = Ok (pr_packet r) → admitted n app_id l → pr_action r = None → justified l r
  | justified_action a token :
      action_packet a = Ok (pr_packet r) → pr_action r = Some a → Asked a token ∈ l →
      (pr_busy_retries r = 0 → since (λ x, x = Asked a token) (retires (ar_uid a)) l) → justified l r.

(** What each entry of a history owes. *)
Definition entry_ok (l : list action) (a : action) : Prop :=
  match a with
  | Writing r _ => outstanding l = None ∧ justified l r
  | OnEvent e => ∃ n, n_id n = ev_notification_id e ∧ admitted n (ev_app_id e) l
  | Asked a token => offered a token l
  | _ => True
  end.

(** ** The invariant *)

(** What a request's fields say of each other. *)
Definition shape_ok (r : _PendingRequest) : Prop :=
  0 ≤ pr_busy_retries r ∧
  match pr_notification r, pr_action r with
  | Some n, None =>
      pr_authorization_probe r = false
      ∧ (∃ a, pr_assembler r = Some a ∧ as_command a = CommandID.GetNotificationAttributes ∧ as_notification_id a = Some (n_id n))
      ∧ (if pr_app_probe r then build_get_notification_app_identifier (n_id n) = Ok (pr_packet r)
         else ∃ label_ids, content_packet (n_id n) label_ids = Ok (pr_packet r))
  | None, Some a => action_packet a = Ok (pr_packet r) ∧ pr_authorization_probe r = false ∧ pr_assembler r = None
  | None, None =>
      (∃ a, pr_assembler r = Some a ∧ as_command a = CommandID.GetAppAttributes)
      ∧ ∃ app_id, build_get_app_attributes app_id = Ok (pr_packet r)
                  ∧ (pr_authorization_probe r = true → app_id = MESSAGES_APP_ID)
  | Some _, Some _ => False
  end.
(** What the history says for a request; [fresh] when it was not yet tried. *)
Definition grounded (fresh : Prop) (l : list action) (r : _PendingRequest) : Prop :=
  match pr_notification r, pr_action r with
  | Some n, _ =>
      if pr_app_probe r then live n l else ∃ app_id, pr_expected_app_id r = Some app_id ∧ admitted n app_id l
  | None, Some a =>
      ∃ token, Asked a token ∈ l
               ∧ (fresh → pr_busy_retries r = 0 → since (λ x, x = Asked a token) (retires (ar_uid a)) l)
  | None, None =>
      pr_authorization_probe r = true ∨ ∃ app_id, build_get_app_attributes app_id = Ok (pr_packet r) ∧ named app_id l
  end.
Definition queued_ok (l : list action) (kr : string * _PendingRequest) : Prop :=
  pr_discarded kr.2 = false ∧ shape_ok kr.2 ∧ grounded True l kr.2.
Definition active_ok (l : list action) (r : _PendingRequest) : Prop :=
  shape_ok r ∧ (pr_discarded r = false → grounded False l r).
Definition pending_ok (l : list action) (app_id : ustr) (a : NotificationAttributes) : Prop :=
  na_app_id a = app_id ∧ ∃ n, n_id n = na_id a ∧ admitted n app_id l.
Definition offer_ok (l : list action) (x : Z * _Actionable) : Prop :=
  ∀ a, ar_uid a = x.1 → (if ar_positive a then aa_positive x.2 else aa_negative x.2) = true → offered a (aa_token x.2) l.
Definition toggle_ok (tg : Toggle) : Prop := build_get_app_attributes MESSAGES_APP_ID = Ok (pr_packet (tg_request tg)).

Record J (w : World) : Prop := {
  j_token : outstanding (log w) = _cp_write_token (rq w);
  j_log : each entry_ok (log w);
  j_queue : ∀ kr, kr ∈ rb_queue (_request_queue (rq w)) → queued_ok (log w) kr;
  j_active : ∀ r, _active_request (rq w) = Some r → active_ok (log w) r;
  j_pending : ∀ app_id l a, _pending_app_lookups (ca w) !! app_id = Some l → a ∈ l → pending_ok (log w) app_id a;
  j_offers : ∀ x, x ∈ _actionable (ac w) → offer_ok (log w) x;
  j_toggles : ∀ tg, tg ∈ toggles (rq w) → toggle_ok tg;
}.

(** An entry that ends no UID and takes no offer back. *)
Definition calm (a : action) : bool := match a with Heard _ | SessionEnded | ActionsRetired => false | _ => true end.
Lemma calm_ends uid a : calm a = true → ¬ ends uid a.
Proof. destruct a; cbn; intros; first [discriminate | tauto]. Qed.
Lemma calm_retires uid a : calm a = true → ¬ retires uid a.
Proof. destruct a; cbn; intros; first [discriminate | tauto]. Qed.

Section calm.
Context (l : list action) (a : action) (Ha : calm a = true).
Lemma admitted_calm n app_id : admitted n app_id l → admitted n app_id (l ++ [a]).
Proof using Ha. intros H. apply since_snoc; [exact H|]. by apply calm_ends. Qed.
Lemma live_calm n : live n l → live n (l ++ [a]).
Proof using Ha. intros (H1 & H2 & H3). split; [done|]. split; [done|]. apply since_snoc; [done|]. by apply calm_ends. Qed.
Lemma named_snoc b app_id : named app_id l → named app_id (l ++ [b]).
Proof. intros (n & H1 & H2). exists n. rewrite elem_of_app. auto. Qed.
Lemma offered_calm x token : offered x token l → offered x token (l ++ [a]).
Proof using Ha. intros H. apply since_snoc; [exact H|]. by apply calm_retires. Qed.
Lemma grounded_calm fresh r : grounded fresh l r → grounded fresh (l ++ [a]) r.
Proof using Ha.
  unfold grounded. destruct (pr_notification r) as [n|].
  - destruct (pr_app_probe r); [apply live_calm|]. intros (app & H1 & H2). exists app. split; [done|]. by apply admitted_calm.
  - destruct (pr_action r) as [x|].
    + intros (token & H1 & H2). exists token. split; [apply elem_of_app; auto|]. intros Hf Hb.
      apply since_snoc; [by apply H2|]. by apply calm_retires.
    + intros [H|(app & H1 & H2)]; [by left|]. right. exists app. split; [done|]. by apply named_snoc.
Qed.
Lemma queued_calm kr : queued_ok l kr → queued_ok (l ++ [a]) kr.
Proof using Ha. intros (H1 & H2 & H3). split; [done|]. split; [done|]. by apply grounded_calm. Qed.
Lemma active_calm r : active_ok l r → active_ok (l ++ [a]) r.
Proof using Ha. intros (H1 & H2). split; [done|]. intros Hd. by apply grounded_calm, H2. Qed.
Lemma pending_calm app_id x : pending_ok l app_id x → pending_ok (l ++ [a]) app_id x.
Proof using Ha. intros (H1 & n & H2 & H3). split; [done|]. exists n. split; [done|]. by apply admitted_calm. Qed.
Lemma offer_calm x : offer_ok l x → offer_ok (l ++ [a]) x.
Proof using Ha. intros H y Hy Hf. by apply offered_calm, H. Qed.
End calm.

Lemma grounded_weaken l r : grounded True l r → grounded False l r.
Proof.
  unfold grounded. destruct (pr_notification r), (pr_action r); try done.
  intros (token & H & _). exists token. split; [done|]. done.
Qed.
Lemma outstanding_snoc l a : outstanding (l ++ [a]) = outstanding_step (outstanding l) a.
Proof. unfold outstanding. by rewrite foldl_app. Qed.

(** A new entry that is calm. *)
Lemma J_entry w w' a :
  J w → log w' = log w ++ [a] → calm a = true → entry_ok (log w) a →
  _cp_write_token (rq w') = outstanding_step (_cp_write_token (rq w)) a →
  rb_queue (_request_queue (rq w')) = rb_queue (_request_queue (rq w)) → _active_request (rq w') = _active_request (rq w) →
  toggles (rq w') = toggles (rq w) → _pending_app_lookups (ca w') = _pending_app_lookups (ca w) →
  _actionable (ac w') = _actionable (ac w) → J w'.
Proof.
  intros [H1 H2 H3 H4 H5 H6 H7] Hl Ha He Ht Hq Hr Hg Hp Ho. split; rewrite ?Hl, ?Hq, ?Hr, ?Hg, ?Hp, ?Ho.
  - rewrite outstanding_snoc, Ht. by rewrite H1.
  - by apply each_snoc.
  - intros kr Hkr. apply queued_calm; auto.
  - intros r Hr'. apply active_calm; auto.
  - intros app l x Hl' Hx. apply pending_calm; eauto.
  - intros x Hx. apply offer_calm; auto.
  - done.
Qed.
Lemma J_emit a : calm a = true → (∀ l, entry_ok l a) → (∀ o, outstanding_step o a = o) → stable J (emit a).
Proof. intros Ha He Ho w Hw. by eapply (J_entry w _ a). Qed.

(** Forgetting is always right. *)
Lemma J_less w w' :
  J w → log w' = log w → _cp_write_token (rq w') = _cp_write_token (rq w) →
  (∀ kr, kr ∈ rb_queue (_request_queue (rq w')) → kr ∈ rb_queue (_request_queue (rq w))) →
  (∀ r, _active_request (rq w') = Some r → _active_request (rq w) = Some r) →
  (∀ tg, tg ∈ toggles (rq w') → tg ∈ toggles (rq w)) →
  (∀ app_id l, _pending_app_lookups (ca w') !! app_id = Some l → ∃ l', _pending_app_lookups (ca w) !! app_id = Some l' ∧ l ⊆ l') →
  (∀ x, x ∈ _actionable (ac w') → x ∈ _actionable (ac w)) → J w'.
Proof.
  intros [H1 H2 H3 H4 H5 H6 H7] Hl Ht Hq Hr Hg Hp Ho. split; rewrite ?Hl, ?Ht; auto.
  intros app l a Hl' Ha. destruct (Hp app l Hl') as (l' & Hl'' & Hsub). eauto.
Qed.
Ltac less := intros ? ?; eapply J_less; [eassumption|..]; cbn; try done; eauto.

Lemma J_set_lc f : stable J (set_lc f). Proof. less. Qed.
Lemma J_set_tr f : stable J (set_tr f). Proof. less. Qed.
Lemma J_set_tm f : stable J (set_tm f). Proof. less. Qed.
Lemma J_set_ca f : (∀ c, _pending_app_lookups (f c) = _pending_app_lookups c) → stable J (set_ca f).
Proof. intros Hf. less; rewrite Hf; eauto. Qed.
Lemma J_set_ca_less f :
  (∀ c app_id l, _pending_app_lookups (f c) !! app_id = Some l → ∃ l', _pending_app_lookups c !! app_id = Some l' ∧ l ⊆ l') →
  stable J (set_ca f).
Proof. intros Hf. less. Qed.
Lemma J_set_ac f : (∀ a x, x ∈ _actionable (f a) → x ∈ _actionable a) → stable J (set_ac f).
Proof. intros Hf. less. Qed.
Lemma J_tick : stable J tick. Proof. less. Qed.
Lemma J_idle : stable J (set_rq (λ x, x <| _active_request := None |>)). Proof. less. Qed.
Lemma J_writes f : stable J (set_rq (λ x, x <| writes ::= f |>)). Proof. less. Qed.
Lemma J_on_queue {A} (m : M (RequestBacklog _PendingRequest) A) :
  (∀ b kr, kr ∈ rb_queue (m b).2 → kr ∈ rb_queue b) → stable J (on_queue m).
Proof.
  intros Hm w Hw. unfold on_queue. specialize (Hm (_request_queue (rq w))).
  destruct (m (_request_queue (rq w))) as [r q] eqn:E. cbn in *. eapply J_less; [eassumption|..]; cbn; try done; eauto.
Qed.
Lemma J_finish k : stable J (on_queue (finish k)).
Proof. apply J_on_queue. done. Qed.
Lemma J_clear : stable J (on_queue clear).
Proof. apply J_on_queue. cbn. intros b kr H. by apply elem_of_nil in H. Qed.
Lemma remove_if_subseteq {T} (p : T → bool) b kr : kr ∈ rb_queue (remove_if p b).2 → kr ∈ rb_queue b ∧ p kr.2 = false.
Proof.
  unfold remove_if. monad_simpl. rewrite remove_loop_spec. cbn. rewrite list_elem_of_In, filter_In, <-list_elem_of_In.
  intros [H1 H2]. by destruct (p kr.2).
Qed.
Lemma J_remove_if p : stable J (on_queue (remove_if p)).
Proof. apply J_on_queue. intros b kr H. by apply remove_if_subseteq in H as [H _]. Qed.

(** ** Callbacks *)

(** Callbacks and results: entries no theorem looks back to. *)
Definition note (a : action) : bool :=
  match a with
  | OnStatus | OnTransportFailure | OnCallActivity _ | OnRemoved _ | OnSessionReset | OnNotificationRemoved _ | OnActionsReset
  | ActionResult _ _ => true
  | _ => false
  end.
Definition noted (w w' : World) : Prop := ∃ l, Forall (λ a, note a = true) l ∧ w' = w <| log ::= λ l0, l0 ++ l |>.
#[export] Instance noted_preorder : PreOrder noted.
Proof.
  split.
  - intros w. exists []. split; [done|]. destruct w; cbn. by rewrite app_nil_r.
  - intros w1 w2 w3 (l1 & H1 & ->) (l2 & H2 & ->). exists (l1 ++ l2). split; [by apply Forall_app|]. destruct w1; cbn. by rewrite app_assoc.
Qed.
Lemma noted_emit a : note a = true → keeps noted (emit a).
Proof. intros Ha w. exists [a]. split; [by constructor|done]. Qed.
Ltac noted := repeat first [progress keeps | apply noted_emit; done].

Lemma J_note a : note a = true → stable J (emit a).
Proof. intros Ha. by apply J_emit; destruct a. Qed.
Lemma J_noted w w' : noted w w' → J w → J w'.
Proof.
  intros (l & Hl & ->) Hw. induction l as [|a l IH] using rev_ind.
  - destruct w; cbn in *. by rewrite app_nil_r.
  - apply Forall_app in Hl as [Hl Ha]. apply Forall_inv in Ha. specialize (IH Hl).
    pose proof (J_note a Ha _ IH) as H. cbn in H. destruct w; cbn in *. by rewrite app_assoc.
Qed.
Lemma J_keeps_noted {A} (m : M World A) : keeps noted m → stable J m.
Proof. intros Hm w Hw. exact (J_noted w _ (Hm w) Hw). Qed.

Lemma report_noted a res : keeps noted (_report_action a res).
Proof. unfold _report_action. noted. Qed.
Lemma report_all_noted removed res : keeps noted (report_all removed res).
Proof.
  induction removed as [|r removed IH]; cbn; [noted|]. apply keeps_bind; [apply _| |intros _; exact IH].
  destruct (pr_action r); [apply report_noted|noted].
Qed.
Lemma status_noted cfg : keeps noted (on_status cfg).
Proof. unfold on_status. noted. Qed.
Lemma status_if_noted cfg b : keeps noted (status_if cfg b).
Proof. unfold status_if. apply keeps_when; [apply _|apply status_noted]. Qed.
Lemma activity_noted cfg n : keeps noted (_report_call_activity cfg n).
Proof. unfold _report_call_activity. noted. Qed.

Definition drops (p : _ActionRequest → bool) (r : _PendingRequest) : bool := match pr_action r with Some a => p a | None => false end.
Lemma drop_spec p res w :
  ∃ n, (_drop_queued_actions p res w).1 = Ok n ∧ noted (on_queue (remove_if (drops p)) w).2 (_drop_queued_actions p res w).2.
Proof.
  unfold _drop_queued_actions. rewrite M_bind_eq. change (λ r : _PendingRequest, match pr_action r with Some a => p a | None => false end) with (drops p).
  destruct (on_queue (remove_if (drops p)) w) as [r w1] eqn:E.
  assert (∃ l, r = Ok l) as [l ->].
  { unfold on_queue, remove_if in E. revert E. monad_simpl.
    destruct (remove_loop _ _ _) as [[? ?] ?]. cbn. intros [= <- _]. eauto. }
  rewrite M_bind_eq. pose proof (report_all_noted l res w1) as H. cbn [snd].
  assert (∃ u, (report_all l res w1).1 = Ok u) as [u Hu].
  { clear E H. revert w1. induction l as [|x l IH]; intros w1; cbn; [eauto|].
    rewrite M_bind_eq. destruct (pr_action x) as [a|]; cbn; [|apply IH]. unfold _report_action. destruct (ar_reports a); cbn; apply IH. }
  destruct (report_all l res w1) as [r w2]. cbn in *. subst r. eauto.
Qed.
Lemma noted_same w w' : noted w w' → ca w' = ca w ∧ rq w' = rq w ∧ ac w' = ac w ∧ tr w' = tr w ∧ tm w' = tm w ∧ lc w' = lc w.
Proof. by intros (l & _ & ->). Qed.
Lemma drop_J p res : stable J (_drop_queued_actions p res).
Proof. intros w Hw. destruct (drop_spec p res w) as (n & _ & H). eapply J_noted; [exact H|]. by apply J_remove_if. Qed.

(** ** Taking offers back *)

Lemma J_retired w : J w → _actionable (ac w) = [] → (∀ kr, kr ∈ rb_queue (_request_queue (rq w)) → pr_action kr.2 = None) →
  J (w <| log ::= λ l, l ++ [ActionsRetired] |>).
Proof.
  intros [H1 H2 H3 H4 H5 H6 H7] Hac Hq.
  assert (∀ uid, ¬ ends uid ActionsRetired) as Hends by (intros uid []).
  assert (∀ n app, admitted n app (log w) → admitted n app (log w ++ [ActionsRetired])) as Hadm.
  { intros n app H. by apply since_snoc. }
  assert (∀ r, grounded False (log w) r → grounded False (log w ++ [ActionsRetired]) r) as Hg.
  { intros r. unfold grounded. destruct (pr_notification r) as [n|].
    - destruct (pr_app_probe r).
      + intros (Ha & Hb & Hc). split; [done|]. split; [done|]. by apply since_snoc.
      + intros (app & Ha & Hb). eauto.
    - destruct (pr_action r) as [a|].
      + intros (token & Ha & _). exists token. split; [apply elem_of_app; auto|done].
      + intros [H|(app & Ha & Hb)]; [by left|]. right. exists app. split; [done|]. by apply named_snoc. }
  split; cbn; auto.
  - by rewrite outstanding_snoc.
  - by apply each_snoc.
  - intros kr Hkr. destruct (H3 kr Hkr) as (Ha & Hb & Hc). split; [done|]. split; [done|].
    pose proof (Hg _ (grounded_weaken _ _ Hc)) as Hd. unfold grounded in *. by rewrite (Hq kr Hkr) in *.
  - intros r Hr. destruct (H4 r Hr) as (Ha & Hb). split; [done|]. auto.
  - intros app l a Hl Ha. destruct (H5 app l a Hl Ha) as (Hb & n & Hc & Hd). split; [done|]. eauto.
  - rewrite Hac. intros x Hx%elem_of_nil. done.
Qed.
Lemma reset_actions_J cfg : stable J (_reset_actions cfg).
Proof.
  intros w Hw. set (w1 := w <| ac ::= λ a, a <| _actionable := [] |> |>).
  change (_reset_actions cfg w) with
    ((dropped ← _drop_queued_actions (λ _, true) ACTION_UNAVAILABLE;
      emit ActionsRetired;;
      when ((negb (bool_decide (_actionable (ac w) = [])) || negb (dropped =? 0)) && has_actions_reset cfg) (emit OnActionsReset)) w1).
  assert (J w1) as Hw1 by (subst w1; eapply J_less; [exact Hw|..]; cbn; try done; eauto; intros x Hx%elem_of_nil; done).
  rewrite M_bind_eq. destruct (drop_spec (λ _, true) ACTION_UNAVAILABLE w1) as (n & Hn & Hno).
  destruct (_drop_queued_actions _ _ w1) as [r w2]. cbn in Hn, Hno. subst r.
  rewrite M_bind_eq. unfold emit at 1, modify. cbv beta iota.
  set (w3 := w2 <| log ::= λ l, l ++ [ActionsRetired] |>).
  assert (J w3) as Hw3.
  { subst w3. destruct (noted_same _ _ Hno) as (_ & Hrq & Hac & _). apply J_retired.
    - eapply J_noted; [exact Hno|]. by apply J_remove_if.
    - rewrite Hac. unfold on_queue. by destruct (remove_if _ _).
    - intros kr. rewrite Hrq. unfold on_queue. destruct (remove_if _ _) as [x q] eqn:E. cbn. intros Hkr.
      change q with (x, q).2 in Hkr. rewrite <-E in Hkr. apply remove_if_subseteq in Hkr as [_ Hkr].
      unfold drops in Hkr. by destruct (pr_action kr.2). }
  apply J_keeps_noted; [|exact Hw3]. noted.
Qed.

(** ** Ending a session *)

Definition discarded_of (r : _PendingRequest) : _PendingRequest :=
  r <| pr_discarded := true |> <| pr_key := "retired:" +:+ pr_key r |>.
Lemma on_queue_spec {A} (m : M (RequestBacklog _PendingRequest) A) w :
  (on_queue m w).2 = w <| rq ::= λ x, x <| _request_queue := (m (_request_queue (rq w))).2 |> |>.
Proof. unfold on_queue. by destruct (m _). Qed.
Lemma remove_if_ok {T} (p : T → bool) b : ∃ l, (remove_if p b).1 = Ok l.
Proof. unfold remove_if. monad_simpl. destruct (remove_loop _ _ _) as [[? ?] ?]. eauto. Qed.

(** What is left of the requests and lookups that concern [uid]. *)
Definition discarded_from (uid : option Z) (w w' : World) : Prop :=
  log w' = log w ∧ _cp_write_token (rq w') = _cp_write_token (rq w) ∧ toggles (rq w') = toggles (rq w)
  ∧ _actionable (ac w') = _actionable (ac w)
  ∧ (∀ kr, kr ∈ rb_queue (_request_queue (rq w')) → kr ∈ rb_queue (_request_queue (rq w)) ∧ concerns uid kr.2 = false)
  ∧ (∀ r', _active_request (rq w') = Some r' →
       (_active_request (rq w) = Some r' ∧ (concerns uid r' = true → pr_discarded r' = true))
       ∨ ∃ r, _active_request (rq w) = Some r ∧ r' = discarded_of r)
  ∧ _pending_app_lookups (ca w') = omap (retire_pending uid) (_pending_app_lookups (ca w)).
Lemma discard_spec uid w :
  (_discard_notification_requests uid w).1 = Ok () ∧ discarded_from uid w (_discard_notification_requests uid w).2.
Proof.
  unfold _discard_notification_requests. rewrite M_bind_eq.
  pose proof (on_queue_spec (remove_if (concerns uid)) w) as Hq. destruct (remove_if_ok (concerns uid) (_request_queue (rq w))) as [l Hl].
  assert ((on_queue (remove_if (concerns uid)) w).1 = Ok l) as Hr.
  { unfold on_queue. destruct (remove_if _ _) as [x q]. cbn in *. congruence. }
  destruct (on_queue _ w) as [x w1]. cbn in Hr, Hq. subst x w1. cbn.
  set (q := (remove_if (concerns uid) (_request_queue (rq w))).2).
  assert (∀ kr, kr ∈ rb_queue q → kr ∈ rb_queue (_request_queue (rq w)) ∧ concerns uid kr.2 = false) as Hsub.
  { intros kr Hkr. by apply remove_if_subseteq in Hkr. }
  unfold set_rq, set_ca, on_queue, finish. monad_simpl. cbn.
  destruct (_active_request (rq w)) as [r|] eqn:Er; cbn.
  - destruct (concerns uid r) eqn:Ec; cbn; [destruct (pr_discarded r) eqn:Ed; cbn|]; (split; [done|]); unfold discarded_from; cbn; split_and!; try done;
      try (intros Hk; by apply Hsub); rewrite ?Er; intros r' [= <-]; try (left; split; [done|]; intros; congruence).
    right. by exists r.
  - split; [done|]. unfold discarded_from. cbn. rewrite Er. by split_and!.
Qed.

Lemma discarded_shape r : shape_ok r → shape_ok (discarded_of r).
Proof. done. Qed.
Lemma retire_pending_some uid l l' : retire_pending uid l = Some l' → ∀ a, a ∈ l' → a ∈ l ∧ ∃ u, uid = Some u ∧ na_id a ≠ u.
Proof.
  unfold retire_pending. intros H a Ha.
  assert (l' = List.filter (λ a, match uid with Some u => negb (na_id a =? u) | None => false end) l) as ->
    by (destruct (List.filter _ l); congruence).
  rewrite list_elem_of_In, filter_In, <-list_elem_of_In in Ha. destruct Ha as [H1 H2]. split; [done|].
  destruct uid as [u|]; [|done]. exists u. split; [done|]. intros Heq. by rewrite Heq, Z.eqb_refl in H2.
Qed.
Lemma discarded_pending uid w w' app_id l a :
  discarded_from uid w w' → _pending_app_lookups (ca w') !! app_id = Some l → a ∈ l →
  (∃ l0, _pending_app_lookups (ca w) !! app_id = Some l0 ∧ a ∈ l0) ∧ ∃ u, uid = Some u ∧ na_id a ≠ u.
Proof.
  intros (_ & _ & _ & _ & _ & _ & Hp). rewrite Hp, lookup_omap. intros Hl Ha.
  destruct (_pending_app_lookups (ca w) !! app_id) as [l0|] eqn:E; [|done]. cbn in Hl.
  destruct (retire_pending_some _ _ _ Hl a Ha) as (H1 & H2). split; [eauto|done].
Qed.
Lemma discarded_J uid w w' : discarded_from uid w w' → J w → J w'.
Proof.
  intros Hd [H1 H2 H3 H4 H5 H6 H7]. pose proof (discarded_pending uid w w') as Hp.
  destruct Hd as (Hl & Ht & Hg & Ho & Hq & Hr & Hpe) eqn:E. split; rewrite ?Hl, ?Ht, ?Hg, ?Ho; try done.
  - intros kr Hkr. by apply H3, Hq.
  - intros r' Hr'. destruct (Hr r' Hr') as [[Hr0 _]|(r & Hr0 & ->)]; [by apply H4|].
    destruct (H4 r Hr0) as [Ha _]. split; [by apply discarded_shape|done].
  - intros app l a Hl' Ha. destruct (Hp app l a ltac:(done) Hl' Ha) as ((l0 & Hb & Hc) & _). eauto.
Qed.

(** Nothing is left that a UID session's end would leave without ground. *)
Lemma J_session w : J w →
  (∀ kr, kr ∈ rb_queue (_request_queue (rq w)) → concerns None kr.2 = false) →
  (∀ r, _active_request (rq w) = Some r → concerns None r = true → pr_discarded r = true) →
  (∀ app_id l a, _pending_app_lookups (ca w) !! app_id = Some l → a ∈ l → False) →
  J (w <| log ::= λ l, l ++ [SessionEnded] |>).
Proof.
  intros [H1 H2 H3 H4 H5 H6 H7] Hq Hr Hp.
  assert (∀ x token, offered x token (log w) → offered x token (log w ++ [SessionEnded])) as Hoff.
  { intros x token H. apply since_snoc; [exact H|]. by intros []. }
  assert (∀ fresh r, pr_notification r = None → grounded fresh (log w) r → grounded fresh (log w ++ [SessionEnded]) r) as Hg.
  { intros fresh r Hn. unfold grounded. rewrite Hn. destruct (pr_action r) as [a|].
    - intros (token & Ha & Hb). exists token. split; [apply elem_of_app; auto|]. intros Hf Hbr. apply since_snoc; [by apply Hb|]. by intros [].
    - intros [H|(app & Ha & Hb)]; [by left|]. right. exists app. split; [done|]. by apply named_snoc. }
  assert (∀ r, concerns None r = false → pr_notification r = None) as Hc by (intros r; unfold concerns; by destruct (pr_notification r)).
  split; cbn; auto.
  - by rewrite outstanding_snoc.
  - by apply each_snoc.
  - intros kr Hkr. destruct (H3 kr Hkr) as (Ha & Hb & Hd). split; [done|]. split; [done|]. apply Hg; [|done]. by apply Hc, Hq.
  - intros r Hr'. destruct (H4 r Hr') as (Ha & Hb). split; [done|]. intros Hd.
    destruct (concerns None r) eqn:E; [by rewrite (Hr r Hr' E) in Hd|]. apply Hg; auto.
  - intros app l a Hl Ha. destruct (Hp app l a Hl Ha).
  - intros x Hx a Ha Hf. by apply Hoff, H6.
Qed.
Lemma end_session_J cfg : stable J (_end_session cfg).
Proof.
  intros w Hw. set (w1 := w <| ca ::= λ c, c <| _live_events_seen := false |> |>).
  change (_end_session cfg w) with
    ((_discard_notification_requests None;; emit SessionEnded;; when (has_session_reset cfg) (emit OnSessionReset)) w1).
  assert (J w1) as Hw1 by (subst w1; eapply J_less; [exact Hw|..]; cbn; try done; eauto).
  rewrite M_bind_eq. destruct (discard_spec None w1) as [Hr Hd].
  destruct (_discard_notification_requests None w1) as [r w2]. cbn in Hr, Hd. subst r.
  rewrite M_bind_eq. unfold emit at 1, modify. cbv beta iota.
  assert (J w2) as Hw2 by by eapply discarded_J.
  set (w3 := w2 <| log ::= λ l, l ++ [SessionEnded] |>).
  assert (J w3) as Hw3.
  { subst w3. pose proof Hd as (_ & _ & _ & _ & Hq & Ha & _). apply J_session; [done|..].
    - intros kr Hkr. by apply Hq.
    - intros r Hr Hc. destruct (Ha r Hr) as [[_ H]|(r0 & _ & ->)]; [by apply H|done].
    - intros app l a Hl Hin. by destruct (discarded_pending _ _ _ _ _ _ Hd Hl Hin) as (_ & u & ? & _). }
  apply J_keeps_noted; [|exact Hw3]. noted.
Qed.

(** ** Delivering events *)

Lemma od_bound_subseteq {A} n (d : list A) x : x ∈ od_bound n d → x ∈ d.
Proof. unfold od_bound. intros Hx. rewrite <-(take_drop (Z.to_nat (zlen d - n)) d). apply elem_of_app. by right. Qed.
Lemma od_set_last_elem {K V} `{EqDecision K} (k : K) (v : V) d x : x ∈ od_set_last k v d → x = (k, v) ∨ x ∈ d.
Proof.
  unfold od_set_last, od_pop. rewrite elem_of_app, list_elem_of_filter, list_elem_of_singleton. naive_solver.
Qed.
Lemma od_pop_subseteq {K V} `{EqDecision K} (k : K) (d : list (K * V)) x : x ∈ od_pop k d → x ∈ d.
Proof. unfold od_pop. rewrite list_elem_of_filter. naive_solver. Qed.

(** The event of a delivery. *)
Definition event_of (w : World) (attrs : NotificationAttributes) (app_name : ustr) : AncsEvent :=
  {| ev_notification_id := na_id attrs; ev_app_id := na_app_id attrs; ev_app_name := app_name; ev_title := na_title attrs;
     ev_subtitle := na_subtitle attrs; ev_body := na_message attrs;
     ev_category := default CategoryID.Other (od_get (na_id attrs) (_categories (ca w)));
     ev_positive_action_label := na_positive_action_label attrs; ev_negative_action_label := na_negative_action_label attrs;
     ev_action_token := 0 |}.

Definition deliverable (l : list action) (a : NotificationAttributes) : Prop := ∃ n, n_id n = na_id a ∧ admitted n (na_app_id a) l.
Lemma deliverable_calm l x a : calm a = true → deliverable l x → deliverable (l ++ [a]) x.
Proof. intros Ha (n & H1 & H2). exists n. split; [done|]. by apply admitted_calm. Qed.

Lemma remember_spec e w :
  ∃ e' : AncsEvent, (_remember_actionable e w).1 = Ok e' ∧ ev_notification_id e' = ev_notification_id e ∧ ev_app_id e' = ev_app_id e
  ∧ log (_remember_actionable e w).2 = log w ∧ rq (_remember_actionable e w).2 = rq w ∧ ca (_remember_actionable e w).2 = ca w
  ∧ ∀ x, x ∈ _actionable (ac (_remember_actionable e w).2) →
      x ∈ _actionable (ac w)
      ∨ (x.1 = ev_notification_id e ∧ ∀ a, ar_uid a = x.1 → (if ar_positive a then aa_positive x.2 else aa_negative x.2) = true →
                                           offers a (aa_token x.2) e').
Proof.
  unfold _remember_actionable. destruct (negb _) eqn:E.
  - exists e. unfold mret, M_ret. cbn. split_and!; auto.
  - unfold set_ac. monad_simpl. cbn. eexists. split_and!; [reflexivity|done..|].
    intros x [->|Hx]%od_bound_subseteq%od_set_last_elem; [|by left]. right. split; [done|]. cbn. intros a Ha Hf.
    unfold offers. cbn. split; [done|]. split; [done|]. destruct (ar_positive a); by apply negb_true_iff, bool_decide_eq_false in Hf.
Qed.
Lemma emit_event_J env attrs app_name w : J w → deliverable (log w) attrs →
  ∃ e, (_emit env attrs app_name w).1 = Ok () ∧ log (_emit env attrs app_name w).2 = log w ++ [OnEvent e] ∧ J (_emit env attrs app_name w).2.
Proof.
  intros Hw (n & Hn & Had). unfold _emit. rewrite M_bind_eq. unfold get. fold (event_of w attrs app_name).
  set (e0 := event_of w attrs app_name).
  destruct (actions_setting env).
  - destruct (remember_spec e0 w) as (e & He & Hid & Happ & Hl & Hrq & Hca & Hac). exists e. rewrite M_bind_eq.
    destruct (_remember_actionable e0 w) as [r w1]. cbn in He, Hl, Hrq, Hca, Hac |- *. subst r. cbn. rewrite Hl.
    split; [done|]. split; [done|].
    assert (entry_ok (log w) (OnEvent e)) as Hok by (exists n; by rewrite Hid, Happ).
    destruct Hw as [H1 H2 H3 H4 H5 H6 H7]. split; cbn; rewrite ?Hl, ?Hrq, ?Hca; auto.
    + by rewrite outstanding_snoc.
    + by apply each_snoc.
    + intros kr Hkr. apply queued_calm; auto.
    + intros r Hr. apply active_calm; auto.
    + intros app l x Hx Hin. apply pending_calm; eauto.
    + intros x Hx. destruct (Hac x Hx) as [Hx'|(Hx1 & Hx2)]; [apply offer_calm; auto|].
      intros a Ha Hf. apply since_now. exists e. auto.
  - eexists. split; [done|]. split; [done|]. eapply (J_entry w); [exact Hw|reflexivity|done| |done..]. exists n. done.
Qed.
Lemma emit_all_J env pending app_name w : J w → (∀ a, a ∈ pending → deliverable (log w) a) →
  (emit_all env pending app_name w).1 = Ok () ∧ J (emit_all env pending app_name w).2.
Proof.
  revert w. induction pending as [|a pending IH]; intros w Hw Hp; cbn; [done|]. rewrite M_bind_eq.
  destruct (emit_event_J env a app_name w Hw) as (e & Hr & Hl & HJ); [apply Hp; left|].
  destruct (_emit env a app_name w) as [r w1]. cbn in *. subst r. apply IH; [done|]. intros b Hb. rewrite Hl.
  apply deliverable_calm; [done|]. apply Hp. by right.
Qed.
Lemma flush_lookup_J env app_id app_name : stable J (flush_lookup env app_id app_name).
Proof.
  intros w Hw. unfold flush_lookup. rewrite M_bind_eq. unfold get. rewrite M_bind_eq. unfold set_ca, modify. cbv beta iota.
  match goal with |- J (_ ?x).2 => set (w1 := x) end.
  assert (J w1) as Hw1.
  { subst w1. eapply J_less; [exact Hw|..]; cbn; try done; eauto. intros app l Hl. apply lookup_delete_Some in Hl as [_ Hl]. eauto. }
  apply emit_all_J; [done|]. intros a Ha. destruct (_pending_app_lookups (ca w) !! app_id) as [l|] eqn:E; cbn in Ha.
  - by destruct (j_pending _ Hw _ _ _ E Ha) as (<- & n & H1 & H2); exists n.
  - by apply elem_of_nil in Ha.
Qed.

(** ** Resets and failures *)

#[local] Hint Resolve J_set_lc J_set_tr J_set_tm J_tick J_idle J_writes J_finish J_clear J_remove_if drop_J reset_actions_J end_session_J
  flush_lookup_J : keeps.
#[local] Hint Extern 1 (stable J (emit _)) => apply J_note; reflexivity : keeps.
#[local] Hint Extern 1 (stable J (_report_action _ _)) => apply J_keeps_noted, report_noted : keeps.
#[local] Hint Extern 1 (stable J (on_status _)) => apply J_keeps_noted, status_noted : keeps.
#[local] Hint Extern 1 (stable J (status_if _ _)) => apply J_keeps_noted, status_if_noted : keeps.
#[local] Hint Extern 1 (stable J (set_ca _)) => apply J_set_ca; reflexivity : keeps.
#[local] Hint Extern 1 (stable J (set_ac _)) => apply J_set_ac; intros ? ?; apply od_pop_subseteq : keeps.

Section resets.
Context (cfg : Config) (env : Env).

Lemma schedule_subscribe_J : stable J _schedule_subscribe_retry. Proof. unfold _schedule_subscribe_retry. keeps. Qed.
Lemma schedule_reset_J : stable J (_schedule_transport_reset cfg). Proof. unfold _schedule_transport_reset. keeps. Qed.
Lemma schedule_settle_J : stable J _schedule_bearer_settle. Proof. unfold _schedule_bearer_settle. keeps. Qed.
Lemma schedule_manager_J : stable J _schedule_manager_retry. Proof. unfold _schedule_manager_retry. keeps. Qed.
Lemma schedule_authorization_J : stable J _schedule_authorization_retry. Proof. unfold _schedule_authorization_retry. keeps. Qed.
Lemma schedule_health_J : stable J _schedule_legacy_health. Proof. unfold _schedule_legacy_health. keeps. Qed.
#[local] Hint Resolve schedule_subscribe_J schedule_reset_J schedule_settle_J schedule_manager_J schedule_authorization_J schedule_health_J : keeps.
Lemma finish_active_J : stable J _finish_active_request.
Proof. unfold _finish_active_request. keeps. Qed.
#[local] Hint Resolve finish_active_J : keeps.
Lemma reset_requests_J : stable J _reset_requests.
Proof.
  unfold _reset_requests, _cancel_busy_retry. keeps. apply J_set_ca_less. cbn. intros c app l Hl. by rewrite lookup_empty in Hl.
Qed.
Lemma stop_notifications_J : stable J (_stop_bluez_notifications env). Proof. unfold _stop_bluez_notifications. keeps. Qed.
#[local] Hint Resolve reset_requests_J stop_notifications_J : keeps.
Lemma clear_subscription_J b : stable J (_clear_characteristic_subscription cfg env b).
Proof. unfold _clear_characteristic_subscription, _cancel_authorization_retry, _cancel_legacy_health. keeps. Qed.
#[local] Hint Resolve clear_subscription_J : keeps.
Lemma mark_failed_J : stable J (_mark_transport_failed cfg env).
Proof. unfold _mark_transport_failed, _cancel_bearer_settle, _cancel_subscribe_retry. keeps. Qed.
#[local] Hint Resolve mark_failed_J : keeps.
Lemma escalate_J : stable J (_escalate_unresponsive_transport cfg env).
Proof. unfold _escalate_unresponsive_transport. keeps. Qed.
Lemma observe_permission_J e : stable J (_observe_permission_error cfg e).
Proof. unfold _observe_permission_error. keeps. Qed.
Lemma abandon_J r : stable J (_abandon_request env r).
Proof. unfold _abandon_request. keeps. Qed.
Lemma action_written_J a : stable J (_action_written a).
Proof. unfold _action_written. keeps. Qed.
End resets.
#[local] Hint Resolve schedule_subscribe_J schedule_reset_J schedule_settle_J schedule_manager_J schedule_authorization_J schedule_health_J
  finish_active_J reset_requests_J stop_notifications_J clear_subscription_J mark_failed_J escalate_J observe_permission_J abandon_J
  action_written_J : keeps.

(** ** Writes *)

(** [in_flight] is the only field of an offer that changes. *)
Lemma J_alter b uid : stable J (set_ac (λ x, x <| _actionable ::= od_alter (λ e, e <| aa_in_flight := b |>) uid |>)).
Proof.
  intros w [H1 H2 H3 H4 H5 H6 H7]. split; cbn; auto.
  intros x Hx. apply list_elem_of_fmap in Hx as (y & -> & Hy). specialize (H6 y Hy). by destruct (bool_decide (y.1 = uid)).
Qed.
Lemma action_failed_J a e : stable J (_action_failed a e).
Proof. unfold _action_failed. keeps; apply J_alter. Qed.
#[local] Hint Resolve action_failed_J : keeps.

Lemma release_write_J token accepted : stable J (release_write token accepted).
Proof.
  intros w Hw. unfold release_write, emit, set_rq. monad_simpl. cbn.
  destruct (bool_decide (_cp_write_token (rq w) = Some token)) eqn:E; cbn; eapply (J_entry w _ (WriteAnswered token accepted)); try done; cbn;
    by rewrite E.
Qed.
#[local] Hint Resolve release_write_J : keeps.

(** A refused write goes back to the head of the queue. *)
Lemma push_back_J request w : J w → _active_request (rq w) = Some request → pr_discarded request = false →
  J ((set_rq (λ x, x <| _active_request := None |>);;
     on_queue (push_front (pr_key request) (request <| pr_busy_retries ::= λ n, n + 1 |>));;
     set_tm (λ t, t <| _cp_busy_retry_id := Some CONTROL_POINT_BUSY_RETRY_SECONDS |>)) w).2.
Proof.
  intros [H1 H2 H3 H4 H5 H6 H7] Hr Hd. destruct (H4 _ Hr) as [Hs Hg]. specialize (Hg Hd).
  unfold push_front, on_queue, set_rq, set_tm. monad_simpl. cbn.
  destruct (bool_decide _); cbn; [|split; cbn; auto; done].
  assert (queued_ok (log w) (pr_key request, request <| pr_busy_retries ::= λ n, n + 1 |>)) as Hok.
  { split; [done|]. destruct Hs as [Hs1 Hs2]. split; [split; [cbn; lia|done]|]. unfold grounded in *. cbn.
    destruct (pr_notification request); [done|]. destruct (pr_action request); [|done].
    destruct Hg as (token & Ha & _). exists token. split; [done|]. intros _. lia. }
  split; cbn; auto; [|done]. intros kr [->|Hkr]%elem_of_cons; auto.
Qed.

Lemma justified_of r l : shape_ok r → grounded True l r → justified l r.
Proof.
  intros [_ Hs] Hg. unfold shape_ok, grounded in *. destruct (pr_notification r) as [n|] eqn:En, (pr_action r) as [a|] eqn:Ea; try done.
  - destruct Hs as (_ & _ & Hs). destruct (pr_app_probe r).
    + by eapply justified_identify.
    + destruct Hs as (ids & Hs), Hg as (app & _ & Hg). by eapply justified_content.
  - destruct Hs as (Hs & _), Hg as (token & H1 & H2). eapply justified_action; [done..|]. by apply H2.
  - destruct Hs as (_ & app & Hs & Hauth). destruct Hg as [Hg|(app' & Hg & Hn)].
    + specialize (Hauth Hg). subst app. by apply justified_probe.
    + by eapply justified_name.
Qed.

Section pump.
Context (cfg : Config) (env : Env).

Lemma failed_J pump f e : stable J pump → stable J (failed cfg env pump f e).
Proof.
  intros Hp. unfold failed. apply keeps_bind; [apply _|apply release_write_J|]. intros released w Hw. rewrite M_bind_eq. unfold get.
  destruct (current_attempt f w) as [request|] eqn:E.
  - assert (_active_request (rq w) = Some request) as Hr.
    { unfold current_attempt in E. destruct (_active_request (rq w)) as [r|]; [|done].
      destruct (_ && _); [|done]. by injection E as ->. }
    destruct (pr_discarded request) eqn:Ed.
    { revert Hw. match goal with |- J w → J (?m w).2 => enough (stable J m) as Hm by exact (Hm w) end. keeps. }
    destruct (endswith _ _ && _); [by apply push_back_J|].
    revert Hw. match goal with |- J w → J (?m w).2 => enough (stable J m) as Hm by exact (Hm w) end.
    destruct (pr_action request); keeps.
  - revert Hw. match goal with |- J w → J (?m w).2 => enough (stable J m) as Hm by exact (Hm w) end. keeps.
Qed.
Lemma release_broken_J f : stable J (release_broken env f).
Proof. unfold release_broken. keeps. Qed.

Lemma pump_J fuel : stable J (pump cfg env fuel).
Proof.
  induction fuel as [|fuel IH]; intros w Hw; cbn [pump]; rewrite M_bind_eq; unfold get; destruct (_ || _) eqn:Eg; try done.
  repeat (apply orb_false_iff in Eg as [Eg ?]). rewrite M_bind_eq.
  destruct (_active_request (rq w)) eqn:Er; [done|]. destruct (_cp_write_token (rq w)) eqn:Et; [done|].
  destruct (rb_queue (_request_queue (rq w))) as [|[k r] q] eqn:Eq; [unfold backlog_bool in *; by rewrite Eq in *|].
  assert (on_queue popleft w = (Ok r, w <| rq ::= λ x, x <| _request_queue := mkBacklog (rb_maximum (_request_queue (rq w))) q
            (rb_reserved (_request_queue (rq w))) |> |>)) as ->.
  { unfold on_queue, popleft. monad_simpl. by rewrite Eq. }
  cbv beta iota. rewrite M_bind_eq. unfold tick, set_rq, emit. monad_simpl.
  match goal with |- J (match _ with _ => _ end ?x).2 => set (w1 := x) end.
  assert (J w1) as Hw1.
  { subst w1. destruct Hw as [J1 J2 J3 J4 J5 J6 J7]. cbn.
    pose proof (J3 (k, r)) as Hr. rewrite Eq in Hr. specialize (Hr ltac:(left)). destruct Hr as (Ha & Hb & Hc).
    split; cbn; auto.
    - by rewrite outstanding_snoc.
    - apply each_snoc; [done|]. split; [by rewrite J1|]. by apply justified_of.
    - intros kr Hkr. apply queued_calm; [done|]. apply J3. rewrite Eq. by right.
    - intros r' [= <-]. apply active_calm; [done|]. split; [done|]. intros _. by apply grounded_weaken.
    - intros app l x Hx Hin. apply pending_calm; eauto.
    - intros x Hx. apply offer_calm; auto. }
  clearbody w1. revert Hw1. match goal with |- J w1 → J (?m w1).2 => enough (stable J m) as Hm by exact (Hm w1) end.
  destruct (write_value env (pr_serial r)); [apply J_writes|by apply failed_J|apply release_broken_J].
Qed.
Lemma pump_requests_J : stable J (_pump_requests cfg env).
Proof. unfold _pump_requests. apply keeps_bind; [apply _|apply keeps_pure; [apply _|intros ?; reflexivity]|]. intros w. apply pump_J. Qed.
#[local] Hint Resolve pump_requests_J : keeps.
Lemma written_J f : stable J (written cfg env f).
Proof. unfold written. apply keeps_bind; [apply _|apply release_write_J|]. intros released. keeps. Qed.
Lemma write_failed_J f e : stable J (write_failed cfg env f e).
Proof. apply failed_J, pump_requests_J. Qed.
Lemma busy_J : stable J (_retry_busy_control_point cfg env).
Proof. unfold _retry_busy_control_point, _cancel_busy_retry. keeps. Qed.
End pump.
#[local] Hint Resolve pump_requests_J written_J write_failed_J busy_J : keeps.

(** ** Requests *)

Lemma enqueue_J key r front w : J w → queued_ok (log w) (key, r) → J (on_queue (enqueue key r front) w).2.
Proof.
  intros [H1 H2 H3 H4 H5 H6 H7] Hok. unfold on_queue, enqueue. monad_simpl.
  destruct (bool_decide _); [by split|]. destruct (_ <=? _); [by split|]. cbn. split; cbn; auto.
  intros kr. destruct front; [rewrite elem_of_cons|rewrite elem_of_app, list_elem_of_singleton]; intros [Hkr|Hkr]; subst; auto.
Qed.
Lemma enqueue_request_J cfg env r w : J w → queued_ok (log w) (pr_key r, r) → J (_enqueue cfg env r w).2.
Proof.
  intros Hw Hok. unfold _enqueue. rewrite M_bind_eq. pose proof (enqueue_J (pr_key r) r false w Hw Hok) as H.
  destruct (on_queue _ w) as [[ok|e] w1]; cbn in *; [|done]. destruct ok; cbn; [by apply pump_requests_J|done].
Qed.

Section requests.
Context (cfg : Config) (env : Env).

Lemma queue_probe_J force : stable J (_queue_authorization_probe cfg env force).
Proof.
  intros w Hw. unfold _queue_authorization_probe. rewrite M_bind_eq. unfold get. destruct (_ || _); [done|].
  rewrite M_bind_eq. unfold lift. destruct (build_get_app_attributes MESSAGES_APP_ID) as [p|] eqn:Ep; [|done].
  apply enqueue_request_J; [by apply J_tick|]. split; [done|]. split; [|by left].
  split; [done|]. cbn. split; [eauto|]. exists MESSAGES_APP_ID. done.
Qed.
#[local] Hint Resolve queue_probe_J : keeps.
Lemma probe_health_J : stable J (probe_health cfg env). Proof. unfold probe_health. keeps. Qed.
#[local] Hint Resolve probe_health_J : keeps.
Lemma mark_authorized_J : stable J (_mark_authorized cfg).
Proof. unfold _mark_authorized, _cancel_authorization_retry. keeps. Qed.
Lemma start_notify_J path : stable J (_start_notify env path). Proof. unfold _start_notify. keeps. Qed.
Lemma subscribe_failed_J e : stable J (subscribe_failed cfg env e). Proof. unfold subscribe_failed. keeps. Qed.
#[local] Hint Resolve mark_authorized_J start_notify_J subscribe_failed_J : keeps.
Lemma try_subscribe_J : stable J (_try_subscribe cfg env). Proof. unfold _try_subscribe, _cancel_subscribe_retry. keeps. Qed.
#[local] Hint Resolve try_subscribe_J : keeps.
Lemma retry_subscribe_J : stable J (_retry_subscribe cfg env). Proof. unfold _retry_subscribe, _cancel_subscribe_retry. keeps. Qed.
Lemma settle_J : stable J (_finish_bearer_settle cfg env). Proof. unfold _finish_bearer_settle, _cancel_bearer_settle. keeps. Qed.
Lemma retry_authorization_J : stable J (_retry_authorization cfg env).
Proof. unfold _retry_authorization, _cancel_authorization_retry. keeps. Qed.
Lemma legacy_health_J : stable J (_check_legacy_health cfg env). Proof. unfold _check_legacy_health, _cancel_legacy_health. keeps. Qed.
Lemma transport_reset_J : stable J (_request_transport_reset cfg). Proof. unfold _request_transport_reset, _cancel_transport_reset. keeps. Qed.
Lemma legacy_hint_J : stable J (_legacy_transport_hint cfg env). Proof. unfold _legacy_transport_hint, _cancel_subscribe_retry. keeps. Qed.

(** ** The refresh *)

Lemma refresh_failed_J tg e : stable J (refresh_failed cfg env tg e). Proof. unfold refresh_failed. keeps. Qed.
Lemma await_toggle_J tg : toggle_ok tg → stable J (await_toggle tg).
Proof.
  intros Htg w [H1 H2 H3 H4 H5 H6 H7]. split; cbn; auto. intros tg'. rewrite elem_of_app, list_elem_of_singleton. intros [H| ->]; auto.
Qed.
#[local] Hint Resolve refresh_failed_J await_toggle_J : keeps.
Lemma stopped_J tg : toggle_ok tg → stable J (stopped cfg env tg).
Proof. intros Htg. unfold stopped. keeps. by apply await_toggle_J. Qed.
Lemma stop_failed_J tg e : toggle_ok tg → stable J (stop_failed cfg env tg e).
Proof. intros Htg. unfold stop_failed. keeps. by apply stopped_J. Qed.
Lemma toggle_notify_J tg : toggle_ok tg → stable J (_toggle_notify cfg env tg).
Proof. intros Htg. unfold _toggle_notify. keeps; [by apply stop_failed_J|by apply await_toggle_J]. Qed.
Lemma next_path_J tg : toggle_ok tg → stable J (next_path cfg env tg).
Proof.
  intros Htg. unfold next_path. apply keeps_bind; [apply _|keeps|]. intros w0. apply keeps_when; [apply _|].
  destruct (tg_remaining tg) as [|path rest]; [|by apply toggle_notify_J].
  apply keeps_bind; [apply _|keeps|intros _]. apply keeps_bind; [apply _|keeps|intros _].
  intros w Hw. rewrite M_bind_eq. unfold new_request. rewrite M_bind_eq. unfold tick, mret at 1, M_ret at 1. monad_simpl.
  match goal with |- context [on_queue (enqueue ?k ?r ?f) ?w1] => assert (J (on_queue (enqueue k r f) w1).2) as H end.
  { apply enqueue_J; [by apply J_tick|]. split; [done|]. split; [|by left]. split; [done|]. cbn. split; [eauto|].
    exists MESSAGES_APP_ID. done. }
  destruct (on_queue _ _) as [[ok|e] w1]; cbn in *; [|done]. destruct (_ && _); [by apply escalate_J|by apply pump_requests_J].
Qed.
Lemma started_J tg : toggle_ok tg → stable J (started cfg env tg).
Proof. intros Htg. unfold started. keeps. by apply next_path_J. Qed.
Lemma refresh_J r : build_get_app_attributes MESSAGES_APP_ID = Ok (pr_packet r) → stable J (_refresh_notifications cfg env r).
Proof. intros Hr. unfold _refresh_notifications. keeps. by apply next_path_J. Qed.
Lemma timed_out_J : stable J (_request_timed_out cfg env).
Proof.
  unfold _request_timed_out. apply keeps_bind; [apply _|keeps|intros _]. intros w Hw. rewrite M_bind_eq. unfold get.
  destruct (_active_request (rq w)) as [r|] eqn:Er; [|by apply pump_requests_J].
  destruct (j_active _ Hw _ Er) as [[_ Hs] _].
  revert Hw. match goal with |- J w → J (?m w).2 => enough (stable J m) as Hm by exact (Hm w) end.
  destruct (pr_authorization_probe r) eqn:Ea; cbn [andb]; [|keeps].
  assert (build_get_app_attributes MESSAGES_APP_ID = Ok (pr_packet r)).
  { destruct (pr_notification r), (pr_action r); try (destruct Hs; done); [destruct Hs as (? & ? & ?); congruence..|].
    destruct Hs as (_ & app & H1 & H2). by rewrite H2 in H1. }
  keeps. by apply refresh_J.
Qed.
End requests.
#[local] Hint Resolve probe_health_J mark_authorized_J try_subscribe_J retry_subscribe_J settle_J retry_authorization_J
  legacy_health_J transport_reset_J legacy_hint_J refresh_failed_J timed_out_J : keeps.

(** ** Hearing of a notification *)

(** The part of [_on_ns_changed] every event of a UID runs. *)
Definition hear (cfg : Config) (n : Notification) : M World () :=
  emit (Heard n);;
  _report_call_activity cfg n;;
  _forget_actionable cfg (n_id n);;
  when (n_type n =? EventID.NotificationRemoved) (_discard_notification_requests (Some (n_id n))).

(** What hearing of [n] leaves. *)
Record heard_from (n : Notification) (w w' : World) : Prop := {
  hf_log : ∃ notes, Forall (λ a, note a = true) notes ∧ log w' = log w ++ Heard n :: notes;
  hf_token : _cp_write_token (rq w') = _cp_write_token (rq w);
  hf_toggles : toggles (rq w') = toggles (rq w);
  hf_offers : ∀ x, x ∈ _actionable (ac w') → x ∈ _actionable (ac w) ∧ x.1 ≠ n_id n;
  hf_queue : ∀ kr, kr ∈ rb_queue (_request_queue (rq w')) →
    kr ∈ rb_queue (_request_queue (rq w)) ∧ drops (λ a, ar_uid a =? n_id n) kr.2 = false
    ∧ (n_type n = EventID.NotificationRemoved → concerns (Some (n_id n)) kr.2 = false);
  hf_active : ∀ r', _active_request (rq w') = Some r' →
    (_active_request (rq w) = Some r'
     ∧ (n_type n = EventID.NotificationRemoved → concerns (Some (n_id n)) r' = true → pr_discarded r' = true))
    ∨ ∃ r, _active_request (rq w) = Some r ∧ r' = discarded_of r;
  hf_pending : ∀ app_id l a, _pending_app_lookups (ca w') !! app_id = Some l → a ∈ l →
    (∃ l0, _pending_app_lookups (ca w) !! app_id = Some l0 ∧ a ∈ l0)
    ∧ (n_type n = EventID.NotificationRemoved → na_id a ≠ n_id n);
}.
Lemma noted_log w w' : noted w w' → ∃ notes, Forall (λ a, note a = true) notes ∧ log w' = log w ++ notes.
Proof. intros (l & Hl & ->). eauto. Qed.
Lemma activity_ok cfg n w : (_report_call_activity cfg n w).1 = Ok ().
Proof. unfold _report_call_activity. monad_simpl. by repeat case_match. Qed.

(** [_forget_actionable] after the report. *)
Lemma forget_spec cfg uid w :
  (_forget_actionable cfg uid w).1 = Ok ()
  ∧ noted (on_queue (remove_if (drops (λ a, ar_uid a =? uid))) w).2
      ((_forget_actionable cfg uid w).2 <| ac := ac w |>)
  ∧ ac (_forget_actionable cfg uid w).2 = (ac w) <| _actionable := od_pop uid (_actionable (ac w)) |>.
Proof.
  unfold _forget_actionable. rewrite M_bind_eq. destruct (drop_spec (λ a, ar_uid a =? uid) ACTION_UNAVAILABLE w) as (n & Hn & Hno).
  destruct (_drop_queued_actions _ _ w) as [r w1]. cbn in Hn, Hno. subst r.
  assert (ac w1 = ac w) as Hac by (destruct (noted_same _ _ Hno) as (_ & _ & -> & _); by rewrite on_queue_spec).
  rewrite M_bind_eq. unfold get. rewrite M_bind_eq. unfold set_ac, modify. cbv beta iota.
  unfold when, emit, modify. destruct (_ && _); cbn; rewrite Hac; (split; [done|]; split; [etrans; [exact Hno|]|done]); cbn.
  - exists [OnNotificationRemoved uid]. split; [by repeat constructor|]. rewrite <-Hac. by destruct w1.
  - exists []. split; [done|]. rewrite <-Hac. destruct w1; cbn. by rewrite app_nil_r.
Qed.

Lemma hear_spec cfg n w : (hear cfg n w).1 = Ok () ∧ heard_from n w (hear cfg n w).2.
Proof.
  unfold hear. rewrite M_bind_eq. unfold emit, modify. set (w1 := w <| log ::= _ |>). cbv beta iota. rewrite M_bind_eq.
  pose proof (activity_noted cfg n w1) as Hact. pose proof (activity_ok cfg n w1) as Hactr.
  destruct (_report_call_activity cfg n w1) as [r w2]. cbn in Hact, Hactr. subst r. rewrite M_bind_eq.
  destruct (forget_spec cfg (n_id n) w2) as (Hfr & Hfn & Hfa).
  destruct (_forget_actionable cfg (n_id n) w2) as [r w3]. cbn in Hfr, Hfn, Hfa. subst r.
  destruct (noted_same _ _ Hact) as (Hca2 & Hrq2 & Hac2 & _).
  destruct (noted_same _ _ Hfn) as (Hca3 & Hrq3 & _). rewrite on_queue_spec in Hca3, Hrq3. cbn in Hca3, Hrq3.
  destruct (noted_log _ _ Hact) as (l2 & Hl2 & Hlog2). destruct (noted_log _ _ Hfn) as (l3 & Hl3 & Hlog3).
  rewrite on_queue_spec in Hlog3. cbn in Hlog3.
  assert (∃ notes, Forall (λ a, note a = true) notes ∧ log w3 = log w ++ Heard n :: notes) as Hlog.
  { exists (l2 ++ l3). split; [by apply Forall_app|]. rewrite Hlog3, Hlog2. subst w1. cbn. by rewrite <-!app_assoc. }
  assert (∀ x, x ∈ _actionable (ac w3) → x ∈ _actionable (ac w) ∧ x.1 ≠ n_id n) as Hoff.
  { intros x. rewrite Hfa, Hac2. cbn. unfold od_pop. rewrite list_elem_of_filter. naive_solver. }
  assert (∀ kr, kr ∈ rb_queue (_request_queue (rq w3)) →
            kr ∈ rb_queue (_request_queue (rq w)) ∧ drops (λ a, ar_uid a =? n_id n) kr.2 = false) as Hq.
  { intros kr. rewrite Hrq3, Hrq2. cbn. intros Hkr. by apply remove_if_subseteq in Hkr. }
  assert (_active_request (rq w3) = _active_request (rq w)) as Hr by (rewrite Hrq3, Hrq2; done).
  assert (_cp_write_token (rq w3) = _cp_write_token (rq w)) as Ht by (rewrite Hrq3, Hrq2; done).
  assert (toggles (rq w3) = toggles (rq w)) as Hg by (rewrite Hrq3, Hrq2; done).
  assert (_pending_app_lookups (ca w3) = _pending_app_lookups (ca w)) as Hp by (rewrite Hca3, Hca2; done).
  unfold when. destruct (n_type n =? EventID.NotificationRemoved) eqn:Ety.
  - destruct (discard_spec (Some (n_id n)) w3) as [Hdr Hd]. split; [done|].
    pose proof Hd as (D1 & D2 & D3 & D4 & D5 & D6 & _). split; rewrite ?D1, ?D2, ?D3, ?D4; try congruence; try done.
    + intros kr Hkr. destruct (D5 kr Hkr) as [Hk1 Hk2]. destruct (Hq kr Hk1). auto.
    + intros r' Hr'. rewrite <-Hr. destruct (D6 r' Hr') as [[Ha Hb]|?]; [left|right; done]. auto.
    + intros app l a Hl Ha. destruct (discarded_pending _ _ _ _ _ _ Hd Hl Ha) as (He & u & [= <-] & Hne). rewrite Hp in He. auto.
  - apply Z.eqb_neq in Ety. unfold mret, M_ret. cbn. split; [done|]. split; try done.
    + intros kr Hkr. destruct (Hq kr Hkr). split_and!; done.
    + intros r' Hr'. rewrite <-Hr. left. split; [done|]. done.
    + intros app l a. rewrite Hp. intros Hl Ha. split; [eauto|done].
Qed.

Lemma ends_heard uid n : ends uid (Heard n) → n_id n = uid ∧ n_type n = EventID.NotificationRemoved.
Proof. done. Qed.
(** A request or an event of another UID, or one that [n] does not remove, stays grounded. *)
Lemma since_heard P uid n l :
  since P (ends uid) l → (n_type n = EventID.NotificationRemoved → n_id n ≠ uid) → since P (ends uid) (l ++ [Heard n]).
Proof. intros H Hn. apply since_snoc; [done|]. intros [H1 H2]. by apply Hn. Qed.
Lemma grounded_heard fresh l n r :
  grounded fresh l r → (n_type n = EventID.NotificationRemoved → concerns (Some (n_id n)) r = false) →
  (fresh → drops (λ a, ar_uid a =? n_id n) r = false) → grounded fresh (l ++ [Heard n]) r.
Proof.
  unfold grounded, concerns, drops. destruct (pr_notification r) as [m|].
  - intros H Hn _. assert (n_type n = EventID.NotificationRemoved → n_id n ≠ n_id m) as Hne.
    { intros Ht Heq. specialize (Hn Ht). by rewrite <-Heq, Z.eqb_refl in Hn. }
    destruct (pr_app_probe r).
    + destruct H as (Ha & Hb & Hc). split; [done|]. split; [done|]. by apply since_heard.
    + destruct H as (app & Ha & Hb). exists app. split; [done|]. by apply since_heard.
  - intros H _ Hd. destruct (pr_action r) as [a|].
    + destruct H as (token & Ha & Hb). exists token. split; [apply elem_of_app; auto|]. intros Hf Hbr.
      apply since_snoc; [by apply Hb|]. intros Hid. cbn in Hid. specialize (Hd Hf). by rewrite Hid, Z.eqb_refl in Hd.
    + destruct H as [H|(app & Ha & Hb)]; [by left|]. right. exists app. split; [done|]. by apply named_snoc.
Qed.
Lemma heard_J n w w' : heard_from n w w' → J w → J w'.
Proof.
  intros [(notes & Hn & Hl) Ht Hg Ho Hq Hr Hp] [H1 H2 H3 H4 H5 H6 H7].
  apply (J_noted (w' <| log := log w ++ [Heard n] |>)).
  { exists notes. split; [done|]. destruct w'; cbn in *. by rewrite Hl, <-app_assoc. }
  split; cbn; rewrite ?Ht, ?Hg; auto.
  - by rewrite outstanding_snoc.
  - by apply each_snoc.
  - intros kr Hkr. destruct (Hq kr Hkr) as (Ha & Hb & Hc). destruct (H3 kr Ha) as (Hd & He & Hf).
    split; [done|]. split; [done|]. by apply grounded_heard.
  - intros r' Hr'. destruct (Hr r' Hr') as [[Ha Hb]|(r & Ha & ->)].
    + destruct (H4 r' Ha) as [Hs Hgr]. split; [done|]. intros Hd. apply grounded_heard; [by apply Hgr| |done].
      intros Hty. destruct (concerns _ r') eqn:E; [|done]. by rewrite Hb in Hd.
    + destruct (H4 r Ha) as [Hs _]. split; [by apply discarded_shape|done].
  - intros app l a Hl' Ha. destruct (Hp app l a Hl' Ha) as ((l0 & Hb & Hc) & Hne). destruct (H5 app l0 a Hb Hc) as (Hd & m & He & Hf).
    split; [done|]. exists m. split; [done|]. apply since_heard; [done|]. rewrite He. intros Hty Heq. by apply (Hne Hty).
  - intros x Hx a Ha Hf. destruct (Ho x Hx) as [Hb Hc]. apply since_snoc; [by apply (H6 x Hb)|]. cbn. congruence.
Qed.

(** ** Notification Source *)

Section handlers.
Context (cfg : Config) (env : Env).

Lemma request_attrs_J n w : J w → live n (log w) → J (_request_attrs cfg env n w).2.
Proof.
  intros Hw Hn. unfold _request_attrs. rewrite M_bind_eq. unfold lift.
  destruct (build_get_notification_app_identifier (n_id n)) as [p|] eqn:Ep; [|done].
  apply enqueue_request_J; [by apply J_tick|]. split; [done|]. split; [|done]. split; [done|]. cbn. split; [done|]. split; [eauto|done].
Qed.
Lemma request_full_J n app_id w : J w → admitted n app_id (log w) → J (_request_full_attrs cfg env n app_id w).2.
Proof.
  intros Hw Hn. unfold _request_full_attrs. rewrite M_bind_eq. unfold lift. set (ids := if _ && _ then _ else _).
  destruct (build_get_notification_attributes _ _ _ _ ids) as [p|] eqn:Ep; [|done].
  apply enqueue_request_J; [by apply J_tick|]. split; [done|]. split; [split; [done|]; cbn|].
  - split; [done|]. split; [eauto|]. by exists ids.
  - cbn. by exists app_id.
Qed.

(** [_on_ns_changed], after the event is parsed. *)
Definition on_notification (n : Notification) : M World () :=
  hear cfg n;;
  if n_type n =? EventID.NotificationRemoved then when (has_removed cfg) (emit (OnRemoved (n_id n)))
  else if is_preexisting n then
    w ← get;
    when (negb (bool_decide (_actionable (ac w) = []))) (_reset_actions cfg);;
    when (_live_events_seen (ca w)) (_end_session cfg)
  else
    set_ca (λ c, c <| _live_events_seen := true |>
                   <| _categories ::= λ d, od_bound MAX_ANCS_REQUESTS (od_set_last (n_id n) (n_category n) d) |>);;
    _request_attrs cfg env n.
Lemma on_ns_eq iface value w :
  _on_ns_changed cfg env iface value w =
    (if negb (String.eqb iface GATT_CHARACTERISTIC) then mret ()
     else match Notification_parse <$> value with Some (Ok n) => on_notification n | _ => mret () end) w.
Proof.
  unfold _on_ns_changed, on_notification, hear. destruct (negb _); [done|]. destruct (Notification_parse <$> value) as [[n|]|]; [|done..].
  unfold emit, set_ca. monad_simpl. destruct (_report_call_activity cfg n _) as [[u|e] w1]; [|done].
  destruct (_forget_actionable cfg (n_id n) w1) as [[u'|e] w2]; [|done].
  destruct (n_type n =? _); [|done]. by destruct (_discard_notification_requests _ w2) as [[[]|e] w3].
Qed.
Lemma on_ns_J iface value : stable J (_on_ns_changed cfg env iface value).
Proof.
  intros w Hw. rewrite on_ns_eq. destruct (negb _); [done|]. destruct (Notification_parse <$> value) as [[n|]|]; [|done..].
  unfold on_notification. rewrite M_bind_eq. destruct (hear_spec cfg n w) as [Hr Hh]. pose proof (heard_J _ _ _ Hh Hw) as Hw1.
  destruct (hear cfg n w) as [r w1]. cbn in Hr, Hh, Hw1. subst r. destruct (n_type n =? _) eqn:Ety.
  { revert Hw1. match goal with |- J w1 → J (?m w1).2 => enough (stable J m) as Hm by exact (Hm w1) end. keeps. }
  destruct (is_preexisting n) eqn:Epre.
  { revert Hw1. match goal with |- J w1 → J (?m w1).2 => enough (stable J m) as Hm by exact (Hm w1) end. keeps. }
  rewrite M_bind_eq. unfold set_ca, modify. cbv beta iota. apply request_attrs_J.
  - eapply J_less; [exact Hw1|..]; cbn; try done; eauto.
  - cbn. destruct (hf_log _ _ _ Hh) as (notes & Hn & ->). apply Z.eqb_neq in Ety. split; [done|]. split; [done|].
    exists (log w), (Heard n), notes. split_and!; [done..|]. eapply Forall_impl; [exact Hn|]. intros []; cbn; try done; tauto.
Qed.

(** ** Data Source *)

(** ** Data Source *)

Lemma admitted_named n app_id l : admitted n app_id l → app_id ≠ MESSAGES_APP_ID → named app_id l.
Proof.
  intros (l1 & a & l2 & -> & (all & this & -> & [Ha|(H1 & -> & ->)]) & _) Hne; [done|].
  exists n. split; [|done]. apply elem_of_app. right. left.
Qed.
Lemma J_pending_insert app_id l w : J w → (∀ a, a ∈ l → pending_ok (log w) app_id a) →
  J (w <| ca ::= λ c, c <| _pending_app_lookups ::= insert app_id l |> |>).
Proof.
  intros [H1 H2 H3 H4 H5 H6 H7] Hl. split; cbn; auto.
  intros app l' a. destruct (decide (app = app_id)) as [->|Hne].
  - rewrite lookup_insert_eq. intros [= <-]. apply Hl.
  - rewrite lookup_insert_ne by done. apply H5.
Qed.
Lemma remove_first_subseteq {A} `{EqDecision A} (x y : A) l : y ∈ remove_first x l → y ∈ l.
Proof. induction l as [|z l IH]; cbn; [done|]. destruct (decide _); rewrite !elem_of_cons; naive_solver. Qed.

(** A refused lookup changes nothing the history shows. *)
Lemma request_name_J app_id w : J w → named app_id (log w) →
  J (_request_app_name cfg env app_id w).2
  ∧ ((_request_app_name cfg env app_id w).1 = Ok false → log (_request_app_name cfg env app_id w).2 = log w).
Proof.
  intros Hw Hn. unfold _request_app_name. rewrite M_bind_eq. unfold get. destruct (_ || _); [by split|].
  unfold set_ca, new_request, tick. monad_simpl. set (w1 := w <| ca ::= λ c, c <| _app_lookup_requested ::= λ s, {[app_id]} ∪ s |> |>).
  assert (J w1) as Hw1 by (eapply J_less; [exact Hw|..]; cbn; try done; eauto).
  destruct (build_get_app_attributes app_id) as [p|] eqn:Ep; [|by split].
  match goal with |- context [on_queue (enqueue ?k ?r ?f) ?w1] => pose proof (enqueue_J k r f w1) as H end.
  cbn in H. match type of H with _ → ?Q → _ => assert Q as Hq end.
  { split; [done|]. split; [split; [done|]; cbn; split; [eauto|]; by exists app_id|]. right. by exists app_id. }
  specialize (H (J_tick _ Hw1) Hq). clear Hq.
  unfold on_queue, enqueue in *. revert H. monad_simpl. destruct (bool_decide _); cbn; [|destruct (_ <=? _); cbn]; intros H.
  - split; [|done]. eapply J_less; [exact H|..]; cbn; try done; eauto.
  - split; [|done]. eapply J_less; [exact H|..]; cbn; try done; eauto.
  - match goal with |- context [_pump_requests cfg env ?x] => pose proof (pump_requests_J cfg env x H) as Hp;
      destruct (_pump_requests cfg env x) as [[u|e] w2] end; by split.
Qed.

Lemma handle_attrs_J attrs w : J w → deliverable (log w) attrs → J (_handle_notification_attrs cfg env attrs w).2.
Proof.
  intros Hw Hd. unfold _handle_notification_attrs. destruct (bool_decide (na_app_id attrs = MESSAGES_APP_ID)) eqn:Em.
  { by destruct (emit_event_J env attrs (na_app_id attrs) w Hw Hd) as (_ & _ & _ & H). }
  apply bool_decide_eq_false in Em. rewrite M_bind_eq. unfold get.
  assert (∀ w1 app_name, J w1 → log w1 = log w → J (_emit env attrs app_name w1).2) as Hemit.
  { intros w1 app_name Hw1 Hl. rewrite <-Hl in Hd. by destruct (emit_event_J env attrs app_name w1 Hw1 Hd) as (_ & _ & _ & H). }
  destruct (od_get (na_app_id attrs) _) as [app_name|].
  { rewrite M_bind_eq. unfold set_ca, modify. cbv beta iota. apply Hemit; [|done]. eapply J_less; [exact Hw|..]; cbn; try done; eauto. }
  set (pending := default [] _).
  assert (∀ a, a ∈ pending → pending_ok (log w) (na_app_id attrs) a) as Hp.
  { subst pending. intros a Ha. destruct (_pending_app_lookups (ca w) !! na_app_id attrs) as [l|] eqn:E; [|by apply elem_of_nil in Ha].
    by eapply (j_pending _ Hw). }
  destruct (_ <=? _).
  { rewrite M_bind_eq. unfold set_ca, modify. cbv beta iota. apply Hemit; [|done]. by apply J_pending_insert. }
  assert (pending_ok (log w) (na_app_id attrs) attrs) as Hself by (destruct Hd as (n & H1 & H2); split; [done|]; by exists n).
  assert (∀ a, a ∈ pending ++ [attrs] → pending_ok (log w) (na_app_id attrs) a) as Hp'.
  { intros a. rewrite elem_of_app, list_elem_of_singleton. intros [Ha| ->]; auto. }
  rewrite M_bind_eq. unfold set_ca at 1, modify. cbv beta iota. set (w1 := w <| ca ::= _ |>).
  assert (J w1) as Hw1 by by apply J_pending_insert.
  rewrite M_bind_eq. destruct (request_name_J (na_app_id attrs) w1 Hw1) as [Hn Hl].
  { destruct Hd as (n & _ & H). by eapply admitted_named. }
  destruct (_request_app_name cfg env (na_app_id attrs) w1) as [[[]|e] w2]; cbn in *; [done| |done].
  specialize (Hl eq_refl). rewrite M_bind_eq. unfold set_ca, modify. cbv beta iota. apply Hemit; [|done].
  destruct (remove_first attrs (pending ++ [attrs])) as [|a l] eqn:E.
  - eapply J_less; [exact Hn|..]; cbn; try done; eauto. intros app l Hl'. apply lookup_delete_Some in Hl' as [_ Hl']. eauto.
  - apply J_pending_insert; [done|]. intros b Hb. rewrite Hl. apply Hp'. apply (remove_first_subseteq attrs). by rewrite E.
Qed.
Lemma handle_app_J attrs : stable J (_handle_app_attrs env attrs).
Proof. unfold _handle_app_attrs. keeps. Qed.

Lemma on_identified_J n app_id : stable J (on_identified cfg env n app_id).
Proof.
  intros w Hw. unfold on_identified.
  assert (∀ all this, J (w <| log ::= λ l, l ++ [Identified n app_id all this] |>)) as Hid.
  { intros all this. by eapply (J_entry w _ (Identified n app_id all this)). }
  destruct (bool_decide _) eqn:Em.
  - rewrite M_bind_eq. unfold emit, modify. cbv beta iota. apply request_full_J; [apply Hid|]. cbn. apply since_now.
    apply bool_decide_eq_true in Em. do 2 eexists. split; [done|]. by left.
  - destruct (_ && _) eqn:Eok; [|apply Hid]. apply andb_true_iff in Eok as [Eok Eall].
    rewrite M_bind_eq. unfold emit, modify. cbv beta iota. rewrite M_bind_eq. unfold set_ca, modify. cbv beta iota.
    match goal with |- J (when _ _ ?x).2 => assert (J x) as Hx end.
    { eapply J_less; [apply (Hid true (include_app env app_id))|..]; cbn; try done; eauto. }
    unfold when. destruct (include_app env app_id) eqn:Einc; [|done]. apply request_full_J; [done|]. cbn. apply since_now.
    do 2 eexists. split; [done|]. by right.
Qed.

(** *** The identifier a response carries *)

Lemma feed_static fragment a : as_command (feed fragment a).2 = as_command a
  ∧ as_notification_id (feed fragment a).2 = as_notification_id a.
Proof.
  unfold feed. monad_simpl. destruct (_ <? _); [done|]. destruct (_complete_length _) as [[e|]|]; [|done..]. by destruct (negb _).
Qed.
Lemma feed_uid fragment a uid complete :
  as_command a = CommandID.GetNotificationAttributes → as_notification_id a = Some uid →
  (feed fragment a).1 = Ok (Some complete) → le_val (slice 1 5 complete) = uid.
Proof.
  intros Hc Hn. unfold feed. monad_simpl. destruct (_ <? _); [done|].
  destruct (_complete_length (extend fragment a)) as [[e|]|] eqn:E; [|done..]. destruct (negb _); [done|]. cbn. intros [= <-].
  unfold _complete_length in E. cbn in E. rewrite Hc, Hn in E. destruct (as_buffer a ++ fragment) as [|b bs]; [done|].
  destruct (negb _); [done|]. cbn [Z.eqb CommandID.GetNotificationAttributes] in E. destruct (_ <? 5); [done|].
  destruct (le_val (slice 1 5 (b :: bs)) =? uid) eqn:Eu; [by apply Z.eqb_eq|done].
Qed.
Lemma attributes_uid body ids attrs : NotificationAttributes_parse body ids = Ok attrs → na_id attrs = le_val (slice 0 4 body).
Proof.
  unfold NotificationAttributes_parse. destruct (_ <? 4); [done|]. intros H.
  repeat (apply result_bind_ok in H as ([? ?] & _ & H)).
  match type of H with match ?m with _ => _ end = _ => destruct m end; [by injection H as <-|done].
Qed.
Lemma event_uid complete ev : DataSourceEvent_parse complete = Ok ev → slice 0 4 (ds_body ev) = slice 1 5 complete.
Proof. destruct complete; [done|]. by intros [= <-]. Qed.

Lemma or_abandon_J {A} r (x : result A) (f : A → M World ()) w : J w → (∀ a, x = Ok a → J (f a w).2) → J (or_abandon env r x f w).2.
Proof. intros Hw Hf. destruct x; [by apply Hf|]. exact (abandon_J env (Some r) w Hw). Qed.

Lemma on_response_J request complete w :
  J w → shape_ok request → grounded False (log w) request →
  (∀ n, pr_notification request = Some n → le_val (slice 1 5 complete) = n_id n) →
  J (on_response cfg env request complete w).2.
Proof.
  intros Hw Hs Hg Huid. unfold on_response. apply or_abandon_J; [done|]. intros ev Hev.
  destruct (ds_type ev =? _).
  - destruct (pr_notification request) as [n|] eqn:En; [|done]. destruct (pr_app_probe request) eqn:Ep.
    + apply or_abandon_J; [done|]. intros [uid app] _. destruct (negb _); [done|]. by apply on_identified_J.
    + apply or_abandon_J; [done|]. intros attrs Hat. destruct (negb _) eqn:Ex; [done|].
      apply negb_false_iff, bool_decide_eq_true in Ex. apply handle_attrs_J; [done|].
      unfold grounded in Hg. rewrite En, Ep in Hg. destruct Hg as (app & H1 & H2). rewrite H1 in Ex. injection Ex as Ex.
      exists n. rewrite Ex. split; [|done]. by rewrite (attributes_uid _ _ _ Hat), (event_uid _ _ Hev), (Huid n).
  - destruct (_ =? _); [|done]. apply or_abandon_J; [done|]. intros attrs _.
    revert Hw. match goal with |- J w → J (?m w).2 => enough (stable J m) as Hm by exact (Hm w) end.
    apply keeps_bind; [apply _| |intros _; apply handle_app_J]. keeps.
Qed.

Lemma with_assembler_shape r a a' : shape_ok r → pr_assembler r = Some a →
  as_command a' = as_command a → as_notification_id a' = as_notification_id a → shape_ok (r <| pr_assembler := Some a' |>).
Proof.
  intros [Hs0 Hs] Ha Hc Hn. split; [done|]. cbn. destruct (pr_notification r), (pr_action r); try done.
  - destruct Hs as (H1 & (x & H2 & H3 & H4) & H5). split; [done|]. split; [|done]. exists a'. split; [done|]. split; congruence.
  - destruct Hs as (_ & _ & H). congruence.
  - destruct Hs as ((x & H2 & H3) & H5). split; [|done]. exists a'. split; [done|]. congruence.
Qed.
Lemma J_active w r : J w → active_ok (log w) r → J (w <| rq ::= λ x, x <| _active_request := Some r |> |>).
Proof. intros [H1 H2 H3 H4 H5 H6 H7] Hr. split; cbn; auto. by intros r' [= <-]. Qed.

Lemma finish_active_spec w : (_finish_active_request w).1 = Ok (_active_request (rq w)) ∧ log (_finish_active_request w).2 = log w.
Proof.
  unfold _finish_active_request, set_rq, set_tm, on_queue, finish. monad_simpl. cbn. by destruct (_active_request (rq w)).
Qed.
Lemma on_ds_J iface value : stable J (_on_ds_changed cfg env iface value).
Proof.
  intros w Hw. unfold _on_ds_changed. destruct (negb _); [done|]. rewrite M_bind_eq. unfold get.
  destruct value as [fragment|]; [|done]. destruct (_active_request (rq w)) as [r0|] eqn:Er; [|done].
  destruct (pr_assembler r0) as [a0|] eqn:Ea; [|done]. destruct (j_active _ Hw _ Er) as [Hs Hg].
  pose proof (feed_static fragment a0) as Hst. pose proof (feed_uid fragment a0) as Hu.
  destruct (feed fragment a0) as [x a]. cbn in Hst, Hu. destruct Hst as [Hst1 Hst2].
  rewrite M_bind_eq. unfold set_rq, modify. cbv beta iota. set (r := r0 <| pr_assembler := Some a |>).
  set (w1 := w <| rq ::= λ y, y <| _active_request := Some r |> |>).
  assert (shape_ok r) as Hsr by by eapply with_assembler_shape.
  assert (pr_discarded r0 = false → grounded False (log w) r) as Hgr by done.
  assert (J w1) as Hw1 by (apply J_active; [done|]; by split).
  destruct x as [[complete|]|e]; [|done|].
  - rewrite M_bind_eq. destruct (finish_active_spec w1) as [Hf1 Hf2]. pose proof (finish_active_J w1 Hw1) as Hw2.
    destruct (_finish_active_request w1) as [y w2]. cbn in Hf1, Hf2, Hw2. subst y. rewrite M_bind_eq.
    assert (J (when (negb (pr_discarded r)) (on_response cfg env r complete) w2).2) as Hw3.
    { unfold when. change (pr_discarded r) with (pr_discarded r0). destruct (pr_discarded r0) eqn:Ed; [done|].
      cbn [negb]. apply on_response_J; [done|done|rewrite Hf2; by apply Hgr|]. intros n Hn. cbn in Hn.
      destruct Hs as [_ Hs]. rewrite Hn in Hs. destruct (pr_action r0); [done|]. destruct Hs as (_ & (b & Hb1 & Hb2 & Hb3) & _).
      assert (b = a0) as -> by congruence. by apply Hu. }
    destruct (when _ _ w2) as [[u|e] w3]; [|done]. by apply pump_requests_J.
  - revert Hw1. match goal with |- J w1 → J (?m w1).2 => enough (stable J m) as Hm by exact (Hm w1) end. keeps.
Qed.
End handlers.

(** ** Actions and lifecycle *)

Lemma od_get_elem {K V} `{EqDecision K} (k : K) (v : V) d : od_get k d = Some v → (k, v) ∈ d.
Proof.
  unfold od_get. intros H. apply fmap_Some in H as ([k' v'] & H & ->). apply find_some in H as [H1 H2].
  apply bool_decide_eq_true in H2. cbn in H2. subst k'. by apply list_elem_of_In.
Qed.

Section lifecycle.
Context (cfg : Config) (env : Env).

Lemma perform_J uid positive token reports : stable J (perform_notification_action cfg env uid positive token reports).
Proof.
  intros w Hw. unfold perform_notification_action. rewrite M_bind_eq. unfold tick at 1. monad_simpl.
  set (w1 := w <| fresh ::= S |>). assert (J w1) as Hw1 by by apply J_tick.
  set (u := match uid with Some u => _ | None => _ end). set (a := mkAction _ u positive reports).
  assert (∀ res, J (_report_action a res w1).2) as Hrep.
  { intros res. match goal with |- J (?m w1).2 => enough (stable J m) as Hm by exact (Hm w1 Hw1) end. keeps. }
  assert (∀ x, J x → J (let (y, x') := _report_action a ACTION_BUSY x in match y with Ok _ => (Ok false, x') | Raise e => (Raise e, x') end).2) as Hbusy.
  { intros x Hx. pose proof (J_keeps_noted _ (report_noted a ACTION_BUSY) x Hx) as Hy. by destruct (_report_action a ACTION_BUSY x) as [[?|?] ?]. }
  set (entry := if actions_setting env then _ else _).
  destruct (negb match entry with Some _ => _ | None => _ end) eqn:Eoff.
  { specialize (Hrep ACTION_UNAVAILABLE). by destruct (_report_action a _ w1) as [[?|?] ?]. }
  destruct (_ || negb (is_some _)).
  { specialize (Hrep ACTION_DISCONNECTED). by destruct (_report_action a _ w1) as [[?|?] ?]. }
  destruct (_ || (_ <=? _)); [by apply Hbusy|].
  destruct (build_perform_notification_action _ _) as [p|] eqn:Ep; [|done].
  destruct entry as [e|] eqn:Eentry; [|done]. apply negb_false_iff, andb_true_iff in Eoff as [Etok Ekind].
  apply bool_decide_eq_true in Etok. subst token. cbn [default].
  assert (offered a (aa_token e) (log w1)) as Hoff.
  { subst entry. destruct (actions_setting env); [|done]. apply od_get_elem in Eentry.
    exact (j_offers _ Hw1 _ Eentry a eq_refl Ekind). }
  unfold new_request, tick. monad_simpl.
  match goal with |- context [on_queue (enqueue ?k ?x true) ?y] => set (r := x); set (w2 := y) end.
  assert (J (w2 <| log ::= λ l, l ++ [Asked a (aa_token e)] |>)) as Hw2.
  { eapply (J_entry w2 _ (Asked a (aa_token e))); try done. by apply J_tick. }
  eapply (enqueue_J (pr_key r) r true) in Hw2; [|].
  2: { split; [done|]. split; [split; [done|]; cbn; done|]. exists (aa_token e). cbn. split; [apply elem_of_app; right; left|].
       intros _ _. by apply since_now. }
  revert Hw2. unfold on_queue, enqueue. monad_simpl. destruct (bool_decide _); [|destruct (_ <=? _)]; cbn [fst snd negb]; intros Hw2.
  - apply Hbusy. eapply J_less; [exact (J_tick _ Hw1)|..]; cbn; try done; eauto.
  - apply Hbusy. eapply J_less; [exact (J_tick _ Hw1)|..]; cbn; try done; eauto.
  - pose proof (J_alter true u _ Hw2) as Hw3. cbn in Hw3 |- *.
    match goal with |- context [_pump_requests cfg env ?x] =>
      pose proof (pump_requests_J cfg env x Hw3) as Hp; by destruct (_pump_requests cfg env x) as [[?|?] ?]
    end.
Qed.

#[local] Hint Resolve on_ns_J on_ds_J perform_J : keeps.
Lemma iface_added_J path uuid : stable J (_on_iface_added cfg env path uuid).
Proof. unfold _on_iface_added. keeps. Qed.
Lemma iface_removed_J path : stable J (_on_iface_removed cfg env path).
Proof. unfold _on_iface_removed, _cancel_subscribe_retry, _cancel_authorization_retry. keeps. Qed.
Lemma sweep_J managed : stable J (sweep cfg env managed).
Proof. induction managed as [|[path uuid] managed IH]; cbn; keeps. apply iface_added_J. Qed.
Lemma bind_J : stable J (_bind_manager_and_rescan cfg env).
Proof. unfold _bind_manager_and_rescan, _bind_manager_once, _remove_manager_watches. keeps. apply sweep_J. Qed.
Lemma catching_J m h : stable J m → (∀ e, stable J (h e)) → stable J (catching m h).
Proof. intros Hm Hh w Hw. unfold catching. specialize (Hm w Hw). destruct (m w) as [[u|e] w']; [done|by apply Hh]. Qed.
Lemma start_J : stable J (start cfg env).
Proof. unfold start. keeps. apply catching_J; [apply bind_J|intros e; keeps]. Qed.
Lemma retry_manager_J : stable J (_retry_manager_bind cfg env).
Proof. unfold _retry_manager_bind, _cancel_manager_retry. keeps. apply catching_J; [apply bind_J|intros e; keeps]. Qed.

(** The write of the old owner no longer holds the Control Point. *)
Lemma lose_write_J : stable J (set_rq (λ x, x <| _cp_write_token := None |>);; emit OwnerChanged).
Proof. intros w Hw. by eapply (J_entry w _ OwnerChanged). Qed.
Lemma bind_assoc {A B C} (m : M World A) (f : A → M World B) (g : B → M World C) w : ((m ≫= f) ≫= g) w = (m ≫= λ a, f a ≫= g) w.
Proof. unfold mbind, M_bind. by destruct (m w) as [[a|e] w']. Qed.
Lemma owner_J old_owner new_owner : stable J (observe_bluez_owner cfg env old_owner new_owner).
Proof.
  unfold observe_bluez_owner, _cancel_manager_retry, _cancel_bearer_settle, _cancel_transport_reset, _remove_manager_watches,
    _cancel_subscribe_retry, forget_paths.
  apply keeps_bind; [apply _|keeps|]. intros w0. destruct (negb _); [keeps|].
  apply keeps_bind; [apply _|keeps|intros _]. apply keeps_bind; [apply _|keeps|intros _].
  match goal with |- stable J (?m ≫= λ _, ?n ≫= ?k) => enough (stable J ((m;; n) ≫= k)) as H by (intros w Hw; rewrite <-bind_assoc; by apply H) end.
  apply keeps_bind; [apply _|apply lose_write_J|intros _]. keeps. apply catching_J; [apply bind_J|intros e; keeps].
Qed.
Lemma observe_le_J bearer : stable J (observe_le cfg env bearer).
Proof. unfold observe_le, _cancel_bearer_settle, _cancel_transport_reset, _cancel_subscribe_retry. keeps. Qed.
Lemma bearer_J bearer legacy : stable J (observe_bearer_state cfg env bearer legacy).
Proof.
  unfold observe_bearer_state, _cancel_bearer_settle, _cancel_transport_reset, _cancel_subscribe_retry. keeps; apply observe_le_J.
Qed.
Lemma stop_J : stable J (stop cfg env).
Proof.
  unfold stop, _cancel_manager_retry, _cancel_subscribe_retry, _cancel_authorization_retry, _cancel_bearer_settle, _cancel_transport_reset,
    _remove_manager_watches, forget_paths. keeps.
Qed.

Lemma on_toggle_J i e : stable J (on_toggle cfg env i e).
Proof.
  intros w Hw. unfold on_toggle. rewrite M_bind_eq. unfold get. destruct (toggles (rq w) !! i) as [tg|] eqn:E; [|done].
  pose proof (j_toggles _ Hw tg ltac:(by eapply list_elem_of_lookup_2)) as Htg. rewrite M_bind_eq. unfold set_rq, modify. cbv beta iota.
  match goal with |- J (_ ?x).2 => assert (J x) as Hx end.
  { eapply J_less; [exact Hw|..]; cbn; try done; eauto. intros tg' H. by eapply list_elem_of_delete_inv. }
  revert Hx. match goal with |- J ?x → J (?m ?x).2 => enough (stable J m) as Hm by exact (Hm x) end.
  destruct (tg_starting tg), e; [apply refresh_failed_J|by apply started_J|by apply stop_failed_J|by apply stopped_J].
Qed.
Lemma step_J e : stable J (step cfg env e).
Proof.
  destruct e; cbn [step]; unfold watching, receiving, on_timer, answering, notification_actions_changed.
  - apply start_J.
  - apply stop_J.
  - apply owner_J.
  - apply bearer_J.
  - keeps. apply iface_added_J.
  - keeps. apply iface_removed_J.
  - keeps.
  - keeps.
  - keeps.
  - keeps.
  - apply on_toggle_J.
  - keeps.
  - keeps.
  - keeps.
  - keeps. apply retry_manager_J.
  - keeps.
  - keeps.
  - keeps.
  - keeps.
  - keeps.
  - keeps.
  - keeps.
  - intros w Hw. eapply J_less; [exact Hw|..]; cbn; try done; eauto.
Qed.
End lifecycle.

Lemma J_init previously_authorized now : J (World_init previously_authorized now).
Proof.
  split; cbn; try done; try (intros ? H; by apply elem_of_nil in H).
  - apply each_nil.
Qed.
Lemma run_J cfg es w : J w → J (run cfg es w).
Proof.
  intros Hw. unfold run. apply run_all_invariant; [|done].
  intros m t Hm Ht. apply list_elem_of_fmap in Hm as ([env e] & -> & _). by apply step_J.
Qed.

(** ** The bytes of a request *)

Lemma content_packet_shape uid ids p : content_packet uid ids = Ok p →
  0 <= uid < 2 ^ 32 ∧ ∃ rest, p = z2b 0 :: le_bytes 4 uid ++ rest ∧ 10 ≤ zlen rest.
Proof.
  unfold content_packet, build_get_notification_attributes. intros H.
  apply result_bind_ok in H as (u & Hu & H). apply pack_le_ok in Hu as [-> Hr]. split; [exact Hr|].
  repeat (apply result_bind_ok in H as (? & Hx & H); apply pack_le_ok in Hx as [-> _]).
  assert (∀ ids seen out q, append_labels ids seen out = Ok q → ∃ more, q = out ++ more) as Happ.
  { clear. induction ids as [|i ids IH]; intros seen out q; cbn; [intros [= <-]; exists []; by rewrite app_nil_r|].
    destruct (_ || _); [done|]. intros (b & _ & Hq)%result_bind_ok. destruct (IH _ _ _ Hq) as (more & ->).
    exists (b ++ more). by rewrite app_assoc. }
  destruct (Happ _ _ _ _ H) as (more & ->). eexists. split; [cbn; reflexivity|]. zlen_norm. cbn. lia.
Qed.
Lemma le_bytes_inj n x y : 0 <= x < 256 ^ Z.of_nat n → 0 <= y < 256 ^ Z.of_nat n → le_bytes n x = le_bytes n y → x = y.
Proof. intros Hx Hy H. by rewrite <-(le_val_bytes n x), <-(le_val_bytes n y), H. Qed.
Lemma content_justified l r uid ids : justified l r → content_packet uid ids = Ok (pr_packet r) →
  ∃ n app_id, n_id n = uid ∧ admitted n app_id l.
Proof.
  intros Hj Hc. destruct (content_packet_shape _ _ _ Hc) as (Hu & rest & Hp & Hlen).
  assert (∀ app, build_get_app_attributes app = Ok (pr_packet r) → False) as Happ.
  { intros app. unfold build_get_app_attributes. intros (e & _ & [= H])%result_bind_ok. by rewrite <-H in Hp. }
  destruct Hj as [Hk _|app Hk _ _|n Hk _ _|n app ids' Hk Had _|a token Hk _ _ _]; [by destruct (Happ _ Hk)..| | |].
  - exfalso. unfold build_get_notification_app_identifier in Hk. apply result_bind_ok in Hk as (u & Hx & [= H]).
    apply pack_le_ok in Hx as [-> _]. rewrite Hp in H. apply (f_equal zlen) in H. revert H. zlen_norm. rewrite ?zlen_le_bytes. cbn. lia.
  - exists n, app. split; [|done]. destruct (content_packet_shape _ _ _ Hk) as (Hn & rest' & Hp' & _).
    rewrite Hp in Hp'. assert (le_bytes 4 uid ++ rest = le_bytes 4 (n_id n) ++ rest') as H by exact (f_equal (drop 1) Hp').
    apply app_inj_1 in H as [H _]; [|by rewrite !length_le_bytes]. by apply (le_bytes_inj 4).
  - exfalso. unfold action_packet, build_perform_notification_action in Hk. destruct (negb _); [done|]. destruct (negb _); [done|].
    apply result_bind_ok in Hk as (u & Hx & Hk). apply result_bind_ok in Hk as (b & _ & [= H]). by rewrite <-H in Hp.
Qed.

(** * Theorems *)

Section histories.
Context (cfg : Config) (es : list (Env * event)) (previously_authorized : bool) (now : time).

(** The history of the client after the events [es]. *)
Definition history : list action := log (run cfg es (World_init previously_authorized now)).

Lemma history_entry l1 a l2 : history = l1 ++ a :: l2 → entry_ok l1 a.
Proof. apply (j_log _ (run_J cfg es _ (J_init previously_authorized now))). Qed.

(** The Control Point is serialized: whatever BlueZ, the phone and the
    callers do, and in whatever order, the client hands BlueZ a write only when
    the previous one has been answered or its bluetoothd has gone. *)
Theorem writes_serialized l1 r token l2 : history = l1 ++ Writing r token :: l2 → outstanding l1 = None.
Proof. intros H. by destruct (history_entry _ _ _ H). Qed.

(** C25: Notification content is read only when the policy allows it: when the
    bytes of a write ask for the title, subtitle and message of a UID, the
    phone has named the app of a notification with that UID, the app is Messages
    or one the settings admit, and since then neither the UID session ended nor
    the phone removed the notification. *)
Theorem content_reads_admitted l1 r token l2 uid label_ids :
  history = l1 ++ Writing r token :: l2 → content_packet uid label_ids = Ok (pr_packet r) →
  ∃ n app_id, n_id n = uid ∧ admitted n app_id l1.
Proof. intros H. destruct (history_entry _ _ _ H) as [_ Hj]. by apply content_justified. Qed.

(** C26: Only admitted notifications are delivered: an event given to the
    sinks carries the UID and the app of a notification whose app the policy
    admitted, and since then neither the UID session ended nor the phone removed
    that notification, however late its app name arrived. *)
Theorem events_admitted l1 e l2 :
  history = l1 ++ OnEvent e :: l2 → ∃ n, n_id n = ev_notification_id e ∧ admitted n (ev_app_id e) l1.
Proof. apply history_entry. Qed.

(** C27: A button acts only on the notification that showed it: an action is
    written on its first attempt only when an event with the token of the click
    offered it under a label, and from that event to the write the phone said
    nothing of the UID and the offers were not taken back. *)
Theorem actions_offered l1 r token l2 a :
  history = l1 ++ Writing r token :: l2 → pr_action r = Some a → pr_busy_retries r = 0 →
  action_packet a = Ok (pr_packet r) ∧
  ∃ before e shown click after, l1 = before ++ OnEvent e :: shown ++ Asked a click :: after ∧ offers a click e
    ∧ Forall (λ x, ¬ retires (ar_uid a) x) (shown ++ after).
Proof.
  intros H Ha Hb. destruct (history_entry _ _ _ H) as [_ Hj]. destruct Hj as [? ?|? ? ? ?|? ? ? ?|? ? ? ? ? ?|a' click Hp Ha' _ Hs]; try congruence.
  assert (a' = a) as -> by congruence. split; [done|].
  destruct (Hs Hb) as (la & x & after & Hl & -> & Hafter). subst l1.
  rewrite <-app_assoc in H. cbn in H. destruct (history_entry _ _ _ H) as (before & y & shown & -> & (e & -> & He) & Hshown).
  exists before, e, shown, click, after. split; [by rewrite <-app_assoc|]. split; [done|]. apply Forall_app. auto.
Qed.
End histories.

(** ** The theorems at work *)

Definition day : list (Env * event) :=
  (env0,.) <$> connecting ++ delivering ++ [EPerform (Some 7) true (Some 1) true; EWritten 10].
Definition entry (k : nat) : action := default OnStatus (history config day false 0 !! k).
Definition request_of (a : action) : _PendingRequest :=
  match a with
  | Writing r _ => r
  | _ => mkPending 0 "" [] None None false None false 0 [] None false
  end.
Definition event_at (k : nat) : AncsEvent :=
  match entry k with OnEvent e => e | _ => mkEvent 0 [] [] [] [] [] 0 [] [] 0 end.
Definition past (k : nat) : list action := take k (history config day false 0).
Definition rest (k : nat) : list action := drop (S k) (history config day false 0).

Lemma writes_serialized_witness : outstanding (past 10) = None.
Proof.
  apply (writes_serialized config day false 0 (past 10) (request_of (entry 10)) 5 (rest 10)). vm_compute. reflexivity.
Defined.
Lemma content_reads_admitted_witness : ∃ n app_id, n_id n = 7 ∧ admitted n app_id (past 10).
Proof.
  apply (content_reads_admitted config day false 0 (past 10) (request_of (entry 10)) 5 (rest 10) 7 [6]); vm_compute; reflexivity.
Defined.
Lemma events_admitted_witness : ∃ n, n_id n = 7 ∧ admitted n (lit "org.chat") (past 14).
Proof.
  destruct (events_admitted config day false 0 (past 14) (event_at 14) (rest 14) ltac:(vm_compute; reflexivity)) as (n & H1 & H2).
  exists n. split; [rewrite H1; vm_compute; reflexivity|]. assert (ev_app_id (event_at 14) = lit "org.chat") as <- by (vm_compute; reflexivity).
  exact H2.
Defined.
Lemma actions_offered_witness :
  action_packet (mkAction 8 7 true true) = Ok (pr_packet (request_of (entry 16)))
  ∧ ∃ before e shown click after, past 16 = before ++ OnEvent e :: shown ++ Asked (mkAction 8 7 true true) click :: after
    ∧ offers (mkAction 8 7 true true) click e ∧ Forall (λ x, ¬ retires 7 x) (shown ++ after).
Proof.
  apply (actions_offered config day false 0 (past 16) (request_of (entry 16)) 10 (rest 16) (mkAction 8 7 true true)); vm_compute; reflexivity.
Defined.

(** A click whose write BlueZ refuses as busy is written again although the
    phone removed the notification meanwhile: [_forget_actionable] only drops
    queued actions, and [failed] asks [discarded], which no action ever is. *)
Definition busy : dbus_error := mkError "org.bluez.Error.InProgress" "In Progress" "".
Example retired_action_retried :
  let es := (env0,.) <$> connecting ++ delivering ++
    [EPerform (Some 7) true (Some 1) true; heard (notification_bytes 2 8 7); EWriteFailed 10 busy; EBusyRetry] in
  omap (λ a, match a with
             | Writing r _ => match pr_action r with Some a => Some (inl (ar_uid a, pr_busy_retries r)) | None => None end
             | Heard n => Some (inr (n_type n, n_id n))
             | _ => None
             end) (history config es false 0) =
  [inr (EventID.NotificationAdded, 7); inl (7, 0); inr (EventID.NotificationRemoved, 7); inl (7, 1)].
Proof. vm_compute. reflexivity. Qed.
