(* ===== verification/AncsLive.v ===== *)
(** * AncsLive: the ANCS client's queue never stalls.

    Whenever a request is queued or active, or the CCC refresh runs, something
    that resumes it is pending: an answer BlueZ owes to the running owner's
    client, or an armed timer.  The bus reports a new owner only when there was
    none, or replaces one, and dbus-python raises nothing but D-Bus errors. *)
From S2P Require Import Prelude Wire PyStr Text Ancs Backlog AncsClient AncsSafety.

Abbreviation queue w := (_request_queue (rq w)).
Abbreviation generation w := (_bluez_owner_generation (lc w)).

(** ** The invariant *)

(** A key no queued request has: that of a discarded request. *)
Definition retired (k : string) : bool := String.prefix "retired:" k.

(** What the active request owes while it waits. *)
Definition waits (w : World) (r : _PendingRequest) : Prop :=
  is_some (_request_timeout_id (tm w)) = true ∨ ∃ f, f ∈ writes (rq w) ∧ if_generation f = generation w ∧ pr_serial (if_request f) = pr_serial r.
Definition holds_key (w : World) (r : _PendingRequest) : Prop :=
  if pr_discarded r then retired (pr_key r) = true ∧ pr_notification r ≠ None else retired (pr_key r) = false ∧ pr_key r ∈ in_flight (queue w).

(** The writes BlueZ has not answered. *)
Record channel (w : World) : Prop := {
  ch_nodup : NoDup (if_token <$> writes (rq w));
  ch_fresh : ∀ f, f ∈ writes (rq w) → (if_token f < fresh w)%nat;
  ch_past : ∀ f, f ∈ writes (rq w) → if_generation f <= generation w;
  ch_current : ∀ f, f ∈ writes (rq w) → if_generation f = generation w → _cp_write_token (rq w) = Some (if_token f);
  ch_token : ∀ t, _cp_write_token (rq w) = Some t → ∃ f, f ∈ writes (rq w) ∧ if_token f = t ∧ if_generation f = generation w;
  ch_maximum : 1 <= rb_maximum (queue w);
  ch_toggles : ∀ tg, tg ∈ toggles (rq w) → retired (pr_key (tg_request tg)) = false;
}.

(** [Gone]: nothing is known of the active request; [Loose]: it is not known to
    wait; [Rest]: a queue that is not empty waits for something. *)
Inductive mode := Gone | Loose | Tight | Rest.
Definition known (m : mode) : bool := match m with Gone => false | _ => true end.
Definition waiting (m : mode) : bool := match m with Gone | Loose => false | _ => true end.

Record G (n : nat) (m : mode) (w : World) : Prop := {
  g_channel : channel w;
  g_wf : wf (queue w);
  g_keys : ∀ kr, kr ∈ rb_queue (queue w) → kr.1 = pr_key kr.2 ∧ retired kr.1 = false ∧ pr_discarded kr.2 = false;
  g_length : (length (rb_queue (queue w)) <= n)%nat;
  g_queue : rb_queue (queue w) ≠ [] → _notify_started (tr w) = true;
  g_receivers : receivers (tr w) ≠ None → _notify_started (tr w) = true;
  g_started : _notify_started (tr w) = true → _started (lc w) = true ∧ is_some (_cp_path (tr w)) = true;
  g_refresh : ∀ k, _notify_refresh (tr w) = Some k →
    _notify_started (tr w) = true ∧ ∃ tg, tg ∈ toggles (rq w) ∧ tg_token tg = k ∧ tg_generation tg = generation w;
  g_active : ∀ r, _active_request (rq w) = Some r →
    _notify_started (tr w) = true ∧ (known m = true → holds_key w r) ∧ (waiting m = true → waits w r);
  g_rest : m = Rest → rb_queue (queue w) ≠ [] →
    _active_request (rq w) ≠ None ∨ _cp_write_token (rq w) ≠ None ∨ _cp_busy_retry_id (tm w) ≠ None ∨ _notify_refresh (tr w) ≠ None;
}.

Lemma G_length n n' m w : G n m w → (length (rb_queue (queue w)) <= n')%nat → G n' m w.
Proof. intros [] Hn. by split. Qed.
Lemma G_le n n' m w : G n m w → (n <= n')%nat → G n' m w.
Proof. intros H Hn. eapply G_length; [exact H|]. pose proof (g_length _ _ _ H). lia. Qed.
Lemma G_tight n w : G n Rest w → G n Tight w.
Proof. intros []. split; auto. Qed.
Lemma G_loose n w : G n Tight w → G n Loose w.
Proof. intros []. split; auto; try done. intros r Hr. destruct (g_active0 r Hr) as (H1 & H2 & H3). done. Qed.

(** What the invariant reads. *)
Definition same (w w' : World) : Prop :=
  lc w' = lc w ∧ rq w' = rq w ∧ (fresh w <= fresh w')%nat ∧ _notify_started (tr w') = _notify_started (tr w)
  ∧ _cp_path (tr w') = _cp_path (tr w) ∧ receivers (tr w') = receivers (tr w) ∧ _notify_refresh (tr w') = _notify_refresh (tr w)
  ∧ _request_timeout_id (tm w') = _request_timeout_id (tm w) ∧ _cp_busy_retry_id (tm w') = _cp_busy_retry_id (tm w).
#[export] Instance same_preorder : PreOrder same.
Proof.
  split; [by intros w; unfold same|]. intros w1 w2 w3 H1 H2. unfold same in *.
  destruct H1 as (? & ? & ? & ? & ? & ? & ? & ? & ?), H2 as (? & ? & ? & ? & ? & ? & ? & ? & ?). split_and!; try congruence; lia.
Qed.
Lemma channel_same w w' : same w w' → channel w → channel w'.
Proof.
  intros (H1 & H2 & H3 & _) [C1 C2 C3 C4 C5 C6 C7]. split; rewrite ?H1, ?H2; auto.
  intros f Hf. specialize (C2 f Hf). lia.
Qed.
Lemma G_same n m w w' : same w w' → G n m w → G n m w'.
Proof.
  intros Hs [Gc Gw Gk Gl Gq Gr Gs Gf Ga Gre]. pose proof (channel_same _ _ Hs Gc) as Hc.
  destruct Hs as (H1 & H2 & _ & H4 & H5 & H6 & H7 & H8 & H9).
  split; rewrite ?H1, ?H2, ?H4, ?H5, ?H6, ?H7, ?H9; auto.
  intros r Hr. unfold waits, holds_key. rewrite H2, H1, H8. by apply Ga.
Qed.

(** ** Operations that leave it alone *)

Abbreviation calms := (tame same).
Lemma tame_same n md {A} (m : M World A) : calms m → tame (holding (G n md)) m.
Proof. intros Hm w. eapply wp_mono; [apply Hm|]. intros a w' H. unfold holding. by apply G_same. Qed.

Ltac same := unfold same; cbn; split_and!; first [done | lia].
Lemma calm_emit a : calms (emit a). Proof. intros w. unfold wp. cbn. same. Qed.
Lemma calm_set_ca f : calms (set_ca f). Proof. intros w. unfold wp. cbn. same. Qed.
Lemma calm_set_ac f : calms (set_ac f). Proof. intros w. unfold wp. cbn. same. Qed.
Lemma calm_tick : calms tick. Proof. intros w. unfold wp, tick. monad_simpl. same. Qed.
Lemma calm_set_tm f : (∀ t, _request_timeout_id (f t) = _request_timeout_id t ∧ _cp_busy_retry_id (f t) = _cp_busy_retry_id t) → calms (set_tm f).
Proof. intros Hf w. unfold wp. cbn. destruct (Hf (tm w)). same. Qed.
Lemma calm_set_tr f :
  (∀ t, _notify_started (f t) = _notify_started t ∧ _cp_path (f t) = _cp_path t ∧ receivers (f t) = receivers t
        ∧ _notify_refresh (f t) = _notify_refresh t) → calms (set_tr f).
Proof. intros Hf w. unfold wp. cbn. destruct (Hf (tr w)) as (? & ? & ? & ?). same. Qed.
#[export] Hint Resolve calm_emit calm_set_ca calm_set_ac calm_tick : tame.
#[export] Hint Extern 1 (tame same (set_tm _)) => apply calm_set_tm; intros ?; split; reflexivity : tame.
#[export] Hint Extern 1 (tame same (set_tr _)) => apply calm_set_tr; intros ?; split_and!; reflexivity : tame.

Section calm.
Context (cfg : Config) (env : Env).
Lemma calm_status : calms (on_status cfg). Proof. unfold on_status. tame. Qed.
Lemma calm_status_if b : calms (status_if cfg b). Proof. unfold status_if. apply tame_when; [apply _|apply calm_status]. Qed.
Lemma calm_report a res : calms (_report_action a res). Proof. unfold _report_action. tame. Qed.
Lemma calm_report_all l res : calms (report_all l res).
Proof.
  induction l as [|r l IH]; cbn; [tame|]. apply tame_bind; [apply _| |intros _; exact IH].
  destruct (pr_action r); [apply calm_report|tame].
Qed.
Lemma calm_subscribe_retry : calms _schedule_subscribe_retry. Proof. unfold _schedule_subscribe_retry. tame. Qed.
Lemma calm_transport_reset : calms (_schedule_transport_reset cfg). Proof. unfold _schedule_transport_reset. tame. Qed.
Lemma calm_settle : calms _schedule_bearer_settle. Proof. unfold _schedule_bearer_settle. tame. Qed.
Lemma calm_manager : calms _schedule_manager_retry. Proof. unfold _schedule_manager_retry. tame. Qed.
Lemma calm_authorization : calms _schedule_authorization_retry. Proof. unfold _schedule_authorization_retry. tame. Qed.
Lemma calm_health : calms _schedule_legacy_health. Proof. unfold _schedule_legacy_health. tame. Qed.
Lemma calm_permission e : calms (_observe_permission_error cfg e).
Proof. unfold _observe_permission_error, on_status, _schedule_authorization_retry. tame. Qed.
Lemma calm_authorized : calms (_mark_authorized cfg).
Proof. unfold _mark_authorized, on_status, _schedule_legacy_health, _cancel_authorization_retry. tame. Qed.
Lemma calm_stop : calms (_stop_bluez_notifications env). Proof. unfold _stop_bluez_notifications. tame. Qed.
Lemma calm_remember e : calms (_remember_actionable e). Proof. unfold _remember_actionable. tame. Qed.
Lemma calm_emit_event attrs app_name : calms (_emit env attrs app_name).
Proof. unfold _emit, _remember_actionable. tame. Qed.
Lemma calm_emit_all l app_name : calms (emit_all env l app_name).
Proof. induction l; cbn; [tame|]. apply tame_bind; [apply _|apply calm_emit_event|done]. Qed.
Lemma calm_flush app_id app_name : calms (flush_lookup env app_id app_name).
Proof. unfold flush_lookup. tame. apply calm_emit_all. Qed.
Lemma calm_written a : calms (_action_written a). Proof. unfold _action_written, _report_action. tame. Qed.
Lemma calm_failed a e : calms (_action_failed a e). Proof. unfold _action_failed, _report_action. tame. Qed.
Lemma calm_activity n : calms (_report_call_activity cfg n). Proof. unfold _report_call_activity. tame. Qed.
Lemma calm_start_notify path : calms (_start_notify env path). Proof. unfold _start_notify. tame. Qed.
Lemma calm_handle_app attrs : calms (_handle_app_attrs env attrs).
Proof. unfold _handle_app_attrs. tame. apply calm_flush. Qed.
End calm.

(** ** Removing requests *)

Lemma on_queue_total {A} (m : M (RequestBacklog _PendingRequest) A) (I : World → Prop) w :
  (∃ a, (m (queue w)).1 = Ok a) → I (w <| rq ::= λ x, x <| _request_queue := (m (queue w)).2 |> |>) → wp (on_queue m) (λ _, I) w.
Proof. unfold wp, on_queue. intros [a Ha] HI. destruct (m (queue w)) as [r q]. cbn in *. by subst r. Qed.

Lemma remove_if_queue {T} (p : T → bool) (b : RequestBacklog T) :
  rb_queue (remove_if p b).2 = List.filter (λ kr, negb (p kr.2)) (rb_queue b).
Proof. unfold remove_if. monad_simpl. by rewrite remove_loop_spec. Qed.
Lemma remove_if_maximum {T} (p : T → bool) (b : RequestBacklog T) : rb_maximum (remove_if p b).2 = rb_maximum b.
Proof. unfold remove_if. monad_simpl. by rewrite remove_loop_spec. Qed.
Lemma remove_if_in_flight {T} (p : T → bool) (b : RequestBacklog T) : wf b → in_flight b ⊆ in_flight (remove_if p b).2.
Proof.
  intros Hb k Hk. unfold in_flight in Hk. apply elem_of_difference in Hk as [H1 H2]. rewrite elem_of_list_to_set in H2. unfold in_flight, keys in *.
  rewrite remove_if_queue. unfold remove_if. monad_simpl. rewrite remove_loop_spec. cbn.
  assert (∀ f, k ∉ (List.filter f (rb_queue b)).*1) as Hf by (intros f H; by apply filter_keys_subseteq in H).
  rewrite !elem_of_difference, !elem_of_list_to_set. auto.
Qed.
Lemma holds_key_mono w w' r : in_flight (queue w) ⊆ in_flight (queue w') → holds_key w r → holds_key w' r.
Proof. unfold holds_key. destruct (pr_discarded r); [done|]. set_solver. Qed.

Lemma remove_G n m p : tame (holding (G n m)) (on_queue (remove_if p)).
Proof.
  intros w. apply on_queue_total; [apply remove_if_ok|]. intros [[C1 C2 C3 C4 C5 C6 C7] Gw Gk Gl Gq Gr Gs Gf Ga Gre].
  assert (∀ kr, kr ∈ rb_queue (remove_if p (queue w)).2 → kr ∈ rb_queue (queue w)) as Hsub.
  { intros kr H. by apply remove_if_subseteq in H as [H _]. }
  assert (rb_queue (remove_if p (queue w)).2 ≠ [] → rb_queue (queue w) ≠ []) as Hne.
  { intros H He. apply H. rewrite remove_if_queue, He. done. }
  split; cbn; auto.
  - split; cbn; auto. by rewrite remove_if_maximum.
  - eapply step_wf; [exact Gw|]. constructor.
  - rewrite remove_if_queue. etrans; [apply List.filter_length_le|done].
  - intros r Hr. destruct (Ga r Hr) as (H1 & H2 & H3). split; [done|]. split; [|done]. intros Hm.
    eapply holds_key_mono; [|by apply H2]. cbn. by apply remove_if_in_flight.
Qed.

(** The active request's key is no queued request's. *)
Lemma key_free w r n m : G n m w → holds_key w r → pr_key r ∉ keys (queue w).
Proof.
  intros HG. unfold holds_key. destruct (pr_discarded r).
  - intros [Hret _] Hin. apply list_elem_of_fmap in Hin as (kr & Hk & Hkr). destruct (g_keys _ _ _ HG kr Hkr) as (_ & H & _). congruence.
  - intros [_ Hin] Hin'. unfold in_flight in Hin. apply elem_of_difference in Hin as [_ Hin]. by rewrite elem_of_list_to_set in Hin.
Qed.
Lemma finish_wf {T} (b : RequestBacklog T) k : wf b → k ∉ keys b → wf (finish k b).2.
Proof.
  intros [H1 H2 H3 H4] Hk. split; cbn; [done| |done|].
  - etrans; [|exact H2]. apply zsize_mono. set_solver.
  - intros k' Hk'. apply elem_of_difference. split; [by apply H4|]. set_solver.
Qed.

Lemma discard_G n m uid : m ≠ Gone → tame (holding (G n m)) (_discard_notification_requests uid).
Proof.
  intros Hm. unfold _discard_notification_requests. apply tame_bind; [apply _|apply remove_G|intros _].
  intros w. unfold wp, on_queue, finish, set_rq, set_ca. monad_simpl. destruct (_active_request (rq w)) as [r|] eqn:Er.
  2: { cbn. intros HG. eapply G_same; [|exact HG]. same. }
  destruct (concerns uid r && negb (pr_discarded r)) eqn:Ec; cbn; [|intros HG; eapply G_same; [|exact HG]; same].
  apply andb_true_iff in Ec as [Ec Ed]. apply negb_true_iff in Ed. intros HG.
  pose proof HG as [[C1 C2 C3 C4 C5 C6 C7] Gw Gk Gl Gq Gr Gs Gf Ga Gre]. destruct (Ga r Er) as (H1 & H2 & H3).
  specialize (H2 ltac:(by destruct m)).
  split; cbn; auto.
  - by split.
  - change (wf (finish (pr_key r) (queue w)).2). apply finish_wf; [done|]. by eapply key_free.
  - intros r' [= <-]. split; [done|]. split; [intros _; unfold holds_key, retired; cbn; split; [by destruct (pr_key r)|]; unfold concerns in Ec; by destruct (pr_notification r)|]. intros Hw. destruct (H3 Hw) as [Ht|Hf]; [by left|by right].
Qed.

Section removing.
Context (cfg : Config).
Lemma drop_G n m p res : tame (holding (G n m)) (_drop_queued_actions p res).
Proof.
  unfold _drop_queued_actions. apply tame_bind; [apply _|apply remove_G|intros l].
  apply tame_bind; [apply _|apply tame_same, calm_report_all|intros _]. apply tame_ret, _.
Qed.
Lemma reset_actions_G n m : tame (holding (G n m)) (_reset_actions cfg).
Proof.
  unfold _reset_actions. apply tame_bind; [apply _|apply tame_get, _|intros w].
  apply tame_bind; [apply _|apply tame_same, calm_set_ac|intros _]. apply tame_bind; [apply _|apply drop_G|intros k].
  apply tame_same. tame.
Qed.
Lemma end_session_G n m : m ≠ Gone → tame (holding (G n m)) (_end_session cfg).
Proof.
  intros Hm. unfold _end_session. apply tame_bind; [apply _|apply tame_same, calm_set_ca|intros _].
  apply tame_bind; [apply _|by apply discard_G|intros _]. apply tame_same. tame.
Qed.
Lemma forget_G n m uid : tame (holding (G n m)) (_forget_actionable cfg uid).
Proof. unfold _forget_actionable. apply tame_bind; [apply _|apply drop_G|intros k]. apply tame_same. tame. Qed.
Lemma hear_G n m x : m ≠ Gone → tame (holding (G n m)) (hear cfg x).
Proof.
  intros Hm. unfold hear. apply tame_bind; [apply _|apply tame_same, calm_emit|intros _].
  apply tame_bind; [apply _|apply tame_same, calm_activity|intros _]. apply tame_bind; [apply _|apply forget_G|intros _].
  apply tame_when; [apply _|by apply discard_G].
Qed.
End removing.

(** *** Operations that leave the connection alone *)

Definition still (w w' : World) : Prop := tr w' = tr w ∧ lc w' = lc w.
#[export] Instance still_preorder : PreOrder still.
Proof. split; [by intros w|]. intros w1 w2 w3 [H1 H2] [H3 H4]. split; congruence. Qed.
Lemma still_emit a : tame still (emit a). Proof. intros w. by unfold wp. Qed.
Lemma still_set_ca f : tame still (set_ca f). Proof. intros w. by unfold wp. Qed.
Lemma still_set_ac f : tame still (set_ac f). Proof. intros w. by unfold wp. Qed.
Lemma still_set_tm f : tame still (set_tm f). Proof. intros w. by unfold wp. Qed.
Lemma still_set_rq f : tame still (set_rq f). Proof. intros w. by unfold wp. Qed.
Lemma still_remove p : tame still (on_queue (remove_if p)).
Proof. intros w. by apply on_queue_total; [apply remove_if_ok|]. Qed.
Lemma still_finish k : tame still (on_queue (finish k)). Proof. intros w. by unfold wp. Qed.
#[local] Hint Resolve still_emit still_set_ca still_set_ac still_set_tm still_set_rq still_remove still_finish : tame.
Lemma still_report_all l res : tame still (report_all l res).
Proof. unfold _report_action. induction l as [|r l IH]; cbn; [tame|]. unfold _report_action. tame. Qed.
#[local] Hint Resolve still_report_all : tame.
Lemma still_drop p res : tame still (_drop_queued_actions p res). Proof. unfold _drop_queued_actions. tame. Qed.
#[local] Hint Resolve still_drop : tame.
Lemma still_reset_actions cfg : tame still (_reset_actions cfg). Proof. unfold _reset_actions. tame. Qed.
Lemma still_discard uid : tame still (_discard_notification_requests uid). Proof. unfold _discard_notification_requests. tame. Qed.
#[local] Hint Resolve still_reset_actions still_discard : tame.
Lemma still_end_session cfg : tame still (_end_session cfg). Proof. unfold _end_session. tame. Qed.
Lemma still_hear cfg x : tame still (hear cfg x). Proof. unfold hear, _report_call_activity, _forget_actionable. tame. Qed.

(** ** Leaving the slot, and clearing everything *)

Lemma finish_active_G n m w : m ≠ Gone → G n m w →
  wp _finish_active_request (λ r w', r = _active_request (rq w) ∧ G n Tight w' ∧ _active_request (rq w') = None
    ∧ rb_queue (queue w') = rb_queue (queue w) ∧ tr w' = tr w ∧ lc w' = lc w
    ∧ (∀ r, _active_request (rq w) = Some r → pr_key r ∉ keys (queue w'))) w.
Proof.
  intros Hm HG. unfold _finish_active_request, set_rq, set_tm, on_queue, finish, wp. monad_simpl. cbn.
  pose proof HG as [[C1 C2 C3 C4 C5 C6 C7] Gw Gk Gl Gq Gr Gs Gf Ga Gre].
  destruct (_active_request (rq w)) as [r|] eqn:Er; cbn; split_and!; try done.
  - assert (holds_key w r) as Hk by (apply (Ga r eq_refl); by destruct m). pose proof (key_free _ _ _ _ HG Hk) as Hfree.
    split; cbn; auto; try done; try (by split). change (wf (finish (pr_key r) (queue w)).2). by apply finish_wf.
  - intros r' [= <-]. assert (holds_key w r) as Hk by (apply (Ga r eq_refl); by destruct m). exact (key_free _ _ _ _ HG Hk).
Qed.

(** What clearing a subscription does not touch. *)
Definition kept (w w' : World) : Prop :=
  lc w' = lc w ∧ _cp_write_token (rq w') = _cp_write_token (rq w) ∧ writes (rq w') = writes (rq w) ∧ toggles (rq w') = toggles (rq w)
  ∧ (fresh w <= fresh w')%nat ∧ rb_maximum (queue w') = rb_maximum (queue w) ∧ _cp_path (tr w') = _cp_path (tr w).
#[export] Instance kept_preorder : PreOrder kept.
Proof.
  split; [by intros w; unfold kept|]. intros w1 w2 w3 H1 H2. unfold kept in *.
  destruct H1 as (? & ? & ? & ? & ? & ? & ?), H2 as (? & ? & ? & ? & ? & ? & ?). split_and!; try congruence; lia.
Qed.
Lemma channel_kept w w' : kept w w' → channel w → channel w'.
Proof.
  intros (H1 & H2 & H3 & H4 & H5 & H6 & H7) [C1 C2 C3 C4 C5 C6 C7]. split; rewrite ?H1, ?H2, ?H3, ?H4, ?H6, ?H7; auto.
  intros f Hf. specialize (C2 f Hf). lia.
Qed.
Lemma same_kept w w' : same w w' → kept w w' ∧ _notify_started (tr w') = _notify_started (tr w) ∧ receivers (tr w') = receivers (tr w)
  ∧ _notify_refresh (tr w') = _notify_refresh (tr w).
Proof. intros (H1 & H2 & ? & ? & ? & ? & ? & ? & ?). unfold kept. by rewrite H1, H2. Qed.

(** A subscription that has ended, with its requests still there. *)
Record ended (w w' : World) : Prop := {
  e_kept : kept w w';
  e_notify : _notify_started (tr w') = false;
  e_receivers : receivers (tr w') = None;
  e_refresh : _notify_refresh (tr w') = None;
}.
Lemma cleared_G n w : channel w → _notify_started (tr w) = false → receivers (tr w) = None → _notify_refresh (tr w) = None →
  _active_request (rq w) = None → rb_queue (queue w) = [] → rb_reserved (queue w) = ∅ → G n Rest w.
Proof.
  intros Hc Hn Hr Hf Ha Hq Hs. split; rewrite ?Hn, ?Hr, ?Hf, ?Ha, ?Hq; try done.
  - split; [apply Hc| |unfold keys; rewrite Hq; apply NoDup_nil_2|unfold keys; rewrite Hq; intros k H; by apply elem_of_nil in H].
    rewrite Hs. unfold zsize. rewrite size_empty. pose proof (ch_maximum _ Hc). lia.
  - intros kr H. by apply elem_of_nil in H.
  - cbn. lia.
Qed.

Section clearing.
Context (cfg : Config) (env : Env).

Lemma dropped_kept p res : tame (λ w w', kept w w' ∧ tr w' = tr w) (_drop_queued_actions p res).
Proof.
  intros w. destruct (drop_spec p res w) as (n & Hn & Hno). unfold wp. destruct (_drop_queued_actions p res w) as [r w']. cbn in Hn, Hno. subst r.
  destruct (noted_same _ _ Hno) as (H1 & H2 & H3 & H4 & H5 & H6). rewrite on_queue_spec in *. destruct Hno as (l & _ & ->).
  split; [|done]. unfold kept. cbn. split_and!; try done. apply remove_if_maximum.
Qed.
Lemma reset_requests_G n w : channel w → _notify_started (tr w) = false → receivers (tr w) = None → _notify_refresh (tr w) = None →
  wp _reset_requests (λ _ w', G n Rest w' ∧ _notify_started (tr w') = false) w.
Proof.
  intros Hc Hn Hr Hf. unfold _reset_requests, _cancel_busy_retry. apply wp_bind. unfold set_tm at 1. apply wp_modify_last.
  set (w0 := w <| tm ::= _ |>). apply wp_bind. eapply wp_mono; [apply dropped_kept|]. intros ? w1 (Hk & Ht).
  assert (channel w1) as Hc1 by (eapply channel_kept; [exact Hk|]; by destruct Hc).
  assert (_notify_started (tr w1) = false ∧ receivers (tr w1) = None ∧ _notify_refresh (tr w1) = None) as (Hn1 & Hr1 & Hf1).
  { rewrite Ht. done. }
  clearbody w0. clear Hk Ht. unfold _finish_active_request, set_rq, set_tm, set_ca, on_queue, finish, clear, wp. monad_simpl. cbn.
  destruct Hc1 as [C1 C2 C3 C4 C5 C6 C7].
  destruct (_active_request (rq w1)); cbn; (split; [|done]; apply cleared_G; cbn; try done; first [by split | set_solver]).
Qed.

Lemma clear_G n b w : channel w →
  wp (_clear_characteristic_subscription cfg env b) (λ _ w', G n Rest w' ∧ _notify_started (tr w') = false) w.
Proof.
  intros Hc. unfold _clear_characteristic_subscription, _cancel_authorization_retry, _cancel_legacy_health.
  apply wp_bind. apply wp_modify_last. apply wp_bind. apply wp_modify_last. apply wp_bind. apply wp_modify_last.
  apply wp_bind. apply wp_modify_last. apply wp_get.
  match goal with |- wp _ _ ?x => set (w1 := x) end.
  assert (channel w1 ∧ receivers (tr w1) = None ∧ _notify_refresh (tr w1) = None) as (Hc1 & Hr1 & Hf1)
    by (split_and!; try done; by destruct Hc; split).
  clearbody w1. apply wp_bind. eapply wp_mono.
  { apply (tame_when same), calm_stop. }
  intros u w2 Hs. pose proof (channel_same _ _ Hs Hc1) as Hc2. destruct (same_kept _ _ Hs) as (_ & _ & Hr2 & Hf2).
  apply wp_bind. apply wp_modify_last. match goal with |- wp _ _ ?x => set (w3 := x) end.
  apply wp_bind. eapply wp_mono; [apply (reset_requests_G n w3); [by destruct Hc2; split|done|cbn; congruence..]|].
  intros ? w4 (H4 & Hn4). apply wp_bind. eapply wp_mono.
  { apply (wp_both _ _ _ w4 (reset_actions_G cfg n Rest w4) (still_reset_actions cfg w4)). }
  intros ? w5 (H5 & Ht5 & _). eapply wp_mono.
  { apply (wp_both _ _ _ w5 (end_session_G cfg n Rest ltac:(done) w5) (still_end_session cfg w5)). }
  intros ? w6 (H6 & Ht6 & _). split; [by apply H6, H5|]. by rewrite Ht6, Ht5.
Qed.
End clearing.

(** ** Failures of the transport *)

Definition at_least (m : mode) (w : World) : Prop := ∃ n, G n m w.
Abbreviation steady := (at_least Tight).
Abbreviation settled := (at_least Rest).
Lemma settled_steady w : settled w → steady w.
Proof. intros [n H]. exists n. by apply G_tight. Qed.
Lemma calm_holding n m {A} (x : M World A) w : calms x → G n m w → wp x (λ _, G n m) w.
Proof. intros Hx HG. eapply wp_mono; [apply Hx|]. intros a w' H. exact (G_same _ _ _ _ H HG). Qed.
Lemma tame_wp {A} (x : M World A) (I : World → Prop) w : tame (holding I) x → I w → wp x (λ _, I) w.
Proof. intros Hx Hw. eapply wp_mono; [apply Hx|]. intros a w' H. exact (H Hw). Qed.

Section failures.
Context (cfg : Config) (env : Env).

Lemma mark_failed_G n w : channel w → wp (_mark_transport_failed cfg env) (λ _, G n Rest) w.
Proof.
  intros Hc. unfold _mark_transport_failed, _cancel_bearer_settle, _cancel_subscribe_retry. apply wp_get.
  do 3 (apply wp_bind; apply wp_modify_last). apply wp_bind. eapply wp_mono; [apply (clear_G cfg env n)|].
  { by destruct Hc; split. }
  intros ? w1 [H1 _]. apply wp_bind. eapply wp_mono.
  { apply (calm_holding n Rest); [|exact H1]. destruct (_legacy_connected (tr w)); [apply calm_subscribe_retry|apply calm_transport_reset]. }
  intros ? w2 H2. apply calm_holding; [apply calm_status_if|done].
Qed.
Lemma escalate_G n w : channel w → wp (_escalate_unresponsive_transport cfg env) (λ _, G n Rest) w.
Proof.
  intros Hc. unfold _escalate_unresponsive_transport. apply wp_get. apply wp_bind. eapply wp_mono.
  { apply (tame_when same), calm_stop. }
  intros ? w1 H1. apply mark_failed_G. exact (channel_same _ _ H1 Hc).
Qed.

(** ** Answers to writes *)

(** [f] is answered; [released] tells whether it held the Control Point. *)
Inductive answered (n : nat) (f : InFlight) : bool → World → Prop :=
  | answered_stale w : G n Rest w → current_attempt f w = None → answered n f false w
  | answered_other w : G n Tight w → current_attempt f w = None → answered n f true w
  | answered_now w r : G n Loose w → _cp_write_token (rq w) = None → current_attempt f w = Some r → answered n f true w.

Lemma current_attempt_active f w r : current_attempt f w = Some r →
  _active_request (rq w) = Some r ∧ _started (lc w) = true ∧ if_generation f = generation w ∧ pr_serial r = pr_serial (if_request f).
Proof.
  unfold current_attempt. destruct (_active_request (rq w)) as [r'|]; [|done]. destruct (_ && _) eqn:E; [|done]. intros [= <-].
  apply andb_true_iff in E as [E E3]. apply andb_true_iff in E as [E1 E2]. by apply Z.eqb_eq in E2; apply Nat.eqb_eq in E3.
Qed.
Lemma NoDup_token (l : list InFlight) f f' : NoDup (if_token <$> l) → f ∈ l → f' ∈ l → if_token f = if_token f' → f = f'.
Proof.
  intros Hn Hf Hf' Heq. apply list_elem_of_lookup in Hf as [i Hi], Hf' as [j Hj].
  assert (i = j) as ->.
  { eapply (NoDup_lookup _ _ _ (if_token f) Hn); rewrite list_lookup_fmap; [by rewrite Hi|]. by rewrite Hj, Heq. }
  congruence.
Qed.

(** BlueZ's answer to a write. *)
Lemma answering_spec n w f accepted : G n Rest w → f ∈ writes (rq w) →
  let w1 := w <| rq ::= λ x, x <| writes ::= List.filter (λ f', negb (if_token f' =? if_token f)%nat) |> |> in
  wp (release_write (if_token f) accepted) (λ b w', answered n f b w') w1.
Proof.
  intros HG Hf w1. pose proof HG as [[C1 C2 C3 C4 C5 C6 C7] Gw Gk Gl Gq Gr Gs Gf Ga Gre].
  unfold release_write, emit, set_rq, wp. monad_simpl. cbn.
  assert (∀ f', f' ∈ List.filter (λ f', negb (if_token f' =? if_token f)%nat) (writes (rq w)) → f' ∈ writes (rq w) ∧ if_token f' ≠ if_token f) as Hsub.
  { intros f'. rewrite list_elem_of_In, filter_In, <-list_elem_of_In. intros [H1 H2]. split; [done|]. intros H. by rewrite H, Nat.eqb_refl in H2. }
  assert (∀ f', f' ∈ writes (rq w) → if_token f' ≠ if_token f → f' ∈ List.filter (λ f', negb (if_token f' =? if_token f)%nat) (writes (rq w))) as Hsup.
  { intros f' H1 H2. rewrite list_elem_of_In, filter_In, <-list_elem_of_In. split; [done|]. by apply negb_true_iff, Nat.eqb_neq. }
  assert (NoDup (if_token <$> List.filter (λ f', negb (if_token f' =? if_token f)%nat) (writes (rq w)))) as Hnd.
  { clear -C1. induction (writes (rq w)) as [|g l IH]; cbn; [constructor|]. apply NoDup_cons in C1 as [H1 H2].
    destruct (negb _); cbn; [|by apply IH]. apply NoDup_cons. split; [|by apply IH].
    intros H. apply H1. apply list_elem_of_fmap in H as (x & -> & Hx). rewrite list_elem_of_In, filter_In, <-list_elem_of_In in Hx.
    apply list_elem_of_fmap. by exists x; destruct Hx. }
  case_bool_decide as Ht; cbn.
  - (* the write that holds the Control Point *)
    set (w2 := {| lc := _ |}).
    assert (if_generation f = generation w) as Hgen.
    { destruct (C5 _ Ht) as (f' & H1 & H2 & H3). by rewrite <-(NoDup_token _ f' f C1 H1 Hf H2). }
    assert (channel w2) as Hc2.
    { split; cbn; auto; try (intros f' H; apply Hsub in H as [H1 H2]; auto); [|done].
      intros Hg. specialize (C4 f' H1 Hg). congruence. }
    assert (∀ m, (∀ r, _active_request (rq w) = Some r → waiting m = true → waits w2 r) → m ≠ Rest → G n m w2) as HG2.
    { intros m Hm Hne. split; cbn; auto. intros r Hr. destruct (Ga r Hr) as (H1 & H2 & H3). split; [done|]. split; [intros _; exact (H2 eq_refl)|]. by apply Hm. }
    destruct (current_attempt f w2) as [r|] eqn:Ec.
    + eapply answered_now; [apply HG2; done|done|exact Ec].
    + eapply answered_other; [|exact Ec]. apply HG2; [|done]. intros r Hr _. destruct (Ga r Hr) as (H1 & H2 & H3).
      destruct (H3 eq_refl) as [H|(f' & Hf'1 & Hf'2 & Hf'3)]; [by left|]. exfalso.
      assert (f' = f) as ->. { apply (NoDup_token (writes (rq w))); [done..|]. specialize (C4 f' Hf'1 Hf'2). congruence. }
      unfold current_attempt in Ec. cbn in Ec. rewrite Hr in Ec. destruct (Gs H1) as [Hst _]. rewrite Hst, Hgen, Z.eqb_refl, Hf'3, Nat.eqb_refl in Ec.
      done.
  - set (w2 := {| lc := _ |}).
    assert (if_generation f ≠ generation w) as Hgen by (intros H; specialize (C4 f Hf H); congruence).
    apply answered_stale.
    + split; cbn; auto.
      * split; cbn; auto; try (intros f' H; apply Hsub in H as [H1 H2]; auto).
        intros t H. destruct (C5 t H) as (f' & H1 & H2 & H3). exists f'. split; [|done]. apply Hsup; [done|]. congruence.
      * intros r Hr. destruct (Ga r Hr) as (H1 & H2 & H3). split; [done|]. split; [intros _; exact (H2 eq_refl)|]. intros _.
        destruct (H3 eq_refl) as [H|(f' & Hf'1 & Hf'2 & Hf'3)]; [by left|]. right. exists f'. split; [|done]. apply Hsup; [done|]. specialize (C4 _ Hf'1 Hf'2). congruence.
    + unfold current_attempt. cbn. destruct (_active_request (rq w)); [|done].
      destruct (if_generation f =? generation w) eqn:E; [by apply Z.eqb_eq in E|]. by rewrite andb_false_r.
Qed.
End failures.

(** ** Giving a request up *)

Lemma G_gone n m w : G n m w → G n Gone w.
Proof. intros []. split; auto; try done. intros r Hr. destruct (g_active0 r Hr) as (H1 & H2 & H3). done. Qed.
Lemma idle_G n m w : m ≠ Rest → G n m w → G n Tight (w <| rq ::= λ x, x <| _active_request := None |> |>).
Proof. intros Hm [[C1 C2 C3 C4 C5 C6 C7] Gw Gk Gl Gq Gr Gs Gf Ga Gre]. split; cbn; auto; try done; by split. Qed.
Lemma finish_key_G n m k w : (m = Gone ∨ _active_request (rq w) = None) → k ∉ keys (queue w) → G n m w → wp (on_queue (finish k)) (λ _, G n m) w.
Proof.
  intros Hm Hk [[C1 C2 C3 C4 C5 C6 C7] Gw Gk Gl Gq Gr Gs Gf Ga Gre]. unfold wp, on_queue. cbn.
  split; cbn; auto; [by split|by apply finish_wf|]. intros r Hr. destruct (Ga r Hr) as (H1 & H2 & H3). split; [done|].
  destruct Hm as [->|Hm]; [done|]. by rewrite Hm in Hr.
Qed.
Lemma abandon_G env n m r w : (m = Gone ∨ _active_request (rq w) = None) → pr_key r ∉ keys (queue w) → G n m w →
  wp (_abandon_request env (Some r)) (λ _, G n m) w.
Proof.
  intros Hm Hk HG. unfold _abandon_request. apply wp_bind. eapply wp_mono; [by apply (finish_key_G n m)|]. intros ? w1 H1.
  destruct (pr_authorization_probe r); [by apply calm_holding; [apply calm_authorization|]|].
  destruct (pr_notification r); [done|]. destruct (pr_assembler r ≫= as_app_id) as [[|c app_id]|]; [done| |done].
  apply calm_holding; [apply calm_flush|done].
Qed.

(** A refused write goes back to the head of the queue. *)
Lemma push_back_G n r w : G n Loose w → _active_request (rq w) = Some r → pr_discarded r = false →
  wp (set_rq (λ x, x <| _active_request := None |>);;
      on_queue (push_front (pr_key r) (r <| pr_busy_retries ::= λ n, n + 1 |>));;
      set_tm (λ t, t <| _cp_busy_retry_id := Some CONTROL_POINT_BUSY_RETRY_SECONDS |>)) (λ _, settled) w.
Proof.
  intros [[C1 C2 C3 C4 C5 C6 C7] Gw Gk Gl Gq Gr Gs Gf Ga Gre] Hr Hd. destruct (Ga r Hr) as (Hn & Hk & _). specialize (Hk eq_refl).
  unfold holds_key in Hk. rewrite Hd in Hk. destruct Hk as [Hret Hk].
  pose proof (step_wf (queue w) _ Gw (step_push_front (queue w) (pr_key r) (r <| pr_busy_retries ::= λ n, n + 1 |>) Hk)) as Hwf.
  unfold in_flight in Hk. apply elem_of_difference in Hk as [Hres _].
  unfold push_front, on_queue, set_rq, set_tm, wp in *. revert Hwf. monad_simpl. rewrite !bool_decide_eq_true_2 by done. cbn. intros Hwf.
  exists (S n). split; cbn; auto; try done.
  - intros kr [->|H]%elem_of_cons; [done|]. by apply Gk.
  - lia.
Qed.

Section after_failure.
Context (cfg : Config) (env : Env) (n : nat) (pump' : M World ()).
Context (Hpump : ∀ w, G n Tight w → wp pump' (λ _, settled) w).

Lemma lost_or_pump_G e w : G n Tight w → wp (if _connection_was_lost e then _mark_transport_failed cfg env else pump') (λ _, settled) w.
Proof using Hpump.
  intros HG. destruct (_connection_was_lost e); [|by apply Hpump]. eapply wp_mono; [apply (mark_failed_G cfg env n), HG|].
  intros ? w' H. by exists n.
Qed.

(** [failed], once the write marker is released. *)
Definition failure (f : InFlight) (e : dbus_error) (released : bool) : M World () :=
  w ← get;
  match current_attempt f w with
  | None =>
      (match pr_action (if_request f) with Some a => _report_action a (_action_error_result e).1 | None => mret () end);;
      when released pump'
  | Some request =>
      if pr_discarded request then
        _finish_active_request;;
        (if _connection_was_lost e then _mark_transport_failed cfg env else pump')
      else if endswith ".InProgress" (e_name e) && (pr_busy_retries request <? MAX_CONTROL_POINT_BUSY_RETRIES) then
        set_rq (λ x, x <| _active_request := None |>);;
        on_queue (push_front (pr_key request) (request <| pr_busy_retries ::= λ n, n + 1 |>));;
        set_tm (λ t, t <| _cp_busy_retry_id := Some CONTROL_POINT_BUSY_RETRY_SECONDS |>)
      else
        match pr_action request with
        | Some a =>
            _finish_active_request;;
            _action_failed a e;;
            _observe_permission_error cfg e;;
            (if _connection_was_lost e then _mark_transport_failed cfg env else pump')
        | None =>
            _observe_permission_error cfg e;;
            if _connection_was_lost e then _mark_transport_failed cfg env
            else
              _abandon_request env (Some request);;
              set_rq (λ x, x <| _active_request := None |>);;
              pump'
        end
  end.
Lemma failed_eq f e : failed cfg env pump' f e = (released ← release_write (if_token f) false; failure f e released).
Proof. done. Qed.

Lemma failure_G f e released w : answered n f released w → wp (failure f e released) (λ _, settled) w.
Proof using Hpump.
  intros Ha. unfold failure. apply wp_get.
  assert (∀ m, G n m w → wp (match pr_action (if_request f) with Some a => _report_action a (_action_error_result e).1 | None => mret () end) (λ _, G n m) w) as Hrep.
  { intros m HG. destruct (pr_action _); [by apply calm_holding; [apply calm_report|]|done]. }
  destruct Ha as [w HG Hc|w HG Hc|w r HG Ht Hc]; rewrite Hc.
  - apply wp_bind. eapply wp_mono; [by apply Hrep|]. intros ? w' H. by exists n.
  - apply wp_bind. eapply wp_mono; [by apply Hrep|]. intros ? w' H. by apply Hpump.
  - clear Hrep. destruct (current_attempt_active _ _ _ Hc) as (Hr & _). destruct (pr_discarded r) eqn:Ed; [|destruct (_ && _)].
    + apply wp_bind. eapply wp_mono; [by apply (finish_active_G n Loose)|]. intros ? w' (_ & H & _). by apply lost_or_pump_G.
    + by apply (push_back_G n).
    + destruct (pr_action r).
      * apply wp_bind. eapply wp_mono; [by apply (finish_active_G n Loose)|]. intros ? w1 (_ & H1 & _).
        apply wp_bind. eapply wp_mono; [exact (calm_holding n Tight _ _ (calm_failed _ e) H1)|]. intros ? w2 H2.
        apply wp_bind. eapply wp_mono; [exact (calm_holding n Tight _ _ (calm_permission cfg e) H2)|]. intros ? w3 H3. by apply lost_or_pump_G.
      * apply wp_bind. eapply wp_mono; [apply (calm_permission cfg e)|]. intros ? w1 Hs.
        pose proof (G_same _ _ _ _ Hs HG) as H1. assert (_active_request (rq w1) = Some r) as Hr1 by (destruct Hs as (_ & Hs & _); congruence).
        destruct (_connection_was_lost e).
        { eapply wp_mono; [apply (mark_failed_G cfg env n), H1|]. intros ? w' H. by exists n. }
        apply wp_bind. eapply wp_mono.
        { apply (abandon_G env n Gone r); [by left| |by eapply G_gone]. destruct (g_active _ _ _ H1 r Hr1) as (_ & Hk & _).
          exact (key_free _ _ _ _ H1 (Hk eq_refl)). }
        intros ? w2 H2. apply wp_bind. apply wp_modify_last. apply Hpump. by apply (idle_G n Gone).
Qed.
End after_failure.

(** ** The pump *)

Definition honest (env : Env) : Prop := ∀ serial, write_value env serial ≠ WriteBroken.

(** The state in which a write is handed to BlueZ. *)
Definition begun (w : World) (k : string) (r : _PendingRequest) (q : list (string * _PendingRequest)) : World :=
  w <| rq ::= λ x, x <| _request_queue := mkBacklog (rb_maximum (queue w)) q (rb_reserved (queue w)) |>
                     <| _active_request := Some r |> <| _cp_write_token := Some (fresh w) |> |>
    <| fresh ::= S |> <| log ::= λ l, l ++ [Writing r (fresh w)] |>.
Lemma popped n m w k r q : G n m w → rb_queue (queue w) = (k, r) :: q →
  wf (mkBacklog (rb_maximum (queue w)) q (rb_reserved (queue w)))
  ∧ pr_key r ∈ in_flight (mkBacklog (rb_maximum (queue w)) q (rb_reserved (queue w))) ∧ retired (pr_key r) = false
  ∧ pr_discarded r = false.
Proof.
  intros HG Hq. pose proof (g_wf _ _ _ HG) as Hw. destruct (g_keys _ _ _ HG (k, r)) as (Hk & Hret & Hd); [rewrite Hq; left|]. cbn in Hk, Hret, Hd. subst k.
  pose proof Hw as [H1 H2 H3 H4]. unfold keys in H3, H4. rewrite Hq in H3, H4. cbn in H3, H4. apply NoDup_cons in H3 as [H3 H5].
  split_and!; [|unfold in_flight, keys; cbn; apply elem_of_difference; split; [apply H4; left|by rewrite elem_of_list_to_set]|done..].
  split; cbn; try done. intros x Hx. apply H4. by right.
Qed.

Section pump.
Context (cfg : Config) (env : Env) (Henv : honest env).

Lemma begun_G n w k r q : G (S n) Tight w → rb_queue (queue w) = (k, r) :: q → _active_request (rq w) = None →
  _cp_write_token (rq w) = None →
  let f := mkInFlight r (fresh w) (generation w) in
  settled ((begun w k r q) <| rq ::= λ x, x <| writes ::= λ l, l ++ [f] |> |>)
  ∧ ∀ e, wp (release_write (if_token f) e) (λ b w', answered n f b w') (begun w k r q).
Proof using Henv.
  intros HG Hq Ha Ht f. destruct (popped _ _ _ _ _ _ HG Hq) as (Hwf & Hin & Hret & Hd).
  pose proof HG as [[C1 C2 C3 C4 C5 C6 C7] Gw Gk Gl Gq Gr Gs Gf Ga Gre].
  assert (_notify_started (tr w) = true) as Hn by (apply Gq; by rewrite Hq). destruct (Gs Hn) as [Hst Hcp].
  assert (∀ f, f ∈ writes (rq w) → if_generation f ≠ generation w) as Hold.
  { intros f' Hf' Hg. specialize (C4 f' Hf' Hg). congruence. }
  assert (∀ kr, kr ∈ q → kr.1 = pr_key kr.2 ∧ retired kr.1 = false ∧ pr_discarded kr.2 = false) as Hk.
  { intros kr H. apply Gk. rewrite Hq. by right. }
  assert (length q <= n)%nat as Hl by (rewrite Hq in Gl; cbn in Gl; lia).
  assert (holds_key (begun w k r q) r) as Hh by (unfold holds_key; by rewrite Hd).
  split.
  - exists n. split; cbn; auto; try done.
    + split; cbn; auto.
      * rewrite fmap_app. apply NoDup_app. split_and!; [done| |apply NoDup_singleton].
        intros t Ht' ->%list_elem_of_singleton. apply list_elem_of_fmap in Ht' as (f' & Heq & Hf'). specialize (C2 f' Hf'). cbn in Heq. lia.
      * intros f'. rewrite elem_of_app, list_elem_of_singleton. intros [H| ->]; [specialize (C2 f' H); lia|cbn; lia].
      * intros f'. rewrite elem_of_app, list_elem_of_singleton. intros [H| ->]; [auto|cbn; lia].
      * intros f'. rewrite elem_of_app, list_elem_of_singleton. intros [H| ->]; [by intros Hg; destruct (Hold f' H)|done].
      * intros t [= <-]. exists f. split_and!; [|done..]. apply elem_of_app. right. left.
    + intros r' [= <-]. split; [done|]. split; [done|]. intros _. right. exists f. split_and!; [|done..]. apply elem_of_app. right. left.
  - intros b. unfold release_write, emit, set_rq, wp. monad_simpl. cbn. rewrite bool_decide_eq_true_2 by done. cbn.
    set (w2 := {| lc := _ |}). assert (current_attempt f w2 = Some r) as Hc.
    { unfold current_attempt. cbn. by rewrite Hst, Z.eqb_refl, Nat.eqb_refl. }
    eapply answered_now; [|done|exact Hc]. split; cbn; auto; try done.
    + split; cbn; auto; try done.
      * intros f' Hf'. specialize (C2 f' Hf'). lia.
      * intros f' Hf' Hg. by destruct (Hold f' Hf').
    + intros r' [= <-]. split; [done|]. split; [by intros _|done].
Qed.

Lemma pump_G n w : G n Tight w → wp (pump cfg env n) (λ _, settled) w.
Proof using Henv.
  revert w. induction n as [|n IH]; intros w HG; cbn [pump]; apply wp_get; destruct (_ || _) eqn:Eg.
  1, 3: exists (length (rb_queue (queue w))); pose proof HG as [Gc Gw Gk Gl Gq Gr Gs Gf Ga Gre]; split; auto; intros _ Hq;
    destruct (Gs (Gq Hq)) as [_ Hcp]; unfold backlog_bool in Eg; rewrite Hcp in Eg;
    destruct (_active_request (rq w)), (_cp_write_token (rq w)), (_cp_busy_retry_id (tm w)), (_notify_refresh (tr w));
    try (left; done); try (right; left; done); try (right; right; left; done); try (right; right; right; done);
    by destruct (rb_queue (queue w)).
  - repeat (apply orb_false_iff in Eg as [Eg ?]). pose proof (g_length _ _ _ HG). unfold backlog_bool in *.
    destruct (rb_queue (queue w)); [done|cbn in *; lia].
  - repeat (apply orb_false_iff in Eg as [Eg ?]). destruct (_active_request (rq w)) eqn:Er; [done|].
    destruct (_cp_write_token (rq w)) eqn:Et; [done|].
    destruct (rb_queue (queue w)) as [|[k r] q] eqn:Eq; [unfold backlog_bool in *; by rewrite Eq in *|].
    destruct (begun_G n w k r q HG Eq Er Et) as [Hsent Hrefused].
    assert (on_queue popleft w = (Ok r, w <| rq ::= λ x, x <| _request_queue := mkBacklog (rb_maximum (queue w)) q (rb_reserved (queue w)) |> |>)) as Hpop.
    { unfold on_queue, popleft. monad_simpl. by rewrite Eq. }
    unfold wp. rewrite M_bind_eq, Hpop. cbv beta iota. rewrite M_bind_eq. unfold tick, set_rq, emit. monad_simpl.
    match goal with |- match match _ with _ => _ end ?x with _ => _ end => change x with (begun w k r q) end.
    destruct (write_value env (pr_serial r)) as [|e|] eqn:Ew; [exact Hsent| |by destruct (Henv _ Ew)].
    change (wp (failed cfg env (pump cfg env n) (mkInFlight r (fresh w) (generation w)) e) (λ _, settled) (begun w k r q)).
    rewrite failed_eq. apply wp_bind. eapply wp_mono; [apply Hrefused|]. intros b w' Hb. by apply (failure_G cfg env n).
Qed.
Lemma pump_requests_G w : steady w → wp (_pump_requests cfg env) (λ _, settled) w.
Proof using Henv.
  intros [n HG]. unfold _pump_requests. apply wp_get. apply pump_G. eapply G_length; [exact HG|done].
Qed.
End pump.

(** ** What only discovery and the lifecycle change *)

Definition hosted (w w' : World) : Prop := lc w' = lc w ∧ _cp_path (tr w') = _cp_path (tr w).
#[export] Instance hosted_preorder : PreOrder hosted.
Proof. split; [by intros w|]. intros w1 w2 w3 [H1 H2] [H3 H4]. split; congruence. Qed.

Section hosted.
Context (cfg : Config) (env : Env).
Lemma hosted_emit a : keeps hosted (emit a). Proof. by intros w. Qed.
Lemma hosted_set_ca f : keeps hosted (set_ca f). Proof. by intros w. Qed.
Lemma hosted_set_ac f : keeps hosted (set_ac f). Proof. by intros w. Qed.
Lemma hosted_set_tm f : keeps hosted (set_tm f). Proof. by intros w. Qed.
Lemma hosted_set_rq f : keeps hosted (set_rq f). Proof. by intros w. Qed.
Lemma hosted_tick : keeps hosted tick. Proof. by intros w. Qed.
Lemma hosted_on_queue {A} (m : M (RequestBacklog _PendingRequest) A) : keeps hosted (on_queue m).
Proof. intros w. by rewrite on_queue_spec. Qed.
Lemma hosted_set_tr f : (∀ t, _cp_path (f t) = _cp_path t) → keeps hosted (set_tr f).
Proof. intros Hf w. split; [done|apply Hf]. Qed.
#[local] Hint Resolve hosted_emit hosted_set_ca hosted_set_ac hosted_set_tm hosted_set_rq hosted_tick hosted_on_queue : keeps.
#[local] Hint Extern 1 (keeps hosted (set_tr _)) => apply hosted_set_tr; reflexivity : keeps.
Lemma hosted_report a res : keeps hosted (_report_action a res). Proof. unfold _report_action. keeps. Qed.
Lemma hosted_report_all l res : keeps hosted (report_all l res).
Proof.
  induction l as [|r l IH]; cbn; [keeps|]. apply keeps_bind; [apply _| |intros _; exact IH].
  destruct (pr_action r); [apply hosted_report|keeps].
Qed.
Lemma hosted_status : keeps hosted (on_status cfg). Proof. unfold on_status. keeps. Qed.
Lemma hosted_status_if b : keeps hosted (status_if cfg b). Proof. unfold status_if, on_status. keeps. Qed.
#[local] Hint Resolve hosted_report hosted_report_all hosted_status hosted_status_if : keeps.
Lemma hosted_drop p res : keeps hosted (_drop_queued_actions p res). Proof. unfold _drop_queued_actions. keeps. Qed.
#[local] Hint Resolve hosted_drop : keeps.
Lemma hosted_reset_actions : keeps hosted (_reset_actions cfg). Proof. unfold _reset_actions. keeps. Qed.
Lemma hosted_discard uid : keeps hosted (_discard_notification_requests uid). Proof. unfold _discard_notification_requests. keeps. Qed.
#[local] Hint Resolve hosted_reset_actions hosted_discard : keeps.
Lemma hosted_end_session : keeps hosted (_end_session cfg). Proof. unfold _end_session. keeps. Qed.
Lemma hosted_finish_active : keeps hosted _finish_active_request. Proof. unfold _finish_active_request. keeps. Qed.
#[local] Hint Resolve hosted_end_session hosted_finish_active : keeps.
Lemma hosted_reset_requests : keeps hosted _reset_requests. Proof. unfold _reset_requests, _cancel_busy_retry. keeps. Qed.
Lemma hosted_stop_notifications : keeps hosted (_stop_bluez_notifications env). Proof. unfold _stop_bluez_notifications. keeps. Qed.
#[local] Hint Resolve hosted_reset_requests hosted_stop_notifications : keeps.
Lemma hosted_clear b : keeps hosted (_clear_characteristic_subscription cfg env b).
Proof. unfold _clear_characteristic_subscription, _cancel_authorization_retry, _cancel_legacy_health. keeps. Qed.
Lemma hosted_schedules :
  keeps hosted _schedule_subscribe_retry ∧ keeps hosted (_schedule_transport_reset cfg) ∧ keeps hosted _schedule_authorization_retry
  ∧ keeps hosted _schedule_legacy_health ∧ keeps hosted _schedule_bearer_settle ∧ keeps hosted _schedule_manager_retry.
Proof.
  unfold _schedule_subscribe_retry, _schedule_transport_reset, _schedule_authorization_retry, _schedule_legacy_health,
    _schedule_bearer_settle, _schedule_manager_retry. split_and!; keeps.
Qed.
#[local] Hint Extern 1 (keeps hosted _) => apply hosted_schedules : keeps.
#[local] Hint Resolve hosted_clear : keeps.
Lemma hosted_mark_failed : keeps hosted (_mark_transport_failed cfg env).
Proof. unfold _mark_transport_failed, _cancel_bearer_settle, _cancel_subscribe_retry. keeps. Qed.
#[local] Hint Resolve hosted_mark_failed : keeps.
Lemma hosted_escalate : keeps hosted (_escalate_unresponsive_transport cfg env).
Proof. unfold _escalate_unresponsive_transport. keeps. Qed.
Lemma hosted_permission e : keeps hosted (_observe_permission_error cfg e).
Proof. unfold _observe_permission_error. keeps. Qed.
Lemma hosted_emit_event attrs name : keeps hosted (_emit env attrs name). Proof. unfold _emit, _remember_actionable. keeps. Qed.
#[local] Hint Resolve hosted_escalate hosted_permission hosted_emit_event : keeps.
Lemma hosted_emit_all l name : keeps hosted (emit_all env l name). Proof. induction l; cbn; keeps. Qed.
#[local] Hint Resolve hosted_emit_all : keeps.
Lemma hosted_flush app name : keeps hosted (flush_lookup env app name). Proof. unfold flush_lookup. keeps. Qed.
#[local] Hint Resolve hosted_flush : keeps.
Lemma hosted_abandon r : keeps hosted (_abandon_request env r). Proof. unfold _abandon_request. keeps. Qed.
Lemma hosted_action_written a : keeps hosted (_action_written a). Proof. unfold _action_written. keeps. Qed.
Lemma hosted_action_failed a e : keeps hosted (_action_failed a e). Proof. unfold _action_failed. keeps. Qed.
Lemma hosted_release t b : keeps hosted (release_write t b). Proof. unfold release_write. keeps. Qed.
#[local] Hint Resolve hosted_abandon hosted_action_written hosted_action_failed hosted_release : keeps.
Lemma hosted_failed p f e : keeps hosted p → keeps hosted (failed cfg env p f e). Proof. intros Hp. unfold failed. keeps. Qed.
Lemma hosted_broken f : keeps hosted (release_broken env f). Proof. unfold release_broken. keeps. Qed.
#[local] Hint Resolve hosted_broken : keeps.
Lemma hosted_pump n : keeps hosted (pump cfg env n).
Proof. induction n as [|n IH]; cbn [pump]; keeps. by apply hosted_failed. Qed.
#[local] Hint Resolve hosted_pump : keeps.
Lemma hosted_pump_requests : keeps hosted (_pump_requests cfg env). Proof. unfold _pump_requests. keeps. Qed.
#[local] Hint Resolve hosted_pump_requests : keeps.
Lemma hosted_write_failed f e : keeps hosted (write_failed cfg env f e). Proof. apply hosted_failed. keeps. Qed.
Lemma hosted_written f : keeps hosted (written cfg env f). Proof. unfold written. keeps. Qed.
Lemma hosted_enqueue r : keeps hosted (_enqueue cfg env r). Proof. unfold _enqueue. keeps. Qed.
#[local] Hint Resolve hosted_enqueue : keeps.
Lemma hosted_probe force : keeps hosted (_queue_authorization_probe cfg env force).
Proof. unfold _queue_authorization_probe, new_request. keeps. Qed.
#[local] Hint Resolve hosted_probe : keeps.
Lemma hosted_probe_health : keeps hosted (probe_health cfg env). Proof. unfold probe_health. keeps. Qed.
Lemma hosted_authorized : keeps hosted (_mark_authorized cfg).
Proof. unfold _mark_authorized, _cancel_authorization_retry. keeps. Qed.
Lemma hosted_start_notify path : keeps hosted (_start_notify env path). Proof. unfold _start_notify. keeps. Qed.
Lemma hosted_subscribe_failed e : keeps hosted (subscribe_failed cfg env e).
Proof. unfold subscribe_failed. keeps. Qed.
#[local] Hint Resolve hosted_probe_health hosted_authorized hosted_start_notify hosted_subscribe_failed : keeps.
Lemma hosted_subscribe : keeps hosted (_try_subscribe cfg env). Proof. unfold _try_subscribe, _cancel_subscribe_retry. keeps. Qed.
#[local] Hint Resolve hosted_subscribe : keeps.
Lemma hosted_resume :
  keeps hosted (_retry_subscribe cfg env) ∧ keeps hosted (_finish_bearer_settle cfg env) ∧ keeps hosted (_retry_authorization cfg env)
  ∧ keeps hosted (_check_legacy_health cfg env) ∧ keeps hosted (_legacy_transport_hint cfg env) ∧ keeps hosted (_retry_busy_control_point cfg env)
  ∧ keeps hosted (_request_transport_reset cfg).
Proof.
  unfold _retry_subscribe, _finish_bearer_settle, _retry_authorization, _check_legacy_health, _legacy_transport_hint,
    _retry_busy_control_point, _request_transport_reset, _cancel_subscribe_retry, _cancel_bearer_settle, _cancel_authorization_retry,
    _cancel_legacy_health, _cancel_busy_retry, _cancel_transport_reset. split_and!; keeps.
Qed.
Lemma hosted_observe bearer legacy : keeps hosted (observe_bearer_state cfg env bearer legacy).
Proof.
  assert (keeps hosted (_legacy_transport_hint cfg env)) by apply hosted_resume.
  unfold observe_bearer_state, observe_le, _cancel_subscribe_retry, _cancel_bearer_settle, _cancel_transport_reset. keeps.
Qed.

(** The refresh. *)
Lemma hosted_refresh_failed tg e : keeps hosted (refresh_failed cfg env tg e). Proof. unfold refresh_failed. keeps. Qed.
#[local] Hint Resolve hosted_refresh_failed : keeps.
Lemma hosted_stopped tg : keeps hosted (stopped cfg env tg). Proof. unfold stopped, await_toggle. keeps. Qed.
#[local] Hint Resolve hosted_stopped : keeps.
Lemma hosted_stop_failed tg e : keeps hosted (stop_failed cfg env tg e). Proof. unfold stop_failed. keeps. Qed.
#[local] Hint Resolve hosted_stop_failed : keeps.
Lemma hosted_next_path tg : keeps hosted (next_path cfg env tg).
Proof. unfold next_path, _toggle_notify, await_toggle, new_request. keeps. Qed.
#[local] Hint Resolve hosted_next_path : keeps.
Lemma hosted_started tg : keeps hosted (started cfg env tg). Proof. unfold started. keeps. Qed.
#[local] Hint Resolve hosted_started : keeps.
Lemma hosted_on_toggle i e : keeps hosted (on_toggle cfg env i e). Proof. unfold on_toggle. keeps. Qed.
Lemma hosted_timed_out : keeps hosted (_request_timed_out cfg env).
Proof. unfold _request_timed_out, _refresh_notifications. keeps. Qed.

(** Notifications. *)
Lemma hosted_hear n : keeps hosted (hear cfg n). Proof. unfold hear, _report_call_activity, _forget_actionable. keeps. Qed.
#[local] Hint Resolve hosted_hear : keeps.
Lemma hosted_on_ns iface value : keeps hosted (_on_ns_changed cfg env iface value).
Proof.
  intros w. rewrite on_ns_eq. revert w. change (keeps hosted (if negb (String.eqb iface GATT_CHARACTERISTIC) then mret () else
    match Notification_parse <$> value with Some (Ok n) => on_notification cfg env n | _ => mret () end)).
  unfold on_notification, _request_attrs, new_request. keeps.
Qed.
Lemma hosted_full n app : keeps hosted (_request_full_attrs cfg env n app). Proof. unfold _request_full_attrs, new_request. keeps. Qed.
#[local] Hint Resolve hosted_full : keeps.
Lemma hosted_identified n app : keeps hosted (on_identified cfg env n app). Proof. unfold on_identified. keeps. Qed.
Lemma hosted_attrs attrs : keeps hosted (_handle_notification_attrs cfg env attrs).
Proof. unfold _handle_notification_attrs, _request_app_name, new_request. keeps. Qed.
#[local] Hint Resolve hosted_identified hosted_attrs : keeps.
Lemma hosted_response r complete : keeps hosted (on_response cfg env r complete).
Proof. unfold on_response, or_abandon, _handle_app_attrs. keeps. Qed.
#[local] Hint Resolve hosted_response : keeps.
Lemma hosted_on_ds iface value : keeps hosted (_on_ds_changed cfg env iface value). Proof. unfold _on_ds_changed. keeps. Qed.
Lemma hosted_perform uid positive token reports : keeps hosted (perform_notification_action cfg env uid positive token reports).
Proof. unfold perform_notification_action, new_request. keeps. Qed.
Lemma hosted_answering token m : (∀ f, keeps hosted (m f)) → keeps hosted (answering token m).
Proof. intros Hm. unfold answering. keeps. Qed.
End hosted.
