(* ===== verification/AncsProgress.v ===== *)
(** * AncsProgress: every handler of the ANCS client leaves its queue settled.

    The handlers of [AncsClient], one after the other, on the invariant of
    [AncsLive]; then the theorem that the client never stalls. *)
From S2P Require Import Prelude Wire PyStr Text Ancs Backlog AncsClient AncsSafety AncsLive.

Section progress.
Context (cfg : Config) (env : Env) (Henv : honest env).

Lemma at_least_calm m {A} (x : M World A) w : calms x → at_least m w → wp x (λ _, at_least m) w.
Proof. intros Hx [n HG]. eapply wp_mono; [apply (calm_holding n m x w Hx HG)|]. intros ? w' H. by exists n. Qed.
Lemma at_least_tame m {A} (x : M World A) w : (∀ n, tame (holding (G n m)) x) → at_least m w → wp x (λ _, at_least m) w.
Proof. intros Hx [n HG]. eapply wp_mono; [apply Hx|]. intros ? w' H. exists n. by apply H. Qed.
Lemma settled_at_least m w : waiting m = true → settled w → at_least m w.
Proof. intros Hm [n HG]. exists n. destruct m; try done. by apply G_tight. Qed.
Lemma at_least_channel m w : at_least m w → channel w.
Proof. intros [n HG]. apply HG. Qed.
Lemma at_least_same m w w' : same w w' → at_least m w → at_least m w'.
Proof. intros Hs [n HG]. exists n. by eapply G_same. Qed.
Lemma wp_settled {A} (x : M World A) w n : wp x (λ _, G n Rest) w → wp x (λ _, settled) w.
Proof. intros H. eapply wp_mono; [exact H|]. intros ? w' HG. by exists n. Qed.

(** ** Queueing a request *)

(** A request no one knows of yet. *)
Definition new (r : _PendingRequest) : Prop := retired (pr_key r) = false ∧ pr_discarded r = false.

Lemma enqueue_G n m r front w : known m = true → G n m w → _notify_started (tr w) = true → new r →
  wp (on_queue (enqueue (pr_key r) r front)) (λ ok w', if ok : bool then G (S n) (if waiting m then Tight else Loose) w' else G n m w') w.
Proof.
  intros Hkn HG Hn [Hret Hd]. pose proof HG as [[C1 C2 C3 C4 C5 C6 C7] Gw Gk Gl Gq Gr Gs Gf Ga Gre].
  pose proof (step_wf (queue w) _ Gw (step_enqueue (queue w) (pr_key r) r front)) as Hwf.
  unfold enqueue, on_queue, wp in *. revert Hwf. monad_simpl. assert (G n m (w <| rq ::= λ x, x <| _request_queue := queue w |> |>)) as Hsame by (destruct w as [? ? ? [] ? ? ? ? ?]; exact HG).
  destruct (bool_decide _) eqn:Eb; [done|].
  apply bool_decide_eq_false in Eb. destruct (_ <=? _); [done|]. cbn. intros Hwf. clear Hsame.
  split; cbn; auto; [by split| | | |].
  - intros kr. destruct front; [rewrite elem_of_cons|rewrite elem_of_app, list_elem_of_singleton];
      intros [H|H]; subst; auto.
  - destruct front; cbn; rewrite ?length_app; cbn; lia.
  - intros r' Hr'. destruct (Ga r' Hr') as (H1 & H2 & H3). split; [done|]. split.
    + intros _. specialize (H2 Hkn). unfold holds_key in *. destruct (pr_discarded r'); [done|]. destruct H2 as [Hret' H2]. split; [done|].
      unfold in_flight in *. cbn. apply elem_of_difference in H2 as [H2 H4]. apply elem_of_difference. split; [apply elem_of_union; by right|].
      rewrite elem_of_list_to_set in *. intros Hin. apply H4. unfold keys in *. cbn in Hin.
      destruct front; [apply elem_of_cons in Hin|rewrite fmap_app, elem_of_app in Hin; cbn in Hin; rewrite list_elem_of_singleton in Hin];
        destruct Hin as [Hin|Hin]; try done; by rewrite Hin in H2.
    + intros Hw. apply H3. by destruct m.
  - destruct m; done.
Qed.
Lemma enqueue_request_G m r w : waiting m = true → at_least m w → _notify_started (tr w) = true → new r →
  wp (_enqueue cfg env r) (λ _, at_least m) w.
Proof using Henv.
  intros Hm [n HG] Hn Hr. unfold _enqueue. apply wp_bind. eapply wp_mono; [apply (enqueue_G n m r false w); [by destruct m|done..]|].
  intros ok w' H. destruct ok; [|by exists n]. rewrite Hm in H. eapply wp_mono; [apply (pump_requests_G cfg env Henv); by exists (S n)|].
  intros ? w2 H2. by apply settled_at_least.
Qed.

Lemma probe_G m force w : waiting m = true → at_least m w → wp (_queue_authorization_probe cfg env force) (λ _, at_least m) w.
Proof using Henv.
  intros Hm Hw. unfold _queue_authorization_probe. apply wp_get. destruct (negb (_notify_started (tr w))) eqn:En; [done|].
  cbn [orb]. destruct (_ && _); [done|]. apply negb_false_iff in En.
  destruct (build_get_app_attributes MESSAGES_APP_ID) as [p|e] eqn:Ep; [|by vm_compute in Ep].
  change (wp (request ← new_request "authorization" p (Some (DataSourceAssembler_init CommandID.GetAppAttributes [0] None (Some MESSAGES_APP_ID)));
              _enqueue cfg env (request <| pr_authorization_probe := true |>)) (λ _, at_least m) w).
  apply wp_bind. unfold new_request. apply wp_bind. unfold tick. apply wp_get. apply wp_bind. apply wp_modify_last. apply wp_ret. apply wp_ret.
  apply enqueue_request_G; [done| |done|done]. eapply at_least_same; [|exact Hw]. same.
Qed.
Lemma probe_health_G w : settled w → wp (probe_health cfg env) (λ _, settled) w.
Proof using Henv. intros Hw. unfold probe_health. apply wp_get. unfold when. destruct (_ && _); [by apply probe_G|done]. Qed.

(** ** Subscription *)

Lemma subscribe_failed_G e w : settled w → wp (subscribe_failed cfg env e) (λ _, settled) w.
Proof using Type.
  intros Hw. unfold subscribe_failed. apply wp_bind. eapply wp_mono; [exact (at_least_calm Rest _ _ (calm_permission cfg e) Hw)|].
  intros ? w1 H1. destruct (_connection_was_lost e).
  - apply (wp_settled _ _ 0). apply mark_failed_G. exact (at_least_channel Rest _ H1).
  - exact (at_least_calm Rest _ _ calm_subscribe_retry H1).
Qed.
Lemma subscribed_G w g : settled w → _notify_started (tr w) = false → _started (lc w) = true → is_some (_cp_path (tr w)) = true →
  settled (w <| tr ::= λ t, t <| receivers := g |> <| _notify_started := true |> |>).
Proof.
  intros [n [[C1 C2 C3 C4 C5 C6 C7] Gw Gk Gl Gq Gr Gs Gf Ga Gre]] Hn Hs Hc. exists n. split; cbn; auto.
  - by split.
  - intros k Hk. destruct (Gf k Hk) as [H _]. congruence.
  - intros r Hr. destruct (Ga r Hr) as [H _]. congruence.
Qed.
Lemma try_subscribe_G w : settled w → wp (_try_subscribe cfg env) (λ _, settled) w.
Proof using Henv.
  intros Hw. unfold _try_subscribe. apply wp_get. destruct (_notify_started (tr w)) eqn:En; [done|]. cbn [orb].
  destruct (_ || _); [done|]. destruct (_ns_path (tr w)) as [ns_path|]; [|done]. destruct (_ds_path (tr w)) as [ds_path|]; [|done].
  destruct (_cp_path (tr w)) as [cp_path|] eqn:Ecp; [|done]. destruct (_started (lc w)) eqn:Est; [|done]. cbn [negb].
  destruct (add_receivers env); [by apply subscribe_failed_G|].
  apply wp_bind. eapply wp_mono; [apply (calm_start_notify env ns_path)|]. intros ns w1 Hs1. pose proof (at_least_same Rest _ _ Hs1 Hw) as Hw1.
  destruct ns; [by apply subscribe_failed_G|].
  apply wp_bind. eapply wp_mono; [apply (calm_start_notify env ds_path)|]. intros ds w2 Hs2. pose proof (at_least_same Rest _ _ Hs2 Hw1) as Hw2.
  destruct ds; [by apply subscribe_failed_G|]. unfold _cancel_subscribe_retry. apply wp_bind. apply wp_modify_last. apply wp_bind. apply wp_modify_last.
  assert (same w w2) as (Hlc & _ & _ & Hns & Hcp & _) by (by etrans).
  set (w3 := w2 <| tm ::= _ |>). assert (settled w3) as Hw3 by (eapply at_least_same; [|exact Hw2]; same).
  match goal with |- wp _ _ ?x => assert (settled x) as Hw4 end.
  { apply (subscribed_G w3); [done|by cbn; congruence| |]; cbn; congruence || (rewrite Hcp; by rewrite Ecp) || (by rewrite Hlc). }
  apply wp_bind. eapply wp_mono; [exact (at_least_tame Rest _ _ (λ n, reset_actions_G cfg n Rest) Hw4)|]. intros ? w5 H5.
  apply wp_bind. eapply wp_mono; [exact (at_least_tame Rest _ _ (λ n, end_session_G cfg n Rest ltac:(done)) H5)|]. intros ? w6 H6.
  by apply probe_G.
Qed.
Lemma retry_subscribe_G w : settled w → wp (_retry_subscribe cfg env) (λ _, settled) w.
Proof using Henv.
  intros Hw. unfold _retry_subscribe, _cancel_subscribe_retry. apply wp_bind. apply wp_modify_last. apply wp_get.
  set (w1 := w <| tm ::= _ |>). assert (settled w1) as Hw1 by (eapply at_least_same; [|exact Hw]; same).
  unfold when at 1. destruct (_started (lc w1)); [|done]. apply wp_bind. unfold when. destruct (_legacy_connected (tr w1)).
  - apply wp_modify_last. apply try_subscribe_G. eapply at_least_same; [|exact Hw1]. same.
  - by apply wp_ret, try_subscribe_G.
Qed.
Lemma settle_G w : settled w → wp (_finish_bearer_settle cfg env) (λ _, settled) w.
Proof using Henv.
  intros Hw. unfold _finish_bearer_settle, _cancel_bearer_settle. apply wp_bind. apply wp_modify_last. apply wp_get.
  unfold when. destruct (_ && _).
  - apply wp_bind. apply wp_modify_last. apply try_subscribe_G. eapply at_least_same; [|exact Hw]. same.
  - eapply at_least_same; [|exact Hw]. same.
Qed.
Lemma retry_authorization_G w : settled w → wp (_retry_authorization cfg env) (λ _, settled) w.
Proof using Henv.
  intros Hw. unfold _retry_authorization, _cancel_authorization_retry. apply wp_bind. apply wp_modify_last. apply probe_G; [done|].
  eapply at_least_same; [|exact Hw]. same.
Qed.
Lemma legacy_health_G w : settled w → wp (_check_legacy_health cfg env) (λ _, settled) w.
Proof using Henv.
  intros Hw. unfold _check_legacy_health, _cancel_legacy_health. apply wp_bind. apply wp_modify_last. apply wp_get.
  match goal with |- wp _ _ ?x => assert (settled x) as Hx by (eapply at_least_same; [|exact Hw]; same) end.
  unfold when at 1. destruct (_ && _); [|done]. apply wp_bind. eapply wp_mono; [by apply probe_health_G|]. intros ? w1 H1. apply wp_get.
  apply at_least_calm; [|done]. apply tame_when; [apply _|apply calm_health].
Qed.
Lemma hint_G w : settled w → wp (_legacy_transport_hint cfg env) (λ _, settled) w.
Proof using Henv.
  intros Hw. unfold _legacy_transport_hint. apply wp_get. unfold when at 1. destruct (_started (lc w)); [|done].
  destruct (connected w); [by apply probe_health_G|]. apply at_least_calm; [|done]. unfold _cancel_subscribe_retry, _schedule_subscribe_retry. tame.
Qed.

(** ** The refresh *)

(** The refresh of [tg] runs, and its answer is being handled. *)
Definition refreshing (tg : Toggle) (w : World) : Prop :=
  toggle_current tg w = true ∧ _notify_started (tr w) = true ∧ retired (pr_key (tg_request tg)) = false
  ∧ ∃ n, G n Tight (w <| tr ::= λ t, t <| _notify_refresh := None |> |>).
Definition turn (tg : Toggle) (w : World) : Prop := (toggle_current tg w = false ∧ settled w) ∨ refreshing tg w.

Lemma toggle_current_same tg w w' : same w w' → toggle_current tg w' = toggle_current tg w.
Proof. intros (H1 & _ & _ & _ & _ & _ & H7 & _). unfold toggle_current. by rewrite H1, H7. Qed.
Lemma toggle_current_spec tg w : toggle_current tg w = true →
  _started (lc w) = true ∧ _notify_refresh (tr w) = Some (tg_token tg) ∧ tg_generation tg = generation w.
Proof.
  unfold toggle_current. intros H. apply andb_true_iff in H as [H H3]. apply andb_true_iff in H as [H1 H2].
  by apply bool_decide_eq_true in H2; apply Z.eqb_eq in H3.
Qed.
Lemma refreshing_same tg w w' : same w w' → refreshing tg w → refreshing tg w'.
Proof.
  intros Hs (H1 & H2 & Hkey & n & H3). pose proof Hs as (Ha & Hb & Hc & Hd & He & Hf & Hg & Hh & Hi). split; [by rewrite (toggle_current_same tg _ _ Hs)|].
  split; [congruence|]. split; [done|]. exists n. eapply G_same; [|exact H3]. unfold same. cbn. by split_and!.
Qed.
Lemma turn_same tg w w' : same w w' → turn tg w → turn tg w'.
Proof.
  intros Hs [[H1 H2]|H]; [left|right; by eapply refreshing_same]. rewrite (toggle_current_same tg _ _ Hs). split; [done|].
  by eapply at_least_same.
Qed.
Lemma refreshing_channel tg w : refreshing tg w → channel w.
Proof. intros (_ & _ & _ & n & [[] _ _ _ _ _ _ _ _ _]). by split. Qed.

Lemma refreshing_as tg tg' w : tg_token tg' = tg_token tg → tg_generation tg' = tg_generation tg → tg_request tg' = tg_request tg →
  refreshing tg w → refreshing tg' w.
Proof. intros H1 H2 H3. unfold refreshing, toggle_current. by rewrite H1, H2, H3. Qed.

(** A toggle that is sent again keeps the refresh going. *)
Lemma await_G tg w : refreshing tg w → settled (await_toggle tg w).2.
Proof.
  intros (H1 & H2 & Hkey & n & [[C1 C2 C3 C4 C5 C6 C7] Gw Gk Gl Gq Gr Gs Gf Ga Gre]). destruct (toggle_current_spec _ _ H1) as (Hst & Hr & Hg).
  exists n. split; cbn in *; auto.
  - split; cbn; auto. intros tg'. rewrite elem_of_app, list_elem_of_singleton. intros [H| ->]; auto.
  - intros k Hk. split; [done|]. exists tg. rewrite elem_of_app, list_elem_of_singleton. split; [by right|]. split; congruence.
  - intros _ _. right. right. right. congruence.
Qed.
Lemma refresh_failed_G tg e w : turn tg w → wp (refresh_failed cfg env tg e) (λ _, settled) w.
Proof using Type.
  intros Ht. unfold refresh_failed. apply wp_get. destruct Ht as [[H1 H2]|Ht].
  - unfold when. rewrite H1. by apply wp_ret.
  - pose proof Ht as (H1 & _). unfold when. rewrite H1. pose proof (refreshing_channel _ _ Ht) as [C1 C2 C3 C4 C5 C6 C7].
    apply wp_bind. apply wp_modify_last. apply (wp_settled _ _ 0). destruct (_connection_was_lost e); [apply mark_failed_G|apply escalate_G]; by split.
Qed.
Lemma stopped_G tg w : turn tg w → wp (stopped cfg env tg) (λ _, settled) w.
Proof using Type.
  intros Ht. unfold stopped. apply wp_get. apply wp_bind. eapply wp_mono.
  { apply (tame_when same). tame. }
  intros u w1 H1. pose proof (turn_same _ _ _ H1 Ht) as Ht1. clear u H1. apply wp_get. destruct Ht1 as [[Hc Hs]|Hr].
  - unfold when. rewrite Hc. by apply wp_ret.
  - unfold when. pose proof Hr as (Hc & _). rewrite Hc. destruct (toggle_refused env true (tg_path tg)).
    + apply refresh_failed_G. by right.
    + apply await_G. by eapply refreshing_as; [| | |exact Hr].
Qed.
Lemma stop_failed_G tg e w : turn tg w → wp (stop_failed cfg env tg e) (λ _, settled) w.
Proof using Type. intros Ht. unfold stop_failed. destruct (_notification_is_already_stopped e); [by apply stopped_G|by apply refresh_failed_G]. Qed.
Lemma toggle_notify_G tg w : refreshing tg w → wp (_toggle_notify cfg env tg) (λ _, settled) w.
Proof using Type.
  intros Ht. unfold _toggle_notify. destruct (toggle_refused env false (tg_path tg)); [apply stop_failed_G; by right|]. exact (await_G tg w Ht).
Qed.
Lemma next_path_G tg w : turn tg w → wp (next_path cfg env tg) (λ _, settled) w.
Proof using Henv.
  intros Ht. unfold next_path. apply wp_get. destruct Ht as [[Hc Hs]|Hr].
  { unfold when. rewrite Hc. by apply wp_ret. }
  unfold when. pose proof Hr as (Hc & Hn & Hkey & n & HG). rewrite Hc. destruct (tg_remaining tg) as [|path remaining]; [|apply toggle_notify_G; by eapply refreshing_as; [| | |exact Hr]].
  apply wp_bind. apply wp_modify_last. set (w1 := w <| tr ::= _ |>) in *. apply wp_bind. eapply wp_mono.
  { apply (wp_both _ _ _ w1 (reset_actions_G cfg n Tight w1) (still_reset_actions cfg w1)). }
  intros ? w2 (H2 & Htr & Hlc). specialize (H2 HG). apply wp_bind. unfold new_request. apply wp_bind. unfold tick. apply wp_get.
  apply wp_bind. apply wp_modify_last. apply wp_ret. apply wp_ret. apply wp_bind.
  match goal with |- wp (on_queue (enqueue ?k ?r true)) _ ?x =>
    eapply wp_mono; [apply (enqueue_G n Tight r true x)|] end; [done|eapply G_same; [|exact H2]; same|by cbn; rewrite Htr|by split|].
  - intros ok w' H. apply wp_get. assert (steady w') as Hw' by (destruct ok; [by exists (S n)|by exists n]).
    destruct (_ && _); [apply (wp_settled _ _ 0), escalate_G; by eapply at_least_channel|by apply (pump_requests_G cfg env Henv)].
Qed.
Lemma started_G tg w : turn tg w → wp (started cfg env tg) (λ _, settled) w.
Proof using Henv.
  intros Ht. unfold started. apply wp_get. apply wp_bind. eapply wp_mono.
  { apply (tame_when same). tame. }
  intros u w1 H1. apply next_path_G. exact (turn_same _ _ _ H1 Ht).
Qed.
Lemma on_toggle_G i e w : settled w → wp (on_toggle cfg env i e) (λ _, settled) w.
Proof using Henv.
  intros Hw. unfold on_toggle. apply wp_get. destruct (toggles (rq w) !! i) as [tg|] eqn:Ei; [|done]. apply wp_bind. apply wp_modify_last.
  match goal with |- wp _ _ ?x => set (w1 := x) end.
  assert (turn tg w1) as Ht.
  { destruct Hw as [n [[C1 C2 C3 C4 C5 C6 C7] Gw Gk Gl Gq Gr Gs Gf Ga Gre]]. destruct (toggle_current tg w) eqn:Ec.
    - right. destruct (toggle_current_spec _ _ Ec) as (Hst & Hr & Hg). destruct (Gf _ Hr) as (Hn & _).
      split; [exact Ec|]. split; [done|]. split; [apply C7; by eapply list_elem_of_lookup_2|]. exists n. split; cbn; auto; try done.
      split; cbn; auto. intros tg' H%list_elem_of_delete_inv. auto.
    - left. split; [exact Ec|]. exists n. split; cbn; auto; [split; cbn; auto; intros tg' H%list_elem_of_delete_inv; auto|]. intros k Hk. destruct (Gf k Hk) as (Hn & tg' & H1 & H2 & H3).
      split; [done|]. exists tg'. split; [|done]. apply list_elem_of_lookup in H1 as [j Hj].
      assert (j ≠ i) as Hne.
      { intros ->. assert (tg' = tg) as -> by congruence. unfold toggle_current in Ec. rewrite Hk, H2, H3, Z.eqb_refl in Ec.
        destruct (Gs Hn) as [Hst _]. by rewrite Hst, bool_decide_eq_true_2 in Ec. }
      apply list_elem_of_lookup. destruct (decide (j < i)%nat).
      + exists j. by rewrite list_lookup_delete_lt.
      + exists (pred j). rewrite list_lookup_delete_ge by lia. by rewrite Nat.succ_pred by lia. }
  destruct (tg_starting tg), e; [by apply refresh_failed_G|by apply started_G|by apply stop_failed_G|by apply stopped_G].
Qed.

Lemma refresh_G n r w : retired (pr_key r) = false → G n Loose w → wp (_refresh_notifications cfg env r) (λ b w', if b : bool then settled w' else channel w') w.
Proof using Henv.
  intros Hkey HG. unfold _refresh_notifications. apply wp_get. destruct (_ || _) eqn:Eg; [apply HG|].
  destruct (_ns_path (tr w)) as [ns|]; [|apply HG]. destruct (_ds_path (tr w)) as [ds|]; [|apply HG].
  repeat (apply orb_false_iff in Eg as [Eg ?]). apply negb_false_iff in Eg. destruct (_notify_started (tr w)) eqn:En; [|done].
  destruct (_notify_refresh (tr w)) eqn:Er; [done|].
  apply wp_bind. apply wp_modify_last. match goal with |- wp _ _ ?x => set (w1 := x) end.
  assert (G n Loose w1) as HG1 by (eapply G_same; [|exact HG]; same).
  apply wp_bind. eapply wp_mono; [by apply (finish_active_G n Loose)|]. intros ? w2 (_ & HG2 & _ & _ & Ht2 & Hl2 & _).
  apply wp_bind. eapply wp_mono.
  { apply (wp_both _ _ _ w2 (end_session_G cfg n Tight ltac:(done) w2) (still_end_session cfg w2)). }
  intros ? w3 (HG3 & Ht3 & Hl3). specialize (HG3 HG2). apply wp_bind. unfold tick at 1. apply wp_get. apply wp_bind. apply wp_modify_last.
  apply wp_ret. apply wp_bind. apply wp_modify_last. apply wp_bind. eapply wp_mono; [apply next_path_G|].
  - right. split; [|split; [cbn; by rewrite Ht3, Ht2|split; [done|]]].
    + unfold toggle_current. cbn. rewrite Hl3, Hl2. subst w1. cbn. by rewrite Eg, bool_decide_eq_true_2, Z.eqb_refl.
    + exists n. eapply G_same; [|exact HG3]. unfold same. cbn. split_and!; try done; [lia|]. rewrite Ht3, Ht2. subst w1. cbn. by rewrite Er.
  - intros ? w4 HG4. by apply wp_ret.
Qed.
Lemma timed_out_G w : J w → settled w → wp (_request_timed_out cfg env) (λ _, settled) w.
Proof using Henv.
  intros HJ [n HG]. unfold _request_timed_out. apply wp_bind. apply wp_modify_last. apply wp_get. set (w1 := w <| tm ::= _ |>).
  assert (G n Loose w1) as H1.
  { destruct HG as [[C1 C2 C3 C4 C5 C6 C7] Gw Gk Gl Gq Gr Gs Gf Ga Gre]. split; cbn; auto; try done; try (by split).
    intros r Hr. destruct (Ga r Hr) as (Ha & Hb & _). split; [done|]. by split; [intros _; exact (Hb eq_refl)|]. }
  destruct (_active_request (rq w1)) as [r|] eqn:Er.
  - destruct (_ && _) eqn:Ea.
    + apply andb_true_iff in Ea as [Ea _]. assert (retired (pr_key r) = false) as Hkey.
      { destruct (j_active _ HJ r Er) as [[_ Hs] _]. destruct (g_active _ _ _ H1 r Er) as (_ & Hk & _). specialize (Hk eq_refl).
        unfold holds_key in Hk. destruct (pr_discarded r); [|by destruct Hk]. destruct Hk as [_ Hk].
        destruct (pr_notification r); [|done]. destruct (pr_action r); [done|]. destruct Hs as [Hs _]. congruence. }
      apply wp_bind. eapply wp_mono; [by apply (refresh_G n)|]. intros b w2 H2. destruct b; [by apply wp_ret|].
      by apply (wp_settled _ _ 0), escalate_G.
    + apply wp_bind. eapply wp_mono.
      { apply (abandon_G env n Gone r); [by left| |by eapply G_gone]. destruct (g_active _ _ _ H1 r Er) as (_ & Hk & _).
        exact (key_free _ _ _ _ H1 (Hk eq_refl)). }
      intros ? w2 H2. apply wp_bind. apply wp_modify_last. apply (pump_requests_G cfg env Henv). exists n. by apply (idle_G n Gone).
  - apply (pump_requests_G cfg env Henv). exists n. destruct H1 as [Gc Gw Gk Gl Gq Gr Gs Gf Ga Gre]. split; auto; try done.
    intros r Hr. congruence.
Qed.

(** ** Answers *)

Lemma written_G n f w : wp (release_write (if_token f) true) (λ b w', answered n f b w') w → wp (written cfg env f) (λ _, settled) w.
Proof using Henv.
  intros Ha. unfold written. apply wp_bind. eapply wp_mono; [exact Ha|]. intros released w1 H. apply wp_get.
  destruct H as [w1 HG Hc|w1 HG Hc|w1 r HG Ht Hc]; rewrite Hc.
  - destruct (pr_action (if_request f)); [|by exists n]. apply wp_bind. eapply wp_mono; [exact (calm_holding n Rest _ _ (calm_report _ _) HG)|].
    intros ? w2 H2. by exists n.
  - destruct (pr_action (if_request f)); [|by apply (pump_requests_G cfg env Henv); exists n].
    apply wp_bind. eapply wp_mono; [exact (calm_holding n Tight _ _ (calm_report _ _) HG)|].
    intros ? w2 H2. apply (pump_requests_G cfg env Henv). by exists n.
  - destruct (current_attempt_active _ _ _ Hc) as (Hr & _). destruct (pr_action (if_request f)).
    + apply wp_bind. eapply wp_mono; [by apply (finish_active_G n Loose)|]. intros ? w2 (_ & H2 & _). apply wp_bind.
      eapply wp_mono; [exact (calm_holding n Tight _ _ (calm_written _) H2)|]. intros ? w3 H3. apply (pump_requests_G cfg env Henv). by exists n.
    + apply wp_modify_last. exists n. destruct HG as [[C1 C2 C3 C4 C5 C6 C7] Gw Gk Gl Gq Gr Gs Gf Ga Gre]. split; cbn; auto; [by split| |].
      * intros r' Hr'. destruct (Ga r' Hr') as (H1 & H2 & _). split; [done|]. split; [intros _; exact (H2 eq_refl)|]. intros _. by left.
      * intros _ _. left. congruence.
Qed.
Lemma answering_G token m w : settled w →
  (∀ n f w', f ∈ writes (rq w) → w' = w <| rq ::= λ x, x <| writes ::= List.filter (λ f', negb (if_token f' =? token)%nat) |> |> →
     if_token f = token → G n Rest w → wp (m f) (λ _, settled) w') →
  wp (answering token m) (λ _, settled) w.
Proof using Type.
  intros Hw Hm. unfold answering. apply wp_get. destruct (List.find _ _) as [f|] eqn:Ef; [|done].
  apply find_some in Ef as [H1 H2]. apply Nat.eqb_eq in H2. apply list_elem_of_In in H1. apply wp_bind. apply wp_modify_last.
  destruct Hw as [n HG]. by eapply Hm.
Qed.
Lemma answer_written_G token w : settled w → wp (answering token (written cfg env)) (λ _, settled) w.
Proof using Henv.
  intros Hw. apply answering_G; [done|]. intros n f w' Hf -> <- HG. apply (written_G n). by apply answering_spec.
Qed.
Lemma answer_failed_G token e w : settled w → wp (answering token (λ f, write_failed cfg env f e)) (λ _, settled) w.
Proof using Henv.
  intros Hw. apply answering_G; [done|]. intros n f w' Hf -> <- HG. unfold write_failed. rewrite failed_eq. apply wp_bind.
  eapply wp_mono; [by apply answering_spec|]. intros b w1 H1. apply (failure_G cfg env n); [|done].
  intros w2 H2. apply (pump_requests_G cfg env Henv). by exists n.
Qed.
Lemma busy_G w : settled w → wp (_retry_busy_control_point cfg env) (λ _, settled) w.
Proof using Henv.
  intros [n [[C1 C2 C3 C4 C5 C6 C7] Gw Gk Gl Gq Gr Gs Gf Ga Gre]]. unfold _retry_busy_control_point, _cancel_busy_retry. apply wp_bind.
  apply wp_modify_last. apply (pump_requests_G cfg env Henv). exists n. split; cbn; auto; first [done | by split].
Qed.

(** ** Notification Source *)

(** A new object of class _PendingRequest, set up by [f] and queued. *)
Lemma new_enqueue_G m key packet assembler f w :
  waiting m = true → at_least m w → _notify_started (tr w) = true → retired key = false →
  (∀ r, pr_key (f r) = pr_key r ∧ pr_discarded (f r) = pr_discarded r) →
  wp (r ← new_request key packet assembler; _enqueue cfg env (f r)) (λ _, at_least m) w.
Proof using Henv.
  intros Hm Hw Hn Hk Hf. apply wp_bind. unfold new_request. apply wp_bind. unfold tick. apply wp_get. apply wp_bind. apply wp_modify_last.
  apply wp_ret. apply wp_ret. match goal with |- wp (_enqueue cfg env (f ?r)) _ _ => destruct (Hf r) as [H1 H2]; set (r0 := r) in * end.
  apply enqueue_request_G; [done|eapply at_least_same; [|exact Hw]; same|done|]. split; [rewrite H1; exact Hk|by rewrite H2].
Qed.
Lemma request_attrs_G n w : settled w → _notify_started (tr w) = true → settled (_request_attrs cfg env n w).2.
Proof using Henv.
  intros Hw Hn. unfold _request_attrs. rewrite M_bind_eq. unfold lift. destruct (build_get_notification_app_identifier (n_id n)); [|done].
  apply wp_snd. by apply (new_enqueue_G Rest _ _ _ (λ r, r <| pr_notification := Some n |> <| pr_app_probe := true |>)).
Qed.
Lemma on_ns_G iface value w : settled w → _notify_started (tr w) = true → settled (_on_ns_changed cfg env iface value w).2.
Proof using Henv.
  intros Hw Hn. rewrite on_ns_eq. destruct (negb _); [done|]. destruct (Notification_parse <$> value) as [[n|]|]; [|done..].
  unfold on_notification. rewrite M_bind_eq. destruct Hw as [k HG].
  pose proof (wp_both _ _ _ w (hear_G cfg k Rest n ltac:(done) w) (still_hear cfg n w)) as Hh. unfold wp in Hh.
  destruct (hear cfg n w) as [[u|e] w1]; [|done]. destruct Hh as (Hh & Ht & _). specialize (Hh HG). assert (settled w1) as Hw1 by by exists k.
  destruct (_ =? _); [apply wp_snd, at_least_calm; [tame|done]|]. destruct (is_preexisting n).
  - rewrite M_bind_eq. unfold get. apply wp_snd. apply wp_bind. eapply wp_mono.
    { apply (at_least_tame Rest); [|exact Hw1]. intros k'. apply tame_when; [apply _|apply reset_actions_G]. }
    intros ? w2 H2. apply (at_least_tame Rest); [|exact H2]. intros k'. apply tame_when; [apply _|by apply end_session_G].
  - rewrite M_bind_eq. unfold set_ca, modify. cbv beta iota. apply request_attrs_G; [|cbn; congruence]. eapply at_least_same; [|exact Hw1]. same.
Qed.

(** ** Data Source *)

Definition uid_ok (uid : Z) : Prop := 0 <= uid < 2 ^ 32.
Definition app_ok (app_id : ustr) : Prop := app_id = MESSAGES_APP_ID ∨ app_id_ok app_id = true.

Lemma labels_ok n out : ∃ p, append_labels (action_label_ids n) ∅ out = Ok p.
Proof. unfold action_label_ids. destruct (has_positive_action n), (has_negative_action n); eexists; vm_compute; reflexivity. Qed.
Lemma content_packet_ok n (b : bool) : uid_ok (n_id n) → ∃ p, content_packet (n_id n) (if b then action_label_ids n else []) = Ok p.
Proof.
  intros Hu. unfold content_packet, build_get_notification_attributes, pack_u32. rewrite (pack_le_in_range 4) by exact Hu.
  cbn -[append_labels le_bytes]. unfold pack_u16. rewrite !pack_le_in_range by (vm_compute; split; congruence). cbn -[append_labels le_bytes].
  destruct b; [apply labels_ok|cbn; eauto].
Qed.
Lemma app_packet_ok app_id : app_id_ok app_id = true → ∃ p, build_get_app_attributes app_id = Ok p.
Proof.
  intros Ha. assert (is_ok (utf8_encode app_id) = true) as He.
  { apply utf8_encode_ok. unfold app_id_ok in Ha. destruct app_id as [|c s]; [done|].
    apply andb_true_iff in Ha as [Ha Hs]. apply andb_true_iff in Ha as [Ha _]. rewrite forallb_forall in Hs.
    assert (∀ c, alnum c || (c =? 46) || (c =? 95) || (c =? 45) = true → is_scalar c = true) as Hc.
    { intros x. unfold alnum, is_scalar. rewrite !orb_true_iff, !andb_true_iff, !Z.leb_le, !Z.eqb_eq. intros Hx.
      repeat (rewrite ?orb_true_iff, ?andb_true_iff, ?negb_true_iff, ?orb_false_iff, ?andb_false_iff, ?Z.leb_le, ?Z.ltb_lt, ?Z.leb_gt, ?Z.ltb_ge).
      lia. }
    constructor; [apply Hc; by rewrite Ha|]. apply Forall_forall. intros x Hx. apply Hc, Hs. by apply list_elem_of_In. }
  unfold build_get_app_attributes. destruct (utf8_encode app_id); [|done]. cbn. eauto.
Qed.

Lemma request_full_G n app_id w : steady w → _notify_started (tr w) = true → uid_ok (n_id n) →
  wp (_request_full_attrs cfg env n app_id) (λ _, steady) w.
Proof using Henv.
  intros Hw Hn Hu. unfold _request_full_attrs. set (b := _ && _). destruct (content_packet_ok n b Hu) as [p Hp]. unfold content_packet in Hp.
  rewrite Hp. apply wp_bind. change (wp (r ← new_request (notification_key (n_id n)) p
    (Some (DataSourceAssembler_init CommandID.GetNotificationAttributes ([0; 1; 2; 3] ++ (if b then action_label_ids n else [])) (Some (n_id n)) None));
    _enqueue cfg env ((λ r, r <| pr_notification := Some n |> <| pr_expected_app_id := Some app_id |>
                              <| pr_action_label_ids := if b then action_label_ids n else [] |>) r)) (λ _, steady) w).
  by apply new_enqueue_G.
Qed.
Lemma on_identified_G n app_id w : steady w → _notify_started (tr w) = true → uid_ok (n_id n) →
  wp (on_identified cfg env n app_id) (λ _, steady) w.
Proof using Henv.
  intros Hw Hn Hu. unfold on_identified. destruct (bool_decide _); [|destruct (_ && _)].
  - apply wp_bind. apply wp_modify_last. apply request_full_G; [|done|done]. eapply at_least_same; [|exact Hw]. same.
  - apply wp_bind. apply wp_modify_last. apply wp_bind. apply wp_modify_last. unfold when. destruct (include_app env app_id).
    + apply request_full_G; [|done|done]. eapply at_least_same; [|exact Hw]. same.
    + apply wp_ret. eapply at_least_same; [|exact Hw]. same.
  - apply wp_modify_last. eapply at_least_same; [|exact Hw]. same.
Qed.

Lemma request_name_G app_id w : steady w → _notify_started (tr w) = true → app_id_ok app_id = true →
  wp (_request_app_name cfg env app_id) (λ _, steady) w.
Proof using Henv.
  intros [n HG] Hn Ha. unfold _request_app_name. apply wp_get. destruct (_ || _); [apply wp_ret; by exists n|].
  apply wp_bind. apply wp_modify_last. destruct (app_packet_ok _ Ha) as [p Hp]. rewrite Hp. apply wp_bind. unfold lift at 1, wp at 1.
  apply wp_bind. unfold new_request. apply wp_bind. unfold tick. apply wp_get. apply wp_bind. apply wp_modify_last. apply wp_ret. apply wp_ret.
  apply wp_bind. match goal with |- wp (on_queue (enqueue _ ?r false)) _ ?x =>
    eapply wp_mono; [apply (enqueue_G n Tight r false x)|] end; [done|eapply G_same; [|exact HG]; same|done|by split|].
  intros ok w' H. destruct ok.
  - apply wp_bind. eapply wp_mono; [apply (pump_requests_G cfg env Henv); by exists (S n)|]. intros ? w2 H2. by apply wp_ret, settled_steady.
  - apply wp_bind. apply wp_modify_last. apply wp_ret. exists n. eapply G_same; [|exact H]. same.
Qed.
Lemma handle_attrs_G attrs w : steady w → _notify_started (tr w) = true → app_ok (na_app_id attrs) →
  wp (_handle_notification_attrs cfg env attrs) (λ _, steady) w.
Proof using Henv.
  intros Hw Hn Ha. unfold _handle_notification_attrs. destruct (bool_decide _) eqn:Em.
  { apply at_least_calm; [apply calm_emit_event|done]. }
  apply bool_decide_eq_false in Em. destruct Ha as [Ha|Ha]; [done|]. apply wp_get. destruct (od_get _ _).
  { apply at_least_calm; [|done]. apply tame_bind; [apply _|apply calm_set_ca|intros _; apply calm_emit_event]. }
  destruct (_ <=? _).
  { apply at_least_calm; [|done]. apply tame_bind; [apply _|apply calm_set_ca|intros _; apply calm_emit_event]. }
  apply wp_bind. apply wp_modify_last. apply wp_bind. eapply wp_mono; [apply request_name_G; [|done|done]|].
  { eapply at_least_same; [|exact Hw]. same. }
  intros ok w2 H2. apply at_least_calm; [|exact H2]. apply tame_when; [apply _|].
  apply tame_bind; [apply _|apply calm_set_ca|intros _; apply calm_emit_event].
Qed.

Lemma or_abandon_G {A} n r (x : result A) (f : A → M World ()) w : G n Tight w → _active_request (rq w) = None → pr_key r ∉ keys (queue w) →
  (∀ a, x = Ok a → wp (f a) (λ _, steady) w) → wp (or_abandon env r x f) (λ _, steady) w.
Proof using Type.
  intros HG Ha Hk Hf. destruct x as [a|e]; cbn [or_abandon]; [by apply Hf|].
  eapply wp_mono; [apply (abandon_G env n Tight r w); [by right|done|done]|]. intros ? w' H. by exists n.
Qed.
Lemma on_response_G n r complete w : G n Tight w → _active_request (rq w) = None → pr_key r ∉ keys (queue w) → _notify_started (tr w) = true →
  (∀ x, pr_notification r = Some x → uid_ok (n_id x) ∧ (pr_app_probe r = false → ∀ app_id, pr_expected_app_id r = Some app_id → app_ok app_id)) →
  wp (on_response cfg env r complete) (λ _, steady) w.
Proof using Henv.
  intros HG Ha Hk Hn Hr. assert (steady w) as Hw by by exists n. unfold on_response. apply (or_abandon_G n); [done..|]. intros ev _.
  destruct (ds_type ev =? _).
  - destruct (pr_notification r) as [x|] eqn:En; [|done]. destruct (Hr x eq_refl) as [Hu Happ]. destruct (pr_app_probe r) eqn:Ep.
    + apply (or_abandon_G n); [done..|]. intros [uid app] _. destruct (negb _); [done|]. by apply on_identified_G.
    + apply (or_abandon_G n); [done..|]. intros attrs _. destruct (negb _) eqn:Ex; [done|]. apply handle_attrs_G; [done|done|].
      apply negb_false_iff, bool_decide_eq_true in Ex. by apply Happ.
  - destruct (_ =? _); [|done]. apply (or_abandon_G n); [done..|]. intros attrs _. apply at_least_calm; [|done].
    apply tame_bind; [apply _| |intros _; apply calm_handle_app]. apply tame_when; [apply _|apply calm_authorized].
Qed.

Lemma set_active_G n m w r r' : G n m w → _active_request (rq w) = Some r → pr_key r' = pr_key r → pr_serial r' = pr_serial r →
  pr_discarded r' = pr_discarded r → pr_notification r' = pr_notification r →
  G n m (w <| rq ::= λ x, x <| _active_request := Some r' |> |>).
Proof.
  intros [[C1 C2 C3 C4 C5 C6 C7] Gw Gk Gl Gq Gr Gs Gf Ga Gre] Hr H1 H2 H3 H4. destruct (Ga r Hr) as (Hn & Hk & Hw).
  split; cbn; auto; [by split|].
  - intros r0 [= <-]. split; [done|]. split; [intros Hm; specialize (Hk Hm); unfold holds_key in *; by rewrite H1, H3, H4|].
    intros Hm. destruct (Hw Hm) as [Ht|(f & Hf1 & Hf2 & Hf3)]; [by left|]. right. exists f. by rewrite H2.
Qed.
(** What the invariant of [AncsSafety] says of a request's identifiers. *)
Lemma request_facts l r n : shape_ok r → (pr_discarded r = false → grounded False l r) → pr_discarded r = false → pr_notification r = Some n →
  uid_ok (n_id n) ∧ (pr_app_probe r = false → ∀ app_id, pr_expected_app_id r = Some app_id → app_ok app_id).
Proof.
  intros [_ Hs] Hg Hd Hn. specialize (Hg Hd). unfold grounded in Hg. rewrite Hn in Hs, Hg. destruct (pr_action r); [done|].
  destruct Hs as (_ & _ & Hs). destruct (pr_app_probe r).
  - split; [|done]. unfold build_get_notification_app_identifier in Hs. apply result_bind_ok in Hs as (u & Hu & _).
    by apply pack_le_ok in Hu as [_ Hu].
  - destruct Hs as (ids & Hs), Hg as (app & Happ & l1 & x & l2 & _ & (all & this & -> & Had) & _).
    split; [by apply content_packet_shape in Hs as [Hs _]|]. intros _ app' Happ'. assert (app' = app) as -> by congruence.
    destruct Had as [->|(Had & _)]; [by left|by right].
Qed.
Lemma on_ds_G iface value w : J w → settled w → _notify_started (tr w) = true → wp (_on_ds_changed cfg env iface value) (λ _, settled) w.
Proof using Henv.
  intros HJ [n HG] Hn. unfold _on_ds_changed. destruct (negb _); [by exists n|]. apply wp_get. destruct value as [fragment|]; [|by exists n].
  destruct (_active_request (rq w)) as [r0|] eqn:Er; [|by exists n]. destruct (pr_assembler r0) as [a0|]; [|by exists n].
  destruct (feed fragment a0) as [x a]. apply wp_bind. apply wp_modify_last. set (r := r0 <| pr_assembler := Some a |>).
  match goal with |- wp _ _ ?y => set (w1 := y) end.
  assert (G n Rest w1) as H1 by by eapply set_active_G.
  assert (∀ w2, steady w2 → wp (_pump_requests cfg env) (λ _, settled) w2) as Hpump by apply (pump_requests_G cfg env Henv).
  destruct x as [[complete|]|e]; [|by exists n|].
  - apply wp_bind. eapply wp_mono; [by apply (finish_active_G n Rest)|]. intros ? w2 (_ & H2 & Ha2 & _ & Ht2 & _ & Hk2).
    apply wp_bind. eapply wp_mono; [|intros ? w3 H3; apply Hpump; exact H3].
    change (pr_discarded r) with (pr_discarded r0). unfold when. destruct (pr_discarded r0) eqn:Ed; cbn [negb]; [apply wp_ret; by exists n|].
    apply (on_response_G n); [done|done|by apply Hk2|by rewrite Ht2|]. intros y Hy. destruct (j_active _ HJ r0 Er) as [Hs Hgr].
    by apply (request_facts (log w) r0 y Hs Hgr).
  - apply wp_bind. eapply wp_mono; [by apply (finish_active_G n Rest)|]. intros y w2 (-> & H2 & Ha2 & _ & _ & _ & Hk2).
    apply wp_bind. eapply wp_mono; [|intros ? w3 H3; apply Hpump; exists n; exact H3]. change (_active_request (rq w1)) with (Some r).
    apply (abandon_G env n Tight r); [by right|by apply Hk2|done].
Qed.

(** ** Actions *)

Lemma perform_G uid positive token reports w : settled w → settled (perform_notification_action cfg env uid positive token reports w).2.
Proof using Henv.
  intros Hw. unfold perform_notification_action. rewrite M_bind_eq. unfold tick at 1. monad_simpl.
  set (w1 := w <| fresh ::= S |>).
  assert (settled w1) as Hw1 by (eapply at_least_same; [|exact Hw]; same).
  set (a := mkAction _ _ positive reports).
  assert (∀ res x, settled x → settled (let (y, x') := _report_action a res x in match y with Ok _ => (Ok false, x') | Raise e => (Raise e, x') end).2) as Hrep.
  { intros res x Hx. pose proof (at_least_calm Rest _ _ (calm_report a res) Hx) as H. unfold wp in H. by destruct (_report_action a res x) as [[?|?] ?]. }
  destruct (negb match (if actions_setting env then _ else _) with Some _ => _ | None => _ end); [by apply Hrep|].
  destruct (negb (connected w1)) eqn:Ec; cbn [orb]; [by apply Hrep|]. destruct (negb (is_some (_cp_path (tr w1)))); [by apply Hrep|].
  destruct (_ || (_ <=? _)); [by apply Hrep|]. destruct (build_perform_notification_action _ _) as [p|]; [|done].
  assert (_notify_started (tr w1) = true) as Hn.
  { apply negb_false_iff in Ec. unfold connected in Ec. apply andb_true_iff in Ec as [Ec _]. by apply andb_true_iff in Ec as [_ Ec]. }
  unfold new_request, tick. monad_simpl. destruct Hw1 as [n HG].
  match goal with |- context [on_queue (enqueue ?k ?x true) ?y] => set (r := x); set (w2 := y) end.
  assert (G n Rest w2) as HG2 by (eapply G_same; [|exact HG]; same).
  pose proof (enqueue_G n Rest r true w2 eq_refl HG2 Hn ltac:(by split)) as He.
  unfold wp in He. destruct (on_queue _ w2) as [[ok|e] w3]; [|done]. destruct ok; cbn [negb]; [|apply Hrep; by exists n].
  unfold set_ac, emit, modify. cbv beta iota.
  match goal with |- context [_pump_requests cfg env ?x] => assert (steady x) as Hx end.
  { exists (S n). eapply G_same; [|exact He]. same. }
  pose proof (pump_requests_G cfg env Henv _ Hx) as Hp. unfold wp in Hp.
  match goal with |- context [_pump_requests cfg env ?x] => by destruct (_pump_requests cfg env x) as [[u|e] w4] end.
Qed.

(** ** Lifecycle *)

Lemma lc_G n m w f : G n m w → _bluez_owner_generation (f (lc w)) = generation w →
  (_notify_started (tr w) = true → _started (f (lc w)) = true) → G n m (w <| lc ::= f |>).
Proof.
  intros [[C1 C2 C3 C4 C5 C6 C7] Gw Gk Gl Gq Gr Gs Gf Ga Gre] Hg Hs. split; cbn; rewrite ?Hg; auto.
  - split; cbn; rewrite ?Hg; auto.
  - intros Hn. split; [by apply Hs|by apply Gs].
  - intros r Hr. destruct (Ga r Hr) as (H1 & H2 & H3). split; [done|]. split; [done|]. intros Hm. destruct (H3 Hm) as [H|(x & Hx)]; [by left|].
    right. exists x. cbn. by rewrite Hg.
Qed.
Lemma set_lc_settled w f : settled w → _bluez_owner_generation (f (lc w)) = generation w →
  (_notify_started (tr w) = true → _started (f (lc w)) = true) → settled (w <| lc ::= f |>).
Proof. intros [n HG] H1 H2. exists n. by apply lc_G. Qed.
Lemma notify_started_host w : settled w → _notify_started (tr w) = true → _started (lc w) = true.
Proof. intros [n HG] Hn. by apply (g_started _ _ _ HG). Qed.

Lemma iface_added_G path uuid w : settled w → wp (_on_iface_added cfg env path uuid) (λ _, settled) w.
Proof using Henv.
  intros Hw. unfold _on_iface_added. destruct (casefold <$> uuid) as [u|]; [|done]. destruct (negb _); [done|]. destruct (negb _); [done|].
  apply wp_bind. apply (wp_mono _ (λ _, settled)).
  - destruct (String.eqb _ _); [|destruct (String.eqb _ _)]; [apply at_least_calm; [tame|done]..|].
    apply wp_modify_last. destruct Hw as [n [[C1 C2 C3 C4 C5 C6 C7] Gw Gk Gl Gq Gr Gs Gf Ga Gre]]. exists n. split; cbn; auto; [by split|].
    intros Hn. split; [|done]. by apply Gs.
  - intros ? w1 H1. apply wp_get. destruct (_ && _); [|by apply try_subscribe_G]. apply at_least_calm; [|done].
    apply tame_bind; [apply _|tame|intros _; apply calm_subscribe_retry].
Qed.
Lemma clear_settled b w : channel w → wp (_clear_characteristic_subscription cfg env b) (λ _, settled) w.
Proof using Type. intros Hc. eapply wp_mono; [by apply (clear_G cfg env 0)|]. intros ? w' [H _]. by exists 0%nat. Qed.
Lemma channel_tr w f : channel w → channel (w <| tr ::= f |>).
Proof. intros []. by split. Qed.
Lemma channel_tm w f : channel w → channel (w <| tm ::= f |>).
Proof. intros []. by split. Qed.
Lemma iface_removed_G path w : settled w → wp (_on_iface_removed cfg env path) (λ _, settled) w.
Proof using Type.
  intros Hw. unfold _on_iface_removed, _cancel_subscribe_retry, _cancel_authorization_retry. apply wp_get.
  assert (∀ f, wp (set_tr f;; set_tm (λ t, t <| _subscribe_retry_id := None |>);; set_tm (λ t, t <| _authorization_retry_id := None |>);;
    _clear_characteristic_subscription cfg env false;; set_tr (λ t, t <| _owned_notify_paths ::= λ s, s ∖ {[path]} |>);;
    status_if cfg (connected w)) (λ _, settled) w) as Hgone.
  { intros f. apply wp_bind. apply wp_modify_last. apply wp_bind. apply wp_modify_last. apply wp_bind. apply wp_modify_last.
    apply wp_bind. eapply wp_mono; [apply clear_settled, channel_tm, channel_tm, channel_tr; by eapply at_least_channel|].
    intros ? w1 H1. apply at_least_calm; [|exact H1]. apply tame_bind; [apply _|tame|intros _; apply calm_status_if]. }
  repeat (destruct (bool_decide _); [apply Hgone|]). by apply wp_ret.
Qed.
Lemma sweep_G managed w : settled w → wp (sweep cfg env managed) (λ _, settled) w.
Proof using Henv.
  revert w. induction managed as [|[path uuid] managed IH]; intros w Hw; cbn [sweep]; [by apply wp_ret|].
  apply wp_bind. eapply wp_mono; [by apply iface_added_G|]. intros ? w1 H1. by apply IH.
Qed.
(** It raises only when BlueZ does not list its objects, before anything is subscribed. *)
Lemma bind_G w : settled w →
  match _bind_manager_and_rescan cfg env w with
  | (Ok _, w') => settled w'
  | (Raise _, w') => settled w' ∧ tr w' = tr w
  end.
Proof using Henv.
  intros Hw. unfold _bind_manager_and_rescan. rewrite M_bind_eq. unfold get, when. destruct (_ && _); [|done].
  unfold _bind_manager_once, _remove_manager_watches. rewrite M_bind_eq. unfold set_lc at 1, modify. cbv beta iota.
  set (w1 := w <| lc ::= _ |>). assert (settled w1) as Hw1 by (apply set_lc_settled; [done|done|by apply notify_started_host]).
  destruct (managed_objects env) as [managed|]; [|done]. rewrite M_bind_eq. unfold set_lc, modify. cbv beta iota.
  set (w2 := w1 <| lc ::= _ |>). assert (settled w2) as Hw2 by (apply set_lc_settled; [done|done|by apply notify_started_host]).
  pose proof (sweep_G managed w2 Hw2) as H. unfold wp in H. by destruct (sweep cfg env managed w2) as [[u|e] w3].
Qed.
Lemma start_G w : settled w → settled (start cfg env w).2.
Proof using Henv.
  intros Hw. unfold start. rewrite M_bind_eq. unfold get. destruct (_started (lc w)) eqn:Es; [done|].
  rewrite M_bind_eq. unfold set_lc at 1, modify. cbv beta iota. set (w1 := w <| lc ::= _ |>).
  assert (settled w1) as Hw1 by by apply set_lc_settled. rewrite M_bind_eq. unfold catching. pose proof (bind_G w1 Hw1) as Hb.
  destruct (_bind_manager_and_rescan cfg env w1) as [[u|e] w2].
  - apply wp_snd. apply wp_get. apply at_least_calm; [|done]. apply tame_when; [apply _|apply calm_settle].
  - destruct Hb as [Hb Ht]. rewrite M_bind_eq. unfold set_lc, modify. cbv beta iota. cbn [snd raise]. apply set_lc_settled; [done|done|].
    intros Hn. rewrite Ht in Hn. cbn in Hn. pose proof (notify_started_host _ Hw Hn). congruence.
Qed.
Lemma rebind_G w : settled w → settled (catching (_bind_manager_and_rescan cfg env) (λ _, _schedule_manager_retry) w).2.
Proof using Henv.
  intros Hw. unfold catching. pose proof (bind_G w Hw) as Hb. destruct (_bind_manager_and_rescan cfg env w) as [[u|e] w2]; [done|].
  apply wp_snd. apply at_least_calm; [apply calm_manager|by destruct Hb].
Qed.
Lemma retry_manager_G w : settled w → settled (_retry_manager_bind cfg env w).2.
Proof using Henv.
  intros Hw. unfold _retry_manager_bind, _cancel_manager_retry. rewrite M_bind_eq. unfold set_tm, modify. cbv beta iota. rewrite M_bind_eq. unfold get.
  match goal with |- settled (_ ?x).2 => assert (settled x) as Hx by (eapply at_least_same; [|exact Hw]; same) end.
  destruct (negb _); [done|by apply rebind_G].
Qed.

(** *** The owner of the bus name *)

(** A new owner appears only when the bus knew of none. *)
Definition orderly (e : event) (w : World) : Prop :=
  match e with EOwner false _ => _bluez_owner_available (lc w) = false | _ => True end.
(** Without an owner there are no characteristics and no watches. *)
Definition owned (w : World) : Prop :=
  _bluez_owner_available (lc w) = false → _cp_path (tr w) = None ∧ _manager_watches (lc w) = false.

Definition lc_kept (w w' : World) : Prop := lc w' = lc w.
#[export] Instance lc_kept_preorder : PreOrder lc_kept.
Proof. split; [by intros w|]. intros w1 w2 w3 H1 H2. unfold lc_kept in *. congruence. Qed.
Lemma hosted_lc {A} (m : M World A) : keeps hosted m → keeps lc_kept m.
Proof. intros Hm w. by destruct (Hm w). Qed.
Lemma hosted_owned {A} (m : M World A) w : keeps hosted m → owned w → owned (m w).2.
Proof. intros Hm Ho. destruct (Hm w) as [H1 H2]. unfold owned. by rewrite H1, H2. Qed.
Lemma available_owned w : _bluez_owner_available (lc w) = true → owned w.
Proof. unfold owned. congruence. Qed.
Lemma set_tr_lc f : keeps lc_kept (set_tr f). Proof. by intros w. Qed.
Lemma set_tm_lc f : keeps lc_kept (set_tm f). Proof. by intros w. Qed.
#[local] Hint Resolve set_tr_lc set_tm_lc : keeps.
Lemma iface_added_lc path uuid : keeps lc_kept (_on_iface_added cfg env path uuid).
Proof.
  pose proof (hosted_lc _ (hosted_subscribe cfg env)). assert (keeps lc_kept _schedule_subscribe_retry) by apply hosted_lc, (hosted_schedules cfg).
  unfold _on_iface_added. keeps.
Qed.
Lemma sweep_lc managed : keeps lc_kept (sweep cfg env managed).
Proof.
  induction managed as [|[path uuid] managed IH]; cbn; [keeps|]. pose proof (iface_added_lc path uuid). keeps.
Qed.
Definition available_kept (w w' : World) : Prop := _bluez_owner_available (lc w') = _bluez_owner_available (lc w).
#[export] Instance available_kept_preorder : PreOrder available_kept.
Proof. split; [by intros w|]. intros w1 w2 w3 H1 H2. unfold available_kept in *. congruence. Qed.
Lemma lc_available {A} (m : M World A) : keeps lc_kept m → keeps available_kept m.
Proof. intros Hm w. unfold available_kept. by rewrite (Hm w). Qed.
Lemma bind_available : keeps available_kept (_bind_manager_and_rescan cfg env).
Proof.
  assert (∀ l, keeps available_kept (sweep cfg env l)) by (intros l; apply lc_available, sweep_lc).
  assert (∀ b, keeps available_kept (set_lc (λ l, l <| _manager_watches := b |>))) by (by intros b w).
  unfold _bind_manager_and_rescan, _bind_manager_once, _remove_manager_watches. keeps.
Qed.
Lemma rebind_available : keeps available_kept (catching (_bind_manager_and_rescan cfg env) (λ _, _schedule_manager_retry)).
Proof.
  intros w. unfold catching. pose proof (bind_available w) as Hb. destruct (_bind_manager_and_rescan cfg env w) as [[u|e] w1]; [done|].
  etrans; [exact Hb|]. apply (lc_available _schedule_manager_retry), hosted_lc, (hosted_schedules cfg).
Qed.
Lemma rebind_owned w : owned w → owned (catching (_bind_manager_and_rescan cfg env) (λ _, _schedule_manager_retry) w).2.
Proof.
  intros Ho. destruct (_bluez_owner_available (lc w)) eqn:Ea.
  - apply available_owned. by rewrite (rebind_available w).
  - unfold catching, _bind_manager_and_rescan. rewrite M_bind_eq. unfold get. rewrite Ea, andb_false_r. exact Ho.
Qed.

Lemma start_owned w : owned w → owned (start cfg env w).2.
Proof.
  intros Ho. unfold start. rewrite M_bind_eq. unfold get. destruct (_started (lc w)); [done|]. rewrite M_bind_eq.
  unfold set_lc at 1, modify at 1. cbv beta iota. rewrite M_bind_eq. match goal with |- context [catching _ _ ?x] => set (w1 := x) end.
  pose proof (bind_available w1) as Hb. unfold catching. destruct (_bind_manager_and_rescan cfg env w1) as [[u|e] w2].
  - apply available_owned. etrans; [|exact Hb]. apply (lc_available (w ← get; when (_transport_available (tr w)) _schedule_bearer_settle)).
    assert (keeps lc_kept _schedule_bearer_settle) by apply hosted_lc, (hosted_schedules cfg). keeps.
  - rewrite M_bind_eq. unfold set_lc, modify. cbv beta iota. apply available_owned. exact Hb.
Qed.
Lemma retry_manager_owned w : owned w → owned (_retry_manager_bind cfg env w).2.
Proof.
  intros Ho. unfold _retry_manager_bind, _cancel_manager_retry. rewrite M_bind_eq. unfold set_tm, modify. cbv beta iota. rewrite M_bind_eq.
  unfold get. destruct (negb _); [done|]. by apply rebind_owned.
Qed.

(** Without a subscription nothing is queued or runs. *)
Lemma unsubscribed_G w w' : settled w → _notify_started (tr w) = false → channel w' →
  _notify_started (tr w') = _notify_started (tr w) → receivers (tr w') = receivers (tr w) → _notify_refresh (tr w') = _notify_refresh (tr w) →
  queue w' = queue w → _active_request (rq w') = _active_request (rq w) → settled w'.
Proof.
  intros [n [Gc Gw Gk Gl Gq Gr Gs Gf Ga Gre]] Hn Hc H1 H2 H3 Hq Ha. exists n. split; rewrite ?H1, ?H2, ?H3, ?Hq, ?Ha; auto.
  - congruence.
  - intros k Hk. destruct (Gf k Hk). congruence.
  - intros r Hr. destruct (Ga r Hr). congruence.
  - intros _ H. specialize (Gq H). congruence.
Qed.
Lemma channel_owner w available : channel w →
  channel (w <| lc ::= λ l, l <| _bluez_owner_generation ::= λ g, g + 1 |> <| _bluez_owner_available := available |> |>
             <| tr ::= λ t, t <| _notify_refreshes := 0 |> |> <| rq ::= λ x, x <| _cp_write_token := None |> |>
             <| log ::= λ l, l ++ [OwnerChanged] |>).
Proof.
  intros [C1 C2 C3 C4 C5 C6 C7]. split; cbn; auto; [|by intros f Hf ?; specialize (C3 f Hf); lia|done].
  intros f Hf. specialize (C3 f Hf). lia.
Qed.
(** What BlueZ's leaving the bus does. *)
Definition owner_lost (b : bool) : M World () :=
  _cancel_manager_retry;; _cancel_bearer_settle;; _cancel_transport_reset;; _remove_manager_watches;; _cancel_subscribe_retry;;
  _clear_characteristic_subscription cfg env false;;
  set_tr (λ t, t <| _bearer_connected := None |> <| _legacy_connected := false |> <| _legacy_retry_delay := SUBSCRIBE_RETRY_SECONDS |>
                 <| _bearer_ready := false |> <| _transport_blocked := false |> <| _owned_notify_paths := ∅ |>);;
  forget_paths;;
  status_if cfg b.
Lemma owner_lost_G b w : channel w → wp (owner_lost b) (λ _ w', settled w' ∧ _bluez_owner_available (lc w') = _bluez_owner_available (lc w)
  ∧ _cp_path (tr w') = None ∧ _manager_watches (lc w') = false) w.
Proof using Type.
  intros Hc. unfold owner_lost, _cancel_manager_retry, _cancel_bearer_settle, _cancel_transport_reset, _remove_manager_watches,
    _cancel_subscribe_retry, forget_paths.
  do 5 (apply wp_bind; apply wp_modify_last). apply wp_bind. eapply wp_mono.
  { apply (wp_keeps hosted); [apply hosted_clear|]. apply (clear_G cfg env 0). destruct Hc as [C1 C2 C3 C4 C5 C6 C7]. by split. }
  intros ? w2 (([Gc Gw Gk Gl Gq Gr Gs Gf Ga Gre] & Hn) & Hl & _). do 2 (apply wp_bind; apply wp_modify_last).
  match goal with |- wp _ _ ?x => assert (settled x) as H3 end.
  { exists 0%nat. destruct Gc as [C1 C2 C3 C4 C5 C6 C7]. split; cbn; auto; [by split|]. congruence. }
  eapply wp_mono; [apply calm_status_if|]. intros ? w4 Hs. split; [exact (at_least_same Rest _ _ Hs H3)|]. destruct Hs as (Hlc & _ & _ & _ & Hcp & _).
  rewrite Hlc, Hcp. cbn. by rewrite Hl.
Qed.
Lemma observe_owner_eq old_owner new_owner : observe_bluez_owner cfg env old_owner new_owner =
  (w ← get;
   if negb (_started (lc w)) then mret ()
   else
     set_lc (λ l, l <| _bluez_owner_generation ::= λ g, g + 1 |> <| _bluez_owner_available := new_owner |>);;
     set_tr (λ t, t <| _notify_refreshes := 0 |>);;
     set_rq (λ x, x <| _cp_write_token := None |>);;
     emit OwnerChanged;;
     when old_owner (owner_lost (connected w));;
     when new_owner (catching (_bind_manager_and_rescan cfg env) (λ _, _schedule_manager_retry))).
Proof using Type. unfold observe_bluez_owner, owner_lost. reflexivity. Qed.
Definition held (w : World) : Prop := settled w ∧ owned w.
Lemma owner_G old_owner new_owner w : settled w → owned w → orderly (EOwner old_owner new_owner) w →
  held (observe_bluez_owner cfg env old_owner new_owner w).2.
Proof using Henv.
  intros Hw Hown Ho. rewrite observe_owner_eq. rewrite M_bind_eq. unfold get. destruct (negb _); [done|].
  pose proof (channel_owner w new_owner (at_least_channel Rest _ Hw)) as Hc.
  rewrite M_bind_eq. unfold set_lc, modify at 1. cbv beta iota. rewrite M_bind_eq. unfold set_tr at 1, modify at 1. cbv beta iota.
  rewrite M_bind_eq. unfold set_rq, modify at 1. cbv beta iota. rewrite M_bind_eq. unfold emit, modify at 1. cbv beta iota.
  match goal with |- held (_ ?x).2 => set (w1 := x) in * end. change (channel w1) in Hc.
  assert (wp (when old_owner (owner_lost (connected w))) (λ _ w', settled w' ∧ _bluez_owner_available (lc w') = new_owner
    ∧ (new_owner = false → _cp_path (tr w') = None ∧ _manager_watches (lc w') = false)) w1) as Hold.
  { unfold when. destruct old_owner.
    { eapply wp_mono; [exact (owner_lost_G _ _ Hc)|]. intros ? w' (H1 & H2 & H3). split; [exact H1|]. split; [exact H2|]. intros _. exact H3. }
    specialize (Hown Ho). apply wp_ret. split; [|by split].
    apply (unsubscribed_G w w1 Hw); [|exact Hc|reflexivity..]. destruct (_notify_started (tr w)) eqn:En; [|done].
    destruct Hw as [n HG]. destruct (g_started _ _ _ HG En) as [_ H]. destruct Hown as [Hcp _]. by rewrite Hcp in H. }
  rewrite M_bind_eq. unfold wp in Hold.
  destruct (when old_owner (owner_lost (connected w)) w1) as [[u|e] w2]; [|done]. destruct Hold as (H2 & Hav & Hlost).
  unfold when. destruct new_owner.
  - split; [by apply rebind_G|]. apply rebind_owned. by apply available_owned.
  - split; [done|]. intros _. by apply Hlost.
Qed.

Lemma observe_le_G bearer w : settled w → wp (observe_le cfg env bearer) (λ _, settled) w.
Proof using Type.
  intros Hw. unfold observe_le, _cancel_bearer_settle, _cancel_transport_reset, _cancel_subscribe_retry.
  destruct bearer as [up|]; [|apply at_least_calm; [tame|done]]. apply wp_get. apply wp_bind. apply wp_modify_last.
  match goal with |- wp _ _ ?x => set (w1 := x) end. assert (settled w1) as H1 by (eapply at_least_same; [|exact Hw]; same).
  clearbody w1. destruct (negb up).
  - do 3 (apply wp_bind; apply wp_modify_last). match goal with |- wp _ _ ?x => set (w2 := x) end.
    assert (settled w2) as H2 by (eapply at_least_same; [|exact H1]; same). clearbody w2.
    destruct (negb (had_state w)); [apply at_least_calm; [tame|done]|].
    apply wp_bind. apply wp_modify_last. apply wp_bind. eapply wp_mono; [apply clear_settled, channel_tm; by eapply at_least_channel|].
    intros ? w3 H3. by apply at_least_calm; [apply calm_status|].
  - destruct (bool_decide _); [done|]. destruct (_transport_blocked (tr w)); apply at_least_calm; try done; [apply calm_transport_reset|].
    apply (tame_when same), calm_settle.
Qed.
Lemma bearer_G bearer legacy w : settled w → wp (observe_bearer_state cfg env bearer legacy) (λ _, settled) w.
Proof using Henv.
  intros Hw. unfold observe_bearer_state, _cancel_bearer_settle, _cancel_transport_reset, _cancel_subscribe_retry. apply wp_get.
  destruct (negb (Bool.eqb _ _)).
  - do 4 (apply wp_bind; apply wp_modify_last). apply wp_bind. eapply wp_mono.
    { apply clear_settled. do 3 apply channel_tm. apply channel_tr. by eapply at_least_channel. }
    intros ? w1 H1. apply wp_bind. apply wp_modify_last. apply wp_bind. eapply wp_mono.
    { apply (at_least_calm Rest); [apply calm_status_if|]. eapply at_least_same; [|exact H1]. same. }
    intros ? w2 H2. destruct legacy; [|destruct (negb _)].
    + apply at_least_calm; [|exact H2]. apply tame_bind; [apply _|tame|intros _]. apply (tame_when same), calm_settle.
    + by apply at_least_calm; [tame|].
    + by apply observe_le_G.
  - destruct legacy; [|by apply observe_le_G]. apply wp_bind. apply wp_modify_last. apply hint_G. eapply at_least_same; [|exact Hw]. same.
Qed.
Lemma stop_G w : settled w → wp (stop cfg env) (λ _ w', settled w' ∧ owned w') w.
Proof using Type.
  intros Hw. unfold stop, _cancel_manager_retry, _cancel_subscribe_retry, _cancel_authorization_retry, _cancel_bearer_settle,
    _cancel_transport_reset, _remove_manager_watches, forget_paths.
  apply wp_get. do 6 (apply wp_bind; apply wp_modify_last). apply wp_bind. eapply wp_mono; [apply (clear_G cfg env 0)|].
  { pose proof (at_least_channel Rest _ Hw) as [C1 C2 C3 C4 C5 C6 C7]. by split. }
  intros ? w2 ([Gc Gw Gk Gl Gq Gr Gs Gf Ga Gre] & Hn). do 3 (apply wp_bind; apply wp_modify_last).
  match goal with |- wp _ _ ?x => assert (settled x) as H3 end.
  { exists 0%nat. destruct Gc as [C1 C2 C3 C4 C5 C6 C7]. split; cbn; auto; [by split|]. congruence. }
  eapply wp_mono; [apply calm_status_if|]. intros ? w4 Hs. split; [exact (at_least_same Rest _ _ Hs H3)|]. intros _. destruct Hs as (Hlc & _ & _ & _ & Hcp & _).
  by rewrite Hlc, Hcp.
Qed.

(** ** Every event *)

Lemma receiving_G m w : settled w → (_notify_started (tr w) = true → settled (m w).2) → settled (receiving m w).2.
Proof.
  intros Hw Hm. unfold receiving. rewrite M_bind_eq. unfold get. destruct (receivers (tr w)) as [[g s]|] eqn:Er; [|done].
  unfold when. destruct (_ && _); [|done]. apply Hm. destruct Hw as [n HG]. apply (g_receivers _ _ _ HG). congruence.
Qed.
Lemma on_timer_G {A} (armed : Timers → option A) m w : settled w → settled (m w).2 → settled (on_timer armed m w).2.
Proof. intros Hw Hm. unfold on_timer. rewrite M_bind_eq. unfold get. by destruct (armed (tm w)). Qed.
Lemma watching_G m w : settled w → settled (m w).2 → settled (watching m w).2.
Proof. intros Hw Hm. unfold watching. rewrite M_bind_eq. unfold get, when. by destruct (_manager_watches (lc w)). Qed.

Lemma step_G e w : J w → settled w → owned w → orderly e w → settled (step cfg env e w).2.
Proof using Henv.
  intros HJ Hw Ho He. destruct e; cbn [step].
  - by apply start_G.
  - eapply wp_snd, wp_mono; [by apply stop_G|]. by intros ? ? [].
  - by apply owner_G.
  - by apply wp_snd, bearer_G.
  - apply watching_G; [done|]. by apply wp_snd, iface_added_G.
  - apply watching_G; [done|]. by apply wp_snd, iface_removed_G.
  - apply receiving_G; [done|]. by apply on_ns_G.
  - apply receiving_G; [done|]. intros Hn. by apply wp_snd, on_ds_G.
  - by apply wp_snd, answer_written_G.
  - by apply wp_snd, answer_failed_G.
  - by apply wp_snd, on_toggle_G.
  - rewrite M_bind_eq. pose proof (perform_G notification_id positive token reports w Hw) as H.
    by destruct (perform_notification_action cfg env notification_id positive token reports w) as [[b|x] w'].
  - apply wp_snd. unfold notification_actions_changed. apply (at_least_tame Rest); [|done]. intros n.
    apply tame_when; [apply _|apply reset_actions_G].
  - by apply wp_snd, probe_health_G.
  - apply on_timer_G; [done|]. by apply retry_manager_G.
  - apply on_timer_G; [done|]. by apply wp_snd, retry_subscribe_G.
  - apply on_timer_G; [done|]. by apply wp_snd, retry_authorization_G.
  - apply on_timer_G; [done|]. by apply wp_snd, settle_G.
  - apply on_timer_G; [done|]. apply wp_snd, at_least_calm; [|done]. unfold _request_transport_reset, _cancel_transport_reset. tame.
  - apply on_timer_G; [done|]. by apply wp_snd, legacy_health_G.
  - apply on_timer_G; [done|]. by apply wp_snd, timed_out_G.
  - apply on_timer_G; [done|]. by apply wp_snd, busy_G.
  - eapply at_least_same; [|exact Hw]. cbn. same.
Qed.

Lemma hosted_receiving m : keeps hosted m → keeps hosted (receiving m).
Proof using Type. intros Hm. unfold receiving. keeps. Qed.
Lemma hosted_on_timer {A} (armed : Timers → option A) m : keeps hosted m → keeps hosted (on_timer armed m).
Proof using Type. intros Hm. unfold on_timer. keeps. Qed.
Lemma iface_removed_owned path w : owned w → owned (_on_iface_removed cfg env path w).2.
Proof using Type.
  intros Ho. pose proof (hosted_clear cfg env false) as Hc. pose proof (hosted_status_if cfg) as Hst.
  assert (∀ f, keeps hosted (set_tm f)) as Htm by exact hosted_set_tm.
  assert (keeps hosted (set_tr (λ t, t <| _owned_notify_paths ::= λ s, s ∖ {[path]} |>))) by by apply hosted_set_tr.
  unfold _on_iface_removed, _cancel_subscribe_retry, _cancel_authorization_retry. rewrite M_bind_eq. unfold get.
  repeat (destruct (bool_decide _);
    [rewrite M_bind_eq; unfold set_tr at 1, modify; cbv beta iota; apply hosted_owned;
       [keeps|intros Ha; destruct (Ho Ha) as [Hcp Hmw]; split; done]|]).
  done.
Qed.
Lemma step_owned e w : settled w → owned w → orderly e w → owned (step cfg env e w).2.
Proof using Henv.
  intros Hw Ho He. destruct (hosted_resume cfg env) as (H1 & H2 & H3 & H4 & H5 & H6 & H7). destruct e; cbn [step].
  - by apply start_owned.
  - eapply wp_snd, wp_mono; [by apply stop_G|]. by intros ? ? [].
  - by apply owner_G.
  - by apply hosted_owned; [apply hosted_observe|].
  - unfold watching, when. rewrite M_bind_eq. unfold get. destruct (_manager_watches (lc w)) eqn:Em; [|done].
    destruct (_bluez_owner_available (lc w)) eqn:Ea; [|destruct (Ho Ea); congruence]. apply available_owned.
    by rewrite (iface_added_lc path uuid w).
  - unfold watching, when. rewrite M_bind_eq. unfold get. destruct (_manager_watches (lc w)); [|done]. by apply iface_removed_owned.
  - apply hosted_owned; [|done]. apply hosted_receiving, hosted_on_ns.
  - apply hosted_owned; [|done]. apply hosted_receiving, hosted_on_ds.
  - apply hosted_owned; [|done]. apply hosted_answering. intros f. apply hosted_written.
  - apply hosted_owned; [|done]. apply hosted_answering. intros f. apply hosted_write_failed.
  - apply hosted_owned; [|done]. apply hosted_on_toggle.
  - apply hosted_owned; [|done]. pose proof (hosted_perform cfg env notification_id positive token reports). keeps.
  - apply hosted_owned; [|done]. unfold notification_actions_changed. pose proof (hosted_reset_actions cfg). keeps.
  - apply hosted_owned; [|done]. apply hosted_probe_health.
  - unfold on_timer. rewrite M_bind_eq. unfold get. destruct (_manager_retry_id (tm w)); [|done]. by apply retry_manager_owned.
  - by apply hosted_owned; [apply hosted_on_timer|].
  - by apply hosted_owned; [apply hosted_on_timer|].
  - by apply hosted_owned; [apply hosted_on_timer|].
  - by apply hosted_owned; [apply hosted_on_timer|].
  - by apply hosted_owned; [apply hosted_on_timer|].
  - apply hosted_owned; [|done]. apply hosted_on_timer, hosted_timed_out.
  - by apply hosted_owned; [apply hosted_on_timer|].
  - done.
Qed.
End progress.

(** * The theorem *)

(** Every history in which the bus's reports are in order. *)
Inductive reachable (cfg : Config) : World → Prop :=
  | reachable_init previously_authorized now : reachable cfg (World_init previously_authorized now)
  | reachable_step env e w : reachable cfg w → honest env → orderly e w → reachable cfg (step cfg env e w).2.

Lemma init_G n previously_authorized now : G n Rest (World_init previously_authorized now).
Proof.
  apply cleared_G; try done. split; cbn; try done; try (intros ? H; by apply elem_of_nil in H). apply NoDup_nil_2.
Qed.
Lemma reachable_held cfg w : reachable cfg w → J w ∧ held w.
Proof.
  induction 1 as [b now|env e w Hr (HJ & Hs & Ho) He Hord]; [split; [apply J_init|split; [exists 0%nat; apply init_G|done]]|].
  split; [by apply step_J|]. split; [by apply step_G|by apply step_owned].
Qed.

(** Work the client has taken on: a queued or active request, or a refresh. *)
Definition busy (w : World) : Prop :=
  rb_queue (queue w) ≠ [] ∨ _active_request (rq w) ≠ None ∨ _notify_refresh (tr w) ≠ None.
(** What resumes it: an armed timer, or an answer BlueZ owes to the client
    under the owner it has now. *)
Definition resumes (w : World) : Prop :=
  _request_timeout_id (tm w) ≠ None ∨ _cp_busy_retry_id (tm w) ≠ None
  ∨ (∃ f, f ∈ writes (rq w) ∧ if_generation f = generation w)
  ∨ (∃ tg, tg ∈ toggles (rq w) ∧ toggle_current tg w = true).

(** C28: The Control Point queue never stalls: in every state the client reaches,
    as long as a request is queued or active or the CCC refresh runs, the
    request timeout or the busy retry is armed, or BlueZ still owes the answer to
    a write, or to a StopNotify or StartNotify of the running refresh.  D-Bus
    calls raise nothing but D-Bus errors, and the bus reports the owners of
    BlueZ's name in order. *)
Theorem never_stalls cfg w : reachable cfg w → busy w → resumes w.
Proof.
  intros Hr Hb. destruct (reachable_held cfg w Hr) as (_ & [n HG] & _).
  assert (_notify_refresh (tr w) ≠ None → resumes w) as Hrefresh.
  { intros H. destruct (_notify_refresh (tr w)) as [k|] eqn:Ek; [|done]. destruct (g_refresh _ _ _ HG k Ek) as (Hn & tg & Htg & <- & Hg).
    right. right. right. exists tg. split; [done|]. destruct (g_started _ _ _ HG Hn) as [Hs _]. unfold toggle_current.
    by rewrite Hs, Ek, bool_decide_eq_true_2, Hg, Z.eqb_refl. }
  assert (_active_request (rq w) ≠ None → resumes w) as Hactive.
  { intros H. destruct (_active_request (rq w)) as [r|] eqn:Er; [|done]. destruct (g_active _ _ _ HG r Er) as (_ & _ & Hw).
    destruct (Hw eq_refl) as [Ht|(f & Hf & Hg & _)]; [left; by destruct (_request_timeout_id (tm w))|]. right. right. left. by exists f. }
  destruct Hb as [Hq|[Ha|Hf]]; [|by apply Hactive|by apply Hrefresh].
  destruct (g_rest _ _ _ HG eq_refl Hq) as [Ha|[Ht|[Hbusy|Hf]]]; [by apply Hactive| |by right; left|by apply Hrefresh].
  destruct (_cp_write_token (rq w)) as [t|] eqn:Et; [|done]. destruct (ch_token _ (g_channel _ _ _ HG) t Et) as (f & Hf & _ & Hg).
  right. right. left. by exists f.
Qed.

Lemma run_reachable cfg es w : Forall (λ p : Env * event, honest p.1 ∧ ∀ w, orderly p.2 w) es → reachable cfg w → reachable cfg (run cfg es w).
Proof.
  intros Hes. revert w. induction Hes as [|[env e] es [H1 H2] _ IH]; intros w Hw; [done|]. apply IH. by apply reachable_step.
Qed.
(** The client has connected and a notification has just arrived. *)
Definition hearing : list (Env * event) := (env0,.) <$> connecting ++ [heard (notification_bytes 0 8 7)].
Lemma never_stalls_witness : resumes (run config hearing (World_init false 0)).
Proof.
  apply (never_stalls config); [|right; left; vm_compute; discriminate].
  apply run_reachable; [|apply reachable_init]. apply Forall_forall. intros p Hp. apply list_elem_of_fmap in Hp as (e & -> & He).
  split; [by intros serial|]. intros w. unfold connecting, heard, told in He. cbn [app] in He.
  repeat (apply elem_of_cons in He as [->|He]; [exact I|]). by apply elem_of_nil in He.
Defined.
