(* ===== verification/PhoneStatus.v ===== *)
(** * PhoneStatus: the phone's battery, signal and network as oFono reports
    them (src/blueferry/calls/phone_status.py).

    Parsing of Handsfree and NetworkRegistration properties, the status record,
    what GetStatus publishes of it, and the low-battery monitor. *)
From S2P Require Import Prelude PyStr Text Recipients CallModel.

Inductive iface := Handsfree | NetworkRegistration.
#[global] Instance iface_eq_dec : EqDecision iface.
Proof. solve_decision. Defined.
Definition HANDSFREE_IFACE : ustr := lit "org.ofono.Handsfree".
Definition NETWORK_REGISTRATION_IFACE : ustr := lit "org.ofono.NetworkRegistration".
Definition iface_name (i : iface) : ustr :=
  match i with Handsfree => HANDSFREE_IFACE | NetworkRegistration => NETWORK_REGISTRATION_IFACE end.
Definition PHONE_STATUS_IFACES : list iface := [Handsfree; NetworkRegistration].

Definition BATTERY_STEPS : Z := 5.
Definition BATTERY_STEP_PERCENT : Z := 100 / BATTERY_STEPS.
Definition MAX_NETWORK_NAME_CHARS : Z := 64.
Definition NETWORK_STATUSES : list ustr :=
  lit <$> ["unregistered"; "registered"; "searching"; "denied"; "unknown"; "roaming"].
Definition _REGISTERED : list ustr := lit <$> ["registered"; "roaming"].

Definition _byte (value : pyval) (maximum : Z) : option Z :=
  match value with VInt n => if (0 <=? n) && (n <=? maximum) then Some n else None | _ => None end.
Definition parse_battery_charge (value : pyval) : option Z := _byte value BATTERY_STEPS.
Definition parse_signal_strength (value : pyval) : option Z := _byte value 100.
Definition parse_network_status (value : pyval) : option ustr :=
  match value with VText s => Some (if among s NETWORK_STATUSES then s else lit "unknown") | _ => None end.
Definition parse_network_name (value : pyval) : option ustr :=
  match remote_text value MAX_NETWORK_NAME_CHARS with [] => None | text => Some text end.

Record PhoneStatus := mkPhone {
  battery_steps : option Z;
  signal_strength : option Z;
  network_name : option ustr;
  network_status : option ustr;
}.
#[global] Instance PhoneStatus_eq_dec : EqDecision PhoneStatus.
Proof. solve_decision. Defined.
Definition UNKNOWN : PhoneStatus := mkPhone None None None None.

Definition battery_percent (s : PhoneStatus) : option Z := (λ n, n * BATTERY_STEP_PERCENT) <$> battery_steps s.
Definition in_registered (status : option ustr) : bool := match status with Some t => among t _REGISTERED | None => false end.
Definition registered (s : PhoneStatus) : bool := in_registered (network_status s).

Definition with_handsfree (s : PhoneStatus) (name : ustr) (value : pyval) : PhoneStatus :=
  if bool_decide (name = lit "BatteryChargeLevel") then s <| battery_steps := parse_battery_charge value |> else s.
Definition with_network (s : PhoneStatus) (key : ustr) (value : pyval) : PhoneStatus :=
  if bool_decide (key = lit "Strength") then s <| signal_strength := parse_signal_strength value |>
  else if bool_decide (key = lit "Name") then s <| network_name := parse_network_name value |>
  else if bool_decide (key = lit "Status") then
    let status := parse_network_status value in
    if in_registered status then s <| network_status := status |>
    else s <| network_status := status |> <| signal_strength := None |>
  else s.
Definition without_handsfree (s : PhoneStatus) : PhoneStatus := s <| battery_steps := None |>.
Definition without_network (s : PhoneStatus) : PhoneStatus :=
  s <| signal_strength := None |> <| network_name := None |> <| network_status := None |>.

(** The keys of GetStatus, except the constant source of a known battery. *)
Record Published := mkPublished {
  phone_battery_level : option Z;
  phone_signal_strength : option Z;
  phone_network_name : option ustr;
  phone_network_status : option ustr;
}.
#[global] Instance Published_eq_dec : EqDecision Published.
Proof. solve_decision. Defined.
Definition to_status (s : PhoneStatus) : Published :=
  mkPublished (battery_percent s) (if registered s then signal_strength s else None)
    (if registered s then network_name s else None) (network_status s).

Definition with_property_of (i : iface) (s : PhoneStatus) (kv : ustr * pyval) : PhoneStatus :=
  match i with Handsfree => with_handsfree s kv.1 kv.2 | NetworkRegistration => with_network s kv.1 kv.2 end.
Definition without (i : iface) (s : PhoneStatus) : PhoneStatus :=
  match i with Handsfree => without_handsfree s | NetworkRegistration => without_network s end.
(** [properties] lists the items of a mapping in their order; [None] is another
    object. *)
Definition apply_properties (s : PhoneStatus) (i : iface) (properties : option (list (ustr * pyval))) : PhoneStatus :=
  match properties with
  | None => s
  | Some l => foldl (with_property_of i) (without i s) (take 64 l)
  end.

(** ** The low-battery monitor *)

Record LowBatteryMonitor := mkMonitor { threshold : Z; _warned : bool }.
Definition LowBatteryMonitor_init (t : Z) : LowBatteryMonitor :=
  mkMonitor (Z.max 0 (Z.min (100 - BATTERY_STEP_PERCENT) t)) false.
Definition observe (percent : option Z) (enabled : bool) : M LowBatteryMonitor bool :=
  m ← get;
  match percent with
  | None => mret false
  | Some p =>
      if threshold m + BATTERY_STEP_PERCENT <=? p then modify (λ m : LowBatteryMonitor, m <| _warned := false |>);; mret false
      else if enabled && (p <=? threshold m) && negb (_warned m)
      then modify (λ m : LowBatteryMonitor, m <| _warned := true |>);; mret true
      else mret false
  end.
