(* ===== verification/CallControl.v ===== *)
(** * CallControl: phone calls over oFono (src/blueferry/calls/controller.py).

    The whole of [CallController]: discovery of the iPhone's modem, its
    Powered-then-Online bring-up with the retries, the tracked calls, the phone
    status, and the control of calls with the queue of keypad tones.  oFono's
    replies and signals, timers and the daemon's requests are events; what the
    bus, the bearer supervisor and the contacts answer during one event is the
    event's [Env].  Records, parsing and validation are [CallModel]'s.

    The transport is created on first use, so it exists whenever it is asked to
    power a modem down.  Logging and its log-once memory are left out, and the
    daemon's callbacks do not call back into the controller. *)
From S2P Require Import Prelude PyStr Text Recipients CallModel PhoneStatus.

(** ** Constants *)

Inductive calls_state := CALLS_DISABLED | CALLS_UNAVAILABLE | CALLS_SEARCHING | CALLS_CONNECTING | CALLS_READY | CALLS_BLUEZ_CONFLICT.
#[global] Instance calls_state_eq_dec : EqDecision calls_state.
Proof. solve_decision. Defined.

Definition RETRY_STEPS_SEC : list Z := [1; 2; 4; 8; 15].
Definition RETRY_STEADY_SEC : Z := 30.
Definition UNAVAILABLE_RETRY_SEC : Z := 60.
Definition BRINGUP_TIMEOUT_SEC : Z := 30.
Definition POWER_ATTEMPTS_BEFORE_CONFLICT : Z := 3.
Definition CONFLICT_RETRY_SEC : Z := 300.
Definition MAX_QUEUED_TONE_REQUESTS : Z := 32.
Definition MAX_TRACKED_CALLS : Z := 16.

Definition MAX_REMOTE_PROPERTY_CHARS : Z := 512.
Definition CALL_VOLUME_MAX : Z := 100.

Definition VOICE_CALL_IFACE : ustr := lit "org.ofono.VoiceCall".

(** ** Errors *)

(** A [DBusException] with its name, or another exception with its type. *)
Inductive error := DBusError (name : string) | OtherError (type : string).
Definition error_name (e : error) : string := match e with DBusError n => n | OtherError _ => "" end.
Definition _SERVICE_MISSING : list string :=
  ["org.freedesktop.DBus.Error.ServiceUnknown"; "org.freedesktop.DBus.Error.NameHasNoOwner";
   "org.freedesktop.DBus.Error.NoServer"; "org.freedesktop.DBus.Error.Disconnected";
   "org.freedesktop.DBus.Error.FileNotFound"; "org.freedesktop.DBus.Error.Spawn.ServiceNotFound"].
Definition _ACCESS_DENIED : list string := ["org.freedesktop.DBus.Error.AccessDenied"].
Definition _INTERFACE_MISSING : list string :=
  ["org.freedesktop.DBus.Error.UnknownObject"; "org.freedesktop.DBus.Error.UnknownInterface";
   "org.freedesktop.DBus.Error.UnknownMethod"].
Definition service_missing (e : error) : bool := bool_decide (error_name e ∈ _SERVICE_MISSING).
Definition access_denied (e : error) : bool := bool_decide (error_name e ∈ _ACCESS_DENIED).
Definition interface_missing (e : error) : bool := bool_decide (error_name e ∈ _INTERFACE_MISSING).
Definition public_error (e : error) : string :=
  match e with DBusError (String a n) => String.substring 0 128 (String a n) | DBusError EmptyString => "DBusException" | OtherError t => t end.

(** ** Data *)

#[global] Instance CallRecord_eq_dec : EqDecision CallRecord.
Proof. solve_decision. Defined.

Inductive modem_property := Powered | Online.
#[global] Instance modem_property_eq_dec : EqDecision modem_property.
Proof. solve_decision. Defined.
#[global] Instance modem_property_countable : Countable modem_property.
Proof.
  refine (inj_countable' (λ p, match p with Powered => true | Online => false end) (λ b : bool, if b then Powered else Online) _).
  by intros [].
Defined.

(** Methods of call control; [Dial] with its normalized number. *)
Inductive method := Answer | HoldAndAnswer | Hangup | HangupAll | Dial (number : ustr) | SendTones (tones : ustr) | SwapCalls.
(** On the call's own object, or on the modem's VoiceCallManager. *)
Definition on_call (m : method) : bool := match m with Answer | Hangup => true | _ => false end.

(** Watched signals, with what their handler closed over. *)
Inductive handler :=
  | HModemAdded | HModemRemoved | HModemProperty
  | HCallAdded | HCallRemoved | HCallProperty (call_id : ustr)
  | HPhone (i : iface) (token : nat).
Record Watch := mkWatch {
  w_id : nat;
  w_handler : handler;
  w_path : ustr;
  w_generation : Z;
  w_calls_generation : Z;
  w_binding : bool;
}.
#[global] Instance handler_eq_dec : EqDecision handler.
Proof. solve_decision. Defined.

(** Requests to oFono that expect a reply. *)
Inductive request :=
  | GetModems
  | SetModem (name : modem_property) (path : ustr)
  | GetCalls (path : ustr) (calls_generation : Z)
  | SetVolume (name : string) (path : ustr)
  | PhoneProperties (path : ustr) (i : iface) (token : nat) (retry : bool)
  | Control (m : method) (path : ustr) (client : nat).
Record Pending := mkPending { p_request : request; p_generation : Z }.

Inductive tick_kind := RetryTick | RestartTick.

Inductive call_event := CallIncoming | CallChanged | CallEnded.
(** What the controller did, in order, with the messages about calls it acted
    on ([Signalled], [Gone], [Listed]: CallAdded, CallRemoved, GetCalls). *)
Inductive action :=
  | Sent (r : request)
  | PowerDown (path : ustr)
  | Accepted (name : modem_property) (path : ustr)
  | Event (kind : call_event) (c : CallRecord)
  | CallsChanged
  | StateChanged (s : calls_state)
  | PhoneChanged (s : PhoneStatus)
  | PoweredOk
  | PoweredFailed (name : string)
  | Succeeded (client : nat) (value : ustr)
  | Failed (client : nat) (e : exn)
  | Signalled (call_id : ustr)
  | Gone (call_id : ustr)
  | Listed (call_ids : list ustr)
  | Unbound.

(** ** The state *)

Record Lifecycle := mkLifecycle {
  enabled : bool;
  _state : calls_state;
  _running : bool;
  _generation : Z;
  _calls_generation : Z;
  _owner_match : bool;
  _manager_matches : list Watch;
}.
Record Modem := mkModemState {
  _modem : option ModemInfo;
  _modem_match : option Watch;
  _request_in_flight : bool;
  _requested : gset modem_property;
  _powered_path : option ustr;
  _discovering : bool;
  _power_failures : Z;
  _blocked : bool;
  _last_reachable : bool;
}.
Record Timers := mkTimers {
  _retry_id : option (tick_kind * Z);
  _retry_index : Z;
  _bringup_id : option Z;
}.
Record Calls := mkCalls {
  _vcm_matches : list Watch;
  _call_matches : list (ustr * Watch);
  _calls : list (ustr * CallRecord);
  _snapshot_changes : option (list ustr);
  _bound_path : option ustr;
}.
Record Phone := mkPhoneState {
  _phone : PhoneStatus;
  _phone_path : option ustr;
  _phone_matches : list (iface * Watch);
  _phone_tokens : list (iface * nat);
  _phone_retries : list (iface * (ustr * nat));
}.
Record Tones := mkTones {
  _tone_queue : list (ustr * ustr * ustr * nat);   (* modem, call, tones, client *)
  _tone_busy : bool;
}.
Record World := mkWorld {
  lc : Lifecycle; md : Modem; tm : Timers; cl : Calls; ph : Phone; tn : Tones;
  bus : list Watch;          (* the receivers on the bus *)
  pending : list Pending;    (* requests oFono has not answered *)
  fresh : nat; log : list action;
}.

Record Config := mkConfig { mac : ustr; adapter_name : ustr }.

(** What the environment answers during one event. *)
Record Env := mkEnv {
  now : ustr;
  owner_watch_fails : bool;
  watch_fails : handler → bool;
  remove_fails : bool;
  call_fails : request → option error;
  phone_reachable : bool;
  hfp_conflict : bool;
  resolve_contact : ustr → ustr;
  py_str : pyval → ustr;
  items : mapping → list (ustr * pyval);   (* a mapping's items in their order *)
}.

Definition emit (a : action) : M World () := modify (λ w : World, w <| log ::= λ l, l ++ [a] |>).
Definition set_lc (f : Lifecycle → Lifecycle) : M World () := modify (λ w : World, w <| lc ::= f |>).
Definition set_md (f : Modem → Modem) : M World () := modify (λ w : World, w <| md ::= f |>).
Definition set_tm (f : Timers → Timers) : M World () := modify (λ w : World, w <| tm ::= f |>).
Definition set_cl (f : Calls → Calls) : M World () := modify (λ w : World, w <| cl ::= f |>).
Definition set_ph (f : Phone → Phone) : M World () := modify (λ w : World, w <| ph ::= f |>).
Definition set_tn (f : Tones → Tones) : M World () := modify (λ w : World, w <| tn ::= f |>).

(** Dictionaries in insertion order. *)
Definition od_get {K V} `{EqDecision K} (k : K) (d : list (K * V)) : option V := snd <$> List.find (λ p, bool_decide (p.1 = k)) d.
Definition od_pop {K V} `{EqDecision K} (k : K) (d : list (K * V)) : list (K * V) := filter (λ p, p.1 ≠ k) d.
Definition od_set {K V} `{EqDecision K} (k : K) (v : V) (d : list (K * V)) : list (K * V) :=
  if bool_decide (k ∈ d.*1) then (λ p, if bool_decide (p.1 = k) then (k, v) else p) <$> d else d ++ [(k, v)].

Definition available (w : World) : bool := bool_decide (_state (lc w) = CALLS_READY).
Definition calls (w : World) : list CallRecord := (_calls (cl w)).*2.
Definition in_call (w : World) : bool := negb (is_nil (_calls (cl w))).
Definition list_calls (w : World) : result (calls_state * list CallRecord) :=
  if enabled (lc w) then Ok (_state (lc w), calls w) else Raise CallsDisabledError.

(** * Operations *)

Section controller.
Context `{CaseMapping} (cfg : Config) (env : Env).

(** ** Plumbing *)

Definition tick : M World nat := w ← get; modify (λ w : World, w <| fresh ::= S |>);; mret (fresh w).
Definition _set_state (s : calls_state) : M World () :=
  w ← get;
  if bool_decide (s = _state (lc w)) then mret () else set_lc (λ l, l <| _state := s |>);; emit (StateChanged s).
Definition _calls_changed : M World () := emit CallsChanged.
Definition _emit (kind : call_event) (c : CallRecord) : M World () := emit (Event kind c).
Definition _reachable : bool := phone_reachable env.
Definition _bluez_conflict : bool := hfp_conflict env.

(** [transport.watch] of a [_guard]ed handler; [None] when it raises. *)
Definition _watch (h : handler) (path : ustr) (binding : bool) : M World (option Watch) :=
  if watch_fails env h then mret None
  else
    id ← tick;
    w ← get;
    let x := mkWatch id h path (_generation (lc w)) (_calls_generation (lc w)) binding in
    modify (λ w : World, w <| bus ::= λ l, l ++ [x] |>);;
    mret (Some x).
Definition _remove (m : option Watch) : M World () :=
  match m with
  | None => mret ()
  | Some x => when (negb (remove_fails env)) (modify (λ w : World, w <| bus ::= filter (λ y, w_id y ≠ w_id x) |>))
  end.
Fixpoint remove_all (l : list Watch) : M World () :=
  match l with [] => mret () | x :: l' => _remove (Some x);; remove_all l' end.
Definition _remove_watches : M World () :=
  set_lc (λ l, l <| _owner_match := false |>);;
  w ← get;
  remove_all (_manager_matches (lc w));;
  set_lc (λ l, l <| _manager_matches := [] |>).

Definition cancel_retry : M World () := set_tm (λ t, t <| _retry_id := None |>).
Definition cancel_bringup : M World () := set_tm (λ t, t <| _bringup_id := None |>).

(** ** Retries *)

Definition _next_delay : M World Z :=
  w ← get;
  set_tm (λ t, t <| _retry_index ::= Z.succ |>);;
  mret (nth (Z.to_nat (_retry_index (tm w))) RETRY_STEPS_SEC RETRY_STEADY_SEC).
Definition _schedule_retry (delay : option Z) : M World () :=
  w ← get;
  if negb (_running (lc w)) || is_some (_retry_id (tm w)) then mret ()
  else
    selected ← match delay with None => _next_delay | Some d => mret d end;
    set_tm (λ t, t <| _retry_id := Some (RetryTick, selected) |>).
Definition _schedule_restart : M World () :=
  w ← get;
  when (negb (is_some (_retry_id (tm w)))) (set_tm (λ t, t <| _retry_id := Some (RestartTick, UNAVAILABLE_RETRY_SEC) |>)).
Definition _arm_bringup_watchdog : M World () :=
  w ← get; when (negb (is_some (_bringup_id (tm w)))) (set_tm (λ t, t <| _bringup_id := Some BRINGUP_TIMEOUT_SEC |>)).

(** ** Phone status *)

Definition _phone_changed (previous : PhoneStatus) : M World () :=
  w ← get;
  if bool_decide (to_status previous = to_status (_phone (ph w))) then mret () else emit (PhoneChanged (_phone (ph w))).
Definition _apply_phone (update : PhoneStatus → PhoneStatus) : M World () :=
  w ← get; set_ph (λ p, p <| _phone ::= update |>);; _phone_changed (_phone (ph w)).
Definition _cancel_phone_retry (i : iface) : M World () := set_ph (λ p, p <| _phone_retries ::= od_pop i |>).
Definition _unwatch_phone (i : iface) : M World () :=
  _cancel_phone_retry i;;
  w ← get;
  set_ph (λ p, p <| _phone_matches ::= od_pop i |>);;
  _remove (od_get i (_phone_matches (ph w)));;
  set_ph (λ p, p <| _phone_tokens ::= od_pop i |> <| _phone ::= without i |>);;
  w ← get;
  when (is_nil (_phone_matches (ph w))) (set_ph (λ p, p <| _phone_path := None |>)).
Fixpoint unwatch_all (l : list iface) : M World () :=
  match l with [] => mret () | i :: l' => _unwatch_phone i;; unwatch_all l' end.
Definition _drop_phone_status : M World () :=
  w ← get;
  unwatch_all (_phone_matches (ph w)).*1;;
  set_ph (λ p, p <| _phone := UNKNOWN |> <| _phone_path := None |>);;
  when (_running (lc w)) (_phone_changed (_phone (ph w))).
(** [_phone_tokens.get(iface) is token]. *)
Definition token_current (i : iface) (token : nat) (w : World) : bool := bool_decide (od_get i (_phone_tokens (ph w)) = Some token).
Definition _schedule_phone_retry (path : ustr) (i : iface) (token : nat) : M World () :=
  w ← get;
  if is_some (od_get i (_phone_retries (ph w))) then mret ()
  else set_ph (λ p, p <| _phone_retries ::= od_set i (path, token) |>).
(** [failed] of [_read_phone]. *)
Definition read_phone_failed (path : ustr) (i : iface) (token : nat) (retry : bool) (e : error) : M World () :=
  w ← get;
  when (token_current i token w) (when (retry && negb (interface_missing e)) (_schedule_phone_retry path i token)).

(** ** Leaving a modem *)

Fixpoint end_calls (l : list CallRecord) : M World () :=
  match l with [] => mret () | c :: l' => _emit CallEnded c;; end_calls l' end.
Definition _unbind (announce : bool) : M World () :=
  emit Unbound;;
  set_lc (λ l, l <| _calls_generation ::= Z.succ |>);;
  w ← get;
  set_cl (λ c, c <| _snapshot_changes := None |>);;
  remove_all (_vcm_matches (cl w));;
  set_cl (λ c, c <| _vcm_matches := [] |>);;
  remove_all (_call_matches (cl w)).*2;;
  set_cl (λ c, c <| _call_matches := [] |> <| _bound_path := None |> <| _calls := [] |>);;
  when (announce && negb (is_nil (_calls (cl w)))) (end_calls (_calls (cl w)).*2;; _calls_changed).
Definition _release_modem : M World () :=
  _drop_phone_status;;
  w ← get;
  _remove (_modem_match (md w));;
  set_md (λ m, m <| _modem_match := None |> <| _modem := None |> <| _request_in_flight := false |> <| _requested := ∅ |>
                 <| _blocked := false |> <| _power_failures := 0 |>);;
  cancel_bringup.
Definition _send_power_down (path : ustr) : M World () := emit (PowerDown path).
Definition _power_down : M World () :=
  w ← get;
  set_md (λ m, m <| _powered_path := None |>);;
  match _powered_path (md w) with Some path => _send_power_down path | None => mret () end.

(** ** Failures of requests *)

Definition _power_failed : M World () :=
  set_md (λ m, m <| _power_failures ::= Z.succ |> <| _request_in_flight := false |> <| _requested := ∅ |>);;
  cancel_bringup;;
  w ← get;
  if (POWER_ATTEMPTS_BEFORE_CONFLICT <=? _power_failures (md w)) && _bluez_conflict then
    set_md (λ m, m <| _blocked := true |>);;
    _set_state CALLS_BLUEZ_CONFLICT;;
    _schedule_retry (Some CONFLICT_RETRY_SEC)
  else
    when (_blocked (md w))
      (set_md (λ m, m <| _blocked := false |>);;
       set_tm (λ t, t <| _retry_index := 0 |>);;
       _set_state CALLS_CONNECTING);;
    _schedule_retry None.
Definition _on_modems_failed (e : error) : M World () :=
  set_md (λ m, m <| _discovering := false |>);;
  if access_denied e || service_missing e then _set_state CALLS_UNAVAILABLE;; _schedule_retry (Some UNAVAILABLE_RETRY_SEC)
  else _schedule_retry None.
(** [failed] of [_request_modem_property]. *)
Definition set_modem_failed (name : modem_property) (path : ustr) (e : error) : M World () :=
  set_md (λ m, m <| _request_in_flight := false |>);;
  when (bool_decide (name = Powered)) (emit (PoweredFailed (public_error e)));;
  w ← get;
  when (bool_decide (m_path <$> _modem (md w) = Some path))
    (cancel_bringup;;
     if bool_decide (name = Powered) then _power_failed else _schedule_retry None).
(** Whether a [_guard] of this generation lets its handler run. *)
Definition passes (generation : Z) (calls_generation : option Z) (w : World) : bool :=
  _running (lc w) && (generation =? _generation (lc w))
  && match calls_generation with None => true | Some g => g =? _calls_generation (lc w) end.
Definition _on_existing_calls_failed : M World () := set_cl (λ c, c <| _snapshot_changes := None |>).
Definition on_error (generation : Z) (r : request) (e : error) : M World () :=
  match r with
  | GetModems => _on_modems_failed e
  | SetModem name path => set_modem_failed name path e
  | GetCalls _ calls_generation =>
      w ← get; when (passes generation (Some calls_generation) w) _on_existing_calls_failed
  | SetVolume _ _ => mret ()
  | PhoneProperties path i token retry => read_phone_failed path i token retry e
  | Control _ _ _ => mret ()
  end.

(** [_call]: a transport that raises is like an error reply. *)
Definition submit (r : request) : M World () :=
  modify (λ w : World, w <| pending ::= λ l, l ++ [mkPending r (_generation (lc w))] |>).
Definition _call (r : request) : M World () :=
  emit (Sent r);;
  w ← get;
  match call_fails env r with
  | None => submit r
  | Some e => on_error (_generation (lc w)) r e
  end.

Definition _read_phone (path : ustr) (i : iface) (token : nat) (retry : bool) : M World () := _call (PhoneProperties path i token retry).
Definition _watch_phone (path : ustr) (i : iface) : M World () :=
  token ← tick;
  m ← _watch (HPhone i token) path false;
  match m with
  | None => mret ()
  | Some x =>
      set_ph (λ p, p <| _phone_path := Some path |> <| _phone_matches ::= od_set i x |> <| _phone_tokens ::= od_set i token |>);;
      _read_phone path i token true
  end.
Fixpoint watch_wanted (path : ustr) (wanted : iface → bool) (l : list iface) : M World () :=
  match l with
  | [] => mret ()
  | i :: l' =>
      w ← get;
      when (wanted i && negb (is_some (od_get i (_phone_matches (ph w))))) (_watch_phone path i);;
      watch_wanted path wanted l'
  end.
Definition _sync_phone_status : M World () :=
  w ← get;
  match _modem (md w) with
  | Some m =>
      if negb (_running (lc w)) || negb (powered m) then _drop_phone_status
      else
        when (negb (bool_decide (_phone_path (ph w) ∈ [None; Some (m_path m)]))) _drop_phone_status;;
        w ← get;
        let wanted i := among (iface_name i) (interfaces m) in
        unwatch_all (List.filter (λ i, negb (wanted i)) (_phone_matches (ph w)).*1);;
        _phone_changed (_phone (ph w));;
        watch_wanted (m_path m) wanted PHONE_STATUS_IFACES
  | None => _drop_phone_status
  end.

(** ** Calls *)

Definition _resolved (c : CallRecord) : CallRecord :=
  c <| contact_name := remote_text (VText (if is_nil (number c) then [] else resolve_contact env (number c))) MAX_REMOTE_PROPERTY_CHARS |>.
Definition note_change (call_id : ustr) : M World () :=
  set_cl (λ c, c <| _snapshot_changes ::= fmap (λ l, l ++ [call_id]) |>).
Definition _maximize_call_volume (path : ustr) : M World () :=
  _call (SetVolume "SpeakerVolume" path);; _call (SetVolume "MicrophoneVolume" path).
Definition _on_call_property (call_id : ustr) (name : ustr) (value : pyval) : M World () :=
  note_change call_id;;
  w ← get;
  match od_get call_id (_calls (cl w)) with
  | None => mret ()
  | Some current =>
      let updated := with_property current name value in
      if bool_decide (updated = current) then mret ()
      else
        let updated := if bool_decide (number updated = number current) then updated else _resolved updated in
        set_cl (λ c, c <| _calls ::= od_set call_id updated |>);;
        when (negb (bool_decide (state updated = state current)))
          (when (bool_decide (state updated = lit "active"))
             match _bound_path (cl w) with Some path => _maximize_call_volume path | None => mret () end);;
        _emit CallChanged updated;;
        _calls_changed
  end.
Fixpoint call_properties (call_id : ustr) (l : list (ustr * pyval)) : M World () :=
  match l with [] => mret () | (k, v) :: l' => _on_call_property call_id k v;; call_properties call_id l' end.
Definition _on_call_added (path : pyval) (properties : option mapping) : M World () :=
  match parse_call (now env) path properties None with
  | None => mret ()
  | Some record =>
      note_change (call_id record);;
      w ← get;
      if is_some (od_get (call_id record) (_calls (cl w))) then
        call_properties (call_id record) (match properties with Some m => items env m | None => [] end)
      else if MAX_TRACKED_CALLS <=? zlen (_calls (cl w)) then mret ()
      else
        m ← _watch (HCallProperty (call_id record)) (c_path record) true;
        match m with
        | None => mret ()
        | Some x =>
            let resolved := _resolved record in
            set_cl (λ c, c <| _call_matches ::= od_set (call_id record) x |>);;
            set_cl (λ c, c <| _calls ::= od_set (call_id record) resolved |>);;
            _emit (if ringing resolved then CallIncoming else CallChanged) resolved;;
            _calls_changed
        end
  end.
Definition _on_call_removed (path : pyval) : M World () :=
  match call_id_from_path path with
  | None => mret ()
  | Some id =>
      note_change id;;
      w ← get;
      set_cl (λ c, c <| _calls ::= od_pop id |>);;
      set_cl (λ c, c <| _call_matches ::= od_pop id |>);;
      _remove (od_get id (_call_matches (cl w)));;
      match od_get id (_calls (cl w)) with
      | None => mret ()
      | Some record => _emit CallEnded record;; _calls_changed
      end
  end.
(** A list of object paths with their properties; [None] is a malformed entry. *)
Abbreviation objects := (list (option (pyval * option mapping))).
Fixpoint add_listed (changed : list ustr) (calls : objects) : M World () :=
  match calls with
  | [] => mret ()
  | entry :: calls' =>
      match entry with
      | Some (path, properties) =>
          when (negb (bool_decide (call_id_from_path path ∈ Some <$> changed))) (_on_call_added path properties)
      | None => mret ()
      end;;
      add_listed changed calls'
  end.
Definition _on_existing_calls (calls : objects) : M World () :=
  w ← get;
  set_cl (λ c, c <| _snapshot_changes := None |>);;
  add_listed (default [] (_snapshot_changes (cl w))) calls.

Definition bind_failed : M World () :=
  w ← get;
  remove_all (_vcm_matches (cl w));;
  set_cl (λ c, c <| _vcm_matches := [] |> <| _snapshot_changes := None |>);;
  _schedule_retry None.
Definition _bind (path : ustr) : M World () :=
  _unbind true;;
  set_cl (λ c, c <| _snapshot_changes := Some [] |>);;
  added ← _watch HCallAdded path true;
  match added with
  | None => bind_failed
  | Some x =>
      set_cl (λ c, c <| _vcm_matches ::= λ l, l ++ [x] |>);;
      removed ← _watch HCallRemoved path true;
      match removed with
      | None => bind_failed
      | Some y =>
          set_cl (λ c, c <| _vcm_matches ::= λ l, l ++ [y] |>);;
          set_cl (λ c, c <| _bound_path := Some path |>);;
          set_tm (λ t, t <| _retry_index := 0 |>);;
          w ← get;
          _call (GetCalls path (_calls_generation (lc w)));;
          _maximize_call_volume path
      end
  end.

(** ** Bring-up *)

Definition _request_modem_property (name : modem_property) : M World () :=
  w ← get;
  match _modem (md w) with
  | None => mret ()
  | Some m =>
      set_md (λ m, m <| _request_in_flight := true |>);;
      _arm_bringup_watchdog;;
      _call (SetModem name (m_path m))
  end.
(** The end of [_advance], for a modem that is not voice-ready. *)
Definition bring_up (m : ModemInfo) : M World () :=
  w ← get;
  if _request_in_flight (md w) || is_some (_retry_id (tm w)) then mret ()
  else if negb (powered m) then
    if bool_decide (Powered ∈ _requested (md w)) then _arm_bringup_watchdog
    else if negb _reachable then _schedule_retry (Some RETRY_STEADY_SEC)
    else _request_modem_property Powered
  else if negb (online m) then
    if bool_decide (Online ∈ _requested (md w)) then _arm_bringup_watchdog else _request_modem_property Online
  else _arm_bringup_watchdog.
Definition _advance : M World () :=
  w ← get;
  match _modem (md w) with
  | None => mret ()
  | Some m =>
      if negb (_running (lc w)) then mret ()
      else
        when (powered m) (set_md (λ x, x <| _powered_path := Some (m_path m) |>));;
        _sync_phone_status;;
        if voice_ready m then
          cancel_bringup;;
          when (negb (bool_decide (_bound_path (cl w) = Some (m_path m)))) (_bind (m_path m));;
          w ← get;
          (if negb (bool_decide (_bound_path (cl w) = Some (m_path m))) then _set_state CALLS_CONNECTING
           else _set_state CALLS_READY)
        else
          when (is_some (_bound_path (cl w))) (_unbind true);;
          when (negb (_blocked (md w))) (_set_state CALLS_CONNECTING);;
          bring_up m
  end.
(** [done] and [stale] of [_request_modem_property]. *)
Definition set_modem_done (name : modem_property) (path : ustr) : M World () :=
  emit (Accepted name path);;
  set_md (λ m, m <| _request_in_flight := false |> <| _requested ::= λ s, {[name]} ∪ s |>);;
  when (bool_decide (name = Powered)) (set_md (λ m, m <| _powered_path := Some path |>));;
  _advance.
Definition set_modem_stale (name : modem_property) (path : ustr) : M World () :=
  emit (Accepted name path);;
  w ← get;
  when (bool_decide (name = Powered) && negb (_running (lc w))) (_send_power_down path).
Definition _bringup_timeout : M World () :=
  set_tm (λ t, t <| _bringup_id := None |>);;
  w ← get;
  when (_running (lc w) && negb (bool_decide (_state (lc w) = CALLS_READY)))
    (set_md (λ m, m <| _request_in_flight := false |> <| _requested := ∅ |>);;
     if match _modem (md w) with Some m => negb (powered m) | None => false end then _power_failed else _schedule_retry None).

(** ** Discovery *)

Definition _adopt (m : ModemInfo) : M World () :=
  w ← get;
  watched ←
    (if bool_decide (m_path <$> _modem (md w) = Some (m_path m)) then mret true
     else
       _unbind true;;
       _release_modem;;
       x ← _watch HModemProperty (m_path m) false;
       match x with
       | Some x => set_md (λ s, s <| _modem_match := Some x |>);; mret true
       | None => _schedule_retry None;; mret false
       end);
  if negb watched then mret ()
  else
    set_md (λ s, s <| _modem := Some m |>);;
    when (powered m) (emit PoweredOk);;
    _advance.
Definition _on_modems (modems : objects) : M World () :=
  set_md (λ m, m <| _discovering := false |>);;
  match select_modem (omap (λ e, '(path, properties) ← e; parse_modem path properties) modems) (mac cfg) (adapter_name cfg) with
  | None =>
      w ← get;
      when (is_some (_modem (md w))) (_unbind true;; _release_modem);;
      _set_state CALLS_SEARCHING;;
      _schedule_retry None
  | Some m => _adopt m
  end.
Definition _discover : M World () :=
  w ← get;
  if negb (_running (lc w)) || _discovering (md w) then mret ()
  else set_md (λ m, m <| _discovering := true |>);; _call GetModems.
Definition _on_modem_added (path : pyval) (properties : option mapping) : M World () :=
  match parse_modem path properties with
  | None => mret ()
  | Some m =>
      w ← get;
      let current := _modem (md w) in
      if match current with
         | Some c => negb (bool_decide (m_path c = m_path m)) && voice_ready c && negb (voice_ready m)
         | None => false
         end
      then mret ()
      else
        match select_modem (m :: match current with Some c => [c] | None => [] end) (mac cfg) (adapter_name cfg) with
        | Some candidate => when (bool_decide (m_path candidate = m_path m)) (cancel_retry;; _adopt m)
        | None => mret ()
        end
  end.
Definition _on_modem_removed (path : pyval) : M World () :=
  w ← get;
  if negb (bool_decide (m_path <$> _modem (md w) = Some (text_of (py_str env) path))) then mret ()
  else
    set_md (λ m, m <| _powered_path := None |>);;
    _unbind true;;
    _release_modem;;
    _set_state CALLS_SEARCHING;;
    set_tm (λ t, t <| _retry_index := 0 |>);;
    _schedule_retry None.
Definition _on_modem_property (name : ustr) (value : pyval) : M World () :=
  w ← get;
  match _modem (md w) with
  | None => mret ()
  | Some previous =>
      let m := updated previous name value in
      set_md (λ s, s <| _modem := Some m |>);;
      (if negb (powered m) then set_md (λ s, s <| _requested := ∅ |>)
       else if negb (online m) then set_md (λ s, s <| _requested ::= λ r, r ∖ {[Online]} |>)
       else mret ());;
      let progressed :=
        (powered m && negb (powered previous)) || (online m && negb (online previous))
        || (voice_ready m && negb (voice_ready previous)) in
      when (powered m && negb (powered previous)) (emit PoweredOk);;
      when progressed
        (cancel_retry;;
         set_tm (λ t, t <| _retry_index := 0 |>);;
         set_md (λ s, s <| _blocked := false |> <| _power_failures := 0 |>));;
      when (bool_decide (name ∈ lit <$> ["Powered"; "Online"; "Interfaces"])) _advance
  end.

Definition ROOT : ustr := lit "/".
(** [false] when a watch raises; those made before it stay. *)
Definition _watch_manager : M World bool :=
  added ← _watch HModemAdded ROOT false;
  match added with
  | None => mret false
  | Some x =>
      set_lc (λ l, l <| _manager_matches ::= λ ms, ms ++ [x] |>);;
      removed ← _watch HModemRemoved ROOT false;
      match removed with
      | None => mret false
      | Some y => set_lc (λ l, l <| _manager_matches ::= λ ms, ms ++ [y] |>);; mret true
      end
  end.
Definition _on_owner_changed (present : bool) : M World () :=
  w ← get;
  if negb (_running (lc w)) then mret ()
  else
    set_lc (λ l, l <| _generation ::= Z.succ |>);;
    set_md (λ m, m <| _powered_path := None |> <| _blocked := false |>);;
    cancel_retry;;
    cancel_bringup;;
    _unbind true;;
    _release_modem;;
    set_md (λ m, m <| _discovering := false |> <| _request_in_flight := false |>);;
    set_tm (λ t, t <| _retry_index := 0 |>);;
    remove_all (_manager_matches (lc w));;
    set_lc (λ l, l <| _manager_matches := [] |>);;
    _watch_manager;;
    (if present then _set_state CALLS_SEARCHING;; _discover
     else _set_state CALLS_UNAVAILABLE;; _schedule_retry (Some UNAVAILABLE_RETRY_SEC)).

(** ** Lifecycle *)

Definition start : M World () :=
  w ← get;
  if negb (enabled (lc w)) || _running (lc w) then mret ()
  else
    set_lc (λ l, l <| _running := true |> <| _generation ::= Z.succ |>);;
    watched ← (if owner_watch_fails env then mret false
               else set_lc (λ l, l <| _owner_match := true |>);; _watch_manager);
    if negb watched then
      _remove_watches;;
      _set_state CALLS_UNAVAILABLE;;
      set_lc (λ l, l <| _running := false |>);;
      _schedule_restart
    else _discover.
Definition stop : M World () :=
  set_lc (λ l, l <| _running := false |>);;
  set_md (λ m, m <| _blocked := false |>);;
  set_lc (λ l, l <| _generation ::= Z.succ |>);;
  set_md (λ m, m <| _discovering := false |>);;
  cancel_retry;;
  cancel_bringup;;
  _unbind false;;
  _power_down;;
  _release_modem;;
  _remove_watches.
Definition set_enabled (b : bool) : M World () :=
  w ← get;
  if Bool.eqb b (enabled (lc w)) then mret ()
  else if b then
    set_lc (λ l, l <| enabled := true |>);;
    _set_state CALLS_UNAVAILABLE;;
    start
  else
    _unbind true;;
    stop;;
    set_lc (λ l, l <| enabled := false |>);;
    _set_state CALLS_DISABLED.
Definition poke : M World () :=
  w ← get;
  let returned := _reachable && negb (_last_reachable (md w)) in
  set_md (λ m, m <| _last_reachable := _reachable |>);;
  when (returned && _running (lc w) && is_some (_modem (md w))
        && bool_decide (_state (lc w) ∈ [CALLS_CONNECTING; CALLS_BLUEZ_CONFLICT]) && negb (_request_in_flight (md w)))
    (set_md (λ m, m <| _blocked := false |> <| _power_failures := 0 |>);;
     set_tm (λ t, t <| _retry_index := 0 |>);;
     cancel_retry;;
     _advance).
Definition _retry_tick : M World () :=
  set_tm (λ t, t <| _retry_id := None |>);; w ← get; when (_running (lc w)) _discover.
Definition _restart_tick : M World () := set_tm (λ t, t <| _retry_id := None |>);; start.
Definition fire_phone_retry (i : iface) (path : ustr) (token : nat) : M World () :=
  _cancel_phone_retry i;;
  w ← get;
  when (_running (lc w) && token_current i token w) (_read_phone path i token false).

(** ** Call control *)

Definition _require_ready : M World ustr :=
  w ← get;
  if negb (enabled (lc w)) then raise CallsDisabledError
  else
    match _state (lc w), _bound_path (cl w) with
    | CALLS_READY, Some path => mret path
    | s, _ =>
        raise (CallsUnavailableError
          match s with
          | CALLS_UNAVAILABLE => "oFono is not running"
          | CALLS_SEARCHING => "oFono has no hands-free modem for the iPhone"
          | CALLS_CONNECTING => "the iPhone's hands-free modem is not online yet"
          | CALLS_BLUEZ_CONFLICT => "bluetoothd's own HFP plugin holds the call channel"
          | CALLS_DISABLED | CALLS_READY => "call control is not ready"
          end)
    end.
Definition _find (id : pyval) : M World CallRecord :=
  selected ← lift (validate_call_id (py_str env) id);
  w ← get;
  match od_get selected (_calls (cl w)) with
  | Some record => mret record
  | None => raise (NotFoundError "call no longer exists")
  end.

(** [failed] of [_control]. *)
Definition control_error (m : method) (e : error) : exn :=
  if on_call m && interface_missing e then NotFoundError "call no longer exists" else OperationFailedError "Call" (public_error e).
Definition _control (m : method) (path : ustr) (client : nat) : M World () :=
  emit (Sent (Control m path client));;
  match call_fails env (Control m path client) with
  | None => submit (Control m path client)
  | Some e => emit (Failed client (control_error m e))
  end.

Definition call_active (id : ustr) (w : World) : bool :=
  match od_get id (_calls (cl w)) with Some c => bool_decide (state c = lit "active") | None => false end.
Definition not_active : exn := InvalidArgumentsError "the call is no longer active".
(** [_next_tones] on the queue [q]: a request that fails at once makes room for
    the next one. *)
Fixpoint next_tones_from (q : list (ustr * ustr * ustr * nat)) : M World () :=
  w ← get;
  match q with
  | [] => mret ()
  | (modem, id, tones, client) :: q' =>
      if _tone_busy (tn w) then mret ()
      else
        set_tn (λ t, t <| _tone_queue := q' |>);;
        if negb (call_active id w) then emit (Failed client not_active);; next_tones_from q'
        else
          set_tn (λ t, t <| _tone_busy := true |>);;
          let r := Control (SendTones tones) modem client in
          emit (Sent r);;
          match call_fails env r with
          | None => submit r
          | Some e =>
              set_tn (λ t, t <| _tone_busy := false |>);;
              emit (Failed client (control_error (SendTones tones) e));;
              next_tones_from q'
          end
  end.
Definition _next_tones : M World () := w ← get; next_tones_from (_tone_queue (tn w)).

(** A client's request, with the number its reply carries. *)
Definition answer (id : pyval) (client : nat) : M World () :=
  modem ← _require_ready;
  record ← _find id;
  if bool_decide (state record = lit "incoming") then _control Answer (c_path record) client
  else if bool_decide (state record = lit "waiting") then _control HoldAndAnswer modem client
  else raise (InvalidArgumentsError "call is not ringing").
Definition hangup (id : pyval) (client : nat) : M World () :=
  _require_ready;;
  record ← _find id;
  _control Hangup (c_path record) client.
Definition hangup_all (client : nat) : M World () := modem ← _require_ready; _control HangupAll modem client.
Definition dial (n : pyval) (client : nat) : M World () :=
  normalized ← lift (normalize_dial_number n);
  modem ← _require_ready;
  _control (Dial normalized) modem client.
Definition send_tones (id tones : pyval) (client : nat) : M World () :=
  selected ← lift (validate_dtmf tones);
  modem ← _require_ready;
  record ← _find id;
  w ← get;
  if negb (bool_decide (state record = lit "active")) then raise (InvalidArgumentsError "DTMF tones need an active call")
  else if MAX_QUEUED_TONE_REQUESTS <=? zlen (_tone_queue (tn w)) then
    raise (InvalidArgumentsError "too many keypad tones are waiting; try again")
  else
    set_tn (λ t, t <| _tone_queue ::= λ q, q ++ [(modem, call_id record, selected, client)] |>);;
    _next_tones.
Definition swap (client : nat) : M World () := modem ← _require_ready; _control SwapCalls modem client.
Definition hold_and_answer (client : nat) : M World () :=
  modem ← _require_ready;
  w ← get;
  if negb (existsb (λ c, bool_decide (state c = lit "waiting")) (calls w)) then raise (InvalidArgumentsError "no call is waiting")
  else _control HoldAndAnswer modem client.

(** ** Replies and signals *)

Inductive reply :=
  | Objects (l : objects)
  | Items (properties : option (list (ustr * pyval)))
  | Value (v : pyval)
  | Error (e : error).
(** A reply without the values a handler expects leaves its defaults. *)
Definition objects_of (r : reply) : objects := match r with Objects l => l | _ => [] end.
Definition items_of (r : reply) : option (list (ustr * pyval)) := match r with Items p => p | _ => None end.

Definition listed_ids (l : objects) : list ustr := omap (λ e, '(path, _) ← e; call_id_from_path path) l.
Definition on_reply (generation : Z) (r : request) (a : reply) : M World () :=
  match r with
  | GetModems => _on_modems (objects_of a)
  | SetModem name path => set_modem_done name path
  | GetCalls _ calls_generation =>
      w ← get;
      when (passes generation (Some calls_generation) w)
        (emit (Listed (listed_ids (objects_of a)));; _on_existing_calls (objects_of a))
  | SetVolume _ _ => mret ()
  | PhoneProperties _ i token _ =>
      w ← get; when (token_current i token w) (_apply_phone (λ s, apply_properties s i (items_of a)))
  | Control _ _ _ => mret ()
  end.
Definition control_replied (m : method) (client : nat) (a : reply) : M World () :=
  match m, a with
  | SendTones _, Error e => set_tn (λ t, t <| _tone_busy := false |>);; emit (Failed client (control_error m e));; _next_tones
  | SendTones _, _ => set_tn (λ t, t <| _tone_busy := false |>);; emit (Succeeded client []);; _next_tones
  | _, Error e => emit (Failed client (control_error m e))
  | Dial _, Value v => emit (Succeeded client (default [] (call_id_from_path v)))
  | _, _ => emit (Succeeded client [])
  end.
Definition answered (p : Pending) (a : reply) : M World () :=
  w ← get;
  match p_request p with
  | Control m _ client => control_replied m client a
  | r =>
      if p_generation p =? _generation (lc w) then
        match a with Error e => on_error (p_generation p) r e | _ => on_reply (p_generation p) r a end
      else
        match r, a with
        | SetModem _ _, Error _ => mret ()
        | SetModem name path, _ => set_modem_stale name path
        | _, _ => mret ()
        end
  end.

Inductive signal :=
  | Added (path : pyval) (properties : option mapping)
  | Removed (path : pyval)
  | PropertyChanged (name : ustr) (value : pyval).
Definition handle (h : handler) (s : signal) : M World () :=
  match h, s with
  | HModemAdded, Added path properties => _on_modem_added path properties
  | HModemRemoved, Removed path => _on_modem_removed path
  | HModemProperty, PropertyChanged name value => _on_modem_property name value
  | HCallAdded, Added path properties =>
      (match call_id_from_path path with Some id => emit (Signalled id) | None => mret () end);; _on_call_added path properties
  | HCallRemoved, Removed path =>
      (match call_id_from_path path with Some id => emit (Gone id) | None => mret () end);; _on_call_removed path
  | HCallProperty id, PropertyChanged name value => _on_call_property id name value
  | HPhone i token, PropertyChanged name value =>
      w ← get; when (token_current i token w) (_apply_phone (λ s, with_property_of i s (name, value)))
  | _, _ => mret ()
  end.
Definition delivered (x : Watch) (s : signal) : M World () :=
  w ← get;
  when (passes (w_generation x) (if w_binding x then Some (w_calls_generation x) else None) w) (handle (w_handler x) s).

(** ** The main loop *)

Inductive event :=
  | EStart | EStop | EPoke
  | ESetEnabled (b : bool)
  | EOwner (present : bool)
  | ESignal (i : nat) (s : signal)
  | EReply (i : nat) (a : reply)
  | ERetry | EBringup
  | EPhoneRetry (i : iface)
  | EAnswer (id : pyval) | EHangup (id : pyval) | EHangupAll | EDial (n : pyval) | ESendTones (id tones : pyval)
  | ESwap | EHoldAndAnswer.

Definition client_request (m : nat → M World ()) : M World () := client ← tick; m client.
Definition step (e : event) : M World () :=
  match e with
  | EStart => start
  | EStop => stop
  | EPoke => poke
  | ESetEnabled b => set_enabled b
  | EOwner present => w ← get; when (_owner_match (lc w)) (_on_owner_changed present)
  | ESignal i s => w ← get; match bus w !! i with Some x => delivered x s | None => mret () end
  | EReply i a =>
      w ← get;
      match pending w !! i with
      | Some p => modify (λ w : World, w <| pending ::= delete i |>);; answered p a
      | None => mret ()
      end
  | ERetry =>
      w ← get;
      match _retry_id (tm w) with
      | Some (RetryTick, _) => _retry_tick
      | Some (RestartTick, _) => _restart_tick
      | None => mret ()
      end
  | EBringup => w ← get; when (is_some (_bringup_id (tm w))) _bringup_timeout
  | EPhoneRetry i =>
      w ← get;
      match od_get i (_phone_retries (ph w)) with Some (path, token) => fire_phone_retry i path token | None => mret () end
  | EAnswer id => client_request (answer id)
  | EHangup id => client_request (hangup id)
  | EHangupAll => client_request hangup_all
  | EDial n => client_request (dial n)
  | ESendTones id tones => client_request (send_tones id tones)
  | ESwap => client_request swap
  | EHoldAndAnswer => client_request hold_and_answer
  end.
End controller.

Definition World_init (on : bool) : World :=
  {| lc := mkLifecycle on (if on then CALLS_UNAVAILABLE else CALLS_DISABLED) false 0 0 false [];
     md := mkModemState None None false ∅ None false 0 false false;
     tm := mkTimers None 0 None;
     cl := mkCalls [] [] [] None None;
     ph := mkPhoneState UNKNOWN None [] [] [];
     tn := mkTones [] false;
     bus := []; pending := []; fresh := 0; log := [] |}.

Definition run `{CaseMapping} (cfg : Config) (es : list (Env * event)) (w : World) : World :=
  run_all ((λ '(env, e), step cfg env e) <$> es) w.

(** ** A session *)

Definition config : Config := mkConfig (lit "aa:bb") (lit "hci0").
Definition env0 : Env :=
  {| now := lit "2026"; owner_watch_fails := false; watch_fails := λ _, false; remove_fails := false; call_fails := λ _, None;
     phone_reachable := true; hfp_conflict := false; resolve_contact := λ _, lit "Ann"; py_str := λ _, []; items := map_to_list |}.
Definition modem_path : ustr := lit "/hfp/org/bluez/hci0/dev_AA_BB".
Definition modem_properties (on : bool) : mapping :=
  list_to_map [(lit "Type", VText (lit "hfp")); (lit "Powered", VBool on); (lit "Online", VBool on);
               (lit "Interfaces", VList (if on then [VText VOICE_CALL_MANAGER_IFACE] else []))].
Definition modem_object (on : bool) : option (pyval * option mapping) := Some (VText modem_path, Some (modem_properties on)).
Definition call_path (id : string) : pyval := VText (modem_path ++ lit "/" ++ lit id).
Definition call_properties_of (state number : string) : mapping :=
  list_to_map [(lit "State", VText (lit state)); (lit "LineIdentification", VText (lit number))].
Definition call_object (id state number : string) : option (pyval * option mapping) :=
  Some (call_path id, Some (call_properties_of state number)).
(** The modem is found offline and brought up. *)
Definition bringing_up : list event :=
  [EStart; EReply 0 (Objects [modem_object false]); EReply 0 (Value VNone); ESignal 2 (PropertyChanged (lit "Powered") (VBool true));
   EReply 0 (Value VNone); ESignal 2 (PropertyChanged (lit "Online") (VBool true));
   ESignal 2 (PropertyChanged (lit "Interfaces") (VList [VText VOICE_CALL_MANAGER_IFACE]))].
(** A call comes in and is answered while GetCalls is pending. *)
Definition ringing_in : list event :=
  [ESignal 3 (Added (call_path "voicecall01") (Some (call_properties_of "incoming" "+1 555 0100")));
   EReply 0 (Objects [call_object "voicecall01" "incoming" "+1 555 0100"]); EAnswer (VText (lit "voicecall01"))].
Definition at_end (es : list event) : World := run config ((env0,.) <$> es) (World_init true).

Example connected_session :
  let w := at_end (bringing_up ++ ringing_in) in
  (_state (lc w), (λ c, (call_id c, number c, contact_name c)) <$> calls w, p_request <$> pending w,
   List.filter (λ a, match a with Event _ _ | Failed _ _ => true | _ => false end) (log w)) =
  (CALLS_READY, [(lit "voicecall01", lit "+15550100", lit "Ann")],
   [SetVolume "SpeakerVolume" modem_path; SetVolume "MicrophoneVolume" modem_path; Control Answer (modem_path ++ lit "/voicecall01") 6],
   [Event CallIncoming (mkCall (lit "voicecall01") (modem_path ++ lit "/voicecall01") (lit "incoming") (lit "incoming") (lit "+15550100")
      [] (lit "Ann") false false (lit "2026"))]).
Proof. vm_compute. reflexivity. Qed.
