(* ===== verification/CallSafety.v ===== *)
(** * CallSafety: the events about calls replicate the calls of the controller.

    Also the dictionaries of the controller, and the frame [still] of the
    operations that leave the calls and the requests of clients alone. *)
From S2P Require Import Prelude PyStr Text Recipients CallModel PhoneStatus CallControl.

(** ** Dictionaries *)

Section od.
Context {K V : Type} `{EqDecision K}.
Implicit Types (k : K) (d : list (K * V)).
Lemma od_get_Some k v d : od_get k d = Some v → (k, v) ∈ d.
Proof.
  unfold od_get. intros H. apply fmap_Some in H as ([k' v'] & H & ->). apply find_some in H as [Hin Hk].
  apply bool_decide_eq_true in Hk as <-. by apply list_elem_of_In.
Qed.
Lemma od_get_None k d : od_get k d = None ↔ k ∉ d.*1.
Proof.
  unfold od_get. rewrite fmap_None. split.
  - intros H Hin. apply list_elem_of_fmap in Hin as ([k' v] & -> & Hin). apply list_elem_of_In in Hin.
    pose proof (find_none _ _ H _ Hin) as Hk. cbn in Hk. by rewrite bool_decide_eq_true_2 in Hk.
  - intros Hk. destruct (List.find _ d) as [[k' v]|] eqn:E; [|done]. apply find_some in E as [Hin E].
    apply bool_decide_eq_true in E as <-. destruct Hk. apply list_elem_of_fmap. exists (k', v). by rewrite list_elem_of_In.
Qed.
Lemma od_pop_keys k d : (od_pop k d).*1 = filter (λ x, x ≠ k) d.*1.
Proof. unfold od_pop. induction d as [|[k' v] d IH]; [done|]. rewrite fmap_cons, !filter_cons. cbn. by destruct (decide (k' ≠ k)); cbn; rewrite IH. Qed.
Lemma od_set_keys k v d : (od_set k v d).*1 = if bool_decide (k ∈ d.*1) then d.*1 else d.*1 ++ [k].
Proof.
  unfold od_set. destruct (bool_decide _); [|by rewrite fmap_app]. rewrite <- list_fmap_compose. apply list_fmap_ext.
  intros i [k' v'] _. cbn. case_bool_decide; by subst.
Qed.
Lemma od_set_NoDup k v d : NoDup d.*1 → NoDup (od_set k v d).*1.
Proof.
  intros Hd. rewrite od_set_keys. case_bool_decide; [done|]. apply NoDup_app. split_and!; [done| |apply NoDup_singleton].
  by intros x Hx ->%list_elem_of_singleton.
Qed.
Lemma od_pop_NoDup k d : NoDup d.*1 → NoDup (od_pop k d).*1.
Proof. intros Hd. rewrite od_pop_keys. by apply NoDup_filter. Qed.
Lemma od_get_set k v d k' : od_get k' (od_set k v d) = if bool_decide (k' = k) then Some v else od_get k' d.
Proof.
  unfold od_set, od_get. case_bool_decide as Hin.
  - induction d as [|[k1 v1] d IH]; [by apply elem_of_nil in Hin|]. cbn in *. destruct (decide (k1 = k)) as [->|Hne].
    + rewrite (bool_decide_eq_true_2 (k = k)) by done. cbn. destruct (decide (k' = k)) as [->|Hk].
      * by rewrite !bool_decide_eq_true_2.
      * rewrite !(bool_decide_eq_false_2 (k = k')), (bool_decide_eq_false_2 (k' = k)) by congruence.
        clear IH Hin. induction d as [|[k2 v2] d IH]; [done|]. cbn. destruct (decide (k2 = k)) as [->|Hne].
        -- rewrite (bool_decide_eq_true_2 (k = k)) by done. cbn. rewrite !(bool_decide_eq_false_2 (k = k')) by congruence. exact IH.
        -- rewrite (bool_decide_eq_false_2 (k2 = k)) by done. cbn. by destruct (bool_decide (k2 = k')).
    + rewrite (bool_decide_eq_false_2 (k1 = k)) by done. cbn. apply elem_of_cons in Hin as [->|Hin]; [done|].
      destruct (decide (k1 = k')) as [->|Hk]; [|by rewrite !(bool_decide_eq_false_2 (k1 = k')) by done; apply IH].
      rewrite !(bool_decide_eq_true_2 (k' = k')), (bool_decide_eq_false_2 (k' = k)) by done. done.
  - induction d as [|[k1 v1] d IH].
    + cbn. case_bool_decide; case_bool_decide; congruence || done.
    + cbn in *. apply not_elem_of_cons in Hin as [Hne Hin]. destruct (decide (k1 = k')) as [->|Hk].
      * by rewrite !(bool_decide_eq_true_2 (k' = k')), (bool_decide_eq_false_2 (k' = k)) by congruence.
      * rewrite !(bool_decide_eq_false_2 (k1 = k')) by done. by apply IH.
Qed.
Lemma od_get_pop k d k' : od_get k' (od_pop k d) = if bool_decide (k' = k) then None else od_get k' d.
Proof.
  destruct (decide (k' = k)) as [->|Hk].
  - rewrite bool_decide_eq_true_2 by done. apply od_get_None. rewrite od_pop_keys. by intros [? _]%list_elem_of_filter.
  - rewrite bool_decide_eq_false_2 by done. unfold od_get, od_pop. induction d as [|[k1 v1] d IH]; [done|].
    rewrite filter_cons. cbn. destruct (decide (k1 = k)) as [->|Hne].
    + rewrite decide_False by tauto. rewrite bool_decide_eq_false_2 by congruence. exact IH.
    + rewrite decide_True by done. cbn. by destruct (bool_decide (k1 = k')).
Qed.
Lemma od_get_NoDup k v d : NoDup d.*1 → (k, v) ∈ d → od_get k d = Some v.
Proof.
  intros Hd Hin. destruct (od_get k d) as [v'|] eqn:E.
  - apply od_get_Some in E. apply list_elem_of_lookup in Hin as [i Hi], E as [j Hj].
    assert (i = j) as ->; [|congruence]. eapply (NoDup_lookup _ _ _ k Hd); rewrite list_lookup_fmap; [by rewrite Hi|by rewrite Hj].
  - apply od_get_None in E. destruct E. apply list_elem_of_fmap. by exists (k, v).
Qed.
End od.

#[global] Arguments od_get : simpl never.
#[global] Arguments od_set : simpl never.
#[global] Arguments od_pop : simpl never.

(** ** The desktop's view of the calls *)

(** What a consumer of the call events shows after one more event. *)
Definition view_event (m : gmap ustr CallRecord) (a : action) : gmap ustr CallRecord :=
  match a with
  | Event CallEnded c => delete (call_id c) m
  | Event _ c => <[call_id c := c]> m
  | _ => m
  end.
Definition view (l : list action) : gmap ustr CallRecord := foldl view_event ∅ l.
Lemma view_snoc l a : view (l ++ [a]) = view_event (view l) a.
Proof. unfold view. by rewrite foldl_app. Qed.

Record V (w : World) : Prop := {
  v_keys : NoDup (_calls (cl w)).*1;
  v_view : ∀ id, view (log w) !! id = od_get id (_calls (cl w));
  v_ids : ∀ id c, (id, c) ∈ _calls (cl w) → call_id c = id;
}.

(** ** Operations that leave the calls and the clients alone *)

(** Requests whose answers matter to the calls or to a client. *)
Definition held_request (r : request) : bool := match r with GetCalls _ _ | Control _ _ _ => true | _ => false end.
Definition held (w : World) : list request := List.filter held_request (p_request <$> pending w).
Definition neutral (a : action) : Prop :=
  match a with
  | Sent r => held_request r = false
  | PowerDown _ | Accepted _ _ | CallsChanged | StateChanged _ | PhoneChanged _ | PoweredOk | PoweredFailed _ => True
  | _ => False
  end.
Record still (w w' : World) : Prop := {
  s_calls : _calls (cl w') = _calls (cl w);
  s_snapshot : _snapshot_changes (cl w') = _snapshot_changes (cl w);
  s_generation : _calls_generation (lc w') = _calls_generation (lc w);
  s_held : held w' = held w;
  s_tones : tn w' = tn w;
  s_fresh : (fresh w <= fresh w')%nat;
  s_log : ∃ l, log w' = log w ++ l ∧ Forall neutral l;
}.
#[export] Instance still_preorder : PreOrder still.
Proof.
  split.
  - intros w. split; try done. exists []. by rewrite app_nil_r.
  - intros w1 w2 w3 [A1 A2 A3 A4 A5 A6 (l & A7 & A8)] [B1 B2 B3 B4 B5 B6 (l' & B7 & B8)]. split; try congruence; [lia|].
    exists (l ++ l'). split; [by rewrite B7, A7, <- app_assoc|by apply Forall_app].
Qed.
Ltac still := split; try reflexivity; try (apply Nat.le_succ_diag_r || apply Nat.le_refl); exists []; by rewrite app_nil_r.
Lemma call_still_emit a : neutral a → keeps still (emit a).
Proof. intros Ha w. split; try done. exists [a]. split; [done|]. by constructor. Qed.
Lemma still_set_lc f : (∀ l, _calls_generation (f l) = _calls_generation l) → keeps still (set_lc f).
Proof. intros Hf w. split; try done; [apply Hf|]. exists []. by rewrite app_nil_r. Qed.
Lemma still_set_cl f : (∀ c, _calls (f c) = _calls c ∧ _snapshot_changes (f c) = _snapshot_changes c) → keeps still (set_cl f).
Proof. intros Hf w. destruct (Hf (cl w)). split; try done. exists []. by rewrite app_nil_r. Qed.
Lemma still_set_md f : keeps still (set_md f). Proof. intros w. still. Qed.
Lemma call_still_set_tm f : keeps still (set_tm f). Proof. intros w. still. Qed.
Lemma still_set_ph f : keeps still (set_ph f). Proof. intros w. still. Qed.
Lemma still_tick : keeps still tick. Proof. intros w. still. Qed.
#[export] Hint Resolve still_set_md call_still_set_tm still_set_ph still_tick : keeps.
#[export] Hint Extern 1 (keeps still (emit _)) => apply call_still_emit; done : keeps.
#[export] Hint Extern 1 (keeps still (set_cl _)) => apply still_set_cl; intros ?; split; reflexivity : keeps.
#[export] Hint Extern 1 (keeps still (set_lc _)) => apply still_set_lc; reflexivity : keeps.
#[export] Hint Extern 1 (keeps still (modify _)) => intros ?; still : keeps.

Section still.
Context `{CaseMapping} (cfg : Config) (env : Env).

Lemma call_still_remove m : keeps still (_remove env m). Proof. unfold _remove. keeps. Qed.
#[local] Hint Resolve call_still_remove : keeps.
Lemma still_remove_all l : keeps still (remove_all env l). Proof. induction l; cbn [remove_all]; keeps. Qed.
#[local] Hint Resolve still_remove_all : keeps.
Lemma still_remove_watches : keeps still (_remove_watches env). Proof. unfold _remove_watches. keeps. Qed.
Lemma still_watch h path b : keeps still (_watch env h path b). Proof. unfold _watch. keeps. Qed.
Lemma still_set_state s : keeps still (_set_state s). Proof. unfold _set_state. keeps. Qed.
Lemma still_next_delay : keeps still _next_delay. Proof. unfold _next_delay. keeps. Qed.
#[local] Hint Resolve still_remove_watches still_watch still_set_state still_next_delay : keeps.
Lemma still_retry d : keeps still (_schedule_retry d). Proof. unfold _schedule_retry. keeps. Qed.
Lemma still_restart : keeps still _schedule_restart. Proof. unfold _schedule_restart. keeps. Qed.
Lemma still_watchdog : keeps still _arm_bringup_watchdog. Proof. unfold _arm_bringup_watchdog. keeps. Qed.
Lemma still_phone_changed s : keeps still (_phone_changed s). Proof. unfold _phone_changed. keeps. Qed.
#[local] Hint Resolve still_retry still_restart still_watchdog still_phone_changed : keeps.
Lemma still_apply_phone f : keeps still (_apply_phone f). Proof. unfold _apply_phone. keeps. Qed.
Lemma still_unwatch i : keeps still (_unwatch_phone env i). Proof. unfold _unwatch_phone, _cancel_phone_retry. keeps. Qed.
#[local] Hint Resolve still_apply_phone still_unwatch : keeps.
Lemma still_unwatch_all l : keeps still (unwatch_all env l). Proof. induction l; cbn; keeps. Qed.
#[local] Hint Resolve still_unwatch_all : keeps.
Lemma still_drop_phone : keeps still (_drop_phone_status env). Proof. unfold _drop_phone_status. keeps. Qed.
#[local] Hint Resolve still_drop_phone : keeps.
Lemma still_release_modem : keeps still (_release_modem env). Proof. unfold _release_modem, cancel_bringup. keeps. Qed.
Lemma still_power_down : keeps still _power_down. Proof. unfold _power_down, _send_power_down. keeps. Qed.
Lemma still_power_failed : keeps still (_power_failed env). Proof. unfold _power_failed, cancel_bringup. keeps. Qed.
#[local] Hint Resolve still_release_modem still_power_down still_power_failed : keeps.
Lemma still_on_error g r e : held_request r = false → keeps still (on_error env g r e).
Proof.
  intros Hr. destruct r; try done; cbn [on_error];
    unfold _on_modems_failed, set_modem_failed, read_phone_failed, _schedule_phone_retry, cancel_bringup; keeps.
Qed.
Lemma still_submit r : held_request r = false → keeps still (submit r).
Proof.
  intros Hr w. unfold submit. split; try done; cbn; [|exists []; by rewrite app_nil_r].
  unfold held. cbn. rewrite fmap_app, List.filter_app. cbn. by rewrite Hr, app_nil_r.
Qed.
Lemma still_call r : held_request r = false → keeps still (_call env r).
Proof.
  intros Hr. unfold _call. apply keeps_bind; [apply _|by apply call_still_emit|intros _]. apply keeps_bind; [apply _|keeps|intros w].
  destruct (call_fails env r); [by apply still_on_error|by apply still_submit].
Qed.
#[local] Hint Extern 1 (keeps still (_call _ _)) => apply still_call; reflexivity : keeps.
#[local] Hint Extern 1 (keeps still (on_error _ _ _ _)) => apply still_on_error; reflexivity : keeps.
Lemma still_watch_phone path i : keeps still (_watch_phone env path i). Proof. unfold _watch_phone, _read_phone. keeps. Qed.
#[local] Hint Resolve still_watch_phone : keeps.
Lemma still_watch_wanted path wanted l : keeps still (watch_wanted env path wanted l). Proof. induction l; cbn [watch_wanted]; keeps. Qed.
#[local] Hint Resolve still_watch_wanted : keeps.
Lemma still_sync_phone : keeps still (_sync_phone_status env). Proof. unfold _sync_phone_status. keeps. Qed.
Lemma still_request_property name : keeps still (_request_modem_property env name). Proof. unfold _request_modem_property. keeps. Qed.
#[local] Hint Resolve still_sync_phone still_request_property : keeps.
Lemma still_bring_up m : keeps still (bring_up env m). Proof. unfold bring_up. keeps. Qed.
Lemma still_discover : keeps still (_discover env). Proof. unfold _discover. keeps. Qed.
Lemma still_watch_manager : keeps still (_watch_manager env). Proof. unfold _watch_manager. keeps. Qed.
Lemma still_maximize path : keeps still (_maximize_call_volume env path). Proof. unfold _maximize_call_volume. keeps. Qed.
Lemma still_bringup_timeout : keeps still (_bringup_timeout env). Proof. unfold _bringup_timeout. keeps. Qed.
Lemma still_stale name path : keeps still (set_modem_stale name path). Proof. unfold set_modem_stale, _send_power_down. keeps. Qed.
#[local] Hint Resolve still_bring_up still_discover still_watch_manager still_maximize still_bringup_timeout still_stale : keeps.
Lemma still_start : keeps still (start env). Proof. unfold start. keeps. Qed.
Lemma still_require_ready : keeps still _require_ready. Proof. unfold _require_ready. keeps. Qed.
Lemma still_find id : keeps still (_find env id). Proof. unfold _find. keeps. Qed.
Lemma still_phone_retry i path token : keeps still (fire_phone_retry env i path token).
Proof. unfold fire_phone_retry, _read_phone, _cancel_phone_retry. keeps. Qed.
End still.
#[export] Hint Resolve call_still_remove still_remove_all still_remove_watches still_watch still_set_state still_retry still_restart still_watchdog
  still_phone_changed still_apply_phone still_unwatch_all still_drop_phone still_release_modem still_power_down still_power_failed
  still_sync_phone still_bring_up still_discover still_watch_manager still_maximize
  still_bringup_timeout still_stale still_start still_require_ready still_find still_phone_retry : keeps.
#[export] Hint Extern 1 (keeps still (_call _ _)) => apply still_call; reflexivity : keeps.
#[export] Hint Extern 1 (keeps still (on_error _ _ _ _)) => apply still_on_error; reflexivity : keeps.

(** *** Those that announce no change of a call *)

Definition calm (w w' : World) : Prop := _calls (cl w') = _calls (cl w) ∧ view (log w') = view (log w).
#[export] Instance calm_preorder : PreOrder calm.
Proof. split; [by intros w|]. intros w1 w2 w3 [H1 H2] [H3 H4]. split; congruence. Qed.
Lemma calm_V {A} (m : M World A) : keeps calm m → stable V m.
Proof. intros Hm w [H1 H2 H3]. destruct (Hm w) as [Hc Hv]. split; rewrite ?Hc, ?Hv; done. Qed.
Definition unseen (a : action) : Prop := ∀ m, view_event m a = m.
Lemma neutral_unseen a : neutral a → unseen a. Proof. by destruct a. Qed.
Lemma view_unseen l l' : Forall unseen l' → view (l ++ l') = view l.
Proof. intros Hl. revert l. induction Hl as [|a l' Ha _ IH]; intros l; [by rewrite app_nil_r|]. rewrite cons_middle, app_assoc, IH, view_snoc. apply Ha. Qed.
Lemma still_calm w w' : still w w' → calm w w'.
Proof. intros [Hc _ _ _ _ _ (l & Hl & Hn)]. split; [done|]. rewrite Hl. apply view_unseen. eapply Forall_impl; [exact Hn|apply neutral_unseen]. Qed.
Lemma keeps_calm {A} (m : M World A) : keeps still m → keeps calm m.
Proof. intros Hm w. apply still_calm, Hm. Qed.

Lemma call_calm_emit a : unseen a → keeps calm (emit a).
Proof. intros Ha w. split; [done|]. cbn. by rewrite view_snoc. Qed.
Lemma calm_set_lc f : keeps calm (set_lc f). Proof. by intros w. Qed.
Lemma calm_set_tn f : keeps calm (set_tn f). Proof. by intros w. Qed.
Lemma calm_set_cl f : (∀ c, _calls (f c) = _calls c) → keeps calm (set_cl f).
Proof. intros Hf w. split; [apply Hf|done]. Qed.
#[export] Hint Resolve calm_set_lc calm_set_tn : keeps.
#[export] Hint Extern 1 (keeps calm (emit _)) => apply call_calm_emit; intros ?; reflexivity : keeps.
#[export] Hint Extern 1 (keeps calm (set_cl _)) => apply calm_set_cl; intros ?; reflexivity : keeps.
#[export] Hint Extern 1 (keeps calm (modify _)) => intros ?; split; reflexivity : keeps.
#[export] Hint Extern 3 (keeps calm _) => apply keeps_calm; solve [auto 1 with keeps nocore] : keeps.

Section calm.
Context `{CaseMapping} (cfg : Config) (env : Env).
Lemma calm_on_error g r e : keeps calm (on_error env g r e).
Proof. destruct r; try (apply keeps_calm, still_on_error; reflexivity); cbn [on_error]; unfold _on_existing_calls_failed; keeps. Qed.
#[local] Hint Resolve calm_on_error : keeps.
Lemma calm_call r : keeps calm (_call env r). Proof. unfold _call, submit. keeps. Qed.
Lemma calm_bind_failed : keeps calm (bind_failed env). Proof. unfold bind_failed. keeps. Qed.
Lemma calm_next_tones : keeps calm (_next_tones env).
Proof.
  assert (∀ q, keeps calm (next_tones_from env q)) as Hq.
  { induction q as [|[[[m i] t] c] q IH]; cbn [next_tones_from]; [keeps|]. unfold submit. keeps. }
  unfold _next_tones. keeps.
Qed.
#[local] Hint Resolve calm_call calm_next_tones : keeps.
Lemma calm_control m path client : keeps calm (_control env m path client). Proof. unfold _control, submit. keeps. Qed.
Lemma calm_replied m client a : keeps calm (control_replied env m client a). Proof. unfold control_replied. keeps. Qed.
End calm.
#[export] Hint Resolve calm_on_error calm_call calm_bind_failed calm_next_tones calm_control calm_replied : keeps.

Section replication.
Context `{CaseMapping} (cfg : Config) (env : Env).

Lemma stable_calm {A} (m : M World A) : keeps calm m → stable V m. Proof. apply calm_V. Qed.
#[local] Hint Extern 5 (keeps (holding V) _) => apply stable_calm; solve [auto 1 with keeps nocore | keeps] : keeps.

(** A call set and announced, or removed and announced. *)
Lemma V_set k id c w : k ≠ CallEnded → call_id c = id → V w →
  V (w <| cl ::= λ x, x <| _calls ::= od_set id c |> |> <| log ::= λ l, l ++ [Event k c] |>).
Proof.
  intros Hk <- [H1 H2 H3]. split; cbn.
  - by apply od_set_NoDup.
  - intros id. rewrite view_snoc, od_get_set. cbn. destruct k; [| |done]; case_bool_decide as Hid; subst;
      rewrite ?lookup_insert_eq, ?lookup_insert_ne by congruence; done || apply H2.
  - intros id' c' Hin. apply (od_get_NoDup _ _ _ (od_set_NoDup _ _ _ H1)) in Hin. rewrite od_get_set in Hin. case_bool_decide as Hid.
    + by simplify_eq.
    + by apply H3, od_get_Some.
Qed.
Lemma V_pop c w : V w → od_get (call_id c) (_calls (cl w)) = Some c →
  V (w <| cl ::= λ x, x <| _calls ::= od_pop (call_id c) |> |> <| log ::= λ l, l ++ [Event CallEnded c] |>).
Proof.
  intros [H1 H2 H3] Hc. split; cbn.
  - by apply od_pop_NoDup.
  - intros id. rewrite view_snoc, od_get_pop. cbn. case_bool_decide as Hid; subst; [by rewrite lookup_delete_eq|].
    by rewrite lookup_delete_ne by congruence.
  - intros id' c' Hin. apply H3. unfold od_pop in Hin. by apply list_elem_of_filter in Hin as [_ Hin].
Qed.
Lemma V_calm w w' : calm w w' → V w → V w'.
Proof. intros [Hc Hv] [H1 H2 H3]. split; rewrite ?Hc, ?Hv; done. Qed.
(** The change of a call may be announced after calm operations. *)
Lemma V_late k id c w w1 : k ≠ CallEnded → call_id c = id → V w → calm (w <| cl ::= λ x, x <| _calls ::= od_set id c |> |>) w1 →
  V (w1 <| log ::= λ l, l ++ [Event k c] |>).
Proof.
  intros Hk Hid HV [H1 H2]. eapply V_calm; [|exact (V_set k id c w Hk Hid HV)]. split; cbn; [exact H1|]. rewrite !view_snoc. by rewrite H2.
Qed.
Lemma remove_tame m : tame calm (_remove env m).
Proof. intros w. unfold _remove. destruct m; [|by apply wp_ret]. unfold when. by destruct (negb _). Qed.
(** Raising the call volume only sends requests. *)
Lemma maximize_calm path : tame calm (_maximize_call_volume env path).
Proof.
  assert (∀ n, tame calm (_call env (SetVolume n path))) as Hc.
  { intros n w. unfold _call, submit. apply wp_bind, wp_modify_last, wp_get. destruct (call_fails _ _); apply wp_modify_last || apply wp_ret;
      (split; [done|cbn; by rewrite view_snoc]). }
  unfold _maximize_call_volume. by apply tame_bind; [apply _|apply Hc|intros _].
Qed.

Lemma with_property_id c name value : call_id (with_property c name value) = call_id c.
Proof. unfold with_property. by repeat destruct (bool_decide _). Qed.
Lemma V_call_property id name value : stable V (_on_call_property env id name value).
Proof.
  unfold _on_call_property. apply keeps_bind; [apply _|unfold note_change; keeps|intros _]. apply stable_get_bind. intros w HV.
  destruct (od_get id (_calls (cl w))) as [c|] eqn:Ec; [|done]. destruct (bool_decide _); [done|].
  set (u := if bool_decide _ then _ else _). assert (call_id u = id) as Hu.
  { assert (call_id c = id) by (by apply (v_ids _ HV), od_get_Some). subst u. destruct (bool_decide _); cbn; by rewrite with_property_id. }
  clearbody u. rewrite M_bind_eq. unfold set_cl at 1, modify. cbv beta iota. rewrite M_bind_eq.
  match goal with |- V (match ?m ?x with _ => _ end).2 => assert (wp m (λ _, calm x) x) as Hm end.
  { unfold when. destruct (negb _); [|by apply wp_ret]. destruct (bool_decide _); [|by apply wp_ret].
    destruct (_bound_path (cl w)); [apply maximize_calm|by apply wp_ret]. }
  unfold wp in Hm. match goal with |- V (match ?m ?x with _ => _ end).2 => destruct (m x) as [[[]|e] w2] end; [|done].
  pose proof (V_late CallChanged id u w w2 ltac:(done) Hu HV Hm) as Hlate.
  change (V (w2 <| log ::= λ l, (l ++ [Event CallChanged u]) ++ [CallsChanged] |>)). eapply V_calm; [|exact Hlate].
  split; [done|]. cbn. by rewrite !view_snoc.
Qed.
Lemma V_call_properties id l : stable V (call_properties env id l).
Proof. pose proof (V_call_property id). induction l as [|[k v] l IH]; cbn; keeps. Qed.
Lemma parse_call_id n path properties g c : parse_call n path properties g = Some c → call_id_from_path path = Some (call_id c).
Proof.
  unfold parse_call. destruct (call_id_from_path path) as [id|]; [|done]. destruct path; try done. destruct properties as [m|]; [|done].
  intros [= <-]. assert (∀ c k, call_id (apply_present m c k) = call_id c) as Ha.
  { intros c k. unfold apply_present. destruct (m !! lit k); [|done]. by rewrite with_property_id. }
  cbn. by rewrite !Ha.
Qed.
Lemma V_call_added path properties : stable V (_on_call_added env path properties).
Proof.
  unfold _on_call_added. destruct (parse_call _ _ _ _) as [c|]; [|keeps].
  apply keeps_bind; [apply _|unfold note_change; keeps|intros _]. apply stable_get_bind. intros w HV.
  destruct (is_some _); [by apply V_call_properties|]. destruct (_ <=? _); [done|]. rewrite M_bind_eq. unfold _watch.
  destruct (watch_fails _ _); [done|]. set (r := _resolved env c). set (k := if ringing r then CallIncoming else CallChanged).
  set (x := mkWatch (fresh w) (HCallProperty (call_id c)) (c_path c) (_generation (lc w)) (_calls_generation (lc w)) true).
  set (w0 := w <| fresh ::= S |> <| bus ::= λ l, l ++ [x] |> <| cl ::= λ y, y <| _call_matches ::= od_set (call_id c) x |> |>).
  change (V (w0 <| cl ::= λ y, y <| _calls ::= od_set (call_id c) r |> |> <| log ::= λ l, l ++ [Event k r] |> <| log ::= λ l, l ++ [CallsChanged] |>)).
  eapply (V_calm (w0 <| cl ::= λ y, y <| _calls ::= od_set (call_id c) r |> |> <| log ::= λ l, l ++ [Event k r] |>));
    [split; [done|cbn; by rewrite !view_snoc]|].
  apply V_set; [subst k; by destruct (ringing r)|done|]. destruct HV as [H1 H2 H3]. by split.
Qed.
Lemma V_call_removed path : stable V (_on_call_removed env path).
Proof.
  unfold _on_call_removed. destruct (call_id_from_path path) as [id|]; [|keeps].
  apply keeps_bind; [apply _|unfold note_change; keeps|intros _]. apply stable_get_bind. intros w HV.
  rewrite M_bind_eq. unfold set_cl at 1, modify at 1. cbv beta iota. rewrite M_bind_eq. unfold set_cl at 1, modify at 1. cbv beta iota.
  rewrite M_bind_eq. match goal with |- V (match ?m ?x with _ => _ end).2 => set (w1 := x); pose proof (remove_tame (od_get id (_call_matches (cl w))) w1) as Hm end.
  unfold wp in Hm. destruct (_remove env _ w1) as [[[]|e] w2]; [|done]. destruct (od_get id (_calls (cl w))) as [c|] eqn:Ec.
  - pose proof (v_ids _ HV _ _ (od_get_Some _ _ _ Ec)) as Hid. subst id.
    change (V (w2 <| log ::= λ l, (l ++ [Event CallEnded c]) ++ [CallsChanged] |>)). eapply V_calm; [|exact (V_pop c w HV Ec)].
    destruct Hm as [H1 H2]. split; cbn; [exact H1|]. rewrite !view_snoc. by rewrite H2.
  - eapply V_calm; [exact Hm|]. destruct HV as [H1 H2 H3]. split; cbn.
    + by apply od_pop_NoDup.
    + intros id'. rewrite H2, od_get_pop. case_bool_decide; by subst.
    + intros id' c Hin. apply H3. unfold od_pop in Hin. by apply list_elem_of_filter in Hin as [_ Hin].
Qed.
Lemma V_add_listed changed l : stable V (add_listed env changed l).
Proof. pose proof V_call_added. induction l as [|[[path properties]|] l IH]; cbn; keeps. Qed.
Lemma V_existing_calls l : stable V (_on_existing_calls env l).
Proof. pose proof V_add_listed. unfold _on_existing_calls. keeps. Qed.

(** *** Unbinding *)

(** The view after the calls of [l] ended. *)
Lemma end_calls_view l w : let w' := (end_calls l w).2 in
  (end_calls l w).1 = Ok () ∧ cl w' = cl w ∧ view (log w') = foldl (λ m c, delete (call_id c) m) (view (log w)) l.
Proof.
  revert w. induction l as [|c l IH]; intros w; [done|]. cbn [end_calls]. rewrite M_bind_eq. unfold _emit, emit, modify. cbv beta iota.
  match goal with |- context [end_calls l ?x] => destruct (IH x) as (H1 & H2 & H3) end. split_and!; [done|by rewrite H2|].
  rewrite H3. cbn. by rewrite view_snoc.
Qed.
Lemma delete_all_empty (m : gmap ustr CallRecord) l : (∀ id c, m !! id = Some c → ∃ c', c' ∈ l ∧ call_id c' = id) →
  foldl (λ m c, delete (call_id c) m) m l = ∅.
Proof.
  revert m. induction l as [|c l IH]; intros m Hm; cbn.
  - apply map_empty. intros id. destruct (m !! id) as [c|] eqn:E; [|done]. destruct (Hm _ _ E) as (c' & Hin & _). by apply elem_of_nil in Hin.
  - apply IH. intros id c' Hc'. apply lookup_delete_Some in Hc' as [Hne Hc']. destruct (Hm _ _ Hc') as (c'' & Hin & Hid).
    apply elem_of_cons in Hin as [->|Hin]; [congruence|]. by exists c''.
Qed.
Lemma remove_all_tame l : tame calm (remove_all env l).
Proof. induction l; cbn [remove_all]; [apply tame_ret, _|]. by apply tame_bind; [apply _|apply remove_tame|intros _]. Qed.
Lemma V_nothing w : _calls (cl w) = [] → view (log w) = ∅ → V w.
Proof.
  intros Hc Hv. split; rewrite Hc, ?Hv; [apply NoDup_nil_2|intros id; by rewrite lookup_empty|intros id c Hin; by apply elem_of_nil in Hin].
Qed.
(** What [_unbind] leaves of the calls and their view. *)
Lemma unbind_wp announce w : V w → wp (_unbind env announce) (λ _ w', _calls (cl w') = [] ∧ (announce = true ∨ _calls (cl w) = [] → view (log w') = ∅)) w.
Proof.
  intros HV. unfold _unbind. apply wp_bind, wp_modify_last, wp_bind, wp_modify_last, wp_get. set (w1 := w <| log ::= _ |> <| lc ::= _ |>).
  assert (calm w w1) as H1 by (split; [done|cbn; by rewrite view_snoc]). clearbody w1.
  apply wp_bind, wp_modify_last, wp_bind. eapply wp_mono; [apply remove_all_tame|]. intros ? w2 H2.
  apply wp_bind, wp_modify_last, wp_bind. eapply wp_mono; [apply remove_all_tame|]. intros ? w3 H3. apply wp_bind, wp_modify_last.
  assert (view (log w3) = view (log w)) as Hv by (etrans; [apply H3|]; etrans; [apply H2|apply H1]).
  assert (_calls (cl w1) = _calls (cl w)) as Hc by apply H1. pose proof (V_calm _ _ H1 HV) as HV1.
  destruct (announce && negb (is_nil (_calls (cl w1)))) eqn:Ea.
  - apply andb_true_iff in Ea as [-> Ea]. unfold when. apply wp_bind.
    match goal with |- wp (end_calls ?l) _ ?x => destruct (end_calls_view l x) as (Hr & Hcl & Hview); unfold wp;
      destruct (end_calls l x) as [r w4] end. cbn in Hr, Hcl, Hview. subst r. unfold _calls_changed, emit, modify. cbn. rewrite Hcl. cbn.
    split; [done|]. intros _. rewrite view_snoc, Hview. change (foldl (λ m c, delete (call_id c) m) (view (log w3)) (_calls (cl w1)).*2 = ∅). rewrite Hv. apply delete_all_empty. intros id c Hid.
    rewrite (v_view _ HV id) in Hid. apply od_get_Some in Hid. rewrite <- Hc in Hid. exists c. split; [|by apply (v_ids _ HV1)].
    apply list_elem_of_fmap. by exists (id, c).
  - apply wp_ret. split; [done|]. intros Hor. change (view (log w3) = ∅). rewrite Hv. assert (_calls (cl w) = []) as Hn.
    { destruct Hor as [->|Hn]; [|done]. cbn in Ea. apply negb_false_iff in Ea. rewrite Hc in Ea. by destruct (_calls (cl w)). }
    apply map_empty. intros id. rewrite (v_view _ HV id), Hn. done.
Qed.
Lemma V_unbind : stable V (_unbind env true).
Proof.
  intros w HV. apply wp_snd. eapply wp_mono; [by apply unbind_wp|]. intros ? w' [H1 H2]. apply V_nothing; auto.
Qed.
#[local] Hint Resolve V_unbind V_call_property V_call_added V_call_removed V_existing_calls : keeps.
Lemma V_bind path : stable V (_bind env path). Proof. unfold _bind. keeps. Qed.
#[local] Hint Resolve V_bind : keeps.
Lemma V_advance : stable V (_advance env). Proof. unfold _advance, cancel_bringup. keeps. Qed.
#[local] Hint Resolve V_advance : keeps.
Lemma V_adopt m : stable V (_adopt env m). Proof. unfold _adopt. keeps. Qed.
#[local] Hint Resolve V_adopt : keeps.
Lemma V_modems l : stable V (_on_modems cfg env l). Proof. unfold _on_modems. keeps. Qed.
Lemma V_modem_added path properties : stable V (_on_modem_added cfg env path properties).
Proof. unfold _on_modem_added, cancel_retry. keeps. Qed.
Lemma V_modem_removed path : stable V (_on_modem_removed env path). Proof. unfold _on_modem_removed. keeps. Qed.
Lemma V_modem_property name value : stable V (_on_modem_property env name value).
Proof. unfold _on_modem_property, cancel_retry. keeps. Qed.
Lemma V_owner present : stable V (_on_owner_changed env present). Proof. unfold _on_owner_changed, cancel_retry, cancel_bringup. keeps. Qed.
Lemma V_done name path : stable V (set_modem_done env name path). Proof. unfold set_modem_done. keeps. Qed.
Lemma V_poke : stable V (poke env). Proof. unfold poke, cancel_retry. keeps. Qed.
#[local] Hint Resolve V_modems V_modem_added V_modem_removed V_modem_property V_owner V_done V_poke : keeps.
Lemma V_reply g r a : stable V (on_reply cfg env g r a). Proof. unfold on_reply. keeps. Qed.
Lemma V_handle h x : stable V (handle cfg env h x). Proof. unfold handle. keeps. Qed.
#[local] Hint Resolve V_reply V_handle : keeps.
Lemma V_answered p a : stable V (answered cfg env p a). Proof. unfold answered. keeps. Qed.
Lemma V_delivered x a : stable V (delivered cfg env x a). Proof. unfold delivered. keeps. Qed.
#[local] Hint Resolve V_answered V_delivered : keeps.

(** [stop] announces nothing: the calls must be gone before it. *)
Lemma stop_V w : V w → _calls (cl w) = [] → V (stop env w).2.
Proof.
  intros HV Hc. unfold stop, cancel_retry, cancel_bringup, set_lc, set_md, set_tm. do 6 (rewrite M_bind_eq; unfold modify at 1; cbv beta iota).
  rewrite M_bind_eq. match goal with |- V (match _ ?x with _ => _ end).2 => set (w1 := x) end.
  assert (V w1) as HV1 by (destruct HV; by split). pose proof (unbind_wp false w1 HV1) as Hu. unfold wp in Hu.
  destruct (_unbind env false w1) as [[u|e] w2]; [|done]. destruct Hu as [Hu1 Hu2].
  assert (stable V (_power_down;; _release_modem env;; _remove_watches env)) as Hrest by keeps.
  apply Hrest, V_nothing; [done|]. apply Hu2. by right.
Qed.
Lemma V_set_enabled b : stable V (set_enabled env b).
Proof.
  unfold set_enabled. apply stable_get_bind. intros w HV. destruct (Bool.eqb _ _); [done|]. destruct b; [revert w HV; change (stable V (set_lc (λ l, l <| enabled := true |>);; _set_state CALLS_UNAVAILABLE;; start env)); keeps|].
  rewrite M_bind_eq. pose proof (unbind_wp true w HV) as Hu. unfold wp in Hu. destruct (_unbind env true w) as [[u|e] w1]; [|done].
  destruct Hu as [Hc Hv]. pose proof (stop_V w1 (V_nothing _ Hc (Hv (or_introl eq_refl))) Hc) as Hs. rewrite M_bind_eq.
  destruct (stop env w1) as [[v|e] w2]; [|done]. revert Hs. cbn [snd].
  assert (stable V (set_lc (λ l, l <| enabled := false |>);; _set_state CALLS_DISABLED)) as Hrest by keeps. apply Hrest.
Qed.
#[local] Hint Resolve V_set_enabled : keeps.
Lemma step_V e : e ≠ EStop → stable V (step cfg env e).
Proof.
  intros He. destruct e; try done; cbn [step];
    unfold client_request, answer, hangup, hangup_all, dial, send_tones, swap, hold_and_answer, _retry_tick, _restart_tick,
      fire_phone_retry, _read_phone, _cancel_phone_retry; keeps.
Qed.
End replication.

(** C29: The desktop's view of the calls is the daemon's: a consumer that only
    follows the call events (incoming and changed calls set, ended calls removed)
    shows at every moment exactly the calls of ListCalls, after any sequence of
    signals, replies, errors, modem and owner changes and requests, as long as the
    daemon does not exit. *)
Theorem events_replicate_calls `{CaseMapping} cfg es on id :
  Forall (λ p : Env * event, p.2 ≠ EStop) es → let w := run cfg es (World_init on) in view (log w) !! id = od_get id (_calls (cl w)).
Proof.
  intros Hes w. enough (V w) as [_ Hv _] by apply Hv. subst w. unfold run. apply run_all_invariant.
  - intros m t Hm Ht. apply list_elem_of_fmap in Hm as ([env e] & -> & Hin). rewrite Forall_forall in Hes. by apply step_V; [apply (Hes _ Hin)|].
  - by apply V_nothing.
Qed.
Lemma events_replicate_calls_witness :
  let w := at_end (bringing_up ++ ringing_in) in
  view (log w) !! lit "voicecall01" = od_get (lit "voicecall01") (_calls (cl w)) ∧ od_get (lit "voicecall01") (_calls (cl w)) ≠ None.
Proof.
  split; [|by vm_compute]. apply (events_replicate_calls config ((env0,.) <$> bringing_up ++ ringing_in) true).
  apply Forall_forall. intros p Hp. apply list_elem_of_fmap in Hp as (e & -> & He). cbn. unfold bringing_up, ringing_in in He. cbn [app] in He.
  repeat (apply elem_of_cons in He as [->|He]; [discriminate|]). by apply elem_of_nil in He.
Defined.
