(* ===== verification/CallEvidence.v ===== *)
(** * CallEvidence: no call is shown without a report of oFono that stands.

    A call is tracked because a CallAdded signal named it, or because the answer
    to the GetCalls of the current binding listed it, and no CallRemoved came
    since that signal or since that request was sent.  So an answer that was on
    its way while the call ended cannot bring it back. *)
From S2P Require Import Prelude PyStr Text Recipients CallModel PhoneStatus CallControl CallSafety.

(** ** What stands about a call *)

(** A message that ends what was known of the call [id]. *)
Definition ends (id : ustr) (a : action) : bool :=
  match a with Gone id' => bool_decide (id' = id) | Unbound => true | _ => false end.
Definition undisturbed (id : ustr) (l : list action) : Prop := Forall (λ a, ends id a = false) l.
(** The last report of the call is a CallAdded, or a GetCalls sent since the
    last CallRemoved and the last unbinding whose answer lists it. *)
Definition standing (id : ustr) (l : list action) : Prop :=
  (∃ l1 l2, l = l1 ++ Signalled id :: l2 ∧ undisturbed id l2) ∨
  (∃ l1 path g l2 ids l3, l = l1 ++ Sent (GetCalls path g) :: l2 ++ Listed ids :: l3 ∧ id ∈ ids ∧ undisturbed id (l2 ++ l3)).

Lemma standing_app id l l' : standing id l → undisturbed id l' → standing id (l ++ l').
Proof.
  unfold undisturbed. intros [(l1 & l2 & -> & H)|(l1 & path & g & l2 & ids & l3 & -> & Hid & H)] Hl'.
  - left. exists l1, (l2 ++ l'). rewrite <- app_assoc. split; [done|]. apply Forall_app. auto.
  - right. exists l1, path, g, l2, ids, (l3 ++ l'). split_and!; [|done|rewrite app_assoc; apply Forall_app; auto].
    rewrite <- app_assoc. cbn. by rewrite <- app_assoc.
Qed.

(** ** The GetCalls that may still be answered *)

Definition get_calls_of (g : Z) (r : request) : bool := match r with GetCalls _ g' => g' =? g | _ => false end.
Definition is_get_calls (r : request) : bool := match r with GetCalls _ _ => true | _ => false end.
Definition asked (w : World) : list request := List.filter is_get_calls (p_request <$> pending w).
Definition current_asked (w : World) : list request := List.filter (get_calls_of (_calls_generation (lc w))) (asked w).
(** The snapshot still collects what changes since GetCalls was sent. *)
Definition collecting (w : World) : Prop :=
  ∃ ch l1 path l2, _snapshot_changes (cl w) = Some ch ∧ log w = l1 ++ Sent (GetCalls path (_calls_generation (lc w))) :: l2 ∧
    ∀ id, id ∈ ch ∨ undisturbed id l2.

Record T (w : World) : Prop := {
  t_keys : ∀ id, id ∈ (_calls (cl w)).*1 → standing id (log w);
  t_old : Forall (λ r, match r with GetCalls _ g => g <= _calls_generation (lc w) | _ => True end) (asked w);
  t_one : (length (current_asked w) <= 1)%nat;
  t_collecting : current_asked w ≠ [] → collecting w;
}.

(** ** Steps that only add standing calls *)

Definition harmless (a : action) : Prop := match a with Gone _ | Unbound => False | _ => True end.
Lemma harmless_undisturbed id l : Forall harmless l → undisturbed id l.
Proof. intros Hl. eapply Forall_impl; [exact Hl|]. by intros []. Qed.
Record mild (X : list ustr) (w w' : World) : Prop := {
  mild_keys : (_calls (cl w')).*1 ⊆ X ++ (_calls (cl w)).*1;
  mild_generation : _calls_generation (lc w') = _calls_generation (lc w);
  mild_asked : asked w' = asked w;
  mild_snapshot : ∀ ch, _snapshot_changes (cl w) = Some ch → ∃ ch', _snapshot_changes (cl w') = Some ch' ∧ ch ⊆ ch';
  mild_log : ∃ l, log w' = log w ++ l ∧ Forall harmless l;
}.
#[export] Instance mild_preorder X : PreOrder (mild X).
Proof.
  split.
  - intros w. split; [set_solver|done|done|eauto|]. exists []. by rewrite app_nil_r.
  - intros w1 w2 w3 [A1 A2 A3 A4 (l & A5 & A6)] [B1 B2 B3 B4 (l' & B5 & B6)]. split; [set_solver|congruence|congruence| |].
    + intros ch Hch. destruct (A4 _ Hch) as (ch' & Hch' & ?). destruct (B4 _ Hch') as (ch'' & ? & ?). exists ch''. set_solver.
    + exists (l ++ l'). split; [by rewrite B5, A5, <- app_assoc|by apply Forall_app].
Qed.
Lemma mild_T X w w' : T w → (∀ id, id ∈ X → standing id (log w)) → mild X w w' → T w'.
Proof.
  intros [H1 H2 H3 H4] HX [K1 K2 K3 K4 (l & K5 & K6)]. assert (current_asked w' = current_asked w) as Hc.
  { unfold current_asked. by rewrite K2, K3. }
  split.
  - intros id Hid%K1. rewrite K5. apply standing_app; [|by apply harmless_undisturbed]. apply elem_of_app in Hid as [Hid|Hid]; auto.
  - by rewrite K3, K2.
  - by rewrite Hc.
  - rewrite Hc. intros Hne. destruct (H4 Hne) as (ch & l1 & path & l2 & Hs & Hl & Hch). destruct (K4 _ Hs) as (ch' & Hs' & Hsub).
    exists ch', l1, path, (l2 ++ l). split_and!; [done|by rewrite K5, Hl, K2, <- app_assoc|].
    intros id. destruct (Hch id) as [Hin|Hu]; [left; set_solver|right]. apply Forall_app. split; [done|by apply harmless_undisturbed].
Qed.
Lemma asked_held w : asked w = List.filter is_get_calls (held w).
Proof.
  unfold asked, held. induction (p_request <$> pending w) as [|r l IH]; [done|]. cbn. destruct r; cbn; by rewrite ?IH.
Qed.
Lemma still_mild X w w' : still w w' → mild X w w'.
Proof.
  intros [A1 A2 A3 A4 _ _ (l & A5 & A6)]. split; [rewrite A1; set_solver|done|by rewrite !asked_held, A4|rewrite A2; eauto|].
  exists l. split; [done|]. eapply Forall_impl; [exact A6|]. by intros [].
Qed.
Lemma keeps_mild X {A} (m : M World A) : keeps still m → keeps (mild X) m.
Proof. intros Hm w. apply still_mild, Hm. Qed.
Lemma mild_emit X a : harmless a → keeps (mild X) (emit a).
Proof. intros Ha w. split; [set_solver|done|done|eauto|]. exists [a]. split; [done|]. by constructor. Qed.
Lemma mild_set_cl X f : (∀ c, (_calls (f c)).*1 ⊆ X ++ (_calls c).*1) →
  (∀ c ch, _snapshot_changes c = Some ch → ∃ ch', _snapshot_changes (f c) = Some ch' ∧ ch ⊆ ch') → keeps (mild X) (set_cl f).
Proof. intros H1 H2 w. split; [apply H1|done|done|apply H2|]. exists []. by rewrite app_nil_r. Qed.
Lemma mild_note X id : keeps (mild X) (note_change id).
Proof. apply mild_set_cl; [set_solver|]. intros c ch Hc. exists (ch ++ [id]). cbn. rewrite Hc. split; [done|set_solver]. Qed.
Lemma mild_set_tn X f : keeps (mild X) (set_tn f).
Proof. intros w. split; [set_solver|done|done|eauto|]. exists []. by rewrite app_nil_r. Qed.
Lemma mild_submit X r : is_get_calls r = false → keeps (mild X) (submit r).
Proof.
  intros Hr w. split; [set_solver|done| |eauto|exists []; by rewrite app_nil_r].
  unfold asked. cbn. rewrite fmap_app, List.filter_app. cbn. by rewrite Hr, app_nil_r.
Qed.
Lemma mild_event X k c : keeps (mild X) (_emit k c). Proof. by apply mild_emit. Qed.
Lemma mild_changed X : keeps (mild X) _calls_changed. Proof. by apply mild_emit. Qed.
#[export] Hint Resolve mild_note mild_set_tn mild_event mild_changed : keeps.
#[export] Hint Extern 1 (keeps (mild _) (emit _)) => apply mild_emit; exact I : keeps.
#[export] Hint Extern 1 (keeps (mild _) (submit _)) => apply mild_submit; reflexivity : keeps.
#[export] Hint Extern 3 (keeps (mild _) _) => apply keeps_mild; solve [auto 1 with keeps nocore] : keeps.

Section evidence.
Context `{CaseMapping} (cfg : Config) (env : Env).

(** A step checked from the state it reads. *)
Lemma keeps_get_bind {S A} (R : relation S) (f : S → M S A) : (∀ s, R s (f s s).2) → keeps R (get ≫= f).
Proof. intros Hf s. apply Hf. Qed.


Lemma mild_call_property X id name value : keeps (mild X) (_on_call_property env id name value).
Proof.
  unfold _on_call_property. apply keeps_bind; [apply _|keeps|intros _]. apply keeps_get_bind. intros w.
  destruct (od_get id (_calls (cl w))) as [c|] eqn:Ec; [|reflexivity]. destruct (bool_decide _); [reflexivity|].
  set (u := if bool_decide _ then _ else _). clearbody u. rewrite M_bind_eq. unfold set_cl at 1, modify. cbv beta iota.
  match goal with |- mild _ _ (?m ?x).2 => assert (keeps (mild X) m) as Hm by keeps; transitivity x; [|apply Hm] end.
  split; try done; [|eauto|exists []; by rewrite app_nil_r]. cbn. rewrite od_set_keys, bool_decide_eq_true_2; [set_solver|].
  apply list_elem_of_fmap. exists (id, c). split; [done|by apply od_get_Some].
Qed.
#[local] Hint Resolve mild_call_property : keeps.
Lemma mild_call_properties X id l : keeps (mild X) (call_properties env id l).
Proof. induction l as [|[k v] l IH]; cbn [call_properties]; keeps. Qed.
#[local] Hint Resolve mild_call_properties : keeps.
Lemma mild_set_call X id c : id ∈ X → keeps (mild X) (set_cl (λ x, x <| _calls ::= od_set id c |>)).
Proof.
  intros Hid. apply mild_set_cl; [|eauto]. intros x. cbn. rewrite od_set_keys. case_bool_decide; set_solver.
Qed.
Lemma mild_call_added X path properties : (∀ id, call_id_from_path path = Some id → id ∈ X) → keeps (mild X) (_on_call_added env path properties).
Proof.
  intros HX. unfold _on_call_added. destruct (parse_call _ _ _ _) as [c|] eqn:Ep; [|keeps].
  pose proof (mild_set_call X _ (_resolved env c) (HX _ (parse_call_id _ _ _ _ _ Ep))). keeps.
Qed.
Lemma mild_add_listed X changed l : (∀ id, id ∈ listed_ids l → id ∉ changed → id ∈ X) → keeps (mild X) (add_listed env changed l).
Proof.
  induction l as [|e l IH]; cbn [add_listed]; intros HX; [keeps|]. assert (keeps (mild X) (add_listed env changed l)) as Hl.
  { apply IH. intros id Hid. apply HX. apply list_elem_of_omap. apply list_elem_of_omap in Hid as (x & Hx & Hid). exists x. split; [by right|done]. }
  apply keeps_bind; [apply _| |by intros _]. destruct e as [[path properties]|]; [|keeps].
  destruct (bool_decide _) eqn:Ec; [cbn; keeps|]. apply mild_call_added. intros id Hid. apply HX.
  - apply list_elem_of_omap. exists (Some (path, properties)). split; [left|exact Hid].
  - apply bool_decide_eq_false_1 in Ec. intros Hin. destruct Ec. rewrite Hid. by apply list_elem_of_fmap_2.
Qed.

(** ** The invariant *)

Lemma stable_still {A} (m : M World A) : keeps still m → stable T m.
Proof. intros Hm w Hw. apply (mild_T [] w _ Hw); [intros id Hid; by apply elem_of_nil in Hid|]. by apply still_mild. Qed.
Lemma stable_mild {A} (m : M World A) : keeps (mild []) m → stable T m.
Proof. intros Hm w Hw. apply (mild_T [] w _ Hw); [intros id Hid; by apply elem_of_nil in Hid|]. apply Hm. Qed.
#[local] Hint Extern 5 (keeps (holding T) _) => apply stable_mild; solve [auto 2 with keeps nocore | keeps] : keeps.

(** No answer to GetCalls would be used. *)
Definition Q (w : World) : Prop := T w ∧ current_asked w = [].
Lemma Q_still w w' : still w w' → Q w → Q w'.
Proof.
  intros Hs [Hw Hc]. pose proof (still_mild [] _ _ Hs) as Hm. split.
  - apply (mild_T [] w _ Hw); [intros id Hid; by apply elem_of_nil in Hid|exact Hm].
  - destruct Hm as [_ H2 H3 _ _]. unfold current_asked in *. by rewrite H2, H3.
Qed.
Lemma still_Q {A} (m : M World A) : keeps still m → stable Q m.
Proof. intros Hm w HQ. exact (Q_still _ _ (Hm w) HQ). Qed.
Lemma Q_set_cl f : (∀ c, _calls (f c) = _calls c) → stable Q (set_cl f).
Proof.
  intros Hf w [[H1 H2 H3 H4] Hc]. split; [|done]. split; try done. cbn. by rewrite Hf.
Qed.
(** What [_unbind] leaves of the requests and the calls. *)
Record mutes (w w' : World) : Prop := {
  mutes_asked : asked w' = asked w;
  mutes_generation : _calls_generation (lc w') = _calls_generation (lc w);
  mutes_calls : _calls (cl w) = [] → _calls (cl w') = [];
}.
#[local] Instance mutes_preorder : PreOrder mutes.
Proof. split; [by split|]. intros w1 w2 w3 [] []. split; [congruence|congruence|auto]. Qed.
Lemma mutes_emit a : keeps mutes (emit a). Proof. by split. Qed.
Lemma mutes_end_calls l : keeps mutes (end_calls l).
Proof. induction l as [|c l IH]; cbn [end_calls]; [keeps|]. apply keeps_bind; [apply _|apply mutes_emit|by intros _]. Qed.
Lemma mutes_remove_all l : keeps mutes (remove_all env l).
Proof.
  intros w. pose proof (still_remove_all env l w) as Hs. pose proof (still_mild [] _ _ Hs) as [_ H2 H3 _ _]. destruct Hs as [Hs _ _ _ _ _ _].
  split; [done|done|]. by rewrite Hs.
Qed.
Lemma unbind_Q announce w : T w → wp (_unbind env announce) (λ _, Q) w.
Proof.
  intros HT. unfold _unbind. apply wp_bind, wp_modify_last, wp_bind, wp_modify_last, wp_get. set (w1 := w <| log ::= _ |> <| lc ::= _ |>).
  assert (Forall (λ r, match r with GetCalls _ g => g < _calls_generation (lc w1) | _ => True end) (asked w1)) as H1.
  { eapply Forall_impl; [exact (t_old _ HT)|]. cbn. intros [] ?; try done. lia. }
  clearbody w1. enough (wp (set_cl (λ c, c <| _snapshot_changes := None |>);; remove_all env (_vcm_matches (cl w1));; set_cl (λ c, c <| _vcm_matches := [] |>);;
    remove_all env (_call_matches (cl w1)).*2;; set_cl (λ c, c <| _call_matches := [] |> <| _bound_path := None |> <| _calls := [] |>);;
    when (announce && negb (is_nil (_calls (cl w1)))) (end_calls (_calls (cl w1)).*2;; _calls_changed))
    (λ _ w', mutes w1 w' ∧ _calls (cl w') = []) w1) as Hw.
  { eapply wp_mono; [exact Hw|]. intros _ w' [[H2 H3 _] H4]. assert (current_asked w' = []) as Hc.
    { unfold current_asked. rewrite H2, H3. clear -H1. induction H1 as [|r l Hr _ IH]; [done|]. cbn. destruct r; cbn; try done.
      by rewrite (proj2 (Z.eqb_neq _ _)) by lia. }
    split; [|done]. split; [rewrite H4; intros id Hid; by apply elem_of_nil in Hid| |rewrite Hc; cbn; lia|by rewrite Hc].
    rewrite H2, H3. eapply Forall_impl; [exact H1|]. intros [] ?; try done. lia. }
  apply wp_bind, wp_modify_last, wp_bind. eapply wp_mono; [apply (wp_keeps mutes); [apply mutes_remove_all|apply remove_all_tame]|]. intros _ w2 [_ H2].
  apply wp_bind, wp_modify_last, wp_bind. eapply wp_mono; [apply (wp_keeps mutes); [apply mutes_remove_all|apply remove_all_tame]|]. intros _ w3 [_ H3].
  apply wp_bind, wp_modify_last. set (w4 := w3 <| cl ::= _ |>).
  assert (mutes w1 w4) as H4. { destruct H2 as [A1 A2 _], H3 as [B1 B2 _]. split; [by etrans; [exact B1|exact A1]|by etrans; [exact B2|exact A2]|done]. }
  assert (_calls (cl w4) = []) as H5 by done. clearbody w4. unfold when. destruct (_ && _); [|by apply wp_ret].
  apply wp_bind. set (l := (_calls (cl w1)).*2). pose proof (end_calls_view l w4) as (Hr & Hcl & _). pose proof (mutes_end_calls l w4) as Hm.
  unfold wp. destruct (end_calls l w4) as [r w5]. cbn in Hr, Hcl, Hm. subst r. unfold _calls_changed, emit, modify. cbn. rewrite Hcl.
  split; [|done].
  transitivity w4; [done|]. transitivity w5; [done|]. by split.
Qed.

(** Binding: the snapshot starts before GetCalls is sent. *)
Definition ready_to_ask (w : World) : Prop := Q w ∧ _snapshot_changes (cl w) ≠ None.
Lemma ready_still w w' : still w w' → ready_to_ask w → ready_to_ask w'.
Proof. intros Hs [HQ Hn]. split; [by apply (Q_still w)|by rewrite (s_snapshot _ _ Hs)]. Qed.
Lemma T_asks path w : ready_to_ask w →
  wp (_call env (GetCalls path (_calls_generation (lc w)))) (λ _, T) w.
Proof.
  intros [[[H1 H2 H3 H4] Hc] Hn]. unfold _call. apply wp_bind, wp_modify_last, wp_get. set (w1 := w <| log ::= _ |>).
  assert (T w1) as HT.
  { split; [intros id Hid; apply standing_app; [by apply H1|by constructor]|done|done|intros Hne; by destruct (Hne Hc)]. }
  destruct (call_fails _ _).
  - cbn [on_error]. apply wp_get. unfold when. destruct (passes _ _ _); [|by apply wp_ret]. apply wp_modify_last.
    destruct HT as [K1 K2 K3 K4]. split; [exact K1|exact K2|exact K3|]. intros Hne. by destruct (Hne Hc).
  - apply wp_modify_last. destruct HT as [K1 K2 K3 K4].
    assert (∀ r, asked (w1 <| pending ::= λ l, l ++ [mkPending (GetCalls path (_calls_generation (lc w))) r] |>) =
      asked w ++ [GetCalls path (_calls_generation (lc w))]) as Ha by (intros r; unfold asked; cbn; by rewrite fmap_app, List.filter_app).
    assert (∀ r, current_asked (w1 <| pending ::= λ l, l ++ [mkPending (GetCalls path (_calls_generation (lc w))) r] |>) =
      [GetCalls path (_calls_generation (lc w))]) as Hca.
    { intros r. unfold current_asked. rewrite Ha, List.filter_app. unfold current_asked in Hc. cbn. rewrite Hc. cbn. by rewrite Z.eqb_refl. }
    split.
    + exact K1.
    + rewrite Ha. apply Forall_app. split; [exact H2|]. constructor; [cbn; lia|done].
    + rewrite Hca. cbn. lia.
    + intros _. destruct (_snapshot_changes (cl w)) as [ch|] eqn:Es; [|done]. exists ch, (log w), path, []. split_and!; [done|done|]. intros id. right. by constructor.
Qed.
Lemma watch_still h path b : tame still (_watch env h path b).
Proof. unfold _watch, tick. destruct (watch_fails _ _); tame; still. Qed.
Lemma T_bind path : stable T (_bind env path).
Proof.
  assert (stable Q (bind_failed env)) as Hfailed.
  { unfold bind_failed. pose proof (λ l, still_Q _ (still_remove_all env l)). pose proof (still_Q _ (still_retry None)).
    apply keeps_bind; [apply _|by apply still_Q; keeps|intros v]. apply keeps_bind; [apply _|done|intros _].
    apply keeps_bind; [apply _|by apply Q_set_cl|done]. }
  intros w HT. unfold _bind. apply wp_then. eapply wp_mono; [by apply unbind_Q|]. intros ? w1 HQ. cbv beta.
  apply wp_then, wp_modify_last. set (w2 := w1 <| cl ::= _ |>). assert (ready_to_ask w2) as H2.
  { split; [|done]. by apply (Q_set_cl (λ c : Calls, c <| _snapshot_changes := Some [] |>)). }
  clearbody w2. apply wp_then. eapply wp_mono; [apply watch_still|]. intros [x|] w3 H3; cbv beta iota;
    [|apply Hfailed, (Q_still _ _ H3), H2].
  apply wp_then, wp_modify_last. set (w4 := w3 <| cl ::= _ |>). assert (ready_to_ask w4) as H4.
  { destruct (ready_still _ _ H3 H2) as [HQ3 Hn]. split; [|done]. by apply (Q_set_cl (λ c : Calls, c <| _vcm_matches ::= λ l, l ++ [x] |>)). }
  clearbody w4. apply wp_then. eapply wp_mono; [apply watch_still|]. intros [y|] w5 H5; cbv beta iota;
    [|apply Hfailed, (Q_still _ _ H5), H4].
  apply wp_then, wp_modify_last, wp_then, wp_modify_last, wp_then, wp_modify_last.
  set (w6 := w5 <| cl ::= _ |> <| cl ::= _ |> <| tm ::= _ |>). assert (ready_to_ask w6) as H6.
  { destruct (ready_still _ _ H5 H4) as [[[K1 K2 K3 K4] HQ5] Hn]. split; [|done]. split; [by split|done]. }
  change (T ((_call env (GetCalls path (_calls_generation (lc w6))) ≫= λ _, _maximize_call_volume env path) w6).2).
  clearbody w6. apply wp_then. eapply wp_mono; [by apply T_asks|]. intros ? w7 H7. cbv beta. apply stable_still; [keeps|done].
Qed.
#[local] Hint Resolve T_bind : keeps.
Lemma T_unbind announce : stable T (_unbind env announce).
Proof. intros w HT. apply wp_snd. eapply wp_mono; [by apply unbind_Q|]. by intros ? ? []. Qed.
#[local] Hint Resolve T_unbind : keeps.
Lemma T_advance : stable T (_advance env). Proof. unfold _advance, cancel_bringup. keeps. Qed.
#[local] Hint Resolve T_advance : keeps.
Lemma T_adopt m : stable T (_adopt env m). Proof. unfold _adopt. keeps. Qed.
#[local] Hint Resolve T_adopt : keeps.
Lemma T_modems l : stable T (_on_modems cfg env l). Proof. unfold _on_modems. keeps. Qed.
Lemma T_modem_added path properties : stable T (_on_modem_added cfg env path properties).
Proof. unfold _on_modem_added, cancel_retry. keeps. Qed.
Lemma T_modem_removed path : stable T (_on_modem_removed env path). Proof. unfold _on_modem_removed. keeps. Qed.
Lemma T_modem_property name value : stable T (_on_modem_property env name value).
Proof. unfold _on_modem_property, cancel_retry. keeps. Qed.
Lemma T_owner present : stable T (_on_owner_changed env present). Proof. unfold _on_owner_changed, cancel_retry, cancel_bringup. keeps. Qed.
Lemma T_done name path : stable T (set_modem_done env name path). Proof. unfold set_modem_done. keeps. Qed.
Lemma T_poke : stable T (poke env). Proof. unfold poke, cancel_retry. keeps. Qed.
Lemma T_call_property id name value : stable T (_on_call_property env id name value). Proof. apply stable_mild. keeps. Qed.
Lemma T_next_tones : stable T (_next_tones env).
Proof.
  apply stable_mild. assert (∀ q, keeps (mild []) (next_tones_from env q)) as Hq.
  { induction q as [|[[[m i] t] c] q IH]; cbn [next_tones_from]; keeps. }
  unfold _next_tones. keeps.
Qed.
#[local] Hint Resolve T_modems T_modem_added T_modem_removed T_modem_property T_owner T_done T_poke T_call_property T_next_tones : keeps.
Lemma T_control m path client : stable T (_control env m path client). Proof. apply stable_mild. unfold _control. keeps. Qed.
Lemma T_replied m client a : stable T (control_replied env m client a). Proof. unfold control_replied. keeps. Qed.
#[local] Hint Resolve T_control T_replied : keeps.

(** *** The messages about calls *)

Lemma T_signalled path properties :
  stable T ((match call_id_from_path path with Some id => emit (Signalled id) | None => mret () end);; _on_call_added env path properties).
Proof.
  intros w HT. destruct (call_id_from_path path) as [id|] eqn:Ei.
  - apply wp_then, wp_modify_last. set (w1 := w <| log ::= _ |>). assert (mild [] w w1) as Hm by apply (mild_emit [] (Signalled id)), I.
    assert (T w1) as HT1 by (apply (mild_T [] w); [done|intros ? Hid; by apply elem_of_nil in Hid|done]).
    apply (mild_T [id] w1 _ HT1); [|apply mild_call_added; intros id' Hid'; rewrite Ei in Hid'; injection Hid' as <-; left].
    intros id' ->%list_elem_of_singleton. left. exists (log w), []. split; [done|by constructor].
  - apply wp_then, wp_ret. apply (mild_T [] w _ HT); [intros ? Hid; by apply elem_of_nil in Hid|].
    apply mild_call_added. intros id Hid. by rewrite Ei in Hid.
Qed.
Lemma T_gone path :
  stable T ((match call_id_from_path path with Some id => emit (Gone id) | None => mret () end);; _on_call_removed env path).
Proof.
  intros w HT. unfold _on_call_removed. destruct (call_id_from_path path) as [id|]; [|exact HT].
  apply wp_then, wp_modify_last, wp_then, wp_modify_last, wp_then, wp_ret, wp_then, wp_modify_last.
  set (w1 := w <| log ::= _ |> <| cl ::= _ |> <| cl ::= _ |>). assert (T w1) as H1.
  { destruct HT as [K1 K2 K3 K4]. split; [|exact K2|exact K3|].
    - intros id' Hid'. cbn in Hid'. rewrite od_pop_keys in Hid'. apply list_elem_of_filter in Hid' as [Hne Hid'].
      apply standing_app; [by apply K1|]. constructor; [|done]. cbn. by apply bool_decide_eq_false_2.
    - intros Hne. destruct (K4 Hne) as (ch & l1 & path' & l2 & Hs & Hl & Hch). exists (ch ++ [id]), l1, path', (l2 ++ [Gone id]).
      split_and!; [cbn; by rewrite Hs|cbn; by rewrite Hl, <- app_assoc|]. intros id'. destruct (Hch id') as [Hin|Hu]; [left; set_solver|].
      destruct (decide (id' = id)) as [->|Hne']; [left; set_solver|right]. apply Forall_app. split; [done|]. constructor; [|done].
      cbn. by apply bool_decide_eq_false_2. }
  match goal with |- T (?m w1).2 => assert (stable T m) as Hm end; [|by apply Hm].
  apply stable_mild. assert (keeps (mild []) (set_cl (λ c, c <| _call_matches ::= od_pop id |>))).
  { apply mild_set_cl; [set_solver|eauto]. }
  keeps.
Qed.
Lemma T_call_error generation g path e w : T w → (g = _calls_generation (lc w) → current_asked w = []) → T (on_error env generation (GetCalls path g) e w).2.
Proof.
  intros HT Hg. change (T (when (passes generation (Some g) w) _on_existing_calls_failed w).2). unfold when. destruct (passes generation (Some g) w) eqn:Ep; [|exact HT]. unfold passes in Ep.
  apply andb_true_iff in Ep as [_ Ep%Z.eqb_eq]. destruct HT as [K1 K2 K3 K4]. split; [exact K1|exact K2|exact K3|]. intros Hne. by destruct (Hne (Hg Ep)).
Qed.
(** The answer to GetCalls: only calls without a later CallRemoved are added. *)
Lemma T_listed generation g path a w : T w → (g = _calls_generation (lc w) → current_asked w = [] ∧ collecting w) →
  T (on_reply cfg env generation (GetCalls path g) a w).2.
Proof.
  intros HT Hg.
  change (T (when (passes generation (Some g) w) (emit (Listed (listed_ids (objects_of a)));; _on_existing_calls env (objects_of a)) w).2).
  unfold when. destruct (passes generation (Some g) w) eqn:Ep; [|exact HT]. unfold passes in Ep.
  apply andb_true_iff in Ep as [_ Ep%Z.eqb_eq]. destruct (Hg Ep) as [Hc (ch & l1 & path' & l2 & Hs & Hl & Hch)].
  apply (wp_then T (emit _)), wp_modify_last. set (w1 := w <| log ::= _ |>). unfold _on_existing_calls.
  apply (wp_then T (set_cl _)), wp_modify_last. set (w2 := w1 <| cl ::= _ |>). change (_snapshot_changes (cl w1)) with (_snapshot_changes (cl w)).
  rewrite Hs. change (default [] (Some ch)) with ch. assert (T w2) as H2.
  { destruct HT as [K1 K2 K3 K4]. split; [|exact K2|exact K3|intros Hne; by destruct (Hne Hc)].
    intros id Hid. apply standing_app; [by apply K1|by constructor]. }
  apply (mild_T (List.filter (λ id, negb (bool_decide (id ∈ ch))) (listed_ids (objects_of a))) w2 _ H2).
  - intros id Hid. apply list_elem_of_In, filter_In in Hid as [Hid%list_elem_of_In Hn%negb_true_iff%bool_decide_eq_false_1].
    right. exists l1, path', (_calls_generation (lc w)), l2, (listed_ids (objects_of a)), []. split_and!; [|done|].
    + cbn. by rewrite Hl, <- app_assoc.
    + rewrite app_nil_r. by destruct (Hch id).
  - apply mild_add_listed. intros id Hid Hn. apply list_elem_of_In, filter_In. split; [by apply list_elem_of_In|].
    by rewrite bool_decide_eq_false_2.
Qed.

(** *** Every event *)

(** A request is taken from those oFono has not answered. *)
Lemma T_take i p w : T w → pending w !! i = Some p → let w' := w <| pending ::= delete i |> in
  T w' ∧ ∀ path, p_request p = GetCalls path (_calls_generation (lc w)) → current_asked w' = [] ∧ collecting w'.
Proof.
  intros [K1 K2 K3 K4] Hp w'. pose proof (take_drop_middle _ _ _ Hp) as Hl.
  set (before := List.filter is_get_calls (p_request <$> take i (pending w))).
  set (after := List.filter is_get_calls (p_request <$> drop (S i) (pending w))).
  assert (asked w = before ++ (if is_get_calls (p_request p) then [p_request p] else []) ++ after) as Ha.
  { unfold asked. rewrite <- Hl at 1. rewrite fmap_app, List.filter_app. cbn. by destruct (is_get_calls (p_request p)). }
  assert (asked w' = before ++ after) as Ha'.
  { unfold asked. subst w'. change (pending _) with (delete i (pending w)). by rewrite delete_take_drop, fmap_app, List.filter_app. }
  clearbody before after. unfold current_asked in K3, K4. destruct (is_get_calls (p_request p)) eqn:Hg; cycle 1.
  { rewrite Ha in K2, K3, K4. cbn in K2, K3, K4. rewrite <- Ha' in K2, K3, K4. split; [by split|]. intros path Hpath. by rewrite Hpath in Hg. }
  cbn in Ha. rewrite Ha in K2, K3, K4. rewrite List.filter_app in K3, K4. cbn in K3, K4.
  apply Forall_app in K2 as [K2 K5]. apply Forall_cons in K5 as [_ K5].
  assert (Forall (λ r, match r with GetCalls _ g => g <= _calls_generation (lc w') | _ => True end) (asked w')) as H2
    by (rewrite Ha'; by apply Forall_app).
  destruct (get_calls_of (_calls_generation (lc w)) (p_request p)) eqn:Eg.
  - assert (current_asked w' = []) as Hc.
    { unfold current_asked. rewrite Ha', List.filter_app. rewrite length_app in K3. cbn in K3. change (_calls_generation (lc w')) with (_calls_generation (lc w)).
      destruct (List.filter _ before), (List.filter _ after); done || (cbn in K3; lia). }
    assert (collecting w') as Hcol by (apply K4; by destruct (List.filter _ before)).
    split; [|by intros]. split; [exact K1|exact H2|rewrite Hc; cbn; lia|by rewrite Hc].
  - split; [|intros path Hpath; rewrite Hpath in Eg; cbn in Eg; by rewrite Z.eqb_refl in Eg].
    split; [exact K1|exact H2| |]; unfold current_asked; rewrite Ha', List.filter_app; [exact K3|exact K4].
Qed.
Lemma T_on_error g r e : is_get_calls r = false → stable T (on_error env g r e).
Proof. intros Hr. destruct r; try done; (apply stable_still, still_on_error; reflexivity) || keeps. Qed.
Lemma T_on_reply g r a : is_get_calls r = false → stable T (on_reply cfg env g r a).
Proof. intros Hr. destruct r; try done; cbn [on_reply]; keeps. Qed.
Lemma T_answered p a w : T w → (∀ path, p_request p = GetCalls path (_calls_generation (lc w)) → current_asked w = [] ∧ collecting w) →
  T (answered cfg env p a w).2.
Proof.
  intros HT Hp. destruct (is_get_calls (p_request p)) eqn:Eg.
  - destruct p as [r g]. cbn in Eg, Hp. destruct r as [| |path cg| | |]; try done.
    change (T ((if g =? _generation (lc w) then match a with Error e => on_error env g (GetCalls path cg) e | _ => on_reply cfg env g (GetCalls path cg) a end else mret ()) w).2).
    destruct (g =? _); [|exact HT].
    assert (T (on_reply cfg env g (GetCalls path cg) a w).2) as Hr by (apply T_listed; [done|intros ->; by eapply Hp]).
    destruct a; try exact Hr. apply T_call_error; [done|]. intros ->. by eapply Hp.
  - clear Hp. revert w HT. change (stable T (answered cfg env p a)). pose proof (λ g e, T_on_error g _ e Eg). pose proof (λ g a, T_on_reply g _ a Eg).
    unfold answered. destruct p as [r g]. cbn [p_request p_generation] in *. apply keeps_bind; [apply _|keeps|]. intros w.
    destruct r; try done; keeps.
Qed.
#[local] Hint Resolve T_signalled T_gone : keeps.
Lemma T_handle h s : stable T (handle cfg env h s).
Proof.
  destruct h, s; cbn [handle]; try keeps.
Qed.
#[local] Hint Resolve T_handle : keeps.
Lemma T_delivered x s : stable T (delivered cfg env x s). Proof. unfold delivered. keeps. Qed.
#[local] Hint Resolve T_delivered : keeps.
Lemma T_stop : stable T (stop env). Proof. unfold stop, cancel_retry, cancel_bringup. keeps. Qed.
#[local] Hint Resolve T_stop : keeps.
Lemma T_reply_event i a : stable T (step cfg env (EReply i a)).
Proof.
  intros w HT. change (T (match pending w !! i with Some p => modify (λ w : World, w <| pending ::= delete i |>);; answered cfg env p a | None => mret () end w).2).
  destruct (pending w !! i) as [p|] eqn:Ep; [|exact HT]. destruct (T_take i p w HT Ep) as [HT' Hp].
  apply (wp_then T (modify _)), wp_modify_last. by apply T_answered.
Qed.
Lemma call_step_T e : stable T (step cfg env e).
Proof.
  destruct e; first [apply T_reply_event | cbn [step];
    unfold client_request, answer, hangup, hangup_all, dial, send_tones, swap, hold_and_answer, _retry_tick, _restart_tick,
      fire_phone_retry, _read_phone, _cancel_phone_retry, set_enabled; keeps].
Qed.
End evidence.

(** C30: No ghost calls: in every reachable state each call the desktop shows is
    backed by a report of oFono that stands, that is a CallAdded with no later
    CallRemoved for it and no unbinding of the modem, or its listing in the answer to a
    GetCalls with neither a CallRemoved nor an unbinding since that request was
    sent.  So no interleaving of the reply to GetCalls with the signals, no
    late answer of an earlier modem and no failure brings an ended call back. *)
Theorem no_ghost_calls `{CaseMapping} cfg es on id c :
  let w := run cfg es (World_init on) in od_get id (_calls (cl w)) = Some c → standing id (log w).
Proof.
  intros w Hc. assert (T w) as [HT _ _ _].
  { subst w. unfold run. apply run_all_invariant; [|by split; [intros ? Hid; by apply elem_of_nil in Hid|constructor|cbn; lia|]].
    intros m t Hm Ht. apply list_elem_of_fmap in Hm as ([env e] & -> & _). by apply call_step_T. }
  apply HT, list_elem_of_fmap. exists (id, c). split; [done|by apply od_get_Some].
Qed.
(** The call that rings in while GetCalls is under way. *)
Lemma no_ghost_calls_witness : let w := run config ((env0,.) <$> bringing_up ++ ringing_in) (World_init true) in
  ∃ c, od_get (lit "voicecall01") (_calls (cl w)) = Some c ∧ standing (lit "voicecall01") (log w).
Proof.
  intros w. destruct (od_get (lit "voicecall01") (_calls (cl w))) as [c|] eqn:E.
  - exists c. split; [done|]. exact (no_ghost_calls config _ true (lit "voicecall01") c E).
  - exfalso. subst w. vm_compute in E. discriminate.
Defined.

(** A call that ends before the late answer that lists it stays away. *)
Definition hanging_up_early : list event :=
  [ESignal 4 (Removed (call_path "voicecall01")); EReply 0 (Objects [call_object "voicecall01" "incoming" "+1 555 0100"])].
Example late_snapshot_ignored : _calls (cl (at_end (bringing_up ++ hanging_up_early))) = [].
Proof. by vm_compute. Qed.
