(* ===== verification/CallReplies.v ===== *)
(** * CallReplies: every accepted request of a client is answered once.

    A request that a client's D-Bus call submits is at every moment answered,
    waiting for oFono, or (keypad tones) queued, and it is exactly one of these,
    once.  Keypad tones reach oFono one request at a time, in their order. *)
From S2P Require Import Prelude PyStr Text Recipients CallModel PhoneStatus CallControl CallSafety.

(** ** What became of a client's request *)

Definition settles (c : nat) (a : action) : bool := match a with Succeeded c' _ | Failed c' _ => (c' =? c)%nat | _ => false end.
Definition asks_for (c : nat) (r : request) : bool := match r with Control _ _ c' => (c' =? c)%nat | _ => false end.
Definition count {A} (f : A → bool) (l : list A) : nat := length (List.filter f l).
#[global] Arguments count : simpl never.
Definition replies (c : nat) (w : World) : nat := count (settles c) (log w).
Definition waiting (c : nat) (w : World) : nat := count (asks_for c) (p_request <$> pending w).
Definition queued (c : nat) (w : World) : nat := count (λ q, (q.2 =? c)%nat) (_tone_queue (tn w)).
(** Replies sent, requests with oFono and requests in the queue, together. *)
Definition accounted (c : nat) (w : World) : nat := (replies c w + waiting c w + queued c w)%nat.

Lemma call_count_app {A} (f : A → bool) l l' : count f (l ++ l') = (count f l + count f l')%nat.
Proof. unfold count. by rewrite List.filter_app, length_app. Qed.
Lemma count_cons {A} (f : A → bool) x l : count f (x :: l) = ((if f x then 1 else 0) + count f l)%nat.
Proof. unfold count. cbn. by destruct (f x). Qed.
Lemma count_snoc {A} (f : A → bool) l x : count f (l ++ [x]) = (count f l + if f x then 1 else 0)%nat.
Proof. rewrite call_count_app, count_cons. change (count f []) with 0%nat. lia. Qed.
Lemma count_none {A} (f : A → bool) l : Forall (λ x, f x = false) l → count f l = 0%nat.
Proof. unfold count. induction 1 as [|x l Hx _ IH]; [done|]. cbn. by rewrite Hx. Qed.
Lemma count_filter {A} (f g : A → bool) l : (∀ x, f x = true → g x = true) → count f (List.filter g l) = count f l.
Proof.
  intros Hfg. unfold count. induction l as [|x l IH]; [done|]. cbn. destruct (g x) eqn:Eg; cbn; [by destruct (f x); cbn; rewrite IH|].
  destruct (f x) eqn:Ef; [by rewrite (Hfg _ Ef) in Eg|done].
Qed.

(** ** Steps beside the requests of clients *)

Definition is_control (r : request) : bool := match r with Control _ _ _ => true | _ => false end.
Definition entry (a : action) : bool := match a with Succeeded _ _ | Failed _ _ => true | Sent r => is_control r | _ => false end.
Definition ledger (w : World) : list action := List.filter entry (log w).
Definition controls (w : World) : list request := List.filter is_control (p_request <$> pending w).
Record aside (w w' : World) : Prop := {
  a_tones : tn w' = tn w;
  a_controls : controls w' = controls w;
  a_ledger : ledger w' = ledger w;
  a_fresh : (fresh w <= fresh w')%nat;
}.
#[export] Instance aside_preorder : PreOrder aside.
Proof. split; [by split|]. intros w1 w2 w3 [] []. split; try congruence. lia. Qed.
Lemma filter_none {A} (f : A → bool) l : Forall (λ x, f x = false) l → List.filter f l = [].
Proof. induction 1 as [|x l Hx _ IH]; [done|]. cbn. by rewrite Hx. Qed.
Lemma still_aside w w' : still w w' → aside w w'.
Proof.
  intros [_ _ _ H4 H5 H6 (l & H7 & H8)]. split; [done| | |done].
  - assert (∀ l, List.filter is_control l = List.filter is_control (List.filter held_request l)) as Hh.
    { intros l'. induction l' as [|r l' IH]; [done|]. cbn. by destruct r; cbn; rewrite IH. }
    unfold controls. rewrite (Hh (_ <$> pending w')), (Hh (_ <$> pending w)). by f_equal.
  - unfold ledger. rewrite H7, List.filter_app, (filter_none entry l), app_nil_r; [done|]. eapply Forall_impl; [exact H8|].
    intros [r| | | | | | | | | | | | | |] Hr; try done. by destruct r.
Qed.
Lemma keeps_aside {A} (m : M World A) : keeps still m → keeps aside m.
Proof. intros Hm w. apply still_aside, Hm. Qed.
Lemma aside_emit a : entry a = false → keeps aside (emit a).
Proof. intros Ha w. split; [done|done| |done]. unfold ledger. cbn. rewrite List.filter_app. cbn. by rewrite Ha, app_nil_r. Qed.
Lemma aside_set_cl f : keeps aside (set_cl f). Proof. by split. Qed.
Lemma aside_set_lc f : keeps aside (set_lc f). Proof. by split. Qed.
Lemma aside_submit r : is_control r = false → keeps aside (submit r).
Proof.
  intros Hr w. split; [done| |done|done]. unfold controls. cbn. rewrite fmap_app, List.filter_app. cbn. by rewrite Hr, app_nil_r.
Qed.
#[export] Hint Resolve aside_set_cl aside_set_lc : keeps.
#[export] Hint Extern 1 (keeps aside (emit _)) => apply aside_emit; reflexivity : keeps.
#[export] Hint Extern 3 (keeps aside _) => apply keeps_aside; solve [auto 1 with keeps nocore] : keeps.

Section aside.
Context `{CaseMapping} (cfg : Config) (env : Env).

Lemma aside_on_error g r e : keeps aside (on_error env g r e).
Proof. destruct r; try (apply keeps_aside, still_on_error; reflexivity); cbn [on_error]; unfold _on_existing_calls_failed; keeps. Qed.
#[local] Hint Resolve aside_on_error : keeps.
Lemma aside_call r : is_control r = false → keeps aside (_call env r).
Proof. intros Hr. pose proof (aside_submit r Hr). pose proof (aside_emit (Sent r) Hr). unfold _call. keeps. Qed.
#[local] Hint Extern 1 (keeps aside (_call _ _)) => apply aside_call; reflexivity : keeps.
Lemma aside_event k c : keeps aside (_emit k c). Proof. by apply aside_emit. Qed.
Lemma aside_changed : keeps aside _calls_changed. Proof. by apply aside_emit. Qed.
#[local] Hint Resolve aside_event aside_changed : keeps.
Lemma aside_end_calls l : keeps aside (end_calls l). Proof. induction l; cbn [end_calls]; keeps. Qed.
#[local] Hint Resolve aside_end_calls : keeps.
Lemma aside_unbind announce : keeps aside (_unbind env announce). Proof. unfold _unbind. keeps. Qed.
Lemma aside_call_property id name value : keeps aside (_on_call_property env id name value).
Proof. unfold _on_call_property, note_change. keeps. Qed.
#[local] Hint Resolve aside_unbind aside_call_property : keeps.
Lemma aside_call_properties id l : keeps aside (call_properties env id l).
Proof. induction l as [|[k v] l IH]; cbn [call_properties]; keeps. Qed.
#[local] Hint Resolve aside_call_properties : keeps.
Lemma aside_call_added path properties : keeps aside (_on_call_added env path properties).
Proof. unfold _on_call_added, note_change. keeps. Qed.
Lemma aside_call_removed path : keeps aside (_on_call_removed env path). Proof. unfold _on_call_removed, note_change. keeps. Qed.
#[local] Hint Resolve aside_call_added aside_call_removed : keeps.
Lemma aside_add_listed changed l : keeps aside (add_listed env changed l).
Proof. induction l as [|[[path properties]|] l IH]; cbn [add_listed]; keeps. Qed.
#[local] Hint Resolve aside_add_listed : keeps.
Lemma aside_existing l : keeps aside (_on_existing_calls env l). Proof. unfold _on_existing_calls. keeps. Qed.
Lemma aside_bind path : keeps aside (_bind env path). Proof. unfold _bind, bind_failed. keeps. Qed.
#[local] Hint Resolve aside_existing aside_bind : keeps.
Lemma aside_advance : keeps aside (_advance env). Proof. unfold _advance, cancel_bringup. keeps. Qed.
#[local] Hint Resolve aside_advance : keeps.
Lemma aside_adopt m : keeps aside (_adopt env m). Proof. unfold _adopt. keeps. Qed.
#[local] Hint Resolve aside_adopt : keeps.
Lemma aside_modems l : keeps aside (_on_modems cfg env l). Proof. unfold _on_modems. keeps. Qed.
Lemma aside_modem_added path properties : keeps aside (_on_modem_added cfg env path properties).
Proof. unfold _on_modem_added, cancel_retry. keeps. Qed.
Lemma aside_modem_removed path : keeps aside (_on_modem_removed env path). Proof. unfold _on_modem_removed. keeps. Qed.
Lemma aside_modem_property name value : keeps aside (_on_modem_property env name value).
Proof. unfold _on_modem_property, cancel_retry. keeps. Qed.
Lemma aside_owner present : keeps aside (_on_owner_changed env present). Proof. unfold _on_owner_changed, cancel_retry, cancel_bringup. keeps. Qed.
Lemma aside_done name path : keeps aside (set_modem_done env name path). Proof. unfold set_modem_done. keeps. Qed.
Lemma aside_poke : keeps aside (poke env). Proof. unfold poke, cancel_retry. keeps. Qed.
Lemma aside_stop : keeps aside (stop env). Proof. unfold stop, cancel_retry, cancel_bringup. keeps. Qed.
#[local] Hint Resolve aside_modems aside_modem_added aside_modem_removed aside_modem_property aside_owner aside_done aside_poke aside_stop : keeps.
Lemma aside_set_enabled b : keeps aside (set_enabled env b). Proof. unfold set_enabled. keeps. Qed.
Lemma aside_reply g r a : keeps aside (on_reply cfg env g r a). Proof. unfold on_reply. keeps. Qed.
Lemma aside_handle h s : keeps aside (handle cfg env h s). Proof. unfold handle. keeps. Qed.
#[local] Hint Resolve aside_set_enabled aside_reply aside_handle : keeps.
Lemma aside_delivered x s : keeps aside (delivered cfg env x s). Proof. unfold delivered. keeps. Qed.
#[local] Hint Resolve aside_delivered : keeps.

Definition is_request (e : event) : bool :=
  match e with EAnswer _ | EHangup _ | EHangupAll | EDial _ | ESendTones _ _ | ESwap | EHoldAndAnswer => true | _ => false end.
Definition is_reply (e : event) : bool := match e with EReply _ _ => true | _ => false end.
Lemma aside_step e : is_request e = false → is_reply e = false → keeps aside (step cfg env e).
Proof.
  intros H1 H2. destruct e; try done; cbn [step]; unfold _retry_tick, _restart_tick, fire_phone_retry, _read_phone, _cancel_phone_retry; keeps.
Qed.
Lemma aside_answered p a : is_control (p_request p) = false → keeps aside (answered cfg env p a).
Proof. intros Hp. unfold answered. destruct (p_request p); try done; keeps. Qed.
End aside.

(** ** The accounts of the clients *)

Definition adds (n k : nat) (w w' : World) : Prop :=
  (fresh w <= fresh w')%nat ∧ ∀ c, accounted c w' = (accounted c w + if (n =? c)%nat then k else 0)%nat.
Lemma adds_0 n w w' : adds n 0 w w' ↔ (fresh w <= fresh w')%nat ∧ ∀ c, accounted c w' = accounted c w.
Proof. unfold adds. split; intros [H1 H2]; (split; [done|]); intros c; rewrite (H2 c); destruct (n =? c)%nat; lia. Qed.
Lemma adds_trans n k k' w1 w2 w3 : adds n k w1 w2 → adds n k' w2 w3 → adds n (k + k') w1 w3.
Proof. intros [H1 H2] [H3 H4]. split; [lia|]. intros c. rewrite H4, H2. destruct (n =? c)%nat; lia. Qed.
Lemma aside_adds n w w' : aside w w' → adds n 0 w w'.
Proof.
  intros [H1 H2 H3 H4]. apply adds_0. split; [done|]. intros c. unfold accounted, replies, waiting, queued. rewrite H1. do 2 f_equal.
  - rewrite <- (count_filter (settles c) entry (log w')), <- (count_filter (settles c) entry (log w)) by (by intros []). unfold ledger in H3. by rewrite H3.
  - rewrite <- (count_filter (asks_for c) is_control (_ <$> pending w')), <- (count_filter (asks_for c) is_control (_ <$> pending w)) by (by intros []).
    unfold controls in H2. by rewrite H2.
Qed.

Lemma accounted_succeeded c w n v : accounted c (w <| log ::= λ l, l ++ [Succeeded n v] |>) = (accounted c w + if (n =? c)%nat then 1 else 0)%nat.
Proof. unfold accounted, replies, waiting, queued. cbn. rewrite count_snoc. cbn. destruct (n =? c)%nat; lia. Qed.
Lemma accounted_failed c w n x : accounted c (w <| log ::= λ l, l ++ [Failed n x] |>) = (accounted c w + if (n =? c)%nat then 1 else 0)%nat.
Proof. unfold accounted, replies, waiting, queued. cbn. rewrite count_snoc. cbn. destruct (n =? c)%nat; lia. Qed.
Lemma accounted_sent c w r : accounted c (w <| log ::= λ l, l ++ [Sent r] |>) = accounted c w.
Proof. unfold accounted, replies, waiting, queued. cbn. rewrite count_snoc. cbn. lia. Qed.
Lemma accounted_submit c w p : accounted c (w <| pending ::= λ l, l ++ [p] |>) = (accounted c w + if asks_for c (p_request p) then 1 else 0)%nat.
Proof. unfold accounted, replies, waiting, queued. cbn. rewrite fmap_app. cbn. rewrite count_snoc. destruct (asks_for c _); lia. Qed.
Lemma accounted_queue c w q :
  (accounted c (w <| tn ::= λ t, t <| _tone_queue := q |> |>) + queued c w = accounted c w + count (λ x, (x.2 =? c)%nat) q)%nat.
Proof. unfold accounted, replies, waiting, queued. cbn. lia. Qed.
Lemma accounted_busy c w b : accounted c (w <| tn ::= λ t, t <| _tone_busy := b |> |>) = accounted c w.
Proof. done. Qed.
Lemma accounted_delete c i w p : pending w !! i = Some p →
  accounted c w = (accounted c (w <| pending ::= delete i |>) + if asks_for c (p_request p) then 1 else 0)%nat.
Proof.
  intros Hp. unfold accounted. change (replies c (w <| pending ::= _ |>)) with (replies c w). change (queued c (w <| pending ::= _ |>)) with (queued c w).
  enough (waiting c w = (waiting c (w <| pending ::= delete i |>) + if asks_for c (p_request p) then 1 else 0)%nat) by lia. unfold waiting.
  change (pending (w <| pending ::= delete i |>)) with (delete i (pending w)). rewrite <- (take_drop_middle _ _ _ Hp) at 1.
  rewrite delete_take_drop, !fmap_app, !call_count_app, fmap_cons, count_cons. destruct (asks_for c _); lia.
Qed.

Section accounts.
Context `{CaseMapping} (cfg : Config) (env : Env).

(** [_next_tones] keeps every account: a queued request is sent or answered. *)
Lemma next_tones_adds n q w : _tone_queue (tn w) = q → adds n 0 w (next_tones_from env q w).2.
Proof.
  revert w. induction q as [|[[[m i] t] c] q IH]; intros w Hq; [by apply adds_0|]. apply adds_0.
  change (next_tones_from env ((m, i, t, c) :: q) w) with
    ((if _tone_busy (tn w) then mret ()
      else
        set_tn (λ x, x <| _tone_queue := q |>);;
        if negb (call_active i w) then emit (Failed c not_active);; next_tones_from env q
        else
          set_tn (λ x, x <| _tone_busy := true |>);;
          let r := Control (SendTones t) m c in
          emit (Sent r);;
          match call_fails env r with
          | None => submit r
          | Some e =>
              set_tn (λ x, x <| _tone_busy := false |>);;
              emit (Failed c (control_error (SendTones t) e));;
              next_tones_from env q
          end) w).
  destruct (_tone_busy (tn w)); [done|]. set (w1 := w <| tn ::= λ x, x <| _tone_queue := q |> |>).
  assert (∀ c', accounted c' w = (accounted c' w1 + if (c =? c')%nat then 1 else 0)%nat) as H1.
  { intros c'. pose proof (accounted_queue c' w q) as Ha. unfold queued in Ha. rewrite Hq, count_cons in Ha. fold w1 in Ha. cbn [snd] in Ha. destruct (c =? c')%nat; lia. }
  destruct (negb _).
  - set (w2 := w1 <| log ::= λ l, l ++ [Failed c not_active] |>). destruct (proj1 (adds_0 n _ _) (IH w2 eq_refl)) as [H2 H3].
    split; [exact H2|]. intros c'. rewrite H1. etrans; [exact (H3 c')|apply accounted_failed].
  - cbv zeta. destruct (call_fails _ _) as [e|].
    + set (w2 := w1 <| tn ::= λ x, x <| _tone_busy := true |> |> <| log ::= λ l, l ++ [Sent (Control (SendTones t) m c)] |>
        <| tn ::= λ x, x <| _tone_busy := false |> |> <| log ::= λ l, l ++ [Failed c (control_error (SendTones t) e)] |>).
      destruct (proj1 (adds_0 n _ _) (IH w2 eq_refl)) as [H2 H3]. split; [exact H2|]. intros c'. rewrite H1. etrans; [exact (H3 c')|].
      subst w2. by rewrite accounted_failed, accounted_busy, accounted_sent.
    + split; [done|]. intros c'. rewrite H1.
      change ((accounted c' (w1 <| log ::= λ l, l ++ [Sent (Control (SendTones t) m c)] |> <| pending ::= λ l, l ++ [mkPending (Control (SendTones t) m c) (_generation (lc w))] |>)) =
        (accounted c' w1 + (if c =? c' then 1 else 0))%nat). by rewrite accounted_submit, accounted_sent.
Qed.
Lemma next_tones_keeps n w : adds n 0 w (_next_tones env w).2.
Proof. by apply next_tones_adds. Qed.

Lemma next_tones_returns w : (_next_tones env w).1 = Ok ().
Proof.
  unfold _next_tones. change ((next_tones_from env (_tone_queue (tn w)) w).1 = Ok ()). generalize (_tone_queue (tn w)) as q. intros q. revert w.
  induction q as [|[[[m i] t] c] q IH]; intros w; [done|]. cbn [next_tones_from]. rewrite M_bind_eq. unfold get at 1. cbv beta iota.
  destruct (_tone_busy (tn w)); [done|]. rewrite M_bind_eq. unfold set_tn at 1, modify at 1. cbv beta iota.
  destruct (negb _); [rewrite M_bind_eq; apply IH|]. rewrite M_bind_eq. unfold set_tn at 1, modify at 1. cbv beta iota.
  rewrite M_bind_eq. unfold emit at 1, modify at 1. cbv beta iota. destruct (call_fails _ _); [|done].
  rewrite M_bind_eq. unfold set_tn at 1, modify at 1. cbv beta iota. rewrite M_bind_eq. apply IH.
Qed.
(** The reply to a control request settles the client's account. *)
Lemma replied_adds m n a w : adds n 1 w (control_replied env m n a w).2.
Proof.
  assert (∀ x w, adds n 1 w (w <| log ::= λ l, l ++ [Failed n x] |>)) as Hf by (intros x v; split; [done|]; intros c; apply accounted_failed).
  assert (∀ x w, adds n 1 w (w <| log ::= λ l, l ++ [Succeeded n x] |>)) as Hs by (intros x v; split; [done|]; intros c; apply accounted_succeeded).
  assert (∀ x, (∀ w, adds n 1 w (w <| log ::= λ l, l ++ [x] |>)) →
    adds n 1 w ((set_tn (λ t, t <| _tone_busy := false |>);; emit x;; _next_tones env) w).2) as Ht.
  { intros x Hx. apply wp_then, wp_modify_last, wp_then, wp_modify_last.
    set (w1 := w <| tn ::= _ |>). assert (adds n 0 w w1) as H1 by (by apply adds_0). clearbody w1.
    exact (adds_trans n 1 0 _ _ _ (adds_trans n 0 1 _ _ _ H1 (Hx w1)) (next_tones_keeps n _)). }
  destruct m, a; first [apply Hf|apply Hs|apply Ht, Hf|apply Ht, Hs].
Qed.

(** A request of the client [n]: accepted, it is accounted for once. *)
Definition bills (n : nat) (m : M World ()) : Prop :=
  ∀ w, match m w with (Ok _, w') => adds n 1 w w' | (Raise _, w') => adds n 0 w w' end.
Lemma bills_bind {A} n (m : M World A) f : keeps aside m → (∀ a, bills n (f a)) → bills n (m ≫= f).
Proof.
  intros Hm Hf w. rewrite M_bind_eq. specialize (Hm w). destruct (m w) as [[a|e] w1]; [|by apply aside_adds].
  specialize (Hf a w1). destruct (f a w1) as [[[]|e] w2]; exact (adds_trans n 0 _ _ _ _ (aside_adds n _ _ Hm) Hf).
Qed.
Lemma bills_raise n e : bills n (raise e). Proof. intros w. by apply adds_0. Qed.
Lemma bills_control m path n : bills n (_control env m path n).
Proof.
  intros w. unfold _control. rewrite M_bind_eq. unfold emit at 1, modify at 1. cbv beta iota. set (w1 := w <| log ::= _ |>).
  assert (adds n 0 w w1) as H1 by (apply adds_0; split; [done|]; intros c; apply accounted_sent). clearbody w1.
  destruct (call_fails env _) as [e|].
  - change (adds n 1 w (w1 <| log ::= λ l, l ++ [Failed n (control_error m e)] |>)). apply (adds_trans n 0 1 _ _ _ H1).
    split; [done|]. intros c. apply accounted_failed.
  - change (adds n 1 w (w1 <| pending ::= λ l, l ++ [mkPending (Control m path n) (_generation (lc w1))] |>)).
    apply (adds_trans n 0 1 _ _ _ H1). split; [done|]. intros c. apply accounted_submit.
Qed.
Lemma bills_tones modem id tones n : bills n (set_tn (λ t, t <| _tone_queue ::= λ q, q ++ [(modem, id, tones, n)] |>);; _next_tones env).
Proof.
  intros w. rewrite M_bind_eq. unfold set_tn at 1, modify at 1. cbv beta iota. set (w1 := w <| tn ::= _ |>).
  assert (adds n 1 w w1) as H1.
  { split; [done|]. intros c. unfold accounted, replies, waiting, queued. cbn. rewrite count_snoc. cbn. destruct (n =? c)%nat; lia. }
  clearbody w1. pose proof (adds_trans n 1 0 _ _ _ H1 (next_tones_keeps n w1)) as H2. pose proof (next_tones_returns w1) as Hr.
  destruct (_next_tones env w1) as [[[]|e] w2]; [exact H2|done].
Qed.

Ltac bills :=
  repeat first
    [ apply bills_control | apply bills_raise | apply bills_tones
    | apply bills_bind; [keeps|intros ?]
    | match goal with |- bills _ (match ?x with _ => _ end) => destruct x end ].
Lemma step_request e w : is_request e = true →
  (fresh w < fresh (step cfg env e w).2)%nat ∧ adds (fresh w) (match (step cfg env e w).1 with Ok _ => 1 | Raise _ => 0 end) w (step cfg env e w).2.
Proof.
  intros He. assert (∀ m, (∀ n, bills n (m n)) → (fresh w < fresh (client_request m w).2)%nat ∧
    adds (fresh w) (match (client_request m w).1 with Ok _ => 1 | Raise _ => 0 end) w (client_request m w).2) as Hm.
  { intros m Hm. set (w1 := w <| fresh ::= S |>). change (client_request m w) with (m (fresh w) w1).
    assert (adds (fresh w) 0 w w1) as H1 by (apply adds_0; split; [cbn; lia|done]).
    specialize (Hm (fresh w) w1). destruct (m (fresh w) w1) as [[[]|x] w2]; cbn [fst snd] in *.
    all: pose proof (adds_trans _ _ _ _ _ _ H1 Hm) as H2; split; [destruct Hm as [Hm _]; cbn in Hm; lia|exact H2]. }
  destruct e; try done; apply Hm; intros client; unfold answer, hangup, hangup_all, dial, send_tones, swap, hold_and_answer; bills.
Qed.
Lemma step_reply i a w : adds 0 0 w (step cfg env (EReply i a) w).2.
Proof.
  change (adds 0 0 w (match pending w !! i with Some p => modify (λ w : World, w <| pending ::= delete i |>);; answered cfg env p a | None => mret () end w).2).
  destruct (pending w !! i) as [p|] eqn:Ep; [|by apply adds_0]. apply (wp_then (adds 0 0 w) (modify _)), wp_modify_last.
  set (w1 := w <| pending ::= delete i |>). pose proof (λ c, accounted_delete c i w p Ep) as Ha. fold w1 in Ha.
  apply adds_0. destruct (is_control (p_request p)) eqn:Ec.
  - destruct p as [r g]. destruct r as [| | | | |m path n]; try done. change (answered cfg env (mkPending (Control m path n) g) a w1) with (control_replied env m n a w1).
    destruct (replied_adds m n a w1) as [H1 H2]. split; [exact H1|]. intros c. rewrite H2, (Ha c). reflexivity.
  - destruct (proj1 (adds_0 0 _ _) (aside_adds 0 _ _ (aside_answered cfg env p a Ec w1))) as [H1 H2]. split; [exact H1|].
    intros c. rewrite H2, (Ha c). destruct (p_request p); done || (cbn; lia).
Qed.
Lemma step_accounts e w : ∃ n k, (k = 0 ∨ (n = fresh w ∧ fresh w < fresh (step cfg env e w).2))%nat ∧ adds n k w (step cfg env e w).2.
Proof.
  destruct (is_request e) eqn:E1; [destruct (step_request e w E1) as [H1 H2]; eauto 6|].
  destruct (is_reply e) eqn:E2; [destruct e; try done; exists 0%nat, 0%nat; split; [by left|apply step_reply]|].
  exists 0%nat, 0%nat. split; [by left|]. by apply aside_adds, aside_step.
Qed.
End accounts.

Lemma run_fresh `{CaseMapping} cfg es w c : (c < fresh w)%nat → let w' := run cfg es w in (c < fresh w')%nat ∧ accounted c w' = accounted c w.
Proof.
  intros Hc. unfold run. apply (run_all_invariant (λ w', (c < fresh w')%nat ∧ accounted c w' = accounted c w)); [|done].
  intros m t Hm [H1 H2]. apply list_elem_of_fmap in Hm as ([env e] & -> & _). destruct (step_accounts cfg env e t) as (n & k & Hk & H3 & H4).
  split; [lia|]. rewrite H4, H2. destruct (n =? c)%nat eqn:En; [apply Nat.eqb_eq in En|]; lia.
Qed.
Lemma run_unused `{CaseMapping} cfg es on c : let w := run cfg es (World_init on) in (fresh w <= c)%nat → accounted c w = 0%nat.
Proof.
  revert c. unfold run. apply (run_all_invariant (λ w', ∀ c, (fresh w' <= c)%nat → accounted c w' = 0%nat)); [|done].
  intros m t Hm Ht c Hc. apply list_elem_of_fmap in Hm as ([env e] & -> & _). destruct (step_accounts cfg env e t) as (n & k & Hk & H3 & H4).
  rewrite H4, Ht by lia. destruct (n =? c)%nat eqn:En; [apply Nat.eqb_eq in En|]; lia.
Qed.

(** C32: Every accepted request of a client is answered exactly once: from the step
    in which answer, hangup, hangup_all, dial, send_tones, swap or hold_and_answer
    returns, whatever happens next (errors, lost modems, restarts, other requests),
    the success or failure callbacks run, the requests with oFono and the keypad
    queue together hold it once, so it is neither dropped nor answered twice, and
    it is answered as soon as it is no longer with oFono or in the queue. *)
Theorem replied_once `{CaseMapping} cfg es on env e w w1 es' :
  run cfg es (World_init on) = w → is_request e = true → step cfg env e w = (Ok (), w1) →
  let w2 := run cfg es' w1 in (replies (fresh w) w2 + waiting (fresh w) w2 + queued (fresh w) w2 = 1)%nat.
Proof.
  intros Hw He Hs. destruct (step_request cfg env e w He) as [H1 H2]. rewrite Hs in H1, H2. cbn [fst snd] in H1, H2.
  destruct (run_fresh cfg es' w1 (fresh w) H1) as [_ H3]. unfold accounted in H3 at 1. etrans; [exact H3|].
  destruct H2 as [_ H2]. rewrite H2. subst w. rewrite run_unused by lia. by rewrite Nat.eqb_refl.
Qed.
(** The call is active and two keypad requests wait for it. *)
Definition in_a_call : list event := bringing_up ++ [ESignal 3 (Added (call_path "voicecall01") (Some (call_properties_of "active" "+1 555 0100")))].
Definition tone (t : string) : event := ESendTones (VText (lit "voicecall01")) (VText (lit t)).
Lemma replied_once_witness :
  let w := run config ((env0,.) <$> in_a_call ++ [tone "1"]) (World_init true) in
  (step config env0 (tone "2") w).1 = Ok () ∧
  let w2 := run config ((env0,.) <$> [tone "3"; EReply 3 (Error (OtherError "Timeout"))]) (step config env0 (tone "2") w).2 in
  (replies (fresh w) w2 + waiting (fresh w) w2 + queued (fresh w) w2 = 1)%nat ∧ waiting (fresh w) w2 = 1%nat.
Proof.
  intros w. split; [by vm_compute|]. split; [|by vm_compute].
  apply (replied_once config ((env0,.) <$> in_a_call ++ [tone "1"]) true env0 (tone "2") w); [reflexivity|reflexivity|]. by vm_compute.
Defined.
