(* ===== verification/CallKeypad.v ===== *)
(** * CallKeypad: keypad tones reach oFono one request at a time, in order. *)
From Stdlib Require Import Sorted.
From stdpp Require Import sorting.
From S2P Require Import Prelude PyStr Text Recipients CallModel PhoneStatus CallControl CallSafety CallReplies.

(** The clients whose tones were sent, in order; those with oFono; those queued. *)
Definition sent_tones (l : list action) : list nat := omap (λ a, match a with Sent (Control (SendTones _) _ c) => Some c | _ => None end) l.
Definition is_tones (r : request) : bool := match r with Control (SendTones _) _ _ => true | _ => false end.
Definition playing (w : World) : list request := List.filter is_tones (p_request <$> pending w).
Definition line (w : World) : list nat := sent_tones (log w) ++ (_tone_queue (tn w)).*2.

Lemma sent_tones_app l l' : sent_tones (l ++ l') = sent_tones l ++ sent_tones l'.
Proof. apply omap_app. Qed.
Lemma sent_tones_ledger l : sent_tones (List.filter entry l) = sent_tones l.
Proof.
  induction l as [|a l IH]; [done|]. unfold sent_tones in *. destruct a as [r| | | | | | | | | | | | | |]; cbn; rewrite ?IH; try done.
  destruct r; cbn; by rewrite ?IH.
Qed.
Lemma playing_controls w : playing w = List.filter is_tones (controls w).
Proof. unfold playing, controls. induction (p_request <$> pending w) as [|r l IH]; [done|]. cbn. destruct r as [| | | | |[] ? ?]; cbn; by rewrite ?IH. Qed.

(** ** The invariant *)

Record KQ (w : World) : Prop := {
  k_sorted : StronglySorted Nat.lt (line w);
  k_fresh : Forall (λ c, (c < fresh w)%nat) (line w);
  k_one : length (playing w) = if _tone_busy (tn w) then 1%nat else 0%nat;
}.
Definition K (w : World) : Prop := KQ w ∧ (_tone_queue (tn w) ≠ [] → _tone_busy (tn w) = true).
Record beside (w w' : World) : Prop := {
  bs_tones : tn w' = tn w;
  bs_playing : playing w' = playing w;
  bs_sent : sent_tones (log w') = sent_tones (log w);
  bs_fresh : (fresh w <= fresh w')%nat;
}.
#[export] Instance beside_preorder : PreOrder beside.
Proof. split; [by split|]. intros w1 w2 w3 [] []. split; try congruence. lia. Qed.
Lemma beside_KQ w w' : beside w w' → KQ w → KQ w'.
Proof.
  intros [H1 H2 H3 H4] [K1 K2 K3]. assert (line w' = line w) as Hl by (unfold line; by rewrite H1, H3).
  split; rewrite ?Hl, ?H1, ?H2; try done. eapply Forall_impl; [exact K2|]. cbn. lia.
Qed.
Lemma beside_K w w' : beside w w' → K w → K w'.
Proof. intros Hb [HQ Hq]. split; [by apply (beside_KQ w)|]. by rewrite (bs_tones _ _ Hb). Qed.
Lemma aside_beside w w' : aside w w' → beside w w'.
Proof.
  intros [H1 H2 H3 H4]. split; [done|by rewrite !playing_controls, H2| |done].
  rewrite <- (sent_tones_ledger (log w')), <- (sent_tones_ledger (log w)). unfold ledger in H3. by rewrite H3.
Qed.
Lemma keeps_beside {A} (m : M World A) : keeps aside m → keeps beside m.
Proof. intros Hm w. apply aside_beside, Hm. Qed.
Lemma beside_emit a : sent_tones [a] = [] → keeps beside (emit a).
Proof. intros Ha w. split; [done|done| |done]. cbn. by rewrite sent_tones_app, Ha, app_nil_r. Qed.
Lemma beside_submit r : is_tones r = false → keeps beside (submit r).
Proof. intros Hr w. split; [done| |done|done]. unfold playing. cbn. rewrite fmap_app, List.filter_app. cbn. by rewrite Hr, app_nil_r. Qed.

Section keypad.
Context `{CaseMapping} (cfg : Config) (env : Env).

Lemma K_beside {A} (m : M World A) : keeps beside m → stable K m.
Proof. intros Hm w HK. exact (beside_K _ _ (Hm w) HK). Qed.
#[local] Hint Extern 4 (keeps beside _) => apply keeps_beside; solve [auto 1 with keeps nocore] : keeps.
Lemma beside_control m path n : is_tones (Control m path n) = false → keeps beside (_control env m path n).
Proof.
  intros Hm. pose proof (beside_submit _ Hm). unfold _control. apply keeps_bind; [apply _| |intros _].
  - apply beside_emit. destruct m; done.
  - destruct (call_fails _ _); [by apply beside_emit|done].
Qed.

(** [_next_tones]: the head of the queue is next, once oFono is free. *)
Lemma next_tones_K q w : _tone_queue (tn w) = q → KQ w → K (next_tones_from env q w).2.
Proof.
  revert w. induction q as [|[[[m i] t] c] q IH]; intros w Hq HK; [split; [exact HK|intros Hne; by destruct (Hne Hq)]|].
  change (next_tones_from env ((m, i, t, c) :: q) w) with
    ((if _tone_busy (tn w) then mret ()
      else
        set_tn (λ x, x <| _tone_queue := q |>);;
        if negb (call_active i w) then emit (Failed c not_active);; next_tones_from env q
        else
          set_tn (λ x, x <| _tone_busy := true |>);;
          let r := Control (SendTones t) m c in
          emit (Sent r);;
          match call_fails env r with
          | None => submit r
          | Some e =>
              set_tn (λ x, x <| _tone_busy := false |>);;
              emit (Failed c (control_error (SendTones t) e));;
              next_tones_from env q
          end) w).
  destruct (_tone_busy (tn w)) eqn:Eb; [by split|]. destruct HK as [K1 K2 K3]. rewrite Eb in K3.
  assert (line w = sent_tones (log w) ++ c :: q.*2) as Hl by (unfold line; by rewrite Hq). rewrite Hl in K1, K2.
  assert (StronglySorted Nat.lt (sent_tones (log w) ++ q.*2) ∧ Forall (λ c, (c < fresh w)%nat) (sent_tones (log w) ++ q.*2)) as [K4 K5].
  { apply Forall_app in K2 as [? K2]. apply Forall_cons in K2 as [_ ?]. split; [|by apply Forall_app].
    apply StronglySorted_app in K1 as (K1 & ? & K6). apply StronglySorted_cons in K6 as [? ?]. apply StronglySorted_app.
    split_and!; [|done|done]. intros x y Hx Hy. apply K1; [done|by right]. }
  set (w1 := w <| tn ::= λ x, x <| _tone_queue := q |> |>). destruct (negb _).
  - set (w2 := w1 <| log ::= λ l, l ++ [Failed c not_active] |>). apply (IH w2); [done|].
    assert (line w2 = sent_tones (log w) ++ q.*2) as Hl2 by (unfold line; cbn; by rewrite sent_tones_app, app_nil_r).
    split; rewrite ?Hl2; try done. cbn. by rewrite Eb.
  - cbv zeta. destruct (call_fails _ _) as [e|].
    + set (w2 := w1 <| tn ::= λ x, x <| _tone_busy := true |> |> <| log ::= λ l, l ++ [Sent (Control (SendTones t) m c)] |>
        <| tn ::= λ x, x <| _tone_busy := false |> |> <| log ::= λ l, l ++ [Failed c (control_error (SendTones t) e)] |>).
      apply (IH w2); [done|]. assert (line w2 = sent_tones (log w) ++ c :: q.*2) as Hl2.
      { unfold line. cbn. rewrite !sent_tones_app. cbn. by rewrite app_nil_r, <- app_assoc. }
      split; rewrite ?Hl2; done.
    + set (w2 := w1 <| tn ::= λ x, x <| _tone_busy := true |> |> <| log ::= λ l, l ++ [Sent (Control (SendTones t) m c)] |>
        <| pending ::= λ l, l ++ [mkPending (Control (SendTones t) m c) (_generation (lc w))] |>).
      change (K w2). assert (line w2 = sent_tones (log w) ++ c :: q.*2) as Hl2.
      { unfold line. cbn. rewrite !sent_tones_app. cbn. by rewrite <- app_assoc. }
      split; [|done]. split; rewrite ?Hl2; try done. unfold playing. cbn. rewrite fmap_app, List.filter_app, length_app. cbn.
      unfold playing in K3. rewrite K3. done.
Qed.
Lemma next_tones_KQ : ∀ w, KQ w → K (_next_tones env w).2.
Proof. intros w. by apply next_tones_K. Qed.

(** The reply to a tones request frees oFono for the next one. *)
Lemma playing_delete i p w : pending w !! i = Some p → let w' := w <| pending ::= delete i |> in
  length (playing w) = (length (playing w') + if is_tones (p_request p) then 1 else 0)%nat ∧ (is_tones (p_request p) = false → playing w' = playing w).
Proof.
  intros Hp w'. assert (playing w = List.filter is_tones (p_request <$> take i (pending w)) ++
    (if is_tones (p_request p) then [p_request p] else []) ++ List.filter is_tones (p_request <$> drop (S i) (pending w))) as ->.
  { unfold playing. rewrite <- (take_drop_middle _ _ _ Hp) at 1. rewrite fmap_app, List.filter_app. cbn. by destruct (is_tones (p_request p)). }
  assert (playing w' = List.filter is_tones (p_request <$> take i (pending w)) ++ List.filter is_tones (p_request <$> drop (S i) (pending w))) as ->.
  { unfold playing. change (pending w') with (delete i (pending w)). by rewrite delete_take_drop, fmap_app, List.filter_app. }
  rewrite !length_app. destruct (is_tones (p_request p)); cbn; split; done || lia.
Qed.
Lemma replied_K m n a w : is_tones (Control m [] n) = false → K w → K (control_replied env m n a w).2.
Proof.
  intros Hm. assert (∀ x, sent_tones [x] = [] → K w → K (w <| log ::= λ l, l ++ [x] |>)) as He.
  { intros x Hx HK. exact (beside_K _ _ (beside_emit x Hx w) HK). }
  destruct m, a; done || (intros HK; by apply He).
Qed.
Lemma tones_replied_K t n a w : KQ (w <| tn ::= λ x, x <| _tone_busy := false |> |>) → K (control_replied env (SendTones t) n a w).2.
Proof.
  intros HK. assert (∀ x, sent_tones [x] = [] → K ((set_tn (λ t, t <| _tone_busy := false |>);; emit x;; _next_tones env) w).2) as He.
  { intros x Hx. apply wp_then, wp_modify_last, wp_then, wp_modify_last. apply next_tones_KQ.
    exact (beside_KQ _ _ (beside_emit x Hx _) HK). }
  destruct a; by apply He.
Qed.
Lemma K_reply i a : stable K (step cfg env (EReply i a)).
Proof.
  intros w HK. change (K (match pending w !! i with Some p => modify (λ w : World, w <| pending ::= delete i |>);; answered cfg env p a | None => mret () end w).2).
  destruct (pending w !! i) as [p|] eqn:Ep; [|exact HK]. apply (wp_then K (modify _)), wp_modify_last.
  set (w1 := w <| pending ::= delete i |>). destruct (playing_delete i p w Ep) as [H1 H2]. fold w1 in H1, H2.
  destruct (is_tones (p_request p)) eqn:Et.
  - destruct p as [r g]. destruct r as [| | | | |m path n]; try done. destruct m; try done. apply tones_replied_K. destruct HK as [[K1 K2 K3] _].
    split; [exact K1|exact K2|]. change (length (playing w1) = 0%nat). destruct (_tone_busy (tn w)); lia.
  - assert (K w1) as HK1 by (apply (beside_K w); [split; [done|by apply H2|done|done]|done]). destruct (is_control (p_request p)) eqn:Ec.
    + destruct p as [r g]. destruct r as [| | | | |m path n]; try done. apply replied_K; [|done]. by destruct m.
    + exact (beside_K _ _ (aside_beside _ _ (aside_answered cfg env p a Ec w1)) HK1).
Qed.

(** A new request for tones joins the end of the queue. *)
Definition last_client (n : nat) (w : World) : Prop := K w ∧ (n < fresh w)%nat ∧ Forall (λ c, (c < n)%nat) (line w).
Lemma last_aside n w w' : aside w w' → last_client n w → last_client n w'.
Proof.
  intros Ha (H1 & H2 & H3). pose proof (aside_beside _ _ Ha) as Hb. split; [by apply (beside_K w)|]. destruct Hb as [B1 _ B3 B4].
  split; [lia|]. unfold line in *. by rewrite B1, B3.
Qed.
Lemma last_bind {A} n (m : M World A) (f : A → M World ()) : keeps aside m → (∀ a w, last_client n w → K (f a w).2) →
  ∀ w, last_client n w → K ((m ≫= f) w).2.
Proof.
  intros Hm Hf w Hw. rewrite M_bind_eq. pose proof (last_aside n _ _ (Hm w) Hw) as H1. destruct (m w) as [[a|e] w1]; [by apply Hf|apply H1].
Qed.
Lemma tones_K id tones n w : last_client n w → K (send_tones env id tones n w).2.
Proof.
  revert w. unfold send_tones. apply last_bind; [keeps|intros selected]. apply last_bind; [keeps|intros modem]. apply last_bind; [keeps|intros c].
  apply last_bind; [keeps|intros w0]. intros w Hw. destruct (negb _); [apply Hw|]. destruct (_ <=? _); [apply Hw|].
  apply wp_then, wp_modify_last, next_tones_KQ. destruct Hw as ([[K1 K2 K3] _] & Hn & Hl). set (w1 := w <| tn ::= _ |>).
  assert (line w1 = line w ++ [n]) as Hl1 by (unfold line; cbn; by rewrite fmap_app, app_assoc).
  split; rewrite ?Hl1; [|apply Forall_app; split; [exact K2|by constructor]|exact K3]. apply StronglySorted_app. split_and!; [|done|by repeat constructor].
  intros x y Hx ->%list_elem_of_singleton. by eapply Forall_forall in Hl.
Qed.
Lemma K_tones_event id tones : stable K (step cfg env (ESendTones id tones)).
Proof.
  intros w HK. set (w1 := w <| fresh ::= S |>). change (K (send_tones env id tones (fresh w) w1).2). apply tones_K.
  destruct HK as [[K1 K2 K3] Hb]. split; [|split; [cbn; lia|exact K2]]. split; [|exact Hb]. split; [exact K1| |exact K3].
  eapply Forall_impl; [exact K2|]. cbn. lia.
Qed.
Lemma step_K e : stable K (step cfg env e).
Proof.
  destruct (is_request e) eqn:E1; [|destruct (is_reply e) eqn:E2; [destruct e; try done; apply K_reply|by apply K_beside, keeps_beside, aside_step]].
  assert (∀ m : nat → M World (), (∀ n, keeps beside (m n)) → stable K (client_request m)) as Hm.
  { intros m Hm. apply K_beside. unfold client_request. apply keeps_bind; [apply _|keeps|done]. }
  pose proof (λ m path n Hn, beside_control m path n Hn) as Hc.
  assert (∀ path n, keeps beside (_control env Answer path n)) by (intros; by apply Hc).
  assert (∀ path n, keeps beside (_control env HoldAndAnswer path n)) by (intros; by apply Hc).
  assert (∀ path n, keeps beside (_control env Hangup path n)) by (intros; by apply Hc).
  assert (∀ path n, keeps beside (_control env HangupAll path n)) by (intros; by apply Hc).
  assert (∀ x path n, keeps beside (_control env (Dial x) path n)) by (intros; by apply Hc).
  assert (∀ path n, keeps beside (_control env SwapCalls path n)) by (intros; by apply Hc).
  destruct e; try done; first [apply K_tones_event | apply Hm; intros client; unfold answer, hangup, hangup_all, dial, swap, hold_and_answer; keeps].
Qed.
End keypad.

(** C33: Keypad tones stay in order: in every reachable state the requests for tones
    sent to oFono, followed by those in the queue, are in the order in which the
    clients made them, none twice; oFono plays at most one at a time, and the queue
    waits only while it plays one.  This holds whatever replies, errors and
    immediate failures occur, so a PIN reaches the phone in the order typed. *)
Theorem keypad_in_order `{CaseMapping} cfg es on :
  let w := run cfg es (World_init on) in
  StronglySorted Nat.lt (sent_tones (log w) ++ (_tone_queue (tn w)).*2) ∧
  (length (playing w) <= 1)%nat ∧ (_tone_queue (tn w) ≠ [] → length (playing w) = 1%nat).
Proof.
  intros w. assert (K w) as [[K1 _ K3] Hb].
  { subst w. unfold run. apply run_all_invariant; [|split; [by split; [constructor|constructor|]|done]].
    intros m t Hm Ht. apply list_elem_of_fmap in Hm as ([env e] & -> & _). by apply step_K. }
  split_and!; [exact K1|destruct (_tone_busy _); lia|]. intros Hne. by rewrite K3, (Hb Hne).
Qed.

(** Tones that wait for a call can reach a later one: the call ends, the next call
    gets the same id, and the queue only compares ids. *)
Definition next_call : list event :=
  [tone "1"; tone "2"; ESignal 4 (Removed (call_path "voicecall01"));
   ESignal 3 (Added (call_path "voicecall01") (Some (call_properties_of "active" "+1 555 0199"))); EReply 3 (Value VNone)].
Example tones_reach_a_later_call :
  let w := at_end (in_a_call ++ next_call) in
  (number <$> calls w, List.filter is_tones (p_request <$> pending w)) =
  ([lit "+15550199"], [Control (SendTones (lit "2")) modem_path 7]).
Proof. vm_compute. reflexivity. Qed.
