(* ===== verification/CallProgress.v ===== *)
(** * CallProgress: the bring-up of the modem never stalls.

    While the controller runs it is connected, or a timer or a request to oFono
    will call it again.  The frame [F] is what the operations on calls, tones and
    the phone status leave alone; [L0] is the consistency of the timers and the
    requests, and [moving] the progress. *)
From S2P Require Import Prelude PyStr Text Recipients CallModel PhoneStatus CallControl.

(** ** The frame *)

Record F (w w' : World) : Prop := {
  f_enabled : enabled (lc w') = enabled (lc w);
  f_running : _running (lc w') = _running (lc w);
  f_state : _state (lc w') = _state (lc w);
  f_generation : _generation (lc w') = _generation (lc w);
  f_modem : _modem (md w') = _modem (md w);
  f_in_flight : _request_in_flight (md w') = _request_in_flight (md w);
  f_discovering : _discovering (md w') = _discovering (md w);
  f_blocked : _blocked (md w') = _blocked (md w);
  f_retry : _retry_id (tm w') = _retry_id (tm w);
  f_bringup : _bringup_id (tm w') = _bringup_id (tm w);
  f_bound : _bound_path (cl w') = _bound_path (cl w);
  f_pending : pending w ⊆ pending w';
}.
#[export] Instance F_preorder : PreOrder F.
Proof. split; [by split|]. intros w1 w2 w3 [] []. split; try congruence. by etrans. Qed.
Ltac frame := split; try reflexivity; cbn; set_solver.
Lemma F_emit a : tame F (emit a). Proof. intros w. by split. Qed.
Lemma F_modify f : (∀ w, F w (f w)) → tame F (modify f). Proof. intros Hf w. apply Hf. Qed.
Lemma F_set_ph f : tame F (set_ph f). Proof. intros w. by split. Qed.
Lemma F_set_tn f : tame F (set_tn f). Proof. intros w. by split. Qed.
Lemma F_set_cl f : (∀ c, _bound_path (f c) = _bound_path c) → tame F (set_cl f).
Proof. intros Hf w. split; try done. apply Hf. Qed.
Lemma F_set_lc f : (∀ l, enabled (f l) = enabled l ∧ _running (f l) = _running l ∧ _state (f l) = _state l ∧ _generation (f l) = _generation l) → tame F (set_lc f).
Proof. intros Hf w. destruct (Hf (lc w)) as (? & ? & ? & ?). by split. Qed.
Lemma F_set_md f : (∀ m, _modem (f m) = _modem m ∧ _request_in_flight (f m) = _request_in_flight m ∧ _discovering (f m) = _discovering m ∧ _blocked (f m) = _blocked m) →
  tame F (set_md f).
Proof. intros Hf w. destruct (Hf (md w)) as (? & ? & ? & ?). by split. Qed.
Lemma F_set_tm f : (∀ t, _retry_id (f t) = _retry_id t ∧ _bringup_id (f t) = _bringup_id t) → tame F (set_tm f).
Proof. intros Hf w. destruct (Hf (tm w)) as (? & ?). by split. Qed.
Lemma F_submit r : tame F (submit r). Proof. intros w. frame. Qed.
#[local] Hint Resolve F_emit F_set_ph F_set_tn F_submit : tame.
#[local] Hint Extern 1 (tame F (set_cl _)) => apply F_set_cl; reflexivity : tame.
#[local] Hint Extern 1 (tame F (set_lc _)) => apply F_set_lc; intros ?; split_and!; reflexivity : tame.
#[local] Hint Extern 1 (tame F (set_md _)) => apply F_set_md; intros ?; split_and!; reflexivity : tame.
#[local] Hint Extern 1 (tame F (set_tm _)) => apply F_set_tm; intros ?; split_and!; reflexivity : tame.
#[local] Hint Extern 1 (tame F (modify _)) => apply F_modify; intros ?; by split : tame.

Section frame.
Context `{CaseMapping} (cfg : Config) (env : Env).

Lemma F_tick : tame F tick. Proof. unfold tick. tame. Qed.
#[local] Hint Resolve F_tick : tame.
Lemma F_watch h path b : tame F (_watch env h path b). Proof. unfold _watch. tame; frame. Qed.
Lemma F_remove m : tame F (_remove env m). Proof. unfold _remove. tame. Qed.
#[local] Hint Resolve F_watch F_remove : tame.
Lemma F_remove_all l : tame F (remove_all env l). Proof. induction l; cbn [remove_all]; tame. Qed.
#[local] Hint Resolve F_remove_all : tame.
Lemma F_remove_watches : tame F (_remove_watches env). Proof. unfold _remove_watches. tame. Qed.
Lemma F_phone_changed s : tame F (_phone_changed s). Proof. unfold _phone_changed. tame. Qed.
#[local] Hint Resolve F_remove_watches F_phone_changed : tame.
Lemma F_apply_phone f : tame F (_apply_phone f). Proof. unfold _apply_phone. tame. Qed.
Lemma F_unwatch i : tame F (_unwatch_phone env i). Proof. unfold _unwatch_phone, _cancel_phone_retry. tame. Qed.
#[local] Hint Resolve F_apply_phone F_unwatch : tame.
Lemma F_unwatch_all l : tame F (unwatch_all env l). Proof. induction l; cbn [unwatch_all]; tame. Qed.
#[local] Hint Resolve F_unwatch_all : tame.
Lemma F_drop_phone : tame F (_drop_phone_status env). Proof. unfold _drop_phone_status. tame. Qed.
Lemma F_end_calls l : tame F (end_calls l). Proof. induction l; cbn [end_calls]; unfold _emit; tame. Qed.
#[local] Hint Resolve F_drop_phone F_end_calls : tame.

(** Requests beside the bring-up. *)
Definition beside_bringup (r : request) : bool := match r with GetModems | SetModem _ _ => false | _ => true end.
Lemma F_on_error g r e : beside_bringup r = true → tame F (on_error env g r e).
Proof. intros Hr. destruct r; try done; cbn [on_error]; unfold _on_existing_calls_failed, read_phone_failed, _schedule_phone_retry; tame. Qed.
Lemma F_call r : beside_bringup r = true → tame F (_call env r).
Proof. intros Hr. pose proof (λ g e, F_on_error g r e Hr). unfold _call. tame. Qed.
#[local] Hint Extern 1 (tame F (_call _ _)) => apply F_call; reflexivity : tame.
Lemma F_watch_phone path i : tame F (_watch_phone env path i). Proof. unfold _watch_phone, _read_phone. tame. Qed.
#[local] Hint Resolve F_watch_phone : tame.
Lemma F_watch_wanted path wanted l : tame F (watch_wanted env path wanted l). Proof. induction l; cbn [watch_wanted]; tame. Qed.
#[local] Hint Resolve F_watch_wanted : tame.
Lemma F_sync_phone : tame F (_sync_phone_status env). Proof. unfold _sync_phone_status. tame. Qed.
Lemma F_maximize path : tame F (_maximize_call_volume env path). Proof. unfold _maximize_call_volume. tame. Qed.
Lemma F_watch_manager : tame F (_watch_manager env). Proof. unfold _watch_manager. tame. Qed.
Lemma F_power_down : tame F _power_down. Proof. unfold _power_down, _send_power_down. tame. Qed.
Lemma F_stale name path : tame F (set_modem_stale name path). Proof. unfold set_modem_stale, _send_power_down. tame. Qed.
#[local] Hint Resolve F_sync_phone F_maximize F_watch_manager F_power_down F_stale : tame.
Lemma F_call_property id name value : tame F (_on_call_property env id name value).
Proof. unfold _on_call_property, note_change, _emit, _calls_changed. tame. Qed.
#[local] Hint Resolve F_call_property : tame.
Lemma F_call_properties id l : tame F (call_properties env id l). Proof. induction l as [|[k v] l IH]; cbn [call_properties]; tame. Qed.
#[local] Hint Resolve F_call_properties : tame.
Lemma F_call_added path properties : tame F (_on_call_added env path properties).
Proof. unfold _on_call_added, note_change, _emit, _calls_changed. tame. Qed.
Lemma F_call_removed path : tame F (_on_call_removed env path).
Proof. unfold _on_call_removed, note_change, _emit, _calls_changed. tame. Qed.
#[local] Hint Resolve F_call_added F_call_removed : tame.
Lemma F_add_listed changed l : tame F (add_listed env changed l).
Proof. induction l as [|[[path properties]|] l IH]; cbn [add_listed]; tame. Qed.
#[local] Hint Resolve F_add_listed : tame.
Lemma F_existing l : tame F (_on_existing_calls env l). Proof. unfold _on_existing_calls. tame. Qed.
Lemma F_next_tones : tame F (_next_tones env).
Proof.
  assert (∀ q, tame F (next_tones_from env q)) as Hq by (induction q as [|[[[m i] t] c] q IH]; cbn [next_tones_from]; tame).
  unfold _next_tones. tame.
Qed.
#[local] Hint Resolve F_existing F_next_tones : tame.
Lemma F_control m path client : tame F (_control env m path client). Proof. unfold _control. tame. Qed.
Lemma F_replied m client a : tame F (control_replied env m client a). Proof. unfold control_replied. tame. Qed.
End frame.
#[local] Hint Resolve F_existing F_apply_phone F_call_added F_call_removed F_call_property F_replied F_stale F_control F_next_tones F_unwatch : tame.
#[local] Hint Extern 1 (tame F (_call _ _)) => apply F_call; reflexivity : tame.

(** ** Consistency and progress *)

(** A SetProperty for the modem in use is with oFono. *)
Definition asking (w : World) : Prop :=
  ∃ name m, _modem (md w) = Some m ∧ mkPending (SetModem name (m_path m)) (_generation (lc w)) ∈ pending w.
(** Connected: the calls of a voice-ready modem are bound. *)
Definition connected (w : World) : Prop :=
  _state (lc w) = CALLS_READY ∧ ∃ m, _modem (md w) = Some m ∧ voice_ready m = true ∧ _bound_path (cl w) = Some (m_path m).
Definition retrying (w : World) : Prop := ∃ delay, _retry_id (tm w) = Some (RetryTick, delay).
(** A READY that a conflict with bluetoothd keeps from being withdrawn. *)
Definition blocked_ready (w : World) : Prop := _blocked (md w) = true ∧ _state (lc w) = CALLS_READY.
Definition moving (w : World) : Prop :=
  connected w ∨ retrying w ∨ _bringup_id (tm w) ≠ None ∨ _discovering (md w) = true ∨ asking w ∨ blocked_ready w.

Record L0 (w : World) : Prop := {
  l_retry : match _retry_id (tm w) with
            | Some (RestartTick, _) => _running (lc w) = false ∧ enabled (lc w) = true
            | Some (RetryTick, _) => _running (lc w) = true
            | None => True
            end;
  l_off : _running (lc w) = false → _discovering (md w) = false ∧ _request_in_flight (md w) = false;
  l_enabled : enabled (lc w) = false → _running (lc w) = false;
  l_discovering : _discovering (md w) = true → mkPending GetModems (_generation (lc w)) ∈ pending w;
  l_flight : _request_in_flight (md w) = true → asking w;
  l_bringup : _bringup_id (tm w) ≠ None → _state (lc w) = CALLS_READY → _blocked (md w) = true;
}.
Definition L (w : World) : Prop := L0 w ∧ (_running (lc w) = true → moving w).

Lemma asking_F w w' : F w w' → asking w → asking w'.
Proof.
  intros HF (name & m & H1 & H2). exists name, m. rewrite (f_modem _ _ HF), (f_generation _ _ HF). split; [done|]. by apply (f_pending _ _ HF).
Qed.
Lemma L0_F w w' : F w w' → L0 w → L0 w'.
Proof.
  intros HF [H1 H2 H3 H4 H5 H6]. pose proof (asking_F _ _ HF) as Ha. destruct HF as [A1 A2 A3 A4 A5 A6 A7 A8 A9 A10 A11 A12].
  split; rewrite ?A1, ?A2, ?A3, ?A4, ?A6, ?A7, ?A8, ?A9, ?A10; auto.
Qed.
Lemma moving_F w w' : F w w' → moving w → moving w'.
Proof.
  intros HF. pose proof (asking_F _ _ HF) as Ha. destruct HF as [A1 A2 A3 A4 A5 A6 A7 A8 A9 A10 A11 A12].
  unfold moving, connected, retrying, blocked_ready. rewrite A3, A5, A7, A8, A9, A10, A11. tauto.
Qed.
Lemma L_F w w' : F w w' → L w → L w'.
Proof. intros HF [H1 H2]. split; [by apply (L0_F w)|]. rewrite (f_running _ _ HF). intros Hr. apply (moving_F w); auto. Qed.

(** A method that returns with [Q] from the states of [P]. *)
Abbreviation leads P m Q := (∀ w, P w → wp m (λ _, Q) w).
Lemma leads_then {A B} (P Q R : World → Prop) (m : M World A) (f : A → M World B) :
  leads P m Q → (∀ a, leads Q (f a) R) → leads P (m ≫= f) R.
Proof. intros Hm Hf w HP. apply wp_bind. eapply wp_mono; [by apply Hm|]. intros a w' HQ. by apply Hf. Qed.
Lemma leads_tame {A B} (P Q : World → Prop) (m : M World A) (f : A → M World B) :
  tame F m → (∀ w w', F w w' → P w → P w') → (∀ a, leads P (f a) Q) → leads P (m ≫= f) Q.
Proof. intros Hm HP Hf. apply (leads_then P P Q); [|done]. intros w Hw. eapply wp_mono; [apply Hm|]. intros a w' HF. exact (HP _ _ HF Hw). Qed.

(** The first two parts of a method, taken together. *)
Lemma wp_first_two {A B C} (m : M World A) (n : M World B) (f : B → M World C) Q w :
  wp (m ≫= λ _, n) (λ b w', wp (f b) Q w') w → wp (m ≫= λ _, n ≫= f) Q w.
Proof. unfold wp, mbind, M_bind. destruct (m w) as [[a|] w1]; [|done]. by destruct (n w1) as [[b|] w2]. Qed.

Section progress.
Context `{CaseMapping} (cfg : Config) (env : Env).

(** *** The timers *)

(** Consistent, with the retry timer free or armed for a retry, while running. *)
Definition steady (w : World) : Prop := L0 w ∧ _running (lc w) = true.
Lemma steady_F w w' : F w w' → steady w → steady w'.
Proof. intros HF [H1 H2]. split; [by apply (L0_F w)|]. by rewrite (f_running _ _ HF). Qed.
Lemma next_delay_F : tame F _next_delay. Proof. unfold _next_delay. tame. Qed.

(** Scheduling a retry makes progress. *)
Lemma L0_retry d w : L0 w → _running (lc w) = true → L0 (w <| tm ::= λ t, t <| _retry_id := Some (RetryTick, d) |> |>).
Proof. intros [H1 H2 H3 H4 H5 H6] Hr. by split. Qed.
Lemma schedule_retry_L d : leads L0 (_schedule_retry d) L.
Proof.
  intros w HL. unfold _schedule_retry. apply wp_get. destruct (negb (_running (lc w)) || is_some (_retry_id (tm w))) eqn:Eg.
  - apply wp_ret. split; [done|]. intros Hr. rewrite Hr in Eg. destruct HL as [H1 _ _ _ _ _]. right. left.
    destruct (_retry_id (tm w)) as [[[] x]|] eqn:Et; [by exists x| |done]. destruct H1. congruence.
  - apply orb_false_iff in Eg as [Hr%negb_false_iff _]. assert (∀ a, leads steady (set_tm (λ t, t <| _retry_id := Some (RetryTick, a) |>)) L) as Hs.
    { intros a w1 [H1 H2]. apply wp_modify_last. split; [by apply L0_retry|]. intros _. right. left. by exists a. }
    destruct d as [d|]; [by apply wp_bind, wp_ret, Hs|]. apply wp_bind. eapply wp_mono; [apply next_delay_F|]. intros a w1 HF.
    by apply Hs, (steady_F w).
Qed.
Lemma set_state_wp s w : wp (_set_state s) (λ _ w', F (w <| lc ::= λ l, l <| _state := s |> |>) w') w.
Proof.
  unfold _set_state. apply wp_get. destruct (bool_decide (s = _state (lc w))) eqn:Es.
  - apply wp_ret. apply bool_decide_eq_true_1 in Es. by split.
  - apply wp_bind, wp_modify_last, wp_modify_last. by split.
Qed.
(** A state other than READY. *)
Lemma set_state_L0 s : s ≠ CALLS_READY → leads L0 (_set_state s) L0.
Proof.
  intros Hs w HL. eapply wp_mono; [apply set_state_wp|]. intros ? w' HF. apply (L0_F _ _ HF). destruct HL as [H1 H2 H3 H4 H5 H6]. by split.
Qed.
Lemma L0_md w (f : Modem → Modem) : L0 w → (_modem (f (md w)) = _modem (md w)) → (_blocked (f (md w)) = _blocked (md w)) →
  (_request_in_flight (f (md w)) = true → _request_in_flight (md w) = true) → (_discovering (f (md w)) = true → _discovering (md w) = true) →
  L0 (w <| md ::= f |>).
Proof.
  intros [H1 H2 H3 H4 H5 H6] E1 E2 E3 E4. split; cbn; try done.
  - intros Hr. destruct (H2 Hr) as [Hd Hf]. split; [destruct (_discovering (f (md w))); [by rewrite E4 in Hd|done]|].
    destruct (_request_in_flight (f (md w))); [by rewrite E3 in Hf|done].
  - intros Hd. by apply H4, E4.
  - intros Hf. destruct (H5 (E3 Hf)) as (name & m & Hm & Hp). exists name, m. split; [by etrans|done].
  - by rewrite E2.
Qed.
Lemma L0_tm w (f : Timers → Timers) : L0 w → (_retry_id (f (tm w)) = None ∨ _retry_id (f (tm w)) = _retry_id (tm w)) →
  (_bringup_id (f (tm w)) = None ∨ _bringup_id (f (tm w)) = _bringup_id (tm w)) → L0 (w <| tm ::= f |>).
Proof.
  intros [H1 H2 H3 H4 H5 H6] E1 E2. split; cbn; try done; [destruct E1 as [->| ->]; done|destruct E2 as [->| ->]; done].
Qed.
Lemma L0_unbound w p : L0 w → L0 (w <| cl ::= λ c, c <| _bound_path := p |> |>).
Proof. intros [H1 H2 H3 H4 H5 H6]. by split. Qed.
Lemma L0_idle w (f : Modem → Modem) : L0 w → _bringup_id (tm w) = None → _request_in_flight (f (md w)) = false →
  (_discovering (f (md w)) = true → _discovering (md w) = true) → L0 (w <| md ::= f |>).
Proof.
  intros [H1 H2 H3 H4 H5 H6] E1 E2 E3. split; cbn; try done.
  - intros Hr. destruct (H2 Hr) as [Hd _]. split; [|done]. destruct (_discovering (f (md w))); [by rewrite E3 in Hd|done].
  - intros Hd. by apply H4, E3.
  - intros Hf. by rewrite E2 in Hf.
Qed.
Lemma L0_state w s : L0 w → _bringup_id (tm w) = None → L0 (w <| lc ::= λ l, l <| _state := s |> |>).
Proof. intros [H1 H2 H3 H4 H5 H6] E. split; cbn; done. Qed.

(** *** Failures *)

Lemma power_failed_L : leads L0 (_power_failed env) L.
Proof.
  intros w HL. unfold _power_failed. apply wp_bind, wp_modify_last, wp_bind, wp_modify_last, wp_get. set (w1 := w <| md ::= _ |> <| tm ::= _ |>).
  assert (L0 w1) as H1 by (apply L0_tm; [by apply L0_md|by right|by left]).
  assert (_bringup_id (tm w1) = None ∧ _request_in_flight (md w1) = false) as [Hb Hf] by done. clearbody w1. destruct (_ && _).
  - apply wp_bind, wp_modify_last. apply (leads_then L0 L0 L); [by apply set_state_L0|intros _; apply schedule_retry_L|].
    by apply L0_idle.
  - apply wp_bind. unfold when. destruct (_blocked (md w1)); [|by apply wp_ret, schedule_retry_L].
    apply wp_bind, wp_modify_last, wp_bind, wp_modify_last. set (w2 := w1 <| md ::= _ |> <| tm ::= _ |>).
    assert (L0 w2) as H2 by (apply L0_tm; [by apply L0_idle|by right|by right]). clearbody w2.
    eapply wp_mono; [by apply set_state_L0|]. intros ? w3 H3. by apply schedule_retry_L.
Qed.
Lemma modems_failed_L e : leads L0 (_on_modems_failed e) L.
Proof.
  unfold _on_modems_failed. apply (leads_then L0 L0 L); [intros w HL; by apply wp_modify_last, L0_md|intros _].
  destruct (_ || _); [|apply schedule_retry_L]. apply (leads_then L0 L0 L); [by apply set_state_L0|intros _; apply schedule_retry_L].
Qed.
(** The failed request was for the modem in use, or there is progress elsewhere. *)
Definition else_moving (path : ustr) (w : World) : Prop := m_path <$> _modem (md w) ≠ Some path → _running (lc w) = true → moving w.
Lemma else_moving_md path w (f : Modem → Modem) : _modem (f (md w)) = _modem (md w) → _blocked (f (md w)) = _blocked (md w) →
  _discovering (f (md w)) = _discovering (md w) → else_moving path w → else_moving path (w <| md ::= f |>).
Proof. intros E1 E2 E3 Hp. unfold else_moving, moving, connected, retrying, asking, blocked_ready. cbn. rewrite E1, E2, E3. exact Hp. Qed.
Lemma else_moving_F path w w' : F w w' → else_moving path w → else_moving path w'.
Proof. intros HF Hp. unfold else_moving. rewrite (f_modem _ _ HF), (f_running _ _ HF). intros H1 H2. apply (moving_F w); auto. Qed.
Lemma modem_failed_L name path e : leads (λ w, L0 w ∧ else_moving path w) (set_modem_failed env name path e) L.
Proof.
  intros w [HL Hp]. unfold set_modem_failed. apply wp_bind, wp_modify_last. set (w1 := w <| md ::= _ |>).
  assert (L0 w1 ∧ else_moving path w1) as [H1 Hp1] by (split; [by apply L0_md|by apply else_moving_md]). clearbody w1.
  apply wp_bind. assert (tame F (when (bool_decide (name = Powered)) (emit (PoweredFailed (public_error e))))) as He by tame.
  eapply wp_mono; [apply He|]. intros ? w2 HF. cbv beta. pose proof (L0_F _ _ HF H1) as H2. pose proof (else_moving_F _ _ _ HF Hp1) as Hp2.
  apply wp_get. unfold when. destruct (bool_decide (_ = Some path)) eqn:Em.
  - apply wp_bind, wp_modify_last. set (w3 := w2 <| tm ::= _ |>). assert (L0 w3) as H3 by (apply L0_tm; [done|by right|by left]).
    clearbody w3. destruct (bool_decide _); [by apply power_failed_L|by apply schedule_retry_L].
  - apply wp_ret. apply bool_decide_eq_false_1 in Em. split; [done|]. by apply Hp2.
Qed.

(** *** Requests *)

Lemma discover_L : leads L0 (_discover env) L.
Proof.
  intros w HL. unfold _discover. apply wp_get. destruct (_running (lc w)) eqn:Er; cbn [negb orb]; [|apply wp_ret; split; [done|congruence]].
  destruct (_discovering (md w)) eqn:Ed; [apply wp_ret; split; [done|intros _; unfold moving; tauto]|].
  apply wp_bind, wp_modify_last. unfold _call. apply wp_bind, wp_modify_last, wp_get. destruct (call_fails _ _) as [e|].
  - unfold on_error, _on_modems_failed. apply wp_bind, wp_modify_last. set (w1 := w <| md ::= _ |> <| log ::= _ |> <| md ::= _ |>).
    assert (F w w1) as HF by (by split). pose proof (L0_F _ _ HF HL) as H1. clearbody w1.
    destruct (_ || _); [|by apply schedule_retry_L]. apply (leads_then L0 L0 L); [by apply set_state_L0|intros _; apply schedule_retry_L|exact H1].
  - apply wp_modify_last. split; [|intros _; unfold moving; cbn; tauto]. destruct HL as [H1 H2 H3 H4 H5 H6]. split; cbn; try done.
    + by rewrite Er.
    + intros _. set_solver.
    + intros Hf. destruct (H5 Hf) as (name & m & Hm & Hp). exists name, m. split; [done|]. cbn. set_solver.
Qed.
(** READY is withdrawn unless blocked. *)
Definition withdrawn (w : World) : Prop := _state (lc w) = CALLS_READY → _blocked (md w) = true.
Lemma watchdog_wp w : wp _arm_bringup_watchdog (λ _ w', ∃ b, b ≠ None ∧ w' = w <| tm ::= λ t, t <| _bringup_id := b |> |>) w.
Proof.
  unfold _arm_bringup_watchdog. apply wp_get. unfold when. destruct (_bringup_id (tm w)) as [z|] eqn:Eb; cbn [is_some negb].
  - apply wp_ret. exists (Some z). split; [done|]. destruct w as [? ? [] ? ? ? ? ? ? ?]. cbn in *. by subst.
  - apply wp_modify_last. by exists (Some BRINGUP_TIMEOUT_SEC).
Qed.
Lemma L0_armed w b : L0 w → withdrawn w → L0 (w <| tm ::= λ t, t <| _bringup_id := b |> |>).
Proof. intros [H1 H2 H3 H4 H5 H6] Hw. by split. Qed.
Lemma armed_L : leads (λ w, L0 w ∧ withdrawn w) _arm_bringup_watchdog L.
Proof.
  intros w [HL Hw]. eapply wp_mono; [apply watchdog_wp|]. intros ? w' (b & Hb & ->). split; [by apply L0_armed|]. intros _. right. right. by left.
Qed.
Lemma request_property_L name : leads (λ w, L0 w ∧ withdrawn w ∧ _modem (md w) ≠ None ∧ _running (lc w) = true) (_request_modem_property env name) L.
Proof.
  intros w (HL & Hw & Hm & Hr). unfold _request_modem_property. apply wp_get. destruct (_modem (md w)) as [m|] eqn:Em; [|done].
  apply wp_bind, wp_modify_last, wp_bind. eapply wp_mono; [apply watchdog_wp|]. intros ? w1 (b & Hb & ->). cbv beta.
  unfold _call. apply wp_bind, wp_modify_last, wp_get. destruct (call_fails _ _) as [e|].
  - unfold on_error, set_modem_failed. apply wp_bind, wp_modify_last. set (w1 := w <| md ::= _ |> <| tm ::= _ |> <| log ::= _ |> <| md ::= _ |>).
    assert (L0 w1) as H1 by (destruct HL as [H1 H2 H3 H4 H5 H6]; split; cbn; try done; intros Hf; by destruct (H2 Hf)).
    assert (m_path <$> _modem (md w1) = Some (m_path m)) as Hp by (cbn; by rewrite Em). clearbody w1.
    apply wp_bind. assert (tame F (when (bool_decide (name = Powered)) (emit (PoweredFailed (public_error e))))) as He by tame.
    eapply wp_mono; [apply He|]. intros ? w2 HF. cbv beta. pose proof (L0_F _ _ HF H1) as H2. rewrite <- (f_modem _ _ HF) in Hp.
    apply wp_get. rewrite bool_decide_eq_true_2 by done. apply wp_bind, wp_modify_last. set (w3 := w2 <| tm ::= _ |>).
    assert (L0 w3) as H3 by (apply L0_tm; [done|by right|by left]). clearbody w3. destruct (bool_decide _); [by apply power_failed_L|by apply schedule_retry_L].
  - apply wp_modify_last. set (w1 := w <| md ::= _ |> <| tm ::= _ |> <| log ::= _ |> <| pending ::= _ |>).
    assert (asking w1) as Ha by (exists name, m; split; [done|cbn; set_solver]).
    split; [|intros _; unfold moving; tauto]. destruct HL as [H1 H2 H3 H4 H5 H6]. split; cbn; try done; [congruence|set_solver].
Qed.

(** *** The bring-up *)

(** Consistent and running with the modem [m], the watchdog off. *)
Definition set_up (m : ModemInfo) (w : World) : Prop := L0 w ∧ _running (lc w) = true ∧ _bringup_id (tm w) = None ∧ _modem (md w) = Some m.
Lemma set_up_F m w w' : F w w' → set_up m w → set_up m w'.
Proof. intros HF (H1 & H2 & H3 & H4). unfold set_up. rewrite (f_running _ _ HF), (f_bringup _ _ HF), (f_modem _ _ HF). split; [by apply (L0_F w)|done]. Qed.
Definition unbound (w : World) : World := w <| cl ::= λ c, c <| _bound_path := None |> |>.
Lemma unbind_F announce w : wp (_unbind env announce) (λ _ w', F (unbound w) w') w.
Proof.
  assert (∀ w w', F w w' → F (unbound w) (unbound w')) as Hu by (intros ? ? []; by split).
  unfold _unbind. apply wp_bind, wp_modify_last, wp_bind, wp_modify_last, wp_get, wp_bind, wp_modify_last. set (w1 := w <| log ::= _ |> <| lc ::= _ |> <| cl ::= _ |>).
  assert (F w w1) as H1 by (by split). clearbody w1.
  apply wp_bind. eapply wp_mono; [apply F_remove_all|]. intros ? w2 H2. apply wp_bind, wp_modify_last, wp_bind.
  eapply wp_mono; [apply F_remove_all|]. intros ? w3 H3. apply wp_bind, wp_modify_last.
  match goal with |- wp _ _ ?x => assert (F (unbound w) x) as H4 end.
  { transitivity (unbound w3); [|by split]. apply Hu. transitivity w1; [done|]. transitivity w2; [done|]. etrans; [|exact H3]. by split. }
  match goal with |- wp ?m _ ?x => assert (tame F m) as Ht by (pose proof F_end_calls; unfold _calls_changed; tame); eapply wp_mono; [apply Ht|] end.
  intros ? w5 H5. etrans; [exact H4|exact H5].
Qed.
Lemma release_F w : wp (_release_modem env) (λ _ w', F (w <| md ::= λ m, m <| _modem := None |> <| _request_in_flight := false |> <| _blocked := false |> |>
  <| tm ::= λ t, t <| _bringup_id := None |> |>) w') w.
Proof.
  unfold _release_modem. apply wp_bind. eapply wp_mono; [apply F_drop_phone|]. intros ? w1 H1. apply wp_get, wp_bind.
  eapply wp_mono; [apply F_remove|]. intros ? w2 H2. apply wp_bind, wp_modify_last, wp_modify_last.
  assert (F w w2) as [A1 A2 A3 A4 A5 A6 A7 A8 A9 A10 A11 A12] by (transitivity w1; [exact H1|exact H2]). by split.
Qed.
Lemma L0_released w : L0 w → L0 (w <| md ::= λ m, m <| _modem := None |> <| _request_in_flight := false |> <| _blocked := false |> |>
  <| tm ::= λ t, t <| _bringup_id := None |> |>).
Proof. intros [H1 H2 H3 H4 H5 H6]. split; cbn; try done. intros Hr. by destruct (H2 Hr). Qed.
Lemma retry_F d w : steady w → wp (_schedule_retry d) (λ _ w', ∃ delay, F (w <| tm ::= λ t, t <| _retry_id := Some (RetryTick, delay) |> |>) w') w.
Proof.
  intros [HL Hr]. unfold _schedule_retry. apply wp_get. rewrite Hr. destruct (_retry_id (tm w)) as [[k z]|] eqn:Et; cbn [negb is_some orb].
  - apply wp_ret. exists z. destruct k; [by split|]. destruct HL as [H1 _ _ _ _ _]. rewrite Et in H1. destruct H1. congruence.
  - destruct d as [d|]; [apply wp_bind, wp_ret, wp_modify_last; exists d; by split|].
    apply wp_bind. eapply wp_mono; [apply next_delay_F|]. intros a w1 HF. apply wp_modify_last. exists a. destruct HF. by split.
Qed.
Lemma bind_failed_up m : leads (set_up m) (bind_failed env) (λ w, set_up m w ∧ retrying w).
Proof.
  unfold bind_failed. apply leads_tame; [tame|apply set_up_F|intros w0]. apply leads_tame; [apply F_remove_all|apply set_up_F|intros _].
  apply leads_tame; [by apply F_set_cl|apply set_up_F|intros _]. intros w (H1 & H2 & H3 & H4). eapply wp_mono; [by apply retry_F|].
  intros ? w' (d & HF). split; [|exists d; by rewrite (f_retry _ _ HF)]. apply (set_up_F _ _ _ HF). split; [by apply L0_retry|done].
Qed.
Definition bound_or_retrying (m : ModemInfo) (path : ustr) (w : World) : Prop := set_up m w ∧ (_bound_path (cl w) = Some path ∨ retrying w).
Lemma bind_up m path : leads (set_up m) (_bind env path) (bound_or_retrying m path).
Proof.
  assert (∀ w, set_up m w → wp (bind_failed env) (λ _, bound_or_retrying m path) w) as Hf.
  { intros w Hw. eapply wp_mono; [by apply bind_failed_up|]. intros ? w' [H1 H2]. split; [done|by right]. }
  unfold _bind. apply (leads_then _ (set_up m)).
  { intros w (H1 & H2 & H3 & H4). eapply wp_mono; [apply unbind_F|]. intros ? w' HF. apply (set_up_F _ _ _ HF). split; [by apply L0_unbound|done]. }
  intros _. apply leads_tame; [by apply F_set_cl|apply set_up_F|intros _]. apply leads_tame; [apply F_watch|apply set_up_F|intros [x|]]; [|exact Hf].
  apply leads_tame; [by apply F_set_cl|apply set_up_F|intros _]. apply leads_tame; [apply F_watch|apply set_up_F|intros [y|]]; [|exact Hf].
  apply leads_tame; [by apply F_set_cl|apply set_up_F|intros _]. intros w Hw. apply wp_bind, wp_modify_last. set (w1 := w <| cl ::= _ |>).
  assert (set_up m w1) as H1 by (destruct Hw as (A1 & A2 & A3 & A4); split; [by apply L0_unbound|done]).
  assert (_bound_path (cl w1) = Some path) as Hb by done. clearbody w1.
  match goal with |- wp ?p _ _ => assert (tame F p) as Ht end.
  { apply tame_bind; [apply _|apply F_set_tm; by intros|intros _]. apply tame_bind; [apply _|apply tame_get, _|intros w2].
    apply tame_bind; [apply _|by apply F_call|intros _]. apply F_maximize. }
  eapply wp_mono; [apply Ht|]. intros ? w2 HF. split; [by apply (set_up_F _ w1)|]. left. by rewrite (f_bound _ _ HF).
Qed.
Lemma bring_up_L m : leads (λ w, L0 w ∧ withdrawn w ∧ _modem (md w) = Some m ∧ _running (lc w) = true) (bring_up env m) L.
Proof.
  intros w (HL & Hw & Hm & Hr). unfold bring_up. apply wp_get. destruct (_request_in_flight (md w)) eqn:Ef; cbn [orb].
  { apply wp_ret. split; [done|]. intros _. pose proof (l_flight _ HL Ef). unfold moving. tauto. }
  destruct (_retry_id (tm w)) as [[k z]|] eqn:Et; cbn [is_some].
  { apply wp_ret. split; [done|]. intros _. right. left. exists z. destruct HL as [H1 _ _ _ _ _]. rewrite Et in H1. destruct k; [done|]. destruct H1. congruence. }
  assert (_modem (md w) ≠ None) as Hm' by congruence. pose proof (armed_L w (conj HL Hw)) as Harm.
  pose proof (λ name, request_property_L name w (conj HL (conj Hw (conj Hm' Hr)))) as Hreq.
  pose proof (λ d, schedule_retry_L d w HL) as Hretry.
  destruct (powered m); cbn [negb]; [destruct (online m); cbn [negb]|]; try done; destruct (bool_decide _); try done; destruct (negb _); done.
Qed.
(** Consistent, whatever the watchdog: [_advance] settles it. *)
Definition unwatched (w : World) : World := w <| tm ::= λ t, t <| _bringup_id := None |> |>.
Definition loose (w : World) : Prop := L0 (unwatched w).
Lemma loose_F w w' : F w w' → loose w → loose w'.
Proof. intros [] HL. refine (L0_F _ _ _ HL). by split. Qed.
Lemma loose_L0 w : loose w → withdrawn w → L0 w.
Proof. intros [H1 H2 H3 H4 H5 H6] Hw. by split. Qed.
Lemma L0_loose w : L0 w → loose w.
Proof. intros HL. apply L0_tm; [done|by right|by left]. Qed.
(** [_advance] with a modem, once running; [b] and [k] are read at its start. *)
Definition advancing (m : ModemInfo) (b : option ustr) (k : bool) (w : World) : Prop :=
  loose w ∧ _running (lc w) = true ∧ _modem (md w) = Some m ∧ _bound_path (cl w) = b ∧ _blocked (md w) = k.
Lemma advancing_F m b k w w' : F w w' → advancing m b k w → advancing m b k w'.
Proof.
  intros HF (H1 & H2 & H3 & H4 & H5). unfold advancing. rewrite (f_running _ _ HF), (f_modem _ _ HF), (f_bound _ _ HF), (f_blocked _ _ HF).
  split; [by apply (loose_F w)|done].
Qed.
Lemma ready_L m b k : voice_ready m = true → leads (advancing m b k)
  (cancel_bringup;; when (negb (bool_decide (b = Some (m_path m)))) (_bind env (m_path m));;
   w ← get; (if negb (bool_decide (_bound_path (cl w) = Some (m_path m))) then _set_state CALLS_CONNECTING else _set_state CALLS_READY)) L.
Proof.
  intros Ev. apply (leads_then _ (λ w, set_up m w ∧ _bound_path (cl w) = b)).
  { intros w (H1 & H2 & H3 & H4 & _). apply wp_modify_last. split; [|done]. by split. }
  intros _. apply (leads_then _ (bound_or_retrying m (m_path m))).
  { intros w [Hw Hb]. unfold when. destruct (negb _) eqn:Eb; [by apply bind_up|]. apply wp_ret. split; [done|]. left.
    apply negb_false_iff, bool_decide_eq_true_1 in Eb. congruence. }
  intros _ w [(H1 & H2 & H3 & H4) Hb]. apply wp_get. destruct (negb _) eqn:Eb.
  - apply negb_true_iff, bool_decide_eq_false_1 in Eb. destruct Hb as [|[d Hd]]; [done|].
    eapply wp_mono; [apply set_state_wp|]. intros ? w' HF. apply (L_F _ _ HF). split; [by apply L0_state|]. intros _. right. left. by exists d.
  - apply negb_false_iff, bool_decide_eq_true_1 in Eb. eapply wp_mono; [apply set_state_wp|]. intros ? w' HF. apply (L_F _ _ HF).
    split; [by apply L0_state|]. intros _. left. split; [done|]. by exists m.
Qed.
Lemma unready_L m b k : leads (advancing m b k)
  (when (is_some b) (_unbind env true);; when (negb k) (_set_state CALLS_CONNECTING);; bring_up env m) L.
Proof.
  apply (leads_then _ (advancing m None k)).
  { intros w (H1 & H2 & H3 & H4 & H5). unfold when. destruct b as [path|]; cbn [is_some]; [|by apply wp_ret]. eapply wp_mono; [apply unbind_F|].
    intros ? w' HF. apply (advancing_F _ _ _ _ _ HF). split; [|done]. exact (L0_unbound _ None H1). }
  intros _. apply (leads_then _ (λ w, L0 w ∧ withdrawn w ∧ _modem (md w) = Some m ∧ _running (lc w) = true)); [|intros _; apply bring_up_L].
  intros w (H1 & H2 & H3 & H4 & H5). assert (∀ w', withdrawn w' → loose w' → _modem (md w') = Some m → _running (lc w') = true →
    L0 w' ∧ withdrawn w' ∧ _modem (md w') = Some m ∧ _running (lc w') = true) as Hp by (intros w' ? ?; split; [by apply loose_L0|done]).
  unfold when. destruct k; cbn [negb]; [apply wp_ret, Hp; try done; by intros _|]. eapply wp_mono; [apply set_state_wp|].
  intros ? w' HF. apply Hp; [unfold withdrawn; by rewrite (f_state _ _ HF)| |by rewrite (f_modem _ _ HF)|by rewrite (f_running _ _ HF)].
  apply (loose_F _ _ HF). by apply (L0_state (unwatched w)).
Qed.
Lemma advance_from m w b k : advancing m b k w → wp
  (when (powered m) (set_md (λ x, x <| _powered_path := Some (m_path m) |>));; _sync_phone_status env;;
   if voice_ready m then
     cancel_bringup;; when (negb (bool_decide (b = Some (m_path m)))) (_bind env (m_path m));;
     w ← get; (if negb (bool_decide (_bound_path (cl w) = Some (m_path m))) then _set_state CALLS_CONNECTING else _set_state CALLS_READY)
   else when (is_some b) (_unbind env true);; when (negb k) (_set_state CALLS_CONNECTING);; bring_up env m) (λ _, L) w.
Proof.
  revert w. apply (leads_tame (advancing m b k) L); [apply tame_when; [apply _|apply F_set_md; by intros]|apply advancing_F|intros _].
  apply (leads_tame (advancing m b k) L); [apply F_sync_phone|apply advancing_F|intros _].
  destruct (voice_ready m) eqn:Ev; [by apply ready_L|apply unready_L].
Qed.
Lemma advance_L : leads (λ w, loose w ∧ (_modem (md w) = None ∨ _running (lc w) = false → L w)) (_advance env) L.
Proof.
  intros w [HL Hnone]. unfold _advance. apply wp_get. destruct (_modem (md w)) as [m|] eqn:Em; [|apply wp_ret, Hnone; by left].
  destruct (_running (lc w)) eqn:Er; cbn [negb]; [|apply wp_ret, Hnone; by right].
  apply (advance_from m w (_bound_path (cl w)) (_blocked (md w))); done.
Qed.

(** *** Replies of oFono *)

Lemma moving_md w (f : Modem → Modem) : _modem (f (md w)) = _modem (md w) → _blocked (f (md w)) = _blocked (md w) →
  _discovering (f (md w)) = _discovering (md w) → moving w → moving (w <| md ::= f |>).
Proof. intros E1 E2 E3 Hm. unfold moving, connected, retrying, asking, blocked_ready. cbn. rewrite E1, E2, E3. exact Hm. Qed.
(** The request that was answered is no longer in flight. *)
Definition landed (w : World) : Prop := L0 (w <| md ::= λ m, m <| _request_in_flight := false |> |>).
Definition undiscovering (w : World) : Prop := L0 (w <| md ::= λ m, m <| _discovering := false |> |>).
Lemma done_L name path : leads (λ w, landed w ∧ (_modem (md w) = None → _running (lc w) = true → moving w)) (set_modem_done env name path) L.
Proof.
  intros w [HL Hn]. unfold set_modem_done. apply wp_bind, wp_modify_last, wp_bind, wp_modify_last. set (w1 := w <| log ::= _ |> <| md ::= _ |>).
  assert (L0 w1) as H1 by (refine (L0_F _ _ _ HL); by split).
  assert (_modem (md w1) = None → _running (lc w1) = true → moving w1) as Hn1.
  { intros H2 H3. refine (moving_md (w <| log ::= _ |>) _ _ _ _ _); try done. apply (moving_F w); [by split|]. by apply Hn. }
  clearbody w1. apply wp_bind. assert (tame F (when (bool_decide (name = Powered)) (set_md (λ m, m <| _powered_path := Some path |>)))) as Ht by tame.
  eapply wp_mono; [apply Ht|]. intros ? w2 HF. cbv beta. apply advance_L. pose proof (L0_F _ _ HF H1) as H2. split; [by apply L0_loose|].
  intros Ho. split; [done|]. intros Hr. destruct Ho as [Ho|Ho]; [|congruence]. apply (moving_F _ _ HF). apply Hn1; [by rewrite <- (f_modem _ _ HF)|by rewrite <- (f_running _ _ HF)].
Qed.
Lemma timeout_L : leads (λ w, L0 w ∧ _bringup_id (tm w) ≠ None) (_bringup_timeout env) L.
Proof.
  intros w [HL Hb]. unfold _bringup_timeout. apply wp_bind, wp_modify_last, wp_get. set (w1 := w <| tm ::= _ |>).
  assert (L0 w1) as H1 by (apply L0_tm; [done|by right|by left]). unfold when.
  destruct (_running (lc w1)) eqn:Er; [|apply wp_ret; split; [done|congruence]]. destruct (bool_decide _) eqn:Es; cbn [negb andb].
  - apply wp_ret. split; [done|]. intros _. apply bool_decide_eq_true_1 in Es. do 5 right. split; [|done]. by apply (l_bringup _ HL).
  - clearbody w1. apply wp_bind, wp_modify_last. match goal with |- wp (if ?c then _ else _) _ ?x => assert (L0 x) as H2 by (by apply L0_md); destruct c end;
      [by apply power_failed_L|by apply schedule_retry_L].
Qed.
Lemma L0_set_modem w m : L0 w → (_request_in_flight (md w) = true → m_path <$> _modem (md w) = Some (m_path m)) →
  L0 (w <| md ::= λ x, x <| _modem := Some m |> |>).
Proof.
  intros [H1 H2 H3 H4 H5 H6] Hm. split; cbn; try done. intros Hf. destruct (H5 Hf) as (name & m' & Hm' & Hp).
  exists name, m. split; [done|]. cbn. specialize (Hm Hf). rewrite Hm' in Hm. injection Hm as Hm. by rewrite <- Hm.
Qed.
Lemma drop_L0 announce : leads L0 (_unbind env announce;; _release_modem env) (λ w, L0 w ∧ _modem (md w) = None ∧ _request_in_flight (md w) = false).
Proof.
  apply (leads_then _ L0).
  - intros w HL. eapply wp_mono; [apply unbind_F|]. intros ? w' HF. by apply (L0_F _ _ HF), L0_unbound.
  - intros _ w HL. eapply wp_mono; [apply release_F|]. intros ? w' HF. rewrite (f_modem _ _ HF), (f_in_flight _ _ HF).
    split; [|done]. by apply (L0_F _ _ HF), L0_released.
Qed.
Lemma adopt_L m : leads L0 (_adopt env m) L.
Proof.
  intros w HL. unfold _adopt. apply wp_get, wp_bind.
  assert (∀ (b : bool) w', (if b then L0 w' ∧ (_request_in_flight (md w') = true → m_path <$> _modem (md w') = Some (m_path m)) else L w') →
    wp (if negb b then mret () else set_md (λ s, s <| _modem := Some m |>);; when (powered m) (emit PoweredOk);; _advance env) (λ _, L) w') as Hrest.
  { intros [] w1; cbn [negb]; [|intros HL1; by apply wp_ret]. intros [H1 H2]. apply wp_bind, wp_modify_last. set (w2 := w1 <| md ::= _ |>).
    assert (L0 w2) as H3 by (by apply L0_set_modem). assert (_modem (md w2) = Some m) as Hm by done. clearbody w2. apply wp_bind.
    assert (tame F (when (powered m) (emit PoweredOk))) as Ht by tame. eapply wp_mono; [apply Ht|]. intros ? w3 HF. cbv beta. apply advance_L.
    pose proof (L0_F _ _ HF H3) as H4. split; [by apply L0_loose|]. rewrite (f_modem _ _ HF). intros [Hn|Hr]; [congruence|]. split; [done|congruence]. }
  eapply wp_mono; [|exact Hrest]. destruct (bool_decide _) eqn:Ep.
  - apply wp_ret. apply bool_decide_eq_true_1 in Ep. done.
  - apply wp_first_two.
    eapply wp_mono; [by apply drop_L0|]. intros ? w1 (H1 & H2 & H3). apply wp_bind. eapply wp_mono; [apply F_watch|]. intros [x|] w2 HF; cbv beta iota.
    + apply wp_bind, wp_modify_last, wp_ret. split; [apply L0_md; try done; by apply (L0_F _ _ HF)|].
      intros Hf. change (_request_in_flight (md w2) = true) in Hf. rewrite (f_in_flight _ _ HF) in Hf. congruence.
    + apply wp_bind. eapply wp_mono; [apply schedule_retry_L; by apply (L0_F _ _ HF)|]. intros ? w3 HL3. by apply wp_ret.
Qed.
Lemma modems_L l : leads undiscovering (_on_modems cfg env l) L.
Proof.
  intros w HL. unfold _on_modems. apply wp_bind, wp_modify_last. set (w1 := w <| md ::= _ |>). assert (L0 w1) as H1 by done. clearbody w1.
  destruct (select_modem _ _ _) as [m|]; [by apply adopt_L|]. apply wp_get. apply wp_bind.
  enough (wp (when (is_some (_modem (md w1))) (_unbind env true;; _release_modem env)) (λ _, L0) w1) as Hd.
  { eapply wp_mono; [exact Hd|]. intros ? w3 H3. cbv beta in *. revert w3 H3. apply (leads_then L0 L0 L); [by apply set_state_L0|intros _; apply schedule_retry_L]. }
  unfold when. destruct (is_some _); [|by apply wp_ret]. eapply wp_mono; [by apply drop_L0|]. by intros ? w3 [].
Qed.
Lemma cancel_retry_L0 : leads L0 cancel_retry L0.
Proof. intros w HL. apply wp_modify_last, L0_tm; [done|by left|by right]. Qed.
Lemma modem_added_L path properties : leads L (_on_modem_added cfg env path properties) L.
Proof.
  intros w HL. unfold _on_modem_added. destruct (parse_modem _ _) as [m|]; [|by apply wp_ret]. apply wp_get.
  match goal with |- wp (if ?c then _ else _) _ _ => destruct c end; [by apply wp_ret|].
  destruct (select_modem _ _ _) as [c|]; [|by apply wp_ret]. unfold when. destruct (bool_decide _); [|by apply wp_ret].
  destruct HL as [HL _]. revert w HL. apply (leads_then L0 L0 L); [apply cancel_retry_L0|intros _; apply adopt_L].
Qed.
Lemma modem_removed_L path : leads L (_on_modem_removed env path) L.
Proof.
  intros w HL. unfold _on_modem_removed. apply wp_get. destruct (negb _); [by apply wp_ret|]. destruct HL as [HL _]. revert w HL.
  apply (leads_tame L0 L); [apply F_set_md; by intros|apply L0_F|intros _]. intros w HL. apply wp_first_two. eapply wp_mono; [by apply drop_L0|].
  intros ? w1 [H1 _]. cbv beta. revert w1 H1. apply (leads_then L0 L0 L); [by apply set_state_L0|intros _].
  apply (leads_tame L0 L); [apply F_set_tm; by intros|apply L0_F|intros _]. apply schedule_retry_L.
Qed.

(** *** The properties of the modem *)

Lemma updated_path m name value : m_path (updated m name value) = m_path m.
Proof. unfold updated. by repeat destruct (bool_decide _). Qed.
Lemma updated_other m name value : name ∉ lit <$> ["Powered"; "Online"; "Interfaces"] →
  let m' := updated m name value in powered m' = powered m ∧ online m' = online m ∧ voice_ready m' = voice_ready m.
Proof.
  intros Hn. unfold updated, voice_ready. cbn in Hn. apply not_elem_of_cons in Hn as [H1 Hn]. apply not_elem_of_cons in Hn as [H2 Hn].
  apply not_elem_of_cons in Hn as [H3 _]. rewrite !bool_decide_eq_false_2 by done. by destruct (bool_decide _).
Qed.
Lemma moving_set_modem w m m' : _modem (md w) = Some m → m_path m' = m_path m → voice_ready m' = voice_ready m → moving w →
  moving (w <| md ::= λ x, x <| _modem := Some m' |> |>).
Proof.
  intros Hm Hp Hv [Hc|[Hr|[Hb|[Hd|[Ha|Hk]]]]]; unfold moving; cbn; try tauto.
  - left. destruct Hc as [Hs (m1 & Hm1 & Hv1 & Hb)]. split; [done|]. exists m'. cbn. assert (m1 = m) as -> by congruence. rewrite Hv, Hp. done.
  - do 4 right. left. destruct Ha as (name & m1 & Hm1 & Hin). exists name, m'. split; [done|]. cbn. assert (m1 = m) as -> by congruence. by rewrite Hp.
Qed.
Lemma modem_property_L name value : leads (λ w, L w ∧ _running (lc w) = true) (_on_modem_property env name value) L.
Proof.
  intros w [HL Hr]. unfold _on_modem_property. apply wp_get. destruct (_modem (md w)) as [previous|] eqn:Em; [|by apply wp_ret].
  apply wp_bind, wp_modify_last. set (m := updated previous name value). set (w1 := w <| md ::= _ |>).
  assert (L0 w1) as H1. { destruct HL as [HL _]. apply L0_set_modem; [done|]. intros _. rewrite Em. unfold m. by rewrite updated_path. }
  set (named := bool_decide (name ∈ lit <$> ["Powered"; "Online"; "Interfaces"])).
  set (progressed := _ || _ || _). assert (named = false → L w1 ∧ progressed = false) as Hother.
  { intros Hn. apply bool_decide_eq_false_1 in Hn. destruct (updated_other previous name value Hn) as (E1 & E2 & E3). split.
    - split; [done|]. intros _. apply (moving_set_modem w previous); [done|apply updated_path|done|]. by apply HL.
    - unfold progressed, m. rewrite E1, E2, E3. by destruct (powered previous), (online previous), (voice_ready previous). }
  assert (_running (lc w1) = true) as Hr1 by done. assert (_modem (md w1) = Some m) as Hm1 by done. clearbody w1 named progressed. clear HL Hr Em w.
  set (P := λ w, L0 w ∧ (named = false → L w ∧ progressed = false) ∧ _running (lc w) = true ∧ _modem (md w) = Some m).
  assert (P w1) as HP by done. assert (∀ w w', F w w' → P w → P w') as PF.
  { intros w2 w3 HF (A1 & A2 & A3 & A4). unfold P. rewrite (f_running _ _ HF), (f_modem _ _ HF). split_and!; [by apply (L0_F w2)| |done|done].
    intros Hn. destruct (A2 Hn). split; [by apply (L_F w2)|done]. }
  clear H1 Hother Hr1 Hm1. revert w1 HP. apply (leads_tame P L); [|exact PF|intros _].
  { destruct (negb (powered m)); [apply F_set_md; by intros|]. destruct (negb (online m)); [apply F_set_md; by intros|apply tame_ret, _]. }
  cbv zeta. apply (leads_tame P L); [apply tame_when; [apply _|apply F_emit]|exact PF|intros _].
  intros w (H1 & H2 & H3 & H4). unfold when. destruct progressed.
  - destruct named; [|by destruct (H2 eq_refl)]. apply wp_bind, wp_bind, wp_modify_last, wp_bind, wp_modify_last, wp_modify_last.
    apply advance_L. split; [|intros [Hn|Hn]; cbn in Hn; congruence]. unfold loose. destruct H1 as [K1 K2 K3 K4 K5 K6]. by split.
  - apply wp_bind, wp_ret. destruct named; [|apply wp_ret; by apply H2]. apply advance_L. split; [by apply L0_loose|].
    intros [Hn|Hn]; congruence.
Qed.

(** *** The life of the controller *)

(** No timer, no request and no modem in use: consistent by itself. *)
Definition blank (w : World) : Prop :=
  _retry_id (tm w) = None ∧ _bringup_id (tm w) = None ∧ _discovering (md w) = false ∧ _request_in_flight (md w) = false ∧
  (enabled (lc w) = false → _running (lc w) = false).
Lemma blank_L0 w : blank w → L0 w.
Proof. intros (H1 & H2 & H3 & H4 & H5). split; rewrite ?H1, ?H2, ?H3, ?H4; done. Qed.
Lemma blank_F w w' : F w w' → blank w → blank w'.
Proof.
  intros HF. unfold blank. rewrite (f_retry _ _ HF), (f_bringup _ _ HF), (f_discovering _ _ HF), (f_in_flight _ _ HF), (f_enabled _ _ HF), (f_running _ _ HF). done.
Qed.
(** What is left when the modem was dropped with the timers off. *)
Definition emptied (r : bool) (w : World) : Prop :=
  _retry_id (tm w) = None ∧ _bringup_id (tm w) = None ∧ (enabled (lc w) = false → _running (lc w) = false) ∧ _running (lc w) = r.
Lemma emptied_F r w w' : F w w' → emptied r w → emptied r w'.
Proof. intros HF. unfold emptied. by rewrite (f_retry _ _ HF), (f_bringup _ _ HF), (f_enabled _ _ HF), (f_running _ _ HF). Qed.
Lemma emptied_unbind r announce : leads (emptied r) (_unbind env announce) (emptied r).
Proof. intros w Hw. eapply wp_mono; [apply unbind_F|]. intros ? w' HF. by apply (emptied_F _ _ _ HF). Qed.
Lemma owner_L present : leads L (_on_owner_changed env present) L.
Proof.
  intros w HL. unfold _on_owner_changed. apply wp_get. destruct (_running (lc w)) eqn:Er; cbn [negb]; [|by apply wp_ret].
  apply wp_bind, wp_modify_last, wp_bind, wp_modify_last, wp_bind, wp_modify_last, wp_bind, wp_modify_last.
  set (w1 := w <| lc ::= _ |> <| md ::= _ |> <| tm ::= _ |> <| tm ::= _ |>).
  assert (emptied true w1) as H1 by (destruct HL as [[_ _ He _ _ _] _]; done). clearbody w1. revert w1 H1.
  apply (leads_then _ (emptied true)); [apply emptied_unbind|intros _]. apply (leads_then _ (emptied true)).
  { intros w1 (H1 & H2 & H3 & H4). eapply wp_mono; [apply release_F|]. intros ? w2 HF. by apply (emptied_F _ _ _ HF). }
  intros _. apply (leads_then _ blank). { intros w1 (H1 & H2 & H3 & H4). by apply wp_modify_last. }
  intros _. apply (leads_tame blank L); [apply F_set_tm; by intros|apply blank_F|intros _].
  apply (leads_tame blank L); [apply F_remove_all|apply blank_F|intros _].
  apply (leads_tame blank L); [apply F_set_lc; by intros|apply blank_F|intros _].
  apply (leads_tame blank L); [apply F_watch_manager|apply blank_F|intros _]. intros w1 H1%blank_L0. revert w1 H1.
  destruct present; (apply (leads_then L0 L0 L); [by apply set_state_L0|intros _]); [apply discover_L|apply schedule_retry_L].
Qed.
Definition stopped (w : World) : Prop := blank w ∧ _running (lc w) = false.
Lemma stopped_F w w' : F w w' → stopped w → stopped w'.
Proof. intros HF [H1 H2]. split; [by apply (blank_F w)|]. by rewrite (f_running _ _ HF). Qed.
Lemma stopped_L w : stopped w → L w.
Proof. intros [H1 H2]. split; [by apply blank_L0|congruence]. Qed.
Lemma stop_stopped : leads (λ _, True) (stop env) stopped.
Proof.
  intros w _. unfold stop. apply wp_bind, wp_modify_last, wp_bind, wp_modify_last, wp_bind, wp_modify_last, wp_bind, wp_modify_last,
    wp_bind, wp_modify_last, wp_bind, wp_modify_last.
  match goal with |- wp _ _ ?x => assert (emptied false x ∧ _discovering (md x) = false) as Hx by done; revert Hx; generalize x end.
  apply (leads_then _ (λ w, emptied false w ∧ _discovering (md w) = false)).
  { intros w1 [H1 H2]. eapply wp_mono; [apply unbind_F|]. intros ? w2 HF. split; [by apply (emptied_F _ _ _ HF)|by rewrite (f_discovering _ _ HF)]. }
  intros _. apply (leads_then _ (λ w, emptied false w ∧ _discovering (md w) = false)).
  { intros w1 [H1 H2]. eapply wp_mono; [apply F_power_down|]. intros ? w2 HF. split; [by apply (emptied_F _ _ _ HF)|by rewrite (f_discovering _ _ HF)]. }
  intros _. apply (leads_then _ stopped).
  { intros w1 [(H1 & H2 & H3 & H4) H5]. eapply wp_mono; [apply release_F|]. intros ? w2 HF. apply (stopped_F _ _ HF). by split. }
  intros _ w1 H1. eapply wp_mono; [apply F_remove_watches|]. intros ? w2 HF. by apply (stopped_F _ _ HF).
Qed.
Lemma start_L : leads (λ w, L w ∧ (_running (lc w) = false → _retry_id (tm w) = None)) (start env) L.
Proof.
  intros w [HL Hn]. unfold start. apply wp_get. destruct (enabled (lc w)) eqn:Ee; cbn [negb orb]; [|by apply wp_ret].
  destruct (_running (lc w)) eqn:Er; [by apply wp_ret|]. specialize (Hn eq_refl). apply wp_bind, wp_modify_last.
  set (w1 := w <| lc ::= _ |>). destruct HL as [[K1 K2 K3 K4 K5 K6] _]. destruct (K2 Er) as [Kd Kf].
  set (P := λ w, L0 w ∧ _running (lc w) = true ∧ enabled (lc w) = true ∧ _retry_id (tm w) = None ∧ _discovering (md w) = false ∧ _request_in_flight (md w) = false).
  assert (P w1) as H1. { unfold P. split; [|done]. split; cbn; rewrite ?Hn, ?Kd, ?Kf; try done. congruence. }
  assert (∀ w w', F w w' → P w → P w') as PF.
  { intros w2 w3 HF (A1 & A2 & A3 & A4 & A5 & A6). unfold P. rewrite (f_running _ _ HF), (f_enabled _ _ HF), (f_retry _ _ HF), (f_discovering _ _ HF), (f_in_flight _ _ HF).
    split; [by apply (L0_F w2)|done]. }
  clearbody w1. clear Hn K1 K2 K3 K4 K5 K6 Kd Kf Ee Er w. revert w1 H1. apply (leads_tame P L); [|exact PF|intros watched].
  { destruct (owner_watch_fails env); [apply tame_ret, _|]. apply tame_bind; [apply _|by apply F_set_lc|intros _; apply F_watch_manager]. }
  destruct watched; cbn [negb]; [intros w1 [H1 _]; by apply discover_L|].
  apply (leads_tame P L); [apply F_remove_watches|exact PF|intros _]. intros w1 (H1 & H2 & H3 & H4 & H5 & H6). apply wp_bind.
  eapply wp_mono; [apply set_state_wp|]. intros ? w2 HF. apply wp_bind, wp_modify_last. unfold _schedule_restart. apply wp_get.
  change (_retry_id (tm (w2 <| lc ::= _ |>))) with (_retry_id (tm w2)). rewrite (f_retry _ _ HF). change (_retry_id (tm (w1 <| lc ::= _ |>))) with (_retry_id (tm w1)).
  rewrite H4. cbn [is_some negb when]. apply wp_modify_last. split; [|cbn; congruence].
  assert (enabled (lc w2) = true) as He by (by rewrite (f_enabled _ _ HF)). assert (_discovering (md w2) = false) as Hd by (by rewrite (f_discovering _ _ HF)).
  assert (_request_in_flight (md w2) = false) as Hf by (by rewrite (f_in_flight _ _ HF)). assert (_state (lc w2) = CALLS_UNAVAILABLE) as Hs by (by rewrite (f_state _ _ HF)).
  split; cbn; try done; congruence.
Qed.
Lemma set_enabled_L b : leads L (set_enabled env b) L.
Proof.
  intros w HL. unfold set_enabled. apply wp_get. destruct (Bool.eqb _ _) eqn:Eb; [by apply wp_ret|]. destruct b.
  - apply wp_bind, wp_modify_last. destruct (enabled (lc w)) eqn:Ee; [done|]. destruct HL as [[K1 K2 K3 K4 K5 K6] _]. specialize (K3 Ee).
    assert (_retry_id (tm w) = None) as Hn. { destruct (_retry_id (tm w)) as [[[] z]|]; [congruence|destruct K1; congruence|done]. }
    set (w1 := w <| lc ::= _ |>). assert (L0 w1) as H1 by (split; cbn; rewrite ?Hn; done).
    apply wp_bind. pose proof (wp_both _ _ _ _ (set_state_L0 CALLS_UNAVAILABLE ltac:(done) w1 H1) (set_state_wp CALLS_UNAVAILABLE w1)) as Hs.
    eapply wp_mono; [exact Hs|]. intros ? w2 [HL2 HF]. apply start_L. rewrite (f_retry _ _ HF). split; [|by intros _]. split; [done|].
    rewrite (f_running _ _ HF). cbn. congruence.
  - apply wp_bind. eapply wp_mono; [apply unbind_F|]. intros ? w1 _. apply wp_bind. eapply wp_mono; [by apply stop_stopped|].
    intros ? w2 [(H1 & H2 & H3 & H4 & H5) H6]. apply wp_bind, wp_modify_last. eapply wp_mono; [apply set_state_wp|]. intros ? w3 HF.
    apply (L_F _ _ HF), stopped_L. by split.
Qed.
Lemma poke_L : leads L (poke env) L.
Proof.
  unfold poke. intros w HL. apply wp_get, wp_bind, wp_modify_last. set (w1 := w <| md ::= _ |>). assert (L w1) as H1 by (apply (L_F w); [by split|done]).
  unfold when. match goal with |- wp (if ?c then _ else _) _ _ => destruct c eqn:Ec end; [|by apply wp_ret].
  apply andb_true_iff in Ec as [Ec _]. apply andb_true_iff in Ec as [Ec Es%bool_decide_eq_true_1]. apply andb_true_iff in Ec as [_ Em].
  apply wp_bind, wp_modify_last, wp_bind, wp_modify_last, wp_bind, wp_modify_last. apply advance_L. destruct H1 as [[K1 K2 K3 K4 K5 K6] _].
  split; [by split|]. cbn. intros [Hn|Hr]; [by rewrite Hn in Em|]. split; [|cbn; congruence]. split; cbn; try done.
  intros Hb Hs. cbn in Es. rewrite Hs in Es. by apply list_elem_of_In in Es as [|[|[]]].
Qed.

(** *** Every event *)

Lemma elem_of_delete (p q : Pending) (i : nat) (l : list Pending) : q ∈ l → l !! i = Some p → q ≠ p → q ∈ delete i l.
Proof.
  intros Hq Hp Hne. rewrite <- (take_drop_middle _ _ _ Hp) in Hq. rewrite delete_take_drop. set_solver.
Qed.
(** The request [p] is taken from those oFono has not answered. *)
Section taken.
Context (i : nat) (p : Pending) (w : World) (Hp : pending w !! i = Some p) (HL : L w).
Let w1 := w <| pending ::= delete i |>.
Lemma taken_asking : (∀ name path, p ≠ mkPending (SetModem name path) (_generation (lc w))) ∨
  (∀ name m, _modem (md w) = Some m → p ≠ mkPending (SetModem name (m_path m)) (_generation (lc w))) → asking w → asking w1.
Proof.
  intros Hne (name & m & Hm & Hin). exists name, m. split; [done|]. apply (elem_of_delete p); [done|done|]. destruct Hne as [Hne|Hne]; intros <-; by eapply Hne.
Qed.
Lemma taken_other : p_generation p ≠ _generation (lc w) ∨ beside_bringup (p_request p) = true → L w1.
Proof.
  intros Hb. assert (asking w → asking w1) as Ha by (apply taken_asking; left; intros name path ->; by destruct Hb).
  destruct HL as [[K1 K2 K3 K4 K5 K6] Hm]. split.
  - split; try done; [|by intros Hf; apply Ha, K5]. intros Hd. apply (elem_of_delete p); [by apply K4|done|]. intros <-. by destruct Hb.
  - intros Hr. specialize (Hm Hr). unfold moving in *. destruct Hm as [?|[?|[?|[?|[?|?]]]]]; auto 10.
Qed.
Lemma taken_modems g : p = mkPending GetModems g → undiscovering w1.
Proof.
  intros Hpe. assert (asking w → asking w1) as Ha by (apply taken_asking; left; intros name path; rewrite Hpe; discriminate).
  destruct HL as [[K1 K2 K3 K4 K5 K6] _]. split; cbn; try done; intros Hr; [by destruct (K2 Hr)|by apply Ha, K5].
Qed.
Lemma taken_set name path g : p = mkPending (SetModem name path) g → landed w1 ∧ else_moving path w1.
Proof.
  intros Hpe. destruct HL as [[K1 K2 K3 K4 K5 K6] Hm]. split.
  - split; cbn; try done; [intros Hr; by destruct (K2 Hr)|]. intros Hd. apply (elem_of_delete p); [by apply K4|done|]. by rewrite Hpe.
  - intros Hne Hr. assert (asking w → asking w1) as Ha.
    { apply taken_asking. right. intros name' m Hm' Heq. rewrite Hpe in Heq. apply Hne. change (_modem (md w1)) with (_modem (md w)). rewrite Hm'. cbn. congruence. }
    specialize (Hm Hr). unfold moving in *. destruct Hm as [?|[?|[?|[?|[?|?]]]]]; auto 10.
Qed.
End taken.

Lemma failed_L e : leads undiscovering (_on_modems_failed e) L.
Proof.
  intros w HL. unfold _on_modems_failed. apply wp_bind, wp_modify_last. set (w1 := w <| md ::= _ |>). assert (L0 w1) as H1 by done. clearbody w1.
  destruct (_ || _); [|by apply schedule_retry_L]. revert w1 H1. apply (leads_then L0 L0 L); [by apply set_state_L0|intros _; apply schedule_retry_L].
Qed.
Lemma set_failed_L name path e : leads (λ w, landed w ∧ else_moving path w) (set_modem_failed env name path e) L.
Proof.
  intros w [HL Hp]. set (w1 := w <| md ::= λ m, m <| _request_in_flight := false |> |>).
  assert (else_moving path w1) as Hp1 by (by apply else_moving_md). pose proof (modem_failed_L name path e w1 (conj HL Hp1)) as Hm.
  exact Hm.
Qed.
Lemma answered_L p a w i : L w → pending w !! i = Some p → wp (answered cfg env p a) (λ _, L) (w <| pending ::= delete i |>).
Proof.
  intros HL Hp. unfold answered. apply wp_get. set (w1 := w <| pending ::= delete i |>). change (_generation (lc w1)) with (_generation (lc w)).
  pose proof (taken_other i p w Hp HL) as Hother. fold w1 in Hother.
  assert (∀ (m : M World ()), tame F m → L w1 → wp m (λ _, L) w1) as Ht.
  { intros m Hm HL1. eapply wp_mono; [apply Hm|]. intros ? w2 HF. by apply (L_F _ _ HF). }
  destruct (p_generation p =? _generation (lc w)) eqn:Eg; [|].
  - apply Z.eqb_eq in Eg. destruct p as [r g]. cbn [p_request p_generation] in *. subst g. destruct r as [|name path|path cg|name path|path i' token retry|m path n].
    + pose proof (taken_modems i _ w Hp HL _ eq_refl) as Hu. destruct a; try (by apply modems_L). by apply failed_L.
    + destruct (taken_set i _ w Hp HL _ _ _ eq_refl) as [H1 H2]. assert (_modem (md w1) = None → _running (lc w1) = true → moving w1) as Hn.
      { intros Hn. apply H2. change (m_path <$> _modem (md w1) ≠ Some path). by rewrite Hn. }
      destruct a; try (by apply done_L). by apply set_failed_L.
    + specialize (Hother (or_intror eq_refl)). destruct a; apply Ht; try done; try (apply F_on_error; reflexivity); cbn [on_reply]; tame.
    + specialize (Hother (or_intror eq_refl)). destruct a; apply Ht; try done; try (apply F_on_error; reflexivity); cbn [on_reply]; tame.
    + specialize (Hother (or_intror eq_refl)). destruct a; apply Ht; try done; try (apply F_on_error; reflexivity); cbn [on_reply]; tame.
    + specialize (Hother (or_intror eq_refl)). apply Ht; [|done]. apply F_replied.
  - apply Z.eqb_neq in Eg. specialize (Hother (or_introl Eg)). apply Ht; [|done]. destruct (p_request p); try (apply tame_ret, _).
    + destruct a; first [apply F_stale|apply tame_ret, _].
    + apply F_replied.
Qed.

Lemma L_tame {A} (m : M World A) w : tame F m → L w → L (m w).2.
Proof. intros Hm HL. exact (L_F _ _ (tame_keeps F m Hm w) HL). Qed.
Lemma L_leads (P : World → Prop) (m : M World ()) w : leads P m L → P w → L (m w).2.
Proof. intros Hm HP. by apply wp_snd, Hm. Qed.
Lemma handle_L h s : leads (λ w, L w ∧ _running (lc w) = true) (handle cfg env h s) L.
Proof.
  assert (∀ m : M World (), tame F m → leads (λ w, L w ∧ _running (lc w) = true) m L) as Ht.
  { intros m Hm w [HL _]. eapply wp_mono; [apply Hm|]. intros ? w' HF. by apply (L_F _ _ HF). }
  destruct h, s; cbn [handle]; try (apply Ht; solve [tame]).
  - intros w [HL _]. by apply modem_added_L.
  - intros w [HL _]. by apply modem_removed_L.
  - apply modem_property_L.
Qed.
Lemma delivered_L x s w : L w → L (delivered cfg env x s w).2.
Proof.
  intros HL. apply wp_snd. unfold delivered. apply wp_get. unfold when. destruct (passes _ _ _) eqn:Ep; [|by apply wp_ret].
  apply handle_L. split; [done|]. unfold passes in Ep. apply andb_true_iff in Ep as [Ep _]. by apply andb_true_iff in Ep as [Ep _].
Qed.
Lemma retry_L w : L w → L (step cfg env ERetry w).2.
Proof.
  intros HL. apply wp_snd. apply wp_get. destruct (_retry_id (tm w)) as [[[] z]|] eqn:Et; [| |by apply wp_ret].
  - apply wp_bind, wp_modify_last, wp_get. set (w1 := w <| tm ::= _ |>). assert (L0 w1) as H1 by (destruct HL; apply L0_tm; [done|by left|by right]).
    unfold when. destruct (_running (lc w1)) eqn:Er; [by apply discover_L|]. apply wp_ret. split; [done|congruence].
  - apply wp_bind, wp_modify_last. set (w1 := w <| tm ::= _ |>). apply start_L. split; [|done]. destruct HL as [HL _].
    split; [apply L0_tm; [done|by left|by right]|]. destruct HL as [K1 _ _ _ _ _]. rewrite Et in K1. cbn. destruct K1. congruence.
Qed.
(** A request of a client leaves the bring-up alone, also when it is refused. *)
#[local] Hint Extern 3 (keeps F _) => apply tame_keeps; solve [auto 1 with tame nocore] : keeps.
Lemma F_request e : (match e with EAnswer _ | EHangup _ | EHangupAll | EDial _ | ESendTones _ _ | ESwap | EHoldAndAnswer => True | _ => False end) →
  keeps F (step cfg env e).
Proof.
  assert (keeps F tick) by (apply tame_keeps, F_tick).
  assert (keeps F _require_ready) by (unfold _require_ready; keeps). assert (∀ id, keeps F (_find env id)) by (intros; unfold _find; keeps).
  assert (∀ m path client, keeps F (_control env m path client)) by (intros; apply tame_keeps, F_control).
  assert (keeps F (_next_tones env)) by (apply tame_keeps, F_next_tones).
  assert (∀ f, keeps F (set_tn f)) by (intros; apply tame_keeps, F_set_tn).
  intros He. destruct e; try done; cbn [step]; unfold client_request, answer, hangup, hangup_all, dial, send_tones, swap, hold_and_answer; keeps.
Qed.
Lemma step_L e w : e ≠ EStart → L w → L (step cfg env e w).2.
Proof.
  intros He HL. destruct e; try done;
    try (match goal with |- L (step _ _ ?e w).2 => exact (L_F _ _ (F_request e I w) HL) end).
  - apply stopped_L. by apply wp_snd, stop_stopped.
  - by apply (L_leads L), HL; apply poke_L.
  - by apply (L_leads L), HL; apply set_enabled_L.
  - apply wp_snd. apply wp_get. unfold when. destruct (_owner_match _); [by apply owner_L|by apply wp_ret].
  - change (L ((match bus w !! i with Some x => delivered cfg env x s | None => mret () end) w).2). destruct (bus w !! i); [by apply delivered_L|done].
  - apply wp_snd. apply wp_get. destruct (pending w !! i) as [p|] eqn:Ep; [|by apply wp_ret]. apply wp_bind, wp_modify_last. by apply answered_L.
  - by apply retry_L.
  - apply wp_snd. apply wp_get. unfold when. destruct (_bringup_id (tm w)) eqn:Eb; cbn [is_some]; [|by apply wp_ret].
    apply timeout_L. split; [apply HL|congruence].
  - change (L ((match od_get i (_phone_retries (ph w)) with Some (path, token) => fire_phone_retry env i path token | None => mret () end) w).2).
    destruct (od_get _ _) as [[path token]|]; [|done]. apply L_tame; [|done]. unfold fire_phone_retry, _read_phone, _cancel_phone_retry. tame.
Qed.
End progress.

(** C31: The bring-up never stalls: once the daemon has started the controller, in every
    state it reaches while it runs, the calls of a voice-ready modem are bound and the
    state is READY, or the retry timer or the bring-up watchdog is armed, or a
    GetModems or a SetProperty for the modem in use is with oFono (D-Bus answers
    each), whatever fails and in whatever order.  The one exception: a READY reached
    while _blocked was set, which a conflict with bluetoothd leaves standing. *)
Theorem calls_never_stall `{CaseMapping} cfg env es on :
  Forall (λ p : Env * event, p.2 ≠ EStart) es → let w := run cfg ((env, EStart) :: es) (World_init on) in _running (lc w) = true →
  (_state (lc w) = CALLS_READY ∧ ∃ m, _modem (md w) = Some m ∧ voice_ready m = true ∧ _bound_path (cl w) = Some (m_path m)) ∨
  (∃ delay, _retry_id (tm w) = Some (RetryTick, delay)) ∨
  _bringup_id (tm w) ≠ None ∨
  mkPending GetModems (_generation (lc w)) ∈ pending w ∨
  (∃ name m, _modem (md w) = Some m ∧ mkPending (SetModem name (m_path m)) (_generation (lc w)) ∈ pending w) ∨
  (_blocked (md w) = true ∧ _state (lc w) = CALLS_READY).
Proof.
  intros Hes w. assert (L w) as [HL Hm].
  { subst w. unfold run. cbn [fmap list_fmap run_all]. apply run_all_invariant.
    - intros m t Hm Ht. apply list_elem_of_fmap in Hm as ([env' e] & -> & Hin). rewrite Forall_forall in Hes. by apply step_L; [apply (Hes _ Hin)|].
    - apply wp_snd, start_L. split; [|done]. split; [|done]. by split. }
  intros Hr. destruct (Hm Hr) as [?|[?|[?|[Hd|[?|?]]]]]; auto 10. do 3 right. left. by apply (l_discovering _ HL).
Qed.
Definition calls_up : list (Env * event) := (env0,.) <$> tl bringing_up ++ ringing_in.
Lemma calls_never_stall_witness : let w := run config ((env0, EStart) :: calls_up) (World_init true) in _running (lc w) = true ∧ moving w.
Proof.
  assert (_running (lc (run config ((env0, EStart) :: calls_up) (World_init true))) = true) as Hr by (vm_compute; reflexivity).
  assert (Forall (λ p : Env * event, p.2 ≠ EStart) calls_up) as He by (repeat constructor; discriminate).
  split; [exact Hr|]. destruct (calls_never_stall config env0 calls_up true He Hr) as [?|[?|[?|[Hd|[?|?]]]]];
    [by left|by right; left|by do 2 right; left| |by do 4 right; left|by do 5 right].
  exfalso. vm_compute in Hd. repeat (apply elem_of_cons in Hd as [Hd|Hd]; [discriminate|]). by apply elem_of_nil in Hd.
Defined.

(** *** Two sequences after which nothing is scheduled *)

Definition nothing_scheduled (w : World) : bool :=
  _running (lc w) && negb (is_some (_retry_id (tm w))) && negb (is_some (_bringup_id (tm w))) && negb (is_some (_bound_path (cl w)))
  && forallb (λ p, beside_bringup (p_request p)) (pending w).
Definition no_bus : Env := env0 <| owner_watch_fails := true |>.
(** A second start finds the restart timer of the first: the failure of GetModems
    schedules nothing, and when the timer fires the controller already runs. *)
Example restart_timer_in_the_way :
  nothing_scheduled (run config [(no_bus, EStart); (env0, EStart); (env0, EReply 0 (Error (DBusError "org.freedesktop.DBus.Error.ServiceUnknown")));
    (env0, ERetry)] (World_init true)) = true.
Proof. by vm_compute. Qed.
(** With bluetoothd's own hands-free plugin: Powered fails three times, the modem is
    announced again ready for calls, and then loses its VoiceCallManager: the state
    stays READY, so the watchdog does not retry. *)
Definition conflict : Env := env0 <| hfp_conflict := true |>.
Definition power_fails : list event := [EReply 0 (Objects [modem_object false]); EReply 0 (Error (DBusError "org.ofono.Error.Failed")); ERetry].
Definition readied_while_blocked : list event :=
  [ESignal 0 (Added (VText modem_path) (Some (modem_properties true))); ESignal 2 (PropertyChanged (lit "Interfaces") (VList [])); EBringup].
Example blocked_ready_stalls :
  let w := run config ((conflict,.) <$> EStart :: power_fails ++ power_fails ++ firstn 2 power_fails ++ readied_while_blocked) (World_init true) in
  (nothing_scheduled w, _state (lc w)) = (true, CALLS_READY).
Proof. by vm_compute. Qed.
