(* ===== verification/Json.v ===== *)
(** * Json: json.dumps and dictionaries, of Python's standard library.

    [dumps_with] is [json.dumps] of the values that the daemon writes, which
    are no floats; [dumps] is [json.dumps(value, ensure_ascii=False,
    separators=(",", ":"))].  A dict is its items in
    order; no key is twice in it, and its operations take the first. *)
From S2P Require Import Prelude PyStr Wire Text Recipients.

Inductive json : Type :=
  | JNull
  | JBool (b : bool)
  | JInt (n : Z)
  | JStr (s : ustr)
  | JList (l : list json)
  | JDict (d : list (ustr * json)).
Abbreviation dict := (list (ustr * json)).

(** [ensure_ascii] and the separators. *)
Record style := mkStyle { ensure_ascii : bool; item_separator : ustr; key_separator : ustr }.
Definition default_style : style := mkStyle true (lit ", ") (lit ": ").
Definition compact_ascii : style := mkStyle true (lit ",") (lit ":").
Definition compact : style := mkStyle false (lit ",") (lit ":").

Definition hex_digit (n : Z) : Z := if n <? 10 then 48 + n else 87 + n.
Definition unicode_escape (c : Z) : ustr := lit "\u" ++ (hex_digit <$> [c / 4096; c / 256 mod 16; c / 16 mod 16; c mod 16]).
(** A control character, a quote or a backslash is escaped, and for
    [ensure_ascii] whatever is not printable ASCII. *)
Definition json_escape (ascii : bool) (c : Z) : ustr :=
  if c =? 34 then [92; 34]
  else if c =? 92 then [92; 92]
  else if c =? 10 then lit "\n"
  else if c =? 13 then lit "\r"
  else if c =? 9 then lit "\t"
  else if c =? 12 then lit "\f"
  else if c =? 8 then lit "\b"
  else if (0 <=? c) && (c <? 32) then unicode_escape c
  else if ascii && (126 <? c) then
    if c <? 65536 then unicode_escape c
    else unicode_escape (55296 + (c - 65536) / 1024) ++ unicode_escape (56320 + (c - 65536) mod 1024)
  else [c].
Definition json_string (ascii : bool) (s : ustr) : ustr := [34] ++ concat (json_escape ascii <$> s) ++ [34].
Section dumps.
Context (st : style).
Fixpoint dumps_with (v : json) : ustr :=
  match v with
  | JNull => lit "null"
  | JBool b => if b then lit "true" else lit "false"
  | JInt n => lit (pretty n)
  | JStr s => json_string (ensure_ascii st) s
  | JList l => [91] ++ join (item_separator st) (dumps_with <$> l) ++ [93]
  | JDict d => [123] ++ join (item_separator st) ((λ p : ustr * json, json_string (ensure_ascii st) p.1 ++ key_separator st ++ dumps_with p.2) <$> d) ++ [125]
  end.
End dumps.
(** As the answers of the daemon are written. *)
Definition dumps (v : json) : ustr := dumps_with compact v.
Lemma dumps_list l : dumps (JList l) = [91] ++ join [44] (dumps <$> l) ++ [93].
Proof. reflexivity. Qed.
Lemma dumps_dict d : dumps (JDict d) = [123] ++ join [44] ((λ p : ustr * json, json_string false p.1 ++ [58] ++ dumps p.2) <$> d) ++ [125].
Proof. reflexivity. Qed.

(** [d.get(k)] and [d[k] = v]. *)
Fixpoint dict_get (k : ustr) (d : dict) : option json :=
  match d with [] => None | (k', v) :: d' => if bool_decide (k' = k) then Some v else dict_get k d' end.
Fixpoint dict_set (k : ustr) (v : json) (d : dict) : dict :=
  match d with
  | [] => [(k, v)]
  | (k', v') :: d' => if bool_decide (k' = k) then (k', v) :: d' else (k', v') :: dict_set k v d'
  end.
(** [bool(value)]. *)
Definition truthy (v : json) : bool :=
  match v with
  | JNull => false
  | JBool b => b
  | JInt n => negb (n =? 0)
  | JStr s => negb (is_nil s)
  | JList l => negb (is_nil l)
  | JDict d => negb (is_nil d)
  end.

Example dumps_ex : dumps (JDict [(lit "a", JList [JInt (-3); JBool true; JNull]); (lit "b", JStr [34; 10; 0xE9; 1])]) =
  lit "{" ++ json_string false (lit "a") ++ lit ":[-3,true,null]," ++ json_string false (lit "b") ++ lit ":" ++ [34; 92; 34] ++ lit "\n" ++ [0xE9] ++ lit "\u0001" ++ [34; 125].
Proof. vm_compute. reflexivity. Qed.

(** ** Sizes in UTF-8 *)

Definition byte_length (s : ustr) : Z := zlen (concat (utf8_char <$> s)).
Definition scalar_text (s : ustr) : Prop := Forall (λ c, is_scalar c = true) s.
Lemma encode_length s : scalar_text s → ∃ bs, utf8_encode s = Ok bs ∧ zlen bs = byte_length s.
Proof.
  unfold byte_length. induction 1 as [|c s Hc _ (bs & Hb & Hl)]; [by exists []|]. exists (utf8_char c ++ bs). cbn. rewrite Hc, Hb. split; [done|].
  unfold zlen in *. rewrite !length_app. lia.
Qed.
Lemma encoded_length s bs : utf8_encode s = Ok bs → zlen bs = byte_length s.
Proof.
  revert bs. unfold byte_length. induction s as [|c s IH]; intros bs Hb; [by injection Hb as <-|]. apply utf8_encode_cons in Hb as (r & _ & Hr & ->). cbn.
  specialize (IH _ Hr). unfold zlen in *. rewrite !length_app. lia.
Qed.
Lemma byte_length_app s t : byte_length (s ++ t) = byte_length s + byte_length t.
Proof. unfold byte_length. rewrite fmap_app, concat_app. unfold zlen. rewrite length_app. lia. Qed.
Lemma byte_length_pos s : 0 <= byte_length s.
Proof. unfold byte_length, zlen. lia. Qed.
Lemma byte_length_join l : byte_length (join [44] l) = foldr Z.add 0 (byte_length <$> l) + Z.max 0 (zlen l - 1).
Proof.
  induction l as [|x [|y l] IH]; [done|cbn; unfold zlen; cbn; lia|].
  change (join [44] (x :: y :: l)) with (x ++ [44] ++ join [44] (y :: l)). rewrite !byte_length_app, IH. change (byte_length [44]) with 1. cbn [fmap list_fmap foldr]. unfold zlen. cbn [length]. lia.
Qed.

(** The bytes of a serialized value. *)
Definition json_size (v : json) : Z := byte_length (dumps v).
Definition sum_sizes (l : list json) : Z := foldr Z.add 0 (json_size <$> l).
Lemma list_size l : json_size (JList l) = 2 + sum_sizes l + Z.max 0 (zlen l - 1).
Proof.
  unfold json_size at 1. rewrite dumps_list, !byte_length_app, byte_length_join, <- list_fmap_compose. change (byte_length [91]) with 1. change (byte_length [93]) with 1.
  unfold sum_sizes, zlen. rewrite length_fmap. change (byte_length ∘ dumps) with json_size. lia.
Qed.
Definition entry_size (p : ustr * json) : Z := byte_length (json_string false p.1) + 1 + json_size p.2.
Lemma dict_size d : json_size (JDict d) = 2 + foldr Z.add 0 (entry_size <$> d) + Z.max 0 (zlen d - 1).
Proof.
  unfold json_size at 1. rewrite dumps_dict, !byte_length_app, byte_length_join, <- list_fmap_compose. change (byte_length [123]) with 1. change (byte_length [125]) with 1.
  unfold zlen. rewrite length_fmap. assert (byte_length ∘ (λ p : ustr * json, json_string false p.1 ++ [58] ++ dumps p.2) <$> d = entry_size <$> d) as ->; [|lia].
  apply list_fmap_ext. intros i p _. change (byte_length (json_string false p.1 ++ [58] ++ dumps p.2) = entry_size p). rewrite !byte_length_app. unfold entry_size, json_size. change (byte_length [58]) with 1. lia.
Qed.

(** ** Dictionaries *)

Lemma dict_get_set k v d : dict_get k (dict_set k v d) = Some v.
Proof. induction d as [|[k' v'] d IH]; cbn; [by rewrite bool_decide_eq_true_2|]. case_bool_decide; cbn; [by rewrite bool_decide_eq_true_2|]. by rewrite bool_decide_eq_false_2. Qed.
Lemma dict_get_set_ne k k' v d : k ≠ k' → dict_get k (dict_set k' v d) = dict_get k d.
Proof.
  intros Hk. induction d as [|[j w] d IH]; cbn; [by rewrite bool_decide_eq_false_2 by congruence|]. case_bool_decide; cbn; [|by case_bool_decide].
  subst. by rewrite !bool_decide_eq_false_2 by congruence.
Qed.
(** Replacing a value changes the size by the difference of the values'. *)
Lemma dict_set_size k v w d : dict_get k d = Some w → json_size (JDict (dict_set k v d)) = json_size (JDict d) - json_size w + json_size v.
Proof.
  intros Hg. rewrite !dict_size. assert (zlen (dict_set k v d) = zlen d ∧
    foldr Z.add 0 (entry_size <$> dict_set k v d) = foldr Z.add 0 (entry_size <$> d) - json_size w + json_size v) as [-> ->]; [|lia].
  induction d as [|[k' v'] d IH]; [done|]. cbn in *. case_bool_decide; [injection Hg as ->; split; [done|cbn; unfold entry_size; cbn; lia]|].
  destruct (IH Hg) as [Hl Hs]. unfold zlen in *. cbn. split; lia.
Qed.

(** ** Values that can be encoded *)

Definition encodable (v : json) : Prop := scalar_text (dumps v).
Lemma scalar_join l : scalar_text (join [44] l) ↔ Forall scalar_text l.
Proof.
  unfold scalar_text. induction l as [|x [|y l] IH]; [split; constructor|cbn; by rewrite Forall_singleton|].
  change (join [44] (x :: y :: l)) with (x ++ [44] ++ join [44] (y :: l)). rewrite !Forall_app, IH, Forall_singleton, (Forall_cons _ x). intuition done.
Qed.
Lemma encodable_list l : encodable (JList l) ↔ Forall encodable l.
Proof.
  unfold encodable. rewrite dumps_list. unfold scalar_text at 1. rewrite !Forall_app, !Forall_singleton. fold (scalar_text (join [44] (dumps <$> l))). rewrite scalar_join, Forall_fmap. 
  unfold compose. intuition done.
Qed.
Lemma encodable_dict d : encodable (JDict d) ↔ Forall (λ p, scalar_text (json_string false p.1) ∧ encodable p.2) d.
Proof.
  unfold encodable. rewrite dumps_dict. unfold scalar_text at 1. rewrite !Forall_app, !Forall_singleton.
  fold (scalar_text (join [44] ((λ p : ustr * json, json_string false p.1 ++ [58] ++ dumps p.2) <$> d))). rewrite scalar_join, Forall_fmap.
  assert (∀ p, (scalar_text ∘ (λ p : ustr * json, json_string false p.1 ++ [58] ++ dumps p.2)) p ↔ scalar_text (json_string false p.1) ∧ scalar_text (dumps p.2)) as Hp.
  { intros p. unfold compose, scalar_text. rewrite !Forall_app, Forall_singleton. intuition done. }
  rewrite (Forall_iff _ _ _ Hp). intuition done.
Qed.
Lemma encodable_get k d v : encodable (JDict d) → dict_get k d = Some v → encodable v.
Proof.
  rewrite encodable_dict. induction 1 as [|[k' w] d [_ Hw] _ IH]; [done|]. cbn. case_bool_decide; [by intros [= <-]|done].
Qed.
Lemma encodable_set k v d : scalar_text (json_string false k) → encodable v → encodable (JDict d) → encodable (JDict (dict_set k v d)).
Proof.
  rewrite !encodable_dict. intros Hk Hv. induction 1 as [|[k' w] d Hw Hd IH]; cbn; [by constructor|]. case_bool_decide; constructor; [by destruct Hw|done..].
Qed.
