(* ===== verification/Events.v ===== *)
(** * Events: message events and addresses (src/blueferry/events.py).

    An event is a serialized message or notification, a Python dict with the
    keys that [SmsEvent.to_dict] and the correlation write.  Where the code
    reads a key with [event.get(key) or ""], an absent key, None and the empty
    text are one value; the keys whose presence matters are options. *)
From S2P Require Import Prelude PyStr Text Recipients.

(** ** Addresses *)

(** [_PHONE_SHAPED.fullmatch]. *)
Definition phone_first (c : Z) : bool := is_digit c || mem c (lit "+(").
Definition phone_rest (c : Z) : bool := is_digit c || mem c (lit " ()-.+").
Definition _PHONE_SHAPED (s : ustr) : bool := match s with c :: s' => phone_first c && forallb phone_rest s' | [] => false end.
(** [_EMAIL_SHAPED.fullmatch]: the local part has no "@", so it ends at the first. *)
Definition domain_char (c : Z) : bool := is_alnum c || mem c (lit ".-").
Definition email_domain (s : ustr) : bool :=
  match head s, last s with Some a, Some z => is_alnum a && is_alnum z && forallb domain_char s | _, _ => false end.
Definition _EMAIL_SHAPED (s : ustr) : bool :=
  match partition AT s with (local, Some domain) => negb (is_nil local) && forallb local_char local && email_domain domain | _ => false end.
Definition _SHORT_CODE (s : ustr) : bool := forallb is_digit s && (3 <=? zlen s) && (zlen s <=? 6).

Definition normalize_phone (raw : ustr) : option ustr :=
  if is_nil raw || negb (_PHONE_SHAPED (strip raw)) then None
  else
    let digits := List.filter is_digit raw in
    if 7 <=? zlen digits then Some digits else None.
Definition is_phone_shaped (raw : ustr) : bool := negb (is_nil raw) && _PHONE_SHAPED (strip raw).
Definition is_email_shaped (raw : ustr) : bool := negb (is_nil raw) && _EMAIL_SHAPED (strip raw).

(** [_KEYPAD] and [spelled_on_keypad]. *)
Definition _KEYPAD (c : Z) : Z := nth (Z.to_nat (c - 65)) (lit "22233344455566677778889999") c.
Definition keypad_char (c : Z) : Z := if (65 <=? c) && (c <=? 90) then _KEYPAD c else c.
Definition spelled_on_keypad (name sender_address : ustr) : bool :=
  let spelled := upper_ascii <$> List.filter is_alnum name in
  existsb is_letter spelled && bool_decide (keypad_char <$> spelled = sender_address).

Section addresses.
Context `{CaseMapping}.
(** A typed identity, or [None] for what is not a messaging address. *)
Definition canonical_address (raw : ustr) : option ustr :=
  let value := strip raw in
  match normalize_phone value with
  | Some phone => Some (lit "phone:" ++ phone)
  | None =>
      if is_email_shaped value then Some (lit "email:" ++ str_casefold value)
      else if _SHORT_CODE value then Some (lit "short:" ++ value)
      else None
  end.
End addresses.

(** ** Events *)

Record Event := mkEvent {
  kind : ustr;
  app_id : ustr;
  title : ustr;
  subtitle : ustr;
  handle : ustr;
  body : ustr;
  sender_address : ustr;
  sender_phone_norm : ustr;
  contact_name : ustr;
  timestamp : ustr;
  seen_at : ustr;
  is_read : option bool;
  body_truncated : bool;
  sender_alphanumeric : ustr;
  group_key : ustr;
  group_name : ustr;
  group_members : list ustr;
  group_recipients : list ustr;
  group_reply_ready : bool;
  group_aliases : list ustr;
  group_origin : ustr;
  group_participants_required : bool;
  group_missing_members : option (list ustr);
  group_observed_sender : ustr;
  group_observed_recipient : ustr;
  group_roster_changed : bool;
  group_unexpected_sender : ustr;
  group_roster_warning_id : ustr;
  group_sender_verified : option bool;
  group_ambiguous : bool;
  row_id : option Z;
  correlated_rows : list Z;
}.

Definition starts (p : string) (s : ustr) : bool := startswith (lit p) s.
(** [str(event.get("kind") or "").startswith("sms_")]. *)
Definition is_sms (e : Event) : bool := starts "sms_" (kind e).
Definition is_kind (k : string) (e : Event) : bool := bool_decide (kind e = lit k).

Section events.
Context `{CaseMapping}.
Definition safe_event_address (e : Event) : option ustr :=
  let raw := strip (sender_address e) in
  if is_some (canonical_address raw) then Some raw
  else
    let normalized := strip (sender_phone_norm e) in
    if is_some (canonical_address normalized) then Some normalized else None.
Definition display_sender_from_dict (e : Event) : ustr :=
  if negb (is_nil (group_name e)) then group_name e
  else if negb (is_nil (contact_name e)) then contact_name e
  else
    let raw := strip (sender_address e) in
    if is_phone_shaped raw || is_email_shaped raw then raw
    else if is_nil (sender_phone_norm e) then lit "(unknown)" else sender_phone_norm e.

(** An address that is safe to reply to has an identity. *)
Lemma safe_address_canonical e a : safe_event_address e = Some a → canonical_address a ≠ None.
Proof.
  unfold safe_event_address. destruct (canonical_address (strip (sender_address e))) eqn:E1; cbn; [intros [= <-]; congruence|].
  destruct (canonical_address (strip (sender_phone_norm e))) eqn:E2; cbn; [intros [= <-]; congruence|done].
Qed.
End events.
