(* ===== verification/NamedGroups.v ===== *)
(** * NamedGroups: identities and saved reply rosters of groups
    (src/blueferry/named_groups.py).

    An iPhone names no conversation, so a group is known by its name or by its
    members' names.  [NamedGroupRoutes] applies the rosters the user saved, and
    withholds a reply when the sender is not in the roster.

    Unicode normalization and SHA-256 are the interpreter's ([Digests]). *)
From S2P Require Import Prelude PyStr Text Recipients Json Events.

(** What the keys use of unicodedata and hashlib (of a text's UTF-8). *)
Class Digests := {
  nfc : ustr → ustr;
  nfkc : ustr → ustr;
  sha256_hex : ustr → ustr;
  sha256_hex_digits : ∀ s, zlen (sha256_hex s) = 64 ∧ forallb (λ c, mem c (lit "0123456789abcdef")) (sha256_hex s) = true;
}.

Definition UNNAMED_GROUP_PREFIX : ustr := lit "group:participants:".

Section keys.
Context `{CaseMapping, Digests}.

Definition _name (value : ustr) : ustr := strip (nfc value).
Definition named_group_key (name : ustr) : ustr := lit "group:named:v2:" ++ sha256_hex (_name name).
(** [sorted] of texts. *)
Definition sorted_texts (l : list ustr) : list ustr := foldr (insert_sorted str_leb) [] l.
Definition unnamed_group_key (members : list ustr) : ustr :=
  UNNAMED_GROUP_PREFIX ++ lit "v2:" ++ sha256_hex (dumps_with default_style (JList (JStr <$> sorted_texts (str_casefold <$> members)))).
Definition is_legacy_unnamed_group_key (key : ustr) : bool :=
  startswith UNNAMED_GROUP_PREFIX key &&
  let rest := drop (length UNNAMED_GROUP_PREFIX) key in
  negb (starts "v2:" rest && (zlen rest =? 67) && forallb (λ c, mem c (lit "0123456789abcdef")) (drop 3 rest)).
Definition is_unnamed_group_key (key : ustr) : bool := startswith UNNAMED_GROUP_PREFIX key && negb (is_legacy_unnamed_group_key key).
Definition legacy_named_group_key (name : ustr) : ustr :=
  lit "group:named:" ++ sha256_hex (join [SPACE] (split_ws (str_casefold (strip (nfkc name))))).
Definition unnamed_group_key_for_legacy (key : ustr) : option ustr :=
  if negb (is_legacy_unnamed_group_key key) then None
  else
    let names := drop (length UNNAMED_GROUP_PREFIX) key in
    if is_nil names then None else Some (unnamed_group_key (split_on 124 names)).

Definition _stored_name (e : Event) : ustr :=
  let name := _name (group_name e) in
  if negb (is_nil name) && bool_decide (group_key e ∈ [named_group_key name; legacy_named_group_key name]) then name else [].
Definition stored_named_group_key (e : Event) : ustr :=
  let name := _stored_name e in if is_nil name then [] else named_group_key name.
(** [a or b] of texts. *)
Definition or_text (a b : ustr) : ustr := if is_nil a then b else a.
Definition route_version (route : Event) : ustr := or_text (seen_at route) (or_text (stored_named_group_key route) (group_key route)).
(** The saved warning about a sender outside the roster: its id and the sender. *)
Definition held_roster_warning (route : Event) : option (ustr * ustr) :=
  let warning_id := group_roster_warning_id route in
  if startswith (route_version route ++ lit ":") warning_id then Some (warning_id, group_unexpected_sender route) else None.
End keys.

(** ** Saved rosters *)

Record NamedGroupRoutes := mkRoutes {
  _names : gmap ustr (gset ustr);
  _routes : gmap ustr Event;
}.

Section routes.
Context `{CaseMapping, Digests}.

Definition add_name (name : ustr) (m : gmap ustr (gset ustr)) : gmap ustr (gset ustr) :=
  let legacy := legacy_named_group_key name in
  if is_nil name then m else <[legacy := {[_name name]} ∪ default ∅ (m !! legacy)]> m.
Definition aliases_in (names : gmap ustr (gset ustr)) (name : ustr) : list ustr :=
  let legacy := legacy_named_group_key name in
  if bool_decide (names !! legacy = Some {[_name name]}) then [legacy] else [].
(** The key of a saved roster, [None] for one that cannot be assigned. *)
Definition route_key (names : gmap ustr (gset ustr)) (e : Event) : option ustr :=
  let name := _stored_name e in
  if negb (is_nil name) then
    let key := named_group_key name in
    if negb (bool_decide (group_key e = key)) && is_nil (aliases_in names name) then None else Some key
  else if is_unnamed_group_key (group_key e) then Some (group_key e)
  else None.
Definition stripped (l : list ustr) : list ustr := List.filter (λ s, negb (is_nil s)) (strip <$> l).
(** Two to twenty addresses that all differ. *)
Definition valid_roster (raw : list ustr) : bool :=
  let recipients := stripped raw in
  let identities := canonical_address <$> recipients in
  (2 <=? zlen recipients) && (zlen recipients <=? 20)
  && negb (existsb (λ i, negb (is_some i)) identities) && bool_decide (NoDup identities).
Definition add_route (names : gmap ustr (gset ustr)) (e : Event) (m : gmap ustr Event) : gmap ustr Event :=
  if negb (is_kind "group_route" e) then m
  else
    match route_key names e with
    | Some key => if valid_roster (group_recipients e) then <[key := e]> m else m
    | None => m
    end.
Definition NamedGroupRoutes_init (events : list Event) (observed_names : list ustr) : NamedGroupRoutes :=
  let names := foldl (λ m n, add_name n m) ∅ (observed_names ++ (_stored_name <$> events)) in
  {| _names := names; _routes := foldl (λ m e, add_route names e m) ∅ events |}.

Context (r : NamedGroupRoutes).
Definition aliases (name : ustr) : list ustr := aliases_in (_names r) name.
Definition has_route (key : ustr) : bool := is_some (_routes r !! key).

(** [_apply_stored] with whether a roster applied. *)
Definition _apply_stored (e : Event) (key : ustr) : Event * bool :=
  match _routes r !! key with
  | None => (e, false)
  | Some route =>
      let e := e <| group_name := group_name route |> <| group_members := group_members route |> <| group_recipients := group_recipients route |> in
      (match held_roster_warning route with
       | None => e <| group_reply_ready := true |> <| group_participants_required := false |>
       | Some (warning_id, sender) =>
           e <| group_reply_ready := false |> <| group_participants_required := true |> <| group_roster_changed := true |>
             <| group_unexpected_sender := sender |> <| group_roster_warning_id := warning_id |>
       end, true)
  end.
Definition annotate_stored (e : Event) : Event :=
  if negb (is_sms e) then e
  else
    let name := _stored_name e in
    if is_nil name then
      let key := group_key e in
      if is_legacy_unnamed_group_key key then
        e <| group_origin := lit "unnamed" |> <| group_reply_ready := false |> <| group_participants_required := false |>
      else if is_unnamed_group_key key then
        let '(e, applied) := _apply_stored (e <| group_origin := lit "unnamed" |>) key in
        if applied then e else e <| group_reply_ready := false |> <| group_participants_required := true |>
      else e
    else
      let key := named_group_key name in
      let was_legacy := negb (bool_decide (group_key e = key)) in
      let '(e, applied) := _apply_stored (e <| group_key := key |> <| group_aliases := aliases name |> <| group_origin := lit "named" |>) key in
      if negb applied && was_legacy && is_nil (aliases name) then e <| group_reply_ready := false |> <| group_participants_required := true |>
      else e.

Definition of_option (o : option ustr) : list ustr := match o with Some s => [s] | None => [] end.
(** A message of a group joined with its notification; [sender] is its safe
    address, never empty. *)
Definition _received (key sender_title : ustr) (sender : option ustr) (e : Event) : Event :=
  let base recipients members ready changed unexpected warning_id :=
    e <| group_key := key |> <| group_members := members |> <| group_recipients := recipients |> <| group_reply_ready := ready |>
      <| group_participants_required := negb ready |> <| group_observed_recipient := default [] sender |> <| group_observed_sender := sender_title |>
      <| group_roster_changed := changed |> <| group_unexpected_sender := unexpected |> <| group_roster_warning_id := warning_id |> in
  match _routes r !! key with
  | None => base (of_option sender) (if is_nil sender_title then [] else [sender_title]) false false [] []
  | Some route =>
      let recipients := group_recipients route in
      let identity := canonical_address (default [] sender) in
      let known := is_some identity && bool_decide (identity ∈ canonical_address <$> recipients) in
      let '(recipients, ready, changed, unexpected, warning_id) :=
        if known then (recipients, true, false, [], [])
        else
          let recipients := match sender with Some a => if bool_decide (a ∈ recipients) then recipients else recipients ++ [a] | None => recipients end in
          match identity with
          | Some i => (recipients, false, true, sender_title, route_version route ++ lit ":" ++ i)
          | None => (recipients, false, false, [], [])
          end in
      match held_roster_warning route with
      | Some (held_id, held_sender) =>
          if negb changed then base recipients (group_members route) false true held_sender held_id
          else base recipients (group_members route) ready changed unexpected warning_id
      | None => base recipients (group_members route) ready changed unexpected warning_id
      end
  end.
Definition received (name sender_title : ustr) (sender : option ustr) (e : Event) : Event :=
  (_received (named_group_key name) sender_title sender e)
    <| group_aliases := aliases name |> <| group_name := name |> <| group_origin := lit "named" |>.
Definition received_unnamed (key name sender_title : ustr) (sender : option ustr) (e : Event) : Event :=
  (_received key sender_title sender e) <| group_aliases := [] |> <| group_name := name |> <| group_origin := lit "unnamed" |>.
End routes.
