(* ===== verification/Grouping.v ===== *)
(** * Grouping: joining messages with the notifications that name their group
    (src/blueferry/grouping.py).

    MAP gives a message with its sender, ANCS a notification with the same body
    and the names of the group.  [correlate_group_events] joins the two and says
    which replies are safe.  Contacts are asked through [Resolver]; instants are
    integers in microseconds, which [seen_instant] reads from an ISO text. *)
From S2P Require Import Prelude PyStr Wire Text Recipients Events NamedGroups.

Definition MESSAGES_APP_ID : ustr := lit "com.apple.MobileSMS".
Definition ANCS_MESSAGE_CAPS_REQUESTED : list Z := [256; 1024].
Definition CORRELATION_WINDOW : Z := 60 * 1000000.
Definition _UTF8_CUT_SLACK : Z := 3.

(** [resolver.find_by_name] (display names with addresses), and
    [datetime.fromisoformat]. *)
Class Resolver := {
  find_by_name : option (ustr → list (ustr * ustr));
  seen_instant : ustr → option Z;
}.

(** ** Candidates of a notification *)

Abbreviation entries := (list (Z * nat)).
Definition entry_lt (a b : Z * Z) : bool := (a.1 <? b.1) || ((a.1 =? b.1) && (a.2 <? b.2)).
Definition entry_key (e : Z * nat) : Z * Z := (e.1, Z.of_nat e.2).
Fixpoint insert_entry (x : Z * nat) (l : entries) : entries :=
  match l with
  | [] => [x]
  | y :: l' => if entry_lt (entry_key y) (entry_key x) then y :: insert_entry x l' else x :: l
  end.
Definition sort_entries (l : entries) : entries := foldr insert_entry [] l.
(** On a sorted list: the elements before [x], or those up to it. *)
Definition bisect_left (l : entries) (x : Z * Z) : nat := length (List.filter (λ e, entry_lt (entry_key e) x) l).
Definition bisect_right (l : entries) (x : Z * Z) : nat := length (List.filter (λ e, negb (entry_lt x (entry_key e))) l).

(** The bytes of a text, and its longest prefix of whole characters that fits
    in [cap] bytes. *)
Fixpoint cut_chars (cap : Z) (s : ustr) : ustr :=
  match s with
  | [] => []
  | c :: s' => let n := zlen (utf8_char c) in if n <=? cap then c :: cut_chars (cap - n) s' else []
  end.
Definition _cut_to_bytes (s : ustr) (cap : Z) : ustr := cut_chars cap s.

Record Candidates := mkCandidates {
  exact : gmap ustr entries;
  prefix : list (Z * gmap ustr entries);
  maximum_index : nat;
}.
Definition append_to (k : ustr) (x : Z * nat) (m : gmap ustr entries) : gmap ustr entries := <[k := default [] (m !! k) ++ [x]]> m.

Section candidates.
Context `{Resolver}.

Definition _seen_at (e : Event) : option Z := if is_nil (seen_at e) then None else seen_instant (seen_at e).
Definition add_candidate (c : Candidates) (p : nat * Event) : result Candidates :=
  let '(index, e) := p in
  match _seen_at e with
  | None => mret c
  | Some t =>
      encoded ← utf8_encode (body e);
      mret {| exact := append_to (body e) (t, index) (exact c);
              prefix := (λ q, (q.1, if q.1 <? zlen encoded then append_to (_cut_to_bytes (body e) q.1) (t, index) q.2 else q.2)) <$> prefix c;
              maximum_index := maximum_index c |}
  end.
Fixpoint add_candidates (c : Candidates) (l : list (nat * Event)) : result Candidates :=
  match l with [] => mret c | p :: l' => c ← add_candidate c p; add_candidates c l' end.
Definition _MessageCandidates (events : list Event) (sms : list (nat * Event)) : result Candidates :=
  c ← add_candidates {| exact := ∅; prefix := (λ cap : Z, (cap, ∅ : gmap ustr entries)) <$> ANCS_MESSAGE_CAPS_REQUESTED; maximum_index := length events |} sms;
  mret {| exact := sort_entries <$> exact c; prefix := (λ q : Z * gmap ustr entries, (q.1, sort_entries <$> q.2)) <$> prefix c; maximum_index := maximum_index c |}.

(** [matching], stopping at [limit] matches. *)
Definition full (limit : option nat) (matches : list nat) : bool := bool_decide (limit = Some (length matches)).
Fixpoint scan (limit : option nat) (excluded : gset nat) (matches : list nat) (l : entries) : list nat * bool :=
  match l with
  | [] => (matches, false)
  | (_, index) :: l' =>
      if bool_decide (index ∈ excluded) then scan limit excluded matches l'
      else
        let matches := matches ++ [index] in
        if full limit matches then (matches, true) else scan limit excluded matches l'
  end.
Definition window (maximum : nat) (instant : Z) (l : entries) : entries :=
  let start := bisect_left l (instant - CORRELATION_WINDOW, -1) in
  let stop := bisect_right l (instant + CORRELATION_WINDOW, Z.of_nat maximum) in
  take (stop - start) (drop start l).
Fixpoint scan_buckets (limit : option nat) (excluded : gset nat) (maximum : nat) (instant : Z) (matches : list nat) (buckets : list entries) : list nat :=
  match buckets with
  | [] => matches
  | l :: buckets' =>
      let '(matches, done) := scan limit excluded matches (window maximum instant l) in
      if done then matches else scan_buckets limit excluded maximum instant matches buckets'
  end.
Definition matching (c : Candidates) (text : ustr) (instant : Z) (excluded : gset nat) (limit : option nat) : result (list nat) :=
  let truncated := rstrip_by (λ x, x =? REPLACEMENT) text in
  encoded ← utf8_encode truncated;
  let size := zlen encoded in
  let cut := omap (λ q : Z * gmap ustr entries,
    if (q.1 - _UTF8_CUT_SLACK <=? size) && (size <=? q.1) then Some (default [] (q.2 !! truncated)) else None) (prefix c) in
  mret (scan_buckets limit excluded (maximum_index c) instant [] (default [] (exact c !! text) :: cut)).
End candidates.

(** ** What a notification says of a group *)

Section notification.
Context `{CaseMapping}.

(** [_TO_PREFIX.match] with what follows, [_TO_PREFIX.sub]. *)
Definition to_prefix (s : ustr) : option ustr :=
  match s with
  | t :: o :: c :: rest =>
      if (lower_ascii t =? 116) && (lower_ascii o =? 111) && is_space c then Some (lstrip_by is_space rest) else None
  | _ => None
  end.
(** [_MEMBER_SEPARATOR.split], up to the blanks that [_member_names] strips. *)
Fixpoint split_members_aux (cur s : ustr) : list ustr :=
  match s with
  | [] => [reverse cur]
  | c :: s' => if (c =? 44) || (c =? 38) then reverse cur :: split_members_aux [] s' else split_members_aux (c :: cur) s'
  end.
Definition split_members (s : ustr) : list ustr := split_members_aux [] s.
Definition by_fold (a b : ustr) : bool := str_leb (str_casefold a) (str_casefold b).
Definition sorted_by_fold (l : list ustr) : list ustr := foldr (insert_sorted by_fold) [] l.
Definition _member_names (names : list ustr) : list ustr :=
  sorted_by_fold (List.filter (λ name, negb (is_nil name) && negb (bool_decide (str_casefold name ∈ [lit "you"; lit "me"]))) (strip <$> names)).
Definition group_members_from_ancs (e : Event) : option (list ustr) :=
  if negb (bool_decide (app_id e = MESSAGES_APP_ID)) then None
  else
    let t := strip (title e) in
    let s := strip (subtitle e) in
    if is_nil t then None
    else
      match to_prefix s with
      | Some remainder => if mem 38 s then Some (_member_names (t :: split_members remainder)) else None
      | None => None
      end.
(** The members when there are some. *)
Definition members_of (e : Event) : option (list ustr) :=
  match group_members_from_ancs e with Some (m :: ms) => Some (m :: ms) | _ => None end.
Definition named_group_from_ancs (e : Event) : option ustr :=
  if negb (bool_decide (app_id e = MESSAGES_APP_ID)) then None
  else
    let s := strip (subtitle e) in
    if is_nil (strip (title e)) || is_nil s || is_some (members_of e) then None else Some s.
Definition _names_agree (notification sms : Event) : bool :=
  let t := strip (title notification) in
  let trusted := strip (contact_name sms) in
  is_nil t || is_nil trusted || bool_decide (str_casefold t = str_casefold trusted).
Definition _notification_evidence (e : Event) : ustr * ustr := (strip (title e), strip (subtitle e)).
End notification.

(** ** The correlation *)

Record Corr := mkCorr {
  out : list Event;
  addresses_by_name : gmap ustr (gset ustr);
  _addresses : gmap ustr (list ustr);   (* the cache of [_ContactNames] *)
  evidence_by_sms : gmap nat (gset (ustr * ustr));
  matched : gset nat;
  ambiguous : gset nat;
}.
Definition set_out (f : list Event → list Event) : M Corr () := modify (λ c : Corr, c <| out ::= f |>).
Definition update (i : nat) (f : Event → Event) : M Corr () := set_out (alter f i).
(** [out[index]] of an index into the list. *)
Definition event_at (i : nat) (c : Corr) : option Event := out c !! i.
Definition is_ancs (e : Event) : bool := is_kind "ancs_notification" e.

Section correlation.
Context `{CaseMapping, Digests, Resolver}.

Fixpoint for_each {A} (f : A → M Corr ()) (l : list A) : M Corr () :=
  match l with [] => mret () | x :: l' => f x;; for_each f l' end.
Definition learn (name address : ustr) : M Corr () :=
  modify (λ c : Corr, c <| addresses_by_name ::= λ m, <[str_casefold name := {[address]} ∪ default ∅ (m !! str_casefold name)]> m |>).
(** Names and addresses that MAP itself joins. *)
Definition learn_from (e : Event) : M Corr () :=
  if negb (is_sms e) then mret ()
  else
    match strip (contact_name e), safe_event_address e with
    | [], _ | _, None => mret ()
    | name, Some address => learn name address
    end.

(** [_ContactNames.addresses]. *)
Definition contact_addresses (name : ustr) : M Corr (list ustr) :=
  let folded := str_casefold name in
  c ← get;
  match _addresses c !! folded with
  | Some l => mret l
  | None =>
      let found := match find_by_name with
        | None => []
        | Some find => (List.filter (λ p, bool_decide (str_casefold p.1 = folded)) (find name)).*2
        end in
      modify (λ c : Corr, c <| _addresses ::= <[folded := found]> |>);;
      mret found
  end.
(** The one address of several spellings, [None] for none or for two identities. *)
Definition single_address (l : list ustr) : option ustr :=
  let by_identity := omap (λ a, i ← canonical_address a; Some (i, a)) l in
  match remove_dups by_identity.*1, by_identity with [_], p :: _ => Some p.2 | _, _ => None end.
Definition _member_address (member : ustr) : M Corr (option ustr) :=
  if is_some (canonical_address member) then mret (Some (strip member))
  else
    c ← get;
    found ← contact_addresses member;
    mret (single_address (sorted_texts (elements (default ∅ (addresses_by_name c !! str_casefold member))) ++ found)).
Definition _member_roster_token (member : ustr) : M Corr ustr :=
  address ← _member_address member;
  mret (default (lit "name:" ++ str_casefold member) (a ← address; canonical_address a)).

Definition _group_identity (members recipients : list ustr) (reply_ready : bool) : ustr * ustr :=
  let display := join (lit ", ") (sorted_by_fold members) in
  (if negb reply_ready then unnamed_group_key members
   else lit "group:addresses:" ++ join (lit "|") (sorted_texts (omap canonical_address recipients)), display).

Record Resolved := mkResolved { recipients : list ustr; missing : list ustr; unresolved : bool }.
(** The loop over the members of an unnamed group: the sender's own address
    counts only when MAP's contact name agrees with the title. *)
Fixpoint resolve_members (sender_title : ustr) (sender : option ustr) (verified : bool) (members : list ustr) (r : Resolved) : M Corr Resolved :=
  match members with
  | [] => mret r
  | member :: members' =>
      r ← (if negb (is_nil sender_title) && bool_decide (str_casefold member = str_casefold sender_title) then
             mret (if verified then sender else None, if is_some sender then r else r <| missing ::= λ l, l ++ [member] |>)
           else
             address ← _member_address member;
             mret (address, if is_some address then r else r <| missing ::= λ l, l ++ [member] |>));
      let '(address, r) := r in
      let r := match address with
        | None => r <| unresolved := true |>
        | Some a => if bool_decide (a ∈ recipients r) then r else r <| recipients ::= λ l, l ++ [a] |>
        end in
      resolve_members sender_title sender verified members' r
  end.
(** Whether a derived roster may be answered. *)
Definition roster_ready (members : list ustr) (sender : option ustr) (r : Resolved) : bool :=
  let identity := a ← sender; canonical_address a in
  negb (unresolved r) && (2 <=? zlen (recipients r)) && bool_decide (length (recipients r) = length members)
  && is_some identity && bool_decide (identity ∈ canonical_address <$> recipients r).
Definition join_unnamed (index : nat) (members : list ustr) (sender_title : ustr) (sender : option ustr) (verified : bool) : M Corr () :=
  r ← resolve_members sender_title sender verified members (mkResolved [] [] false);
  let ready := roster_ready members sender r in
  let '(key, name) := _group_identity members (recipients r) ready in
  update index (λ e, e <| group_key := key |> <| group_name := name |> <| group_members := members |> <| group_recipients := recipients r |>
    <| group_reply_ready := ready |> <| group_observed_sender := sender_title |> <| group_observed_recipient := default [] sender |>
    <| group_sender_verified := Some verified |> <| group_origin := if ready then [] else lit "unnamed" |>
    <| group_participants_required := negb ready |> <| group_missing_members := Some (if ready then [] else missing r) |>).
(** The notification [e] names the group of the message at [index]. *)
Definition join_group (routes : NamedGroupRoutes) (index : nat) (e sms : Event) : M Corr () :=
  let sender_title := strip (title e) in
  let trusted := strip (contact_name sms) in
  let verified := negb (is_nil sender_title) && negb (is_nil trusted) && bool_decide (str_casefold sender_title = str_casefold trusted) in
  match row_id e with Some z => update index (λ s, s <| correlated_rows ::= λ l, l ++ [z] |>) | None => mret () end;;
  let sender := safe_event_address sms in
  match sender with Some a => when verified (learn sender_title a) | None => mret () end;;
  match members_of e with
  | None =>
      match named_group_from_ancs e with
      | Some name => update index (received routes name sender_title sender)
      | None => mret ()
      end
  | Some members =>
      let saved_key := unnamed_group_key members in
      if has_route routes saved_key then
        update index (received_unnamed routes saved_key (join (lit ", ") (sorted_by_fold members)) sender_title sender)
      else join_unnamed index members sender_title sender verified
  end.
Definition agreeing (e : Event) (candidates : list nat) (c : Corr) : list nat :=
  List.filter (λ i, match event_at i c with Some sms => _names_agree e sms | None => false end) candidates.
Definition correlate_one (candidates : Candidates) (routes : NamedGroupRoutes) (e : Event) : M Corr () :=
  if negb (is_ancs e) || negb (is_some (members_of e) || is_some (named_group_from_ancs e)) then mret ()
  else
    match body e, _seen_at e with
    | [], _ | _, None => mret ()
    | text, Some t =>
        found ← lift (matching candidates text t ∅ None);
        c ← get;
        if negb (is_nil found) && forallb (λ i, bool_decide (i ∈ matched c)) found then mret ()
        else
          match found with
          | [index] =>
              if bool_decide (1 < size (default ∅ (evidence_by_sms c !! index)))%nat then
                modify (λ c : Corr, c <| ambiguous ::= λ s, s ∪ list_to_set (agreeing e found c) |>)
              else
                match event_at index c with
                | None => mret ()
                | Some sms =>
                    modify (λ c : Corr, c <| matched ::= λ s, {[index]} ∪ s |>);;
                    if negb (_names_agree e sms) then modify (λ c : Corr, c <| matched ::= λ s, s ∖ {[index]} |>)
                    else join_group routes index e sms
                end
          | _ => modify (λ c : Corr, c <| ambiguous ::= λ s, s ∪ list_to_set (agreeing e found c) |>)
          end
    end.
(** Every Messages notification that could describe each message. *)
Definition note_evidence (candidates : Candidates) (e : Event) : M Corr () :=
  if negb (is_ancs e) || negb (bool_decide (app_id e = MESSAGES_APP_ID)) then mret ()
  else
    match body e, _seen_at e with
    | [], _ | _, None => mret ()
    | text, Some t =>
        found ← lift (matching candidates text t ∅ None);
        c ← get;
        for_each (λ i, modify (λ c : Corr, c <| evidence_by_sms ::= λ m, <[i := {[_notification_evidence e]} ∪ default ∅ (m !! i)]> m |>)) (agreeing e found c)
    end.
(** Notifications of one-to-one messages. *)
Definition link_direct (candidates : Candidates) (e : Event) : M Corr () :=
  if negb (is_ancs e) || negb (bool_decide (app_id e = MESSAGES_APP_ID)) || is_some (members_of e) || is_some (named_group_from_ancs e) then mret ()
  else
    match body e, _seen_at e with
    | [], _ | _, None => mret ()
    | text, Some t =>
        found ← lift (matching candidates text t ∅ (Some 2%nat));
        let sender_title := strip (title e) in
        for_each (λ i, update i (λ s, if spelled_on_keypad sender_title (sender_address s) then s <| sender_alphanumeric := sender_title |> else s)) found;;
        c ← get;
        match found with
        | [index] =>
            match event_at index c, row_id e with
            | Some sms, Some z => when (_names_agree e sms) (update index (λ s, s <| correlated_rows ::= λ l, l ++ [z] |>))
            | _, _ => mret ()
            end
        | _ => mret ()
        end
    end.

(** ** One key for one group *)

Abbreviation cluster := (list ustr * list nat)%type.
Definition add_to_cluster (roster : list ustr) (i : nat) (l : list cluster) : list cluster :=
  if bool_decide (roster ∈ l.*1) then (λ p : cluster, if bool_decide (p.1 = roster) then (p.1, p.2 ++ [i]) else p) <$> l else l ++ [(roster, [i])].
Fixpoint roster_tokens (members : list ustr) : M Corr (list ustr) :=
  match members with [] => mret [] | m :: ms => t ← _member_roster_token m; ts ← roster_tokens ms; mret (t :: ts) end.
Definition cluster_one (routes : NamedGroupRoutes) (l : list cluster) (i : nat) (e : Event) : M Corr (list cluster) :=
  if negb (is_sms e) || bool_decide (group_origin e = lit "named") || has_route routes (group_key e) then mret l
  else
    let members := _member_names (group_members e) in
    if (length members <? 2)%nat then mret l
    else
      tokens ← roster_tokens members;
      let roster := sorted_texts tokens in
      if existsb (starts "name:") roster then mret l else mret (add_to_cluster roster i l).
Fixpoint make_clusters (routes : NamedGroupRoutes) (l : list cluster) (events : list (nat * Event)) : M Corr (list cluster) :=
  match events with [] => mret l | (i, e) :: events' => l ← cluster_one routes l i e; make_clusters routes l events' end.
(** The recipients with an identity, one spelling each. *)
Fixpoint distinct_recipients (seen : list ustr) (l : list ustr) : list (ustr * ustr) :=
  match l with
  | [] => []
  | raw :: l' =>
      match canonical_address raw with
      | Some i => if bool_decide (i ∈ seen) then distinct_recipients seen l' else (i, raw) :: distinct_recipients (i :: seen) l'
      | None => distinct_recipients seen l'
      end
  end.
(** The verified signatures of a cluster, each with its first event. *)
Definition ready_by_signature (c : Corr) (grouped : list nat) : list (list ustr * (ustr * list ustr)) :=
  foldl (λ l i,
    match event_at i c with
    | None => l
    | Some e =>
        let distinct := distinct_recipients [] (group_recipients e) in
        let signature := sorted_texts distinct.*1 in
        if group_reply_ready e && (2 <=? zlen signature) && negb (bool_decide (signature ∈ l.*1))
        then l ++ [(signature, (group_name e, distinct.*2))] else l
    end) [] grouped.
Definition reconcile_cluster (grouped : list nat) : M Corr () :=
  c ← get;
  match ready_by_signature c grouped with
  | [(signature, (name, recipients))] =>
      let key := lit "group:addresses:" ++ join (lit "|") signature in
      for_each (λ i, update i (λ e,
        if bool_decide (group_sender_verified e = Some false) then e
        else e <| group_key := key |> <| group_name := name |> <| group_recipients := recipients |> <| group_reply_ready := true |>
               <| group_origin := [] |> <| group_participants_required := false |> <| group_missing_members := Some [] |>)) grouped
  | _ => mret ()
  end.
Definition indexed (l : list Event) : list (nat * Event) := zip (seq 0 (length l)) l.
Definition _reconcile_group_identities (routes : NamedGroupRoutes) : M Corr () :=
  c ← get;
  clusters ← make_clusters routes [] (indexed (out c));
  for_each (λ p : cluster, reconcile_cluster p.2) clusters.

Definition observed_names (l : list Event) : list ustr := omap (λ e, named_group_from_ancs e) l.
Definition correlation (events : list Event) : M Corr () :=
  let routes := NamedGroupRoutes_init events (observed_names events) in
  set_out (fmap (annotate_stored routes));;
  c ← get;
  candidates ← lift (_MessageCandidates (out c) (List.filter (λ p, is_kind "sms_received" p.2) (indexed (out c))));
  for_each learn_from (out c);;
  for_each (note_evidence candidates) (out c);;
  for_each (correlate_one candidates routes) (out c);;
  modify (λ c : Corr, c <| out ::= imap (λ i e, if bool_decide (i ∈ ambiguous c ∖ matched c) then e <| group_ambiguous := true |> else e) |>);;
  for_each (link_direct candidates) (out c);;
  _reconcile_group_identities routes.
Definition Corr_init (events : list Event) : Corr := mkCorr events ∅ ∅ ∅ ∅ ∅.
Definition correlate_group_events (events : list Event) : result (list Event) :=
  let '(r, c) := correlation events (Corr_init events) in _ ← r; mret (out c).
End correlation.
