(* ===== verification/GroupMatching.v ===== *)
(** * GroupMatching: the index of message bodies finds what a full scan finds.

    [_MessageCandidates] buckets the messages by body and by cut body, sorts
    each bucket by time and searches it by bisection. *)
From S2P Require Import Prelude PyStr Wire Text Recipients Events NamedGroups Grouping.

(** ** Sorted buckets *)

Definition entry_le (a b : Z * nat) : Prop := entry_lt (entry_key b) (entry_key a) = false.
Lemma entry_lt_spec a b : entry_lt a b = true ↔ a.1 < b.1 ∨ (a.1 = b.1 ∧ a.2 < b.2).
Proof. unfold entry_lt. rewrite orb_true_iff, andb_true_iff, !Z.ltb_lt, Z.eqb_eq. done. Qed.
Lemma entry_lt_false a b : entry_lt a b = false ↔ b.1 < a.1 ∨ (b.1 = a.1 ∧ b.2 <= a.2).
Proof. rewrite <- not_true_iff_false, entry_lt_spec. lia. Qed.
Lemma entry_le_spec a b : entry_le a b ↔ a.1 < b.1 ∨ (a.1 = b.1 ∧ (a.2 <= b.2)%nat).
Proof. unfold entry_le, entry_key. rewrite entry_lt_false. cbn. lia. Qed.

Inductive ordered : entries → Prop :=
  | ordered_nil : ordered []
  | ordered_cons x l : Forall (entry_le x) l → ordered l → ordered (x :: l).
Lemma insert_entry_perm x l : insert_entry x l ≡ₚ x :: l.
Proof.
  induction l as [|y l IH]; [done|]. cbn. destruct (entry_lt _ _); [|done]. rewrite IH. apply Permutation_swap.
Qed.
Lemma insert_entry_ordered x l : ordered l → ordered (insert_entry x l).
Proof.
  induction 1 as [|y l Hy Hl IH]; cbn; [by repeat constructor|]. destruct (entry_lt (entry_key y) (entry_key x)) eqn:E.
  - constructor; [|done]. rewrite insert_entry_perm. constructor; [|done]. apply entry_lt_spec in E. apply entry_le_spec. cbn in E. lia.
  - constructor; [|by constructor]. constructor; [exact E|]. eapply Forall_impl; [exact Hy|]. intros z Hz. apply entry_lt_false in E.
    apply entry_le_spec. apply entry_le_spec in Hz. cbn in E. lia.
Qed.
Lemma sort_entries_perm l : sort_entries l ≡ₚ l.
Proof. induction l as [|x l IH]; [done|]. change (insert_entry x (sort_entries l) ≡ₚ x :: l). by rewrite insert_entry_perm, IH. Qed.
Lemma sort_entries_ordered l : ordered (sort_entries l).
Proof. induction l as [|x l IH]; [constructor|]. by apply insert_entry_ordered. Qed.

(** The elements that satisfy a property closed towards the front are a prefix. *)
Section prefix.
Context (p : Z * nat → bool) (Hp : ∀ a b, entry_le a b → p b = true → p a = true).
Lemma ordered_prefix l : ordered l → take (length (List.filter p l)) l = List.filter p l ∧ drop (length (List.filter p l)) l = List.filter (λ x, negb (p x)) l.
Proof.
  induction 1 as [|x l Hx Hl [IH1 IH2]]; [done|]. cbn. destruct (p x) eqn:Ex; cbn; [by rewrite IH1, IH2|].
  assert (List.filter p l = []) as Hn.
  { clear -Hx Ex Hp. induction Hx as [|y l Hy _ IH]; [done|]. cbn. destruct (p y) eqn:Ey; [|done]. by rewrite (Hp _ _ Hy Ey) in Ex. }
  rewrite Hn in *. cbn in *. by rewrite <- IH2.
Qed.
Lemma ordered_filter_not l : ordered l → ordered (List.filter (λ x, negb (p x)) l).
Proof.
  induction 1 as [|x l Hx Hl IH]; [constructor|]. cbn. destruct (negb (p x)); [|done]. constructor; [|done].
  apply Forall_forall. intros y Hy. apply list_elem_of_In, filter_In in Hy as [Hy _]. eapply Forall_forall in Hx; [exact Hx|]. by apply list_elem_of_In.
Qed.
End prefix.
Lemma filter_count {A} (p q : A → bool) l : (∀ x, p x = true → q x = true) →
  length (List.filter q l) = (length (List.filter p l) + length (List.filter q (List.filter (λ x, negb (p x)) l)))%nat.
Proof.
  intros Hpq. induction l as [|x l IH]; [done|]. cbn. destruct (p x) eqn:Ep; cbn.
  - rewrite (Hpq _ Ep). cbn. lia.
  - destruct (q x); cbn; lia.
Qed.

Definition in_window (instant : Z) (t : Z) : Prop := instant - CORRELATION_WINDOW <= t <= instant + CORRELATION_WINDOW.
(** The slice between the bisections holds the entries of the time window. *)
Lemma window_spec maximum instant l x : ordered l → Forall (λ y, (y.2 <= maximum)%nat) l →
  x ∈ window maximum instant l ↔ x ∈ l ∧ in_window instant x.1.
Proof.
  intros Hl Hm. unfold window, bisect_left, bisect_right. set (lo := (instant - CORRELATION_WINDOW, -1)). set (hi := (instant + CORRELATION_WINDOW, Z.of_nat maximum)).
  set (p := λ e : Z * nat, entry_lt (entry_key e) lo). set (q := λ e : Z * nat, negb (entry_lt hi (entry_key e))).
  assert (∀ a b, entry_le a b → p b = true → p a = true) as Hp.
  { intros a b Hab. unfold p. rewrite !entry_lt_spec. apply entry_le_spec in Hab. subst lo. cbn. lia. }
  assert (∀ a b, entry_le a b → q b = true → q a = true) as Hq.
  { intros a b Hab. unfold q. rewrite !negb_true_iff, !entry_lt_false. apply entry_le_spec in Hab. subst hi. cbn. lia. }
  assert (∀ a, p a = true → q a = true) as Hpq.
  { intros a. unfold p, q. rewrite entry_lt_spec, negb_true_iff, entry_lt_false. subst lo hi. unfold CORRELATION_WINDOW. cbn. lia. }
  change (x ∈ take (length (List.filter q l) - length (List.filter p l)) (drop (length (List.filter p l)) l) ↔ x ∈ l ∧ in_window instant x.1).
  rewrite (proj2 (ordered_prefix p Hp l Hl)), (filter_count p q l Hpq), Nat.add_comm, Nat.add_sub.
  rewrite (proj1 (ordered_prefix q Hq _ (ordered_filter_not p l Hl))).
  rewrite !list_elem_of_In, !filter_In, <- list_elem_of_In. unfold p, q, in_window.
  rewrite !negb_true_iff, !entry_lt_false. subst lo hi. cbn. split.
  - intros [[H1 H2] H3]. split; [done|]. lia.
  - intros [H1 H2]. rewrite Forall_forall in Hm. specialize (Hm _ H1). cbn in Hm. split; [split; [done|lia]|lia].
Qed.

(** ** Scanning *)

Lemma scan_all excluded ms l : scan None excluded ms l = (ms ++ List.filter (λ i, negb (bool_decide (i ∈ excluded))) l.*2, false).
Proof.
  revert ms. induction l as [|[t i] l IH]; intros ms; cbn; [by rewrite app_nil_r|]. destruct (bool_decide (i ∈ excluded)); cbn; [apply IH|].
  unfold full. rewrite bool_decide_eq_false_2 by done. rewrite IH. by rewrite <- app_assoc.
Qed.
Lemma scan_limit n excluded ms l : (length ms < n)%nat → let all := (scan None excluded ms l).1 in
  scan (Some n) excluded ms l = if (n <=? length all)%nat then (take n all, true) else (all, false).
Proof.
  revert ms. induction l as [|[t i] l IH]; intros ms Hn; cbn.
  - destruct (n <=? length ms)%nat eqn:E; [apply Nat.leb_le in E; lia|done].
  - destruct (bool_decide (i ∈ excluded)); [by apply IH|]. unfold full. rewrite (bool_decide_eq_false_2 (None = _)) by done.
    case_bool_decide as Hf.
    + injection Hf as ->. rewrite scan_all. cbn [fst]. rewrite length_app in *. cbn in *.
      replace (length ms + 1 <=? length ((ms ++ [i]) ++ List.filter (λ i0, negb (bool_decide (i0 ∈ excluded))) l.*2))%nat with true
        by (symmetry; apply Nat.leb_le; rewrite !length_app; cbn; lia).
      by rewrite take_app_le, take_ge by (rewrite length_app; cbn; lia).
    + apply IH. rewrite length_app in *. cbn in *. assert (n ≠ length ms + 1)%nat by congruence. lia.
Qed.
Lemma scan_buckets_all excluded maximum instant ms bs :
  scan_buckets None excluded maximum instant ms bs = ms ++ List.filter (λ i, negb (bool_decide (i ∈ excluded))) (concat (window maximum instant <$> bs)).*2.
Proof.
  revert ms. induction bs as [|b bs IH]; intros ms; cbn; [by rewrite app_nil_r|]. rewrite scan_all. rewrite IH.
  by rewrite fmap_app, List.filter_app, app_assoc.
Qed.
Lemma scan_buckets_limit n excluded maximum instant ms bs : (length ms < n)%nat →
  scan_buckets (Some n) excluded maximum instant ms bs = take n (scan_buckets None excluded maximum instant ms bs).
Proof.
  revert ms. induction bs as [|b bs IH]; intros ms Hn; cbn; [by rewrite take_ge by lia|]. rewrite scan_limit by done. rewrite scan_all. cbn [fst].
  set (all := ms ++ _). destruct (n <=? length all)%nat eqn:E.
  - apply Nat.leb_le in E. rewrite scan_buckets_all. by rewrite take_app_le.
  - apply IH. by apply Nat.leb_gt in E.
Qed.

(** ** The buckets of the index *)

Definition bucket (m : gmap ustr entries) (k : ustr) : entries := default [] (m !! k).
Lemma bucket_append k x m k' : bucket (append_to k x m) k' = bucket m k' ++ (if bool_decide (k = k') then [x] else []).
Proof.
  unfold bucket, append_to. case_bool_decide as E; [subst; by rewrite lookup_insert_eq|]. by rewrite lookup_insert_ne, app_nil_r.
Qed.
Lemma bucket_sorted m k : bucket (sort_entries <$> m) k = sort_entries (bucket m k).
Proof. unfold bucket. rewrite lookup_fmap. by destruct (m !! k). Qed.

Definition byte_size (s : ustr) : Z := match utf8_encode s with Ok bs => zlen bs | Raise _ => 0 end.
(** The messages a cap cuts to [k]. *)
Definition cut_to (cap : Z) (k : ustr) (e : Event) : bool := (cap <? byte_size (body e)) && bool_decide (_cut_to_bytes (body e) cap = k).
Definition with_body (k : ustr) (e : Event) : bool := bool_decide (body e = k).

Section index.
Context `{Resolver}.

Definition picked (P : Event → bool) (l : list (nat * Event)) : entries :=
  omap (λ p, t ← _seen_at p.2; if P p.2 then Some (t, p.1) else None) l.
#[local] Arguments picked : simpl never.
Lemma elem_of_picked P l t i : (t, i) ∈ picked P l ↔ ∃ e, (i, e) ∈ l ∧ _seen_at e = Some t ∧ P e = true.
Proof.
  unfold picked. rewrite list_elem_of_omap. split.
  - intros ([j e] & Hin & He). cbn in He. destruct (_seen_at e) as [t'|] eqn:Et; [|done]. cbn in He. destruct (P e) eqn:EP; [|done].
    injection He as -> ->. eauto.
  - intros (e & Hin & Et & EP). exists (i, e). cbn. by rewrite Et; cbn; rewrite EP.
Qed.
Lemma picked_indexes P l : sublist (picked P l).*2 l.*1.
Proof.
  induction l as [|[i e] l IH]; [done|]. unfold picked in *. cbn [omap list_omap fmap list_fmap fst snd].
  destruct (_seen_at e); cbn; [|by constructor]. destruct (P e); cbn; by constructor.
Qed.

(** Two indices with the same caps, the second with [l] added. *)
Definition extended (l : list (nat * Event)) (c c' : Candidates) : Prop :=
  maximum_index c' = maximum_index c ∧ (∀ k, bucket (exact c') k = bucket (exact c) k ++ picked (with_body k) l) ∧
  Forall2 (λ q q', q'.1 = q.1 ∧ ∀ k, bucket q'.2 k = bucket q.2 k ++ picked (cut_to q.1 k) l) (prefix c) (prefix c').
Lemma extended_nil c : extended [] c c.
Proof.
  split_and!; [done|intros k; by rewrite app_nil_r|]. induction (prefix c); constructor; [|done]. split; [done|]. intros k. by rewrite app_nil_r.
Qed.
Lemma extended_app l l' c c' c'' : extended l c c' → extended l' c' c'' → extended (l ++ l') c c''.
Proof.
  assert (∀ P, picked P (l ++ l') = picked P l ++ picked P l') as Happ by (intros P; apply omap_app).
  intros (Hm & He & Hp) (Hm' & He' & Hp'). split_and!; [congruence|intros k; by rewrite Happ, He', He, app_assoc|].
  revert Hp'. generalize (prefix c''). induction Hp as [|q q' qs qs' [E HB] _ IH]; intros qs'' Hp'; inversion Hp' as [|? q'' ? qs3 [E' HB'] Hrest]; subst; constructor.
  - split; [congruence|]. intros k. rewrite Happ, HB', HB, E. by rewrite app_assoc.
  - by apply IH.
Qed.
Lemma add_candidate_extends c p c' : add_candidate c p = Ok c' → extended [p] c c'.
Proof.
  destruct p as [i e]. unfold add_candidate. destruct (_seen_at e) as [t|] eqn:Et.
  2: { intros [= <-]. destruct (extended_nil c) as (H1 & H2 & H3). unfold extended, picked. cbn. rewrite Et. cbn. exact (conj H1 (conj H2 H3)). }
  assert (∀ P, picked P [(i, e)] = if P e then [(t, i)] else []) as Hone by (intros P; unfold picked; cbn; rewrite Et; cbn; by destruct (P e)).
  destruct (utf8_encode (body e)) as [bs|] eqn:Eb; [|done]. cbn. intros [= <-]. split_and!; cbn; [done| |].
  - intros k. by rewrite bucket_append, Hone.
  - assert (byte_size (body e) = zlen bs) as Hsz by (unfold byte_size; by rewrite Eb).
    induction (prefix c) as [|q qs IH]; constructor; [|done]. cbn. split; [done|]. intros k. rewrite Hone. unfold cut_to. rewrite Hsz.
    destruct (q.1 <? zlen bs); cbn; [apply bucket_append|by rewrite app_nil_r].
Qed.
Lemma add_candidates_extends l c c' : add_candidates c l = Ok c' → extended l c c'.
Proof.
  revert c. induction l as [|p l IH]; intros c; cbn; [intros [= <-]; apply extended_nil|].
  destruct (add_candidate c p) as [c1|] eqn:E1; [|done]. cbn. intros E2. change (p :: l) with ([p] ++ l).
  eapply extended_app; [by apply add_candidate_extends|by apply IH].
Qed.

(** Every bucket of the finished index, sorted. *)
Lemma candidates_buckets events sms c : _MessageCandidates events sms = Ok c →
  maximum_index c = length events ∧ (∀ k, bucket (exact c) k = sort_entries (picked (with_body k) sms)) ∧
  ∃ m256 m1024, prefix c = [(256, m256); (1024, m1024)] ∧
    (∀ k, bucket m256 k = sort_entries (picked (cut_to 256 k) sms)) ∧ (∀ k, bucket m1024 k = sort_entries (picked (cut_to 1024 k) sms)).
Proof.
  unfold _MessageCandidates. destruct (add_candidates _ sms) as [c0|] eqn:E; [|done]. cbn. intros [= <-]. apply add_candidates_extends in E as (Hm & He & Hp).
  cbn in *. split_and!; [done|intros k; by rewrite bucket_sorted, He|]. inversion Hp as [|? [n1 m1] ? qs [E1 B1] Hp1]; subst. inversion Hp1 as [|? [n2 m2] ? qs2 [E2 B2] Hp2]; subst.
  inversion Hp2; subst. cbn in *. subst. exists (sort_entries <$> m1), (sort_entries <$> m2). split_and!; [done|..]; intros k; rewrite bucket_sorted; by rewrite ?B1, ?B2.
Qed.
(** Texts that can be encoded are indexed without an error. *)
Lemma candidates_ok events sms : Forall (λ p, is_ok (utf8_encode (body p.2)) = true) sms → ∃ c, _MessageCandidates events sms = Ok c.
Proof.
  intros Hs. unfold _MessageCandidates. generalize {| exact := ∅; prefix := (λ cap : Z, (cap, ∅ : gmap ustr entries)) <$> ANCS_MESSAGE_CAPS_REQUESTED; maximum_index := length events |}.
  induction Hs as [|[i e] l He _ IH]; intros c; [eexists; reflexivity|]. cbn [add_candidates add_candidate snd] in *. destruct (_seen_at e); [|apply IH].
  destruct (utf8_encode (body e)); [apply IH|done].
Qed.
End index.

(** ** What matches *)

(** The text of a notification without the U+FFFD of a character cut in half. *)
Definition whole_text (text : ustr) : ustr := rstrip_by (λ x, x =? REPLACEMENT) text.
(** The reference: a text names a message by its whole body, or by its body cut
    to one of the two sizes that notifications are requested with. *)
Definition describes (text : ustr) (e : Event) : Prop :=
  body e = text ∨
  ∃ cap, cap ∈ ANCS_MESSAGE_CAPS_REQUESTED ∧ cap - 3 <= byte_size (whole_text text) <= cap ∧
    cap < byte_size (body e) ∧ _cut_to_bytes (body e) cap = whole_text text.

Section matching.
Context `{Resolver}.

(** A message received in the time window whose body [text] describes. *)
Definition is_match (sms : list (nat * Event)) (text : ustr) (instant : Z) (i : nat) : Prop :=
  ∃ e t, (i, e) ∈ sms ∧ _seen_at e = Some t ∧ in_window instant t ∧ describes text e.

Definition buckets (c : Candidates) (text : ustr) : list entries :=
  bucket (exact c) text ::
    omap (λ q : Z * gmap ustr entries, if (q.1 - _UTF8_CUT_SLACK <=? byte_size (whole_text text)) && (byte_size (whole_text text) <=? q.1)
      then Some (bucket q.2 (whole_text text)) else None) (prefix c).
Lemma matching_eq c text t excluded limit found : matching c text t excluded limit = Ok found →
  found = scan_buckets limit excluded (maximum_index c) t [] (buckets c text).
Proof.
  unfold matching, buckets, byte_size. fold (whole_text text). destruct (utf8_encode (whole_text text)) as [bs|]; [|done]. cbn. by intros [= <-].
Qed.
Lemma elem_of_found c text t excluded i : i ∈ scan_buckets None excluded (maximum_index c) t [] (buckets c text) ↔
  i ∉ excluded ∧ ∃ b u, b ∈ buckets c text ∧ (u, i) ∈ window (maximum_index c) t b.
Proof.
  rewrite scan_buckets_all, app_nil_l, list_elem_of_In, filter_In, <- list_elem_of_In, negb_true_iff, bool_decide_eq_false, list_elem_of_fmap. split.
  - intros [([u j] & -> & Hin) Hx]. split; [done|]. apply list_elem_of_In, in_concat in Hin as (w & Hw & Hin). apply list_elem_of_In, list_elem_of_fmap in Hw as (b & -> & Hb).
    exists b, u. split; [done|]. by apply list_elem_of_In.
  - intros [Hx (b & u & Hb & Hin)]. split; [|done]. exists (u, i). split; [done|]. apply list_elem_of_In, in_concat. exists (window (maximum_index c) t b).
    split; apply list_elem_of_In; [|done]. by apply list_elem_of_fmap_2.
Qed.
Lemma picked_bound P (sms : list (nat * Event)) n : Forall (λ p, p.1 < n)%nat sms → Forall (λ y, (y.2 <= n)%nat) (sort_entries (picked P sms)).
Proof.
  intros Hs. rewrite sort_entries_perm. apply Forall_forall. intros [t i] (e & Hin & _)%elem_of_picked. rewrite Forall_forall in Hs.
  specialize (Hs _ Hin). cbn in *. lia.
Qed.
Lemma elem_of_window P (sms : list (nat * Event)) n t u i : Forall (λ p, p.1 < n)%nat sms →
  (u, i) ∈ window n t (sort_entries (picked P sms)) ↔ (∃ e, (i, e) ∈ sms ∧ _seen_at e = Some u ∧ P e = true) ∧ in_window t u.
Proof.
  intros Hs. rewrite (window_spec n t (sort_entries (picked P sms)) (u, i) (sort_entries_ordered _) (picked_bound P sms n Hs)). cbn [fst].
  rewrite (elem_of_Permutation_proper _ _ _ (sort_entries_perm (picked P sms))), elem_of_picked. done.
Qed.

Lemma window_sublist n t l : sublist (window n t l) l.
Proof. unfold window. etrans; [apply sublist_take|apply sublist_drop]. Qed.
Lemma picked_nodup P (sms : list (nat * Event)) n t : NoDup sms.*1 → NoDup (window n t (sort_entries (picked P sms))).*2.
Proof.
  intros Hs. eapply sublist_NoDup; [|apply fmap_sublist, window_sublist]. rewrite sort_entries_perm. eapply sublist_NoDup; [exact Hs|apply picked_indexes].
Qed.
Lemma same_index (sms : list (nat * Event)) i e e' : NoDup sms.*1 → (i, e) ∈ sms → (i, e') ∈ sms → e = e'.
Proof.
  intros Hs H1 H2. apply list_elem_of_lookup in H1 as [j Hj], H2 as [j' Hj']. assert (j = j') as <-; [|congruence].
  eapply (NoDup_lookup sms.*1); [done|rewrite list_lookup_fmap, Hj|rewrite list_lookup_fmap, Hj']; done.
Qed.
(** A body that ends in no U+FFFD and its cuts are in different buckets. *)
Lemma found_nodup events sms c text t : _MessageCandidates events sms = Ok c → Forall (λ p, p.1 < length events)%nat sms → NoDup sms.*1 →
  whole_text text = text → NoDup (concat (window (maximum_index c) t <$> buckets c text)).*2.
Proof.
  intros Hc Hb Hs Hw. apply candidates_buckets in Hc as (Hm & He & m256 & m1024 & Hp & H256 & H1024). rewrite Hm. unfold buckets. rewrite Hp, He, Hw. cbn [omap list_omap fst snd].
  rewrite H256, H1024. change _UTF8_CUT_SLACK with 3. set (size := byte_size text).
  assert (∀ cap, size <= cap → NoDup (window (length events) t (sort_entries (picked (with_body text) sms)) ++ window (length events) t (sort_entries (picked (cut_to cap text) sms)) ++ []).*2) as Htwo.
  { intros cap Hcap. rewrite app_nil_r, fmap_app. apply NoDup_app. split_and!; [by apply picked_nodup| |by apply picked_nodup].
    intros i ([u j] & -> & H1)%list_elem_of_fmap ([u' j'] & Hj & H2)%list_elem_of_fmap. cbn in Hj. subst j'. apply elem_of_window in H1 as [(e & Hi & _ & H1) _]; [|done].
    apply elem_of_window in H2 as [(e' & Hi' & _ & H2) _]; [|done]. destruct (same_index _ _ _ _ Hs Hi Hi'). unfold with_body, cut_to in *.
    rewrite andb_true_iff, Z.ltb_lt in H2. apply bool_decide_eq_true in H1. rewrite H1 in H2. subst size. lia. }
  assert (NoDup (window (length events) t (sort_entries (picked (with_body text) sms)) ++ []).*2) as Hone by (rewrite app_nil_r; by apply picked_nodup).
  destruct ((256 - 3 <=? size) && _) eqn:E1; destruct ((1024 - 3 <=? size) && _) eqn:E2; rewrite ?andb_true_iff, ?Z.leb_le in *; cbn [fmap list_fmap concat].
  - lia.
  - apply (Htwo 256). lia.
  - apply (Htwo 1024). lia.
  - exact Hone.
Qed.

(** A search without limit finds the matches. *)
Lemma matching_found events sms c text instant excluded found :
  _MessageCandidates events sms = Ok c → Forall (λ p, p.1 < length events)%nat sms → matching c text instant excluded None = Ok found →
  ∀ i, i ∈ found ↔ i ∉ excluded ∧ is_match sms text instant i.
Proof.
  intros Hc Hs Hf. apply matching_eq in Hf.
  intros i. rewrite Hf, elem_of_found.
  apply candidates_buckets in Hc as (Hm & He & m256 & m1024 & Hp & H256 & H1024). rewrite Hm. unfold buckets, is_match, describes. rewrite Hp, He. cbn [omap list_omap fst snd].
  rewrite H256, H1024. set (size := byte_size (whole_text text)). set (cut := whole_text text). change _UTF8_CUT_SLACK with 3. split.
  - intros [Hx (b & u & Hb & Hin)]. split; [done|]. apply elem_of_cons in Hb as [->|Hb].
    + apply elem_of_window in Hin as [(e & Hi & Hu & Hw) Ht]; [|done]. apply bool_decide_eq_true in Hw. exists e, u. eauto.
    + assert (∃ cap, cap ∈ ANCS_MESSAGE_CAPS_REQUESTED ∧ cap - 3 <= size <= cap ∧ b = sort_entries (picked (cut_to cap cut) sms)) as (cap & Hcap & Hsz & ->).
      { destruct ((256 - 3 <=? size) && _) eqn:E1; destruct ((1024 - 3 <=? size) && _) eqn:E2; rewrite ?andb_true_iff, ?Z.leb_le in *;
          try lia; set_unfold in Hb; destruct_or?; try done; subst; eexists; (split; [|split; [eassumption|reflexivity]]); unfold ANCS_MESSAGE_CAPS_REQUESTED; set_solver. }
      apply elem_of_window in Hin as [(e & Hi & Hu & Hw) Ht]; [|done]. unfold cut_to in Hw. rewrite andb_true_iff, Z.ltb_lt, bool_decide_eq_true in Hw.
      exists e, u. split_and!; [done..|]. right. exists cap. tauto.
  - intros [Hx (e & u & Hi & Hu & Ht & [Hb|(cap & Hcap & Hsz & Hlt & Hcut)])]; (split; [done|]).
    + exists (sort_entries (picked (with_body text) sms)), u. split; [set_solver|]. apply elem_of_window; [done|]. split; [|done]. exists e. unfold with_body. by rewrite bool_decide_eq_true.
    + exists (sort_entries (picked (cut_to cap cut) sms)), u. split.
      * unfold ANCS_MESSAGE_CAPS_REQUESTED in Hcap. set_unfold in Hcap. right.
        destruct ((256 - 3 <=? size) && _) eqn:E1; destruct ((1024 - 3 <=? size) && _) eqn:E2; rewrite ?andb_true_iff, ?andb_false_iff, ?Z.leb_le, ?Z.leb_gt in *;
          destruct_or?; subst; (lia || set_solver).
      * apply elem_of_window; [done|]. split; [|done]. exists e. unfold cut_to. rewrite andb_true_iff, Z.ltb_lt, bool_decide_eq_true. done.
Qed.
End matching.

(** ** What iOS cuts is found again *)

Lemma utf8_char_size c : (1 <= length (utf8_char c) <= 4)%nat.
Proof. unfold utf8_char. repeat case_match; cbn; lia. Qed.
Lemma utf8_decode_partial c n : is_scalar c = true → (0 < n < length (utf8_char c))%nat → utf8_decode (take n (utf8_char c)) = [REPLACEMENT].
Proof.
  unfold is_scalar, utf8_char. intros Hc Hn. repeat (rewrite andb_true_iff in Hc || rewrite negb_true_iff in Hc).
  destruct (c <? 0x80) eqn:E1; [cbn in Hn; lia|].
  destruct (c <? 0x800) eqn:E2; [|destruct (c <? 0x10000) eqn:E3]; cbn [length] in Hn; destruct n as [|[|[|[|n]]]]; try lia;
    cbn [take utf8_decode]; unfold cont3_ok, cont4_ok, is_cont, low6; rewrite !b2z_z2b_small by (Zdivmod_facts; lia); Zdivmod_facts;
    repeat match goal with
    | |- context [if ?b then _ else _] => first [replace b with true by (symmetry; lia) | replace b with false by (symmetry; lia)]
    end; reflexivity.
Qed.
(** Decoding a cut body gives its whole characters and at most one U+FFFD. *)
Lemma cut_decoded s bs (cap : nat) : utf8_encode s = Ok bs → (cap < length bs)%nat → ∃ whole, utf8_encode (cut_chars (Z.of_nat cap) s) = Ok whole ∧
  (Z.of_nat cap - 3 <= zlen whole <= Z.of_nat cap) ∧
  (utf8_decode (take cap bs) = cut_chars (Z.of_nat cap) s ∨ utf8_decode (take cap bs) = cut_chars (Z.of_nat cap) s ++ [REPLACEMENT]).
Proof.
  revert bs cap. induction s as [|c s IH]; intros bs cap He Hlt; [injection He as <-; cbn in Hlt; lia|]. apply utf8_encode_cons in He as (r & Hc & Hr & ->).
  pose proof (utf8_char_size c) as Hsz. cbn [cut_chars]. rewrite length_app in Hlt.
  destruct (Z.leb_spec (zlen (utf8_char c)) (Z.of_nat cap)) as [Hle|Hgt]; [unfold zlen in Hle|unfold zlen in Hgt].
  - destruct (IH r (cap - length (utf8_char c))%nat Hr ltac:(lia)) as (whole & Hw & Hb & Hd).
    replace (Z.of_nat cap - zlen (utf8_char c)) with (Z.of_nat (cap - length (utf8_char c))) by (unfold zlen; lia).
    exists (utf8_char c ++ whole). cbn [utf8_encode]. rewrite Hc, Hw. split; [done|]. split; [unfold zlen in *; rewrite length_app; lia|].
    rewrite take_app_ge by lia. rewrite utf8_decode_char by done. destruct Hd as [Hd|Hd]; rewrite Hd; [by left|by right].
  - exists []. split; [done|]. split; [unfold zlen; cbn; lia|]. rewrite take_app_le by lia. destruct cap as [|n]; [by left|]. right. apply utf8_decode_partial; [done|]. lia.
Qed.
Lemma whole_text_id s : last s ≠ Some REPLACEMENT → whole_text s = s.
Proof.
  unfold whole_text. intros Hs. destruct s as [|c s _] using rev_ind; [done|]. apply rstrip_by_id. rewrite last_snoc in Hs.
  destruct (Z.eqb_spec c REPLACEMENT); [congruence|done].
Qed.
Lemma whole_text_snoc s : last s ≠ Some REPLACEMENT → whole_text (s ++ [REPLACEMENT]) = s.
Proof. intros Hs. unfold whole_text. rewrite rstrip_by_all by by repeat constructor. by apply whole_text_id. Qed.

Section completeness.
Context `{Resolver}.

(** The text that the parser makes of a body in a field of [cap] bytes. *)
Definition shown (bs : bytes) (cap : nat) : ustr := utf8_decode (take cap bs).
Lemma shown_describes e bs cap : utf8_encode (body e) = Ok bs → Z.of_nat cap ∈ ANCS_MESSAGE_CAPS_REQUESTED →
  last (_cut_to_bytes (body e) (Z.of_nat cap)) ≠ Some REPLACEMENT → describes (shown bs cap) e.
Proof.
  intros Hb Hcap Hl. unfold describes, shown. destruct (decide (cap < length bs)%nat) as [Hlt|Hge].
  2: { left. rewrite take_ge by lia. symmetry. by apply utf8_roundtrip. }
  right. exists (Z.of_nat cap). destruct (cut_decoded _ _ _ Hb Hlt) as (whole & Hw & Hsz & Hd). unfold _cut_to_bytes in *.
  assert (whole_text (utf8_decode (take cap bs)) = cut_chars (Z.of_nat cap) (body e)) as ->.
  { destruct Hd as [Hd|Hd]; rewrite Hd; [by apply whole_text_id|by apply whole_text_snoc]. }
  unfold byte_size. rewrite Hw, Hb. split_and!; [done|lia|lia|unfold zlen; lia|done].
Qed.

Lemma encode_scalar s bs : utf8_encode s = Ok bs → Forall (λ c, is_scalar c = true) s.
Proof.
  revert bs. induction s as [|c s IH]; intros bs H1; [constructor|]. apply utf8_encode_cons in H1 as (r & Hc & Hr & _). constructor; eauto.
Qed.
Lemma whole_text_prefix s : whole_text s `prefix_of` s.
Proof.
  unfold whole_text, rstrip_by. set (f := λ x, x =? REPLACEMENT). assert (∀ l, ∃ p, l = p ++ lstrip_by f l) as Hl.
  { induction l as [|c l [q IH]]; [by exists []|]. cbn. destruct (f c); [|by exists []]. exists (c :: q). cbn. by rewrite <- IH. }
  destruct (Hl (reverse s)) as [q Hq]. exists (reverse q). rewrite <- reverse_app, <- Hq. by rewrite reverse_involutive.
Qed.
Lemma matching_ok c text instant excluded limit : Forall (λ x, is_scalar x = true) (whole_text text) → ∃ found, matching c text instant excluded limit = Ok found.
Proof.
  intros Hs. apply utf8_encode_ok in Hs. unfold matching. fold (whole_text text). destruct (utf8_encode (whole_text text)) as [bs|]; [|done]. cbn. eauto.
Qed.
Lemma shown_scalar s bs cap : utf8_encode s = Ok bs → last (_cut_to_bytes s (Z.of_nat cap)) ≠ Some REPLACEMENT → Forall (λ x, is_scalar x = true) (whole_text (shown bs cap)).
Proof.
  intros Hb Hl. unfold shown. destruct (decide (cap < length bs)%nat) as [Hlt|Hge].
  - destruct (cut_decoded _ _ _ Hb Hlt) as (whole & Hw & _ & [Hd|Hd]); rewrite Hd, ?whole_text_id, ?whole_text_snoc by done; by eapply encode_scalar.
  - rewrite take_ge, (utf8_roundtrip s bs Hb) by lia. destruct (whole_text_prefix s) as [q Hq]. apply encode_scalar in Hb. rewrite Hq in Hb. by apply Forall_app in Hb as [Hb _].
Qed.

(** C35: The bisection over the message index finds what a scan of all messages
    finds: the messages of the notification's minute before and after whose
    body is its text, or whose longer body, cut between characters to one of
    the requested sizes, is its text without a character cut in half; and with
    a limit, the first of these.  No message is found twice for a text that
    does not end in U+FFFD. *)
Theorem matching_exact events sms c text instant excluded found limit limited :
  _MessageCandidates events sms = Ok c → Forall (λ p, p.1 < length events)%nat sms →
  matching c text instant excluded None = Ok found → matching c text instant excluded (Some (S limit)) = Ok limited →
  (∀ i, i ∈ found ↔ i ∉ excluded ∧ is_match sms text instant i) ∧ limited = take (S limit) found ∧
  (NoDup sms.*1 → whole_text text = text → NoDup found).
Proof.
  intros Hc Hs Hf Hl. split; [by eapply matching_found|]. apply matching_eq in Hf, Hl. split; [subst; apply scan_buckets_limit; cbn; lia|].
  intros Hd Hw. subst found. rewrite scan_buckets_all. apply NoDup_ListNoDup, List.NoDup_filter, NoDup_ListNoDup. by eapply found_nodup.
Qed.

(** C36: A notification finds its message although iOS cut the body: when ANCS
    sent the first 256 or 1024 bytes of a received message's body (the whole
    body when it is shorter, perhaps ending inside a character) within a minute
    of the message, the text decoded from these bytes matches the message; the
    cut must not fall behind a U+FFFD of the body itself. *)
Theorem cut_notification_matches events sms c i e t bs cap instant :
  _MessageCandidates events sms = Ok c → Forall (λ p, p.1 < length events)%nat sms →
  (i, e) ∈ sms → _seen_at e = Some t → in_window instant t → utf8_encode (body e) = Ok bs →
  Z.of_nat cap ∈ ANCS_MESSAGE_CAPS_REQUESTED → last (_cut_to_bytes (body e) (Z.of_nat cap)) ≠ Some REPLACEMENT →
  ∃ found, matching c (shown bs cap) instant ∅ None = Ok found ∧ i ∈ found.
Proof.
  intros Hc Hs Hi Ht Hw Hb Hcap Hl. destruct (matching_ok c (shown bs cap) instant ∅ None) as [found Hf]; [by eapply shown_scalar|]. exists found. split; [done|].
  eapply matching_found; [done..|]. split; [set_solver|]. exists e, t. split_and!; [done..|]. by apply shown_describes.
Qed.
End completeness.

(** ** Concrete events *)

Definition blank : Event := {|
  kind := []; app_id := []; title := []; subtitle := []; handle := []; body := []; sender_address := []; sender_phone_norm := []; contact_name := [];
  timestamp := []; seen_at := []; is_read := None; body_truncated := false; sender_alphanumeric := []; group_key := []; group_name := []; group_members := [];
  group_recipients := []; group_reply_ready := false; group_aliases := []; group_origin := []; group_participants_required := false;
  group_missing_members := None; group_observed_sender := []; group_observed_recipient := []; group_roster_changed := false; group_unexpected_sender := [];
  group_roster_warning_id := []; group_sender_verified := None; group_ambiguous := false; row_id := None; correlated_rows := [] |}.
(** A clock that reads a text as seconds of as many as its characters. *)
#[local] Instance demo_resolver : Resolver := {| find_by_name := None; seen_instant s := Some (zlen s * 1000000) |}.
Definition demo_message (text seen : ustr) : Event := blank <| kind := lit "sms_received" |> <| body := text |> <| seen_at := seen |>.
Definition or_else {A} (d : A) (r : result A) : A := match r with Ok a => a | Raise _ => d end.
Definition demo_index (l : list Event) : Candidates := or_else (mkCandidates ∅ [] 0) (_MessageCandidates l (indexed l)).

(** Two messages with one body; a third is more than a minute late. *)
Definition demo_events : list Event := [demo_message (lit "ok") (lit "now"); demo_message (lit "ok") (lit "later"); demo_message (lit "ok") (repeat 65 90)].
Lemma matching_exact_witness :
  (∀ i, i ∈ [0; 1]%nat ↔ i ∉ (∅ : gset nat) ∧ is_match (indexed demo_events) (lit "ok") 4000000 i) ∧ [0]%nat = take 1 [0; 1]%nat ∧
  (NoDup (indexed demo_events).*1 → whole_text (lit "ok") = lit "ok" → NoDup [0; 1]%nat).
Proof.
  apply (matching_exact demo_events (indexed demo_events) (demo_index demo_events) (lit "ok") 4000000 ∅ [0; 1]%nat 0 [0]%nat); [by vm_compute| |by vm_compute..].
  repeat constructor; cbn; lia.
Defined.
(** A body of 257 bytes whose last character is cut. *)
Definition long_body : ustr := repeat 97 254 ++ [0x20AC].
Lemma cut_notification_matches_witness :
  let l := [demo_message long_body (lit "now")] in
  ∃ c, _MessageCandidates l (indexed l) = Ok c ∧
  ∃ found, matching c (shown (or_else [] (utf8_encode long_body)) 256) 3000000 ∅ None = Ok found ∧ 0%nat ∈ found.
Proof.
  intros l. destruct (candidates_ok l (indexed l)) as [c Hc]; [by repeat constructor|]. exists c. split; [exact Hc|].
  apply (cut_notification_matches l (indexed l) c 0 (demo_message long_body (lit "now")) 3000000 _ 256%nat 3000000);
    [exact Hc|apply Forall_singleton, Nat.lt_0_1|apply list_elem_of_here|reflexivity| |vm_compute; reflexivity|apply list_elem_of_here|vm_compute; congruence].
  unfold in_window, CORRELATION_WINDOW. lia.
Defined.
(** A body of 257 bytes that ends in a real U+FFFD is in two buckets, so one
    message counts as two candidates and is never joined with its notification. *)
Example counted_twice : let text := repeat 97 254 ++ [REPLACEMENT] in
  matching (demo_index [demo_message text (lit "now")]) text 3000000 ∅ None = Ok [0; 0]%nat.
Proof. by vm_compute. Qed.
