(* ===== verification/GroupSafety.v ===== *)
(** * GroupSafety: which groups may be answered.

    [grounded] is the specification of [group_reply_ready]: the evidence that
    permits a reply to a group.  Every event of the correlation that is ready
    has such evidence, whatever names the notifications claim. *)
From S2P Require Import Prelude PyStr Wire Text Recipients Events NamedGroups Grouping GroupMatching.

(** ** The evidence *)

(** What MAP and ANCS said of an event; the correlation writes none of it. *)
Definition transport (e : Event) :=
  (kind e, app_id e, title e, subtitle e, body e, (sender_address e, sender_phone_norm e, contact_name e, seen_at e)).

Section evidence.
Context `{CaseMapping, Digests, Resolver}.
Context (events : list Event).

Definition routes : NamedGroupRoutes := NamedGroupRoutes_init events (observed_names events).

(** MAP joins the name (casefolded) and the address. *)
Definition introduced (folded address : ustr) : Prop :=
  ∃ e, e ∈ events ∧ is_sms e = true ∧ strip (contact_name e) ≠ [] ∧ str_casefold (strip (contact_name e)) = folded ∧ safe_event_address e = Some address.
(** The addresses that contacts give for a spelling of the name. *)
Definition of_contacts (name : ustr) : list ustr :=
  match find_by_name with None => [] | Some find => (List.filter (λ p, bool_decide (str_casefold p.1 = str_casefold name)) (find name)).*2 end.
(** The one address of a member: itself an address, or the only identity that
    history and contacts together know under the name. *)
Definition one_address (member address : ustr) : Prop :=
  (canonical_address member ≠ None ∧ address = strip member) ∨
  (canonical_address member = None ∧ ∃ spelling i, str_casefold spelling = str_casefold member ∧
    (introduced (str_casefold member) address ∨ address ∈ of_contacts spelling) ∧ canonical_address address = Some i ∧
    ∀ other j, introduced (str_casefold member) other ∨ other ∈ of_contacts spelling → canonical_address other = Some j → j = i).

(** The messages that a notification can be about. *)
Definition could_name (text : ustr) (t : Z) (i : nat) : Prop :=
  ∃ e u, events !! i = Some e ∧ is_kind "sms_received" e = true ∧ _seen_at e = Some u ∧ in_window t u ∧ describes text e.
(** The notification [n] is about message [i] and no other. *)
Definition names_only (n : Event) (i : nat) : Prop :=
  is_ancs n = true ∧ ∃ t, _seen_at n = Some t ∧ ∀ j, could_name (body n) t j ↔ j = i.

(** The member that the notification's title names is the sender, by its own
    address and only when the contacts' name of the message agrees. *)
Definition resolves (n e : Event) (member address : ustr) : Prop :=
  if negb (is_nil (strip (title n))) && bool_decide (str_casefold member = str_casefold (strip (title n)))
  then str_casefold (strip (contact_name e)) = str_casefold (strip (title n)) ∧ safe_event_address e = Some address
  else one_address member address.

(** A roster the user saved for a key, of two to twenty people. *)
Definition applies (key : ustr) (route : Event) : Prop :=
  route ∈ events ∧ is_kind "group_route" route = true ∧ route_key (_names routes) route = Some key ∧ valid_roster (group_recipients route) = true.
(** Its recipients and members, when no outsider's message put it on hold. *)
Definition saved_roster (key : ustr) (roster members : list ustr) : Prop :=
  ∃ route, applies key route ∧ held_roster_warning route = None ∧ roster = group_recipients route ∧ members = group_members route.
(** The group that a notification names. *)
Definition notified_key (n : Event) : ustr :=
  match members_of n with Some ms => unnamed_group_key ms | None => named_group_key (default [] (named_group_from_ancs n)) end.
(** A key of message [i]: the stored one, the one of its stored name, or that of
    the group which its notification names. *)
Definition key_of (i : nat) (key : ustr) : Prop :=
  (∃ e0, events !! i = Some e0 ∧ (key = group_key e0 ∨ key = named_group_key (_stored_name e0))) ∨
  (∃ n, n ∈ events ∧ names_only n i ∧ key = notified_key n).
(** The members that history gives message [i]: those stored with it, those of
    a roster saved for its key, those its notification names, or, of a group
    that the notification only names, the sender. *)
Definition members_known (i : nat) (members : list ustr) : Prop :=
  (∃ e0, events !! i = Some e0 ∧ members = group_members e0) ∨
  (∃ key route, key_of i key ∧ applies key route ∧ members = group_members route) ∨
  (∃ n, n ∈ events ∧ names_only n i ∧
    (members_of n = Some members ∨ (members_of n = None ∧ members = if is_nil (strip (title n)) then [] else [strip (title n)]))).
Definition sender_in (e : Event) (roster : list ustr) : Prop :=
  ∃ a i, safe_event_address e = Some a ∧ canonical_address a = Some i ∧ Some i ∈ canonical_address <$> roster.
(** The identities of a group's members, each resolved to one address. *)
Definition same_people (members members' : list ustr) : Prop :=
  ∃ roster, 
    let resolved ms := ∃ ids, Forall2 (λ m i, ∃ a, one_address m a ∧ canonical_address a = Some i) (_member_names ms) ids ∧ roster = sorted_texts ids in
    resolved members ∧ resolved members'.

(** [grounded i e]: message [i], annotated as [e], may be answered. *)
Inductive grounded (i : nat) (e : Event) : Prop :=
  | grounded_stored e0 : events !! i = Some e0 → group_reply_ready e0 = true → group_recipients e = group_recipients e0 →
      group_members e = group_members e0 → grounded i e
  | grounded_saved : is_sms e = true → key_of i (group_key e) → saved_roster (group_key e) (group_recipients e) (group_members e) → grounded i e
  | grounded_joined e0 n : events !! i = Some e0 → n ∈ events → names_only n i → group_key e = notified_key n →
      saved_roster (group_key e) (group_recipients e) (group_members e) → sender_in e0 (group_recipients e) → grounded i e
  | grounded_derived e0 n : events !! i = Some e0 → n ∈ events → names_only n i → members_of n = Some (group_members e) →
      Forall2 (resolves n e0) (group_members e) (group_recipients e) → NoDup (group_recipients e) →
      (2 <= length (group_recipients e))%nat → sender_in e0 (group_recipients e) → grounded i e
  | grounded_reconciled j e0 e' : events !! j = Some e0 → transport e' = transport e0 → grounded j e' → group_reply_ready e' = true →
      members_known i (group_members e) → members_known j (group_members e') → same_people (group_members e) (group_members e') →
      group_sender_verified e ≠ Some false → group_recipients e = (distinct_recipients [] (group_recipients e')).*2 →
      (2 <= length (group_recipients e))%nat → grounded i e.
End evidence.

(** ** Steps of the correlation *)

(** [m] returns and keeps [I]. *)
Definition holds {S A} (I : S → Prop) (m : M S A) : Prop := ∀ c, I c → wp m (λ _, I) c.
Lemma holds_bind {S A B} (I : S → Prop) (m : M S A) (f : A → M S B) : holds I m → (∀ a, holds I (f a)) → holds I (m ≫= f).
Proof. intros Hm Hf c Hc. apply wp_bind. eapply wp_mono; [by apply Hm|]. intros a c' Hc'. by apply Hf. Qed.
Lemma holds_get {S A} (I : S → Prop) (f : S → M S A) : (∀ c, I c → wp (f c) (λ _, I) c) → holds I (c ← get; f c).
Proof. intros Hf c Hc. apply wp_get. by apply Hf. Qed.
Lemma holds_ret {S A} (I : S → Prop) (a : A) : holds I (mret a).
Proof. by intros c Hc. Qed.
Lemma holds_modify {S} (I : S → Prop) f : (∀ c, I c → I (f c)) → holds I (modify f).
Proof. intros Hf c Hc. by apply wp_modify_last, Hf. Qed.
Lemma holds_when {S} (I : S → Prop) b m : holds I m → holds I (when b m).
Proof. destruct b; [done|]. intros _. apply holds_ret. Qed.
Lemma holds_each {A} (I : Corr → Prop) (f : A → M Corr ()) l : (∀ x, x ∈ l → holds I (f x)) → holds I (for_each f l).
Proof.
  induction l as [|x l IH]; intros Hf; [apply holds_ret|]. cbn. apply holds_bind; [apply Hf; left|]. intros _. apply IH. intros y Hy. apply Hf. by right.
Qed.
Lemma wp_lift {S A} (r : result A) a (Q : A → S → Prop) c : r = Ok a → Q a c → wp (lift r) Q c.
Proof. by intros ->. Qed.

Lemma sorted_texts_perm l : sorted_texts l ≡ₚ l.
Proof.
  assert (∀ x l, insert_sorted str_leb x l ≡ₚ x :: l) as Hi.
  { intros x l'. induction l' as [|y l' IH]; [done|]. cbn. destruct (str_leb x y); [done|]. rewrite IH. apply Permutation_swap. }
  induction l as [|x l IH]; [done|]. change (insert_sorted str_leb x (sorted_texts l) ≡ₚ x :: l). by rewrite Hi, IH.
Qed.
Lemma elem_of_sorted_texts l x : x ∈ sorted_texts l ↔ x ∈ l.
Proof. by rewrite (elem_of_Permutation_proper _ _ _ (sorted_texts_perm l)). Qed.
Lemma single_address_spec `{CaseMapping} l a : single_address l = Some a →
  ∃ i, a ∈ l ∧ canonical_address a = Some i ∧ ∀ b j, b ∈ l → canonical_address b = Some j → j = i.
Proof.
  unfold single_address. set (ids := omap _ l). assert (∀ i b, (i, b) ∈ ids ↔ b ∈ l ∧ canonical_address b = Some i) as Hids.
  { intros i b. subst ids. rewrite list_elem_of_omap. split.
    - intros (x & Hx & Hp). cbn in Hp. destruct (canonical_address x) eqn:E; [|done]. cbn in Hp. by injection Hp as -> ->.
    - intros [Hb Hi]. exists b. cbn. by rewrite Hi. }
  destruct (remove_dups ids.*1) as [|x [|]] eqn:Ed; [done| |done]. assert (∀ p, p ∈ ids → p.1 = x) as Hx.
  { intros q Hq. apply (list_elem_of_fmap_2 fst), elem_of_remove_dups in Hq. rewrite Ed in Hq. by apply list_elem_of_singleton in Hq. }
  clearbody ids. destruct ids as [|[i b] ids]; [done|]. intros [= <-]. destruct (proj1 (Hids i b) ltac:(left)) as [Hb Hi]. exists i. split_and!; [done..|].
  intros b' j Hb' Hj. pose proof (Hx (i, b) ltac:(left)) as E1. pose proof (Hx (j, b') (proj2 (Hids j b') (conj Hb' Hj))) as E2. cbn in *. congruence.
Qed.

Lemma elem_of_indexed l i e : (i, e) ∈ indexed l ↔ l !! i = Some e.
Proof.
  unfold indexed. rewrite list_elem_of_lookup. split.
  - intros [j Hj]. apply lookup_zip_with_Some in Hj as (x & y & [= -> ->] & Hx & Hy). apply lookup_seq in Hx as [-> _]. done.
  - intros He. exists i. apply lookup_zip_with_Some. exists i, e. split_and!; [done| |done]. apply lookup_seq. split; [done|]. by eapply lookup_lt_Some.
Qed.

(** The fields of an event that its evidence depends on. *)
Definition group_fields (e : Event) := (kind e, group_key e, group_members e, group_recipients e, group_reply_ready e, group_sender_verified e).

(** What is read of an event depends on its transport. *)
Section transport.
Context `{CaseMapping, Digests, Resolver}.
Context (e e' : Event) (He : transport e = transport e').
Ltac same := unfold transport in He; injection He as Hk Happ Ht Hs Hb Ha Hp Hn Hseen.
Lemma transport_kind : kind e = kind e'. Proof. by same. Qed.
Lemma transport_body : body e = body e'. Proof. by same. Qed.
Lemma transport_title : title e = title e'. Proof. by same. Qed.
Lemma transport_name : contact_name e = contact_name e'. Proof. by same. Qed.
Lemma transport_seen : _seen_at e = _seen_at e'. Proof. same. unfold _seen_at. by rewrite Hseen. Qed.
Lemma transport_safe : safe_event_address e = safe_event_address e'. Proof. same. unfold safe_event_address. by rewrite Ha, Hp. Qed.
Lemma transport_members_of : members_of e = members_of e'. Proof. same. unfold members_of, group_members_from_ancs. by rewrite Happ, Ht, Hs. Qed.
Lemma transport_named : named_group_from_ancs e = named_group_from_ancs e'.
Proof. unfold named_group_from_ancs. rewrite transport_members_of. same. by rewrite Happ, Ht, Hs. Qed.
Lemma transport_describes text : describes text e ↔ describes text e'. Proof. unfold describes. by rewrite transport_body. Qed.
End transport.

Section safety.
Context `{CaseMapping, Digests, Resolver}.
Context (events : list Event).
Abbreviation grounded := (grounded events).
Abbreviation introduced := (introduced events).

Lemma grounded_fields i e e' : group_fields e = group_fields e' → grounded i e → grounded i e'.
Proof.
  unfold group_fields. intros [= Hk Hg Hm Hr _ Hv] He. revert Hk Hg Hm Hr Hv. destruct He; intros Hk Hg Hm Hr Hv; unfold is_sms in *; rewrite ?Hk, ?Hg, ?Hm, ?Hr, ?Hv in *.
  - by eapply grounded_stored.
  - by eapply grounded_saved.
  - by eapply grounded_joined.
  - by eapply grounded_derived.
  - by eapply grounded_reconciled.
Qed.

(** The state of the correlation: transport as in the input, names as MAP gave
    them, and evidence for every event that is ready. *)
Record Good (c : Corr) : Prop := {
  good_out : transport <$> out c = transport <$> events;
  good_names k a : a ∈ default ∅ (addresses_by_name c !! k) → introduced k a;
  good_cache k l : _addresses c !! k = Some l → ∃ spelling, str_casefold spelling = k ∧ l = of_contacts spelling;
  good_ready i e : out c !! i = Some e → group_reply_ready e = true → grounded i e;
  good_members i e : out c !! i = Some e → members_known events i (group_members e);
}.
(** Also, every name of MAP is known. *)
Definition Full (c : Corr) : Prop := Good c ∧ ∀ k a, introduced k a → a ∈ default ∅ (addresses_by_name c !! k).

Lemma transport_of c i e : Good c → out c !! i = Some e → ∃ e0, events !! i = Some e0 ∧ transport e0 = transport e.
Proof.
  intros Hc He. pose proof (good_out _ Hc) as Ho. apply (f_equal (λ l, l !! i)) in Ho. rewrite !list_lookup_fmap, He in Ho. cbn in Ho.
  destruct (events !! i) as [e0|]; [|done]. exists e0. split; [done|]. cbn [fmap option_fmap option_map] in Ho. congruence.
Qed.
Lemma transport_in c e : Good c → e ∈ out c → ∃ e0, e0 ∈ events ∧ transport e0 = transport e.
Proof.
  intros Hc [i Hi] % list_elem_of_lookup. destruct (transport_of _ _ _ Hc Hi) as (e0 & He0 & Ht). exists e0. split; [|done]. by eapply list_elem_of_lookup_2.
Qed.

(** An update of one event that its evidence justifies. *)
Lemma good_update i f c : Good c → (∀ e, transport (f e) = transport e) →
  (∀ e, out c !! i = Some e → members_known events i (group_members (f e))) →
  (∀ e, out c !! i = Some e → group_reply_ready (f e) = true → grounded i (f e)) → Good (c <| out ::= alter f i |>).
Proof.
  intros Hc Ht Hms Hg. split; cbn; [|by apply Hc..| |].
  - rewrite <- (good_out _ Hc). rewrite <- (list_alter_id id (transport <$> out c) i) by done. apply list_fmap_alter. by apply Forall_forall.
  - intros j e. rewrite list_lookup_alter. destruct (decide (i = j)) as [<-|]; [|apply (good_ready _ Hc)].
    destruct (out c !! i) as [e0|] eqn:E; [|done]. cbn. intros [= <-]. by apply Hg.
  - intros j e. rewrite list_lookup_alter. destruct (decide (i = j)) as [<-|]; [|apply (good_members _ Hc)].
    destruct (out c !! i) as [e0|] eqn:E; [|done]. cbn. intros [= <-]. by apply Hms.
Qed.
Lemma update_full i f : (∀ e, transport (f e) = transport e) →
  (∀ c e, Good c → out c !! i = Some e → members_known events i (group_members (f e))) → (∀ c e, Good c → out c !! i = Some e → group_reply_ready (f e) = true → grounded i (f e)) →
  holds Full (update i f).
Proof.
  intros Ht Hms Hg. apply holds_modify. intros c [Hc Hn]. split; [|exact Hn]. apply good_update; [done..| |]; intros e He; [by eapply Hms|by eapply Hg].
Qed.
(** Updates of other fields need no evidence. *)
Lemma update_other i f : (∀ e, transport (f e) = transport e) → (∀ e, group_fields (f e) = group_fields e) → holds Full (update i f).
Proof.
  intros Ht Hf. apply update_full; [done| |]; intros c e Hc He.
  { specialize (Hf e). unfold group_fields in Hf. injection Hf as _ _ -> _ _ _. by apply (good_members _ Hc). }
  intros Hr. specialize (Hf e). eapply grounded_fields; [by symmetry|]. apply (good_ready _ Hc _ _ He).
  unfold group_fields in Hf. injection Hf as _ _ _ _ Hf _. congruence.
Qed.

(** *** Names and addresses *)

Lemma learn_keeps name a : introduced (str_casefold name) a → holds Full (learn name a).
Proof.
  intros Hi. apply holds_modify. intros c [Hc Hn]. split.
  - split; cbn; [by apply Hc| |by apply Hc..]. intros k b. destruct (decide (str_casefold name = k)) as [<-|Hk].
    + rewrite lookup_insert_eq. cbn. rewrite elem_of_union, elem_of_singleton. intros [->|Hb]; [done|]. by apply (good_names _ Hc).
    + rewrite lookup_insert_ne by done. by apply (good_names _ Hc).
  - intros k b Hb. cbn. apply Hn in Hb. destruct (decide (str_casefold name = k)) as [<-|Hk]; [rewrite lookup_insert_eq; cbn; apply elem_of_union; by right|by rewrite lookup_insert_ne].
Qed.

(** The addresses of contacts and history, without changing the events. *)
Lemma contact_addresses_spec c name : Full c →
  wp (contact_addresses name) (λ l c', Full c' ∧ out c' = out c ∧ ∃ spelling, str_casefold spelling = str_casefold name ∧ l = of_contacts spelling) c.
Proof.
  intros [Hc Hn]. unfold contact_addresses. apply wp_get. destruct (_addresses c !! str_casefold name) as [l|] eqn:E.
  - apply wp_ret. split; [done|]. split; [done|]. by apply (good_cache _ Hc).
  - apply wp_modify, wp_ret. split; [|split; [done|by exists name]]. split; [|exact Hn]. split; cbn; [by apply Hc..| |by apply Hc|by apply Hc].
    intros k l. destruct (decide (str_casefold name = k)) as [<-|Hk]; [|rewrite lookup_insert_ne by done; by apply (good_cache _ Hc)].
    rewrite lookup_insert_eq. intros [= <-]. by exists name.
Qed.
Lemma member_address_spec c member : Full c →
  wp (_member_address member) (λ o c', Full c' ∧ out c' = out c ∧ ∀ a, o = Some a → one_address events member a) c.
Proof.
  intros Hc. unfold _member_address. destruct (canonical_address member) as [k|] eqn:Ec; cbn [is_some].
  - apply wp_ret. split_and!; [done..|]. intros a [= <-]. left. by rewrite Ec.
  - apply wp_get, wp_bind. eapply wp_mono; [by apply contact_addresses_spec|]. cbv beta. intros l c' (Hc' & Ho & spelling & Hs & ->). apply wp_ret. split_and!; [done..|].
    intros a (i & Hin & Hi & Hall) % single_address_spec. right. split; [done|]. exists spelling, i. split_and!; [done| |done|].
    + apply elem_of_app in Hin as [Hin|Hin]; [left|by right]. apply elem_of_sorted_texts, elem_of_elements in Hin. by apply (good_names _ (proj1 Hc)).
    + intros b j Hb. apply Hall. apply elem_of_app. destruct Hb as [Hb|Hb]; [left|by right]. apply elem_of_sorted_texts, elem_of_elements. by apply (proj2 Hc).
Qed.

(** *** Members of an unnamed group *)

Definition is_verified (n e : Event) : bool :=
  negb (is_nil (strip (title n))) && negb (is_nil (strip (contact_name e))) && bool_decide (str_casefold (strip (title n)) = str_casefold (strip (contact_name e))).
(** The recipients grow by at most one for each member; when by one each and
    none is unresolved, each member has its own. *)
Lemma resolve_members_spec n e members r c : Full c → NoDup (recipients r) →
  wp (resolve_members (strip (title n)) (safe_event_address e) (is_verified n e) members r)
    (λ r' c', Full c' ∧ out c' = out c ∧ (length (recipients r') <= length (recipients r) + length members)%nat ∧
      (unresolved r' = false → length (recipients r') = (length (recipients r) + length members)%nat →
       NoDup (recipients r') ∧ ∃ l, recipients r' = recipients r ++ l ∧ Forall2 (resolves events n e) members l)) c.
Proof.
  revert r c. induction members as [|member members IH]; intros r c Hc Hd; cbn [resolve_members].
  { apply wp_ret. split_and!; [done..|lia|]. intros _ _. split; [done|]. exists []. by rewrite app_nil_r. }
  apply wp_bind. apply (wp_mono _ (λ p c', Full c' ∧ out c' = out c ∧ recipients p.2 = recipients r ∧ ∀ a, p.1 = Some a → resolves events n e member a)).
  - unfold resolves, is_verified. destruct (negb (is_nil (strip (title n))) && _) eqn:Et.
    + apply wp_ret. split_and!; [done..|by destruct (safe_event_address e)|]. intros a. cbn [fst]. destruct (_ && _ && _) eqn:Ev; [|done]. intros Ha. split; [|done].
      apply andb_true_iff in Ev as [_ Ev]. apply bool_decide_eq_true in Ev. done.
    + apply wp_bind. eapply wp_mono; [by apply member_address_spec|]. cbv beta. intros o c' (Hc' & Ho & Ha). apply wp_ret. split_and!; [done..|by destruct (is_some o)|done].
  - intros [address r1] c' (Hc' & Ho & Hr & Ha). cbn [fst snd] in *. rewrite <- Hr in *. destruct address as [a|].
    + case_bool_decide as Hin.
      * eapply wp_mono; [by apply IH|]. cbv beta. intros r' c'' (Hc'' & Ho' & Hle & _). split_and!; [done|congruence|cbn; lia|cbn; lia].
      * eapply wp_mono; [apply IH; [done|]; cbn; apply NoDup_app; split_and!; [done|intros x Hx Hxa%list_elem_of_singleton; congruence|apply NoDup_singleton]|]. cbv beta. cbn. rewrite length_app. cbn.
        intros r' c'' (Hc'' & Ho' & Hle & Hall). split_and!; [done|congruence|lia|]. intros Hu Hlen. destruct Hall as (Hd' & l & Hl & Hf); [done|lia|]. split; [done|].
        exists (a :: l). rewrite Hl, <- app_assoc. split; [done|]. constructor; [by apply Ha|done].
    + eapply wp_mono; [by apply IH|]. cbv beta. cbn. intros r' c'' (Hc'' & Ho' & Hle & Hall). split_and!; [done|congruence|lia|]. intros Hu Hlen. exfalso. lia.
Qed.

(** *** Saved rosters *)

Lemma routes_apply key route : _routes (routes events) !! key = Some route → applies events key route.
Proof.
  unfold applies, routes, NamedGroupRoutes_init. cbn [_routes _names]. set (names := foldl (λ m n, add_name n m) ∅ _).
  assert (∀ l m, l ⊆ events → (∀ k r, m !! k = Some r → r ∈ events ∧ is_kind "group_route" r = true ∧ route_key names r = Some k ∧ valid_roster (group_recipients r) = true) →
    ∀ k r, foldl (λ m e, add_route names e m) m l !! k = Some r → r ∈ events ∧ is_kind "group_route" r = true ∧ route_key names r = Some k ∧ valid_roster (group_recipients r) = true) as Hl.
  { induction l as [|e l IH]; intros m Hsub Hm; [exact Hm|]. cbn. apply IH; [set_solver|]. intros k r. unfold add_route.
    destruct (is_kind "group_route" e) eqn:Ek; [|apply Hm]. cbn [negb]. destruct (route_key names e) as [k'|] eqn:Er; [|apply Hm]. destruct (valid_roster _) eqn:Ev; [|apply Hm].
    destruct (decide (k' = k)) as [<-|Hk]; [rewrite lookup_insert_eq; intros [= <-]; split_and!; [set_solver|done..]|rewrite lookup_insert_ne by done; apply Hm]. }
  apply Hl; [done|]. intros k r. by rewrite lookup_empty.
Qed.
Lemma apply_stored_spec e key e' b : is_sms e = true → group_key e = key → _apply_stored (routes events) e key = (e', b) →
  transport e' = transport e ∧ group_key e' = key ∧ (b = false → e' = e) ∧
  (b = true → (∃ route, applies events key route ∧ group_members e' = group_members route) ∧
    ∀ i, key_of events i key → group_reply_ready e' = true → grounded i e').
Proof.
  intros Hs Hk. unfold _apply_stored. destruct (_routes (routes events) !! key) as [route|] eqn:Er; [|by intros [= <- <-]].
  apply routes_apply in Er as Happ. destruct (held_roster_warning route) as [[w z]|] eqn:Eh; intros [= <- <-]; (split_and!; [done|done|done|]); intros _; cbn; (split; [by exists route|done || idtac]).
  intros i Hi _. apply grounded_saved; [done|by cbn; rewrite Hk|]. cbn. rewrite Hk. by exists route.
Qed.
Lemma annotate_transport e : transport (annotate_stored (routes events) e) = transport e.
Proof.
  unfold annotate_stored, _apply_stored. repeat (case_match; cbn; try reflexivity); simplify_eq/=; try reflexivity.
Qed.
(** Annotating with the saved rosters keeps or gives evidence, and members. *)
Lemma annotate_grounded i e : events !! i = Some e → let e' := annotate_stored (routes events) e in
  members_known events i (group_members e') ∧ (group_reply_ready e' = true → grounded i e').
Proof.
  intros Hi. assert (∀ e', group_recipients e' = group_recipients e → group_members e' = group_members e → (group_reply_ready e' = true → group_reply_ready e = true) →
    members_known events i (group_members e') ∧ (group_reply_ready e' = true → grounded i e')) as Hstored.
  { intros e' Hr Hm Hd. split; [left; by exists e|]. intros He'. eapply grounded_stored; [exact Hi|by apply Hd|done|done]. }
  assert (∀ key e1 e' b, key_of events i key → is_sms e1 = true → group_key e1 = key → _apply_stored (routes events) e1 key = (e', b) → b = true →
    members_known events i (group_members e') ∧ (group_reply_ready e' = true → grounded i e')) as Hsaved.
  { intros key e1 e' b Hkey Hs Hk Ha ->. apply apply_stored_spec in Ha as (_ & _ & _ & Hb); [|done..]. destruct (Hb eq_refl) as [(route & Happ & ->) Hg].
    split; [right; left; by exists key, route|]. by apply Hg. }
  cbn zeta. unfold annotate_stored. destruct (is_sms e) eqn:Es; cbn [negb]; [|by apply Hstored]. destruct (is_nil (_stored_name e)).
  - destruct (is_legacy_unnamed_group_key (group_key e)); [by apply Hstored|]. destruct (is_unnamed_group_key (group_key e)); [|by apply Hstored].
    destruct (_apply_stored _ _ _) as [e' b] eqn:Ea. pose proof Ea as Ea'. apply apply_stored_spec in Ea as (_ & _ & Hb & _); [|done..]. destruct b.
    + refine (Hsaved _ _ _ _ _ _ _ Ea' eq_refl); [|done|done]. left. exists e. auto.
    + rewrite (Hb eq_refl). by apply Hstored.
  - destruct (_apply_stored _ _ _) as [e' b] eqn:Ea. pose proof Ea as Ea'. apply apply_stored_spec in Ea as (_ & _ & Hb & _); [|done..]. destruct b; cbn [negb andb].
    + refine (Hsaved _ _ _ _ _ _ _ Ea' eq_refl); [|done|done]. left. exists e. auto.
    + rewrite (Hb eq_refl). case_match; by apply Hstored.
Qed.

(** *** Joining a message with its notification *)

Definition notified (n : Event) (i : nat) (e0 : Event) : Prop := n ∈ events ∧ events !! i = Some e0 ∧ names_only events n i.

Lemma received_transport key t sender e : transport (_received (routes events) key t sender e) = transport e.
Proof. unfold _received. repeat case_match; reflexivity. Qed.
(** The members of a joined message. *)
Lemma received_members key t sender e : let ms := group_members (_received (routes events) key t sender e) in
  (∃ route, applies events key route ∧ ms = group_members route) ∨ (has_route (routes events) key = false ∧ ms = if is_nil t then [] else [t]).
Proof.
  cbn zeta. unfold _received, has_route. destruct (_routes (routes events) !! key) as [route|] eqn:Er; [|by right]. apply routes_apply in Er. left. exists route. split; [done|].
  by repeat case_match.
Qed.
(** A saved roster permits a reply when nobody is held and the sender is in it. *)
Lemma received_ready key t sender e : group_reply_ready (_received (routes events) key t sender e) = true →
  let e' := _received (routes events) key t sender e in group_key e' = key ∧ saved_roster events key (group_recipients e') (group_members e') ∧
  ∃ a i, sender = Some a ∧ canonical_address a = Some i ∧ Some i ∈ canonical_address <$> group_recipients e'.
Proof.
  unfold _received. destruct (_routes (routes events) !! key) as [route|] eqn:Er; [|done]. apply routes_apply in Er as Happ.
  destruct (canonical_address (default [] sender)) as [i|] eqn:Ei; cbn [is_some andb].
  2: { destruct (held_roster_warning route) as [[w z]|]; done. }
  case_bool_decide as Hk.
  2: { destruct (held_roster_warning route) as [[w z]|]; done. }
  destruct (held_roster_warning route) as [[w z]|] eqn:Eh; [done|]. intros _. cbn. split; [done|]. split; [by exists route|].
  destruct sender as [a|]; [|done]. by exists a, i.
Qed.
Lemma join_saved n i e0 key extra : notified n i e0 → (∀ e, transport (extra e) = transport e) → (∀ e, group_fields (extra e) = group_fields e) →
  key = notified_key n → (is_Some (members_of n) → has_route (routes events) key = true) →
  holds Full (update i (λ e, extra (_received (routes events) key (strip (title n)) (safe_event_address e0) e))).
Proof.
  intros (Hn & He0 & Honly) Ht Hf Hkey Hroute. apply update_full; [intros e; by rewrite Ht, received_transport| |]; intros c e Hc He.
  - pose proof (Hf (_received (routes events) key (strip (title n)) (safe_event_address e0) e)) as Hf'. unfold group_fields in Hf'. injection Hf' as _ _ -> _ _ _.
    destruct (received_members key (strip (title n)) (safe_event_address e0) e) as [(route & Happ & ->)|[Hno ->]]; right; [left|right].
    + exists key, route. split; [|done]. right. by exists n.
    + exists n. split_and!; [done..|]. right. split; [|done]. destruct (members_of n) as [ms|]; [|done]. by rewrite Hroute in Hno.
  - intros Hr. eapply grounded_fields; [symmetry; apply Hf|].
    assert (group_reply_ready (_received (routes events) key (strip (title n)) (safe_event_address e0) e) = true) as Hr'.
    { specialize (Hf (_received (routes events) key (strip (title n)) (safe_event_address e0) e)). unfold group_fields in Hf. injection Hf as _ _ _ _ Hf _. congruence. }
    apply received_ready in Hr' as (Hk & Hs & Hin). eapply grounded_joined; [done..|by rewrite Hk|by rewrite Hk|]. destruct Hin as (a & j & Ha & Hj & Hin). by exists a, j.
Qed.
Lemma join_unnamed_keeps n i e0 members : notified n i e0 → members_of n = Some members →
  holds Full (join_unnamed i members (strip (title n)) (safe_event_address e0) (is_verified n e0)).
Proof.
  intros (Hn & He0 & Honly) Hm c Hc. unfold join_unnamed. apply wp_bind. eapply wp_mono; [apply resolve_members_spec; [exact Hc|constructor]|]. cbv beta. cbn [recipients length].
  intros r c' (Hc' & Ho & Hle & Hres). destruct (_group_identity _ _ _) as [key name]. revert Hc'. apply update_full; [done| |]; intros c1 e Hc1 He.
  { right. right. exists n. split_and!; [done..|]. by left. }
  cbn. intros Hr.
  unfold roster_ready in Hr. rewrite !andb_true_iff, negb_true_iff, Z.leb_le, !bool_decide_eq_true in Hr. destruct Hr as ((((Hu & H2) & Hlen) & Hsome) & Hin).
  destruct (Hres Hu Hlen) as (Hd & l & Hl & Hf). cbn in Hl. eapply grounded_derived; [done..|by rewrite Hm|cbn; by rewrite Hl|done| |]; cbn.
  - unfold zlen in H2. lia.
  - destruct (safe_event_address e0) as [a|] eqn:Ea; [|done]. cbn in *. destruct (canonical_address a) as [j|] eqn:Ej; [|done]. by exists a, j.
Qed.
Lemma join_group_keeps n i e0 e sms : notified n i e0 → transport e = transport n → transport sms = transport e0 → is_sms e0 = true →
  holds Full (join_group (routes events) i e sms).
Proof.
  intros Hnot He Hs Hk. unfold join_group. rewrite (transport_title _ _ He), (transport_name _ _ Hs), (transport_safe _ _ Hs), (transport_members_of _ _ He), (transport_named _ _ He).
  fold (is_verified n e0). apply holds_bind; [|intros []].
  { destruct (row_id e); [|apply holds_ret]. by apply update_other. }
  apply holds_bind; [|intros []].
  { destruct (safe_event_address e0) as [a|] eqn:Ea; [|apply holds_ret]. unfold is_verified. destruct (_ && _ && _) eqn:Ev; [|apply holds_ret]. cbn [when].
    rewrite !andb_true_iff, !negb_true_iff, bool_decide_eq_true in Ev. destruct Ev as [[_ Ec] Ev]. apply learn_keeps. exists e0. destruct Hnot as (_ & Hi & _).
    split_and!; [by eapply list_elem_of_lookup_2|done| |done|done]. intros E. by rewrite E in Ec. }
  destruct (members_of n) as [members|] eqn:Em.
  - destruct (has_route _ _) eqn:Er; [|by apply join_unnamed_keeps].
    apply (join_saved n i e0 (unnamed_group_key members) (λ e, e <| group_aliases := [] |> <| group_name := join (lit ", ") (sorted_by_fold members) |> <| group_origin := lit "unnamed" |>)); [done..| |done].
    unfold notified_key. by rewrite Em.
  - destruct (named_group_from_ancs n) as [name|] eqn:En; [|apply holds_ret].
    apply (join_saved n i e0 (named_group_key name) (λ e, e <| group_aliases := aliases (routes events) name |> <| group_name := name |> <| group_origin := lit "named" |>)); [done..| |].
    + unfold notified_key. by rewrite Em, En.
    + rewrite Em. by intros [? ?].
Qed.

(** *** The loops *)

(** Steps that touch only the bookkeeping. *)
Definition bookkeeping (c c' : Corr) : Prop := out c' = out c ∧ addresses_by_name c' = addresses_by_name c ∧ _addresses c' = _addresses c.
Lemma bookkeeping_full c c' : bookkeeping c c' → Full c → Full c'.
Proof. intros (Ho & Ha & Hc') [[]]. split; [split|]; rewrite ?Ho, ?Ha, ?Hc'; done. Qed.
Lemma bookkeeping_keeps f : (∀ c, bookkeeping c (f c)) → holds Full (modify f).
Proof. intros Hf. apply holds_modify. intros c. by apply bookkeeping_full. Qed.

Section loops.
Context (candidates : Candidates).
Context (Hcand : ∀ text t, is_ok (utf8_encode text) = true → ∃ found, matching candidates text t ∅ None = Ok found ∧ ∀ i, i ∈ found ↔ could_name events text t i).
Context (Hlimit : ∀ text t, is_ok (utf8_encode text) = true → ∃ found, matching candidates text t ∅ (Some 2%nat) = Ok found).
Context (Hencoded : Forall (λ e, is_ok (utf8_encode (body e)) = true) events).

Lemma body_encoded n e : n ∈ events → transport e = transport n → is_ok (utf8_encode (body e)) = true.
Proof. intros Hn He. rewrite (transport_body _ _ He). rewrite Forall_forall in Hencoded. by apply Hencoded. Qed.
Lemma sms_received_is_sms e : is_kind "sms_received" e = true → is_sms e = true.
Proof. unfold is_kind, is_sms, starts. rewrite bool_decide_eq_true. intros ->. by vm_compute. Qed.

Lemma correlate_one_keeps n e : n ∈ events → transport e = transport n → holds Full (correlate_one candidates (routes events) e).
Proof.
  intros Hn He c Hc. unfold correlate_one. destruct (negb (is_ancs e) || _) eqn:Eg; [by apply wp_ret|]. apply orb_false_iff in Eg as [Ek _]. apply negb_false_iff in Ek.
  pose proof (body_encoded _ _ Hn He) as Henc. destruct (body e) as [|b0 bs] eqn:Eb; [by apply wp_ret|]. rewrite <- Eb in *. clear Eb b0 bs.
  destruct (_seen_at e) as [t|] eqn:Et; [|by apply wp_ret]. destruct (Hcand (body e) t Henc) as (found & Hf & Hin). apply wp_bind, (wp_lift _ _ _ _ Hf), wp_get.
  destruct (_ && _); [by apply wp_ret|]. destruct found as [|index [|]]; [by apply bookkeeping_keeps| |by apply bookkeeping_keeps].
  case_bool_decide; [by apply bookkeeping_keeps|]. destruct (event_at index c) as [sms|] eqn:Esms; [|by apply wp_ret].
  apply wp_modify. assert (Full (c <| matched ::= λ s : gset nat, {[index]} ∪ s |>)) as Hc' by (by apply (bookkeeping_full c)).
  destruct (_names_agree e sms); cbn [negb]; [|by apply bookkeeping_keeps]. destruct (transport_of _ _ _ (proj1 Hc) Esms) as (e0 & He0 & Hs).
  revert Hc'. apply (join_group_keeps n index e0); [|done|done|].
  - split_and!; [done..|]. split; [unfold is_ancs, is_kind in *; by rewrite <- (transport_kind _ _ He)|]. exists t. rewrite <- (transport_seen _ _ He), <- (transport_body _ _ He). split; [done|].
    intros j. rewrite <- Hin. apply list_elem_of_singleton.
  - apply sms_received_is_sms. destruct (proj1 (Hin index) ltac:(left)) as (e1 & u & Hi & Hk & _). by simplify_eq.
Qed.
Lemma note_evidence_keeps n e : n ∈ events → transport e = transport n → holds Full (note_evidence candidates e).
Proof.
  intros Hn He c Hc. unfold note_evidence. destruct (negb (is_ancs e) || _); [by apply wp_ret|]. pose proof (body_encoded _ _ Hn He) as Henc.
  destruct (body e) as [|b0 bs] eqn:Eb; [by apply wp_ret|]. rewrite <- Eb in *. destruct (_seen_at e) as [t|]; [|by apply wp_ret].
  destruct (Hcand (body e) t Henc) as (found & Hf & _). apply wp_bind, (wp_lift _ _ _ _ Hf), wp_get. revert Hc. apply holds_each. intros i _. by apply bookkeeping_keeps.
Qed.
Lemma link_direct_keeps n e : n ∈ events → transport e = transport n → holds Full (link_direct candidates e).
Proof.
  intros Hn He c Hc. unfold link_direct. destruct (_ || _); [by apply wp_ret|]. pose proof (body_encoded _ _ Hn He) as Henc.
  destruct (body e) as [|b0 bs] eqn:Eb; [by apply wp_ret|]. rewrite <- Eb in *. destruct (_seen_at e) as [t|]; [|by apply wp_ret].
  destruct (Hlimit (body e) t Henc) as [found Hf]. apply wp_bind, (wp_lift _ _ _ _ Hf). revert c Hc. apply holds_bind.
  - apply holds_each. intros i _. apply update_other; intros e'; by destruct (spelled_on_keypad _ _).
  - intros []. apply holds_get. intros c Hc. destruct found as [|index [|]]; [by apply wp_ret| |by apply wp_ret].
    destruct (event_at index c); [|by apply wp_ret]. destruct (row_id e); [|by apply wp_ret]. revert c Hc. apply holds_when. by apply update_other.
Qed.
Lemma mark_ambiguous c : Full c → Full (c <| out ::= imap (λ i e, if bool_decide (i ∈ ambiguous c ∖ matched c) then e <| group_ambiguous := true |> else e) |>).
Proof.
  intros [Hc Hn]. split; [|exact Hn]. split; cbn; [|by apply Hc..| |].
  - rewrite <- (good_out _ Hc), fmap_imap. apply list_eq. intros i. rewrite list_lookup_imap, list_lookup_fmap. destruct (out c !! i); [|done]. cbn. by case_bool_decide.
  - intros i e (e1 & He & ->) % list_lookup_imap_Some Hr. pose proof (good_ready _ Hc i e1 He) as Hg. case_bool_decide; [|by apply Hg]. eapply grounded_fields; [|by apply Hg]. done.
  - intros i e (e1 & He & ->) % list_lookup_imap_Some. pose proof (good_members _ Hc i e1 He). by case_bool_decide.
Qed.
End loops.

(** *** Reconciliation *)

Definition has_roster (roster members : list ustr) : Prop :=
  ∃ ids, Forall2 (λ m i, ∃ a, one_address events m a ∧ canonical_address a = Some i) (_member_names members) ids ∧ roster = sorted_texts ids.
(** The clusters join events whose members are the same people. *)
Definition clustered (members : list (list ustr)) (l : list (list ustr * list nat)) : Prop :=
  ∀ p i ms, p ∈ l → i ∈ p.2 → members !! i = Some ms → has_roster p.1 ms.

Lemma roster_tokens_spec c members : Full c → wp (roster_tokens members)
  (λ ts c', Full c' ∧ out c' = out c ∧ (Forall (λ t, starts "name:" t = false) ts → Forall2 (λ m i, ∃ a, one_address events m a ∧ canonical_address a = Some i) members ts)) c.
Proof.
  revert c. induction members as [|m ms IH]; intros c Hc; cbn [roster_tokens]; [apply wp_ret; split_and!; [done..|constructor]|].
  apply wp_bind. unfold _member_roster_token. apply wp_bind. eapply wp_mono; [by apply member_address_spec|]. cbv beta. intros o c1 (Hc1 & Ho1 & Ha). apply wp_ret, wp_bind.
  eapply wp_mono; [by apply IH|]. cbv beta. intros ts c2 (Hc2 & Ho2 & Hts). apply wp_ret. split_and!; [done|congruence|]. intros [Ht Hf] % Forall_cons. constructor; [|by apply Hts].
  assert (∀ folded, starts "name:" (lit "name:" ++ folded) = true) as Hname by (intros; apply startswith_app).
  destruct o as [a|]; cbn [mbind option_bind default] in Ht |- *; [|by rewrite Hname in Ht].
  destruct (canonical_address a) as [i|] eqn:Ei; cbn [default] in Ht |- *; [|by rewrite Hname in Ht].
  exists a. auto.
Qed.
Lemma add_to_cluster_spec members roster i l : clustered members l → (∀ ms, members !! i = Some ms → has_roster roster ms) → clustered members (add_to_cluster roster i l).
Proof.
  intros Hl Hi p j ms. unfold add_to_cluster. case_bool_decide.
  - intros (q & -> & Hq) % list_elem_of_fmap. case_bool_decide as E; [|by apply Hl]. cbn. subst roster. intros [Hj|Hj % list_elem_of_singleton] % elem_of_app Hm; [by eapply Hl|].
    subst j. by apply Hi.
  - intros [Hp|Hp % list_elem_of_singleton] % elem_of_app; [by apply Hl|]. subst p. cbn. intros Hj % list_elem_of_singleton. subst j. apply Hi.
Qed.
Lemma cluster_one_spec c l i e : Full c → out c !! i = Some e → clustered (group_members <$> out c) l →
  wp (cluster_one (routes events) l i e) (λ l' c', Full c' ∧ out c' = out c ∧ clustered (group_members <$> out c) l') c.
Proof.
  intros Hc He Hl. unfold cluster_one. destruct (_ || _ || _); [by apply wp_ret|]. case_match; [by apply wp_ret|]. apply wp_bind.
  eapply wp_mono; [by apply roster_tokens_spec|]. cbv beta. intros ts c' (Hc' & Ho & Hts). destruct (existsb _ _) eqn:Ex; [by apply wp_ret|]. apply wp_ret. split_and!; [done..|].
  apply add_to_cluster_spec; [done|]. intros ms Hms. rewrite list_lookup_fmap, He in Hms. injection Hms as <-. exists ts. split; [|done]. apply Hts.
  apply Forall_forall. intros x Hx. apply not_true_iff_false. intros Hs. apply not_true_iff_false in Ex. apply Ex, existsb_exists. exists x. split; [|done].
  by apply list_elem_of_In, elem_of_sorted_texts.
Qed.
Lemma make_clusters_spec c l es : Full c → (∀ i e, (i, e) ∈ es → out c !! i = Some e) → clustered (group_members <$> out c) l →
  wp (make_clusters (routes events) l es) (λ l' c', Full c' ∧ out c' = out c ∧ clustered (group_members <$> out c) l') c.
Proof.
  revert c l. induction es as [|[i e] es IH]; intros c l Hc Hes Hl; cbn [make_clusters]; [by apply wp_ret|]. apply wp_bind.
  eapply wp_mono; [apply (cluster_one_spec c l i e); [done|apply Hes; left|done]|]. cbv beta. intros l' c' (Hc' & Ho & Hl'). rewrite <- Ho in *.
  eapply wp_mono; [apply IH; [done| |done]|].
  - intros j e' Hin. apply Hes. by right.
  - by intros l'' c'' Hl''.
Qed.
(** A verified signature with its first event. *)
Definition verified_by (c : Corr) (grouped : list nat) (q : list ustr * (ustr * list ustr)) : Prop :=
  ∃ j e, j ∈ grouped ∧ out c !! j = Some e ∧ group_reply_ready e = true ∧
    q.2.2 = (distinct_recipients [] (group_recipients e)).*2 ∧ (2 <= length q.2.2)%nat.
Lemma ready_by_signature_spec c grouped p : p ∈ ready_by_signature c grouped → verified_by c grouped p.
Proof.
  unfold ready_by_signature. set (step := λ l i, match event_at i c with None => l | Some e => _ end).
  assert (∀ g l, g ⊆ grouped → (∀ q, q ∈ l → verified_by c grouped q) → ∀ q, q ∈ foldl step l g → verified_by c grouped q) as Hg; [|apply Hg; [done|by intros q Hq%elem_of_nil]].
  induction g as [|i g IH]; intros l Hsub Hl; [apply Hl|]. cbn. apply IH; [set_solver|]. unfold step.
  destruct (event_at i c) as [e|] eqn:Ee; [|exact Hl]. destruct (group_reply_ready e && _ && _) eqn:Eb; [|exact Hl]. intros q' [Hq|Hq % list_elem_of_singleton] % elem_of_app; [by apply Hl|].
  subst q'. cbn. exists i, e. rewrite !andb_true_iff, Z.leb_le in Eb. destruct Eb as [[Er E2] _]. split_and!; [set_solver|done..|]. unfold zlen in E2.
  rewrite (Permutation_length (sorted_texts_perm _)), length_fmap in E2. cbn [snd]. rewrite length_fmap. lia.
Qed.
Lemma reconcile_cluster_keeps ms p : (∀ i m, i ∈ p.2 → ms !! i = Some m → has_roster p.1 m) → holds (λ c, Full c ∧ group_members <$> out c = ms) (reconcile_cluster p.2).
Proof.
  intros Hp. apply holds_get. intros c [Hc Hm]. destruct (ready_by_signature c p.2) as [|[sig [name recips]] [|]] eqn:Er; [by apply wp_ret| |by apply wp_ret].
  destruct (ready_by_signature_spec c p.2 (sig, (name, recips))) as (j & e' & Hj & He' & Hready & Hrec & Htwo); [rewrite Er; left|]. cbn in Hrec, Htwo.
  assert (grounded j e') as Hg by (by apply (good_ready _ (proj1 Hc))). pose proof (good_members _ (proj1 Hc) _ _ He') as Hmj.
  destruct (transport_of _ _ _ (proj1 Hc) He') as (e0 & He0 & Ht). assert (has_roster p.1 (group_members e')) as Hr' by (eapply Hp; [exact Hj|]; by rewrite <- Hm, list_lookup_fmap, He').
  refine (holds_each _ _ _ _ c (conj Hc Hm)). clear c Hc Hm Er He'. intros i Hi. apply holds_modify. intros c [[Hc Hn] Hm]. split.
  2: { cbn. rewrite <- Hm. rewrite <- (list_alter_id id (group_members <$> out c) i) by done. apply list_fmap_alter, Forall_forall. intros x _. by case_bool_decide. }
  split; [|exact Hn]. apply good_update; [done|intros e; by case_bool_decide|intros e He; pose proof (good_members _ Hc _ _ He); by case_bool_decide|]. intros e He Hre.
  pose proof (good_members _ Hc _ _ He) as Hmi. case_bool_decide as Hv; [by apply (good_ready _ Hc)|].
  assert (has_roster p.1 (group_members e)) as Hr by (eapply Hp; [exact Hi|]; by rewrite <- Hm, list_lookup_fmap, He).
  eapply (grounded_reconciled _ _ _ j e0 e'); [done..| |done|done|done]. exists p.1. by split.
Qed.
Lemma reconcile_keeps : holds Full (_reconcile_group_identities (routes events)).
Proof.
  intros c Hc. unfold _reconcile_group_identities. apply wp_get, wp_bind. eapply wp_mono; [apply make_clusters_spec; [done| |]|].
  - intros i e. apply elem_of_indexed.
  - by intros p i ms Hp%elem_of_nil.
  - cbv beta. intros l c' (Hc' & Ho & Hl). rewrite <- Ho in Hl.
    apply (wp_mono _ (λ _ c, Full c ∧ group_members <$> out c = group_members <$> out c')); [|by intros ? ? [Hf _]].
    refine (holds_each (λ c, Full c ∧ group_members <$> out c = group_members <$> out c') _ _ _ c' (conj Hc' eq_refl)).
    intros p Hp. apply reconcile_cluster_keeps. intros i m. by apply Hl.
Qed.

(** *** The whole correlation *)

Definition annotated : list Event := annotate_stored (routes events) <$> events.
Definition received_messages : list (nat * Event) := List.filter (λ p, is_kind "sms_received" p.2) (indexed annotated).
Lemma elem_of_received i e : (i, e) ∈ received_messages ↔ ∃ e0, events !! i = Some e0 ∧ e = annotate_stored (routes events) e0 ∧ is_kind "sms_received" e = true.
Proof.
  unfold received_messages. rewrite list_elem_of_In, filter_In, <- list_elem_of_In, elem_of_indexed. unfold annotated. rewrite list_lookup_fmap_Some. split.
  - intros [(e0 & Hi & ->) Hk]. eauto.
  - intros (e0 & Hi & -> & Hk). split; [eauto|done].
Qed.
Lemma is_match_could_name text t i : is_match received_messages text t i ↔ could_name events text t i.
Proof.
  unfold is_match, could_name. split.
  - intros (e & u & (e0 & Hi & -> & Hk) % elem_of_received & Hu & Hw & Hd). pose proof (annotate_transport e0) as Ht. exists e0, u.
    unfold is_kind in *. rewrite (transport_kind _ _ Ht) in Hk. rewrite (transport_seen _ _ Ht) in Hu. apply (transport_describes _ _ Ht) in Hd. done.
  - intros (e0 & u & Hi & Hk & Hu & Hw & Hd). pose proof (annotate_transport e0) as Ht. exists (annotate_stored (routes events) e0), u. rewrite elem_of_received.
    rewrite (transport_seen _ _ Ht). split_and!; [|done..|by apply (transport_describes _ _ Ht)]. exists e0. unfold is_kind in *. by rewrite (transport_kind _ _ Ht).
Qed.
Lemma received_bound : Forall (λ p, p.1 < length annotated)%nat received_messages.
Proof.
  apply Forall_forall. intros [i e] (e0 & Hi & _) % elem_of_received. unfold annotated. rewrite length_fmap. by eapply lookup_lt_Some.
Qed.
Lemma whole_text_encoded text : is_ok (utf8_encode text) = true → Forall (λ x, is_scalar x = true) (whole_text text).
Proof.
  destruct (utf8_encode text) as [bs|] eqn:E; [|done]. intros _. apply encode_scalar in E. destruct (whole_text_prefix text) as [q Hq]. rewrite Hq in E. by apply Forall_app in E as [E _].
Qed.

Lemma start_good : Good (mkCorr annotated ∅ ∅ ∅ ∅ ∅).
Proof.
  split; cbn.
  - unfold annotated. rewrite <- list_fmap_compose. apply list_fmap_ext. intros i e _. apply annotate_transport.
  - intros k a. by rewrite lookup_empty.
  - intros k l. by rewrite lookup_empty.
  - intros i e Hi. unfold annotated in Hi. apply list_lookup_fmap_Some in Hi as (e0 & -> & Hi). by apply annotate_grounded.
  - intros i e Hi. unfold annotated in Hi. apply list_lookup_fmap_Some in Hi as (e0 & -> & Hi). by apply annotate_grounded.
Qed.
(** After the first pass every name of MAP is known. *)
Lemma learn_all (l : list Event) c : Good c → (∀ e, e ∈ l → ∃ e0, e0 ∈ events ∧ transport e = transport e0) →
  wp (for_each learn_from l) (λ _ c', Good c' ∧ out c' = out c ∧
    ∀ k a, a ∈ default ∅ (addresses_by_name c !! k) ∨
      (∃ e, e ∈ l ∧ is_sms e = true ∧ strip (contact_name e) ≠ [] ∧ str_casefold (strip (contact_name e)) = k ∧ safe_event_address e = Some a) →
      a ∈ default ∅ (addresses_by_name c' !! k)) c.
Proof.
  revert c. induction l as [|e l IH]; intros c Hc Hl; cbn [for_each].
  { apply wp_ret. split_and!; [done..|]. intros k a [Ha|(e & He & _)]; [done|by apply elem_of_nil in He]. }
  destruct (Hl e ltac:(left)) as (e0 & He0 & Ht). apply wp_bind.
  apply (wp_mono _ (λ _ c', Good c' ∧ out c' = out c ∧ ∀ k a, a ∈ default ∅ (addresses_by_name c !! k) ∨
      (is_sms e = true ∧ strip (contact_name e) ≠ [] ∧ str_casefold (strip (contact_name e)) = k ∧ safe_event_address e = Some a) → a ∈ default ∅ (addresses_by_name c' !! k))).
  - unfold learn_from. destruct (is_sms e) eqn:Es; cbn [negb].
    2: { apply wp_ret. split_and!; [done..|]. intros k a [Ha|[Ha _]]; done. }
    destruct (strip (contact_name e)) as [|n0 name] eqn:En; [apply wp_ret; split_and!; [done..|]; by intros k a [Ha|(_ & Ha & _)]|].
    destruct (safe_event_address e) as [a0|] eqn:Ea; [|apply wp_ret; split_and!; [done..|]; by intros k a [Ha|(_ & _ & _ & Ha)]].
    assert (introduced (str_casefold (n0 :: name)) a0) as Hi.
    { exists e0. rewrite <- (transport_name _ _ Ht), <- (transport_safe _ _ Ht), En. split_and!; [done| |done..]. unfold is_sms in *. by rewrite <- (transport_kind _ _ Ht). }
    apply wp_modify_last. split; [|split; [done|]].
    + split; cbn [out addresses_by_name _addresses set]; [by apply Hc| |by apply Hc..]. intros k b. cbn. destruct (decide (str_casefold (n0 :: name) = k)) as [<-|Hk].
      * rewrite lookup_insert_eq. cbn. rewrite elem_of_union, elem_of_singleton. intros [->|Hb]; [done|]. by apply (good_names _ Hc).
      * rewrite lookup_insert_ne by done. by apply (good_names _ Hc).
    + intros k a Hka. cbn. destruct (decide (str_casefold (n0 :: name) = k)) as [<-|Hk].
      * rewrite lookup_insert_eq. cbn. apply elem_of_union. destruct Hka as [Ha|(_ & _ & _ & Ha)]; [by right|]. left. injection Ha as ->. by apply elem_of_singleton.
      * rewrite lookup_insert_ne by done. destruct Hka as [Ha|(_ & _ & Ha & _)]; [done|]. by rewrite Ha in Hk.
  - intros [] c1 (Hc1 & Ho1 & Hk1). eapply wp_mono; [apply IH; [done|intros e' He'; apply Hl; by right]|]. cbv beta. intros _ c2 (Hc2 & Ho2 & Hk2). split_and!; [done|congruence|].
    intros k a [Ha|(e' & [->|He']%elem_of_cons & Hrest)]; apply Hk2; [left; apply Hk1; by left|left; apply Hk1; by right|]. right. exists e'. done.
Qed.

Section run.
Context (Hencoded : Forall (λ e, is_ok (utf8_encode (body e)) = true) events).

(** The index of the messages as the correlation builds it. *)
Lemma candidates_found : ∃ candidates, _MessageCandidates annotated received_messages = Ok candidates ∧
  (∀ text t, is_ok (utf8_encode text) = true → ∃ found, matching candidates text t ∅ None = Ok found ∧ ∀ i, i ∈ found ↔ could_name events text t i) ∧
  (∀ text t, is_ok (utf8_encode text) = true → ∃ found, matching candidates text t ∅ (Some 2%nat) = Ok found).
Proof.
  destruct (candidates_ok annotated received_messages) as [candidates Hc].
  { apply Forall_forall. intros [i e] (e0 & Hi & -> & _) % elem_of_received. cbn [snd]. rewrite (transport_body _ _ (annotate_transport e0)).
    rewrite Forall_forall in Hencoded. apply Hencoded. by eapply list_elem_of_lookup_2. }
  exists candidates. split_and!; [done| |]; intros text t Henc; apply whole_text_encoded in Henc.
  - destruct (matching_ok candidates text t ∅ None Henc) as [found Hf]. exists found. split; [done|]. intros i.
    rewrite (matching_found _ _ _ _ _ _ _ Hc received_bound Hf), is_match_could_name. set_solver.
  - by apply matching_ok.
Qed.
Lemma correlation_good : wp (correlation events) (λ _, Good) (Corr_init events).
Proof.
  unfold correlation. apply wp_bind, wp_modify_last, wp_get. change (NamedGroupRoutes_init events (observed_names events)) with (routes events).
  set (c0 := mkCorr annotated ∅ ∅ ∅ ∅ ∅). change ((Corr_init events) <| out ::= fmap (annotate_stored (routes events)) |>) with c0.
  change (out c0) with annotated. change (List.filter _ (indexed annotated)) with received_messages.
  destruct candidates_found as (candidates & Hc & Hcand & Hlimit). apply wp_bind, (wp_lift _ _ _ _ Hc), wp_bind.
  assert (∀ e, e ∈ annotated → ∃ n, n ∈ events ∧ transport e = transport n) as Hann.
  { intros e (n & -> & Hn) % list_elem_of_fmap. exists n. split; [done|]. apply annotate_transport. }
  eapply wp_mono; [apply (learn_all annotated c0 start_good Hann)|]. cbv beta. intros _ c (Hgood & Ho & Hlearn).
  assert (Full c) as Hfull.
  { split; [done|]. intros k a (e & He & Hs & Hn & Hk & Ha). apply Hlearn. right. pose proof (annotate_transport e) as Ht. exists (annotate_stored (routes events) e).
    rewrite (transport_name _ _ Ht), (transport_safe _ _ Ht). unfold is_sms in *. rewrite (transport_kind _ _ Ht). split_and!; [by apply list_elem_of_fmap_2|done..]. }
  eapply wp_mono with (Q := λ _, Full); [|by intros _ ? [? _]]. revert Hfull. generalize c as s. clear c Hgood Ho Hlearn.
  apply holds_bind; [apply holds_each; intros e (n & Hn & He) % Hann; by eapply note_evidence_keeps|]. intros [].
  apply holds_bind; [apply holds_each; intros e (n & Hn & He) % Hann; by eapply correlate_one_keeps|]. intros [].
  apply holds_bind; [apply holds_modify; intros c; apply mark_ambiguous|]. intros [].
  apply holds_bind; [apply holds_each; intros e (n & Hn & He) % Hann; by eapply link_direct_keeps|]. intros [].
  apply reconcile_keeps.
Qed.
End run.
End safety.

Section theorem.
Context `{CaseMapping, Digests, Resolver}.

End theorem.

(** ** Concrete correlations *)

(** Keys without a hash function. *)
#[local] Instance demo_digests : Digests.
Proof.
  refine {| nfc s := s; nfkc s := s; sha256_hex _ := repeat 48 64 |}.
  intros s. by vm_compute.
Defined.
#[local] Instance demo_resolver : Resolver := {| find_by_name := None; seen_instant s := Some (zlen s * 1000000) |}.
Definition demo_sms (name address text seen : ustr) : Event :=
  (demo_message text seen) <| contact_name := name |> <| sender_address := address |>.
Definition demo_notification (from subject text seen : ustr) : Event :=
  blank <| kind := lit "ancs_notification" |> <| app_id := MESSAGES_APP_ID |> <| title := from |> <| subtitle := subject |> <| body := text |> <| seen_at := seen |>.
(** Alice writes to the user and Bob, who wrote before. *)
Definition demo_group : list Event :=
  [demo_sms (lit "Alice") (lit "+1 555 000 0001") (lit "hi all") (lit "now"); demo_sms (lit "Bob") (lit "+1 555 000 0002") (lit "earlier") (lit "now");
   demo_notification (lit "Alice") (lit "To you & Bob") (lit "hi all") (lit "now")].
(** Two names of one person, whose number is spelled in two ways, pass for a
    group of two: the check compares the spellings, not the identities. *)
Definition demo_alias : list Event :=
  [demo_sms (lit "Alice") (lit "+1 555 000 0001") (lit "hi all") (lit "now"); demo_sms (lit "Al") (lit "15550000001") (lit "earlier") (lit "now");
   demo_notification (lit "Alice") (lit "To you & Al") (lit "hi all") (lit "now")].
Example one_person_twice : let l := or_else [] (correlate_group_events demo_alias) in
  (group_reply_ready <$> l) = [true; false; false] ∧
  (e ← head l; Some (canonical_address <$> group_recipients e)) = Some [Some (lit "phone:15550000001"); Some (lit "phone:15550000001")].
Proof. vm_compute. by split. Qed.
