(* ===== verification/ThreadResponse.v ===== *)
(** * ThreadResponse: conversations within the wire budget
    (src/blueferry/threads.py, bound_thread_response).

    A D-Bus answer carries the conversations as JSON.  The function keeps the
    newest messages of each, one of every conversation a round, while they fit.
    A thread is its dict; [kept] holds the messages of each newest first. *)
From S2P Require Import Prelude PyStr Wire Text Recipients Json.

Definition MAX_DBUS_JSON_BYTES : Z := 8 * 1024 * 1024.
Definition MESSAGES : ustr := lit "messages".
Definition TRUNCATED : ustr := lit "messages_truncated".

(** [len(json.dumps(value, ...).encode("utf-8"))]. *)
Definition size (v : json) : result Z := encoded ← utf8_encode (dumps v); mret (zlen encoded).
Definition messages (thread : dict) : list json := match dict_get MESSAGES thread with Some (JList l) => l | _ => [] end.
Definition was_truncated (thread : dict) : bool := match dict_get TRUNCATED thread with Some v => truthy v | None => false end.
Definition with_messages (thread : dict) (l : list json) (truncated : bool) : dict :=
  dict_set TRUNCATED (JBool truncated) (dict_set MESSAGES (JList l) thread).
Definition comma {A} (l : list A) : Z := if is_nil l then 0 else 1.

(** The conversations that fit without messages. *)
Fixpoint fit (remaining : Z) (result : list dict) (threads : list dict) : Prelude.result (list dict * Z) :=
  match threads with
  | [] => mret (result, remaining)
  | thread :: threads' =>
      let item := with_messages thread [] false in
      n ← size (JDict item);
      let cost := n + comma result in
      if remaining <? cost then mret (result, remaining) else fit (remaining - cost) (result ++ [item]) threads'
  end.

(** One round over the [pending] conversations. *)
Record Filling := mkFilling { kept : list (list json); remaining : Z; next_round : list nat }.
Definition fill_one (all : list (list json)) (f : Filling) (index : nat) : result Filling :=
  let msgs := nth index all [] in
  let k := nth index (kept f) [] in
  if bool_decide (length k = length msgs) then mret f
  else
    let message := nth (length msgs - length k - 1) msgs JNull in
    n ← size message;
    let cost := n + comma k in
    if cost <=? remaining f then
      mret (mkFilling (alter (λ k, k ++ [message]) index (kept f)) (remaining f - cost) (next_round f ++ [index]))
    else mret f.
Fixpoint fill_round (all : list (list json)) (f : Filling) (pending : list nat) : result Filling :=
  match pending with [] => mret f | index :: pending' => f ← fill_one all f index; fill_round all f pending' end.
(** [while pending], for at most [fuel] rounds. *)
Fixpoint fill (fuel : nat) (all : list (list json)) (pending : list nat) (f : Filling) : result Filling :=
  match fuel, pending with
  | S fuel, _ :: _ => f ← fill_round all (mkFilling (kept f) (remaining f) []) pending; fill fuel all (next_round f) f
  | _, _ => mret f
  end.
Definition finish (original item : dict) (k : list json) : dict :=
  with_messages item (reverse k) (was_truncated original || (length k <? length (messages original))%nat).
Definition bound_thread_response (threads : list dict) (max_bytes : Z) : result (list dict) :=
  '(items, budget) ← fit (max_bytes - 2) [] threads;
  let all := messages <$> take (length items) threads in
  let pending := seq 0 (length items) in
  f ← fill (S (length (concat all))) all pending (mkFilling (replicate (length items) []) budget []);
  mret (zip_with (λ p k, finish p.1 p.2 k) (zip threads items) (kept f)).

(** ** Costs *)

Lemma size_ok v : encodable v → size v = Ok (json_size v).
Proof. intros Hv. unfold size. destruct (encode_length _ Hv) as (bs & -> & Hl). cbn. by rewrite Hl. Qed.
Lemma size_inv v n : size v = Ok n → n = json_size v.
Proof. unfold size. destruct (utf8_encode (dumps v)) as [bs|] eqn:E; [|done]. cbn. intros [= <-]. by apply encoded_length. Qed.
Definition sum (l : list Z) : Z := foldr Z.add 0 l.
(** The bytes of messages with the commas between them. *)
Definition kept_cost (k : list json) : Z := sum_sizes k + Z.max 0 (zlen k - 1).
Lemma sum_app l k : sum (l ++ k) = sum l + sum k.
Proof. unfold sum. induction l; cbn; lia. Qed.
Lemma sum_perm l k : l ≡ₚ k → sum l = sum k.
Proof. unfold sum. induction 1; cbn; lia. Qed.
Lemma kept_cost_snoc k m : kept_cost (k ++ [m]) = kept_cost k + json_size m + comma k.
Proof.
  unfold kept_cost, sum_sizes, comma. rewrite fmap_app. change (foldr Z.add 0) with sum. rewrite sum_app. unfold zlen. rewrite length_app. cbn.
  destruct k; cbn; lia.
Qed.
Lemma kept_cost_reverse k : kept_cost (reverse k) = kept_cost k.
Proof.
  unfold kept_cost, sum_sizes, zlen. rewrite length_reverse. change (foldr Z.add 0) with sum. by rewrite (sum_perm (json_size <$> reverse k) (json_size <$> k)) by (by rewrite reverse_Permutation).
Qed.
Lemma sum_alter {A} (h : A → Z) g (l : list A) i x : l !! i = Some x → sum (h <$> alter g i l) = sum (h <$> l) - h x + h (g x).
Proof.
  revert i. induction l as [|y l IH]; intros [|i]; [done|done|intros [= ->]; unfold sum; cbn; lia|]. intros Hi. specialize (IH i Hi).
  change (h y + sum (h <$> alter g i l) = h y + sum (h <$> l) - h x + h (g x)). lia.
Qed.

Lemma comma_min {A} (l : list A) : comma l = Z.min 1 (zlen l).
Proof. destruct l; unfold comma, zlen; cbn [is_nil length]; lia. Qed.
Lemma message_cost_pos m (k : list json) : 0 <= json_size m + comma k.
Proof. pose proof (byte_length_pos (dumps m)). unfold json_size, comma. destruct (is_nil k); lia. Qed.

(** ** Conversations without messages *)

Lemma with_messages_get t l b k : k ≠ MESSAGES → k ≠ TRUNCATED → dict_get k (with_messages t l b) = dict_get k t.
Proof. intros H1 H2. unfold with_messages. by rewrite !dict_get_set_ne. Qed.
Lemma with_messages_messages t l b : messages (with_messages t l b) = l.
Proof. unfold messages, with_messages. rewrite dict_get_set_ne by done. by rewrite dict_get_set. Qed.
Lemma with_messages_truncated t l b : was_truncated (with_messages t l b) = b.
Proof. unfold was_truncated, with_messages. by rewrite dict_get_set. Qed.
Lemma with_messages_size t l b l' b' : json_size (JDict (with_messages (with_messages t l b) l' b')) =
  json_size (JDict (with_messages t l b)) - json_size (JList l) + json_size (JList l') - json_size (JBool b) + json_size (JBool b').
Proof.
  unfold with_messages at 1. rewrite (dict_set_size TRUNCATED _ (JBool b)).
  2: { rewrite dict_get_set_ne by done. unfold with_messages. by rewrite dict_get_set. }
  rewrite (dict_set_size MESSAGES _ (JList l)); [lia|]. unfold with_messages. rewrite dict_get_set_ne by done. by rewrite dict_get_set.
Qed.
Definition empty_item (t : dict) : dict := with_messages t [] false.
Lemma empty_item_encodable t : encodable (JDict t) → encodable (JDict (empty_item t)).
Proof. intros Ht. unfold empty_item, with_messages. repeat apply encodable_set; try done; by repeat constructor. Qed.
Lemma messages_encodable t : encodable (JDict t) → Forall encodable (messages t).
Proof.
  intros Ht. unfold messages. destruct (dict_get MESSAGES t) as [v|] eqn:E; [|constructor]. pose proof (encodable_get _ _ _ Ht E) as Hv. destruct v; try constructor. by apply encodable_list.
Qed.
(** The first phase keeps a prefix of the conversations and pays for it. *)
Lemma fit_spec budget done threads : Forall (λ t, encodable (JDict t)) threads → 0 <= budget →
  ∃ n rest, fit budget done threads = Ok (done ++ (empty_item <$> take n threads), rest) ∧ (n <= length threads)%nat ∧ 0 <= rest ∧
    rest = budget - sum ((λ t, json_size (JDict (empty_item t))) <$> take n threads) -
      (Z.max 0 (zlen (done ++ (empty_item <$> take n threads)) - 1) - Z.max 0 (zlen done - 1)) ∧
    ∀ t, threads !! n = Some t → rest < json_size (JDict (empty_item t)) + comma (done ++ (empty_item <$> take n threads)).
Proof.
  intros Ht. revert budget done. induction Ht as [|t threads He Ht IH]; intros budget done Hb; cbn [fit].
  { exists 0%nat, budget. cbn. rewrite app_nil_r. split_and!; [reflexivity|lia|done|lia|done]. }
  fold (empty_item t). rewrite (size_ok _ (empty_item_encodable t He)). cbn [mbind result_bind]. set (cost := json_size (JDict (empty_item t)) + comma done).
  destruct (Z.ltb_spec budget cost) as [Hlt|Hge].
  { exists 0%nat, budget. cbn. rewrite app_nil_r. split_and!; [reflexivity|lia|done|lia|by intros ? [= <-]]. }
  destruct (IH (budget - cost) (done ++ [empty_item t]) ltac:(lia)) as (n & rest & -> & Hn & Hr & Hsum & Hnext). exists (S n), rest. cbn [take fmap list_fmap length].
  rewrite <- app_assoc in *. cbn [app] in *. split_and!; [done|lia|done| |exact Hnext]. unfold sum in *. cbn [foldr]. rewrite Hsum. unfold zlen. rewrite !length_app. cbn [length].
  subst cost. unfold comma. destruct done; cbn [is_nil length]; lia.
Qed.

(** ** Rounds *)

Section filling.
Context (all : list (list json)) (budget : Z).
Context (Hall : Forall (Forall encodable) all).

Record Filled (f : Filling) : Prop := {
  filled_length : length (kept f) = length all;
  filled_budget : remaining f + sum (kept_cost <$> kept f) = budget;
  filled_rest : 0 <= remaining f;
  filled_tail i k msgs : kept f !! i = Some k → all !! i = Some msgs → k = take (length k) (reverse msgs);
}.
(** Conversation [i] is whole, or its next message does not fit. *)
Definition settled (f : Filling) (i : nat) : Prop :=
  ∀ k msgs, kept f !! i = Some k → all !! i = Some msgs →
    length k = length msgs ∨ ∃ m, reverse msgs !! length k = Some m ∧ remaining f < json_size m + comma k.
(** The messages kept so far. *)
Definition total (f : Filling) : nat := length (concat (kept f)).

Lemma settled_mono f f' i : settled f i → kept f' !! i = kept f !! i → remaining f' <= remaining f → settled f' i.
Proof.
  intros Hs Hk Hr k msgs Hk' Hm. rewrite Hk in Hk'. destruct (Hs k msgs Hk' Hm) as [?|(m & Hm' & Hlt)]; [by left|]. right. exists m. split; [done|lia].
Qed.
Lemma total_alter f i k m : kept f !! i = Some k → length (concat (alter (λ k, k ++ [m]) i (kept f))) = S (total f).
Proof.
  unfold total. generalize (kept f) as l. revert i. intros i l. revert i. induction l as [|x l IH]; intros [|i] Hi; [done|done| |].
  - cbn. rewrite !length_app. cbn. lia.
  - change (length (x ++ concat (alter (λ k0, k0 ++ [m]) i l)) = S (length (x ++ concat l))). rewrite !length_app, (IH i Hi). lia.
Qed.
Lemma fill_one_spec f i : Filled f → (i < length all)%nat → ∃ f', fill_one all f i = Ok f' ∧ Filled f' ∧ remaining f' <= remaining f ∧
  (∀ j, j ≠ i → kept f' !! j = kept f !! j) ∧
  ((next_round f' = next_round f ∧ total f' = total f ∧ settled f' i) ∨ (next_round f' = next_round f ++ [i] ∧ total f' = S (total f))).
Proof.
  intros Hf Hi. destruct (lookup_lt_is_Some_2 all i Hi) as [msgs Hm]. destruct (lookup_lt_is_Some_2 (kept f) i) as [k Hk]; [by rewrite (filled_length _ Hf)|].
  pose proof (filled_tail _ Hf i k msgs Hk Hm) as Htail. unfold fill_one. rewrite (nth_lookup all), (nth_lookup (kept f)), Hk, Hm. cbn [from_option id].
  assert (length k <= length msgs)%nat as Hle by (rewrite Htail, length_take, length_reverse; lia).
  case_bool_decide as Hl.
  { exists f. split_and!; [done..|]. left. split_and!; [done..|]. intros k' msgs' Hk' Hm'. simplify_eq. by left. }
  destruct (lookup_lt_is_Some_2 (reverse msgs) (length k)) as [m Hrev]; [rewrite length_reverse; lia|].
  assert (nth (length msgs - length k - 1) msgs JNull = m) as ->.
  { rewrite nth_lookup. rewrite reverse_lookup in Hrev by lia. replace (length msgs - length k - 1)%nat with (length msgs - S (length k))%nat by lia. by rewrite Hrev. }
  assert (encodable m) as Hem.
  { rewrite Forall_forall in Hall. specialize (Hall msgs (list_elem_of_lookup_2 _ _ _ Hm)). rewrite Forall_forall in Hall. apply Hall. apply elem_of_reverse. by eapply list_elem_of_lookup_2. }
  rewrite (size_ok _ Hem). cbn [mbind result_bind]. destruct (Z.leb_spec (json_size m + comma k) (remaining f)) as [Hfit|Hno].
  2: { exists f. split_and!; [done..|]. left. split_and!; [done..|]. intros k' msgs' Hk' Hm'. simplify_eq. right. eauto. }
  eexists. split; [reflexivity|]. split; [|split; [cbn [remaining]; pose proof (message_cost_pos m k); lia|split]].
  - split; cbn [kept remaining].
    + by rewrite length_alter, (filled_length _ Hf).
    + rewrite (sum_alter _ _ _ _ _ Hk), kept_cost_snoc. pose proof (filled_budget _ Hf). lia.
    + lia.
    + intros j k' msgs'. destruct (decide (i = j)) as [<-|Hj]; [|rewrite list_lookup_alter_ne by done; apply (filled_tail _ Hf)].
      rewrite list_lookup_alter_eq, Hk. cbn. intros [= <-] Hm'. simplify_eq. rewrite length_app, Nat.add_1_r. rewrite (take_S_r _ _ _ Hrev). by rewrite <- Htail.
  - intros j Hj. cbn. by rewrite list_lookup_alter_ne.
  - right. split; [done|]. by eapply total_alter.
Qed.
(** A round settles the conversations that it does not keep for the next. *)
Lemma fill_round_spec pending f : Filled f → Forall (λ i, i < length all)%nat pending → NoDup (pending ++ next_round f) →
  ∃ f', fill_round all f pending = Ok f' ∧ Filled f' ∧ remaining f' <= remaining f ∧ (total f' + length (next_round f) = total f + length (next_round f'))%nat ∧
    NoDup (next_round f') ∧ next_round f' ⊆ pending ++ next_round f ∧
    (∀ j, j ∉ pending → kept f' !! j = kept f !! j) ∧ (∀ j, j ∈ pending → settled f' j ∨ j ∈ next_round f') ∧ next_round f ⊆ next_round f'.
Proof.
  revert f. induction pending as [|i pending IH]; intros f Hf Hp Hd; cbn [fill_round].
  { exists f. split_and!; [done|done|lia|lia|done|done|done|by intros j Hj%elem_of_nil|done]. }
  apply Forall_cons in Hp as [Hi Hp]. cbn in Hd. apply NoDup_cons in Hd as [Hnotin Hd]. rewrite not_elem_of_app in Hnotin. destruct Hnotin as [Hni Hnn].
  destruct (fill_one_spec f i Hf Hi) as (f1 & -> & Hf1 & Hr1 & Hk1 & Hcase). cbn [mbind result_bind].
  assert (NoDup (pending ++ next_round f1)) as Hd1.
  { destruct Hcase as [(-> & _)|(-> & _)]; [done|]. rewrite app_assoc. apply NoDup_app. split_and!; [done| |apply NoDup_singleton]. intros x Hx Hxi%list_elem_of_singleton. subst x.
    apply elem_of_app in Hx as [Hx|Hx]; done. }
  destruct (IH f1 Hf1 Hp Hd1) as (f2 & -> & Hf2 & Hr2 & Ht2 & Hnd & Hsub & Hk2 & Hset & Hinc). exists f2. split_and!; [done|done|lia| |done| | | |].
  - destruct Hcase as [(Hn & Ht & _)|(Hn & Ht)]; rewrite Hn, ?length_app in Ht2; cbn in Ht2; lia.
  - intros x Hx. apply Hsub in Hx. destruct Hcase as [(Hn & _)|(Hn & _)]; rewrite Hn in Hx; set_solver.
  - intros j Hj. apply not_elem_of_cons in Hj as [Hji Hj]. by rewrite Hk2, Hk1.
  - intros j [->|Hj]%elem_of_cons; [|by apply Hset]. destruct Hcase as [(_ & _ & Hs)|(Hn & _)].
    + left. eapply settled_mono; [exact Hs|by apply Hk2|done].
    + right. apply Hinc. rewrite Hn. set_solver.
  - destruct Hcase as [(Hn & _)|(Hn & _)]; rewrite Hn in Hinc; set_solver.
Qed.
Lemma kept_total f : Filled f → (total f <= length (concat all))%nat.
Proof.
  intros Hf. unfold total. pose proof (filled_length _ Hf) as Hl. pose proof (filled_tail _ Hf) as Ht. revert Hl Ht. generalize (kept f) as l. clear. 
  induction all as [|msgs ms IH]; intros [|k l]; cbn; [done..|]. intros [= Hl] Ht. rewrite !length_app.
  assert (length k <= length msgs)%nat. { rewrite (Ht 0%nat k msgs eq_refl eq_refl), length_take, length_reverse. lia. }
  specialize (IH l Hl (λ i, Ht (S i))). lia.
Qed.
(** The loop ends with every conversation settled. *)
Lemma fill_spec fuel pending f : Filled f → Forall (λ i, i < length all)%nat pending → NoDup pending → (length (concat all) - total f < fuel)%nat →
  (∀ i, i < length all → settled f i ∨ i ∈ pending)%nat →
  ∃ f', fill fuel all pending f = Ok f' ∧ Filled f' ∧ ∀ i, (i < length all)%nat → settled f' i.
Proof.
  revert pending f. induction fuel as [|fuel IH]; intros pending f Hf Hp Hd Hfuel Hset; [lia|].
  destruct pending as [|i0 pending0] eqn:Ep; [exists f; split_and!; [done..|]; intros i Hi; destruct (Hset i Hi) as [|?%elem_of_nil]; done|]. rewrite <- Ep in *. cbn [fill].
  set (f0 := mkFilling (kept f) (remaining f) []). assert (Filled f0) as Hf0 by (destruct Hf; by constructor).
  destruct (fill_round_spec pending f0 Hf0 Hp) as (f1 & Hrun & Hf1 & Hr1 & Ht1 & Hnd & Hsub & Hk1 & Hset1 & _); [by rewrite app_nil_r|]. rewrite app_nil_r in Hsub.
  replace (match pending with [] => mret f | _ :: _ => _ end) with (f ← fill_round all f0 pending; fill fuel all (next_round f) f) by (by rewrite Ep). rewrite Hrun. cbn [mbind result_bind].
  assert (∀ i, i < length all → settled f1 i ∨ i ∈ next_round f1)%nat as Hset'.
  { intros i Hi. destruct (decide (i ∈ pending)) as [Hin|Hout]; [by apply Hset1|]. destruct (Hset i Hi) as [Hs|]; [|done]. left. eapply settled_mono; [exact Hs|by apply Hk1|done]. }
  destruct (next_round f1) as [|j next] eqn:En.
  - assert (fill fuel all [] f1 = Ok f1) as -> by (by destruct fuel). exists f1. split_and!; [done..|]. intros i Hi. destruct (Hset' i Hi) as [|?%elem_of_nil]; done.
  - rewrite <- En in *. apply IH; [done| |done| |done].
    + apply Forall_forall. intros x Hx. rewrite Forall_forall in Hp. by apply Hp, Hsub.
    + assert (total f0 = total f) as Et by done. rewrite Et, En in Ht1. cbn in Ht1. pose proof (kept_total _ Hf1). lia.
Qed.
End filling.

(** ** The response *)

Lemma finish_size t k : let truncated := was_truncated t || (length k <? length (messages t))%nat in
  json_size (JDict (finish t (empty_item t) k)) = json_size (JDict (empty_item t)) + kept_cost k - (if truncated then 1 else 0).
Proof.
  intros truncated. unfold finish, empty_item. rewrite with_messages_size, !list_size. fold (kept_cost (reverse k)).
  assert (2 + sum_sizes (reverse k) + Z.max 0 (zlen (reverse k) - 1) = 2 + kept_cost k) as -> by (rewrite <- (kept_cost_reverse k); unfold kept_cost; lia).
  change (json_size (JBool false)) with 5. change (sum_sizes []) with 0. change (zlen (@nil json)) with 0. fold truncated. destruct truncated; [change (json_size (JBool true)) with 4|change (json_size (JBool false)) with 5]; lia.
Qed.
Definition finished (ts : list dict) (ks : list (list json)) : list dict := zip_with (λ t k, finish t (empty_item t) k) ts ks.
Lemma finished_sizes ts ks : length ts = length ks →
  sum_sizes (JDict <$> finished ts ks) <= sum ((λ t, json_size (JDict (empty_item t))) <$> ts) + sum (kept_cost <$> ks) <= sum_sizes (JDict <$> finished ts ks) + zlen ts.
Proof.
  revert ks. induction ts as [|t ts IH]; intros [|k ks]; [by cbn|done|done|]. intros [= Hl]. specialize (IH ks Hl).
  change (sum_sizes (JDict <$> finished (t :: ts) (k :: ks))) with (json_size (JDict (finish t (empty_item t) k)) + sum_sizes (JDict <$> finished ts ks)).
  rewrite finish_size. unfold sum, zlen in *. cbn [fmap list_fmap foldr length]. destruct (was_truncated t || _); lia.
Qed.
Lemma zip_finish (threads : list dict) n ks : 
  zip_with (λ p k, finish p.1 p.2 k) (zip threads (empty_item <$> take n threads)) ks = finished (take n threads) ks.
Proof.
  revert n ks. induction threads as [|t ts IH]; intros [|n] ks; [done..|]. cbn. destruct ks as [|k ks]; [done|]. cbn. f_equal. apply IH.
Qed.
Lemma suffix_of_kept (msgs k : list json) : k = take (length k) (reverse msgs) → ∃ older, msgs = older ++ reverse k ∧
  (length k < length msgs ↔ older ≠ [])%nat ∧ ∀ m, last older = Some m → reverse msgs !! length k = Some m.
Proof.
  intros Hk. exists (reverse (drop (length k) (reverse msgs))).
  assert (msgs = reverse (drop (length k) (reverse msgs)) ++ reverse k) as Heq.
  { rewrite <- reverse_app, Hk at 1. rewrite take_drop. by rewrite reverse_involutive. }
  split_and!; [done| |].
  - assert (length msgs = length (drop (length k) (reverse msgs)) + length k)%nat as -> by (rewrite Heq at 1; rewrite length_app, !length_reverse; done).
    destruct (drop (length k) (reverse msgs)) as [|x l] eqn:E; cbn [length]; [split; [lia|done]|]. split; [|lia]. intros _ Hn. apply (f_equal length) in Hn. rewrite length_reverse in Hn. done.
  - intros m. rewrite last_reverse, head_lookup, lookup_drop, Nat.add_0_r. done.
Qed.

(** C37: The answer fits the wire and wastes nothing.  For conversations whose
    JSON can be encoded and a budget of at least two bytes, the function
    returns; the JSON of its result is within the budget; the result is the
    first conversations, with every field but the messages unchanged; of each
    it keeps the newest messages without a gap, and says so when older ones
    are missing; no further conversation fits without messages, and no
    conversation's next message fits, up to one byte for a comma and one for
    each truncation flag. *)
Theorem response_bounded threads max : Forall (λ t, encodable (JDict t)) threads → 2 <= max →
  ∃ r, bound_thread_response threads max = Ok r ∧
    let used := json_size (JList (JDict <$> r)) in used <= max ∧ (length r <= length threads)%nat ∧
    (∀ t, threads !! length r = Some t → max < json_size (JList (JDict <$> (empty_item <$> take (S (length r)) threads)))) ∧
    ∀ i item, r !! i = Some item → ∃ t older, threads !! i = Some t ∧ messages t = older ++ messages item ∧
      (∀ k, k ≠ MESSAGES → k ≠ TRUNCATED → dict_get k item = dict_get k t) ∧
      was_truncated item = was_truncated t || negb (is_nil older) ∧
      ∀ m, last older = Some m → max < used + json_size m + 1 + zlen r.
Proof.
  intros Ht Hmax. unfold bound_thread_response.
  destruct (fit_spec (max - 2) [] threads Ht ltac:(lia)) as (n & rest & -> & Hn & Hrest & Hsum & Hnext). cbn [mbind result_bind app] in *. rewrite length_fmap, length_take, Nat.min_l by done.
  set (all := messages <$> take n threads). assert (length all = n) as Hlen by (subst all; rewrite length_fmap, length_take; lia).
  assert (Forall (Forall encodable) all) as Hall.
  { subst all. rewrite Forall_fmap. apply Forall_take. eapply Forall_impl; [exact Ht|]. intros t. apply messages_encodable. }
  set (f0 := mkFilling (replicate n []) rest []). assert (Filled all rest f0) as Hf0.
  { split; cbn [kept remaining f0]; [by rewrite length_replicate| |done|].
    - rewrite fmap_replicate. change (kept_cost []) with 0. assert (∀ j, sum (replicate j 0) = 0) as ->; [|lia]. unfold sum. induction j; cbn; [done|lia].
    - intros i k msgs Hk _. apply lookup_replicate in Hk as [-> _]. done. }
  destruct (fill_spec all rest Hall (S (length (concat all))) (seq 0 n) f0 Hf0) as (f & -> & Hf & Hset).
  { apply Forall_forall. intros i Hi%elem_of_seq. lia. } { apply NoDup_seq. } { lia. } { intros i Hi. right. apply elem_of_seq. lia. }
  cbn [mbind result_bind]. rewrite zip_finish. pose proof (filled_length _ _ _ Hf) as Hk. rewrite Hlen in Hk.
  exists (finished (take n threads) (kept f)). split; [done|]. set (r := finished (take n threads) (kept f)).
  assert (length r = n) as Hr by (subst r; unfold finished; rewrite length_zip_with, length_take; lia).
  pose proof (finished_sizes (take n threads) (kept f) ltac:(rewrite length_take; lia)) as [Hle Hge]. fold r in Hle, Hge. pose proof (filled_budget _ _ _ Hf) as Hb. pose proof (filled_rest _ _ _ Hf) as Hr0.
  assert (∀ l : list dict, zlen (JDict <$> l) = zlen l) as Hz by (intros l; unfold zlen; by rewrite length_fmap).
  rewrite list_size, Hz. unfold zlen in *. rewrite Hr, length_fmap, length_take, Nat.min_l in * by done. cbn [length] in *. split_and!; [lia|lia| |].
  - intros t Hi. specialize (Hnext t Hi). rewrite list_size. unfold zlen, sum_sizes in *. rewrite !length_fmap, length_take. rewrite (take_S_r _ _ _ Hi), !fmap_app. cbn [fmap list_fmap].
    change (foldr Z.add 0) with sum. rewrite sum_app. cbn [sum foldr]. rewrite <- !list_fmap_compose. unfold sum in *. unfold compose in *. rewrite comma_min in Hnext. unfold zlen in Hnext.
    rewrite length_fmap, length_take in Hnext. apply lookup_lt_Some in Hi. lia.
  - intros i item Hi. subst r. unfold finished in Hi. apply lookup_zip_with_Some in Hi as (t & k & -> & Hti & Hki). apply lookup_take_Some in Hti as [Hti Hin].
    assert (all !! i = Some (messages t)) as Hm by (subst all; by rewrite list_lookup_fmap, lookup_take_lt, Hti by done).
    destruct (suffix_of_kept (messages t) k (filled_tail _ _ _ Hf i k _ Hki Hm)) as (older & Heq & Hold & Hlast). exists t, older. unfold finish, empty_item. split_and!; [done| | | |].
    + by rewrite with_messages_messages.
    + intros key H1 H2. by rewrite !with_messages_get.
    + rewrite with_messages_truncated. f_equal. destruct older; cbn; [apply Nat.ltb_ge|apply Nat.ltb_lt; by apply Hold].
      apply not_lt. intros Hlt. by apply Hold in Hlt.
    + intros m Hm'. apply Hlast in Hm' as Hrev. destruct (Hset i ltac:(lia) k _ Hki Hm) as [Hfull|(m' & Hm2 & Hlt)].
      * apply lookup_lt_Some in Hrev. rewrite length_reverse in Hrev. lia.
      * simplify_eq. unfold comma in Hlt. destruct (is_nil k); lia.
Qed.

Definition demo_thread (name : string) (l : list string) : dict :=
  [(lit "key", JStr (lit name)); (MESSAGES, JList (JStr ∘ lit <$> l)); (TRUNCATED, JBool false)].
(** Two conversations with room for three of their five messages. *)
Definition demo_threads : list dict := [demo_thread "a" ["one"; "two"; "three"]; demo_thread "b" ["long message"; "four"]].
Lemma response_bounded_witness : ∃ r, bound_thread_response demo_threads 126 = Ok r ∧ json_size (JList (JDict <$> r)) <= 126 ∧
  messages <$> r = [[JStr (lit "two"); JStr (lit "three")]; [JStr (lit "four")]].
Proof.
  destruct (response_bounded demo_threads 126) as (r & Hr & Hs & _); [by repeat constructor|lia|]. exists r. split; [exact Hr|]. split; [exact Hs|].
  transitivity (messages <$> match bound_thread_response demo_threads 126 with Ok r => r | Raise _ => [] end); [by rewrite Hr|vm_compute; reflexivity].
Defined.
