(* ===== verification/Threads.v ===== *)
(** * Threads: the conversations of the history (src/blueferry/threads.py).

    [build_threads] correlates the events, groups them by key and decides where
    a reply goes.  A thread is a [Thread]; [m_maybe_group] of a message stands
    for its id being in the code's set [maybe_group]. *)
From S2P Require Import Prelude PyStr Wire Text Recipients Json Events NamedGroups Grouping.

Definition MAX_THREAD_MESSAGES : nat := 500.
Definition SENDER_REPLY_TOKEN_PREFIX : ustr := lit "sender:".

(** What the projection asks of contacts, of datetime (the order of a time
    stamp, [None] for one that cannot be read) and of [str.islower]. *)
Class Directory := {
  resolve : ustr → option ustr;
  thread_addresses : option ustr → list ustr;
  instant_of : ustr → option Z;
  islower : ustr → bool;
  no_thread_addresses : thread_addresses None = [];
}.

Record Message := mkMessage {
  m_handle : ustr;
  m_address : ustr;
  m_body : ustr;
  m_timestamp : ustr;
  m_outgoing : bool;
  m_sender : ustr;
  m_read : bool;
  m_body_truncated : bool;
  m_maybe_group : bool;
}.
Record Thread := mkThread {
  t_key : ustr;
  t_aliases : list ustr;
  t_name : ustr;
  t_is_group : bool;
  t_members : list ustr;
  t_recipients : list ustr;
  t_observed_recipients : list ustr;
  t_reply_ready : bool;
  t_group_origin : ustr;
  t_participants_required : bool;
  t_prompt_sender : ustr;
  t_roster_changed : bool;
  t_unexpected_sender : ustr;
  t_roster_warning_id : ustr;
  t_missing_members : option (list ustr);
  t_group_ambiguous : bool;
  t_messages : list Message;
  t_last_ts : ustr;
  t_sender_reply_token : option ustr;
  t_messages_truncated : bool;
  t_unread : bool;
  t_starred : bool;
}.

Definition MESSAGE_KINDS : list ustr := [lit "sms_received"; lit "sms_sent"].
Definition _event_time (e : Event) : ustr := or_text (timestamp e) (seen_at e).
(** [instant_of a >= instant_of b], unreadable times first. *)
Definition not_before (a b : option Z) : bool := match a, b with _, None => true | None, Some _ => false | Some x, Some y => y <=? x end.

Section tokens.
Context `{Digests}.
(** [[handle, timestamp]] pairs in Python's order of lists. *)
Definition pair_leb (p q : ustr * ustr) : bool := if bool_decide (p.1 = q.1) then str_leb p.2 q.2 else str_leb p.1 q.1.
Fixpoint insert_pair (p : ustr * ustr) (l : list (ustr * ustr)) : list (ustr * ustr) :=
  match l with [] => [p] | q :: l' => if pair_leb p q then p :: l else q :: insert_pair p l' end.
Definition sort_pairs (l : list (ustr * ustr)) : list (ustr * ustr) := foldr insert_pair [] l.
Definition sender_reply_token (address : ustr) (messages : list Message) : ustr :=
  let evidence := JStr address :: ((λ p, JList [JStr p.1; JStr p.2]) <$> sort_pairs ((λ m, (m_handle m, m_timestamp m)) <$> messages)) in
  SENDER_REPLY_TOKEN_PREFIX ++ sha256_hex (dumps_with compact_ascii (JList evidence)).
End tokens.

Section threads.
Context `{CaseMapping, Digests, Resolver, Directory}.

Definition timestamp_order (value : ustr) : option Z := instant_of value.
Definition _thread_name (e : Event) (address : option ustr) : ustr :=
  if negb (is_nil (group_name e)) then group_name e
  else match a ← address; resolve a with Some (c :: name) => c :: name | _ => display_sender_from_dict e end.
Definition _message_sender (e : Event) (address : option ustr) : ustr :=
  match a ← address; resolve a with
  | Some (c :: name) => c :: name
  | _ => or_text (strip (contact_name e)) (or_text (strip (group_observed_sender e)) (default (lit "(unknown)") address))
  end.
Definition conversation_keys (t : Thread) : list ustr := t_key t :: t_aliases t.
Definition address_key (identity : ustr) : ustr := lit "address:" ++ identity.
Definition alphanumeric_prefix : ustr := lit "alphanumeric:".
Definition identity_of (address : option ustr) : option ustr := a ← address; canonical_address a.
Definition thread_key (e : Event) : option ustr :=
  if negb (is_nil (group_key e)) then Some (group_key e)
  else
    let address := safe_event_address e in
    if negb (is_nil (sender_alphanumeric e)) then i ← identity_of address; Some (alphanumeric_prefix ++ i)
    else
      match thread_addresses address with
      | first :: _ => if is_nil first then None else Some (address_key first)
      | [] => i ← identity_of address; Some (address_key i)
      end.

Definition is_group_event (e : Event) : bool := negb (is_nil (group_key e)).
(** [f"address:{canonical_address(address)}"], which writes "None" for None. *)
Definition numeric_alias (address : option ustr) : ustr := address_key (default (lit "None") (identity_of address)).
Definition new_thread (key : ustr) (e : Event) : Thread :=
  let is_group := is_group_event e in
  let address := safe_event_address e in
  let observed := strip (group_observed_recipient e) in
  {| t_key := key;
     t_aliases :=
       if is_group then group_aliases e
       else if negb (is_nil (sender_alphanumeric e)) then (if negb (is_nil (thread_addresses address)) then [] else [numeric_alias address])
       else address_key <$> thread_addresses address;
     t_name := _thread_name e address;
     t_is_group := is_group;
     t_members := if is_group then group_members e else [];
     t_recipients := if is_group then group_recipients e else of_option address;
     t_observed_recipients := if is_group && negb (is_nil observed) then [observed] else [];
     t_reply_ready := if is_group then group_reply_ready e else is_some address;
     t_group_origin := or_text (group_origin e) (if starts "group:named:" key then lit "named" else []);
     t_participants_required := group_participants_required e;
     t_prompt_sender := group_observed_sender e;
     t_roster_changed := group_roster_changed e;
     t_unexpected_sender := group_unexpected_sender e;
     t_roster_warning_id := group_roster_warning_id e;
     t_missing_members := if is_group then group_missing_members e else None;
     t_group_ambiguous := false;
     t_messages := [];
     t_last_ts := [];
     t_sender_reply_token := None;
     t_messages_truncated := false;
     t_unread := false;
     t_starred := false |}.
(** [for x in new: if x not in old: old.append(x)]. *)
Definition append_new (old new : list ustr) : list ustr := foldl (λ l x, if bool_decide (x ∈ l) then l else l ++ [x]) old new.
(** A further event of a group: its people, *)
Definition join_people (t : Thread) (e : Event) : Thread :=
  let observed := strip (group_observed_recipient e) in
  let grown := append_new (t_recipients t) (group_recipients e) in
  t <| t_members := append_new (t_members t) (group_members e) |>
    <| t_name := if bool_decide (grown = t_recipients t) then t_name t else _thread_name e (safe_event_address e) |>
    <| t_recipients := grown |>
    <| t_observed_recipients := if is_nil observed then t_observed_recipients t else append_new (t_observed_recipients t) [observed] |>.
(** whether it may be answered, *)
Definition join_flags (t : Thread) (e : Event) : Thread :=
  t <| t_reply_ready := t_reply_ready t || group_reply_ready e |>
    <| t_participants_required := t_participants_required t || group_participants_required e |>.
(** the members that no message resolved, *)
Definition still_missing (o : option (list ustr)) (missing : list ustr) : list ustr :=
  match o with
  | None => missing
  | Some l => List.filter (λ m, bool_decide (str_casefold m ∈ str_casefold <$> missing)) l
  end.
Definition join_missing (t : Thread) (e : Event) : Thread :=
  match group_missing_members e with
  | None => t
  | Some missing => t <| t_missing_members := Some (still_missing (t_missing_members t) missing) |>
  end.
(** and the warning about its roster. *)
Definition join_warning (t : Thread) (e : Event) : Thread :=
  let t := if is_nil (group_origin e) then t else t <| t_group_origin := group_origin e |> in
  if group_roster_changed e then
    t <| t_roster_changed := true |> <| t_unexpected_sender := group_unexpected_sender e |> <| t_roster_warning_id := group_roster_warning_id e |>
  else t.
Definition join_group_thread (t : Thread) (e : Event) : Thread := join_warning (join_missing (join_flags (join_people t e) e) e) e.
Definition name_alphanumeric (t : Thread) (e : Event) : Thread :=
  let name := sender_alphanumeric e in
  if is_group_event e || is_nil name then t
  else
    let t := t <| t_reply_ready := false |> in
    if negb (islower name) || negb (bool_decide (str_casefold name = str_casefold (t_name t))) then t <| t_name := name |> else t.
Definition keep_alias (t : Thread) (e : Event) : Thread :=
  if is_group_event e || negb (is_nil (sender_alphanumeric e)) || is_nil (t_aliases t) then t
  else match identity_of (safe_event_address e) with
    | Some i => t <| t_aliases ::= λ l, sorted_set (address_key i :: l) |>
    | None => t
    end.
Definition message_of (e : Event) : Message :=
  let address := safe_event_address e in
  {| m_handle := handle e;
     m_address := default [] address;
     m_body := body e;
     m_timestamp := _event_time e;
     m_outgoing := is_kind "sms_sent" e;
     m_sender := if is_group_event e then (if is_kind "sms_sent" e then [] else _message_sender e address) else [];
     m_read := default true (is_read e);
     m_body_truncated := body_truncated e;
     m_maybe_group := negb (is_group_event e) && group_ambiguous e |}.
Definition append_message (t : Thread) (e : Event) : Thread :=
  let m := message_of e in
  let t := t <| t_messages ::= λ l, l ++ [m] |> in
  if not_before (timestamp_order (m_timestamp m)) (timestamp_order (t_last_ts t)) then
    let t := t <| t_last_ts := m_timestamp m |> in
    if is_nil (group_observed_sender e) then t else t <| t_prompt_sender := group_observed_sender e |>
  else t.
(** [by_key], a dict in the order of insertion. *)
Definition by_key_get (key : ustr) (l : list Thread) : option Thread := List.find (λ t, bool_decide (t_key t = key)) l.
Definition by_key_set (t : Thread) (l : list Thread) : list Thread :=
  if is_some (by_key_get (t_key t) l) then (λ u, if bool_decide (t_key u = t_key t) then t else u) <$> l else l ++ [t].
Definition add_event (l : list Thread) (e : Event) : list Thread :=
  if negb (bool_decide (kind e ∈ MESSAGE_KINDS)) then l
  else
    match thread_key e with
    | None => l
    | Some key =>
        let t := match by_key_get key l with
          | None => new_thread key e
          | Some t => if is_group_event e then join_group_thread t e else t
          end in
        by_key_set (append_message (keep_alias (name_alphanumeric t e) e) e) l
    end.

(** *** The finished threads *)

(** [sort(key=...)], which is stable. *)
Fixpoint insert_message (m : Message) (l : list Message) : list Message :=
  match l with
  | [] => [m]
  | m' :: l' => if not_before (timestamp_order (m_timestamp m')) (timestamp_order (m_timestamp m)) then m :: l else m' :: insert_message m l'
  end.
Definition sort_messages (l : list Message) : list Message := foldr insert_message [] l.
(** The message that a reply answers. *)
Definition latest_incoming (l : list Message) : option Message :=
  match List.find (λ m, negb (m_outgoing m)) (reverse l) with Some m => Some m | None => last l end.
Definition is_alphanumeric (t : Thread) : bool := startswith alphanumeric_prefix (t_key t).
Definition prune_aliases (numeric_keys keys : list ustr) (t : Thread) : Thread :=
  if is_alphanumeric t then t <| t_aliases := List.filter (λ a, negb (bool_decide (a ∈ numeric_keys))) (t_aliases t) |>
  else t <| t_aliases := List.filter (λ a, bool_decide (a = t_key t) || negb (bool_decide (a ∈ keys))) (t_aliases t) |>.
(** A reply to a message that a group may have had needs the user's word. *)
Definition hold_ambiguous (m : Message) (t : Thread) : Thread :=
  if m_maybe_group m then
    t <| t_group_ambiguous := true |>
      <| t_sender_reply_token :=
           if t_reply_ready t && negb (is_nil (m_address m)) then Some (sender_reply_token (m_address m) (List.filter m_maybe_group (t_messages t)))
           else t_sender_reply_token t |>
      <| t_reply_ready := false |>
  else t.
Definition finish_direct (numeric_keys keys : list ustr) (t : Thread) : Thread :=
  let t := prune_aliases numeric_keys keys t in
  match latest_incoming (t_messages t) with
  | None => t
  | Some m => hold_ambiguous m (t <| t_recipients := [m_address m] |>)
  end.
Definition forbid_incomplete (t : Thread) : Thread := if t_participants_required t then t <| t_reply_ready := false |> else t.
Definition truncate_messages (t : Thread) : Thread :=
  let l := t_messages t in
  if (MAX_THREAD_MESSAGES <? length l)%nat then t <| t_messages_truncated := true |> <| t_messages := drop (length l - MAX_THREAD_MESSAGES) l |>
  else t <| t_messages_truncated := false |>.
Definition finish_thread (numeric_keys keys : list ustr) (t : Thread) : Thread :=
  let t := t <| t_messages := sort_messages (t_messages t) |> in
  let t := forbid_incomplete (if t_is_group t then t else finish_direct numeric_keys keys t) in
  let t := truncate_messages (t <| t_missing_members := Some (default [] (t_missing_members t)) |>) in
  t <| t_unread := existsb (λ m, negb (m_outgoing m) && negb (m_read m)) (t_messages t) |>.

(** [sorted(..., key=(starred, last), reverse=True)], which is stable. *)
Definition thread_before (a b : Thread) : bool :=
  if bool_decide (t_starred a = t_starred b) then not_before (timestamp_order (t_last_ts a)) (timestamp_order (t_last_ts b)) else t_starred a.
Fixpoint insert_thread (t : Thread) (l : list Thread) : list Thread :=
  match l with [] => [t] | u :: l' => if thread_before t u then t :: l else u :: insert_thread t l' end.
Definition sort_threads (starred_keys : list ustr) (l : list Thread) : list Thread :=
  foldr insert_thread [] ((λ t, t <| t_starred := existsb (λ k, bool_decide (k ∈ starred_keys)) (conversation_keys t) |>) <$> l).
Definition project (correlated : list Event) : list Thread :=
  let by_key := foldl add_event [] correlated in
  let numeric_keys := concat (conversation_keys <$> List.filter (λ t, negb (is_alphanumeric t)) by_key) in
  sort_threads [] (finish_thread numeric_keys (t_key <$> by_key) <$> by_key).
Definition build_threads (events : list Event) : result (list Thread) := correlated ← correlate_group_events events; mret (project correlated).
End threads.
