(* ===== verification/ThreadSafety.v ===== *)
(** * ThreadSafety: where a reply goes.

    [build_threads] keeps, for each key, what folding the events of that key
    alone gives; the facts about a thread follow from its own events. *)
From S2P Require Import Prelude PyStr Wire Text Recipients Json Events NamedGroups Grouping GroupMatching GroupSafety Threads.

Section safety.
Context `{CaseMapping, Digests, Resolver, Directory}.

(** ** A thread from its own events *)

Definition has_key (k : ustr) (e : Event) : bool := bool_decide (kind e ∈ MESSAGE_KINDS) && bool_decide (thread_key e = Some k).
Definition thread_events (l : list Event) (k : ustr) : list Event := List.filter (has_key k) l.
Definition extend (t : Thread) (e : Event) : Thread :=
  append_message (keep_alias (name_alphanumeric t e) e) e.
Definition next_event (t : Thread) (e : Event) : Thread := extend (if is_group_event e then join_group_thread t e else t) e.
Definition thread_of (k : ustr) (es : list Event) : option Thread :=
  match es with [] => None | e :: es' => Some (foldl next_event (extend (new_thread k e) e) es') end.
Lemma thread_of_snoc k es e : thread_of k (es ++ [e]) = Some (match thread_of k es with None => extend (new_thread k e) e | Some t => next_event t e end).
Proof. destruct es as [|e0 es]; [done|]. cbn. by rewrite foldl_app. Qed.

(** What the steps of [extend] leave alone. *)
Abbreviation same_fields t t' := (t_key t' = t_key t ∧ t_messages t' = t_messages t ∧ t_recipients t' = t_recipients t ∧ t_is_group t' = t_is_group t ∧
  t_participants_required t' = t_participants_required t ∧ t_reply_ready t' = t_reply_ready t).
Lemma alias_fields t e : same_fields t (keep_alias t e).
Proof. unfold keep_alias. destruct (_ || _ || _); [done|]. by destruct (identity_of _). Qed.
Lemma alphanumeric_fields t e : let t' := name_alphanumeric t e in
  t_key t' = t_key t ∧ t_messages t' = t_messages t ∧ t_recipients t' = t_recipients t ∧ t_is_group t' = t_is_group t ∧
  t_participants_required t' = t_participants_required t ∧ t_reply_ready t' = (t_reply_ready t && (is_group_event e || is_nil (sender_alphanumeric e))).
Proof.
  unfold name_alphanumeric. destruct (is_group_event e || is_nil (sender_alphanumeric e)); [by rewrite andb_true_r|]. rewrite andb_false_r. by destruct (_ || _).
Qed.
Lemma message_fields t e : let t' := append_message t e in
  t_key t' = t_key t ∧ t_messages t' = t_messages t ++ [message_of e] ∧ t_recipients t' = t_recipients t ∧ t_is_group t' = t_is_group t ∧
  t_participants_required t' = t_participants_required t ∧ t_reply_ready t' = t_reply_ready t.
Proof. unfold append_message. destruct (not_before _ _); [|done]. by destruct (is_nil _). Qed.
Lemma extend_fields t e : let t' := extend t e in
  t_key t' = t_key t ∧ t_messages t' = t_messages t ++ [message_of e] ∧ t_recipients t' = t_recipients t ∧ t_is_group t' = t_is_group t ∧
  t_participants_required t' = t_participants_required t ∧
  t_reply_ready t' = (t_reply_ready t && (is_group_event e || is_nil (sender_alphanumeric e))).
Proof.
  cbn zeta. unfold extend. destruct (message_fields (keep_alias (name_alphanumeric t e) e) e) as (-> & -> & -> & -> & -> & ->).
  destruct (alias_fields (name_alphanumeric t e) e) as (-> & -> & -> & -> & -> & ->). destruct (alphanumeric_fields t e) as (-> & -> & -> & -> & -> & ->). done.
Qed.
Lemma extend_key t e : t_key (extend t e) = t_key t.
Proof. apply (extend_fields t e). Qed.
Lemma join_key t e : t_key (join_group_thread t e) = t_key t.
Proof. unfold join_group_thread, join_warning, join_missing. by destruct (is_nil (group_origin e)), (group_roster_changed e), (group_missing_members e). Qed.
Lemma next_key t e : t_key (next_event t e) = t_key t.
Proof. unfold next_event. rewrite extend_key. destruct (is_group_event e); [apply join_key|done]. Qed.
Lemma thread_of_key k es t : thread_of k es = Some t → t_key t = k.
Proof.
  revert t. induction es as [|e es IH] using rev_ind; [done|]. intros t. rewrite thread_of_snoc. destruct (thread_of k es) as [u|]; intros [= <-].
  - rewrite next_key. by apply IH.
  - by rewrite extend_key.
Qed.

Lemma find_app {A} (p : A → bool) l k : List.find p (l ++ k) = match List.find p l with Some x => Some x | None => List.find p k end.
Proof. induction l as [|x l IH]; [done|]. cbn. by destruct (p x). Qed.
Lemma by_key_get_set t l k : by_key_get k (by_key_set t l) = if bool_decide (t_key t = k) then Some t else by_key_get k l.
Proof.
  unfold by_key_set. destruct (by_key_get (t_key t) l) as [u|] eqn:E; cbn [is_some].
  - assert (∀ l, by_key_get k ((λ u, if bool_decide (t_key u = t_key t) then t else u) <$> l) =
      if bool_decide (t_key t = k) then (match by_key_get (t_key t) l with Some _ => Some t | None => None end) else by_key_get k l) as ->; [|by rewrite E].
    clear. induction l as [|u l IH]; cbn; [by case_bool_decide|]. unfold by_key_get in *. repeat case_bool_decide; cbn; repeat case_bool_decide; try congruence; done.
  - unfold by_key_get. rewrite find_app. cbn. case_bool_decide as Hk; [|by destruct (List.find _ l)]. subst k. unfold by_key_get in E. by rewrite E.
Qed.
Lemma by_key_set_keys t l : NoDup (t_key <$> l) → NoDup (t_key <$> by_key_set t l).
Proof.
  intros Hd. unfold by_key_set. destruct (by_key_get (t_key t) l) as [u|] eqn:E; cbn [is_some].
  - assert (t_key <$> ((λ u, if bool_decide (t_key u = t_key t) then t else u) <$> l) = t_key <$> l) as ->; [|done].
    rewrite <- list_fmap_compose. apply list_fmap_ext. intros i v _. cbn. by case_bool_decide.
  - rewrite fmap_app. apply NoDup_app. split_and!; [done| |apply NoDup_singleton]. intros k (v & -> & Hv)%list_elem_of_fmap Hk%list_elem_of_singleton.
    unfold by_key_get in E. apply list_elem_of_In in Hv. apply (List.find_none _ _ E) in Hv. by rewrite Hk, bool_decide_eq_true_2 in Hv.
Qed.
(** Folding all events keeps, for each key, the fold of its own. *)
Lemma by_key_spec l : NoDup (t_key <$> foldl add_event [] l) ∧ ∀ k, by_key_get k (foldl add_event [] l) = thread_of k (thread_events l k).
Proof.
  induction l as [|e l [IHd IH]] using rev_ind; [split; [constructor|done]|]. rewrite foldl_app. cbn [foldl]. set (acc := foldl add_event [] l) in *.
  unfold add_event, thread_events. assert (∀ k, List.filter (has_key k) (l ++ [e]) = List.filter (has_key k) l ++ (if has_key k e then [e] else [])) as Hfilter.
  { intros k. rewrite List.filter_app. done. }
  destruct (bool_decide (kind e ∈ MESSAGE_KINDS)) eqn:Ek; cbn [negb].
  2: { split; [done|]. intros k. rewrite Hfilter. unfold has_key. rewrite Ek. cbn. by rewrite app_nil_r. }
  destruct (thread_key e) as [key|] eqn:Et.
  2: { split; [done|]. intros k. rewrite Hfilter. unfold has_key. rewrite Ek, Et. cbn. by rewrite app_nil_r. }
  set (t := match by_key_get key acc with Some t => _ | None => _ end). fold (extend t e). split; [by apply by_key_set_keys|].
  assert (t_key (extend t e) = key) as Hkey.
  { rewrite extend_key. subst t. rewrite IH. destruct (thread_of key _) as [u|] eqn:Eu; [|done]. apply thread_of_key in Eu. destruct (is_group_event e); [by rewrite join_key|done]. }
  intros k. rewrite by_key_get_set, Hkey, Hfilter. unfold has_key at 2. rewrite Ek, Et. cbn [andb]. destruct (decide (key = k)) as [<-|Hk].
  - rewrite !bool_decide_eq_true_2 by done. rewrite thread_of_snoc. f_equal. subst t. rewrite IH. unfold thread_events. by destruct (thread_of key _).
  - rewrite !bool_decide_eq_false_2 by congruence. by rewrite app_nil_r, IH.
Qed.
Lemma by_key_elem l t : t ∈ foldl add_event [] l → thread_of (t_key t) (thread_events l (t_key t)) = Some t.
Proof.
  destruct (by_key_spec l) as [Hd Hs]. rewrite <- Hs. generalize (foldl add_event [] l) as acc, Hd. clear. induction acc as [|u acc IH]; [by intros _ ?%elem_of_nil|]. cbn [fmap list_fmap].
  intros [Hu Hd]%NoDup_cons. intros [->|Ht]%elem_of_cons; unfold by_key_get; cbn; [by rewrite bool_decide_eq_true_2|].
  rewrite bool_decide_eq_false_2; [by apply IH|]. intros E. apply Hu. rewrite E. by apply list_elem_of_fmap_2.
Qed.

(** ** The fields of a thread *)

Lemma elem_of_append_new old new a : a ∈ append_new old new ↔ a ∈ old ∨ a ∈ new.
Proof.
  unfold append_new. revert old. induction new as [|x new IH]; intros old; cbn; [split; [by left|by intros [?|?%elem_of_nil]]|].
  rewrite IH. case_bool_decide; [|rewrite elem_of_app, list_elem_of_singleton]; rewrite elem_of_cons; intuition (subst; auto).
Qed.
Lemma warning_fields t e : same_fields t (join_warning t e).
Proof. unfold join_warning. by destruct (is_nil (group_origin e)), (group_roster_changed e). Qed.
Lemma missing_fields t e : same_fields t (join_missing t e).
Proof. unfold join_missing. by destruct (group_missing_members e). Qed.
Lemma join_fields t e : let t' := join_group_thread t e in
  t_messages t' = t_messages t ∧ (∀ a, a ∈ t_recipients t' ↔ a ∈ t_recipients t ∨ a ∈ group_recipients e) ∧ t_is_group t' = t_is_group t ∧
  t_participants_required t' = (t_participants_required t || group_participants_required e) ∧ t_reply_ready t' = (t_reply_ready t || group_reply_ready e).
Proof.
  assert (∀ a, a ∈ append_new (t_recipients t) (group_recipients e) ↔ a ∈ t_recipients t ∨ a ∈ group_recipients e) as Hr by (intros a; apply elem_of_append_new).
  destruct (warning_fields (join_missing (join_flags (join_people t e) e) e) e) as (_ & H1' & H2' & H3' & H4' & H5').
  destruct (missing_fields (join_flags (join_people t e) e) e) as (_ & M1 & M2 & M3 & M4 & M5).
  unfold join_group_thread. cbn zeta. rewrite H1', H2', H3', H4', H5', M1, M2, M3, M4, M5. done.
Qed.

Lemma thread_messages k es t : thread_of k es = Some t → t_messages t = message_of <$> es.
Proof.
  revert t. induction es as [|e es IH] using rev_ind; [done|]. intros t. rewrite thread_of_snoc, fmap_app. destruct (thread_of k es) as [u|] eqn:Eu; intros [= <-].
  - unfold next_event. rewrite (proj1 (proj2 (extend_fields _ _))), <- (IH u eq_refl). destruct (is_group_event e); [|done]. by rewrite (proj1 (join_fields u e)).
  - destruct es; [|done]. by rewrite (proj1 (proj2 (extend_fields _ _))).
Qed.
Lemma thread_kind k e es t : thread_of k (e :: es) = Some t → t_is_group t = is_group_event e.
Proof.
  revert t. induction es as [|e' es IH] using rev_ind; intros t.
  - cbn. intros [= <-]. by destruct (extend_fields (new_thread k e) e) as (_ & _ & _ & -> & _).
  - rewrite app_comm_cons, thread_of_snoc. destruct (thread_of k (e :: es)) as [u|] eqn:Eu; [|done]. intros [= <-]. rewrite <- (IH u eq_refl). unfold next_event.
    destruct (extend_fields (if is_group_event e' then join_group_thread u e' else u) e') as (_ & _ & _ & -> & _). destruct (is_group_event e'); [|done]. apply (join_fields u e').
Qed.
(** A group's thread collects what its messages say. *)
Lemma group_thread k es t : Forall (λ e, is_group_event e = true) es → thread_of k es = Some t →
  t_reply_ready t = existsb group_reply_ready es ∧ t_participants_required t = existsb group_participants_required es ∧
  ∀ a, a ∈ t_recipients t ↔ ∃ e, e ∈ es ∧ a ∈ group_recipients e.
Proof.
  revert t. induction es as [|e es IH] using rev_ind; [done|]. intros t [Hes He]%Forall_app. rewrite Forall_singleton in He. rewrite thread_of_snoc, !existsb_app. cbn [existsb].
  destruct (thread_of k es) as [u|] eqn:Eu; intros [= <-].
  - destruct (IH u Hes eq_refl) as (Hr & Hp & Ha). unfold next_event. rewrite He. destruct (extend_fields (join_group_thread u e) e) as (_ & _ & -> & _ & -> & ->).
    destruct (join_fields u e) as (_ & Hrec & _ & -> & ->). rewrite He, andb_true_r, Hr, Hp, !orb_false_r. split_and!; [done..|]. intros a. rewrite Hrec, Ha. split; [intros [(e1 & H1e & H2e)|Hae]; [exists e1|exists e]; rewrite elem_of_app, list_elem_of_singleton; tauto|]. intros (e1 & H1e & H2e). apply elem_of_app in H1e as [H1e|H1e]; [left; by exists e1|right]. apply list_elem_of_singleton in H1e. by subst e1.
  - destruct es; [|done]. destruct (extend_fields (new_thread k e) e) as (_ & _ & -> & _ & -> & ->). rewrite He. cbn. rewrite He, !orb_false_r, andb_true_r. split_and!; [done..|]. intros a. split; [intros Hae; exists e; split; [left|done]|]. intros (e1 & H1e & H2e). apply list_elem_of_singleton in H1e. by subst e1.
Qed.
(** A direct thread is ready when no message has a name for an address. *)
Lemma direct_thread k es t : Forall (λ e, is_group_event e = false) es → thread_of k es = Some t → t_reply_ready t = true →
  Forall (λ e, sender_alphanumeric e = []) es.
Proof.
  revert t. induction es as [|e es IH] using rev_ind; [done|]. intros t [Hes He]%Forall_app. rewrite Forall_singleton in He. rewrite thread_of_snoc. intros Ht Hr.
  assert (is_nil (sender_alphanumeric e) = true ∧ Forall (λ e, sender_alphanumeric e = []) es) as [Hn Hes'].
  { destruct (thread_of k es) as [u|] eqn:Eu; injection Ht as <-.
    - unfold next_event in Hr. rewrite He in Hr. destruct (extend_fields u e) as (_ & _ & _ & _ & _ & E). rewrite E, He in Hr. apply andb_true_iff in Hr as [Hr Hn]. split; [done|]. by eapply IH.
    - destruct (extend_fields (new_thread k e) e) as (_ & _ & _ & _ & _ & E). rewrite E, He in Hr. apply andb_true_iff in Hr as [_ Hn]. split; [done|]. by destruct es. }
  apply Forall_app. split; [done|]. apply Forall_singleton. by destruct (sender_alphanumeric e).
Qed.

(** ** The finished threads *)

Lemma not_before_total a b : not_before a b = false → not_before b a = true.
Proof. destruct a, b; cbn; rewrite ?Z.leb_gt, ?Z.leb_le; try done. lia. Qed.
Lemma not_before_trans a b c : not_before a b = true → not_before b c = true → not_before a c = true.
Proof. destruct a, b, c; cbn; rewrite ?Z.leb_le; try done. lia. Qed.
Lemma not_before_refl a : not_before a a = true.
Proof. destruct a; cbn; [apply Z.leb_refl|done]. Qed.
(** [b] is not before [a]. *)
Definition ordered (a b : Message) : Prop := not_before (timestamp_order (m_timestamp b)) (timestamp_order (m_timestamp a)) = true.
Lemma insert_message_perm m l : insert_message m l ≡ₚ m :: l.
Proof. induction l as [|x l IH]; [done|]. cbn. destruct (not_before _ _); [done|]. rewrite IH. apply Permutation_swap. Qed.
Lemma sort_messages_perm l : sort_messages l ≡ₚ l.
Proof. induction l as [|m l IH]; [done|]. change (insert_message m (sort_messages l) ≡ₚ m :: l). by rewrite insert_message_perm, IH. Qed.
Inductive in_order : list Message → Prop :=
  | in_order_nil : in_order []
  | in_order_cons m l : Forall (ordered m) l → in_order l → in_order (m :: l).
Lemma insert_message_order m l : in_order l → in_order (insert_message m l).
Proof.
  induction 1 as [|x l Hx Hl IH]; cbn; [by repeat constructor|]. destruct (not_before _ _) eqn:E.
  - constructor; [|by constructor]. constructor; [done|]. eapply Forall_impl; [exact Hx|]. intros y Hy. unfold ordered in *. by eapply not_before_trans.
  - constructor; [|done]. rewrite insert_message_perm. constructor; [|done]. by apply not_before_total.
Qed.
Lemma sort_messages_order l : in_order (sort_messages l).
Proof. induction l as [|m l IH]; [constructor|]. by apply insert_message_order. Qed.
Lemma in_order_app l m k : in_order (l ++ m :: k) → Forall (λ x, ordered x m) l.
Proof.
  induction l as [|x l IH]; cbn; intros Ho; [constructor|]. inversion Ho as [|? ? Hx Hl]; subst. constructor; [|by apply IH].
  apply Forall_app in Hx as [_ Hx]. by inversion Hx.
Qed.
(** The latest incoming message of a conversation, or its latest. *)
Definition answers (l : list Message) (m : Message) : Prop :=
  m ∈ l ∧ if m_outgoing m then Forall (λ m', m_outgoing m' = true ∧ ordered m' m) l else Forall (λ m', m_outgoing m' = false → ordered m' m) l.
Lemma find_reverse {A} (p : A → bool) l : match List.find p (reverse l) with
  | Some x => ∃ a b, l = a ++ x :: b ∧ p x = true ∧ Forall (λ y, p y = false) b
  | None => Forall (λ y, p y = false) l end.
Proof.
  induction l as [|x l IH] using rev_ind; [constructor|]. rewrite reverse_snoc. cbn. destruct (p x) eqn:E; [exists l, []; auto|].
  destruct (List.find p (reverse l)) as [y|].
  - destruct IH as (a & b & -> & Hy & Hb). exists a, (b ++ [x]). rewrite <- app_assoc. split_and!; [done..|]. apply Forall_app. auto.
  - apply Forall_app. auto.
Qed.
Lemma latest_incoming_answers l : l ≠ [] → ∃ m, latest_incoming (sort_messages l) = Some m ∧ answers l m.
Proof.
  intros Hne. unfold latest_incoming. pose proof (sort_messages_order l) as Ho. pose proof (sort_messages_perm l) as Hp. revert Ho Hp. generalize (sort_messages l) as s. intros s Ho Hp.
  pose proof (find_reverse (λ m, negb (m_outgoing m)) s) as Hf. destruct (List.find _ (reverse s)) as [m|].
  - destruct Hf as (a & b & -> & Hm & Hb). exists m. split; [done|]. apply negb_true_iff in Hm. split; [rewrite <- Hp; apply elem_of_app; right; left|]. rewrite Hm, <- Hp.
    apply in_order_app in Ho. apply Forall_app. split; [eapply Forall_impl; [exact Ho|]; by intros x Hx _|]. constructor; [intros _; apply not_before_refl|].
    eapply Forall_impl; [exact Hb|]. intros x Hx Hx'. cbn in Hx. by rewrite Hx' in Hx.
  - destruct s as [|m s _] using rev_ind; [by apply Permutation_nil_l in Hp|]. rewrite last_snoc. exists m. split; [done|]. split; [rewrite <- Hp; apply elem_of_app; right; left|].
    apply Forall_app in Hf as [Hf Hm]. apply Forall_singleton, negb_false_iff in Hm. rewrite Hm, <- Hp. apply in_order_app in Ho. apply Forall_app. split.
    + apply Forall_forall. intros x Hx. rewrite Forall_forall in Hf, Ho. split; [apply negb_false_iff; by apply Hf|by apply Ho].
    + constructor; [|constructor]. split; [done|apply not_before_refl].
Qed.

Lemma insert_thread_perm t l : insert_thread t l ≡ₚ t :: l.
Proof. induction l as [|x l IH]; [done|]. cbn. destruct (thread_before _ _); [done|]. rewrite IH. apply Permutation_swap. Qed.
Lemma sort_threads_perm starred_keys l :
  sort_threads starred_keys l ≡ₚ (λ t, t <| t_starred := existsb (λ k, bool_decide (k ∈ starred_keys)) (conversation_keys t) |>) <$> l.
Proof.
  unfold sort_threads. generalize ((λ t, t <| t_starred := existsb (λ k, bool_decide (k ∈ starred_keys)) (conversation_keys t) |>) <$> l) as k.
  induction k as [|t k IH]; [done|]. cbn. by rewrite insert_thread_perm, IH.
Qed.
Lemma elem_of_project l t : t ∈ project l → ∃ u nk ks b, u ∈ foldl add_event [] l ∧ t = (finish_thread nk ks u) <| t_starred := b |>.
Proof.
  unfold project. rewrite (elem_of_Permutation_proper _ _ _ (sort_threads_perm _ _)), list_elem_of_fmap. intros (v & -> & Hin).
  apply list_elem_of_fmap in Hin as (u & -> & Hu). eexists u, _, _, _. split; [exact Hu|reflexivity].
Qed.
Lemma starred_fields t b : t_key (t <| t_starred := b |>) = t_key t ∧ t_is_group (t <| t_starred := b |>) = t_is_group t ∧ t_messages (t <| t_starred := b |>) = t_messages t ∧
  t_recipients (t <| t_starred := b |>) = t_recipients t ∧ t_reply_ready (t <| t_starred := b |>) = t_reply_ready t.
Proof. done. Qed.
Definition newest (l : list Message) : list Message := drop (length l - MAX_THREAD_MESSAGES) l.
Lemma truncate_fields t : let t' := truncate_messages t in
  t_key t' = t_key t ∧ t_is_group t' = t_is_group t ∧ t_messages t' = newest (t_messages t) ∧ t_recipients t' = t_recipients t ∧ t_reply_ready t' = t_reply_ready t.
Proof.
  unfold truncate_messages, newest. destruct (Nat.ltb_spec MAX_THREAD_MESSAGES (length (t_messages t))); [done|]. split_and!; [done..| |done|done].
  cbn. by replace (length (t_messages t) - MAX_THREAD_MESSAGES)%nat with 0%nat by lia.
Qed.
Lemma forbid_fields t : let t' := forbid_incomplete t in
  t_key t' = t_key t ∧ t_is_group t' = t_is_group t ∧ t_messages t' = t_messages t ∧ t_recipients t' = t_recipients t ∧ t_reply_ready t' = (t_reply_ready t && negb (t_participants_required t)).
Proof. unfold forbid_incomplete. destruct (t_participants_required t); [by rewrite andb_false_r|by rewrite andb_true_r]. Qed.
Lemma finish_thread_fields nk ks t : let t' := finish_thread nk ks t in let s := t <| t_messages := sort_messages (t_messages t) |> in
  let d := if t_is_group t then s else finish_direct nk ks s in
  t_key t' = t_key d ∧ t_is_group t' = t_is_group d ∧ t_messages t' = newest (t_messages d) ∧ t_recipients t' = t_recipients d ∧
  t_reply_ready t' = (t_reply_ready d && negb (t_participants_required d)).
Proof.
  intros t' s d. subst t'. unfold finish_thread. cbv zeta. change (t_is_group (t <| t_messages := sort_messages (t_messages t) |>)) with (t_is_group t). fold s. fold d.
  destruct (forbid_fields d) as (<- & <- & <- & <- & <-). set (f := forbid_incomplete d). clearbody f.
  destruct (truncate_fields (f <| t_missing_members := Some (default [] (t_missing_members f)) |>)) as (E1 & E2 & E3 & E4 & E5).
  set (u := truncate_messages _) in *. clearbody u. cbn in E1, E2, E3, E4, E5. cbn. by rewrite E1, E2, E3, E4, E5.
Qed.
Lemma direct_fields nk ks t m : latest_incoming (t_messages t) = Some m → let t' := finish_direct nk ks t in
  t_key t' = t_key t ∧ t_is_group t' = t_is_group t ∧ t_messages t' = t_messages t ∧ t_recipients t' = [m_address m] ∧
  t_participants_required t' = t_participants_required t ∧ t_reply_ready t' = (t_reply_ready t && negb (m_maybe_group m)).
Proof.
  intros Hm. unfold finish_direct. assert (t_messages (prune_aliases nk ks t) = t_messages t) as Ep by (unfold prune_aliases; by destruct (is_alphanumeric t)).
  cbv zeta. rewrite Ep, Hm. unfold hold_ambiguous. unfold prune_aliases. destruct (m_maybe_group m), (is_alphanumeric t); cbn [negb]; rewrite ?andb_true_r, ?andb_false_r; done.
Qed.

Lemma finish_key nk ks t : t_key (finish_thread nk ks t) = t_key t.
Proof.
  destruct (finish_thread_fields nk ks t) as (-> & _). destruct (t_is_group t); [done|]. unfold finish_direct, hold_ambiguous, prune_aliases.
  cbv zeta. destruct (latest_incoming _) as [m|]; [destruct (m_maybe_group m)|]; by destruct (is_alphanumeric _).
Qed.

(** ** The theorem *)

Lemma starts_app p s : starts p (lit p ++ s) = true.
Proof. apply startswith_app. Qed.
Lemma key_of_group k e : (group_key e = [] ∨ starts "group:" (group_key e) = true) → thread_key e = Some k → is_group_event e = starts "group:" k.
Proof.
  unfold thread_key, is_group_event. intros Hg. destruct (group_key e) as [|c g] eqn:Eg; cbn [is_nil negb].
  - intros Hk. assert ((∃ i, k = alphanumeric_prefix ++ i) ∨ ∃ i, k = address_key i) as [[i ->]|[i ->]]; [|by vm_compute|by vm_compute].
    destruct (negb (is_nil (sender_alphanumeric e))).
    + destruct (identity_of _) as [i|]; [|done]. left. injection Hk as <-. by exists i.
    + right. destruct (thread_addresses _) as [|f fs].
      * destruct (identity_of _) as [i|]; [|done]. injection Hk as <-. by exists i.
      * destruct (is_nil f); [done|]. injection Hk as <-. by exists f.
  - intros [= <-]. by destruct Hg.
Qed.
Lemma direct_address k e : is_group_event e = false → thread_key e = Some k → ∃ a, safe_event_address e = Some a ∧ canonical_address a ≠ None.
Proof.
  unfold thread_key. intros Hg. unfold is_group_event in Hg. rewrite Hg. destruct (safe_event_address e) as [a|] eqn:Ea.
  - intros _. exists a. split; [done|]. by eapply safe_address_canonical.
  - rewrite no_thread_addresses. unfold identity_of. destruct (is_nil (sender_alphanumeric e)); cbn; intros Hk; discriminate Hk.
Qed.
Lemma thread_event_key l k e : e ∈ thread_events l k → e ∈ l ∧ thread_key e = Some k.
Proof.
  unfold thread_events, has_key. rewrite list_elem_of_In, filter_In, <- list_elem_of_In. intros [Hin Hk]. apply andb_true_iff in Hk as [_ Hk]. split; [done|].
  by apply bool_decide_eq_true in Hk.
Qed.

Section one.
Context (l : list Event) (Hkeys : Forall (λ e, group_key e = [] ∨ starts "group:" (group_key e) = true) l).

Lemma event_kind k e : e ∈ thread_events l k → is_group_event e = starts "group:" k.
Proof. intros [Hin Hk]%thread_event_key. rewrite Forall_forall in Hkeys. apply key_of_group; [by apply Hkeys|done]. Qed.
(** What a reply to a thread reaches. *)
Definition reaches (t : Thread) : Prop :=
  let es := thread_events l (t_key t) in
  if t_is_group t then
    (∃ e, e ∈ es ∧ group_reply_ready e = true) ∧ Forall (λ e, is_group_event e = true ∧ group_participants_required e = false) es ∧
    ∀ a, a ∈ t_recipients t ↔ ∃ e, e ∈ es ∧ a ∈ group_recipients e
  else
    Forall (λ e, is_group_event e = false ∧ sender_alphanumeric e = []) es ∧
    ∃ m, answers (message_of <$> es) m ∧ m_maybe_group m = false ∧ canonical_address (m_address m) ≠ None ∧ t_recipients t = [m_address m].

Lemma project_thread t : t ∈ project l →
  t_messages t = newest (sort_messages (message_of <$> thread_events l (t_key t))) ∧ (t_reply_ready t = true → reaches t).
Proof.
  intros (u & nk & ks & b & Hu & ->)%elem_of_project. destruct (starred_fields (finish_thread nk ks u) b) as (E1 & E2 & E3 & E4 & E5).
  unfold reaches. rewrite E1, E2, E3, E4, E5, finish_key. clear E1 E2 E3 E4 E5. pose proof (by_key_elem l u Hu) as Hof. pose proof (finish_thread_fields nk ks u) as Hf. cbv zeta in Hf.
  assert (∀ e, e ∈ thread_events l (t_key u) → is_group_event e = starts "group:" (t_key u) ∧ thread_key e = Some (t_key u)) as Hkind.
  { intros e He. split; [by apply event_kind|]. by apply thread_event_key in He as [_ He]. }
  revert Hof Hkind. generalize (thread_events l (t_key u)) as es. intros es Hof Hkind. pose proof (thread_messages _ _ _ Hof) as Hmsgs.
  set (s := u <| t_messages := sort_messages (t_messages u) |>) in *.
  assert (∃ e0 es0, es = e0 :: es0) as (e0 & es0 & Ees) by (destruct es; [done|eauto]). assert (t_is_group u = starts "group:" (t_key u)) as Hgu.
  { rewrite <- (proj1 (Hkind e0 ltac:(rewrite Ees; left))). apply (thread_kind (t_key u) e0 es0). by rewrite <- Ees. }
  rewrite Hgu in Hf. destruct (starts "group:" (t_key u)) eqn:Eg; cbv iota in Hf.
  - destruct Hf as (_ & -> & -> & -> & ->). change (t_is_group s) with (t_is_group u). change (t_messages s) with (sort_messages (t_messages u)).
    change (t_recipients s) with (t_recipients u). change (t_reply_ready s) with (t_reply_ready u). change (t_participants_required s) with (t_participants_required u).
    rewrite Hmsgs, Hgu. split; [done|].
    destruct (group_thread (t_key u) es u) as (Hr & Hp & Ha); [apply Forall_forall; intros e He; by apply Hkind|done|]. rewrite Hr, Hp. intros [Hready Hreq]%andb_true_iff.
    apply negb_true_iff in Hreq. split_and!; [| |exact Ha].
    + apply existsb_exists in Hready as (e & He & Hre). exists e. split; [by apply list_elem_of_In|done].
    + apply Forall_forall. intros e He. split; [by apply Hkind|]. apply not_true_iff_false. intros Hx. apply not_true_iff_false in Hreq. apply Hreq, existsb_exists.
      exists e. split; [by apply list_elem_of_In|done].
  - destruct (latest_incoming_answers (t_messages u)) as (m & Hm & Hans); [by rewrite Hmsgs, Ees|].
    destruct (direct_fields nk ks s m Hm) as (D1 & D2 & D3 & D4 & _ & D6). rewrite D1, D2, D3, D4, D6 in Hf. clear D1 D2 D3 D4 D6.
    destruct Hf as (_ & -> & -> & -> & ->). change (t_is_group s) with (t_is_group u). change (t_messages s) with (sort_messages (t_messages u)).
    change (t_reply_ready s) with (t_reply_ready u). rewrite Hmsgs in *. rewrite Hgu. split; [done|]. intros [[Hready Hamb]%andb_true_iff _]%andb_true_iff.
    assert (Forall (λ e, is_group_event e = false) es) as Hng by (apply Forall_forall; intros e He; by apply Hkind).
    split; [apply Forall_and; split; [done|by eapply direct_thread]|]. exists m. split_and!; [done|by apply negb_true_iff| |done].
    destruct Hans as [Hin _]. apply list_elem_of_fmap in Hin as (e & -> & He). destruct (Hkind e He) as [Hg Hke].
    destruct (direct_address _ e Hg Hke) as (a & Ha & Hc). cbn. by rewrite Ha.
Qed.
End one.

Lemma project_keys l : t_key <$> project l ≡ₚ t_key <$> foldl add_event [] l.
Proof.
  unfold project. set (nk := concat _). generalize (t_key <$> foldl add_event [] l) at 1 as ks. intros ks.
  rewrite (fmap_Permutation t_key _ _ (sort_threads_perm _ _)), <- !list_fmap_compose.
  match goal with |- ?a ≡ₚ ?b => assert (a = b) as -> by (apply list_fmap_ext; intros i t _; apply finish_key) end. done.
Qed.
Lemma project_complete l k : k ∈ t_key <$> project l ↔ thread_events l k ≠ [].
Proof.
  rewrite (elem_of_Permutation_proper _ _ _ (project_keys l)). destruct (by_key_spec l) as [_ Hs]. specialize (Hs k). split.
  - intros (t & -> & Ht)%list_elem_of_fmap Hn. apply by_key_elem in Ht. by rewrite Hn in Ht.
  - intros Hn. destruct (thread_events l k) as [|e es] eqn:E; [done|]. unfold by_key_get in Hs. apply List.find_some in Hs as [Hin Hk].
    apply bool_decide_eq_true in Hk. apply list_elem_of_fmap. eexists. split; [by symmetry|by apply list_elem_of_In].
Qed.

(** C38: A reply goes where the conversation shows.  The group keys of the
    correlated history are empty or start with "group:", as every key that the
    code makes does.  Then each key of that history has one thread, with exactly the messages of its events, sorted,
    the newest five hundred.  A thread that may be answered has either only
    group messages, one of them with a safe roster and none that wants
    participants, and its recipients are those of its messages; or only direct
    messages from addresses, and its one recipient is the address, one with an
    identity, of its latest incoming message (of its latest, when none is
    incoming), which cannot have been sent to a group. *)
Theorem reply_targets events l : correlate_group_events events = Ok l → Forall (λ e, group_key e = [] ∨ starts "group:" (group_key e) = true) l →
  ∃ ts, build_threads events = Ok ts ∧ NoDup (t_key <$> ts) ∧ (∀ k, k ∈ t_key <$> ts ↔ thread_events l k ≠ []) ∧
    ∀ t, t ∈ ts → t_messages t = newest (sort_messages (message_of <$> thread_events l (t_key t))) ∧ (t_reply_ready t = true → reaches l t).
Proof.
  intros Hl Hkeys. exists (project l). split; [unfold build_threads; by rewrite Hl|]. split; [rewrite project_keys; apply by_key_spec|]. split; [apply project_complete|].
  intros t. by apply project_thread.
Qed.
End safety.

(** ** A concrete conversation *)

#[local] Instance thread_digests : Digests := demo_digests.
#[local] Instance thread_resolver : Resolver := {| find_by_name := None; seen_instant s := Some (zlen s * 1000000) |}.
#[local] Instance demo_directory : Directory := {| resolve _ := None; thread_addresses _ := []; instant_of s := Some (zlen s); islower _ := false; no_thread_addresses := eq_refl |}.
(** The group of Alice and Bob, and Bob's own conversation. *)
Definition demo_correlated : list Event := or_else [] (correlate_group_events demo_group).
Lemma reply_targets_witness : ∃ ts, build_threads demo_group = Ok ts ∧
  ((λ t, (t_is_group t, t_reply_ready t, t_recipients t)) <$> ts) =
    [(true, true, [lit "+1 555 000 0001"; lit "+1 555 000 0002"]); (false, true, [lit "+1 555 000 0002"])] ∧
  ∀ t, t ∈ ts → t_reply_ready t = true → reaches demo_correlated t.
Proof.
  destruct (reply_targets demo_group demo_correlated) as (ts & Hts & _ & _ & Hr).
  - vm_compute. reflexivity.
  - assert (forallb (λ e, is_nil (group_key e) || starts "group:" (group_key e)) demo_correlated = true) as Hk by (vm_compute; reflexivity).
    apply forallb_Forall in Hk. eapply Forall_impl; [exact Hk|]. intros e [He|He]%orb_true_iff; [left; by destruct (group_key e)|by right].
  - exists ts. split; [exact Hts|]. split; [|intros t Ht; by apply Hr].
    transitivity ((λ t, (t_is_group t, t_reply_ready t, t_recipients t)) <$> or_else [] (build_threads demo_group)); [by rewrite Hts|vm_compute; reflexivity].
Defined.
