(* ===== verification/ConfirmedGroups.v ===== *)
(** * ConfirmedGroups: the rosters the user approved
    (src/blueferry/confirmed_groups.py).

    The preference holds a JSON object of thread keys with the digests of
    confirmation tokens, here its items in order; what is no object or holds no
    texts reads as the empty list. *)
From S2P Require Import Prelude PyStr Text Recipients Json Events NamedGroups.

Definition MAX_CONFIRMED_GROUPS : Z := 200.
Definition MAX_THREAD_KEY_CHARS : Z := 1024.
Definition _DIGEST_LENGTH : Z := 64.
Abbreviation mapping := (list (ustr * ustr)).
Definition get_item (k : ustr) (m : mapping) : option ustr := snd <$> List.find (λ p, bool_decide (p.1 = k)) m.
Definition pop_item (k : ustr) (m : mapping) : mapping := List.filter (λ p, negb (bool_decide (p.1 = k))) m.

Section store.
Context `{CaseMapping, Digests}.

Definition _normalized_key (value : ustr) : ustr :=
  let key := strip value in
  if is_nil key || (MAX_THREAD_KEY_CHARS <? zlen key) || is_legacy_unnamed_group_key key then [] else key.
Definition _digest (token : ustr) : ustr := if is_nil token then [] else sha256_hex token.
Definition _normalized_digest (value : ustr) : ustr :=
  let digest := str_casefold (strip value) in
  if negb (zlen digest =? _DIGEST_LENGTH) || existsb (λ c, negb (mem c (lit "0123456789abcdef"))) digest then [] else digest.
Fixpoint select (selected : mapping) (raw : mapping) : mapping :=
  match raw with
  | [] => selected
  | (item, value) :: raw' =>
      let key := _normalized_key item in
      let digest := _normalized_digest value in
      if is_nil key || is_nil digest || is_some (get_item key selected) then select selected raw'
      else
        let selected := selected ++ [(key, digest)] in
        if MAX_CONFIRMED_GROUPS <=? zlen selected then selected else select selected raw'
  end.
Definition _mapping (raw : mapping) : mapping := select [] raw.
Definition matching_rosters (raw rosters : mapping) : list ustr :=
  let current := _mapping raw in
  (List.filter (λ p, negb (is_nil (_normalized_key p.1)) && negb (is_nil p.2) && bool_decide (get_item (_normalized_key p.1) current = Some (_digest p.2))) rosters).*1.
Definition matches (raw : mapping) (thread_key token : ustr) : bool := bool_decide (thread_key ∈ matching_rosters raw [(thread_key, token)]).
(** What [remember] writes, [None] for nothing. *)
Definition remember (raw : mapping) (thread_key token : ustr) : option mapping :=
  let key := _normalized_key thread_key in
  let digest := _digest token in
  if is_nil key || is_nil digest then None
  else
    let current := _mapping raw in
    if bool_decide (get_item key current = Some digest) then None
    else
      let current := if is_some (get_item key current) then pop_item key current
        else if MAX_CONFIRMED_GROUPS <=? zlen current then tail current else current in
      Some (current ++ [(key, digest)]).
Definition forget (raw : mapping) (thread_keys : list ustr) : option mapping :=
  let remove := List.filter (λ k, negb (is_nil k)) (_normalized_key <$> thread_keys) in
  if is_nil remove then None
  else
    let current := _mapping raw in
    let updated := List.filter (λ p, negb (bool_decide (p.1 ∈ remove))) current in
    if bool_decide (updated = current) then None else Some updated.
End store.

(** ** What is written is read back *)

Lemma lstrip_by_head cls s c : head (lstrip_by cls s) = Some c → cls c = false.
Proof. induction s as [|x s IH]; [done|]. cbn. destruct (cls x) eqn:E; [done|]. by intros [= <-]. Qed.
Lemma strip_by_idemp cls s : strip_by cls (strip_by cls s) = strip_by cls s.
Proof.
  apply strip_by_id; intros c; unfold strip_by.
  - destruct (rstrip_by_sub cls (lstrip_by cls s)) as (p & Hp & _). intros Hh. apply (lstrip_by_head cls s). rewrite Hp. by destruct (rstrip_by cls _).
  - unfold rstrip_by. rewrite last_reverse. apply lstrip_by_head.
Qed.

Section facts.
Context `{CaseMapping, Digests}.

Definition hex (d : ustr) : Prop := Forall (λ c, mem c (lit "0123456789abcdef") = true) d.
Lemma hex_char c : mem c (lit "0123456789abcdef") = true → is_space c = false ∧ is_ascii c = true ∧ Text.lower_ascii c = c.
Proof. rewrite mem_spec. intros Hc. repeat (apply elem_of_cons in Hc as [->|Hc]; [by vm_compute|]). by apply elem_of_nil in Hc. Qed.
Lemma hex_strip d : hex d → strip d = d.
Proof.
  unfold hex. rewrite Forall_forall. intros Hd. apply strip_by_id; intros c Hc; apply hex_char, Hd; [apply head_Some_elem_of|apply last_Some_elem_of]; done.
Qed.
Lemma hex_casefold d : hex d → str_casefold d = d.
Proof.
  intros Hd. rewrite casefold_ascii_text; [|eapply Forall_impl; [exact Hd|]; intros c Hc; by apply hex_char]. induction Hd as [|c d Hc _ IH]; [done|].
  cbn. f_equal; [by apply hex_char|done].
Qed.
Lemma hex_digits d : existsb (λ c, negb (mem c (lit "0123456789abcdef"))) d = false ↔ hex d.
Proof. unfold hex. induction d as [|c d IH]; cbn [existsb]; [by split|]. rewrite orb_false_iff, negb_false_iff, IH, Forall_cons. done. Qed.
Lemma normalized_key_idemp k : _normalized_key (_normalized_key k) = _normalized_key k.
Proof.
  unfold _normalized_key at 2 3. destruct (is_nil (strip k) || _ || _) eqn:E; [done|]. unfold _normalized_key. by rewrite strip_by_idemp, E.
Qed.
Lemma digest_of_hex d : hex d → zlen d = 64 → _normalized_digest d = d.
Proof. intros Hd Hl. unfold _normalized_digest. rewrite hex_strip, hex_casefold by done. rewrite Hl. by rewrite (proj2 (hex_digits d) Hd). Qed.
Lemma normalized_digest_hex v : _normalized_digest v = [] ∨ (hex (_normalized_digest v) ∧ zlen (_normalized_digest v) = 64).
Proof.
  unfold _normalized_digest. destruct (negb _ || _) eqn:E; [by left|right]. apply orb_false_iff in E as [E1 E2]. split; [by apply hex_digits|].
  apply negb_false_iff, Z.eqb_eq in E1. done.
Qed.
Lemma digest_hex token : _digest token = [] ∨ (hex (_digest token) ∧ zlen (_digest token) = 64).
Proof.
  unfold _digest. destruct (is_nil token); [by left|right]. destruct (sha256_hex_digits token) as [Hl Hh]. split; [|done]. apply forallb_Forall in Hh. exact Hh.
Qed.

Lemma get_item_elem k m d : get_item k m = Some d → (k, d) ∈ m.
Proof.
  unfold get_item. destruct (List.find _ m) as [[k' d']|] eqn:E; [|done]. apply List.find_some in E as [Hin Hk]. apply bool_decide_eq_true in Hk. cbn in *. subst k'.
  intros [= <-]. by apply list_elem_of_In.
Qed.
(** The items of a mapping are normalized. *)
Definition item_of (raw : mapping) (p : ustr * ustr) : Prop := ∃ q, q ∈ raw ∧ p = (_normalized_key q.1, _normalized_digest q.2).
Lemma select_items raw selected p : p ∈ select selected raw → p ∈ selected ∨ item_of raw p.
Proof.
  revert selected. induction raw as [|[item value] raw IH]; intros selected; cbn [select]; [by left|].
  assert (∀ q, item_of raw q → item_of ((item, value) :: raw) q) as Hmore by (intros q (x & Hx & ->); exists x; split; [by right|done]).
  destruct (_ || _ || _); [intros [?|?]%IH; auto|]. destruct (_ <=? _).
  - intros [Hp|Hp%list_elem_of_singleton]%elem_of_app; [by left|]. right. exists (item, value). split; [left|done].
  - intros [[Hp|Hp%list_elem_of_singleton]%elem_of_app|Hp]%IH; [by left| |auto]. right. exists (item, value). split; [left|done].
Qed.
Lemma mapping_normal raw p : p ∈ _mapping raw → _normalized_key p.1 = p.1 ∧ _normalized_digest p.2 = p.2.
Proof.
  intros [Hp|(q & _ & ->)]%select_items; [by apply elem_of_nil in Hp|]. cbn. split; [apply normalized_key_idemp|].
  destruct (normalized_digest_hex q.2) as [->|[Hh Hl]]; [done|by apply digest_of_hex].
Qed.
(** What [remember] and [forget] write holds only what was there and what was
    remembered. *)
Lemma remember_items raw k token raw' p : remember raw k token = Some raw' → p ∈ _mapping raw' → p ∈ _mapping raw ∨ p = (_normalized_key k, _digest token).
Proof.
  unfold remember. destruct (_ || _); [done|]. destruct (bool_decide _); [done|]. intros [= <-] [Hp|(q & Hq & ->)]%select_items; [by apply elem_of_nil in Hp|].
  apply elem_of_app in Hq as [Hq|Hq%list_elem_of_singleton].
  - left. assert (q ∈ _mapping raw) as Hin.
    { destruct (is_some _); [|destruct (_ <=? _); [|done]].
      - unfold pop_item in Hq. apply list_elem_of_In, filter_In in Hq as [Hq _]. by apply list_elem_of_In.
      - destruct (_mapping raw); [done|by right]. }
    destruct (mapping_normal _ _ Hin) as [-> ->]. by destruct q.
  - right. subst q. cbn. rewrite normalized_key_idemp. destruct (digest_hex token) as [->|[Hh Hl]]; [done|]. by rewrite digest_of_hex.
Qed.
Lemma forget_items raw ks raw' p : forget raw ks = Some raw' → p ∈ _mapping raw' → p ∈ _mapping raw.
Proof.
  unfold forget. destruct (is_nil _); [done|]. destruct (bool_decide _); [done|]. intros [= <-] [Hp|(q & Hq & ->)]%select_items; [by apply elem_of_nil in Hp|].
  apply list_elem_of_In, filter_In in Hq as [Hq _]. apply list_elem_of_In in Hq. destruct (mapping_normal _ _ Hq) as [-> ->]. by destruct q.
Qed.
Lemma matches_item raw k token : matches raw k token = true → (_normalized_key k, _digest token) ∈ _mapping raw.
Proof.
  unfold matches, matching_rosters. rewrite bool_decide_eq_true. cbn. destruct (_ && _ && _) eqn:E; [|by intros ?%elem_of_nil]. intros _.
  apply andb_true_iff in E as [_ E]. apply bool_decide_eq_true in E. by apply get_item_elem.
Qed.
End facts.
