(* ===== verification/SendThread.v ===== *)
(** * SendThread: sending a message (src/blueferry/backend_operations.py).

    A reply holds its place in the Bluetooth queue with a job that does
    nothing; at its turn the route is resolved again, after a refresh of the
    conversations, and the message is queued for the transport only if it is
    still the one that was accepted.  [Threads] gives the conversations, which
    change between any two steps, and [ConfirmedGroups] the approved rosters.
    The ids of requests stand for the client's two callbacks.  How a refresh
    starts is part of the event: it may call back at once, wait, or raise before
    it registers anything, and the worker drops what a callback raises. *)
From S2P Require Import Prelude PyStr Wire Text Recipients Json Events NamedGroups Grouping Threads ConfirmedGroups.

Definition MAX_OUTGOING_BODY_BYTES : Z := 256 * 1024.
Definition MAX_GROUP_CONFIRMATION_TOKEN_CHARS : Z := 8192.

Record Request := mkRequest {
  r_id : nat;
  r_key : ustr;
  r_body : ustr;
  r_confirm : bool;
  r_token : ustr;
  r_refresh : bool;
}.
(** What the transport gets. *)
Inductive Transfer := ToOne (recipient body : ustr) | ToGroup (recipients : list ustr) (body : ustr).
(** Work queued on the OBEX worker, with what its callbacks remember. *)
Inductive Job :=
  | Hold (r : Request) (map_path : ustr) (accepted : list ustr)
  | Transmit (id : nat) (map_path : ustr) (t : Transfer) (group : option (ustr * ustr)).
(** How [refresh(send, failure)] starts: the conversations are current, they are
    being read, the read is refused or fails at once, or the revision of the
    history cannot be read and [prepare_async] raises. *)
Inductive Refresh := Current | Reads | Refused (error : exn) | Raises (error : exn).
Inductive Entry :=
  | Sent (id : nat) (map_path : ustr) (t : Transfer)
  | Recorded (t : Transfer) (transfer : ustr)
  | Answered (id : nat) (answer : result ustr)
  | CallbackRaised (id : nat).
(** Without [w_threads] history cannot be read. *)
Record World := mkWorld {
  w_threads : option (list Thread);
  w_map : bool;
  w_map_path : ustr;
  w_worker : bool;
  w_writable : bool;
  w_confirmed : gmap ustr ustr;
  w_store : option mapping;
  w_queue : list Job;
  w_refreshing : list (Request * ustr * list ustr);
  w_next : nat;
  w_log : list Entry;
}.
Abbreviation Op A := (M World A).
Definition emit (e : Entry) : Op () := modify (λ w : World, w <| w_log ::= λ l, l ++ [e] |>).
Definition answer (id : nat) (a : result ustr) : Op () := emit (Answered id a).

Section send.
Context `{CaseMapping, Digests}.

Definition find_thread (key : ustr) (threads : list Thread) : option Thread := List.find (λ t, bool_decide (key ∈ conversation_keys t)) threads.
Definition _require_map : Op () :=
  w ← get; if w_map w then mret () else raise (NotReadyError "Bluetooth message connection is unavailable").
Definition _validate_body (body : ustr) : result () :=
  if is_nil (strip body) then Raise (InvalidArgumentsError "message body must be non-empty")
  else
    encoded ← utf8_encode body;
    if MAX_OUTGOING_BODY_BYTES <? zlen encoded then Raise (InvalidArgumentsError "message body exceeds the limit") else mret ().
Fixpoint validate_all (l : list ustr) : result (list ustr) :=
  match l with [] => mret [] | r :: l' => v ← validate_recipient r; vs ← validate_all l'; mret (v :: vs) end.
Definition _group_roster_confirmed (thread_key token : ustr) (w : World) : bool :=
  bool_decide (w_confirmed w !! thread_key = Some token) || match w_store w with Some raw => matches raw thread_key token | None => false end.
(** A confirmed reply to the sender alone of a message that a group may have
    had, or a thread that may be answered. *)
Definition reply_allowed (thread : Thread) (confirm_group : bool) (expected : ustr) : result () :=
  if negb (t_is_group thread) && confirm_group && startswith SENDER_REPLY_TOKEN_PREFIX expected then
    if bool_decide (t_sender_reply_token thread = Some expected) then mret () else Raise (ConfirmationRequiredError "a newer message arrived")
  else if negb (t_reply_ready thread) || is_nil (t_recipients thread) then Raise (NotReadyError "thread has no unambiguous reply destination")
  else mret ().
Definition group_route (thread : Thread) (confirm_group : bool) (expected : ustr) (w : World) : result (list ustr * ustr) :=
  match validate_all (t_recipients thread) with
  | Raise _ => Raise (NotReadyError "thread has an invalid group route")
  | Ok group_recipients =>
      if negb ((2 <=? zlen group_recipients) && (zlen group_recipients <=? 20)) then Raise (NotReadyError "group thread must have 2 to 20 recipients")
      else if negb (bool_decide (NoDup group_recipients)) then Raise (NotReadyError "group thread contains duplicate recipients")
      else
        let token := group_confirmation_token (t_recipients thread) (t_roster_warning_id thread) in
        if is_nil expected then Raise (ConfirmationRequiredError "this client cannot confirm group recipients")
        else if negb (bool_decide (expected = token)) then Raise (ConfirmationRequiredError "the group changed")
        else if negb confirm_group && negb (_group_roster_confirmed (t_key thread) token w) then
          Raise (ConfirmationRequiredError "confirm the displayed participant list")
        else mret (group_recipients, token)
  end.
(** A thread, its destinations and, for a group, its roster token. *)
Definition _thread_route (key : ustr) (confirm_group : bool) (expected : ustr) : Op (Thread * list ustr * option ustr) :=
  w ← get;
  threads ← lift (match w_threads w with Some threads => Ok threads | None => Raise OSError end);
  match find_thread key threads with
  | None => raise (NotFoundError "thread no longer exists in local history")
  | Some thread =>
      lift (reply_allowed thread confirm_group expected);;
      _require_map;;
      if t_is_group thread then
        route ← lift (group_route thread confirm_group expected w);
        mret (thread, route.1, Some route.2)
      else
        match t_recipients thread with
        | [recipient] => mret (thread, [recipient], None)
        | _ => raise (NotReadyError "one-to-one thread has an invalid recipient set")
        end
  end.

(** [_queue]: without a worker, or when it takes no work, the failure callback
    is called at once. *)
Definition _queue (id : nat) (job : Job) : Op () :=
  w ← get;
  if w_worker w then modify (λ w : World, w <| w_queue ::= λ l, l ++ [job] |>) else answer id (Raise (NotReadyError "OBEX worker is unavailable")).
Definition _operation_failed (id : nat) (error : exn) : Op () :=
  match error with SendOutcomeUnknownError => answer id (Raise error) | _ => answer id (Raise (OperationFailedError "Send" "")) end.
Definition _queue_send (id : nat) (recipient body : ustr) : Op () :=
  w ← get; _queue id (Transmit id (w_map_path w) (ToOne recipient body) None).
Definition send (id : nat) (recipient body : ustr) : Op () :=
  if is_nil (strip recipient) then raise (InvalidArgumentsError "recipient must be non-empty")
  else
    lift (_validate_body body);;
    normalized ← lift (match validate_recipient recipient with Ok r => Ok r | Raise _ => Raise (InvalidArgumentsError "invalid recipient") end);
    _require_map;;
    _queue_send id normalized body.
Definition _remember_confirmed_group (thread_key token : ustr) : Op () :=
  modify (λ w : World, w <| w_confirmed ::= <[thread_key := token]> |>);;
  w ← get;
  match w_store w with
  | Some raw => match remember raw thread_key token with
      | Some raw' => when (w_writable w) (modify (λ w : World, w <| w_store := Some raw' |>))
      | None => mret ()
      end
  | None => mret ()
  end.
Definition send_to_thread (r : Request) : Op () :=
  if MAX_GROUP_CONFIRMATION_TOKEN_CHARS <? zlen (r_token r) then raise (InvalidArgumentsError "group confirmation token is too long")
  else if is_nil (strip (r_key r)) then raise (InvalidArgumentsError "thread key must be non-empty")
  else if 1024 <? zlen (r_key r) then raise (InvalidArgumentsError "thread key is too long")
  else
    lift (_validate_body (r_body r));;
    route ← _thread_route (r_key r) (r_confirm r) (r_token r);
    w ← get;
    _queue (r_id r) (Hold r (w_map_path w) route.1.2).
(** [except Exception as error: failure(error)]. *)
Definition or_failure {A} (id : nat) (m : Op A) (f : A → Op ()) : Op () :=
  λ w, match m w with (Ok a, w') => f a w' | (Raise e, w') => answer id (Raise e) w' end.
(** [send] of a reply, when its turn comes. *)
Definition send_reply (r : Request) (map_path : ustr) (accepted : list ustr) : Op () :=
  or_failure (r_id r) (_thread_route (r_key r) (r_confirm r) (r_token r)) (λ route,
    let '(thread, recipients, token) := route in
    if negb (bool_decide (recipients = accepted)) then answer (r_id r) (Raise (NotReadyError "the conversation changed"))
    else
      match token, recipients with
      | None, recipient :: _ => _queue_send (r_id r) recipient (r_body r)
      | None, [] => raise (IndexError "list index out of range")
      | Some token, _ => _queue (r_id r) (Transmit (r_id r) map_path (ToGroup recipients (r_body r)) (Some (t_key thread, token)))
      end).
Definition dequeued (r : Request) (map_path : ustr) (accepted : list ustr) (refresh : Refresh) : Op () :=
  if r_refresh r then
    match refresh with
    | Current => send_reply r map_path accepted
    | Reads => modify (λ w : World, w <| w_refreshing ::= λ l, l ++ [(r, map_path, accepted)] |>)
    | Refused error => answer (r_id r) (Raise error)
    | Raises error => raise error
    end
  else send_reply r map_path accepted.
Definition succeeded (id : nat) (t : Transfer) (group : option (ustr * ustr)) (transfer : ustr) : Op () :=
  match group with Some (thread_key, token) => _remember_confirmed_group thread_key token | None => mret () end;;
  emit (Recorded t transfer);;
  answer id (Ok transfer).
(** The worker ran [job], with this outcome: the callback it gets. *)
Definition ran (job : Job) (outcome : result ustr) (refresh : Refresh) : Op () :=
  match job, outcome with
  | Hold r map_path accepted, Ok _ => dequeued r map_path accepted refresh
  | Hold r _ _, Raise e => answer (r_id r) (Raise e)
  | Transmit id map_path t group, Ok transfer => emit (Sent id map_path t);; succeeded id t group transfer
  | Transmit id map_path t _, Raise e => emit (Sent id map_path t);; _operation_failed id e
  end.
Definition job_id (job : Job) : nat := match job with Hold r _ _ => r_id r | Transmit id _ _ _ => id end.
(** The worker only logs what a callback raises. *)
Definition _deliver (id : nat) (callback : Op ()) : Op () :=
  λ w, match callback w with (Raise _, w') => emit (CallbackRaised id) w' | done => done end.
Definition _forget_confirmed_groups (thread_keys : list ustr) : Op () :=
  modify (λ w : World, w <| w_confirmed ::= λ m, foldr delete m thread_keys |>);;
  w ← get;
  match w_store w with
  | Some raw => match forget raw thread_keys with
      | Some raw' => if w_writable w then modify (λ w : World, w <| w_store := Some raw' |>) else raise OSError
      | None => mret ()
      end
  | None => mret ()
  end.

(** ** Steps of the main loop *)

Inductive event :=
  | SendToThread (key body : ustr) (confirm_group : bool) (token : ustr) (refresh : bool)
  | SendMessage (recipient body : ustr)
  | Turn (outcome : result ustr) (refresh : Refresh)
  | Refreshed (waiter : nat) (outcome : result ())
  | Forget (thread_keys : list ustr)
  | Projection (threads : option (list Thread))
  | Session (map : bool) (map_path : ustr)
  | Worker (up : bool)
  | Settings (writable : bool).
Definition attempt (id : nat) (m : Op ()) : Op () := or_failure id m mret.
Definition step (e : event) : Op () :=
  match e with
  | SendToThread key body confirm_group token refresh =>
      w ← get;
      let r := mkRequest (w_next w) key body confirm_group token refresh in
      modify (λ w : World, w <| w_next ::= S |>);; attempt (r_id r) (send_to_thread r)
  | SendMessage recipient body =>
      w ← get;
      let id := w_next w in
      modify (λ w : World, w <| w_next ::= S |>);; attempt id (send id recipient body)
  | Turn outcome refresh =>
      w ← get;
      match w_queue w with
      | [] => mret ()
      | job :: queue => modify (λ w : World, w <| w_queue := queue |>);; _deliver (job_id job) (ran job outcome refresh)
      end
  | Refreshed waiter outcome =>
      w ← get;
      match w_refreshing w !! waiter with
      | None => mret ()
      | Some (r, map_path, accepted) =>
          modify (λ w : World, w <| w_refreshing ::= delete waiter |>);;
          match outcome with Ok _ => attempt (r_id r) (send_reply r map_path accepted) | Raise e => answer (r_id r) (Raise e) end
      end
  | Forget thread_keys => _forget_confirmed_groups thread_keys
  | Projection threads => modify (λ w : World, w <| w_threads := threads |>)
  | Session map map_path => modify (λ w : World, w <| w_map := map |> <| w_map_path := map_path |>)
  | Worker up => modify (λ w : World, w <| w_worker := up |>)
  | Settings writable => modify (λ w : World, w <| w_writable := writable |>)
  end.
Definition World_init (store : option mapping) : World := mkWorld (Some []) false [] true true ∅ store [] [] 0 [].
Definition run (store : option mapping) (es : list event) : World := run_all (step <$> es) (World_init store).
End send.
