(* ===== verification/SendSafety.v ===== *)
(** * SendSafety: a reply goes where the user saw that it goes.

    [justified] says what makes a destination right for a request: the
    conversation that the history gave at that moment, and an approval that the
    earlier steps give.  Every message given to the transport was justified when
    its request was accepted and again when its turn came; both moments are
    prefixes of the run. *)
From S2P Require Import Prelude PyStr Wire Text Recipients Json Events NamedGroups Grouping GroupMatching GroupSafety Threads ThreadSafety ConfirmedGroups SendThread.

Section safety.
Context `{CaseMapping, Digests}.
Context (store0 : option mapping).
Abbreviation after := (run store0).

(** The client's call that makes request [r], as request [r_id r]. *)
Definition ask (r : Request) : event := SendToThread (r_key r) (r_body r) (r_confirm r) (r_token r) (r_refresh r).
Definition asked (es0 : list event) (r : Request) : Prop := w_next (after es0) = r_id r.
(** In [w] the conversation of [r] is [t], which may be answered at [recipients]. *)
Definition destination (w : World) (r : Request) (t : Thread) (recipients : list ustr) (token : option ustr) : Prop :=
  (∃ threads, w_threads w = Some threads ∧ find_thread (r_key r) threads = Some t) ∧ w_map w = true ∧
  match token with
  | None => t_is_group t = false ∧ t_recipients t = recipients ∧ length recipients = 1%nat ∧
      if r_confirm r && startswith SENDER_REPLY_TOKEN_PREFIX (r_token r) then t_sender_reply_token t = Some (r_token r) else t_reply_ready t = true
  | Some token => t_is_group t = true ∧ t_reply_ready t = true ∧ validate_all (t_recipients t) = Ok recipients ∧ (2 <= length recipients <= 20)%nat ∧ NoDup recipients ∧
      r_token r = token ∧ token = group_confirmation_token (t_recipients t) (t_roster_warning_id t)
  end.
(** The user approved a roster (its digest) for a conversation: with a request
    of this run, that had this conversation and roster at some moment since it
    was made, or before the run. *)
Definition approved (es : list event) (key digest : ustr) : Prop :=
  (∃ es0 es1 es2 r t recipients token, es = es0 ++ ask r :: es1 ++ es2 ∧ asked es0 r ∧ r_confirm r = true ∧
     destination (after (es0 ++ ask r :: es1)) r t recipients (Some token) ∧ _normalized_key (t_key t) = key ∧ _digest token = digest) ∨
  (∃ raw, store0 = Some raw ∧ (key, digest) ∈ _mapping raw).
(** After [es], request [r] goes to [recipients] by right: for a group, with the
    approval that it carries or with an earlier one. *)
Definition justified (es : list event) (r : Request) (t : Thread) (recipients : list ustr) (token : option ustr) : Prop :=
  destination (after es) r t recipients token ∧
  ∀ k, token = Some k → r_confirm r = true ∨ approved es (_normalized_key (t_key t)) (_digest k).
(** The turn of [r]: its place in the queue is reached, or its refresh is done. *)
Definition takes_turn (w : World) (e : event) (r : Request) : Prop :=
  (∃ map_path accepted queue outcome refresh, w_queue w = Hold r map_path accepted :: queue ∧ e = Turn (Ok outcome) refresh ∧ (r_refresh r = true → refresh = Current)) ∨
  (∃ waiter map_path accepted, w_refreshing w !! waiter = Some (r, map_path, accepted) ∧ e = Refreshed waiter (Ok ())).
(** The message of a request, with the roster it answers. *)
Definition transfer_of (recipients : list ustr) (body : ustr) (token : option ustr) : Transfer :=
  match token, recipients with None, recipient :: _ => ToOne recipient body | _, _ => ToGroup recipients body end.
(** A message that the client addressed itself. *)
Definition sent_direct (es : list event) (id : nat) (map_path : ustr) (tx : Transfer) : Prop :=
  ∃ es0 es1 recipient recipient' body, es = es0 ++ SendMessage recipient body :: es1 ∧ w_next (after es0) = id ∧ validate_recipient recipient = Ok recipient' ∧
    map_path = w_map_path (after es0) ∧ tx = ToOne recipient' body.
(** A reply: accepted after [es0], its turn after [es1] more. *)
Definition replied (es : list event) (id : nat) (map_path : ustr) (tx : Transfer) (t' : Thread) (r : Request) (token' : option ustr) : Prop :=
  ∃ es0 es1 e es2 t recipients token, es = es0 ++ ask r :: es1 ++ e :: es2 ∧ asked es0 r ∧ r_id r = id ∧ justified es0 r t recipients token ∧
    takes_turn (after (es0 ++ ask r :: es1)) e r ∧ justified (es0 ++ ask r :: es1) r t' recipients token' ∧
    map_path = (if token' then w_map_path (after es0) else w_map_path (after (es0 ++ ask r :: es1))) ∧ tx = transfer_of recipients (r_body r) token'.
Definition sends (es : list event) (id : nat) (map_path : ustr) (tx : Transfer) : Prop :=
  (∃ t' r token', replied es id map_path tx t' r token') ∨ sent_direct es id map_path tx.
Definition held (es : list event) (r : Request) (map_path : ustr) (recipients : list ustr) : Prop :=
  ∃ es0 es1 t token, es = es0 ++ ask r :: es1 ∧ asked es0 r ∧ map_path = w_map_path (after es0) ∧ justified es0 r t recipients token.
Definition job_ok (es : list event) (job : Job) : Prop :=
  match job with
  | Hold r map_path accepted => held es r map_path accepted
  | Transmit id map_path tx group => sends es id map_path tx ∧ ∀ k token, group = Some (k, token) → approved es (_normalized_key k) (_digest token)
  end.
Record Inv (es : list event) (w : World) : Prop := {
  inv_queue job : job ∈ w_queue w → job_ok es job;
  inv_refreshing r p accepted : (r, p, accepted) ∈ w_refreshing w → held es r p accepted;
  inv_sent id p tx : Sent id p tx ∈ w_log w → sends es id p tx;
  inv_confirmed k token : w_confirmed w !! k = Some token → approved es (_normalized_key k) (_digest token);
  inv_store raw p : w_store w = Some raw → p ∈ _mapping raw → approved es p.1 p.2;
}.

(** ** Evidence stays *)

Section more.
Context (es l : list event).
Lemma approved_more k d : approved es k d → approved (es ++ l) k d.
Proof.
  intros [(es0 & es1 & es2 & r & t & rs & token & -> & Hrest)|Hs]; [left|by right]. exists es0, es1, (es2 ++ l), r, t, rs, token. split; [|done].
  by rewrite <- app_assoc, <- app_comm_cons, <- app_assoc.
Qed.
Lemma held_more r p rs : held es r p rs → held (es ++ l) r p rs.
Proof. intros (es0 & es1 & t & token & -> & Hrest). exists es0, (es1 ++ l), t, token. split; [|done]. by rewrite <- app_assoc, <- app_comm_cons. Qed.
Lemma sends_more id p tx : sends es id p tx → sends (es ++ l) id p tx.
Proof.
  intros [(t' & r & k' & es0 & es1 & e & es2 & t & rs & k & -> & Hrest)|(es0 & es1 & a & b & c & -> & Hrest)]; [left|right].
  - exists t', r, k', es0, es1, e, (es2 ++ l), t, rs, k. split; [|done]. by rewrite <- !app_assoc, <- !app_comm_cons, <- app_assoc, <- app_comm_cons.
  - exists es0, (es1 ++ l), a, b, c. split; [|done]. by rewrite <- app_assoc, <- app_comm_cons.
Qed.
Lemma job_more job : job_ok es job → job_ok (es ++ l) job.
Proof. destruct job; cbn; [apply held_more|]. intros [Hs Hg]. split; [by apply sends_more|]. intros k token Hk. by apply approved_more, Hg. Qed.
Lemma inv_more w : Inv es w → Inv (es ++ l) w.
Proof.
  intros Hw. split.
  - intros job Hj. by apply job_more, (inv_queue _ _ Hw).
  - intros r p acc Hin. by apply held_more, (inv_refreshing _ _ Hw).
  - intros id p tx Hin. by apply sends_more, (inv_sent _ _ Hw).
  - intros k token Hk. by apply approved_more, (inv_confirmed _ _ Hw).
  - intros raw p Hr Hp. apply approved_more. by eapply (inv_store _ _ Hw).
Qed.
End more.
Lemma inv_log es e w : Inv es w → (∀ id p tx, e = Sent id p tx → sends es id p tx) → Inv es (w <| w_log ::= λ l, l ++ [e] |>).
Proof.
  intros [Hq Hr Hs Hc Hst] He. split; cbn; [done|done| |done|done].
  intros id p tx [Hin|Hin%list_elem_of_singleton]%elem_of_app; [by apply Hs|by apply He].
Qed.
Lemma emit_keeps es e : (∀ id p tx, e ≠ Sent id p tx) → stable (Inv es) (emit e).
Proof. intros He w Hw. apply (inv_log es e w Hw). intros id p tx ->. by destruct (He id p tx). Qed.
Lemma answer_keeps es id a : stable (Inv es) (answer id a).
Proof. by apply emit_keeps. Qed.

(** ** Routes *)

Lemma roster_approved es w k token : Inv es w → _group_roster_confirmed k token w = true → approved es (_normalized_key k) (_digest token).
Proof.
  intros Hw [Hc|Hs]%orb_true_iff; [apply (inv_confirmed _ _ Hw); by apply bool_decide_eq_true in Hc|]. destruct (w_store w) as [raw|] eqn:Er; [|done].
  apply (inv_store _ _ Hw raw (_, _) Er). by apply matches_item.
Qed.
Lemma group_route_ok t c x w rs token : group_route t c x w = Ok (rs, token) →
  validate_all (t_recipients t) = Ok rs ∧ (2 <= length rs <= 20)%nat ∧ NoDup rs ∧ x = token ∧ token = group_confirmation_token (t_recipients t) (t_roster_warning_id t) ∧
  (c = true ∨ _group_roster_confirmed (t_key t) token w = true).
Proof.
  unfold group_route. destruct (validate_all (t_recipients t)) as [l|]; [|done]. destruct (negb (_ && _)) eqn:E1; [done|]. destruct (negb (bool_decide (NoDup l))) eqn:E2; [done|].
  destruct (is_nil x); [done|]. destruct (negb (bool_decide (x = _))) eqn:E3; [done|]. destruct (negb c && _) eqn:E4; [done|]. intros [= <- <-].
  apply negb_false_iff in E1, E2, E3. apply andb_true_iff in E1 as [E1 E1']. apply Z.leb_le in E1, E1'. apply bool_decide_eq_true in E2, E3. unfold zlen in *.
  split_and!; [done|lia|lia|done|done|done|]. apply andb_false_iff in E4 as [E4|E4]; apply negb_false_iff in E4; auto.
Qed.
Lemma reply_allowed_ok t c x : reply_allowed t c x = Ok () →
  if negb (t_is_group t) && c && startswith SENDER_REPLY_TOKEN_PREFIX x then t_sender_reply_token t = Some x else t_reply_ready t = true.
Proof.
  unfold reply_allowed. destruct (negb (t_is_group t) && c && _).
  - destruct (bool_decide _) eqn:Eb; [|done]. by apply bool_decide_eq_true in Eb.
  - by destruct (t_reply_ready t).
Qed.
(** A route changes nothing, and what it returns is justified. *)
Lemma route_state key c x w : (_thread_route key c x w).2 = w.
Proof.
  unfold _thread_route. rewrite M_bind_eq. cbn [get]. rewrite M_bind_eq. unfold lift at 1. destruct (w_threads w) as [l|]; [|done]. destruct (find_thread key l) as [t|]; [|done].
  rewrite M_bind_eq. unfold lift at 1. destruct (reply_allowed t c x) as [[]|]; [|done]. rewrite M_bind_eq. unfold _require_map. rewrite M_bind_eq. cbn [get].
  destruct (w_map w); [|done]. cbn [mret M_ret]. destruct (t_is_group t); [|by repeat case_match]. rewrite M_bind_eq. unfold lift. by destruct (group_route t c x w).
Qed.
(** What a route depends on besides the approvals. *)
Definition same_view (w w' : World) : Prop := w_threads w = w_threads w' ∧ w_map w = w_map w' ∧ w_map_path w = w_map_path w'.
Lemma route_ok es w r t rs token : same_view w (after es) → Inv es w → (_thread_route (r_key r) (r_confirm r) (r_token r) w).1 = Ok (t, rs, token) → justified es r t rs token.
Proof.
  intros (Hth & Hmap & _) Hw. unfold _thread_route, justified, destination. rewrite <- Hth, <- Hmap, M_bind_eq. cbn [get]. rewrite M_bind_eq. unfold lift at 1.
  destruct (w_threads w) as [threads|]; [|done]. destruct (find_thread (r_key r) threads) as [t'|] eqn:Ef; [|done].
  rewrite M_bind_eq. unfold lift at 1. destruct (reply_allowed t' (r_confirm r) (r_token r)) as [[]|] eqn:Ea; [|done]. apply reply_allowed_ok in Ea.
  rewrite M_bind_eq. unfold _require_map. rewrite M_bind_eq. cbn [get]. destruct (w_map w); [|done]. cbn [mret M_ret]. destruct (t_is_group t') eqn:Eg.
  - rewrite M_bind_eq. unfold lift. destruct (group_route t' _ _ w) as [[rs' token']|] eqn:Er; [|done]. cbn. intros [= <- <- <-].
    apply group_route_ok in Er as (Hv & Hlen & Hd & Hx & Htok & Hconf). split; [split; [eauto|split; [done|]]|].
    + split_and!; auto; lia.
    + intros k [= <-]. destruct Hconf as [Hc|Hc]; [by left|right]. by eapply roster_approved.
  - destruct (t_recipients t') as [|a [|]] eqn:Et; cbn; [done| |done]. intros [= <- <- <-]. split; [|done]. split; [eauto|]. rewrite Et. auto.
Qed.
(** A request that was justified with a roster is an approval of it. *)
Lemma justified_approved es0 es1 r t rs token : asked es0 r → justified (es0 ++ ask r :: es1) r t rs (Some token) →
  approved (es0 ++ ask r :: es1) (_normalized_key (t_key t)) (_digest token).
Proof.
  intros Hr [Hd Ha]. destruct (Ha token eq_refl) as [Hc|Hc]; [left|done]. exists es0, es1, [], r, t, rs, token. by rewrite app_nil_r.
Qed.

(** ** Steps *)

Lemma queue_keeps es id job w : Inv es w → job_ok es job → Inv es (_queue id job w).2.
Proof.
  intros Hw Hj. unfold _queue. rewrite M_bind_eq. cbn [get]. destruct (w_worker w); [|by apply answer_keeps]. cbn.
  destruct Hw as [Hq Hr Hs Hc Hst]. split; cbn; [|done..]. intros j [Hin|Hin%list_elem_of_singleton]%elem_of_app; [by apply Hq|by subst j].
Qed.
Lemma or_failure_keeps {A} es id (m : Op A) f w : Inv es (m w).2 → (∀ a, (m w).1 = Ok a → Inv es (f a (m w).2).2) → Inv es (or_failure id m f w).2.
Proof. intros Hm Hf. unfold or_failure. destruct (m w) as [[a|e] w']; [by apply Hf|]. by apply answer_keeps. Qed.
Lemma attempt_keeps es id (m : Op ()) w : Inv es (m w).2 → Inv es (attempt id m w).2.
Proof. intros Hm. by apply or_failure_keeps. Qed.
Lemma deliver_keeps es id (m : Op ()) w : Inv es (m w).2 → Inv es (_deliver id m w).2.
Proof. unfold _deliver. destruct (m w) as [[[]|e] w']; [done|]. by apply emit_keeps. Qed.

(** The turn of a reply: [es] happened before [e]. *)
Lemma send_reply_keeps es e r p accepted w : same_view w (after es) → Inv es w → held es r p accepted → takes_turn (after es) e r →
  Inv (es ++ [e]) (send_reply r p accepted w).2.
Proof.
  intros Hview Hw (es0 & es1 & t0 & k0 & -> & Hr & -> & Hj0) Hturn. pose proof (inv_more _ [e] _ Hw) as Hw'.
  unfold send_reply. apply or_failure_keeps; [by rewrite route_state|]. intros [[t rs] token] Hroute. rewrite route_state.
  pose proof (route_ok _ w r t rs token Hview Hw Hroute) as Hj. destruct (bool_decide (rs = accepted)) eqn:E; cbn [negb]; [|by apply answer_keeps].
  apply bool_decide_eq_true in E. subst accepted. set (path := if token then w_map_path (after es0) else w_map_path (after (es0 ++ ask r :: es1))).
  assert (sends ((es0 ++ ask r :: es1) ++ [e]) (r_id r) path (transfer_of rs (r_body r) token)) as Hsends.
  { left. exists t, r, token, es0, es1, e, [], t0, rs, k0. rewrite <- app_assoc, <- app_comm_cons. done. }
  destruct token as [token|].
  - apply queue_keeps; [done|]. split; [done|]. intros k' token' [= <- <-]. apply approved_more. by eapply justified_approved.
  - destruct rs as [|a rs]; [done|]. unfold _queue_send. rewrite M_bind_eq. cbn [get]. destruct Hview as (_ & _ & ->). apply queue_keeps; [done|]. split; [done|done].
Qed.
Lemma send_to_thread_keeps es r w : same_view w (after es) → Inv es w → asked es r → Inv (es ++ [ask r]) (send_to_thread r w).2.
Proof.
  intros Hview Hw Hr. pose proof (inv_more _ [ask r] _ Hw) as Hw'. unfold send_to_thread. destruct (_ <? _); [done|]. destruct (is_nil _); [done|]. destruct (_ <? _); [done|].
  rewrite M_bind_eq. unfold lift. destruct (_validate_body _); [|done]. rewrite M_bind_eq. pose proof (route_state (r_key r) (r_confirm r) (r_token r) w) as Hstate.
  pose proof (route_ok es w r) as Hok. destruct (_thread_route _ _ _ w) as [[[[t rs] token]|e] w1]; cbn in Hstate; subst w1; [|done].
  rewrite M_bind_eq. cbn [get]. apply queue_keeps; [done|]. cbn. exists es, [], t, token. split_and!; [done..|by apply Hview|]. by apply Hok.
Qed.
Lemma send_keeps es id recipient body w : same_view w (after es) → Inv es w → w_next (after es) = id → Inv (es ++ [SendMessage recipient body]) (send id recipient body w).2.
Proof.
  intros Hview Hw Hr. pose proof (inv_more _ [SendMessage recipient body] _ Hw) as Hw'. unfold send. destruct (is_nil _); [done|].
  rewrite M_bind_eq. unfold lift. destruct (_validate_body body); [|done]. rewrite M_bind_eq.
  destruct (validate_recipient recipient) as [rc|] eqn:Ev; [|done]. rewrite M_bind_eq. unfold _require_map. rewrite M_bind_eq. cbn [get]. destruct (w_map w); [|done]. cbn [mret M_ret].
  unfold _queue_send. rewrite M_bind_eq. cbn [get]. apply queue_keeps; [done|]. split; [|done]. right. exists es, [], recipient, rc, body. split_and!; [done..|by apply Hview|done].
Qed.
Lemma store_keeps es w raw raw' : Inv es w → w_store w = Some raw → (∀ p, p ∈ _mapping raw' → approved es p.1 p.2) → Inv es (w <| w_store := Some raw' |>).
Proof. intros [Hq Hr Hs Hc Hst] Hraw Hp. split; cbn; [done..|]. intros raw1 p [= <-]. apply Hp. Qed.
Lemma remember_keeps es k token w : Inv es w → approved es (_normalized_key k) (_digest token) → Inv es (_remember_confirmed_group k token w).2.
Proof.
  intros Hw Hg. unfold _remember_confirmed_group. rewrite M_bind_eq. cbn [modify]. set (w1 := w <| w_confirmed ::= <[k := token]> |>).
  assert (Inv es w1) as Hw1.
  { destruct Hw as [Hq Hr Hs Hc Hst]. split; cbn; [done..| |done]. intros k' token'. destruct (decide (k = k')) as [<-|Hk]; [rewrite lookup_insert_eq; by intros [= <-]|].
    rewrite lookup_insert_ne by done. apply Hc. }
  rewrite M_bind_eq. cbn [get]. destruct (w_store w1) as [raw|] eqn:Er; [|done]. destruct (remember raw k token) as [raw'|] eqn:Em; [|done].
  destruct (w_writable w1); [|done]. apply (store_keeps es w1 raw raw' Hw1 Er). intros p Hp. destruct (remember_items _ _ _ _ _ Em Hp) as [Hin| ->]; [by apply (inv_store _ _ Hw1 raw)|done].
Qed.
Lemma forget_keeps es ks : stable (Inv es) (_forget_confirmed_groups ks).
Proof.
  intros w Hw. unfold _forget_confirmed_groups. rewrite M_bind_eq. cbn [modify]. set (w1 := w <| w_confirmed ::= λ m, foldr delete m ks |>).
  assert (Inv es w1) as Hw1.
  { destruct Hw as [Hq Hr Hs Hc Hst]. split; cbn; [done..| |done]. intros k token Hk. apply Hc. revert Hk. clear. induction ks as [|k' ks IH]; [done|]. cbn.
    intros [_ Hk]%lookup_delete_Some. by apply IH. }
  rewrite M_bind_eq. cbn [get]. destruct (w_store w1) as [raw|] eqn:Er; [|done]. destruct (forget raw ks) as [raw'|] eqn:Em; [|done].
  destruct (w_writable w1); [|done]. apply (store_keeps es w1 raw raw' Hw1 Er). intros p Hp. apply (inv_store _ _ Hw1 raw); [done|]. by eapply forget_items.
Qed.
Lemma ran_keeps es job outcome refresh w : let e := Turn outcome refresh in same_view w (after es) → Inv es w → job_ok es job → (∃ queue, w_queue (after es) = job :: queue) →
  Inv (es ++ [e]) (ran job outcome refresh w).2.
Proof.
  intros e Hview Hw Hj [queue Hq]. pose proof (inv_more _ [e] _ Hw) as Hw'. destruct job as [r p accepted|id p tx group].
  - destruct outcome as [o|]; cbn [ran]; [|by apply answer_keeps]. unfold dequeued.
    assert ((r_refresh r = true → refresh = Current) → Inv (es ++ [e]) (send_reply r p accepted w).2) as Hsend.
    { intros Hc. apply send_reply_keeps; [done..|]. left. exists p, accepted, queue, o, refresh. done. }
    destruct (r_refresh r); [|by apply Hsend]. destruct refresh; [by apply Hsend| |by apply answer_keeps|done]. cbn. apply (held_more _ [e]) in Hj.
    destruct Hw' as [Hqu Hr Hs Hc Hst]. split; cbn; [done| |done..]. intros r' p' acc' [Hin|Hin%list_elem_of_singleton]%elem_of_app; [by eapply Hr|]. by injection Hin as -> -> ->.
  - apply (job_more _ [e]) in Hj. destruct Hj as [Hs Hg]. assert (∀ m : Op (), stable (Inv (es ++ [e])) m → Inv (es ++ [e]) ((emit (Sent id p tx);; m) w).2) as Hsent.
    { intros m Hm. rewrite M_bind_eq. cbn [emit modify]. apply Hm, inv_log; [done|]. by intros id' p' tx' [= <- <- <-]. }
    destruct outcome as [transfer|x]; cbn [ran]; apply Hsent; intros w' Hw1.
    + unfold succeeded. assert (stable (Inv (es ++ [e])) (emit (Recorded tx transfer);; answer id (Ok transfer))) as Hrest by (apply keeps_bind; [apply _|by apply emit_keeps|intros _; apply answer_keeps]).
      destruct group as [[k token]|]; [|by apply Hrest]. rewrite M_bind_eq. pose proof (remember_keeps _ k token w' Hw1 (Hg k token eq_refl)) as Hrem.
      destruct (_remember_confirmed_group k token w') as [[[]|] w2]; [by apply Hrest|done].
    + unfold _operation_failed. destruct x; by apply answer_keeps.
Qed.
Lemma step_keeps es e : Inv es (after es) → Inv (es ++ [e]) (step e (after es)).2.
Proof.
  intros Hw. pose proof (inv_more _ [e] _ Hw) as Hw'. destruct e as [key body c x refresh|recipient body|outcome refresh|waiter outcome|ks|threads|map p|up|writable]; cbn [step].
  - rewrite M_bind_eq. cbn [get]. rewrite M_bind_eq. cbn [modify]. apply attempt_keeps. apply (send_to_thread_keeps es (mkRequest _ _ _ _ _ _)); [done|by destruct Hw|done].
  - rewrite M_bind_eq. cbn [get]. rewrite M_bind_eq. cbn [modify]. apply attempt_keeps, send_keeps; [done|by destruct Hw|done].
  - rewrite M_bind_eq. cbn [get]. destruct (w_queue (after es)) as [|job queue] eqn:Eq; [done|]. rewrite M_bind_eq. cbn [modify]. apply deliver_keeps, ran_keeps; [done| | |by exists queue].
    + destruct Hw as [Hq Hr Hs Hc Hst]. split; cbn; [|done..]. intros j Hj. apply Hq. rewrite Eq. by right.
    + apply (inv_queue _ _ Hw). rewrite Eq. left.
  - rewrite M_bind_eq. cbn [get]. destruct (w_refreshing (after es) !! waiter) as [[[r p] accepted]|] eqn:Er; [|done]. rewrite M_bind_eq. cbn [modify]. set (w1 := _ <| w_refreshing ::= _ |>).
    assert (Inv es w1) as Hw1.
    { destruct Hw as [Hq Hr Hs Hc Hst]. split; cbn; [done| |done..]. intros r' p' acc' Hin. eapply Hr. apply list_elem_of_lookup in Hin as [j Hj].
      cbn in Hj. rewrite list_lookup_delete in Hj. by eapply list_elem_of_lookup_2. }
    destruct outcome as [[]|]; [|by apply answer_keeps, inv_more]. apply attempt_keeps, send_reply_keeps; [done|done| |right; eauto]. eapply (inv_refreshing _ _ Hw). by eapply list_elem_of_lookup_2.
  - by apply forget_keeps.
  - by destruct Hw'.
  - by destruct Hw'.
  - by destruct Hw'.
  - by destruct Hw'.
Qed.
Lemma run_snoc es e : after (es ++ [e]) = (step e (after es)).2.
Proof. unfold run. by rewrite fmap_app, run_all_app. Qed.
Lemma sender_inv es : Inv es (after es).
Proof.
  induction es as [|e es IH] using rev_ind; [|rewrite run_snoc; by apply step_keeps].
  split; cbn; [by intros job Hj%elem_of_nil|by intros r p a Hj%elem_of_nil|by intros id p tx Hj%elem_of_nil|by intros k t; rewrite lookup_empty|].
  intros raw p Hraw Hp. right. exists raw. by destruct p.
Qed.

(** ** The token and its roster *)

Definition one_line (s : ustr) : Prop := LF ∉ s.
Lemma split_on_aux_line sep cur x : sep ∉ x → split_on_aux sep cur x = [reverse cur ++ x].
Proof.
  revert cur. induction x as [|c x IH]; intros cur Hx; cbn; [by rewrite app_nil_r|]. apply not_elem_of_cons in Hx as [Hc Hx].
  destruct (Z.eqb_spec c sep); [congruence|]. rewrite IH by done. by rewrite reverse_cons, <- app_assoc.
Qed.
Lemma split_on_aux_more sep cur x s : sep ∉ x → split_on_aux sep cur (x ++ sep :: s) = (reverse cur ++ x) :: split_on_aux sep [] s.
Proof.
  revert cur. induction x as [|c x IH]; intros cur Hx; cbn; [by rewrite Z.eqb_refl, app_nil_r|]. apply not_elem_of_cons in Hx as [Hc Hx].
  destruct (Z.eqb_spec c sep); [congruence|]. rewrite IH by done. by rewrite reverse_cons, <- app_assoc.
Qed.
Lemma split_join_lines sep x l : Forall (λ s, sep ∉ s) (x :: l) → split_on sep (join [sep] (x :: l)) = x :: l.
Proof.
  revert x. induction l as [|y l IH]; intros x [Hx Hl]%Forall_cons; unfold split_on; [by apply (split_on_aux_line sep [])|].
  change (join [sep] (x :: y :: l)) with (x ++ sep :: join [sep] (y :: l)). rewrite split_on_aux_more by done. cbn [reverse rev_append app]. f_equal. by apply IH.
Qed.
(** Rosters with one token are one roster, for addresses on one line. *)
Lemma token_roster shown warning rs w : Forall one_line (warning :: shown) → Forall one_line (w :: rs) →
  group_confirmation_token shown warning = group_confirmation_token rs w → warning = w ∧ ∀ a, a ≠ [] → a ∈ shown ↔ a ∈ rs.
Proof.
  assert (∀ l a, a ∈ sorted_set (List.filter (λ r, negb (is_nil r)) l) ↔ a ∈ l ∧ a ≠ []) as Hset.
  { intros l a. change (sorted_set (List.filter (λ r, negb (is_nil r)) l)) with (sorted_texts (remove_dups (List.filter (λ r, negb (is_nil r)) l))).
    rewrite elem_of_sorted_texts, elem_of_remove_dups, list_elem_of_In, filter_In, <- list_elem_of_In. destruct a; cbn; intuition congruence. }
  assert (∀ l, Forall one_line l → Forall (λ s, LF ∉ s) (sorted_set (List.filter (λ r, negb (is_nil r)) l))) as Hline.
  { intros l Hl. apply Forall_forall. intros a Ha. apply Hset in Ha as [Ha _]. rewrite Forall_forall in Hl. by apply Hl. }
  intros [Hw Hs]%Forall_cons [Hw' Hr]%Forall_cons Heq. unfold group_confirmation_token in Heq. apply (f_equal (split_on LF)) in Heq.
  rewrite !split_join_lines in Heq by (constructor; [done|by apply Hline]). injection Heq as Hww Hl. split; [done|].
  intros a Ha. split; intros Hin; [assert (a ∈ shown ∧ a ≠ []) as Hx by done|assert (a ∈ rs ∧ a ≠ []) as Hx by done]; apply Hset in Hx; [rewrite Hl in Hx|rewrite <- Hl in Hx]; by apply Hset in Hx as [Hx _].
Qed.

(** C39: What is sent is what the user confirmed.  Every message given to the
    transport is a client's, with its body.  The destinations of a reply are
    those that the conversations gave for its key when the request was accepted,
    and again when its turn came, both moments of the run: the one address of a
    conversation that may be answered (or whose ambiguous messages the client
    confirmed by their token), or the valid, distinct addresses of a group that
    may be answered, whose token the client sent, and whose roster the user
    approved with this request, with an earlier one of the run that had that
    roster, or before the run.  A client that made the token from a roster it
    showed showed exactly the recipients.  A reply to one takes the MAP session
    of its turn, a reply to a group that of its acceptance. *)
Theorem sent_as_confirmed es id p tx : Sent id p tx ∈ w_log (after es) →
  sent_direct es id p tx ∨
  ∃ t' r token', replied es id p tx t' r token' ∧
    ∀ shown warning, t_is_group t' = true → Forall one_line (warning :: shown) → Forall one_line (t_roster_warning_id t' :: t_recipients t') →
      r_token r = group_confirmation_token shown warning → warning = t_roster_warning_id t' ∧ ∀ a, a ≠ [] → a ∈ shown ↔ a ∈ t_recipients t'.
Proof.
  intros Hs. destruct (inv_sent _ _ (sender_inv es) _ _ _ Hs) as [(t' & r & k' & Hr)|?]; [right|by left].
  exists t', r, k'. split; [done|]. intros shown warning Hg Hshown Hrs Htok. destruct Hr as (es0 & es1 & e & es2 & t & rs & k & _ & _ & _ & _ & _ & [(_ & _ & Hj) _] & _).
  destruct k' as [k'|]; [|destruct Hj as [Hg' _]; congruence]. destruct Hj as (_ & _ & _ & _ & _ & Hk & Hk'). apply token_roster; [done..|]. congruence.
Qed.
End safety.

(** ** A concrete run *)

#[local] Instance send_digests : Digests := demo_digests.
(** The group of Alice and Bob is answered once its roster is confirmed; the
    session moved to another object meanwhile. *)
#[local] Existing Instances thread_resolver demo_directory.
Definition demo_conversations : list Thread := or_else [] (build_threads demo_group).
Definition demo_roster : list ustr := [lit "+1 555 000 0001"; lit "+1 555 000 0002"].
Definition demo_key : ustr := default [] (t_key <$> List.find t_is_group demo_conversations).
Definition demo_run : list event :=
  [Projection (Some demo_conversations); Session true (lit "/session1"); SendToThread demo_key (lit "hi") true (group_confirmation_token demo_roster []) true;
   Session true (lit "/session2"); Turn (Ok []) Reads; Refreshed 0 (Ok ()); Turn (Ok (lit "transfer1")) Current].
Definition demo_transfer : Transfer := ToGroup [lit "+15550000001"; lit "+15550000002"] (lit "hi").
(** The group message goes to the session of its acceptance, which is gone. *)
Example group_reply_uses_the_old_session : Sent 0 (lit "/session1") demo_transfer ∈ w_log (run None demo_run).
Proof.
  assert (w_log (run None demo_run) !! 0%nat = Some (Sent 0 (lit "/session1") demo_transfer)) as Hl by (vm_compute; reflexivity). by eapply list_elem_of_lookup_2.
Qed.
Lemma sent_as_confirmed_witness : Sent 0 (lit "/session1") demo_transfer ∈ w_log (run None demo_run) ∧
  (sent_direct None demo_run 0 (lit "/session1") demo_transfer ∨
  ∃ t' r token', replied None demo_run 0 (lit "/session1") demo_transfer t' r token' ∧
    ∀ shown warning, t_is_group t' = true → Forall one_line (warning :: shown) → Forall one_line (t_roster_warning_id t' :: t_recipients t') →
      r_token r = group_confirmation_token shown warning → warning = t_roster_warning_id t' ∧ ∀ a, a ≠ [] → a ∈ shown ↔ a ∈ t_recipients t').
Proof. split; [exact group_reply_uses_the_old_session|apply (sent_as_confirmed None demo_run 0 (lit "/session1")), group_reply_uses_the_old_session]. Defined.
