(* ===== verification/SendOnce.v ===== *)
(** * SendOnce: each request is answered once.

    A request is answered or waits in the queue or for a refresh, never two of
    these, and never none unless its refresh raised; and what reached the
    transport was answered. *)
From S2P Require Import Prelude PyStr Wire Text Recipients Json Events NamedGroups Grouping Threads ConfirmedGroups SendThread SendSafety.

Section once.
Context `{CaseMapping, Digests}.

Definition count {A} (p : A → bool) (l : list A) : nat := length (List.filter p l).
#[local] Arguments count : simpl never.
Lemma count_entries_app {A} (p : A → bool) l k : count p (l ++ k) = (count p l + count p k)%nat.
Proof. unfold count. by rewrite List.filter_app, length_app. Qed.
Definition one (b : bool) : nat := if b then 1 else 0.
Lemma count_one {A} (p : A → bool) x : count p [x] = one (p x).
Proof. unfold count. cbn. by destruct (p x). Qed.
Definition answers_of (id : nat) (e : Entry) : bool := match e with Answered j _ => (j =? id)%nat | _ => false end.
Definition sends_of (id : nat) (e : Entry) : bool := match e with Sent j _ _ => (j =? id)%nat | _ => false end.
Definition job_of (id : nat) (job : Job) : bool := match job with Hold r _ _ => (r_id r =? id)%nat | Transmit j _ _ _ => (j =? id)%nat end.
Definition waits_of (id : nat) (x : Request * ustr * list ustr) : bool := (r_id x.1.1 =? id)%nat.
Definition drops_of (id : nat) (e : Entry) : bool := match e with CallbackRaised j => (j =? id)%nat | _ => false end.
Definition lost (w : World) (id : nat) : nat := count (drops_of id) (w_log w).
Definition answered (w : World) (id : nat) : nat := count (answers_of id) (w_log w).
Definition waiting (w : World) (id : nat) : nat := (count (job_of id) (w_queue w) + count (waits_of id) (w_refreshing w))%nat.
Definition transmitted (w : World) (id : nat) : nat := count (sends_of id) (w_log w).

(** An operation that concerns no request, or that answers or queues one. *)
Definition quiet (w w' : World) : Prop := w_next w' = w_next w ∧ ∀ j, answered w' j = answered w j ∧ waiting w' j = waiting w j ∧ transmitted w' j = transmitted w j ∧ lost w' j = lost w j.
Definition settles (id : nat) (w w' : World) : Prop :=
  w_next w' = w_next w ∧ ∀ j, (answered w' j + waiting w' j = answered w j + waiting w j + one (id =? j) ∧ answered w j <= answered w' j ∧ transmitted w' j = transmitted w j ∧ lost w' j = lost w j)%nat.
Lemma quiet_refl w : quiet w w. Proof. done. Qed.
Lemma quiet_settles id w w' w'' : quiet w w' → settles id w' w'' → settles id w w''.
Proof. intros [Hn Hq] [Hn' Hs]. split; [congruence|]. intros j. specialize (Hq j). specialize (Hs j). lia. Qed.

Lemma answer_settles id a w : settles id w (answer id a w).2.
Proof. split; [done|]. intros j. unfold answered, waiting, transmitted, lost. cbn. rewrite !count_entries_app, !count_one. unfold one. cbn. destruct (id =? j)%nat; lia. Qed.
Lemma queue_settles id job w : (∀ j, job_of j job = (id =? j)%nat) → settles id w (_queue id job w).2.
Proof.
  intros Hj. unfold _queue. rewrite M_bind_eq. cbn [get]. destruct (w_worker w); [|apply answer_settles]. split; [done|]. intros j.
  unfold answered, waiting, transmitted, lost. cbn. rewrite !count_entries_app, !count_one, Hj. unfold one. destruct (id =? j)%nat; lia.
Qed.
Lemma queue_send_settles id recipient body w : settles id w (_queue_send id recipient body w).2.
Proof. unfold _queue_send. rewrite M_bind_eq. cbn [get]. by apply queue_settles. Qed.
Lemma or_failure_settles {A} id (m : Op A) f w : (∀ a, (m w).1 = Ok a → (m w).2 = w → settles id w (f a w).2) → (m w).2 = w → settles id w (or_failure id m f w).2.
Proof.
  intros Hf Hm. unfold or_failure. destruct (m w) as [[a|e] w'] eqn:E; cbn in *; subst w'; [by apply Hf|]. apply answer_settles.
Qed.
Lemma send_reply_settles r p accepted w : accepted ≠ [] → settles (r_id r) w (send_reply r p accepted w).2.
Proof.
  intros Hne. unfold send_reply. apply or_failure_settles; [|apply route_state]. intros [[t rs] token] _ _. destruct (bool_decide (rs = accepted)) eqn:E; cbn [negb]; [|apply answer_settles].
  apply bool_decide_eq_true in E. subst rs. destruct token; [by apply queue_settles|]. destruct accepted; [done|]. apply queue_send_settles.
Qed.

Lemma remember_quiet k token w : quiet w (_remember_confirmed_group k token w).2.
Proof.
  unfold _remember_confirmed_group. rewrite M_bind_eq. cbn [modify]. rewrite M_bind_eq. cbn [get]. destruct (w_store _); [|done].
  destruct (remember _ _ _); [|done]. by destruct (w_writable _).
Qed.
Lemma remember_returns k token w : (_remember_confirmed_group k token w).1 = Ok ().
Proof.
  unfold _remember_confirmed_group. rewrite M_bind_eq. cbn [modify]. rewrite M_bind_eq. cbn [get]. destruct (w_store _); [|done].
  destruct (remember _ _ _); [|done]. by destruct (w_writable _).
Qed.
Lemma forget_quiet ks w : quiet w (_forget_confirmed_groups ks w).2.
Proof.
  unfold _forget_confirmed_groups. rewrite M_bind_eq. cbn [modify]. rewrite M_bind_eq. cbn [get]. destruct (w_store _); [|done].
  destruct (forget _ _); [|done]. by destruct (w_writable _).
Qed.
Lemma attempt_settles id (m : Op ()) w : (∀ a, (m w).1 = Ok a → settles id w (m w).2) → (∀ e, (m w).1 = Raise e → (m w).2 = w) → settles id w (attempt id m w).2.
Proof. unfold attempt, or_failure. destruct (m w) as [[a|e] w']; cbn; [intros Hm _; by apply (Hm a)|]. intros _ Hm. rewrite (Hm e eq_refl). apply answer_settles. Qed.
Lemma send_to_thread_settles r w : settles (r_id r) w (attempt (r_id r) (send_to_thread r) w).2.
Proof.
  unfold attempt, or_failure, send_to_thread. destruct (_ <? _); [apply answer_settles|]. destruct (is_nil _); [apply answer_settles|]. destruct (_ <? _); [apply answer_settles|].
  rewrite M_bind_eq. unfold lift. destruct (_validate_body _); [|apply answer_settles]. rewrite M_bind_eq. pose proof (route_state (r_key r) (r_confirm r) (r_token r) w) as Hstate.
  destruct (_thread_route _ _ _ w) as [[[[t rs] token]|e] w1]; cbn in Hstate; subst w1; [|apply answer_settles]. rewrite M_bind_eq. cbn [get].
  assert (∀ job, (_queue (r_id r) job w).1 = Ok ()) as Hok by (intros job; unfold _queue; rewrite M_bind_eq; cbn [get]; by destruct (w_worker w)).
  set (job := Hold _ _ _). pose proof (queue_settles (r_id r) job w ltac:(done)) as Hq. specialize (Hok job). destruct (_queue (r_id r) job w) as [[[]|] w2]; [exact Hq|done].
Qed.
Lemma send_settles id recipient body w : settles id w (attempt id (send id recipient body) w).2.
Proof.
  unfold attempt, or_failure, send. destruct (is_nil _); [apply answer_settles|]. rewrite M_bind_eq. unfold lift. destruct (_validate_body body); [|apply answer_settles]. rewrite M_bind_eq.
  destruct (validate_recipient recipient) as [rc|]; [|apply answer_settles]. rewrite M_bind_eq. unfold _require_map. rewrite M_bind_eq. cbn [get]. destruct (w_map w); [|apply answer_settles].
  cbn [mret M_ret]. pose proof (queue_send_settles id rc body w) as Hq. assert ((_queue_send id rc body w).1 = Ok ()) as Hok.
  { unfold _queue_send, _queue. rewrite M_bind_eq. cbn [get]. rewrite M_bind_eq. cbn [get]. by destruct (w_worker w). }
  destruct (_queue_send id rc body w) as [[[]|] w2]; [exact Hq|done].
Qed.
(** What the worker ran is answered, goes on waiting, or is a reply whose
    refresh raises. *)
Definition settled (raised : Prop) (id : nat) (w w' : World) : Prop :=
  w_next w' = w_next w ∧ ∀ j, (answered w' j + waiting w' j + lost w' j = answered w j + waiting w j + lost w j + one (id =? j) ∧
    transmitted w' j + answered w j <= transmitted w j + answered w' j ∧ answered w j <= answered w' j)%nat ∧
    (lost w' j = lost w j ∨ (raised ∧ id = j)).
Lemma settles_settled raised id w w' : settles id w w' → settled raised id w w'.
Proof. intros [Hn Hs]. split; [done|]. intros j. specialize (Hs j). split; [lia|left; lia]. Qed.
Lemma entries_quiet w e : (∀ j, answers_of j e = false ∧ sends_of j e = false ∧ drops_of j e = false) → quiet w (w <| w_log ::= λ l, l ++ [e] |>).
Proof.
  intros He. split; [done|]. intros j. destruct (He j) as (Ha & Hs & Hd). unfold answered, waiting, transmitted, lost. cbn. rewrite !count_entries_app, !count_one, Ha, Hs, Hd. cbn. lia.
Qed.
Lemma quiet_trans w w' w'' : quiet w w' → quiet w' w'' → quiet w w''.
Proof. intros [Hn Hq] [Hn' Hq']. split; [congruence|]. intros j. specialize (Hq j). specialize (Hq' j). lia. Qed.
(** A message reaches the transport and is then answered. *)
Lemma transmit_settled raised id p tx a w w2 : quiet (w <| w_log ::= λ l, l ++ [Sent id p tx] |>) w2 → settled raised id w (answer id a w2).2.
Proof.
  set (w1 := w <| w_log ::= _ |>). intros [Hn Hq]. destruct (answer_settles id a w2) as [Hn' Hs]. split; [by rewrite Hn', Hn|]. intros j. specialize (Hs j). specialize (Hq j).
  assert (answered w1 j = answered w j ∧ waiting w1 j = waiting w j ∧ transmitted w1 j = transmitted w j + one (id =? j) ∧ lost w1 j = lost w j)%nat as H1.
  { unfold answered, waiting, transmitted, lost. cbn. rewrite !count_entries_app, !count_one. cbn. split_and!; lia. }
  assert (answered (answer id a w2).2 j = answered w2 j + one (id =? j))%nat as Ha by (unfold answered; cbn; by rewrite count_entries_app, count_one).
  split; [lia|left; lia].
Qed.
Lemma succeeded_settled raised id p tx group transfer w : settled raised id w (succeeded id tx group transfer (w <| w_log ::= λ l, l ++ [Sent id p tx] |>)).2 ∧
  (succeeded id tx group transfer (w <| w_log ::= λ l, l ++ [Sent id p tx] |>)).1 = Ok ().
Proof.
  set (w1 := w <| w_log ::= _ |>). unfold succeeded. rewrite M_bind_eq.
  assert (∀ w2, quiet w1 w2 → settled raised id w ((emit (Recorded tx transfer);; answer id (Ok transfer)) w2).2) as Hend.
  { intros w2 Hq. rewrite M_bind_eq. cbn [emit modify]. apply (transmit_settled raised id p tx (Ok transfer) w). eapply quiet_trans; [exact Hq|]. by apply entries_quiet. }
  destruct group as [[k token]|]; [|by split; [apply Hend|]].
  pose proof (remember_quiet k token w1) as Hq. pose proof (remember_returns k token w1) as Hok. destruct (_remember_confirmed_group k token w1) as [[[]|] w2]; [|done].
  by split; [apply Hend|].
Qed.
Lemma send_reply_returns r p accepted w : accepted ≠ [] → (send_reply r p accepted w).1 = Ok ().
Proof.
  intros Hne. assert (∀ id job w', (_queue id job w').1 = Ok ()) as Hq by (intros id job w'; unfold _queue; rewrite M_bind_eq; cbn [get]; by destruct (w_worker w')).
  unfold send_reply, or_failure. destruct (_thread_route _ _ _ w) as [[[[t rs] token]|e] w1]; [|done]. destruct (bool_decide (rs = accepted)) eqn:E; cbn [negb]; [|done].
  apply bool_decide_eq_true in E. subst rs. destruct token; [apply Hq|]. destruct accepted; [done|]. unfold _queue_send. rewrite M_bind_eq. cbn [get]. apply Hq.
Qed.
Lemma deliver_settled raised id (m : Op ()) w : settled raised id w (m w).2 → (m w).1 = Ok () → settled raised id w (_deliver id m w).2.
Proof. unfold _deliver. by destruct (m w) as [[]]. Qed.
(** The job is a reply that is to be refreshed, and its refresh raises. *)
Definition raising (job : Job) (outcome : result ustr) (refresh : Refresh) : Prop :=
  ∃ r map_path accepted o error, job = Hold r map_path accepted ∧ r_refresh r = true ∧ outcome = Ok o ∧ refresh = Raises error.
Lemma hold_settled r p accepted outcome refresh w : accepted ≠ [] → let job := Hold r p accepted in
  settled (raising job outcome refresh) (r_id r) w (_deliver (r_id r) (ran job outcome refresh) w).2.
Proof.
  intros Hne job. set (raised := raising _ _ _). assert (settled raised (r_id r) w (_deliver (r_id r) (send_reply r p accepted) w).2) as Hsend.
  { apply deliver_settled; [by apply settles_settled, send_reply_settles|by apply send_reply_returns]. }
  assert (∀ e, settled raised (r_id r) w (_deliver (r_id r) (answer (r_id r) (Raise e)) w).2) as Hanswer by (intros e; by apply deliver_settled; [apply settles_settled, answer_settles|]).
  subst raised job. destruct outcome as [o|e]; cbn [ran]; [|apply Hanswer]. unfold dequeued. destruct (r_refresh r) eqn:Er; [|exact Hsend].
  destruct refresh as [| |e|e]; [exact Hsend| |apply Hanswer|]; (split; [done|]); intros j; unfold answered, waiting, transmitted, lost; cbn; rewrite !count_entries_app, !count_one;
    unfold one, waits_of; cbn; (split; [destruct (r_id r =? j)%nat; lia|]); [left; lia|].
  destruct (Nat.eqb_spec (r_id r) j); [right|left; lia]. split; [|done]. by exists r, p, accepted, o, e.
Qed.
Lemma ran_settled job outcome refresh w : (∀ r p accepted, job = Hold r p accepted → accepted ≠ []) →
  settled (raising job outcome refresh) (job_id job) w (_deliver (job_id job) (ran job outcome refresh) w).2.
Proof.
  intros Hne. destruct job as [r p accepted|id p tx group]; [apply hold_settled; by eapply Hne|]. cbn [job_id]. set (raised := raising _ _ _).
  destruct outcome as [transfer|e].
  - destruct (succeeded_settled raised id p tx group transfer w) as [Hs Hok]. by apply deliver_settled.
  - assert (∀ a, settled raised id w (answer id a (w <| w_log ::= λ l, l ++ [Sent id p tx] |>)).2) as Ha by (intros a; by apply (transmit_settled raised id p tx a w)).
    cbn [ran]. apply deliver_settled; rewrite M_bind_eq; cbn [emit modify]; unfold _operation_failed; destruct e; done || apply Ha.
Qed.

(** ** All steps *)

Context (store0 : option mapping).
Abbreviation after := (run store0).
(** [w] is the state before [e]: [id] is a reply whose turn it is and whose
    refresh raises. *)
Definition refresh_raises (w : World) (e : event) (id : nat) : Prop :=
  ∃ r map_path accepted queue outcome error, w_queue w = Hold r map_path accepted :: queue ∧ r_id r = id ∧ r_refresh r = true ∧ e = Turn (Ok outcome) (Raises error).
Definition once (w : World) : Prop :=
  ∀ j, (answered w j + waiting w j + lost w j = one (j <? w_next w) ∧ transmitted w j <= answered w j)%nat.
Lemma held_nonempty es r p accepted : held store0 es r p accepted → accepted ≠ [].
Proof. intros (es0 & es1 & t & [token|] & _ & _ & _ & [(_ & _ & Hj) _]) ->; cbn in Hj; destruct_and! Hj; [lia|done]. Qed.
Lemma count_delete {A} (p : A → bool) l n x : l !! n = Some x → count p l = (one (p x) + count p (delete n l))%nat.
Proof.
  revert n. induction l as [|y l IH]; intros [|n] Hn; [done|done| |].
  - injection Hn as ->. unfold count. cbn. by destruct (p x).
  - specialize (IH n Hn). change (count p (y :: l)) with (length (List.filter p ([y] ++ l))). change (delete (S n) (y :: l)) with ([y] ++ delete n l).
    rewrite List.filter_app, length_app, count_entries_app. unfold count in *. lia.
Qed.
(** Taking a new id, then settling it. *)
Lemma request_once w (m : Op ()) : once w → (∀ w1, w_next w1 = S (w_next w) → settles (w_next w) w1 (m w1).2) →
  let w' := ((modify (λ w : World, w <| w_next ::= S |>);; m) w).2 in once w' ∧ ∀ j, lost w' j = lost w j.
Proof.
  intros Hw Hm. rewrite M_bind_eq. cbn [modify]. set (w1 := _ <| w_next ::= _ |>). destruct (Hm w1 eq_refl) as [Hn Hs].
  cbn zeta. split; [|intros j; apply Hs]. intros j. specialize (Hs j). specialize (Hw j). rewrite Hn. change (w_next w1) with (S (w_next w)).
  change (answered w1 j) with (answered w j) in Hs. change (waiting w1 j) with (waiting w j) in Hs. change (transmitted w1 j) with (transmitted w j) in Hs. change (lost w1 j) with (lost w j) in Hs.
  unfold one in *. destruct (Nat.ltb_spec j (w_next w)), (Nat.ltb_spec j (S (w_next w))), (Nat.eqb_spec (w_next w) j); lia.
Qed.
(** A callback that ends a request which waited. *)
Lemma settled_once raised w w1 w' id : once w → w_next w1 = w_next w → (∀ j, answered w1 j = answered w j ∧ waiting w j = (waiting w1 j + one (id =? j))%nat ∧
  transmitted w1 j = transmitted w j ∧ lost w1 j = lost w j) → settled raised id w1 w' → once w' ∧ ∀ j, lost w' j = lost w j ∨ (raised ∧ id = j).
Proof.
  intros Hw Hn1 H1 [Hn Hs]. split; intros j; specialize (Hw j); specialize (H1 j); specialize (Hs j) as [Hs Hl]; [rewrite Hn, Hn1; lia|]. destruct H1 as (_ & _ & _ & <-). done.
Qed.
Lemma quiet_once w w' : once w → quiet w w' → once w'.
Proof. intros Hw [Hn Hq] j. specialize (Hw j). specialize (Hq j). rewrite Hn. lia. Qed.
Lemma queue_nonempty es r p accepted queue : w_queue (after es) = Hold r p accepted :: queue → accepted ≠ [].
Proof. intros Hq. apply (held_nonempty es r p), (inv_queue _ _ _ (sender_inv store0 es) (Hold r p accepted)). rewrite Hq. left. Qed.
Lemma attempt_send_reply raised r p accepted w : accepted ≠ [] → settled raised (r_id r) w (attempt (r_id r) (send_reply r p accepted) w).2.
Proof.
  intros Hne. pose proof (send_reply_settles r p accepted w Hne) as Hs. pose proof (send_reply_returns r p accepted w Hne) as Hr. unfold attempt, or_failure.
  destruct (send_reply r p accepted w) as [[[]|] w']; [|done]. by apply settles_settled.
Qed.
(** A step keeps the balance, and loses no request but one whose refresh raises. *)
Definition steady (w w' : World) (e : event) : Prop := once w' ∧ ∀ j, lost w' j = lost w j ∨ refresh_raises w e j.
Lemma quiet_steady w w' e : once w → quiet w w' → steady w w' e.
Proof. intros Hw Hq. split; [by eapply quiet_once|]. intros j. left. apply Hq. Qed.
Lemma step_once es e : once (after es) → steady (after es) (step e (after es)).2 e.
Proof.
  intros Hw. destruct e as [key body c x refresh|recipient body|outcome refresh|waiter outcome|ks|threads|map p|up|writable]; cbn [step].
  - rewrite M_bind_eq. cbn [get]. destruct (request_once (after es) (attempt (w_next (after es)) (send_to_thread (mkRequest (w_next (after es)) key body c x refresh)))) as [Ho Hl]; [done| |split; [done|by left]].
    intros w1 _. apply (send_to_thread_settles (mkRequest (w_next (after es)) key body c x refresh)).
  - rewrite M_bind_eq. cbn [get]. destruct (request_once (after es) (attempt (w_next (after es)) (send (w_next (after es)) recipient body))) as [Ho Hl]; [done| |split; [done|by left]].
    intros w1 _. apply send_settles.
  - rewrite M_bind_eq. cbn [get]. destruct (w_queue (after es)) as [|job queue] eqn:Eq; [by apply quiet_steady|]. rewrite M_bind_eq. cbn [modify]. set (w1 := _ <| w_queue := queue |>).
    destruct (settled_once (raising job outcome refresh) (after es) w1 (_deliver (job_id job) (ran job outcome refresh) w1).2 (job_id job)) as [Ho Hl]; [done|done| | |split; [done|]].
    + intros j. split; [done|]. split; [|done]. unfold waiting. rewrite Eq. cbn. change (job :: queue) with ([job] ++ queue). rewrite count_entries_app, count_one. destruct job; cbn; lia.
    + apply ran_settled. intros r p accepted ->. by eapply queue_nonempty.
    + intros j. destruct (Hl j) as [Hj|[(r & p & accepted & o & error & -> & Hr & -> & ->) Hj]]; [by left|right]. by exists r, p, accepted, queue, o, error.
  - rewrite M_bind_eq. cbn [get]. destruct (w_refreshing (after es) !! waiter) as [[[r p] accepted]|] eqn:Er; [|by apply quiet_steady]. rewrite M_bind_eq. cbn [modify]. set (w1 := _ <| w_refreshing ::= _ |>).
    assert (accepted ≠ []) as Hne by (apply (held_nonempty es r p), (inv_refreshing _ _ _ (sender_inv store0 es)); by eapply list_elem_of_lookup_2).
    set (m := match outcome with Ok _ => _ | Raise _ => _ end). destruct (settled_once False (after es) w1 (m w1).2 (r_id r)) as [Ho Hl]; [done|done| | |split; [done|]].
    + intros j. split; [done|]. split; [|done]. unfold waiting. cbn. rewrite (count_delete _ _ _ _ Er). unfold waits_of at 1. cbn. lia.
    + subst m. destruct outcome; [by apply attempt_send_reply|apply settles_settled, answer_settles].
    + intros j. destruct (Hl j) as [Hj|[[] _]]. by left.
  - apply quiet_steady; [done|apply forget_quiet].
  - by apply quiet_steady.
  - by apply quiet_steady.
  - by apply quiet_steady.
  - by apply quiet_steady.
Qed.

(** C40: Each request is answered once, but for one error.  After any steps a
    request has exactly one answer, or none yet and exactly one place in the
    Bluetooth queue or in the wait for a refresh, or it is lost; ids not given
    out have none of these; and a request reaches the transport at most once, and
    only to be answered.  A request is lost only as a reply whose turn came and
    whose refresh raised instead of calling back: the worker logs what its
    callback raises, and the client gets no answer. *)
Theorem answered_once es id : let w := after es in
  (answered w id + waiting w id + lost w id = one (id <? w_next w) ∧ transmitted w id <= answered w id)%nat ∧
  (lost w id = 0%nat ∨ ∃ es1 e es2, es = es1 ++ e :: es2 ∧ refresh_raises (after es1) e id).
Proof.
  cbn zeta. assert (once (after es) ∧ ∀ j, lost (after es) j = 0%nat ∨ ∃ es1 e es2, es = es1 ++ e :: es2 ∧ refresh_raises (after es1) e j) as [Ho Hl]; [|by split].
  induction es as [|e es [Ho Hl]] using rev_ind; [split; [|by left]; intros j; unfold answered, waiting, transmitted, lost, count, one; cbn; lia|].
  rewrite run_snoc. destruct (step_once es e Ho) as [Ho' Hl']. split; [done|]. intros j. destruct (Hl' j) as [->|Hr]; [|right; by exists es, e, []].
  destruct (Hl j) as [Hj|(es1 & e1 & es2 & -> & Hr)]; [by left|right]. exists es1, e1, (es2 ++ [e]). by rewrite <- app_assoc.
Qed.
End once.

(** ** The lost reply *)

#[local] Existing Instance send_digests.
(** The history file cannot be looked at when the turn of the reply comes. *)
Definition raising_run : list event := take 4 demo_run ++ [Turn (Ok []) (Raises OSError); Turn (Ok []) Current; Refreshed 0 (Ok ())].
Example refresh_lost : let w := run None raising_run in (answered w 0, waiting w 0, lost w 0) = (0, 0, 1)%nat.
Proof. vm_compute. reflexivity. Qed.
